(* ===== verification/_CoqProject ===== *)
-Q . S2P
Prelude.v
GoBytes.v
GoStrings.v
Sha256.v
Wire.v
ChaCha.v
Cipher.v
PktWriter.v
PktReader.v
Peers.v
Router.v
Finalizer.v
Health.v
Control.v
Udp.v
IpMatch.v
Tun.v
Tcp.v
Http.v
Streams.v
UdpSession.v
Dsl.v
NetIp.v
Config.v
Schema.v
Compile.v
Paths.v
Checked.v
Stats.v
Factory.v
Node.v
NodeBoot.v
NodeEgress.v
NetText.v
KernelNode.v
KernelPolicy.v
KernelApply.v
PrefixFile.v
NodeLoops.v
Startup.v
NetCfg.v
NetCfgDarwin.v
Release.v
ReleaseFacts.v
Warp.v
KernelRun.v
Steering.v
UnionFind.v
SimPlan.v
SimFacts.v
WarpFacts.v
Scenario.v
Oracle.v
Engine.v
EngineFacts.v
