(* ===== verification/Prelude.v ===== *)
(** * dualnet: verification development (root file)

    dualnet is a layer-3 tunnel in Go.  A network is written as a schema of
    nodes, links, egresses and paths; the compiler turns the schema into one
    configuration per node, and each node runs either the userspace datapath (a
    router between a tun device, carriers over UDP, TCP or HTTP, and egresses) or
    the kernel one (WireGuard devices, ip rules and routes).  This development
    models the program from the wire formats up to the compiled network, with the
    theorems that make the parts correct.

    ** The parts, and where they are modelled

    Foundations (Go's standard library as the program uses it)
    - Prelude.v: results [res] with their notations, machine integers, the generic
      list and map lemmas, the hint database and the tactics.
    - GoBytes.v, GoStrings.v: encoding/binary, encoding/hex, io.ReadFull; strings
      and strconv.  NetIp.v, NetText.v: net/netip's parser and printer.
      Sha256.v: SHA-256 and HMAC.

    Bytes on the wire
    - Wire.v: internal/wire (envelopes, frames, pings, inner-IP helpers, tags).
    - ChaCha.v, Cipher.v: internal/cipher (keystream, datagram and stream ciphers,
      frame reading and writing).
    - Control.v: internal/proto, internal/conn control.go, auth.go, util.go.

    The datapath of a node
    - PktWriter.v, PktReader.v: internal/pktbuf, as interleavings of their
      goroutines over the real buffers.
    - Peers.v: internal/peers, with a store of shared peer objects.
    - Router.v: internal/router.  Finalizer.v: internal/finalizer.
      Health.v: internal/healthcheck.  Stats.v: internal/stats.
      IpMatch.v, PrefixFile.v: internal/ipmatch.
    - Tun.v, Udp.v, Tcp.v, Http.v: the carriers of internal/conn, one critical
      section, datagram or frame at a time.  Streams.v: whole sessions of the TCP
      and HTTP carriers on the bytes of a connection that may break anywhere.
      UdpSession.v: the loops of the UDP carrier, and a client with its listener on
      a network that loses, repeats, reorders and adds datagrams.  Factory.v:
      conn.go and factory.go.

    From the schema to running nodes
    - Dsl.v, Schema.v: internal/netschema dsl.go and schema.go (syntax,
      validation).  Compile.v: compile.go.  Config.v: internal/config.
    - Checked.v: what validation establishes and what it is worth to the compiler.
      Paths.v, Steering.v: the compiled rule tables realise the schema's paths.
    - Node.v, NodeEgress.v: internal/node as scripts over fallible system calls;
      NodeBoot.v: validated and compiled configurations start.
      NodeLoops.v: what runs while a node is up (set reloads, collection).
    - KernelNode.v, KernelPolicy.v, KernelApply.v: internal/kernelnode (the plan of
      commands, what the kernel makes of it, installing and removing it);
      KernelRun.v: a kernel node's life, WARP devices and reloads included.
    - NetCfg.v, NetCfgDarwin.v: internal/netcfg on Linux and macOS over any host
      (addresses, capture routes, NAT, forwarding, pins, and their teardowns).
    - Warp.v: internal/warp (accounts, profiles, devices, reserved bytes);
      WarpFacts.v: the simulator's profiles are read as they were written.
    - Startup.v: internal/singleton and internal/netwait (taking over from a
      running instance, waiting for the links).
    - Release.v, ReleaseFacts.v: internal/release (the deployment plan).

    The simulator
    - UnionFind.v, SimPlan.v: internal/netsim plan.go, types.go, warp.go and
      siminit.go (the schema as containers on fabrics); SimFacts.v: its theorems.
    - Scenario.v: scenario.go (the test matrix).  Oracle.v: an abstract mesh, and
      that the matrix expects what the mesh does.
    - Engine.v: engine.go over any driver; EngineFacts.v: its theorems.

    ** How the models correspond to the code

    Definitions carry the names of the functions they translate.  A struct is a
    record, a mutex's critical section one step, a goroutine's loop a set of
    events; an interleaving is a list of events run by the component's step
    function, which is partial where a caller would block.  A function that returns
    (value, error) returns [res].  Clocks, random draws, system calls and files are
    arguments.  Integers are [Z] with the wrap-around written out where the code's
    width matters; bytes are [Z] in [0, 256) (predicate [u8]) or Go byte strings.
    Where objects are shared through pointers (peers, batches, writer arenas, the
    resolved targets of the router) the model keeps the store.

    Components meet at interfaces: [Wire.FrameLink] (what a stream cipher's two
    ends promise to the carriers), [Cipher.DatagramCipher] with [DatagramLaws],
    [Router.Sender] and [Router.Conn], [PrefixFile.PrefixTable] (the third-party
    prefix table), [KernelApply.Machine] with [MachineLaws] and [RouteLaws] (iproute2,
    iptables and sysctl), [NetCfg.Host] with [HostLaws] (the same tools as internal/netcfg uses
    them), [Engine.Driver] with [EngineFacts.Faithful] (the simulator's mesh).
    Clients are proved against the class; instances discharge it.

    ** What the theorems show

    - Wire and ciphers: what one end writes the other reads, in order and over any
      splitting of the stream; the keystream is a cursor in the textbook stream;
      control datagrams that decode were sealed under the key.
    - Queues: the writer emits exactly the packets accepted, in order, whatever the
      interleaving; the reader delivers batches in order without loss.
    - Registry and freshness: replayed registrations are refused while their peer is
      registered, replayed downloads by a known id always; the minting of ids
      terminates with a fresh id, collection removes exactly what is idle.
    - Routing: the compiled table equals the table read by name; processed packets
      never reach an egress; replies return to the flow's owner.
    - Carriers: uplink and downlink carry exactly the packets written, with
      reconnects, hand-overs and backoff as the code has them.  Sessions: wherever
      a connection breaks, the far side routed exactly a first part of the packets
      sent, and a client adopted the id its server bound to it, or none; a client
      whose keepalives arrive is never collected; over UDP one id per client, as
      long as nobody claims it from elsewhere or relays it another's assignment,
      and one register that gets through connects it.
    - Compilation: validation is enough for the compiler never to use something
      missing (the compiler with every lookup checked gives the same); every
      configuration it emits is valid; links' ends agree; every branch is realised
      hop by hop, forth and back, and a packet is steered along the first branch
      that holds unless an earlier branch over the same links takes it at a relay
      (Steering.v says when); every compiled node starts unless a system call
      fails, and whatever is done is undone, except that devices and sockets of
      connections that were never started stay open (Node.v says which).
    - Kernel nodes: the emitted rules and routes, read as the kernel reads them,
      implement the configured policy; installing is idempotent over leaks of a
      crash and reversible, tables, destination sets and ip_forward included; no
      WARP device outlives the node.
    - Host configuration: NAT, forwarding, capture and pins either fail with no
      effect or install exactly their rules and routes, and teardown restores the
      host.  Start: the take-over ends and signals only the same executable; the
      wait for interfaces ends exactly when all are ready or it is cancelled.
    - Releases: the files a node's configuration reads are shipped to it; plans are
      independent of the key.
    - Simulator: the union-find computes connected components; addresses are
      distinct where no node is named like the hub or a client, and every link's
      dialer reaches its acceptor; for schemas in the order the matrix reads
      (Oracle.v's [orderly]; validation does not ask for it) every probe expects the
      branch its origin takes at that moment, and the engine passes a mesh that
      routes as the schema says; the engine ends and cleans up.

    ** Fuel and bounds

    [Udp.splitLoop] takes one unit per byte of the buffer, [Http.dechunk] one per chunk;
    each round consumes at least that (their theorems show every datagram or chunk is
    returned), [ChaCha.blockLoop] one per byte for blocks of 64, [NetIp.ipv6Loop]
    the eight groups an address has, [GoStrings.itoaFrom] nineteen digits (an
    int64's), [Http.hexInt] sixteen, [Sha256.cbrtBits] the bits of the constants it
    derives, [Streams.allFrames] one per byte and one more (each frame has a
    two-byte header: [allFrames_ends]), [UdpSession.tickSends] one per interval of
    the period, [UnionFind.find] the size of the map (a path visits no key twice),
    [Engine.portLoop] 52 rounds of 300 ms for a deadline of 15 s
    ([port_wait_ends]), [Startup.waitGone] one per round of the 100 ms ticker
    ([takeover_exact] says how many are enough for a grace period),
    [Startup.waitLoop] one per round of a wait that may last for ever
    ([wait_exact] says what running out means), [NodeLoops.randomOwner] one per
    draw.  [Peers.mintLocked] takes the list of draws; the theorem on its
    termination gives the number of draws that is enough.  All other recursion is
    structural.

    ** Not modelled, and why

    - internal/netsim/dockerdriver, cmd/netsim and test/sim: calls of the docker
      client and the probe programs of the containers.
    - internal/egress and internal/tundev: glue around gVisor and the tun device;
      the finalizer and the node take them as parameters.  wireguard-go, wgctrl and
      Cloudflare's API are parameters of Warp.v.
    - internal/netbind, debugtun: socket options and a debug server per platform.
      main.go, compile.go: flags and process wiring.
    - Processes are told apart by their pid: that a pid is reused while a take-over
      waits is outside Startup.v's model.
    - YAML and JSON decoding, the templates of releases, net/http's own parsing,
      socket options and deadlines (a deadline that passes ends the bytes of a
      connection), and the tickers that only repeat a modelled step. *)

From stdpp Require Export base tactics numbers list gmap strings sets.
From Stdlib Require Export ZArith Lia.

(** ** Results of Go calls *)

(** A Go call that returns [(value, error)]: exactly one of the two is
    meaningful. *)
Inductive res (E A : Type) : Type :=
| Ok (a : A)
| Err (e : E).
Arguments Ok {E A} a.
Arguments Err {E A} e.

Definition res_bind {E A B} (m : res E A) (k : A → res E B) : res E B :=
  match m with Ok a => k a | Err e => Err e end.

Definition is_ok {E A} (m : res E A) : bool :=
  match m with Ok _ => true | Err _ => false end.

Declare Scope go_scope.
Delimit Scope go_scope with go.
Notation "'let?' x ':=' m 'in' k" := (res_bind m (λ x, k))
  (at level 10, x pattern, m at level 100, k at level 200) : go_scope.
(** A guard of the form [if c { return err }]. *)
Notation "'check?' c 'else' e ';' k" := (if (c : bool) then k else Err e)
  (at level 10, c at level 100, e at level 100, k at level 200) : go_scope.

Lemma res_bind_ok {E A B} (m : res E A) (k : A → res E B) b :
  res_bind m k = Ok b → ∃ a, m = Ok a ∧ k a = Ok b.
Proof. destruct m; simpl; [eauto|discriminate]. Qed.

#[global] Instance res_eq_dec {E A} `{EqDecision E, EqDecision A} : EqDecision (res E A).
Proof. solve_decision. Defined.

(** ** Machine integers *)

(** Value of a [w]-bit unsigned integer after wrap-around. *)
Definition wrap (w z : Z) : Z := z `mod` 2 ^ w.
Abbreviation u8 := (λ b : Z, 0 ≤ b < 256)%Z.
Abbreviation u32 := (λ b : Z, 0 ≤ b < 2 ^ 32)%Z.
Abbreviation u64 := (λ b : Z, 0 ≤ b < 2 ^ 64)%Z.

(** Go's [len] as an integer. *)
Definition zlen {A} (l : list A) : Z := Z.of_nat (length l).

#[global] Arguments wrap : simpl never.

Create HintDb dualnet.

Lemma wrap_bound w z : (0 ≤ w → 0 ≤ wrap w z < 2 ^ w)%Z.
Proof. intros. unfold wrap. apply Z.mod_pos_bound. lia. Qed.

Lemma wrap_small w z : (0 ≤ z < 2 ^ w)%Z → wrap w z = z.
Proof. intros. unfold wrap. by apply Z.mod_small. Qed.

Lemma zlen_app {A} (l k : list A) : zlen (l ++ k) = (zlen l + zlen k)%Z.
Proof. unfold zlen. rewrite length_app. lia. Qed.

Lemma zlen_nonneg {A} (l : list A) : (0 ≤ zlen l)%Z.
Proof. unfold zlen. lia. Qed.

#[export] Hint Resolve zlen_nonneg wrap_bound : dualnet.

(** ** Generic list lemmas *)

Lemma Forall_take_drop {A} (P : A → Prop) n l :
  Forall P l → Forall P (take n l) ∧ Forall P (drop n l).
Proof. split; [by apply Forall_take|by apply Forall_drop]. Qed.

Lemma zip_with_app_eq {A B C} (f : A → B → C) l1 l2 k1 k2 :
  length l1 = length k1 →
  zip_with f (l1 ++ l2) (k1 ++ k2) = zip_with f l1 k1 ++ zip_with f l2 k2.
Proof. intros. by apply zip_with_app. Qed.

Lemma zip_lxor_involutive (l k : list Z) :
  length l ≤ length k →
  zip_with Z.lxor (zip_with Z.lxor l k) k = l.
Proof.
  revert k. induction l as [|a l IH]; intros [|b k] Hk; simpl in *; try done; [lia|].
  rewrite Z.lxor_assoc, Z.lxor_nilpotent, Z.lxor_0_r, IH by lia. done.
Qed.

Lemma zip_lxor_zeros (k : list Z) n :
  length k = n → zip_with Z.lxor (replicate n 0%Z) k = k.
Proof. intros <-. induction k as [|b k IH]; simpl; [done|]. by rewrite IH. Qed.

Lemma take_app_exact {A} (l k : list A) n : length l = n → take n (l ++ k) = l.
Proof. intros <-. apply take_app_length. Qed.

Lemma drop_app_exact {A} (l k : list A) n : length l = n → drop n (l ++ k) = k.
Proof. intros <-. apply drop_app_length. Qed.

(** ** Automation *)

(** Case analysis on the scrutinee of the matches and conditionals of a
    hypothesis or of the goal. *)
Ltac case_hyp H :=
  repeat (simpl in H; match type of H with
  | context [match ?x with _ => _ end] => destruct x eqn:?; simplify_eq/=
  end).

Ltac case_goal :=
  repeat match goal with
  | |- context [match ?x with _ => _ end] => destruct x eqn:?; simplify_eq/=
  end.

(** Turn the boolean comparisons of the context into propositions. *)
Ltac unbool :=
  repeat match goal with
  | H : (_ =? _)%Z = true |- _ => apply Z.eqb_eq in H
  | H : (_ =? _)%Z = false |- _ => apply Z.eqb_neq in H
  | H : (_ <? _)%Z = true |- _ => apply Z.ltb_lt in H
  | H : (_ <? _)%Z = false |- _ => apply Z.ltb_ge in H
  | H : (_ <=? _)%Z = true |- _ => apply Z.leb_le in H
  | H : (_ <=? _)%Z = false |- _ => apply Z.leb_gt in H
  | H : (_ <? _)%nat = true |- _ => apply Nat.ltb_lt in H
  | H : (_ <? _)%nat = false |- _ => apply Nat.ltb_ge in H
  | H : (_ <=? _)%nat = true |- _ => apply Nat.leb_le in H
  | H : (_ <=? _)%nat = false |- _ => apply Nat.leb_gt in H
  | H : (_ =? _)%nat = true |- _ => apply Nat.eqb_eq in H
  | H : (_ =? _)%nat = false |- _ => apply Nat.eqb_neq in H
  | H : bool_decide _ = true |- _ => apply bool_decide_eq_true in H
  | H : bool_decide _ = false |- _ => apply bool_decide_eq_false in H
  | H : (_ && _) = true |- _ => apply andb_prop in H; destruct H
  | H : (_ || _) = false |- _ => apply orb_false_elim in H; destruct H
  | H : negb _ = true |- _ => apply negb_true_iff in H
  | H : negb _ = false |- _ => apply negb_false_iff in H
  end.

(** Lengths of lists built from the operations of the models. *)
Create Rewrite HintDb len.
#[export] Hint Rewrite @length_app @length_take @length_drop @length_replicate
  @length_zip_with @length_fmap @length_seq @length_insert @length_reverse
  @length_cons @length_nil : len.
Ltac len := unfold zlen in *; autorewrite with len in *; lia.
