(* ===== verification/GoBytes.v ===== *)
(** * Byte-level operations of the Go standard library

    [encoding/binary] (little- and big-endian integers), [io.ReadFull],
    [encoding/hex], and the in-place write of a slice, as the program uses
    them.  A byte is a [Z] in [0, 256); the predicate [u8] states the range
    where a lemma needs it. *)

From S2P Require Import Prelude.
Local Open Scope Z_scope.

(** ** encoding/binary *)

Fixpoint le_bytes (k : nat) (z : Z) : list Z :=
  match k with
  | O => []
  | S k' => z `mod` 256 :: le_bytes k' (z / 256)
  end.

Fixpoint le_val (l : list Z) : Z :=
  match l with
  | [] => 0
  | b :: l' => b + 256 * le_val l'
  end.

Definition be_bytes (k : nat) (z : Z) : list Z := reverse (le_bytes k z).
Definition be_val (l : list Z) : Z := le_val (reverse l).

Lemma length_le_bytes k z : length (le_bytes k z) = k.
Proof. revert z. induction k; intros; simpl; [done|by rewrite IHk]. Qed.

Lemma length_be_bytes k z : length (be_bytes k z) = k.
Proof. unfold be_bytes. by rewrite length_reverse, length_le_bytes. Qed.

Lemma le_bytes_u8 k z : Forall u8 (le_bytes k z).
Proof.
  revert z. induction k; intros z; simpl; constructor; [|done].
  apply Z.mod_pos_bound. lia.
Qed.

Lemma be_bytes_u8 k z : Forall u8 (be_bytes k z).
Proof. apply Forall_reverse, le_bytes_u8. Qed.

Lemma le_val_bytes k z : le_val (le_bytes k z) = z `mod` 256 ^ Z.of_nat k.
Proof.
  revert z. induction k; intros z; simpl le_bytes; simpl le_val.
  { by rewrite Z.mod_1_r. }
  rewrite IHk, Nat2Z.inj_succ, Z.pow_succ_r by lia.
  rewrite Z.rem_mul_r by lia. lia.
Qed.

Lemma le_bytes_val l : Forall u8 l → le_bytes (length l) (le_val l) = l.
Proof.
  induction 1 as [|b l Hb Hl IH]; simpl; [done|].
  rewrite (Z.mul_comm 256), Z.mod_add, Z.mod_small, Z.div_add, Z.div_small by lia.
  by rewrite Z.add_0_l, IH.
Qed.

Lemma le_val_bound l : Forall u8 l → 0 ≤ le_val l < 256 ^ zlen l.
Proof.
  unfold zlen. induction 1 as [|b l Hb Hl IH]; simpl length; simpl le_val; [lia|].
  rewrite Nat2Z.inj_succ, Z.pow_succ_r by lia. lia.
Qed.

Lemma be_val_bytes k z : be_val (be_bytes k z) = z `mod` 256 ^ Z.of_nat k.
Proof. unfold be_val, be_bytes. by rewrite reverse_involutive, le_val_bytes. Qed.

Lemma be_bytes_val l : Forall u8 l → be_bytes (length l) (be_val l) = l.
Proof.
  intros Hl. unfold be_bytes, be_val.
  rewrite <- (length_reverse l), le_bytes_val by (by apply Forall_reverse).
  apply reverse_involutive.
Qed.

Lemma be_val_bound l : Forall u8 l → 0 ≤ be_val l < 256 ^ zlen l.
Proof.
  intros Hl. unfold be_val. replace (zlen l) with (zlen (reverse l)).
  - by apply le_val_bound, Forall_reverse.
  - unfold zlen. by rewrite length_reverse.
Qed.

Lemma lxor_mod256 a b : Z.lxor a b `mod` 256 = Z.lxor (a `mod` 256) (b `mod` 256).
Proof.
  change 256 with (2 ^ 8). rewrite <- !Z.land_ones by lia.
  apply Z.bits_inj'. intros i Hi. rewrite !Z.lxor_spec, !Z.land_spec, !Z.lxor_spec.
  by destruct (Z.testbit a i), (Z.testbit b i), (Z.testbit (Z.ones 8) i).
Qed.

Lemma lxor_div256 a b : Z.lxor a b / 256 = Z.lxor (a / 256) (b / 256).
Proof.
  change 256 with (2 ^ 8). rewrite <- !Z.shiftr_div_pow2 by lia.
  apply Z.shiftr_lxor.
Qed.

(** Byte-wise and word-wise exclusive or agree. *)
Lemma le_bytes_lxor k a b :
  le_bytes k (Z.lxor a b) = zip_with Z.lxor (le_bytes k a) (le_bytes k b).
Proof.
  revert a b. induction k; intros; simpl; [done|].
  by rewrite lxor_mod256, lxor_div256, IHk.
Qed.

Lemma lxor_u8 a b : u8 a → u8 b → u8 (Z.lxor a b).
Proof.
  intros Ha Hb. rewrite <- (Z.mod_small a 256) by (simpl in Ha; lia).
  rewrite <- (Z.mod_small b 256) by (simpl in Hb; lia).
  rewrite <- lxor_mod256. apply Z.mod_pos_bound. lia.
Qed.

Lemma zip_lxor_u8 l k :
  Forall u8 l → Forall u8 k → Forall u8 (zip_with Z.lxor l k).
Proof.
  intros Hl. revert k. induction Hl as [|a l Ha Hl IH]; intros [|b k] Hk; simpl;
    try constructor; inversion Hk; subst; [by apply lxor_u8|by apply IH].
Qed.

#[export] Hint Resolve le_bytes_u8 be_bytes_u8 zip_lxor_u8 : dualnet.
#[export] Hint Rewrite length_le_bytes length_be_bytes : len.

#[global] Arguments be_bytes : simpl never.
#[global] Arguments be_val : simpl never.

(** ** io *)

Inductive ioerr : Set :=
| EOF
| ErrUnexpectedEOF
| ErrShortBuffer
| ErrShortWrite      (** a write error of the underlying connection *)
| ErrTooLarge (n : Z). (** wire: packet too large *)

#[global] Instance ioerr_eq_dec : EqDecision ioerr.
Proof. solve_decision. Defined.

(** [io.ReadFull(r, buf[:n])] on a source holding the bytes [r] and then
    failing with end of file: the bytes read and the rest of the source. *)
Definition readFull (n : nat) (r : list Z) : res ioerr (list Z * list Z) :=
  if (n <=? length r)%nat then Ok (take n r, drop n r)
  else match r with [] => Err EOF | _ :: _ => Err ErrUnexpectedEOF end.

Lemma readFull_app l k : readFull (length l) (l ++ k) = Ok (l, k).
Proof.
  unfold readFull. destruct (Nat.leb_spec (length l) (length (l ++ k))) as [_|H]; [|len].
  by rewrite take_app_length, drop_app_length.
Qed.

Lemma readFull_app' n l k : length l = n → readFull n (l ++ k) = Ok (l, k).
Proof. intros <-. apply readFull_app. Qed.

(** [copy(buf[off:], data)] for data that fits. *)
Definition splice (buf : list Z) (off : nat) (data : list Z) : list Z :=
  take off buf ++ data ++ drop (off + length data) buf.

Lemma length_splice buf off data :
  (off + length data ≤ length buf)%nat → length (splice buf off data) = length buf.
Proof. intros. unfold splice. len. Qed.

Lemma splice_all buf off data :
  (off + length data = length buf)%nat → splice buf off data = take off buf ++ data.
Proof.
  intros H. unfold splice. rewrite (drop_ge buf) by lia. by rewrite app_nil_r.
Qed.

(** ** encoding/hex *)

Definition hex_digit (v : Z) : Z := if v <? 10 then 48 + v else 97 + (v - 10).

Definition hex_value (c : Z) : option Z :=
  if (48 <=? c) && (c <=? 57) then Some (c - 48)
  else if (97 <=? c) && (c <=? 102) then Some (c - 97 + 10)
  else if (65 <=? c) && (c <=? 70) then Some (c - 65 + 10)
  else None.

(** [hex.EncodeToString]. *)
Fixpoint hexEncode (l : list Z) : list Z :=
  match l with
  | [] => []
  | b :: l' => hex_digit (b / 16) :: hex_digit (b `mod` 16) :: hexEncode l'
  end.

(** [hex.DecodeString]: [None] on an odd length or a byte that is no digit. *)
Fixpoint hexDecode (s : list Z) : option (list Z) :=
  match s with
  | [] => Some []
  | [_] => None
  | h :: l :: s' =>
      match hex_value h, hex_value l, hexDecode s' with
      | Some a, Some b, Some r => Some (a * 16 + b :: r)
      | _, _, _ => None
      end
  end.

Lemma hex_value_digit v : 0 ≤ v < 16 → hex_value (hex_digit v) = Some v.
Proof.
  intros H. unfold hex_digit. destruct (v <? 10) eqn:E; unbool; unfold hex_value.
  - destruct ((48 <=? 48 + v) && (48 + v <=? 57)) eqn:E2; [f_equal; lia|lia].
  - destruct ((48 <=? 97 + (v - 10)) && (97 + (v - 10) <=? 57)) eqn:E2; [lia|].
    destruct ((97 <=? 97 + (v - 10)) && (97 + (v - 10) <=? 102)) eqn:E3; [f_equal; lia|lia].
Qed.

Lemma hexDecode_encode l : Forall u8 l → hexDecode (hexEncode l) = Some l.
Proof.
  induction 1 as [|b l Hb Hl IH]; [done|]. cbn [hexEncode hexDecode].
  rewrite !hex_value_digit, IH.
  - f_equal. f_equal. pose proof (Z.div_mod b 16). lia.
  - apply Z.mod_pos_bound. lia.
  - split; [apply Z.div_pos; lia|apply Z.div_lt_upper_bound; lia].
Qed.

Lemma length_hexEncode l : length (hexEncode l) = (2 * length l)%nat.
Proof. induction l; simpl; lia. Qed.

Lemma hexDecode_length s l : hexDecode s = Some l → length s = (2 * length l)%nat.
Proof.
  revert s. induction l as [|b l IH]; intros [|h [|c s]]; cbn [hexDecode]; try done; intros H.
  - by repeat case_match.
  - destruct (hex_value h); [|done]. destruct (hex_value c); [|done].
    destruct (hexDecode s) as [l'|] eqn:E; [|done]. injection H as _ ->.
    apply IH in E. cbn [length]. lia.
Qed.
