(* ===== verification/GoStrings.v ===== *)
(** * String operations of the Go standard library

    The functions of [strings] and [strconv] the program uses, on Rocq strings
    read as Go byte strings. *)

From S2P Require Import Prelude.
From Stdlib Require Export Ascii.
Local Open Scope Z_scope.

Definition chars (s : string) : list ascii := String.list_ascii_of_string s.
Definition unchars (l : list ascii) : string := String.string_of_list_ascii l.

Lemma unchars_chars s : unchars (chars s) = s.
Proof. apply String.string_of_list_ascii_of_string. Qed.
Lemma chars_unchars l : chars (unchars l) = l.
Proof. apply String.list_ascii_of_string_of_list_ascii. Qed.
Lemma chars_inj s t : chars s = chars t → s = t.
Proof. intros H. rewrite <- (unchars_chars s), H. apply unchars_chars. Qed.
Lemma chars_app s t : chars (String.append s t) = (chars s ++ chars t)%list.
Proof. unfold chars. induction s; simpl; [done|by f_equal]. Qed.

Create Rewrite HintDb gostr.
#[export] Hint Rewrite unchars_chars chars_unchars chars_app : gostr.

(** [strings.IndexByte]; [None] for -1. *)
Fixpoint indexChar (c : ascii) (l : list ascii) : option nat :=
  match l with
  | [] => None
  | d :: l' => if bool_decide (d = c) then Some O else S <$> indexChar c l'
  end.

(** [strings.LastIndexByte]. *)
Fixpoint lastIndexChar (c : ascii) (l : list ascii) : option nat :=
  match l with
  | [] => None
  | d :: l' =>
      match lastIndexChar c l' with
      | Some i => Some (S i)
      | None => if bool_decide (d = c) then Some O else None
      end
  end.

(** [strings.Cut] on a one-byte separator. *)
Definition cut (c : ascii) (s : string) : string * string * bool :=
  match indexChar c (chars s) with
  | Some i => (unchars (take i (chars s)), unchars (drop (S i) (chars s)), true)
  | None => (s, ""%string, false)
  end.

Lemma indexChar_Some c l i :
  indexChar c l = Some i → l = (take i l ++ c :: drop (S i) l)%list ∧ c ∉ take i l.
Proof.
  revert i. induction l as [|d l IH]; intros i H; simpl in H; [done|].
  case_bool_decide as E.
  - simplify_eq. split; [done|]. simpl. apply not_elem_of_nil.
  - destruct (indexChar c l) as [j|] eqn:Ej; [|done]. simplify_eq/=.
    destruct (IH j eq_refl) as [H1 H2]. split; [by f_equal|].
    intros [->|?]%elem_of_cons; done.
Qed.

Lemma indexChar_None c l : indexChar c l = None ↔ c ∉ l.
Proof.
  induction l as [|d l IH]; simpl.
  { split; [intros _; apply not_elem_of_nil|done]. }
  rewrite not_elem_of_cons. case_bool_decide as E.
  - split; [done|]. intros [? _]. by subst.
  - destruct (indexChar c l); simpl; split; intros H; try done.
    + destruct H as [_ H]. by apply IH in H.
    + split; [congruence|by apply IH].
Qed.

Lemma indexChar_app c l k : c ∉ l → indexChar c (l ++ c :: k)%list = Some (length l).
Proof.
  induction l as [|d l IH]; simpl; intros Hn.
  - by rewrite bool_decide_eq_true_2.
  - apply not_elem_of_cons in Hn as [Hd Hn]. rewrite bool_decide_eq_false_2 by congruence.
    by rewrite IH.
Qed.

Lemma cut_true c s a b :
  cut c s = (a, b, true) ↔ chars s = (chars a ++ c :: chars b)%list ∧ c ∉ chars a.
Proof.
  unfold cut. split.
  - destruct (indexChar c (chars s)) as [i|] eqn:E; intros H; simplify_eq.
    apply indexChar_Some in E as [H1 H2]. by rewrite !chars_unchars.
  - intros [Hs Hn]. rewrite Hs, indexChar_app by done.
    rewrite take_app_length.
    replace (drop (S (length (chars a))) (chars a ++ c :: chars b)%list) with (chars b).
    + by rewrite !unchars_chars.
    + rewrite drop_app_ge by lia. by replace (S (length (chars a)) - length (chars a))%nat with 1%nat by lia.
Qed.

Lemma cut_false c s a b :
  cut c s = (a, b, false) ↔ a = s ∧ b = ""%string ∧ c ∉ chars s.
Proof.
  unfold cut. destruct (indexChar c (chars s)) eqn:E.
  - split; [done|]. intros (_ & _ & H). apply indexChar_None in H. congruence.
  - apply indexChar_None in E. split; [intros; by simplify_eq|intros (-> & -> & _); done].
Qed.

(** ** strconv.Atoi on a 64-bit platform *)

Definition digitOf (c : ascii) : option Z :=
  let v := Z.of_N (N_of_ascii c) - 48 in
  if (0 <=? v) && (v <=? 9) then Some v else None.

Fixpoint digitsVal (acc : Z) (l : list ascii) : option Z :=
  match l with
  | [] => Some acc
  | c :: l' => match digitOf c with Some d => digitsVal (acc * 10 + d) l' | None => None end
  end.

Definition atoi (s : string) : option Z :=
  let in_range n := if (- 2 ^ 63 <=? n) && (n <? 2 ^ 63) then Some n else None in
  match chars s with
  | [] => None
  | c :: l =>
      let neg := bool_decide (c = "-"%char) in
      let digits := if neg || bool_decide (c = "+"%char) then l else c :: l in
      match digits with
      | [] => None
      | _ => match digitsVal 0 digits with
             | Some n => in_range (if neg then - n else n)
             | None => None
             end
      end
  end.

Example atoi_ex : atoi "-042" = Some (-42) ∧ atoi "4x" = None ∧ atoi "" = None ∧
  atoi "9223372036854775808" = None ∧ atoi "+7" = Some 7 ∧ atoi "-" = None.
Proof. vm_compute. done. Qed.

(** ** White space and splitting

    White space is ASCII white space; the multi-byte spaces of Unicode are read
    as ordinary bytes. *)

Definition isSpace (c : ascii) : bool :=
  let n := N_of_ascii c in bool_decide (n = 32)%N || ((9 <=? n) && (n <=? 13))%N.

Fixpoint trimLeft (l : list ascii) : list ascii :=
  match l with c :: l' => if isSpace c then trimLeft l' else l | [] => [] end.

(** [strings.TrimSpace]. *)
Definition trimSpace (l : list ascii) : list ascii := rev (trimLeft (rev (trimLeft l))).

(** [strings.Fields], with the field being read. *)
Fixpoint fieldsFrom (cur l : list ascii) : list (list ascii) :=
  match l with
  | [] => match cur with [] => [] | _ => [rev cur] end
  | c :: l' =>
      if isSpace c then match cur with [] => fieldsFrom [] l' | _ => rev cur :: fieldsFrom [] l' end
      else fieldsFrom (c :: cur) l'
  end.
Definition fields (l : list ascii) : list (list ascii) := fieldsFrom [] l.

(** [strings.Split] on a one-byte separator. *)
Fixpoint splitOn (sep : ascii) (l : list ascii) : list (list ascii) :=
  match l with
  | [] => [[]]
  | c :: l' =>
      if bool_decide (c = sep) then [] :: splitOn sep l'
      else match splitOn sep l' with p :: ps => (c :: p) :: ps | [] => [[c]] end
  end.

Definition spaceless (l : list ascii) : Prop := Forall (λ c, isSpace c = false) l.

Lemma trimLeft_space l k : Forall (λ c, isSpace c = true) l → trimLeft (l ++ k) = trimLeft k.
Proof. induction 1 as [|c l Hc _ IH]; [done|]. cbn. by rewrite Hc. Qed.

Lemma trimLeft_spaceless l : spaceless l → trimLeft l = l.
Proof. intros H. destruct H as [|c l Hc _]; [done|]. cbn. by rewrite Hc. Qed.

(** White space around a word goes away. *)
Lemma trimSpace_pad a w b :
  Forall (λ c, isSpace c = true) a → Forall (λ c, isSpace c = true) b → spaceless w → w ≠ [] →
  trimSpace (a ++ w ++ b) = w.
Proof.
  intros Ha Hb Hw Hn. unfold trimSpace. rewrite trimLeft_space by done.
  destruct w as [|c w]; [done|]. pose proof Hw as Hw'. apply Forall_cons_1 in Hw' as [Hc _].
  assert (trimLeft ((c :: w) ++ b) = (c :: w) ++ b) as -> by (cbn; by rewrite Hc).
  rewrite rev_app_distr, trimLeft_space.
  - rewrite trimLeft_spaceless by (by apply List.Forall_rev). apply rev_involutive.
  - by apply List.Forall_rev.
Qed.

(** What [trimSpace] removes. *)

Abbreviation spaces := (Forall (λ c, isSpace c = true)).

Lemma trimLeft_split l : ∃ a, spaces a ∧ l = (a ++ trimLeft l)%list.
Proof.
  induction l as [|c l (a & Ha & He)]; [by exists []|]. cbn. destruct (isSpace c) eqn:Hc; [|by exists []].
  exists (c :: a). split; [by constructor|]. cbn. by f_equal.
Qed.

Lemma trimLeft_app l b : trimLeft (l ++ b)%list = match trimLeft l with [] => trimLeft b | t => (t ++ b)%list end.
Proof. induction l as [|c l IH]; [done|]. cbn. by destruct (isSpace c). Qed.

Lemma trimLeft_all a : spaces a → trimLeft a = [].
Proof. intros H. pose proof (trimLeft_space a [] H) as E. by rewrite app_nil_r in E. Qed.

Lemma trim_left a l : spaces a → trimSpace (a ++ l)%list = trimSpace l.
Proof. intros Ha. unfold trimSpace. by rewrite trimLeft_space. Qed.

Lemma trim_right l b : spaces b → trimSpace (l ++ b)%list = trimSpace l.
Proof.
  intros Hb. unfold trimSpace. rewrite trimLeft_app. destruct (trimLeft l) as [|c t] eqn:Ht; [by rewrite (trimLeft_all b Hb)|].
  rewrite rev_app_distr, trimLeft_space; [done|]. by apply List.Forall_rev.
Qed.

Lemma trim_split l : ∃ a b, spaces a ∧ spaces b ∧ l = (a ++ trimSpace l ++ b)%list.
Proof.
  destruct (trimLeft_split l) as (a & Ha & He). destruct (trimLeft_split (rev (trimLeft l))) as (b & Hb & Hr).
  exists a, (rev b). split; [done|]. split; [by apply List.Forall_rev|]. rewrite He at 1. f_equal.
  apply (f_equal (@rev _)) in Hr. rewrite rev_involutive, rev_app_distr in Hr. exact Hr.
Qed.

Lemma trim_idempotent l : trimSpace (trimSpace l) = trimSpace l.
Proof.
  destruct (trim_split l) as (a & b & Ha & Hb & He). by rewrite <- (trim_right (trimSpace l) b Hb), <- (trim_left a _ Ha), <- He.
Qed.

Lemma fieldsFrom_word cur w l : spaceless w → fieldsFrom cur (w ++ l) = fieldsFrom (rev w ++ cur) l.
Proof.
  intros Hw. revert cur. induction Hw as [|c w Hc _ IH]; intros cur; [done|]. cbn [app fieldsFrom]. rewrite Hc, IH.
  cbn [rev]. by rewrite <- app_assoc.
Qed.

Lemma fields_word w c l : spaceless w → w ≠ [] → isSpace c = true → fields (w ++ c :: l) = w :: fields l.
Proof.
  intros Hw Hn Hc. unfold fields. rewrite fieldsFrom_word, app_nil_r by done. cbn [fieldsFrom]. rewrite Hc.
  destruct (rev w) as [|d w'] eqn:Hr; [apply (f_equal (@length _)) in Hr; rewrite length_rev in Hr; by destruct w|].
  by rewrite <- Hr, rev_involutive.
Qed.

Lemma splitOn_last sep w : sep ∉ w → splitOn sep w = [w].
Proof.
  induction w as [|c w IH]; intros Hn; [done|]. apply not_elem_of_cons in Hn as [Hc Hn]. cbn.
  rewrite bool_decide_eq_false_2 by congruence. by rewrite IH.
Qed.

Lemma splitOn_cons sep w l : sep ∉ w → splitOn sep (w ++ sep :: l) = w :: splitOn sep l.
Proof.
  induction w as [|c w IH]; intros Hn; cbn.
  - by rewrite bool_decide_eq_true_2.
  - apply not_elem_of_cons in Hn as [Hc Hn]. rewrite bool_decide_eq_false_2 by congruence. by rewrite IH.
Qed.

(** [s[:len(s)-len(suffix)]] and [s[len(prefix):]]. *)
Lemma cut_suffix (k s : list ascii) : take (length (k ++ s) - length s) (k ++ s) = k.
Proof. rewrite length_app. replace (length k + length s - length s)%nat with (length k) by lia. apply take_app_length. Qed.

Lemma lastIndexChar_snoc c l : lastIndexChar c (l ++ [c]) = Some (length l).
Proof. induction l as [|d l IH]; cbn; [by rewrite bool_decide_eq_true_2|]. by rewrite IH. Qed.

(** ** Decimal numbers *)

(** [strconv.Itoa] for [0 <= n < 10^fuel]. *)
Fixpoint itoaFrom (fuel : nat) (n : Z) : list ascii :=
  match fuel with
  | O => []
  | S fuel' => (if n <? 10 then [] else itoaFrom fuel' (n / 10)) ++ [ascii_of_N (Z.to_N (n `mod` 10 + 48))]
  end.
Definition itoa (n : Z) : list ascii := itoaFrom 19 n.

Lemma digitOf_digit d : 0 ≤ d < 10 → digitOf (ascii_of_N (Z.to_N (d + 48))) = Some d.
Proof.
  intros Hd. unfold digitOf. rewrite N_ascii_embedding by lia. rewrite Z2N.id by lia.
  replace (d + 48 - 48) with d by lia. destruct ((0 <=? d) && (d <=? 9)) eqn:E; [done|lia].
Qed.

Lemma itoaFrom_val f n rest :
  (0 < f)%nat → 0 ≤ n < 10 ^ Z.of_nat f → digitsVal 0 (itoaFrom f n ++ rest) = digitsVal n rest.
Proof.
  revert n rest. induction f as [|f IH]; intros n rest Hf Hn; [lia|]. cbn [itoaFrom].
  assert (0 ≤ n `mod` 10 < 10) as Hm by (apply Z.mod_pos_bound; lia).
  destruct (n <? 10) eqn:Hs; unbool.
  - cbn [app digitsVal]. rewrite digitOf_digit by done. by rewrite Z.mod_small by lia.
  - rewrite Nat2Z.inj_succ, Z.pow_succ_r in Hn by lia. rewrite <- app_assoc.
    destruct f as [|f]; [cbn in Hn; lia|].
    rewrite IH; [|lia|split; [apply Z.div_pos; lia|apply Z.div_lt_upper_bound; lia]].
    cbn [app digitsVal]. rewrite digitOf_digit by done. f_equal. pose proof (Z.div_mod n 10). lia.
Qed.

Definition isDigit (c : ascii) : Prop := is_Some (digitOf c).

Lemma itoaFrom_digits f n : 0 ≤ n → Forall isDigit (itoaFrom f n).
Proof.
  revert n. induction f as [|f IH]; intros n Hn; cbn [itoaFrom]; [constructor|]. apply Forall_app. split.
  - destruct (n <? 10); [constructor|]. apply IH, Z.div_pos; lia.
  - constructor; [|constructor]. eexists. apply digitOf_digit, Z.mod_pos_bound. lia.
Qed.

Lemma itoa_nonempty n : itoa n ≠ [].
Proof. unfold itoa. cbn [itoaFrom]. intros H%app_eq_nil. by destruct H. Qed.

Lemma atoi_itoa n : 0 ≤ n < 2 ^ 63 → atoi (unchars (itoa n)) = Some n.
Proof.
  intros Hn. unfold atoi. rewrite chars_unchars. pose proof (itoaFrom_digits 19 n ltac:(lia)) as Hd. fold (itoa n) in Hd.
  pose proof (itoaFrom_val 19 n [] ltac:(lia) ltac:(lia)) as Hv. fold (itoa n) in Hv. rewrite app_nil_r in Hv. cbn [digitsVal] in Hv.
  destruct (itoa n) as [|c l] eqn:E; [by apply itoa_nonempty in E|]. apply Forall_cons_1 in Hd as [[d Hd] _].
  assert (bool_decide (c = "-"%char) = false) as -> by (apply bool_decide_eq_false; intros ->; by vm_compute in Hd).
  assert (bool_decide (c = "+"%char) = false) as -> by (apply bool_decide_eq_false; intros ->; by vm_compute in Hd).
  cbn [orb]. rewrite Hv. destruct ((- 2 ^ 63 <=? n) && (n <? 2 ^ 63)) eqn:E2; [done|]. apply andb_false_iff in E2 as [E2|E2]; unbool; lia.
Qed.
