(* ===== verification/Sha256.v ===== *)
(** * SHA-256 and HMAC-SHA-256

    The Go standard library's [crypto/sha256] and [crypto/hmac], which
    internal/wire/psk.go uses for key derivation and control-datagram tags,
    written out after FIPS 180-4 and RFC 2104.  The test vectors at the end
    evaluate the definitions. *)

From S2P Require Import Prelude GoBytes.
Local Open Scope Z_scope.

Definition add32 (a b : Z) : Z := wrap 32 (a + b).
Definition rotr32 (x n : Z) : Z :=
  Z.lor (Z.shiftr x n) (wrap 32 (Z.shiftl x (32 - n))).

(** The constants as FIPS 180-4 introduces them: the first 32 bits of the
    fractional parts of the cube and square roots of the first primes. *)
Definition smallPrimes (bound : nat) : list Z :=
  filter (λ p, Forall (λ d, p `mod` d ≠ 0) (Z.of_nat <$> seq 2 (Z.to_nat (p - 2)))) (Z.of_nat <$> seq 2 bound).

(** Integer cube root, one bit per unit of fuel. *)
Fixpoint cbrtBits (fuel : nat) (z r : Z) : Z :=
  match fuel with
  | O => r
  | S n => let t := r + 2 ^ Z.of_nat n in cbrtBits n z (if t * t * t <=? z then t else r)
  end.

Definition sha_k : list Z :=
  Eval vm_compute in (λ p, wrap 32 (cbrtBits 40 (p * 2 ^ 96) 0)) <$> smallPrimes 310.

Definition sha_init : list Z :=
  Eval vm_compute in (λ p, wrap 32 (Z.sqrt (p * 2 ^ 64))) <$> take 8 (smallPrimes 310).

Definition sha_ssig0 x := Z.lxor (Z.lxor (rotr32 x 7) (rotr32 x 18)) (Z.shiftr x 3).
Definition sha_ssig1 x := Z.lxor (Z.lxor (rotr32 x 17) (rotr32 x 19)) (Z.shiftr x 10).
Definition sha_bsig0 x := Z.lxor (Z.lxor (rotr32 x 2) (rotr32 x 13)) (rotr32 x 22).
Definition sha_bsig1 x := Z.lxor (Z.lxor (rotr32 x 6) (rotr32 x 11)) (rotr32 x 25).
Definition sha_ch x y z := Z.lxor (Z.land x y) (Z.land (Z.lxor x (2 ^ 32 - 1)) z).
Definition sha_maj x y z := Z.lxor (Z.lxor (Z.land x y) (Z.land x z)) (Z.land y z).

(** The message schedule, newest word first. *)
Fixpoint sha_schedule (n : nat) (ws : list Z) : list Z :=
  match n with
  | O => ws
  | S n' =>
      let g i := nth i ws 0 in
      sha_schedule n'
        (add32 (add32 (sha_ssig1 (g 1%nat)) (g 6%nat)) (add32 (sha_ssig0 (g 14%nat)) (g 15%nat)) :: ws)
  end.

Fixpoint sha_rounds (kws : list (Z * Z)) (st : list Z) : list Z :=
  match kws, st with
  | (k, w) :: kws', [a; b; c; d; e; f; g; h] =>
      let t1 := add32 (add32 (add32 h (sha_bsig1 e)) (add32 (sha_ch e f g) k)) w in
      let t2 := add32 (sha_bsig0 a) (sha_maj a b c) in
      sha_rounds kws' [add32 t1 t2; a; b; c; add32 d t1; e; f; g]
  | _, _ => st
  end.

Fixpoint words_be (n : nat) (l : list Z) : list Z :=
  match n with
  | O => []
  | S n' => be_val (take 4 l) :: words_be n' (drop 4 l)
  end.

Definition sha_block (st blk : list Z) : list Z :=
  let ws := reverse (sha_schedule 48 (reverse (words_be 16 blk))) in
  zip_with add32 st (sha_rounds (zip sha_k ws) st).

Fixpoint sha_blocks (n : nat) (st msg : list Z) : list Z :=
  match n with
  | O => st
  | S n' => sha_blocks n' (sha_block st (take 64 msg)) (drop 64 msg)
  end.

Definition sha_pad (msg : list Z) : list Z :=
  let zeros := Z.to_nat ((55 - zlen msg) `mod` 64) in
  msg ++ [128] ++ replicate zeros 0 ++ be_bytes 8 (8 * zlen msg).

Definition sha256 (msg : list Z) : list Z :=
  let p := sha_pad msg in
  flat_map (be_bytes 4) (sha_blocks (length p / 64) sha_init p).

(** [hmac.New(sha256.New, key)] followed by [Write(msg)] and [Sum]. *)
Definition hmac_sha256 (key msg : list Z) : list Z :=
  let k0 := if zlen key >? 64 then sha256 key else key in
  let k := k0 ++ replicate (64 - length k0) 0 in
  let pad c := map (Z.lxor c) k in
  sha256 (pad 0x5c ++ sha256 (pad 0x36 ++ msg)).

Lemma length_sha_rounds kws st : length (sha_rounds kws st) = length st.
Proof.
  revert st. induction kws as [|[k w] kws IH]; intros st; [done|]. simpl.
  do 8 (destruct st as [|? st]; [done|]). destruct st; [|done]. by rewrite IH.
Qed.

Lemma length_sha_blocks n st msg : length (sha_blocks n st msg) = length st.
Proof.
  revert st msg. induction n as [|n IH]; intros; simpl; [done|].
  rewrite IH. unfold sha_block. rewrite length_zip_with, length_sha_rounds. lia.
Qed.

Lemma length_flat_be4 l : length (flat_map (be_bytes 4) l) = (4 * length l)%nat.
Proof. induction l; [done|]. cbn [flat_map]. len. Qed.

Lemma length_sha256 msg : length (sha256 msg) = 32%nat.
Proof. unfold sha256. by rewrite length_flat_be4, length_sha_blocks. Qed.

Lemma sha256_u8 msg : Forall u8 (sha256 msg).
Proof.
  unfold sha256. generalize (sha_blocks (length (sha_pad msg) / 64) sha_init (sha_pad msg)).
  intros l. induction l as [|w l IH]; [by constructor|]. cbn [flat_map].
  apply Forall_app. split; [apply be_bytes_u8|exact IH].
Qed.

Lemma length_hmac key msg : length (hmac_sha256 key msg) = 32%nat.
Proof. apply length_sha256. Qed.

Lemma hmac_u8 key msg : Forall u8 (hmac_sha256 key msg).
Proof. apply sha256_u8. Qed.

#[export] Hint Resolve sha256_u8 hmac_u8 : dualnet.
#[export] Hint Rewrite length_sha256 length_hmac : len.

(** Test vectors: SHA-256("abc") and test case 2 of RFC 4231. *)
Example sha256_abc :
  be_val (sha256 [97; 98; 99]) =
  0xba7816bf8f01cfea414140de5dae2223b00361a396177a9cb410ff61f20015ad.
Proof. vm_compute. reflexivity. Qed.

Example hmac_rfc4231_2 :
  be_val (hmac_sha256 [74; 101; 102; 101]
    [119; 104; 97; 116; 32; 100; 111; 32; 121; 97; 32; 119; 97; 110; 116; 32;
     102; 111; 114; 32; 110; 111; 116; 104; 105; 110; 103; 63]) =
  0x5bdcc146bf60754e6a042426089575c75a003f089d2739839dec58b964ec3843.
Proof. vm_compute. reflexivity. Qed.
