(* ===== verification/Wire.v ===== *)
(** * internal/wire: envelopes, frames, inner-IP helpers, pings, tags

    The transport-agnostic wire helpers.  [IoWriter] and [IoReader] are the
    Go interfaces the frame functions take (with the optional [FrameWriter]
    and [FrameReader] a type assertion looks for); [FrameLink] is what the two
    ends of a stream carrier promise to the code that pushes frames through
    them.  The carriers' ciphers instantiate it in Cipher.v. *)

From S2P Require Import Prelude GoBytes Sha256.
Local Open Scope Z_scope.

(** ** envelope.go *)

Definition OwnerLen : nat := 4.
Definition EnvelopeLen : nat := OwnerLen + 1.
Definition flagProcessed : Z := 0x01.

Record Owner := MkOwner { ow0 : Z; ow1 : Z; ow2 : Z; ow3 : Z }.

#[global] Instance Owner_eq_dec : EqDecision Owner.
Proof. solve_decision. Defined.
#[global] Instance Owner_countable : Countable Owner.
Proof.
  apply (inj_countable' (λ o, (ow0 o, ow1 o, ow2 o, ow3 o))
           (λ t, let '(a, b, c, d) := t in MkOwner a b c d)).
  by intros [].
Defined.

Definition zeroOwner : Owner := MkOwner 0 0 0 0.
Definition IsZero (o : Owner) : bool := bool_decide (o = zeroOwner).
Definition ownerBytes (o : Owner) : list Z := [ow0 o; ow1 o; ow2 o; ow3 o].
(** [copy(o[:], b)] on a zero owner. *)
Definition ownerFrom (b : list Z) : Owner :=
  MkOwner (nth 0 b 0) (nth 1 b 0) (nth 2 b 0) (nth 3 b 0).

Record Envelope := MkEnvelope { Env_Owner : Owner; Env_Processed : bool }.

#[global] Instance Envelope_eq_dec : EqDecision Envelope.
Proof. solve_decision. Defined.

Definition flags (e : Envelope) : Z := if Env_Processed e then flagProcessed else 0.

(** [append(dst[:0], owner..., flags, inner...)]. *)
Definition PutEnvelope (e : Envelope) (inner : list Z) : list Z :=
  ownerBytes (Env_Owner e) ++ [flags e] ++ inner.

Definition ParseEnvelope (blob : list Z) : option (Envelope * list Z) :=
  if (length blob <? EnvelopeLen)%nat then None
  else Some (MkEnvelope (ownerFrom (take OwnerLen blob))
               (negb (Z.land (nth OwnerLen blob 0) flagProcessed =? 0)),
             drop EnvelopeLen blob).

(** ** framing.go *)

Definition MaxPacket : Z := 65535.

Class IoWriter (W : Type) := {
  ioWrite : W → list Z → W * option ioerr;
  (** [w.(FrameWriter)] *)
  asFrameWriter : W → option (list Z → W * option ioerr);
}.

Class IoReader (R : Type) := {
  (** [io.ReadFull(r, buf[:n])] *)
  ioReadFull : R → nat → R * res ioerr (list Z);
  (** [r.(FrameReader)]; the integer is [len(buf)] *)
  asFrameReader : R → option (Z → R * res ioerr (list Z));
}.

Definition WriteFrame `{IoWriter W} (w : W) (p : list Z) : W * option ioerr :=
  if zlen p >? MaxPacket then (w, Some (ErrTooLarge (zlen p)))
  else match asFrameWriter w with
  | Some fw => fw p
  | None =>
      match ioWrite w (be_bytes 2 (wrap 16 (zlen p))) with
      | (w1, Some err) => (w1, Some err)
      | (w1, None) => ioWrite w1 p
      end
  end.

(** [buf] matters through its length; the result is [buf[:n]]. *)
Definition ReadFrame `{IoReader R} (r : R) (buflen : Z) : R * res ioerr (list Z) :=
  match asFrameReader r with
  | Some fr => fr buflen
  | None =>
      if buflen <? 2 then (r, Err ErrShortBuffer)
      else match ioReadFull r 2 with
      | (r1, Err err) => (r1, Err err)
      | (r1, Ok hdr) =>
          let n := be_val hdr in
          if n >? buflen then (r1, Err ErrShortBuffer)
          else ioReadFull r1 (Z.to_nat n)
      end
  end.

(** A connection seen from its writing end: the bytes it took so far and how
    many more it takes before a write fails ([None]: any number). *)
Record Sink := MkSink { s_out : list Z; s_room : option nat }.

Definition sinkWrite (s : Sink) (p : list Z) : Sink * option ioerr :=
  match s_room s with
  | None => (MkSink (s_out s ++ p) None, None)
  | Some k =>
      if (length p <=? k)%nat then (MkSink (s_out s ++ p) (Some (k - length p)%nat), None)
      else (MkSink (s_out s ++ take k p) (Some O), Some ErrShortWrite)
  end.

#[global] Instance sink_writer : IoWriter Sink :=
  {| ioWrite := sinkWrite; asFrameWriter := λ _, None |}.

(** A connection seen from its reading end: the bytes still to come, then
    end of file. *)
Definition bytesReadFull (r : list Z) (n : nat) : list Z * res ioerr (list Z) :=
  match readFull n r with
  | Ok (b, r') => (r', Ok b)
  | Err e => ([], Err e)
  end.

#[global] Instance bytes_reader : IoReader (list Z) :=
  {| ioReadFull := bytesReadFull; asFrameReader := λ _, None |}.

(** What a pair of stream ends promises: whatever frame one end wrote, the
    other end, fed the bytes the first emitted, reads back, and the pair stays
    in step. *)
Class FrameLink (W R : Type) `{IoWriter W, IoReader R} := {
  emitted : W → list Z;
  feed : R → list Z → R;
  in_sync : W → R → Prop;
  frame_law : ∀ w r p w',
    in_sync w r → Forall u8 p → WriteFrame w p = (w', None) →
    ∃ delta r', emitted w' = emitted w ++ delta ∧ in_sync w' r' ∧
      ∀ rest buflen, MaxPacket ≤ buflen →
        ReadFrame (feed r (delta ++ rest)) buflen = (feed r' rest, Ok p);
}.

(** The frame loop of a flush, stopping at the first error, and the frame
    loop of a reader, as long as frames are asked for. *)
Fixpoint writeFrames `{IoWriter W} (w : W) (ps : list (list Z)) : W * option ioerr :=
  match ps with
  | [] => (w, None)
  | p :: ps' =>
      match WriteFrame w p with
      | (w1, None) => writeFrames w1 ps'
      | (w1, Some err) => (w1, Some err)
      end
  end.

Fixpoint readFrames `{IoReader R} (n : nat) (r : R) (buflen : Z) : R * res ioerr (list (list Z)) :=
  match n with
  | O => (r, Ok [])
  | S n' =>
      match ReadFrame r buflen with
      | (r1, Err err) => (r1, Err err)
      | (r1, Ok p) =>
          match readFrames n' r1 buflen with
          | (r2, Ok ps) => (r2, Ok (p :: ps))
          | (r2, Err err) => (r2, Err err)
          end
      end
  end.

(** ** ip.go *)

(** [netip.Addr] without zones: the zero value, IPv4, IPv6. *)
Inductive Addr : Set :=
| AddrInvalid
| Addr4 (a : Z)
| Addr6 (a : Z).

#[global] Instance Addr_eq_dec : EqDecision Addr.
Proof. solve_decision. Defined.
#[global] Instance Addr_countable : Countable Addr.
Proof.
  apply (inj_countable'
    (λ a, match a with AddrInvalid => inl () | Addr4 z => inr (inl z) | Addr6 z => inr (inr z) end)
    (λ s, match s with inl _ => AddrInvalid | inr (inl z) => Addr4 z | inr (inr z) => Addr6 z end)).
  by intros [].
Defined.

Definition byteAt (p : list Z) (i : nat) : Z := nth i p 0.
Definition ipVersion (p : list Z) : Z := Z.shiftr (byteAt p 0) 4.

Definition PlausibleIP (p : list Z) : bool :=
  if zlen p <? 20 then false
  else if ipVersion p =? 4 then 20 <=? zlen p
  else if ipVersion p =? 6 then 40 <=? zlen p
  else false.

Definition DstIP (p : list Z) : option Addr :=
  if (20 <=? zlen p) && (ipVersion p =? 4) then Some (Addr4 (be_val (take 4 (drop 16 p))))
  else if (40 <=? zlen p) && (ipVersion p =? 6) then Some (Addr6 (be_val (take 16 (drop 24 p))))
  else None.

Definition SrcIP (p : list Z) : option Addr :=
  if (20 <=? zlen p) && (ipVersion p =? 4) then Some (Addr4 (be_val (take 4 (drop 12 p))))
  else if (40 <=? zlen p) && (ipVersion p =? 6) then Some (Addr6 (be_val (take 16 (drop 8 p))))
  else None.

(** ** ping.go *)

Definition pingProto : Z := 253.
Definition pingLen : Z := 20 + 8.

Definition EncodePing (nonce : Z) : list Z :=
  let p := replicate (Z.to_nat pingLen) 0 in
  let p := <[0%nat := 0x45]> p in
  let p := splice p 2 (be_bytes 2 (wrap 16 pingLen)) in
  let p := <[8%nat := 64]> p in
  let p := <[9%nat := pingProto]> p in
  splice p 20 (be_bytes 8 nonce).

Definition IsPing (pkt : list Z) : bool :=
  (pingLen <=? zlen pkt) && (ipVersion pkt =? 4) && (byteAt pkt 9 =? pingProto).

(** ** psk.go *)

Definition strBytes (s : string) : list Z :=
  map (λ a, Z.of_N (Ascii.N_of_ascii a)) (String.list_ascii_of_string s).

Definition KeyFromPSK (psk : string) : list Z :=
  sha256 (strBytes "dualnet:v1:" ++ strBytes psk).

Definition Tag (key msg : list Z) : list Z := take 8 (hmac_sha256 key msg).

Definition VerifyTag (key msg tag : list Z) : bool := bool_decide (Tag key msg = tag).

(** ** Envelopes *)

Lemma ownerFrom_bytes o l : ownerFrom (ownerBytes o ++ l) = o.
Proof. by destruct o. Qed.

Lemma length_ownerBytes o : length (ownerBytes o) = OwnerLen.
Proof. done. Qed.

Lemma length_PutEnvelope e p : length (PutEnvelope e p) = (EnvelopeLen + length p)%nat.
Proof. done. Qed.

Lemma PutEnvelope_u8 e p :
  Forall u8 (ownerBytes (Env_Owner e)) → Forall u8 p → Forall u8 (PutEnvelope e p).
Proof.
  intros Ho Hp. unfold PutEnvelope. repeat (apply Forall_app; split); try done.
  constructor; [|done]. unfold flags. by destruct (Env_Processed e).
Qed.

#[export] Hint Rewrite length_PutEnvelope length_ownerBytes : len.

Lemma parse_put_envelope e p : ParseEnvelope (PutEnvelope e p) = Some (e, p).
Proof. by destruct e as [[a b c d] []]. Qed.

(** An envelope survives the wire: parsing what was serialized
    gives back the owner, the processed bit and the inner packet. *)
Theorem envelope_roundtrip e p : ParseEnvelope (PutEnvelope e p) = Some (e, p).
Proof. apply parse_put_envelope. Qed.

Lemma land1_bit z : Z.land z 1 = if Z.land z 1 =? 0 then 0 else 1.
Proof.
  change 1 with (Z.ones 1) at 1 2. rewrite Z.land_ones by lia. change (2 ^ 1) with 2.
  pose proof (Z.mod_pos_bound z 2). destruct (z `mod` 2 =? 0) eqn:E; unbool; lia.
Qed.

(** [ParseEnvelope] rejects exactly the blobs shorter than an
    envelope, and what it accepts re-serializes to the blob with every flag
    bit but the processed one cleared: the owner and the inner packet lose
    nothing. *)
Theorem parse_envelope_complete blob :
  match ParseEnvelope blob with
  | None => (length blob < EnvelopeLen)%nat
  | Some (e, inner) =>
      (EnvelopeLen ≤ length blob)%nat ∧
      PutEnvelope e inner = <[OwnerLen := Z.land (nth OwnerLen blob 0) flagProcessed]> blob
  end.
Proof.
  unfold ParseEnvelope. destruct (length blob <? EnvelopeLen)%nat eqn:E; unbool; [done|].
  split; [done|]. unfold EnvelopeLen, OwnerLen in E.
  destruct blob as [|a [|b [|c [|d [|f rest]]]]]; simpl in E; try lia.
  unfold PutEnvelope, flags, flagProcessed. cbn -[Z.land].
  pose proof (land1_bit f) as Hb. destruct (Z.land f 1 =? 0); rewrite Hb; done.
Qed.

(** ** Frames *)

Lemma be2_len n : 0 ≤ n ≤ MaxPacket → be_val (be_bytes 2 (wrap 16 n)) = n.
Proof.
  unfold MaxPacket. intros. rewrite be_val_bytes, wrap_small by lia.
  apply Z.mod_small. lia.
Qed.

Lemma sinkWrite_ok s p s' :
  sinkWrite s p = (s', None) → s_out s' = s_out s ++ p.
Proof. unfold sinkWrite. intros H. case_hyp H; done. Qed.

#[export] Program Instance raw_link : FrameLink Sink (list Z) := {|
  emitted := s_out;
  feed := λ r b, r ++ b;
  in_sync := λ _ r, r = [];
|}.
Next Obligation.
  intros w r p w' -> Hp. unfold WriteFrame. simpl.
  destruct (zlen p >? MaxPacket) eqn:E; [done|].
  destruct (sinkWrite w _) as [w1 [?|]] eqn:E1; [done|]. intros E2.
  apply sinkWrite_ok in E1, E2.
  exists (be_bytes 2 (wrap 16 (zlen p)) ++ p), []. split_and!; [|done|].
  { by rewrite E2, E1, <- app_assoc. }
  intros rest buflen Hbuf. unfold ReadFrame. cbn [asFrameReader bytes_reader ioReadFull].
  unfold MaxPacket in *.
  destruct (buflen <? 2) eqn:E3; unbool; [lia|].
  unfold bytesReadFull. change ([] ++ ?x) with x. rewrite <- app_assoc.
  rewrite (readFull_app' 2) by done.
  rewrite be2_len by (unfold zlen, MaxPacket in *; lia).
  destruct (zlen p >? buflen) eqn:E4; [unfold zlen in *; lia|].
  unfold zlen. rewrite Nat2Z.id, readFull_app. done.
Qed.

Section frames.
Context `{FrameLink W R}.

Lemma frames_law w r ps w' :
  in_sync w r → Forall (Forall u8) ps → writeFrames w ps = (w', None) →
  ∃ delta r', emitted w' = emitted w ++ delta ∧ in_sync w' r' ∧
    ∀ rest buflen, MaxPacket ≤ buflen →
      readFrames (length ps) (feed r (delta ++ rest)) buflen = (feed r' rest, Ok ps).
Proof.
  revert w r. induction ps as [|p ps IH]; intros w r Hs Hps Hw; simpl in Hw.
  { simplify_eq. exists [], r. split_and!; [by rewrite app_nil_r|done|done]. }
  inversion Hps as [|? ? Hp Hps']; subst.
  destruct (WriteFrame w p) as [w1 [?|]] eqn:E; [done|].
  destruct (frame_law _ _ _ _ Hs Hp E) as (d1 & r1 & He1 & Hs1 & Hr1).
  destruct (IH _ _ Hs1 Hps' Hw) as (d2 & r2 & He2 & Hs2 & Hr2).
  exists (d1 ++ d2), r2. split_and!; [by rewrite He2, He1, app_assoc|done|].
  intros rest buflen Hb. simpl. rewrite <- app_assoc, Hr1, Hr2 by done. done.
Qed.
End frames.

(** A frame that does not fit the 16-bit length is refused before anything is
    written; nothing else is refused by [WriteFrame] itself. *)
Lemma WriteFrame_too_large `{IoWriter W} (w : W) p :
  MaxPacket < zlen p → WriteFrame w p = (w, Some (ErrTooLarge (zlen p))).
Proof. intros. unfold WriteFrame. destruct (zlen p >? MaxPacket) eqn:E; [done|lia]. Qed.

(** ** Pings *)

Lemma ping_shape nonce :
  EncodePing nonce =
  [0x45; 0; 0; 28; 0; 0; 0; 0; 64; 253; 0; 0; 0; 0; 0; 0; 0; 0; 0; 0] ++ be_bytes 8 nonce.
Proof.
  unfold EncodePing. simpl. unfold splice. simpl take. rewrite length_be_bytes.
  simpl drop. by rewrite app_nil_r.
Qed.

(** A healthcheck ping is recognized as one, passes the
    plausibility tripwire of every carrier, carries the unassigned addresses
    and its 64-bit nonce; and every ping is a plausible IPv4 packet. *)
Theorem ping_recognized nonce pkt :
  IsPing (EncodePing nonce) = true ∧
  SrcIP (EncodePing nonce) = Some (Addr4 0) ∧
  be_val (drop 20 (EncodePing nonce)) = nonce `mod` 2 ^ 64 ∧
  (IsPing pkt = true → PlausibleIP pkt = true).
Proof.
  rewrite ping_shape. split_and!; [done|done| |].
  - rewrite drop_app_exact by done. by rewrite be_val_bytes.
  - unfold IsPing, PlausibleIP, pingLen. intros H. unbool.
    destruct (zlen pkt <? 20) eqn:E; unbool; [lia|].
    destruct (ipVersion pkt =? 4) eqn:E4; unbool; [|lia]. apply Z.leb_le. lia.
Qed.

Lemma plausible_length p : PlausibleIP p = true → 20 ≤ zlen p.
Proof. unfold PlausibleIP. destruct (zlen p <? 20) eqn:E; unbool; [done|lia]. Qed.

(** A packet has a source exactly when it has a destination. *)
Lemma srcip_dstip p : is_Some (SrcIP p) ↔ is_Some (DstIP p).
Proof. unfold SrcIP, DstIP. by repeat case_match. Qed.

Lemma length_Tag key msg : length (Tag key msg) = 8%nat.
Proof. unfold Tag. len. Qed.

Lemma Tag_u8 key msg : Forall u8 (Tag key msg).
Proof. apply Forall_take, hmac_u8. Qed.

Lemma VerifyTag_true key msg tag : VerifyTag key msg tag = true ↔ Tag key msg = tag.
Proof. unfold VerifyTag. by rewrite bool_decide_eq_true. Qed.

Lemma VerifyTag_self key msg : VerifyTag key msg (Tag key msg) = true.
Proof. by apply VerifyTag_true. Qed.

#[export] Hint Resolve Tag_u8 VerifyTag_self : dualnet.
#[export] Hint Rewrite length_Tag : len.
