(* ===== verification/Cipher.v ===== *)
(** * internal/cipher: selectors, datagram ciphers and stream ciphers

    [ParseName] and the two constructors; the datagram ciphers with their
    interface [DatagramCipher] and what it promises to the UDP carriers
    ([DatagramLaws]); the stream ciphers with frame reading and writing, which
    instantiate [FrameLink] of Wire.v.  The draws of [math/rand/v2] a nonce is
    made of are arguments. *)

From S2P Require Import Prelude GoBytes GoStrings Sha256 Wire ChaCha.
Local Open Scope Z_scope.

(** ** cipher.go *)

Definition minObfsHead : Z := 16.

Inductive cipherErr : Set :=
| ErrNoHead (name : string)     (** cipher: %q takes no :head *)
| ErrUnknown (name : string)    (** cipher: unknown cipher %q *)
| ErrBadHead (name : string).   (** head must be an integer >= 16 *)

Definition ParseName (name : string) : res cipherErr (string * Z) :=
  let '(base, rest, hasHead) := cut ":"%char name in
  if String.eqb base "" || String.eqb base "none" then
    if hasHead then Err (ErrNoHead name) else Ok ("none"%string, 0)
  else if String.eqb base "chacha4" then
    if negb hasHead then Ok ("chacha4"%string, 0)
    else match atoi rest with
    | None => Err (ErrBadHead name)
    | Some head => if head <? minObfsHead then Err (ErrBadHead name)
                   else Ok ("chacha4"%string, head)
    end
  else Err (ErrUnknown name).

(** ** Datagram ciphers (none.go, chacha4.go) *)

Inductive packetCipher : Type :=
| nonePacket
| chacha4Packet (key : list Z) (head : Z).

Definition NewPacket (name : string) (key : list Z) : res cipherErr packetCipher :=
  match ParseName name with
  | Err e => Err e
  | Ok (base, head) =>
      if String.eqb base "none" then Ok nonePacket else Ok (chacha4Packet key head)
  end.

(** [streamObfsLen], and the identical [obfsLen] of the datagram cipher. *)
Definition streamObfsLen (head : Z) (n : nat) : nat :=
  if (0 <? head) && (head <? Z.of_nat n) then Z.to_nat head else n.
Definition obfsLen (head : Z) (n : nat) : nat :=
  if (0 <? head) && (head <? Z.of_nat n) then Z.to_nat head else n.

(** XOR the first [m] bytes, leave the tail. *)
Definition xorHead (c : chacha4Cipher) (m : nat) (body : list Z) : chacha4Cipher * list Z :=
  let '(c', x) := XORKeyStream c (take m body) in (c', x ++ drop m body).

Definition chachaSeal (key : list Z) (head : Z) (nonce payload : list Z) : list Z :=
  nonce ++ snd (xorHead (newChacha4Cipher key nonce) (obfsLen head (length payload)) payload).

(** [Seal(dst, payload)]: [dst] only lends its storage. *)
Definition Seal (p : packetCipher) (draw : Z * Z) (payload : list Z) : res ioerr (list Z) :=
  match p with
  | nonePacket => Ok payload
  | chacha4Packet key head => Ok (chachaSeal key head (mrandNonce draw.1 draw.2) payload)
  end.

Definition Overhead (p : packetCipher) : nat :=
  match p with nonePacket => 0 | chacha4Packet _ _ => chachaNonceLen end.

(** [SealInPlace(region)]: the new contents of the region. *)
Definition SealInPlace (p : packetCipher) (draw : Z * Z) (region : list Z) : res ioerr (list Z) :=
  match p with
  | nonePacket => Ok region
  | chacha4Packet key head =>
      if (length region <? chachaNonceLen)%nat then Err ErrUnexpectedEOF
      else
        let region := splice region 0 (mrandNonce draw.1 draw.2) in
        let c := newChacha4Cipher key (take chachaNonceLen region) in
        let body := drop chachaNonceLen region in
        let n := obfsLen head (length body) in
        Ok (take chachaNonceLen region ++ snd (xorHead c n body))
  end.

Definition Open (p : packetCipher) (datagram : list Z) : res ioerr (list Z) :=
  match p with
  | nonePacket => Ok datagram
  | chacha4Packet key head =>
      if (length datagram <? chachaNonceLen)%nat then Err ErrUnexpectedEOF
      else
        let nonce := take chachaNonceLen datagram in
        let body := drop chachaNonceLen datagram in
        let n := obfsLen head (length body) in
        Ok (snd (xorHead (newChacha4Cipher key nonce) n body))
  end.

(** The [cipher.PacketCipher] interface, as the UDP carriers use it. *)
Class DatagramCipher (P : Type) := {
  dc_overhead : P → nat;
  dc_sealInPlace : P → Z * Z → list Z → res ioerr (list Z);
  dc_open : P → list Z → res ioerr (list Z);
}.

(** What the interface promises: a region whose body starts after the
    overhead seals into a datagram of the same length that opens to the body. *)
Class DatagramLaws (P : Type) `{DatagramCipher P} := {
  dc_roundtrip : ∀ p draw pre body,
    length pre = dc_overhead p → Forall u8 body →
    ∃ dg, dc_sealInPlace p draw (pre ++ body) = Ok dg ∧
      length dg = length (pre ++ body) ∧ dc_open p dg = Ok body;
}.

#[export] Instance packet_iface : DatagramCipher packetCipher :=
  {| dc_overhead := Overhead; dc_sealInPlace := SealInPlace; dc_open := Open |}.

(** ** Stream ciphers *)

Inductive streamCipher : Type :=
| noneStream
| chacha4Stream (key : list Z) (head : Z).

Definition NewStream (name : string) (key : list Z) : res cipherErr streamCipher :=
  match ParseName name with
  | Err e => Err e
  | Ok (base, head) =>
      if String.eqb base "none" then Ok noneStream else Ok (chacha4Stream key head)
  end.

Record chacha4Writer := MkCW { cw_w : Sink; cw_c : chacha4Cipher; cw_head : Z }.
Record chacha4Reader := MkCR { cr_r : list Z; cr_c : chacha4Cipher; cr_head : Z }.

(** What [WrapWriter] and [WrapReader] return: the connection itself, or the
    cipher around it. *)
Inductive streamWriter := RawWriter (w : Sink) | ChachaWriter (w : chacha4Writer).
Inductive streamReader := RawReader (r : list Z) | ChachaReader (r : chacha4Reader).

Definition WrapWriter (x : streamCipher) (draw : Z * Z) (w : Sink) : res ioerr streamWriter :=
  match x with
  | noneStream => Ok (RawWriter w)
  | chacha4Stream key head =>
      let nonce := mrandNonce draw.1 draw.2 in
      match sinkWrite w nonce with
      | (_, Some err) => Err err
      | (w', None) => Ok (ChachaWriter (MkCW w' (newChacha4Cipher key nonce) head))
      end
  end.

Definition WrapReader (x : streamCipher) (r : list Z) : res ioerr streamReader :=
  match x with
  | noneStream => Ok (RawReader r)
  | chacha4Stream key head =>
      match readFull chachaNonceLen r with
      | Err err => Err err
      | Ok (nonce, r') => Ok (ChachaReader (MkCR r' (newChacha4Cipher key nonce) head))
      end
  end.

(** [chacha4Writer.Write]. *)
Definition cwWrite (o : chacha4Writer) (p : list Z) : chacha4Writer * option ioerr :=
  let '(c, dst) := XORKeyStream (cw_c o) p in
  let '(w, err) := sinkWrite (cw_w o) dst in
  (MkCW w c (cw_head o), err).

(** [chacha4Writer.WriteFrame]. *)
Definition cwWriteFrame (o : chacha4Writer) (p : list Z) : chacha4Writer * option ioerr :=
  let '(c, hdr) := XORKeyStream (cw_c o) (be_bytes 2 (wrap 16 (zlen p))) in
  let m := streamObfsLen (cw_head o) (length p) in
  let '(c, body) := xorHead c m p in
  let '(w, err) := sinkWrite (cw_w o) (hdr ++ body) in
  (MkCW w c (cw_head o), err).

(** [io.ReadFull] through [chacha4Reader.Read]: the underlying reads may come
    in any chunks, which the keystream does not notice (ChaCha.v). *)
Definition crReadFull (o : chacha4Reader) (n : nat) : chacha4Reader * res ioerr (list Z) :=
  match readFull n (cr_r o) with
  | Err err => (MkCR [] (fst (XORKeyStream (cr_c o) (cr_r o))) (cr_head o), Err err)
  | Ok (b, r') =>
      let '(c, d) := XORKeyStream (cr_c o) b in
      (MkCR r' c (cr_head o), Ok d)
  end.

(** [chacha4Reader.ReadFrame]: raw reads, then the obfuscated span undone. *)
Definition crReadFrame (o : chacha4Reader) (buflen : Z) : chacha4Reader * res ioerr (list Z) :=
  if buflen <? 2 then (o, Err ErrShortBuffer)
  else match readFull 2 (cr_r o) with
  | Err err => (MkCR [] (cr_c o) (cr_head o), Err err)
  | Ok (h, r1) =>
      let '(c1, hdr) := XORKeyStream (cr_c o) h in
      let n := be_val hdr in
      if n >? buflen then (MkCR r1 c1 (cr_head o), Err ErrShortBuffer)
      else match readFull (Z.to_nat n) r1 with
      | Err err => (MkCR [] c1 (cr_head o), Err err)
      | Ok (b, r2) =>
          let '(c2, p) := xorHead c1 (streamObfsLen (cr_head o) (Z.to_nat n)) b in
          (MkCR r2 c2 (cr_head o), Ok p)
      end
  end.

Definition liftW {A} (f : A → streamWriter) (x : A * option ioerr) := (f x.1, x.2).
Definition liftR {A} (f : A → streamReader) (x : A * res ioerr (list Z)) := (f x.1, x.2).

#[export] Instance streamWriter_io : IoWriter streamWriter := {|
  ioWrite := λ w p, match w with
    | RawWriter s => liftW RawWriter (sinkWrite s p)
    | ChachaWriter o => liftW ChachaWriter (cwWrite o p)
    end;
  asFrameWriter := λ w, match w with
    | RawWriter _ => None
    | ChachaWriter o => Some (λ p, liftW ChachaWriter (cwWriteFrame o p))
    end;
|}.

#[export] Instance streamReader_io : IoReader streamReader := {|
  ioReadFull := λ r n, match r with
    | RawReader b => liftR RawReader (bytesReadFull b n)
    | ChachaReader o => liftR ChachaReader (crReadFull o n)
    end;
  asFrameReader := λ r, match r with
    | RawReader _ => None
    | ChachaReader o => Some (λ n, liftR ChachaReader (crReadFrame o n))
    end;
|}.

(** ** Selectors *)

Definition selects (name base : string) (head : Z) : Prop :=
  (base = "none" ∧ head = 0 ∧ (name = "" ∨ name = "none")) ∨
  (base = "chacha4" ∧ head = 0 ∧ name = "chacha4") ∨
  (base = "chacha4" ∧ minObfsHead ≤ head ∧
   ∃ digits, name = ("chacha4:" +:+ digits) ∧ atoi digits = Some head).

Lemma cut_colon_chacha d :
  cut ":"%char ("chacha4:" +:+ d) = ("chacha4"%string, d, true).
Proof. apply cut_true. rewrite chars_app. split; [done|]. by apply indexChar_None. Qed.

(** [ParseName] accepts exactly the documented selectors: the empty
    name and "none" (no head), "chacha4" (whole payload), and "chacha4:N" for
    an integer N of at least 16 (the first N bytes); everything else is an
    error. *)
Theorem ParseName_selects name base head :
  ParseName name = Ok (base, head) ↔ selects name base head.
Proof.
  unfold ParseName, selects. split.
  - destruct (cut ":"%char name) as [[b rest] has] eqn:E. intros H.
    destruct (String.eqb_spec b ""); [|destruct (String.eqb_spec b "none")]; simpl in H.
    1,2: destruct has; simplify_eq; apply cut_false in E as (-> & -> & _); left; auto.
    destruct (String.eqb_spec b "chacha4"); [|done]. subst b.
    destruct has; simpl in H.
    + destruct (atoi rest) as [h|] eqn:Ea; [|done].
      destruct (h <? minObfsHead) eqn:Eh; [done|]. simplify_eq. unbool.
      apply cut_true in E as [E _]. right; right. split_and!; [done|done|].
      exists rest. split; [|done]. apply chars_inj. by rewrite E, chars_app.
    + apply cut_false in E as (<- & -> & _). simplify_eq. by right; left.
  - intros [(-> & -> & [-> | ->])|[(-> & -> & ->)|(-> & Hh & d & -> & Ha)]]; [done|done|done|].
    rewrite cut_colon_chacha. simpl. rewrite Ha.
    destruct (head <? minObfsHead) eqn:Eh; [lia|done].
Qed.

(** ** XOR of a head is its own inverse *)

Lemma xorHead_cursor key nonce c pos m b :
  cursor key nonce c pos → Forall u8 b → (m ≤ length b)%nat →
  ∃ c', xorHead c m b =
      (c', zip_with Z.lxor (take m b) (keystream key nonce pos m) ++ drop m b) ∧
    cursor key nonce c' (pos + m).
Proof.
  intros Hc Hu Hm. unfold xorHead.
  destruct (XORKeyStream_cursor key nonce c pos (take m b) Hc) as (c' & E & Hc').
  { by apply Forall_take. }
  rewrite length_take, Nat.min_l in * by done. rewrite E. eauto.
Qed.

Lemma xor_head_twice key nonce pos m (b : list Z) :
  (m ≤ length b)%nat →
  let x := zip_with Z.lxor (take m b) (keystream key nonce pos m) ++ drop m b in
  zip_with Z.lxor (take m x) (keystream key nonce pos m) ++ drop m x = b.
Proof.
  intros Hm x. assert (Hl : length (zip_with Z.lxor (take m b) (keystream key nonce pos m)) = m)
    by len.
  subst x. rewrite (take_app_exact _ _ _ Hl), (drop_app_exact _ _ _ Hl).
  rewrite zip_lxor_involutive by len. apply take_drop.
Qed.

Lemma xor_head_u8 key nonce pos m b :
  Forall u8 b → Forall u8 (zip_with Z.lxor (take m b) (keystream key nonce pos m) ++ drop m b).
Proof.
  intros Hu. apply Forall_app. split; [|by apply Forall_drop].
  apply zip_lxor_u8; [by apply Forall_take|apply keystream_u8].
Qed.

Lemma obfsLen_le head n : (obfsLen head n ≤ n)%nat.
Proof.
  unfold obfsLen. destruct ((0 <? head) && (head <? Z.of_nat n)) eqn:E; unbool; lia.
Qed.

Lemma streamObfsLen_le head n : (streamObfsLen head n ≤ n)%nat.
Proof. apply obfsLen_le. Qed.

Lemma xorHead_new key nonce head b :
  Forall u8 b →
  snd (xorHead (newChacha4Cipher key nonce) (obfsLen head (length b)) b) =
  zip_with Z.lxor (take (obfsLen head (length b)) b)
    (streamOf key nonce 0 (obfsLen head (length b))) ++ drop (obfsLen head (length b)) b.
Proof.
  intros Hu. destruct (xorHead_cursor _ _ _ 0 (obfsLen head (length b)) b
    (cursor_new key nonce) Hu (obfsLen_le _ _)) as (c' & -> & _). done.
Qed.

Lemma length_mrandNonce a b : length (mrandNonce a b) = chachaNonceLen.
Proof. done. Qed.

Lemma mrandNonce_u8 a b : Forall u8 (mrandNonce a b).
Proof. apply Forall_app; split; apply le_bytes_u8. Qed.

Lemma open_chacha key head nonce b :
  length nonce = chachaNonceLen → Forall u8 b →
  Open (chacha4Packet key head) (chachaSeal key head nonce b) = Ok b.
Proof.
  intros Hn Hu. unfold Open, chachaSeal. rewrite xorHead_new by done.
  set (x := _ ++ drop _ b).
  assert (Hx : length x = length b).
  { subst x. pose proof (obfsLen_le head (length b)). unfold streamOf. len. }
  rewrite length_app, Hn. destruct (Nat.ltb_spec (chachaNonceLen + length x) chachaNonceLen); [lia|].
  rewrite take_app_exact, drop_app_exact by done.
  rewrite Hx, <- Hx, xorHead_new by (apply xor_head_u8; done). rewrite Hx.
  f_equal. apply xor_head_twice, obfsLen_le.
Qed.

Lemma sealInPlace_chacha key head draw pre b :
  length pre = chachaNonceLen →
  SealInPlace (chacha4Packet key head) draw (pre ++ b) =
  Ok (chachaSeal key head (mrandNonce draw.1 draw.2) b).
Proof.
  intros Hp. unfold SealInPlace. rewrite length_app, Hp.
  destruct (Nat.ltb_spec (chachaNonceLen + length b) chachaNonceLen); [lia|].
  assert (E : splice (pre ++ b) 0 (mrandNonce draw.1 draw.2) = mrandNonce draw.1 draw.2 ++ b).
  { unfold splice. rewrite length_mrandNonce. simpl take. by rewrite drop_app_exact. }
  rewrite E, take_app_exact, drop_app_exact by done. done.
Qed.

Lemma length_chachaSeal key head nonce b :
  Forall u8 b → length (chachaSeal key head nonce b) = (length nonce + length b)%nat.
Proof.
  intros Hu. unfold chachaSeal. rewrite xorHead_new by done. unfold streamOf.
  pose proof (obfsLen_le head (length b)). len.
Qed.

#[export] Instance packet_laws : DatagramLaws packetCipher.
Proof.
  constructor. intros [|key head] draw pre b Hp Hu;
    cbn [dc_overhead dc_sealInPlace dc_open packet_iface Overhead] in *.
  - exists b. destruct pre; [done|done].
  - exists (chachaSeal key head (mrandNonce draw.1 draw.2) b).
    rewrite sealInPlace_chacha by done. split_and!; [done| |by apply open_chacha].
    rewrite length_chachaSeal, length_app, length_mrandNonce, Hp by done. done.
Qed.

(** Claim C39.  Datagrams: for every cipher [NewPacket] builds and every nonce
    drawn, [Open] undoes [Seal]; [SealInPlace] on a region that already holds
    the body writes exactly the bytes [Seal] would return; the overhead is
    what was added; and a datagram shorter than the overhead is refused. *)
Theorem seal_open p draw pre payload :
  length pre = Overhead p → Forall u8 payload →
  ∃ dg, Seal p draw payload = Ok dg ∧
    SealInPlace p draw (pre ++ payload) = Ok dg ∧
    length dg = (Overhead p + length payload)%nat ∧
    Open p dg = Ok payload ∧
    ∀ d, (length d < Overhead p)%nat → Open p d = Err ErrUnexpectedEOF.
Proof.
  intros Hp Hu. destruct p as [|key head]; simpl in Hp.
  - destruct pre; [|done]. exists payload. split_and!; try done. simpl. lia.
  - eexists. split_and!; [done|by apply sealInPlace_chacha| |by apply open_chacha|].
    + by rewrite length_chachaSeal.
    + simpl. intros d Hd. by destruct (Nat.ltb_spec (length d) chachaNonceLen); [|lia].
Qed.

Example seal_open_witness :
  ∃ dg, Seal (chacha4Packet (replicate 32 1%Z) 16) (5, 6) (replicate 40 3%Z) = Ok dg ∧
    SealInPlace (chacha4Packet (replicate 32 1%Z) 16) (5, 6) (replicate 12 0 ++ replicate 40 3%Z) = Ok dg ∧
    length dg = (Overhead (chacha4Packet (replicate 32 1%Z) 16) + length (replicate 40 3%Z))%nat ∧
    Open (chacha4Packet (replicate 32 1%Z) 16) dg = Ok (replicate 40 3%Z) ∧
    ∀ d, (length d < Overhead (chacha4Packet (replicate 32 1%Z) 16))%nat →
      Open (chacha4Packet (replicate 32 1%Z) 16) d = Err ErrUnexpectedEOF.
Proof. apply seal_open; [reflexivity|by apply Forall_replicate]. Defined.

(** ** Frames over a stream cipher *)

Definition stream_sync (w : streamWriter) (r : streamReader) : Prop :=
  match w, r with
  | RawWriter _, RawReader b => b = []
  | ChachaWriter o, ChachaReader i =>
      cw_head o = cr_head i ∧ cr_r i = [] ∧
      ∃ key nonce pos, cursor key nonce (cw_c o) pos ∧ cursor key nonce (cr_c i) pos
  | _, _ => False
  end.

Definition stream_out (w : streamWriter) : list Z :=
  match w with RawWriter s => s_out s | ChachaWriter o => s_out (cw_w o) end.

Definition stream_feed (r : streamReader) (b : list Z) : streamReader :=
  match r with
  | RawReader b0 => RawReader (b0 ++ b)
  | ChachaReader i => ChachaReader (MkCR (cr_r i ++ b) (cr_c i) (cr_head i))
  end.

Lemma cwWriteFrame_bytes key nonce pos o p o' :
  cursor key nonce (cw_c o) pos → Forall u8 p → cwWriteFrame o p = (o', None) →
  let m := streamObfsLen (cw_head o) (length p) in
  s_out (cw_w o') = s_out (cw_w o) ++
    zip_with Z.lxor (be_bytes 2 (wrap 16 (zlen p))) (keystream key nonce pos 2) ++
    zip_with Z.lxor (take m p) (keystream key nonce (pos + 2) m) ++ drop m p ∧
  cw_head o' = cw_head o ∧ cursor key nonce (cw_c o') (pos + 2 + m).
Proof.
  intros Hc Hu Hw m. unfold cwWriteFrame in Hw.
  destruct (XORKeyStream_cursor key nonce _ pos (be_bytes 2 (wrap 16 (zlen p))) Hc)
    as (c1 & E1 & Hc1); [apply be_bytes_u8|].
  rewrite length_be_bytes in *. rewrite E1 in Hw.
  destruct (xorHead_cursor key nonce c1 (pos + 2) m p Hc1 Hu (streamObfsLen_le _ _))
    as (c2 & E2 & Hc2). fold m in Hw. rewrite E2 in Hw.
  destruct (sinkWrite _ _) as [w e] eqn:Ew. simplify_eq. apply sinkWrite_ok in Ew. done.
Qed.

Lemma crReadFrame_bytes key nonce pos i p :
  cursor key nonce (cr_c i) pos → Forall u8 p → zlen p ≤ MaxPacket → cr_r i = [] →
  let m := streamObfsLen (cr_head i) (length p) in
  let bytes := zip_with Z.lxor (be_bytes 2 (wrap 16 (zlen p))) (keystream key nonce pos 2) ++
    zip_with Z.lxor (take m p) (keystream key nonce (pos + 2) m) ++ drop m p in
  ∃ c', cursor key nonce c' (pos + 2 + m) ∧ ∀ rest buflen, MaxPacket ≤ buflen →
    crReadFrame (MkCR (cr_r i ++ bytes ++ rest) (cr_c i) (cr_head i)) buflen =
      (MkCR rest c' (cr_head i), Ok p).
Proof.
  intros Hc Hu Hb Hi m bytes. rewrite Hi. unfold MaxPacket in *.
  subst bytes. set (h := zip_with _ (be_bytes _ _) _). set (b := zip_with _ _ _ ++ _).
  assert (Hm : (m ≤ length p)%nat) by apply streamObfsLen_le.
  assert (Hlb : length b = length p) by (subst b; len).
  destruct (XORKeyStream_cursor key nonce _ pos h Hc) as (c1 & E1 & Hc1).
  { apply zip_lxor_u8; [apply be_bytes_u8|apply keystream_u8]. }
  assert (Hlh : length h = 2%nat) by (subst h; len). rewrite Hlh in *.
  destruct (xorHead_cursor key nonce c1 (pos + 2) m b Hc1) as (c2 & E2 & Hc2).
  { by apply xor_head_u8. } { lia. }
  exists c2. split; [done|]. intros rest buflen Hbuf. unfold crReadFrame. cbn [cr_r cr_c cr_head].
  destruct (buflen <? 2) eqn:E3; unbool; [lia|].
  change ([] ++ ?x) with x. rewrite <- app_assoc, (readFull_app' 2), E1 by done.
  subst h. rewrite zip_lxor_involutive by len.
  rewrite be2_len by (unfold zlen, MaxPacket in *; lia).
  destruct (zlen p >? buflen) eqn:E4; [unfold zlen in *; lia|].
  unfold zlen. rewrite Nat2Z.id, (readFull_app' _ b) by done.
  fold m. rewrite E2. do 2 f_equal. by apply xor_head_twice.
Qed.

Lemma WriteFrame_raw s p : WriteFrame (RawWriter s) p = liftW RawWriter (WriteFrame s p).
Proof.
  unfold WriteFrame, liftW. simpl. destruct (zlen p >? MaxPacket); [done|].
  by destruct (sinkWrite s _) as [s1 [?|]].
Qed.

Lemma ReadFrame_raw b n : ReadFrame (RawReader b) n = liftR RawReader (ReadFrame b n).
Proof.
  unfold ReadFrame, liftR. cbn [asFrameReader streamReader_io bytes_reader ioReadFull].
  destruct (n <? 2); [done|]. unfold liftR. simpl.
  destruct (bytesReadFull b 2) as [r1 [hdr|?]]; simpl; [|done].
  by destruct (be_val hdr >? n).
Qed.

Lemma stream_frame_law w r p w' :
  stream_sync w r → Forall u8 p → WriteFrame w p = (w', None) →
  ∃ delta r', stream_out w' = stream_out w ++ delta ∧ stream_sync w' r' ∧
    ∀ rest buflen, MaxPacket ≤ buflen →
      ReadFrame (stream_feed r (delta ++ rest)) buflen = (stream_feed r' rest, Ok p).
Proof.
  destruct w as [s|o], r as [b|i]; intros Hs Hu Hw; try done.
  - simpl in Hs. subst b. rewrite WriteFrame_raw in Hw.
    destruct (WriteFrame s p) as [s' e] eqn:E. unfold liftW in Hw. simplify_eq/=.
    destruct (frame_law (FrameLink:=raw_link) s [] p s' eq_refl Hu E) as (d & r & He & Hr0 & Hr).
    simpl in Hr0. subst r. exists d, (RawReader []). split_and!; [done|done|].
    intros rest buflen Hb. cbn [stream_feed]. rewrite ReadFrame_raw.
    by rewrite (Hr rest buflen Hb : ReadFrame (d ++ rest) buflen = _).
  - destruct Hs as (Hh & Hr & key & nonce & pos & Hc1 & Hc2). unfold WriteFrame in Hw.
    cbn [asFrameWriter streamWriter_io] in Hw.
    destruct (zlen p >? MaxPacket) eqn:El; [done|].
    destruct (cwWriteFrame o p) as [o' e] eqn:Eo. unfold liftW in Hw. simplify_eq/=.
    destruct (cwWriteFrame_bytes key nonce pos o p o' Hc1 Hu Eo) as (He & Hh' & Hc1').
    destruct (crReadFrame_bytes key nonce pos i p Hc2 Hu ltac:(lia) Hr) as (c' & Hc2' & Hread).
    rewrite <- Hh in *.
    eexists _, (ChachaReader (MkCR [] c' (cw_head o))). split; [exact He|split].
    + simpl. split; [done|]. split; [done|eauto 10].
    + intros rest buflen Hb. unfold ReadFrame. cbn [asFrameReader streamReader_io stream_feed].
      rewrite <- ?Hh. unfold liftR. by rewrite Hread.
Qed.

#[export] Instance stream_link : FrameLink streamWriter streamReader :=
  {| frame_law := stream_frame_law |}.

Lemma wrap_sync x draw w sw :
  WrapWriter x draw w = Ok sw →
  ∃ delta sr, stream_out sw = s_out w ++ delta ∧ stream_sync sw sr ∧
    ∀ rest, WrapReader x (delta ++ rest) = Ok (stream_feed sr rest).
Proof.
  destruct x as [|key head]; simpl; intros H.
  - simplify_eq. exists [], (RawReader []). by rewrite app_nil_r.
  - destruct (sinkWrite w _) as [w' [?|]] eqn:E; simplify_eq. apply sinkWrite_ok in E.
    exists (mrandNonce draw.1 draw.2),
      (ChachaReader (MkCR [] (newChacha4Cipher key (mrandNonce draw.1 draw.2)) head)).
    split; [exact E|split].
    + simpl. split; [done|]. split; [done|]. do 3 eexists. split; apply cursor_new.
    + intros rest. by rewrite (readFull_app' chachaNonceLen) by done.
Qed.

(** Claim C1.  Streams: whatever cipher [NewStream] picked, whatever nonce was
    drawn and whatever the connection already carried, if a writer was wrapped
    and a batch of packets was framed without error, then a reader wrapped
    around the bytes that reached the wire reads back exactly those packets,
    in order, and is left on whatever follows; obfuscating only a head of each
    frame does not change this. *)
Theorem stream_roundtrip x draw w sw ps sw' rest buflen :
  WrapWriter x draw w = Ok sw → Forall (Forall u8) ps →
  writeFrames sw ps = (sw', None) → MaxPacket ≤ buflen →
  ∃ delta sr sr', stream_out sw' = s_out w ++ delta ∧
    WrapReader x (delta ++ rest) = Ok sr ∧
    readFrames (length ps) sr buflen = (stream_feed sr' rest, Ok ps).
Proof.
  intros Hw Hps Hf Hb.
  destruct (wrap_sync x draw w sw Hw) as (d1 & r1 & He1 & Hs1 & Hr1).
  destruct (frames_law (H1:=stream_link) sw r1 ps sw' Hs1 Hps Hf) as (d2 & r2 & He2 & _ & Hr2).
  cbn [emitted feed stream_link] in *.
  exists (d1 ++ d2), (stream_feed r1 (d2 ++ rest)), r2.
  split_and!; [by rewrite He2, He1, <- app_assoc| |by apply Hr2].
  by rewrite <- app_assoc, Hr1.
Qed.

Example stream_roundtrip_witness :
  let x := chacha4Stream (replicate 32 9%Z) 16 in
  ∃ delta sr sr',
    stream_out (fst (writeFrames (match WrapWriter x (1, 2) (MkSink [] None) with
        Ok sw => sw | Err _ => RawWriter (MkSink [] None) end)
      [replicate 20 7%Z; []; replicate 70 8%Z])) = [] ++ delta ∧
    WrapReader x (delta ++ [1; 2; 3]) = Ok sr ∧
    readFrames 3 sr 65535 = (stream_feed sr' [1; 2; 3],
      Ok [replicate 20 7%Z; []; replicate 70 8%Z]).
Proof.
  intros x. eapply (stream_roundtrip x (1, 2) (MkSink [] None) _
    [replicate 20 7%Z; []; replicate 70 8%Z]).
  - reflexivity.
  - repeat constructor; lia.
  - vm_compute. reflexivity.
  - reflexivity.
Defined.
