(* ===== verification/PktWriter.v ===== *)
(** * internal/pktbuf/writer.go and flushgroup.go: the batching writer

    The buffer is kept as the code has it: one arena of fixed capacity, views
    that are spans of it, and the mutex as a flag carrying the reservation in
    progress.  The sink a flush writes to is a state [F] and a function
    [flush].  Interleavings of producers, the flush ticker and [Flush] callers
    are sequences of the events [wevent]; a blocked caller is an event that is
    not enabled. *)

From S2P Require Import Prelude GoBytes.
Local Open Scope nat_scope.

Section writer.
Context {F E : Type} (flush : F → list (list Z) → F * option E).

Record Writer := MkWriter {
  w_arena : list Z;              (** the backing array; its length is cap(arena) *)
  w_alen : nat;                  (** len(arena) *)
  w_views : list (nat * nat);    (** start and length of each view *)
  w_vcap : nat;                  (** cap(views) *)
  w_err : option E;
  w_mu : option nat;             (** held between Reserve and Commit: the slice length *)
  w_sink : F;
}.

Definition NewWriter (sink : F) (arenaCap maxPackets : nat) : Writer :=
  MkWriter (replicate arenaCap 0%Z) 0 [] maxPackets None None sink.

(** The bytes a view denotes. *)
Definition viewOf (arena : list Z) (v : nat * nat) : list Z := take v.2 (drop v.1 arena).
Definition pending (w : Writer) : list (list Z) := viewOf (w_arena w) <$> w_views w.

Definition flushLocked (w : Writer) : Writer :=
  match w_views w with
  | [] => w
  | _ =>
      let '(sink, err) := flush (w_sink w) (pending w) in
      MkWriter (w_arena w) 0 [] (w_vcap w)
        (match err with Some e => Some e | None => w_err w end) (w_mu w) sink
  end.

(** A Go statement: it completes, waits for the mutex, or panics. *)
Inductive outcome : Type :=
| Next (w : Writer)
| Blocked
| Panic.

Definition setMu (w : Writer) (m : option nat) : Writer :=
  MkWriter (w_arena w) (w_alen w) (w_views w) (w_vcap w) (w_err w) m (w_sink w).

Definition Reserve (w : Writer) (max : nat) : outcome :=
  match w_mu w with
  | Some _ => Blocked
  | None =>
      let w := if (length (w_views w) =? w_vcap w) || (length (w_arena w) <? w_alen w + max)
               then flushLocked w else w in
      (* w.arena[start : start+max] *)
      if w_alen w + max <=? length (w_arena w) then Next (setMu w (Some max)) else Panic
  end.

(** The producer writes into the slice it reserved. *)
Definition fillReserved (w : Writer) (data : list Z) : outcome :=
  match w_mu w with
  | None => Blocked
  | Some max =>
      if length data <=? max
      then Next (MkWriter (splice (w_arena w) (w_alen w) data) (w_alen w) (w_views w)
                   (w_vcap w) (w_err w) (w_mu w) (w_sink w))
      else Panic
  end.

Definition Commit (w : Writer) (n : nat) : outcome :=
  match w_mu w with
  | None => Blocked
  | Some _ =>
      let start := w_alen w in
      if start + n <=? length (w_arena w) then
        let w := MkWriter (w_arena w) (start + n) (w_views w ++ [(start, n)])
                   (w_vcap w) (w_err w) (w_mu w) (w_sink w) in
        let w := if (length (w_views w) =? w_vcap w) || (w_alen w =? length (w_arena w))
                 then flushLocked w else w in
        Next (setMu w None)
      else Panic
  end.

(** [Flush] (and [Close]); the error returned is [w_err] afterwards. *)
Definition Flush (w : Writer) : outcome :=
  match w_mu w with
  | Some _ => Blocked
  | None => Next (flushLocked w)
  end.

Definition tryFlush (w : Writer) : outcome :=
  match w_mu w with
  | Some _ => Next w
  | None => Next (flushLocked w)
  end.

(** [dst := w.Reserve(len(p)); n := copy(dst, p); w.Commit(n)]. *)
Definition writePacket (w : Writer) (p : list Z) : outcome :=
  match Reserve w (length p) with
  | Next w1 =>
      match fillReserved w1 p with
      | Next w2 => Commit w2 (length p)
      | o => o
      end
  | o => o
  end.

Inductive wevent : Type :=
| EvReserve (max : nat)
| EvFill (data : list Z)
| EvCommit (n : nat)
| EvFlush
| EvTryFlush.

Definition wexec (w : Writer) (e : wevent) : outcome :=
  match e with
  | EvReserve max => Reserve w max
  | EvFill data => fillReserved w data
  | EvCommit n => Commit w n
  | EvFlush => Flush w
  | EvTryFlush => tryFlush w
  end.

(** The packet a successful event commits. *)
Definition committedBy (w : Writer) (e : wevent) : list (list Z) :=
  match e with EvCommit n => [viewOf (w_arena w) (w_alen w, n)] | _ => [] end.

(** A step: an enabled event, and the packets it commits. *)
Inductive wsteps : Writer → list (list Z) → Writer → Prop :=
| wsteps_refl w : wsteps w [] w
| wsteps_step w e w' ps w'' :
    wexec w e = Next w' → wsteps w' ps w'' → wsteps w (committedBy w e ++ ps) w''.

(** The same, executable: [None] when some event is not enabled. *)
Fixpoint wrun (w : Writer) (es : list wevent) : option (list (list Z) * Writer) :=
  match es with
  | [] => Some ([], w)
  | e :: es' =>
      match wexec w e with
      | Next w' =>
          match wrun w' es' with
          | Some (ps, w'') => Some (committedBy w e ++ ps, w'')
          | None => None
          end
      | _ => None
      end
  end.

Lemma wrun_steps w es ps w' : wrun w es = Some (ps, w') → wsteps w ps w'.
Proof.
  revert w ps. induction es as [|e es IH]; intros w ps H; simpl in H.
  { simplify_eq. constructor. }
  destruct (wexec w e) as [w1| |] eqn:He; [|done|done].
  destruct (wrun w1 es) as [[ps' w2]|] eqn:Hr; [|done]. simplify_eq.
  econstructor; [done|]. by apply IH.
Qed.

(** ** Invariant *)

(** The views tile the used part of the arena. *)
Fixpoint tiles (start : nat) (vs : list (nat * nat)) (stop : nat) : Prop :=
  match vs with
  | [] => start = stop
  | (s, n) :: vs' => s = start ∧ tiles (start + n) vs' stop
  end.

Record writer_ok (arenaCap maxPackets : nat) (w : Writer) : Prop := {
  wo_arena : length (w_arena w) = arenaCap;
  wo_alen : w_alen w ≤ arenaCap;
  wo_tiles : tiles 0 (w_views w) (w_alen w);
  wo_vcap : w_vcap w = maxPackets;
  wo_views : length (w_views w) < maxPackets;
  wo_held : ∀ m, w_mu w = Some m → w_alen w + m ≤ arenaCap;
}.

Lemma tiles_app s vs t n : tiles s vs t → tiles s (vs ++ [(t, n)]) (t + n).
Proof.
  revert s. induction vs as [|[a m] vs IH]; simpl; intros s H; [by subst|].
  destruct H as [-> H]. auto.
Qed.

Lemma tiles_bound s vs t v : tiles s vs t → v ∈ vs → v.1 + v.2 ≤ t.
Proof.
  revert s. induction vs as [|[a m] vs IH]; simpl; intros s H Hv.
  { by apply elem_of_nil in Hv. }
  destruct H as [-> H]. apply elem_of_cons in Hv as [->|Hv]; [|eauto]. simpl.
  clear IH. revert s m H. induction vs as [|[a' m'] vs IH]; simpl; intros; [lia|].
  destruct H as [_ H]. apply (IH (s + m)) in H. lia.
Qed.

Lemma splice_view arena off data v :
  v.1 + v.2 ≤ off → off ≤ length arena → viewOf (splice arena off data) v = viewOf arena v.
Proof.
  intros Hv Ho. unfold viewOf, splice.
  rewrite drop_app_le by len. rewrite take_app_le by len.
  rewrite skipn_firstn_comm, take_take. f_equal. lia.
Qed.

Lemma splice_view_new arena off data :
  off + length data ≤ length arena → viewOf (splice arena off data) (off, length data) = data.
Proof.
  intros H. unfold viewOf, splice. simpl.
  rewrite (drop_app_exact (take off arena)) by len. apply take_app_length.
Qed.

(** ** Preservation *)

Lemma flushLocked_ok cap k w :
  0 < k → writer_ok cap k w → w_mu w = None →
  writer_ok cap k (flushLocked w) ∧ w_views (flushLocked w) = [] ∧
  w_alen (flushLocked w) = 0 ∧ w_mu (flushLocked w) = None.
Proof.
  intros Hk [] Hm. unfold flushLocked. destruct (w_views w) as [|v vs] eqn:Ev.
  - simpl in wo_tiles0. split_and!; try done. by split; rewrite ?Ev.
  - destruct (flush (w_sink w) (pending w)) as [sk er]. split_and!; try done.
    split; simpl; try done; [lia|]. intros m Hm'. congruence.
Qed.

Lemma wexec_ok cap k w e w' :
  0 < k → writer_ok cap k w → wexec w e = Next w' → writer_ok cap k w'.
Proof.
  intros Hk Hok He. destruct e as [max|data|n| |]; simpl in He.
  - unfold Reserve in He. destruct (w_mu w) eqn:Em; [done|].
    destruct (flushLocked_ok cap k w Hk Hok Em) as (Hok' & Hv' & Ha' & Hm').
    match type of He with context [if ?c then flushLocked w else w] =>
      set (w1 := if c then flushLocked w else w) in He end.
    assert (H1 : writer_ok cap k w1) by (subst w1; by destruct (_ || _)).
    destruct (Nat.leb_spec (w_alen w1 + max) (length (w_arena w1))); [|done].
    simplify_eq. destruct H1. split; simpl; try done. intros m [= <-]. lia.
  - unfold fillReserved in He. destruct (w_mu w) as [m|] eqn:Em; [|done].
    destruct (Nat.leb_spec (length data) m); [|done]. simplify_eq. destruct Hok.
    pose proof (wo_held0 m Em). split; simpl; try done.
    + rewrite length_splice; lia.
    + intros m' Hm'. apply wo_held0. congruence.
  - unfold Commit in He. destruct (w_mu w) as [m|] eqn:Em; [|done].
    destruct (Nat.leb_spec (w_alen w + n) (length (w_arena w))) as [Hn|]; [|done].
    set (w1 := MkWriter _ _ _ _ _ _ _) in He. destruct Hok.
    destruct (_ || _) eqn:Ef; simplify_eq.
    + unfold flushLocked. subst w1; simpl. destruct (w_views w ++ _) eqn:Ev.
      { by destruct (w_views w). }
      destruct (flush _ _) as [sk er]. split; simpl; try done; lia.
    + subst w1. simpl in *. unbool. rewrite length_app in *. simpl in *.
      split; simpl; try done; [by apply tiles_app|rewrite length_app; simpl; lia].
  - unfold Flush in He. destruct (w_mu w) eqn:Em; simplify_eq.
    by apply flushLocked_ok.
  - unfold tryFlush in He. destruct (w_mu w) eqn:Em; simplify_eq; [done|].
    by apply flushLocked_ok.
Qed.

Lemma NewWriter_ok sink cap k : 0 < k → writer_ok cap k (NewWriter sink cap k).
Proof. intros. split; simpl; try done; [by rewrite length_replicate|lia]. Qed.

(** A packet that fits the arena is always taken, whatever is buffered. *)
Lemma writePacket_next cap k w p :
  0 < k → writer_ok cap k w → w_mu w = None → length p ≤ cap →
  ∃ w', writePacket w p = Next w' ∧ writer_ok cap k w' ∧ w_mu w' = None.
Proof.
  intros Hk Hok Hm Hp. unfold writePacket.
  destruct (Reserve w (length p)) as [w1| |] eqn:E1.
  - pose proof (wexec_ok cap k w (EvReserve (length p)) w1 Hk Hok E1) as Hok1.
    assert (Hm1 : w_mu w1 = Some (length p)).
    { unfold Reserve in E1. rewrite Hm in E1. repeat case_match; by simplify_eq. }
    unfold fillReserved. rewrite Hm1, Nat.leb_refl.
    set (w2 := MkWriter _ _ _ _ _ _ _).
    assert (Hok2 : writer_ok cap k w2).
    { apply (wexec_ok cap k w1 (EvFill p)); [done|done|]. simpl.
      unfold fillReserved. by rewrite Hm1, Nat.leb_refl. }
    destruct (Commit w2 (length p)) as [w3| |] eqn:E3.
    + exists w3. split_and!; [done|by eapply (wexec_ok cap k w2 (EvCommit _))|].
      unfold Commit in E3. simpl in E3. repeat case_match; by simplify_eq.
    + unfold Commit in E3. simpl in E3. repeat case_match; by simplify_eq.
    + unfold Commit in E3. subst w2. cbn [w_mu w_alen w_arena] in E3.
      destruct (Nat.leb_spec (w_alen w1 + length p) (length (splice (w_arena w1) (w_alen w1) p)))
        as [|Hbad]; [done|].
      destruct Hok1. specialize (wo_held0 _ Hm1). rewrite length_splice in Hbad; lia.
  - unfold Reserve in E1. rewrite Hm in E1. repeat case_match; done.
  - exfalso. unfold Reserve in E1. rewrite Hm in E1.
    destruct (flushLocked_ok cap k w Hk Hok Hm) as (Hok' & Hv' & Ha' & Hm').
    destruct ((length (w_views w) =? w_vcap w) || (length (w_arena w) <? w_alen w + length p))
      eqn:Ec; [|unbool]; case_match eqn:El; try done; unbool; destruct Hok, Hok'; lia.
Qed.
End writer.
Arguments Writer : clear implicits.
Arguments outcome : clear implicits.

(** ** The writer is a queue *)

Section queue.
Context {E : Type} (oracle : list (list (list Z)) → list (list Z) → option E).

(** A sink that keeps every batch it was given; whether a flush fails may
    depend on everything written so far. *)
Definition recorder (f : list (list (list Z))) (batch : list (list Z)) :=
  (f ++ [batch], oracle f batch).

Abbreviation rwriter := (Writer (list (list (list Z))) E).

(** Everything accepted so far: flushed batches, then the buffer. *)
Definition accepted (w : rwriter) : list (list Z) := concat (w_sink w) ++ pending w.

(** Batches handed to the sink: never empty, within both limits. *)
Definition batch_ok (cap k : nat) (b : list (list Z)) : Prop :=
  b ≠ [] ∧ length b ≤ k ∧ length (concat b) ≤ cap.

Lemma accepted_flush (w : rwriter) : accepted (flushLocked recorder w) = accepted w.
Proof.
  unfold accepted, flushLocked. destruct (w_views w) eqn:Ev; [done|].
  simpl. unfold pending at 2. simpl. rewrite concat_app. simpl. by rewrite !app_nil_r.
Qed.

Lemma pending_bytes (w : rwriter) :
  tiles 0 (w_views w) (w_alen w) → length (concat (pending w)) ≤ w_alen w.
Proof.
  unfold pending. intros Ht0.
  assert (H : ∀ s vs t, tiles s vs t →
    length (concat (viewOf (w_arena w) <$> vs)) + s ≤ t).
  { intros s vs. revert s. induction vs as [|[a m] vs IH]; intros s t Ht.
    { simpl in *. lia. }
    destruct Ht as [-> Ht]. apply IH in Ht. rewrite fmap_cons. cbn [concat].
    rewrite length_app. unfold viewOf at 1. rewrite length_take. simpl. lia. }
  apply H in Ht0. lia.
Qed.

Lemma flush_batches cap k (w : rwriter) :
  tiles 0 (w_views w) (w_alen w) → length (w_views w) ≤ k → w_alen w ≤ cap →
  Forall (batch_ok cap k) (w_sink w) → Forall (batch_ok cap k) (w_sink (flushLocked recorder w)).
Proof.
  intros Ht Hk Hc Hs. unfold flushLocked. destruct (w_views w) eqn:Ev; [done|]. simpl.
  apply Forall_app. split; [done|]. constructor; [|done].
  pose proof (pending_bytes w) as Hb. rewrite Ev in Hb. split_and!.
  - unfold pending. by rewrite Ev.
  - unfold pending. rewrite length_fmap, Ev. done.
  - specialize (Hb Ht). lia.
Qed.

Lemma pending_splice (w : rwriter) cap k m data :
  writer_ok cap k w → w_mu w = Some m → length data ≤ m →
  viewOf (splice (w_arena w) (w_alen w) data) <$> w_views w = pending w.
Proof.
  intros [] Hm Hd. specialize (wo_held0 m Hm). unfold pending.
  apply list_fmap_ext. intros i v Hv. apply splice_view; [|lia].
  eapply tiles_bound; [done|]. by eapply list_elem_of_lookup_2.
Qed.

Lemma wexec_accepted cap k (w : rwriter) e w' :
  writer_ok cap k w → wexec recorder w e = Next w' →
  accepted w' = accepted w ++ committedBy w e.
Proof.
  intros Hok He. destruct e as [max|data|n| |]; simpl in *; rewrite ?app_nil_r.
  - unfold Reserve in He. destruct (w_mu w); [done|].
    destruct (_ || _); case_match; simplify_eq; [|done]. apply accepted_flush.
  - unfold fillReserved in He. destruct (w_mu w) as [m|] eqn:Em; [|done].
    destruct (Nat.leb_spec (length data) m); simplify_eq.
    unfold accepted at 1. unfold pending. simpl. by erewrite pending_splice.
  - unfold Commit in He. destruct (w_mu w) as [m|]; [|done].
    destruct (w_alen w + n <=? _); [|done].
    assert (Hgen : ∀ (b : bool) v,
      accepted (setMu (if b then flushLocked recorder v else v) None) = accepted v).
    { intros [] v; [apply accepted_flush|done]. }
    simplify_eq. rewrite Hgen. unfold accepted, pending. simpl.
    by rewrite fmap_app, app_assoc.
  - unfold Flush in He. destruct (w_mu w); simplify_eq. apply accepted_flush.
  - unfold tryFlush in He. destruct (w_mu w); simplify_eq; [done|]. apply accepted_flush.
Qed.

Lemma wexec_batches cap k (w : rwriter) e w' :
  writer_ok cap k w → wexec recorder w e = Next w' →
  Forall (batch_ok cap k) (w_sink w) → Forall (batch_ok cap k) (w_sink w').
Proof.
  intros [] He Hs.
  assert (Hf : Forall (batch_ok cap k) (w_sink (flushLocked recorder w))).
  { apply flush_batches; done || lia. }
  destruct e as [max|data|n| |]; simpl in *.
  - unfold Reserve in He. destruct (w_mu w); [done|].
    destruct (_ || _); case_match; by simplify_eq.
  - unfold fillReserved in He. destruct (w_mu w); [|done]. case_match; by simplify_eq.
  - unfold Commit in He. destruct (w_mu w) as [m|]; [|done].
    destruct (Nat.leb_spec (w_alen w + n) (length (w_arena w))); [|done].
    destruct (_ || _); simplify_eq; [|done].
    apply flush_batches; simpl; [by apply tiles_app| |lia|done].
    rewrite length_app. simpl. lia.
  - unfold Flush in He. destruct (w_mu w); by simplify_eq.
  - unfold tryFlush in He. destruct (w_mu w); by simplify_eq.
Qed.

Lemma wsteps_queue cap k (w : rwriter) ps w' :
  0 < k → wsteps recorder w ps w' → writer_ok cap k w → Forall (batch_ok cap k) (w_sink w) →
  writer_ok cap k w' ∧ accepted w' = accepted w ++ ps ∧ Forall (batch_ok cap k) (w_sink w').
Proof.
  intros Hk. induction 1 as [w|w e w1 ps w' He Hs IH]; intros Hok Hb.
  { by rewrite app_nil_r. }
  destruct IH as (? & Ha & ?); [by eapply wexec_ok|by eapply wexec_batches|].
  split_and!; [done| |done]. by rewrite Ha, (wexec_accepted cap k w e w1), app_assoc.
Qed.

(** A packet written whole is queued whole. *)
Lemma writePacket_accepted cap k (w : rwriter) p w' :
  0 < k → writer_ok cap k w → writePacket recorder w p = Next w' → accepted w' = accepted w ++ [p].
Proof.
  intros Hk Hok Hw. unfold writePacket in Hw.
  destruct (Reserve recorder w (length p)) as [w1| |] eqn:E1; [|done..].
  destruct (fillReserved w1 p) as [w2| |] eqn:E2; [|done..].
  pose proof (wexec_ok recorder cap k w (EvReserve _) w1 Hk Hok E1) as Hok1.
  pose proof (wexec_ok recorder cap k w1 (EvFill p) w2 Hk Hok1 E2) as Hok2.
  rewrite (wexec_accepted cap k w2 (EvCommit (length p)) w' Hok2 Hw).
  rewrite (wexec_accepted cap k w1 (EvFill p) w2 Hok1 E2).
  rewrite (wexec_accepted cap k w (EvReserve (length p)) w1 Hok E1).
  cbn [committedBy]. rewrite !app_nil_r. do 2 f_equal.
  unfold fillReserved in E2. destruct (w_mu w1) as [m|] eqn:Em; [|done].
  destruct (Nat.leb_spec (length p) m); [|done]. simplify_eq. cbn [w_arena w_alen].
  apply splice_view_new. pose proof (wo_held _ _ _ Hok1 _ Em). pose proof (wo_arena _ _ _ Hok1). lia.
Qed.
End queue.

(** Claim C9.  Under every interleaving of producers, flush ticks and flush
    calls, and whatever errors the sink returns, the batches written so far
    followed by the buffered views are exactly the packets committed, in commit
    order: no view is overwritten before its flush, dropped or reordered by the
    buffer; and no batch is empty or exceeds the packet or byte limit. *)
Theorem writer_is_queue {E} oracle cap k ps (w : Writer (list (list (list Z))) E) :
  0 < k → wsteps (recorder oracle) (NewWriter [] cap k) ps w →
  concat (w_sink w) ++ pending w = ps ∧
  Forall (batch_ok cap k) (w_sink w) ∧ length (w_views w) < k ∧ w_alen w ≤ cap.
Proof.
  intros Hk Hs. destruct (wsteps_queue oracle cap k _ ps w Hk Hs) as ([] & Ha & Hb).
  - by apply NewWriter_ok.
  - done.
  - by split_and!.
Qed.

Example writer_is_queue_witness :
  let w := MkWriter [4; 5; 6; 9; 9; 0; 0; 0]%Z 3 [(0, 3)] 3 (Some tt) None [[[1; 2; 3]; [9; 9]]]%Z in
  concat (w_sink w) ++ pending w = [[1; 2; 3]; [9; 9]; [4; 5; 6]]%Z ∧
  Forall (batch_ok 8 3) (w_sink w) ∧ length (w_views w) < 3 ∧ w_alen w ≤ 8.
Proof.
  apply (writer_is_queue (λ _ _, Some tt) 8 3); [lia|].
  apply (wrun_steps _ _ [EvReserve 4; EvFill [1; 2; 3]%Z; EvTryFlush; EvCommit 3;
    EvReserve 2; EvFill [9; 9]%Z; EvCommit 2; EvReserve 4; EvFill [4; 5; 6]%Z; EvCommit 3]).
  vm_compute. reflexivity.
Defined.

(** Sending never wedges the buffer: in any reachable unlocked
    state a packet no longer than the arena is reserved, copied and committed
    without blocking or panicking and leaves the mutex free; one longer than
    the arena panics in [Reserve]; and a tick while the mutex is free empties
    the buffer, while one that finds it held changes nothing. *)
Theorem writer_progress {F E} (flush : F → list (list Z) → F * option E) cap k w p :
  0 < k → writer_ok cap k w → w_mu w = None →
  (length p ≤ cap → ∃ w', writePacket flush w p = Next w' ∧ writer_ok cap k w' ∧ w_mu w' = None) ∧
  (cap < length p → writePacket flush w p = Panic) ∧
  (∃ w', tryFlush flush w = Next w' ∧ w_views w' = [] ∧ w_mu w' = None) ∧
  (∀ m, tryFlush flush (setMu w (Some m)) = Next (setMu w (Some m))).
Proof.
  intros Hk Hok Hm. destruct (flushLocked_ok flush cap k w Hk Hok Hm) as (Hok' & Hv & Ha & Hm').
  split_and!.
  - intros. by apply (writePacket_next flush cap k).
  - intros Hl. unfold writePacket, Reserve. rewrite Hm.
    destruct Hok, Hok'. rewrite wo_arena0.
    destruct (Nat.ltb_spec cap (w_alen w + length p)); [|lia]. rewrite orb_true_r.
    rewrite wo_arena1, Ha. destruct (Nat.leb_spec (0 + length p) cap); [lia|done].
  - exists (flushLocked flush w). split_and!; try done. unfold tryFlush. by rewrite Hm.
  - done.
Qed.

Example writer_progress_witness :
  let fl := λ (f : nat) (b : list (list Z)), (f + length b, @None unit) in
  let w := NewWriter 0 16 2 in let p := [7; 7]%Z in
  (length p ≤ 16 → ∃ w', writePacket fl w p = Next w' ∧ writer_ok 16 2 w' ∧ w_mu w' = None) ∧
  (16 < length p → writePacket fl w p = Panic) ∧
  (∃ w', tryFlush fl w = Next w' ∧ w_views w' = [] ∧ w_mu w' = None) ∧
  (∀ m, tryFlush fl (setMu w (Some m)) = Next (setMu w (Some m))).
Proof. intros fl w p. apply writer_progress; [lia|apply NewWriter_ok; lia|reflexivity]. Defined.

(** ** Any sink *)

Section replay.
Context {F E : Type} (flush : F → list (list Z) → F * option E) (f0 : F).

(** The sink's state after the batches it was given, and the error of one more. *)
Definition replay (log : list (list (list Z))) : F := fold_left (λ f b, (flush f b).1) log f0.
Definition replayErr (log : list (list (list Z))) (b : list (list Z)) : option E := (flush (replay log) b).2.

(** A writer over the sink, seen as one over the recorder of its batches. *)
Definition unlog (w : Writer (list (list (list Z))) E) : Writer F E :=
  MkWriter (w_arena w) (w_alen w) (w_views w) (w_vcap w) (w_err w) (w_mu w) (replay (w_sink w)).

Definition unlogOut (o : outcome (list (list (list Z))) E) : outcome F E :=
  match o with Next w => Next (unlog w) | Blocked => Blocked | Panic => Panic end.

Lemma flushLocked_unlog w : flushLocked flush (unlog w) = unlog (flushLocked (recorder replayErr) w).
Proof.
  unfold flushLocked. cbn [unlog w_views w_sink]. destruct (w_views w); [done|].
  unfold recorder, replayErr. change (pending (unlog w)) with (pending w).
  destruct (flush (replay (w_sink w)) (pending w)) as [f e] eqn:Hf. cbn. unfold unlog. cbn. f_equal.
  unfold replay. rewrite fold_left_app. cbn. fold (replay (w_sink w)). by rewrite Hf.
Qed.

Lemma if_unlog (b : bool) w :
  (if b then flushLocked flush (unlog w) else unlog w) = unlog (if b then flushLocked (recorder replayErr) w else w).
Proof. destruct b; [apply flushLocked_unlog|done]. Qed.

Lemma Reserve_unlog w max : Reserve flush (unlog w) max = unlogOut (Reserve (recorder replayErr) w max).
Proof.
  unfold Reserve. cbn [unlog w_mu]. destruct (w_mu w); [done|].
  change (w_views (unlog w)) with (w_views w). change (w_vcap (unlog w)) with (w_vcap w).
  change (w_arena (unlog w)) with (w_arena w). change (w_alen (unlog w)) with (w_alen w).
  rewrite if_unlog. match goal with |- context [unlog ?x] => generalize x end.
  intros w1. cbn [unlog w_alen w_arena]. by destruct (_ <=? _).
Qed.

Lemma fillReserved_unlog w data : fillReserved (unlog w) data = unlogOut (fillReserved w data).
Proof. unfold fillReserved. cbn [unlog w_mu]. destruct (w_mu w); [|done]. by destruct (_ <=? _). Qed.

Lemma Commit_unlog w n : Commit flush (unlog w) n = unlogOut (Commit (recorder replayErr) w n).
Proof.
  unfold Commit. cbn [unlog w_mu w_alen w_arena]. destruct (w_mu w) as [m|]; [|done].
  destruct (_ <=? _); [|done]. cbn [unlogOut].
  match goal with |- Next (setMu (if ?b then flushLocked flush ?u else _) _) = _ =>
    change u with (unlog (MkWriter (w_arena w) (w_alen w + n) (w_views w ++ [(w_alen w, n)]) (w_vcap w) (w_err w) (Some m) (w_sink w))) end.
  by rewrite if_unlog.
Qed.

Lemma wexec_unlog w e : wexec flush (unlog w) e = unlogOut (wexec (recorder replayErr) w e).
Proof.
  destruct e as [max|data|n| |]; simpl; [apply Reserve_unlog|apply fillReserved_unlog|apply Commit_unlog| |].
  - unfold Flush. cbn [unlog w_mu]. destruct (w_mu w); [done|]. cbn. f_equal. apply flushLocked_unlog.
  - unfold tryFlush. cbn [unlog w_mu]. destruct (w_mu w); [done|]. cbn. f_equal. apply flushLocked_unlog.
Qed.

Lemma writePacket_unlog w p : writePacket flush (unlog w) p = unlogOut (writePacket (recorder replayErr) w p).
Proof.
  unfold writePacket. rewrite Reserve_unlog. destruct (Reserve _ w _) as [w1| |]; [|done..]. cbn [unlogOut].
  rewrite fillReserved_unlog. destruct (fillReserved w1 p) as [w2| |]; [|done..]. cbn [unlogOut]. apply Commit_unlog.
Qed.
End replay.

(** A client that only puts whole packets, with flush ticks in between. *)
Inductive qop : Type :=
| QPut (p : list Z)
| QTick.

Definition qexec {F E} (flush : F → list (list Z) → F * option E) (w : Writer F E) (o : qop) : outcome F E :=
  match o with QPut p => writePacket flush w p | QTick => tryFlush flush w end.

Fixpoint qrun {F E} (flush : F → list (list Z) → F * option E) (w : Writer F E) (ops : list qop) : option (Writer F E) :=
  match ops with
  | [] => Some w
  | o :: ops' => match qexec flush w o with Next w' => qrun flush w' ops' | _ => None end
  end.

Definition puts (ops : list qop) : list (list Z) := omap (λ o, match o with QPut p => Some p | QTick => None end) ops.

Lemma qrun_unlog {F E} (flush : F → list (list Z) → F * option E) f0 w ops :
  qrun flush (unlog flush f0 w) ops = unlog flush f0 <$> qrun (recorder (replayErr flush f0)) w ops.
Proof.
  revert w. induction ops as [|[p|] ops IH]; intros w; cbn [qrun qexec]; [done| |].
  - rewrite writePacket_unlog. by destruct (writePacket _ w p); cbn; [apply IH|..].
  - pose proof (wexec_unlog flush f0 w EvTryFlush) as H. cbn [wexec] in H. rewrite H.
    by destruct (tryFlush _ w); cbn; [apply IH|..].
Qed.

Lemma qrun_accepted {E} oracle cap k (w : Writer _ E) ops w' :
  0 < k → writer_ok cap k w → qrun (recorder oracle) w ops = Some w' →
  writer_ok cap k w' ∧ accepted w' = accepted w ++ puts ops.
Proof.
  intros Hk. revert w. induction ops as [|[p|] ops IH]; intros w Hok Hr; cbn [qrun qexec] in Hr.
  - simplify_eq. by rewrite app_nil_r.
  - destruct (writePacket _ w p) as [w1| |] eqn:Hw; [|done..].
    pose proof (writePacket_accepted oracle cap k w p w1 Hk Hok Hw) as Ha.
    assert (writer_ok cap k w1) as Hok1.
    { unfold writePacket in Hw. destruct (Reserve _ w _) as [wa| |] eqn:E1; [|done..].
      destruct (fillReserved wa p) as [wb| |] eqn:E2; [|done..].
      eapply (wexec_ok _ cap k wb (EvCommit (length p))); [done| |exact Hw].
      eapply (wexec_ok (recorder oracle) cap k wa (EvFill p)); [done| |exact E2].
      by eapply (wexec_ok _ cap k w (EvReserve _)). }
    destruct (IH w1 Hok1 Hr) as [? Ha']. split; [done|]. rewrite Ha', Ha, <- app_assoc. done.
  - destruct (tryFlush _ w) as [w1| |] eqn:Hw; [|done..].
    pose proof (wexec_ok _ cap k w EvTryFlush w1 Hk Hok Hw) as Hok1.
    pose proof (wexec_accepted oracle cap k w EvTryFlush w1 Hok Hw) as Ha. cbn in Ha. rewrite app_nil_r in Ha.
    destruct (IH w1 Hok1 Hr) as [? Ha']. split; [done|]. by rewrite Ha', Ha.
Qed.

(** Whatever the sink does, it is given batches which, with what is still
    buffered, are exactly the packets put. *)
Lemma qrun_sink {F E} (flush : F → list (list Z) → F * option E) f0 cap k ops w' :
  0 < k → qrun flush (NewWriter f0 cap k) ops = Some w' →
  ∃ log, w_sink w' = replay flush f0 log ∧ concat log ++ pending w' = puts ops.
Proof.
  intros Hk Hr. change (NewWriter f0 cap k) with (unlog flush f0 (NewWriter [] cap k : Writer _ E)) in Hr.
  rewrite qrun_unlog in Hr. apply fmap_Some in Hr as (wl & Hr & ->).
  destruct (qrun_accepted _ cap k _ _ _ Hk (NewWriter_ok [] cap k Hk) Hr) as [_ Ha].
  exists (w_sink wl). split; [done|exact Ha].
Qed.

(** ** flushgroup.go *)

Section flushgroup.
Context {F E : Type} (flush : F → list (list Z) → F * option E).

(** The group's members, among the node's writers (by identity). *)
Definition FlushGroup : Type := gset nat.
Definition NewFlushGroup : FlushGroup := ∅.
Definition Add (g : FlushGroup) (w : nat) : FlushGroup := {[w]} ∪ g.
Definition Remove (g : FlushGroup) (w : nat) : FlushGroup := g ∖ {[w]}.

Definition tickOne (ws : gmap nat (Writer F E)) (id : nat) : gmap nat (Writer F E) :=
  match ws !! id with
  | Some w => match tryFlush flush w with Next w' => <[id := w']> ws | _ => ws end
  | None => ws
  end.

(** One tick: [scratch] is the snapshot of the members, in range order. *)
Definition flushAll (ws : gmap nat (Writer F E)) (scratch : list nat) : gmap nat (Writer F E) :=
  fold_left tickOne scratch ws.

Lemma tickOne_lookup ws id j :
  tickOne ws id !! j =
    if decide (j = id) then
      (λ w, match w_mu w with Some _ => w | None => flushLocked flush w end) <$> ws !! id
    else ws !! j.
Proof.
  unfold tickOne. destruct (decide (j = id)) as [->|Hne].
  - destruct (ws !! id) as [w|] eqn:Hw; [|done]. unfold tryFlush.
    destruct (w_mu w) eqn:Hm; simpl; by rewrite lookup_insert_eq, ?Hm.
  - destruct (ws !! id) as [w|] eqn:Hw; [|done]. unfold tryFlush.
    destruct (w_mu w); by rewrite lookup_insert_ne.
Qed.

(** A tick of the flush group, in whatever order it ranges over
    its members, leaves every idle member with nothing buffered, leaves a
    member whose producer holds the lock as it is, and never touches a writer
    that was removed from the group. *)
Theorem tick_flushes_members (g : FlushGroup) ws scratch id w :
  scratch ≡ₚ elements g → ws !! id = Some w →
  flushAll ws scratch !! id =
    Some (if decide (id ∈ g) then match w_mu w with Some _ => w | None => flushLocked flush w end else w).
Proof.
  intros Hp Hw. assert (Hnd : NoDup scratch) by (rewrite Hp; apply NoDup_elements).
  assert (Hin : id ∈ g ↔ id ∈ scratch) by (by rewrite Hp, elem_of_elements).
  rewrite (decide_ext _ _ _ _ Hin). clear Hp Hin g.
  unfold flushAll. revert ws Hw. induction scratch as [|j js IH]; intros ws Hw; cbn [fold_left].
  { rewrite decide_False by (apply not_elem_of_nil). done. }
  apply NoDup_cons in Hnd as [Hj Hnd]. destruct (decide (id = j)) as [->|Hne].
  - rewrite (decide_True (P:=j ∈ j :: js)) by (by left).
    set (w1 := match w_mu w with Some _ => _ | None => _ end).
    assert (H1 : tickOne ws j !! j = Some w1) by (rewrite tickOne_lookup, decide_True, Hw; done).
    clear IH. revert H1. generalize (tickOne ws j). clear Hw.
    induction js as [|i js IH]; intros m Hm; [done|]. cbn [fold_left].
    apply NoDup_cons in Hnd as [_ Hnd]. apply not_elem_of_cons in Hj as [Hji Hj].
    apply IH; [done|done|]. rewrite tickOne_lookup. by case_decide.
  - rewrite IH; [|done|by rewrite tickOne_lookup, decide_False]. f_equal.
    destruct (decide (id ∈ js)) as [H|H].
    + by rewrite decide_True by (by right).
    + rewrite decide_False; [done|]. by intros [?|?]%elem_of_cons.
Qed.
End flushgroup.

Example tick_flushes_members_witness :
  let fl := λ (f : nat) (b : list (list Z)), (f + length b, @None unit) in
  let idle := match writePacket fl (NewWriter 0 16 4) [7]%Z with Next w => w | _ => NewWriter 0 16 4 end in
  let held := setMu idle (Some 3) in
  flushAll fl {[1 := idle; 2 := held]} [2; 1] !! 1 = Some (flushLocked fl idle) ∧
  flushAll fl {[1 := idle; 2 := held]} [2; 1] !! 2 = Some held.
Proof.
  intros fl idle held. split.
  - rewrite (tick_flushes_members fl (Add (Add NewFlushGroup 1) 2) _ [2; 1] 1 idle); [by vm_compute| |by vm_compute].
    by vm_compute.
  - by rewrite (tick_flushes_members fl (Add (Add NewFlushGroup 1) 2) _ [2; 1] 2 held).
Defined.
