(* ===== verification/PktReader.v ===== *)
(** * internal/pktbuf/reader.go and batch.go: the prefetching reader

    Two goroutines share two batches through two channels: the prefetch
    goroutine fills a batch and sends it on [ready] (capacity 1), the consumer
    drains it and sends it back on [spent] (capacity 2).  A state holds both
    goroutines' program points, the channels and the batch store; an event is
    one atomic action of either, and [rstep] says whether it is enabled and
    what it does. *)

From S2P Require Import Prelude.
Local Open Scope nat_scope.

Section reader.
Context {E : Type}.

(** The two batches of the double buffer. *)
Inductive batchId : Set := B0 | B1.
#[global] Instance batchId_eq_dec : EqDecision batchId.
Proof. solve_decision. Defined.

(** Program point of the prefetch goroutine. *)
Inductive prefetchPc : Set :=
| PFill (b : batchId)      (** before [r.fill(b)] *)
| PSend (b : batchId)      (** at [select { r.ready <- b; <-r.quit }] *)
| PRecv                    (** at [select { b = <-r.spent; <-r.quit }] *)
| PDone.                   (** returned; [ready] is closed *)

Record Reader := MkReader {
  r_pc : prefetchPc;
  r_ready : list batchId;        (** buffered in the channel *)
  r_closed : bool;               (** [ready] closed *)
  r_spent : list batchId;
  r_quit : bool;
  r_cur : option batchId;
  r_idx : nat;
  r_views : batchId → list (list Z);   (** each batch's published views *)
  r_err : option E;
}.

Definition readyCap : nat := 1.
Definition spentCap : nat := 2.

(** State after [NewReader] and [Start]: one batch with the prefetch
    goroutine, the other in [spent]. *)
Definition NewReader : Reader :=
  MkReader (PFill B0) [] false [B1] false None 0 (λ _, []) None.

Inductive revent : Type :=
| EvFill (r : res E (list (list Z)))  (** the fill returns: the views it added, or an error *)
| EvSendReady                         (** [r.ready <- b] *)
| EvRecvSpent                         (** [b = <-r.spent] *)
| EvPrefetchQuit                      (** a select takes [<-r.quit] *)
| EvNextView                          (** [Next] returns a view *)
| EvNextRelease                       (** [Next] sends the drained batch to [spent] *)
| EvNextTake                          (** [Next] receives a batch from [ready] *)
| EvNextEnd                           (** [Next] returns (nil, false) *)
| EvClose.                            (** [Close] *)

Definition setViews (r : Reader) (b : batchId) (vs : list (list Z)) : batchId → list (list Z) :=
  λ b', if decide (b' = b) then vs else r_views r b'.

(** The prefetch goroutine returns: the deferred close of [ready]. *)
Definition prefetchExit (r : Reader) (err : option E) : Reader :=
  MkReader PDone (r_ready r) true (r_spent r) (r_quit r) (r_cur r) (r_idx r) (r_views r)
    (match err with Some e => Some e | None => r_err r end).

Definition setPc (r : Reader) (pc : prefetchPc) (ready spent : list batchId) : Reader :=
  MkReader pc ready (r_closed r) spent (r_quit r) (r_cur r) (r_idx r) (r_views r) (r_err r).

Definition setCur (r : Reader) (cur : option batchId) (idx : nat) (ready spent : list batchId) :=
  MkReader (r_pc r) ready (r_closed r) spent (r_quit r) cur idx (r_views r) (r_err r).

(** [b.Reset()] then the fill: the batch's views become what was added. *)
Definition fillBatch (r : Reader) (b : batchId) (res : res E (list (list Z))) : Reader :=
  match res with
  | Ok vs => MkReader (PSend b) (r_ready r) (r_closed r) (r_spent r) (r_quit r) (r_cur r)
               (r_idx r) (setViews r b vs) (r_err r)
  | Err e => prefetchExit
               (MkReader (r_pc r) (r_ready r) (r_closed r) (r_spent r) (r_quit r) (r_cur r)
                  (r_idx r) (setViews r b []) (r_err r)) (Some e)
  end.

Definition rstep (r : Reader) (e : revent) : option Reader :=
  match e with
  | EvFill res => match r_pc r with PFill b => Some (fillBatch r b res) | _ => None end
  | EvSendReady =>
      match r_pc r with
      | PSend b => if length (r_ready r) <? readyCap
                   then Some (setPc r PRecv (r_ready r ++ [b]) (r_spent r)) else None
      | _ => None
      end
  | EvRecvSpent =>
      match r_pc r, r_spent r with
      | PRecv, b :: spent => Some (setPc r (PFill b) (r_ready r) spent)
      | _, _ => None
      end
  | EvPrefetchQuit =>
      match r_pc r with
      | PSend _ | PRecv => if r_quit r then Some (prefetchExit r None) else None
      | _ => None
      end
  | EvNextView =>
      match r_cur r with
      | Some b => if r_idx r <? length (r_views r b)
                  then Some (setCur r (Some b) (S (r_idx r)) (r_ready r) (r_spent r)) else None
      | None => None
      end
  | EvNextRelease =>
      match r_cur r with
      | Some b => if r_idx r <? length (r_views r b) then None
                  else if length (r_spent r) <? spentCap
                  then Some (setCur r None (r_idx r) (r_ready r) (r_spent r ++ [b])) else None
      | None => None
      end
  | EvNextTake =>
      match r_cur r, r_ready r with
      | None, b :: ready => Some (setCur r (Some b) 0 ready (r_spent r))
      | _, _ => None
      end
  | EvNextEnd =>
      match r_cur r, r_ready r with
      | None, [] => if r_closed r then Some r else None
      | _, _ => None
      end
  | EvClose =>
      Some (MkReader (r_pc r) (r_ready r) (r_closed r) (r_spent r) true (r_cur r) (r_idx r)
              (r_views r) (r_err r))
  end.

(** The packets a fill published, and the packet [Next] returned. *)
Definition filledBy (e : revent) : list (list Z) :=
  match e with EvFill (Ok vs) => vs | _ => [] end.
Definition deliveredBy (r : Reader) (e : revent) : list (list Z) :=
  match e, r_cur r with
  | EvNextView, Some b => [nth (r_idx r) (r_views r b) []]
  | _, _ => []
  end.

(** A run: the packets filled, the packets delivered, the final state. *)
Inductive rrun : Reader → list (list Z) → list (list Z) → Reader → Prop :=
| rrun_refl r : rrun r [] [] r
| rrun_step r fs ds r1 e r2 :
    rrun r fs ds r1 → rstep r1 e = Some r2 →
    rrun r (fs ++ filledBy e) (ds ++ deliveredBy r1 e) r2.

(** ** Invariant *)

Definition pcBatch (pc : prefetchPc) : list batchId :=
  match pc with PFill b | PSend b => [b] | _ => [] end.
Definition curBatch (r : Reader) : list batchId :=
  match r_cur r with Some b => [b] | None => [] end.
(** Every batch and where it is. *)
Definition places (r : Reader) : list batchId :=
  pcBatch (r_pc r) ++ r_ready r ++ curBatch r ++ r_spent r.

(** Packets on their way to the consumer, in order. *)
Definition inTransit (r : Reader) : list (list Z) :=
  match r_cur r with Some b => drop (r_idx r) (r_views r b) | None => [] end ++
  concat (r_views r <$> r_ready r) ++
  match r_pc r with PSend b => r_views r b | _ => [] end.

Record reader_ok (r : Reader) (filled delivered : list (list Z)) : Prop := {
  ro_nodup : NoDup (places r);
  ro_full : r_pc r ≠ PDone → length (places r) = 2;
  ro_closed : r_closed r = true ↔ r_pc r = PDone;
  ro_ready : length (r_ready r) ≤ 1;
  ro_order : ∃ lost, filled = delivered ++ inTransit r ++ lost ∧
    (lost ≠ [] → r_quit r = true ∧ r_pc r = PDone);
}.

Lemma two_batches (l : list batchId) : NoDup l → length l ≤ 2.
Proof.
  intros H. change 2 with (length [B0; B1]). apply submseteq_length, NoDup_submseteq; [done|].
  intros [] _; rewrite !elem_of_cons; auto.
Qed.

Lemma views_other (r : Reader) b vs (l : list batchId) :
  b ∉ l → setViews r b vs <$> l = r_views r <$> l.
Proof.
  intros Hb. apply list_fmap_ext. intros i x Hx. unfold setViews.
  case_decide; [|done]. subst. exfalso. apply Hb. by eapply list_elem_of_lookup_2.
Qed.

Lemma transit_refill (r : Reader) b vs pc :
  NoDup (places r) → r_pc r = PFill b →
  match r_cur r with Some b' => drop (r_idx r) (setViews r b vs b') | None => [] end ++
    concat (setViews r b vs <$> r_ready r) ++ pc =
  inTransit r ++ pc.
Proof.
  intros Hn Hpc. unfold inTransit. rewrite Hpc, app_nil_r, <- app_assoc.
  unfold places in Hn. rewrite Hpc in Hn. simpl in Hn. apply NoDup_cons in Hn as [Hb _].
  rewrite !not_elem_of_app in Hb. destruct Hb as (Hr & Hc & _).
  rewrite views_other by done. f_equal. unfold curBatch in Hc.
  destruct (r_cur r) as [b'|]; [|done]. unfold setViews. case_decide; [|done]. set_solver.
Qed.

Lemma reader_ok_new : reader_ok (@NewReader) [] [].
Proof.
  split; simpl; try done.
  - apply NoDup_cons. split; [by intros H%list_elem_of_singleton|apply NoDup_singleton].
  - lia.
  - exists []. done.
Qed.

Lemma drop_nth_cons {A} (l : list A) i d : i < length l → drop i l = nth i l d :: drop (S i) l.
Proof.
  revert i. induction l as [|a l IH]; intros i Hi; simpl in *; [lia|].
  destruct i; [done|]. simpl. by apply IH; lia.
Qed.

(** What the consumer does to the packets in transit. *)
Lemma transit_next (r : Reader) b :
  r_cur r = Some b → r_idx r < length (r_views r b) →
  inTransit r = nth (r_idx r) (r_views r b) [] ::
    inTransit (setCur r (Some b) (S (r_idx r)) (r_ready r) (r_spent r)).
Proof.
  intros Hc Hi. unfold inTransit. simpl. rewrite Hc, (drop_nth_cons _ _ []) by done. done.
Qed.

Lemma reader_ok_fill (r : Reader) b vs fs ds :
  reader_ok r fs ds → r_pc r = PFill b →
  reader_ok (fillBatch r b (Ok vs)) (fs ++ vs) ds.
Proof.
  intros [Hn Hf Hc Hr (lost & Ho & Hl)] Hpc. simpl.
  destruct lost as [|x lost].
  2:{ destruct Hl as [_ Hl]; [done|]. congruence. }
  split; simpl; try done.
  - unfold places in *. simpl. by rewrite Hpc in Hn.
  - intros _. rewrite Hpc in Hf. specialize (Hf ltac:(done)). unfold places in *.
    by rewrite Hpc in Hf.
  - rewrite Hpc in Hc. split; [|done]. intros H. apply Hc in H. done.
  - exists []. split; [|done]. unfold inTransit. simpl.
    rewrite transit_refill by done. unfold setViews. rewrite decide_True by done.
    by rewrite Ho, !app_nil_r, <- app_assoc.
Qed.

Lemma reader_ok_fill_err (r : Reader) b e fs ds :
  reader_ok r fs ds → r_pc r = PFill b → reader_ok (fillBatch r b (Err e)) fs ds.
Proof.
  intros [Hn Hf Hc Hr (lost & Ho & Hl)] Hpc. simpl.
  destruct lost as [|x lost].
  2:{ destruct Hl as [_ Hl]; [done|]. congruence. }
  split; simpl; try done.
  - unfold places in *. simpl. rewrite Hpc in Hn. by apply NoDup_cons in Hn as [_ Hn].
  - exists []. split; [|done]. unfold inTransit. simpl.
    rewrite transit_refill by done. by rewrite Ho, !app_nil_r.
Qed.

Lemma reader_ok_step (r : Reader) fs ds e r' :
  reader_ok r fs ds → rstep r e = Some r' →
  reader_ok r' (fs ++ filledBy e) (ds ++ deliveredBy r e).
Proof.
  intros Hok He. destruct e as [[vs|er]| | | | | | | |]; simpl in *; rewrite ?app_nil_r;
    pose proof Hok as [Hn Hf Hc Hr Hord].
  - destruct (r_pc r) eqn:Hpc; simplify_eq. by apply reader_ok_fill.
  - destruct (r_pc r) eqn:Hpc; simplify_eq. by apply (reader_ok_fill_err r b er).
  - (* ready <- b *)
    destruct (r_pc r) as [|b| |] eqn:Hpc; try done.
    destruct (Nat.ltb_spec (length (r_ready r)) readyCap) as [H1|]; simplify_eq.
    unfold readyCap in H1. destruct (r_ready r) eqn:Er; [|simpl in H1; lia].
    unfold places in *. rewrite Hpc, Er in *.
    split; simpl in *; try done; [intros _; by apply Hf|by split; [intros ?%Hc|]|].
    destruct Hord as (lost & Ho & Hl). exists lost. split; [|by intros [? ?]%Hl]. rewrite Ho. unfold inTransit. simpl.
    by rewrite Hpc, Er, !app_nil_r.
  - (* b = <-spent *)
    destruct (r_pc r) eqn:Hpc; try done. destruct (r_spent r) as [|b sp] eqn:Es; simplify_eq.
    unfold places in *. rewrite Hpc, Es in *. simpl in *.
    assert (Hp : r_ready r ++ curBatch r ++ b :: sp ≡ₚ b :: r_ready r ++ curBatch r ++ sp).
    { by rewrite !app_assoc, <- Permutation_middle. }
    split; simpl; try done.
    + change (NoDup (b :: r_ready r ++ curBatch r ++ sp)). by rewrite <- Hp.
    + intros _. change (length (b :: r_ready r ++ curBatch r ++ sp) = 2).
      rewrite <- (Permutation_length Hp). by apply Hf.
    + by split; [intros ?%Hc|].
    + destruct Hord as (lost & Ho & Hl). exists lost. split; [|by intros [? ?]%Hl]. rewrite Ho. unfold inTransit. simpl. by rewrite Hpc.
  - (* quit *)
    assert (Hex : r_quit r = true ∧ r_pc r ≠ PDone ∧ r' = prefetchExit r None).
    { destruct (r_pc r); try done; destruct (r_quit r); by simplify_eq. }
    destruct Hex as (Hq & Hpc & ->). clear He.
    destruct Hord as (lost & Ho & Hl). destruct lost as [|x lost];
      [|by destruct Hl as [_ Hl]].
    split; simpl; try done.
    + unfold places in *. simpl. by apply NoDup_app in Hn as (_ & _ & Hn).
    + exists (match r_pc r with PSend b => r_views r b | _ => [] end).
      split; [|done]. rewrite Ho. unfold inTransit. simpl.
      by rewrite !app_nil_r, <- !app_assoc.
  - destruct (r_cur r) as [b|] eqn:Hcur; [|done].
    destruct (Nat.ltb_spec (r_idx r) (length (r_views r b))); simplify_eq.
    pose proof (transit_next r b Hcur H) as Ht.
    split; simpl; try done.
    + unfold places in *. simpl. unfold curBatch in *. simpl. by rewrite Hcur in Hn.
    + intros Hp. specialize (Hf Hp). unfold places, curBatch in *. simpl. by rewrite Hcur in Hf.
    + destruct Hord as (lost & Ho & Hl). exists lost. split; [|done]. by rewrite Ho, Ht, <- app_assoc.
  - destruct (r_cur r) as [b|] eqn:Hcur; [|done].
    destruct (Nat.ltb_spec (r_idx r) (length (r_views r b))) as [|Hge]; [done|].
    destruct (length (r_spent r) <? spentCap); simplify_eq.
    assert (Hp : places r ≡ₚ places (setCur r None (r_idx r) (r_ready r) (r_spent r ++ [b]))).
    { unfold places, curBatch. simpl. rewrite Hcur. simpl. solve_Permutation. }
    split; simpl; try done.
    + by rewrite <- Hp.
    + intros Hpc. rewrite <- (Permutation_length Hp). by apply Hf.
    + destruct Hord as (lost & Ho & Hl). exists lost. split; [|done]. rewrite Ho. unfold inTransit. simpl.
      by rewrite Hcur, (drop_ge (r_views r b)) by done.
  - destruct (r_cur r) eqn:Hcur; [done|]. destruct (r_ready r) as [|b rd] eqn:Er; simplify_eq.
    assert (Hp : places r ≡ₚ places (setCur r (Some b) 0 rd (r_spent r))).
    { unfold places, curBatch. simpl. rewrite Hcur, Er. simpl. solve_Permutation. }
    split; simpl in *; try done.
    + by rewrite <- Hp.
    + intros Hpc. rewrite <- (Permutation_length Hp). by apply Hf.
    + lia.
    + destruct Hord as (lost & Ho & Hl). exists lost. split; [|done]. rewrite Ho. unfold inTransit. simpl.
      rewrite Hcur, Er, drop_0. simpl. by rewrite <- !app_assoc.
  - destruct (r_cur r); [done|]. destruct (r_ready r) eqn:Er; [|done].
    destruct (r_closed r); by simplify_eq.
  - simplify_eq. split; simpl; try done. destruct Hord as (lost & Ho & Hl). exists lost. split; [done|].
    intros [_ ?]%Hl. done.
Qed.

Lemma rrun_ok (r : Reader) fs ds r' :
  rrun r fs ds r' → reader_ok r [] [] → reader_ok r' fs ds.
Proof. induction 1; [done|]. intros. eapply reader_ok_step; eauto. Qed.

Lemma reader_reach fs ds (r : Reader) : rrun NewReader fs ds r → reader_ok r fs ds.
Proof. intros H. eapply rrun_ok; [exact H|apply reader_ok_new]. Qed.

(** Executable runs, for concrete traces. *)
Fixpoint rexec (r : Reader) (es : list revent) : option (list (list Z) * list (list Z) * Reader) :=
  match es with
  | [] => Some ([], [], r)
  | e :: es' =>
      match rstep r e with
      | Some r1 =>
          match rexec r1 es' with
          | Some (fs, ds, r2) => Some (filledBy e ++ fs, deliveredBy r e ++ ds, r2)
          | None => None
          end
      | None => None
      end
  end.

Lemma rrun_app (r : Reader) fs ds r1 es fs' ds' r2 :
  rrun r fs ds r1 → rexec r1 es = Some (fs', ds', r2) → rrun r (fs ++ fs') (ds ++ ds') r2.
Proof.
  revert fs ds r1 fs' ds'. induction es as [|e es IH]; intros fs ds r1 fs' ds' Hr He; simpl in He.
  { simplify_eq. by rewrite !app_nil_r. }
  destruct (rstep r1 e) as [r3|] eqn:Hs; [|done].
  destruct (rexec r3 es) as [[[fs3 ds3] r4]|] eqn:Hx; simplify_eq.
  rewrite !app_assoc. eapply IH; [|done]. by econstructor.
Qed.

Lemma rexec_run es fs ds (r : Reader) :
  rexec NewReader es = Some (fs, ds, r) → rrun NewReader fs ds r.
Proof. intros H. exact (rrun_app _ _ _ _ _ _ _ _ (rrun_refl _) H). Qed.
End reader.
Arguments Reader : clear implicits.
Arguments revent : clear implicits.

(** Claim C10.  Under every interleaving of the two goroutines and of [Close],
    the consumer receives the packets of the fills in order, none twice and
    none skipped: what was delivered, followed by what is in transit, is what
    the fills published, except that a [Close] may drop a final batch.  While
    the consumer holds a batch, the prefetch goroutine holds another, so the
    view [Next] returned is not overwritten; and when [Next] reports the end
    of a source that was not closed, everything filled was delivered. *)
Theorem reader_in_order {E} fs ds (r : Reader E) :
  rrun NewReader fs ds r →
  (∃ lost, fs = ds ++ inTransit r ++ lost ∧ (r_quit r = false → lost = [])) ∧
  (∀ b, r_cur r = Some b → r_pc r ≠ PFill b ∧ b ∉ r_spent r) ∧
  (r_quit r = false → rstep r EvNextEnd = Some r → ds = fs).
Proof.
  intros Hr. destruct (reader_reach fs ds r Hr) as [Hn _ Hc _ (lost & Ho & Hl)].
  assert (Hlost : r_quit r = false → lost = []).
  { intros Hq. destruct lost; [done|]. destruct Hl as [Hl _]; [done|]. congruence. }
  split_and!; [by exists lost| |].
  - intros b Hb. unfold places, curBatch in Hn. rewrite Hb in Hn. split.
    + intros Hpc. rewrite Hpc in Hn. simpl in Hn. apply NoDup_cons in Hn as [Hn _].
      apply Hn, elem_of_app. right. by left.
    + intros Hs. apply NoDup_app in Hn as (_ & _ & Hn). apply NoDup_app in Hn as (_ & _ & Hn).
      simpl in Hn. by apply NoDup_cons in Hn as [Hn _].
  - intros Hq He. simpl in He. destruct (r_cur r) eqn:Hcur; [done|].
    destruct (r_ready r) eqn:Er; [|done]. destruct (r_closed r) eqn:Ec; [|done].
    pose proof (proj1 Hc eq_refl) as Hpc. rewrite Ho, (Hlost Hq). unfold inTransit.
    by rewrite Hcur, Er, Hpc, !app_nil_r.
Qed.

Definition demo_run : list (revent unit) :=
  [EvFill (Ok [[1]; [2]]%Z); EvSendReady; EvRecvSpent; EvNextTake; EvNextView;
   EvFill (Ok [[3]]%Z); EvNextView; EvNextRelease; EvSendReady; EvRecvSpent;
   EvFill (Err tt); EvNextTake; EvNextView; EvNextRelease; EvNextEnd].

Definition demo_state : Reader unit :=
  match rexec NewReader demo_run with Some (_, _, r) => r | None => NewReader end.

Example reader_in_order_witness :
  (∃ lost, [[1]; [2]; [3]]%Z = [[1]; [2]; [3]]%Z ++ inTransit demo_state ++ lost ∧
    (r_quit demo_state = false → lost = [])) ∧
  (∀ b, r_cur demo_state = Some b → r_pc demo_state ≠ PFill b ∧ b ∉ r_spent demo_state) ∧
  (r_quit demo_state = false → rstep demo_state EvNextEnd = Some demo_state →
   [[1]; [2]; [3]]%Z = [[1]; [2]; [3]]%Z).
Proof.
  apply (reader_in_order [[1]; [2]; [3]]%Z [[1]; [2]; [3]]%Z demo_state).
  apply (rexec_run demo_run). vm_compute. reflexivity.
Defined.

(** The reader neither deadlocks nor blocks where it must not: in
    every reachable state the release of a drained batch finds room on
    [spent]; and as long as the source neither failed nor was closed, some
    goroutine can act: the prefetch goroutine, or the consumer. *)
Theorem reader_progress {E} fs ds (r : Reader E) :
  rrun NewReader fs ds r →
  (∀ b, r_cur r = Some b → length (r_views r b) ≤ r_idx r → is_Some (rstep r EvNextRelease)) ∧
  (r_closed r = false →
    (∀ res, is_Some (rstep r (EvFill res))) ∨ is_Some (rstep r EvSendReady) ∨
    is_Some (rstep r EvRecvSpent) ∨ is_Some (rstep r EvNextTake) ∨
    is_Some (rstep r EvNextView) ∨ is_Some (rstep r EvNextRelease)).
Proof.
  intros Hr. destruct (reader_reach fs ds r Hr) as [Hn Hf Hc Hrd _].
  assert (Hrel : ∀ b, r_cur r = Some b → length (r_views r b) ≤ r_idx r →
    is_Some (rstep r EvNextRelease)).
  { intros b Hb Hi. simpl. rewrite Hb.
    destruct (Nat.ltb_spec (r_idx r) (length (r_views r b))); [lia|].
    pose proof (two_batches _ Hn) as H2. unfold places, curBatch in H2. rewrite Hb in H2.
    rewrite !length_app in H2. simpl in H2.
    destruct (Nat.ltb_spec (length (r_spent r)) spentCap); [done|unfold spentCap in *; lia]. }
  split; [done|]. intros Hcl. destruct (r_pc r) as [b|b| |] eqn:Hpc.
  - left. intros res. simpl. by rewrite Hpc.
  - destruct (r_cur r) as [c|] eqn:Hcur.
    + do 4 right. destruct (Nat.ltb_spec (r_idx r) (length (r_views r c))) as [Hi|Hi].
      * left. simpl. rewrite Hcur. by destruct (Nat.ltb_spec (r_idx r) (length (r_views r c))); [|lia].
      * right. by apply (Hrel c).
    + right. destruct (r_ready r) as [|d rd] eqn:Er.
      * left. simpl. by rewrite Hpc, Er.
      * do 2 right. left. simpl. by rewrite Hcur, Er.
  - destruct (r_cur r) as [c|] eqn:Hcur.
    + do 4 right. destruct (Nat.ltb_spec (r_idx r) (length (r_views r c))) as [Hi|Hi].
      * left. simpl. rewrite Hcur. by destruct (Nat.ltb_spec (r_idx r) (length (r_views r c))); [|lia].
      * right. by apply (Hrel c).
    + do 2 right. destruct (r_spent r) as [|d sp] eqn:Es.
      * right. left. simpl. rewrite Hcur. specialize (Hf ltac:(congruence)).
        unfold places, curBatch in Hf. rewrite Hpc, Hcur, Es in Hf.
        destruct (r_ready r); [simpl in Hf; lia|done].
      * left. simpl. by rewrite Hpc, Es.
  - exfalso. pose proof (proj2 Hc eq_refl). congruence.
Qed.

Example reader_progress_witness :
  (∀ b, r_cur demo_state = Some b → length (r_views demo_state b) ≤ r_idx demo_state →
    is_Some (rstep demo_state EvNextRelease)) ∧
  (r_closed demo_state = false →
    (∀ res, is_Some (rstep demo_state (EvFill res))) ∨ is_Some (rstep demo_state EvSendReady) ∨
    is_Some (rstep demo_state EvRecvSpent) ∨ is_Some (rstep demo_state EvNextTake) ∨
    is_Some (rstep demo_state EvNextView) ∨ is_Some (rstep demo_state EvNextRelease)).
Proof.
  apply (reader_progress [[1]; [2]; [3]]%Z [[1]; [2]; [3]]%Z demo_state).
  apply (rexec_run demo_run). vm_compute. reflexivity.
Defined.
