(* ===== verification/Peers.v ===== *)
(** * internal/peers: the registry of downstream peers

    [byID] and [byKey] hold pointers to shared [peer] records which [Register]
    mutates and [GC] compares, so the model keeps a store of peers and the two
    maps as maps to locations.  The clock reading, the random ids drawn by
    [newID] and the sink are arguments of the operations. *)

From S2P Require Import Prelude Wire.
Local Open Scope Z_scope.

Section registry.
Context {S : Type}.

Record peer := MkPeer {
  p_id : Owner;
  p_key : string;
  p_sink : option S;     (** nil until the first Register stores one *)
  p_lastSeen : Z;
  p_lastTS : Z;
}.

Record Registry := MkRegistry {
  g_multiple : bool;
  g_ttl : Z;
  g_maxPeers : Z;
  g_byID : gmap Owner nat;
  g_byKey : gmap string nat;
  g_heap : gmap nat peer;   (** the peers the maps point to *)
  g_next : nat;             (** the next fresh location *)
  g_single : option peer;
  g_singleTS : Z;
}.

Definition New (multiple : bool) (ttl maxPeers : Z) : Registry :=
  MkRegistry multiple ttl maxPeers ∅ ∅ ∅ 0 None 0.

Definition setMaps (r : Registry) byID byKey heap next : Registry :=
  MkRegistry (g_multiple r) (g_ttl r) (g_maxPeers r) byID byKey heap next
    (g_single r) (g_singleTS r).

(** [mintLocked] over the ids the random source will yield; [None] when the
    given draws do not end the loop. *)
Fixpoint mintLocked (byID : gmap Owner nat) (draws : list Owner) : option Owner :=
  match draws with
  | [] => None
  | id :: draws' =>
      if IsZero id then mintLocked byID draws'
      else match byID !! id with
           | None => Some id
           | Some _ => mintLocked byID draws'
           end
  end.

(** The id [Register] works on in multiple mode. *)
Definition chooseID (r : Registry) (claimed : Owner) (peerKey : string) (draws : list Owner) : option Owner :=
  if IsZero claimed then
    match g_byKey r !! peerKey with
    | Some l => p_id <$> g_heap r !! l
    | None => mintLocked (g_byID r) draws
    end
  else Some claimed.

(** [p.key = peerKey] with its index, then [sink], [lastSeen], [lastTS]. *)
Definition bindPeer (r : Registry) (l : nat) (p : peer) (peerKey : string) (ts : Z) (sink : S) (now : Z) : Registry :=
  let byKey := if String.eqb (p_key p) peerKey then g_byKey r
               else <[peerKey := l]> (delete (p_key p) (g_byKey r)) in
  setMaps r (g_byID r) byKey
    (<[l := MkPeer (p_id p) peerKey (Some sink) now ts]> (g_heap r)) (g_next r).

(** [Register]: the registry afterwards, the id to use and acceptance. *)
Definition Register (r : Registry) (claimed : Owner) (peerKey : string) (ts : Z) (sink : S)
    (now : Z) (draws : list Owner) : option (Registry * (Owner * bool)) :=
  if negb (g_multiple r) then
    if negb (ts =? 0) && (ts <=? g_singleTS r) then Some (r, (zeroOwner, false))
    else Some (MkRegistry (g_multiple r) (g_ttl r) (g_maxPeers r) (g_byID r) (g_byKey r)
                 (g_heap r) (g_next r) (Some (MkPeer zeroOwner "" (Some sink) now ts)) ts,
               (zeroOwner, true))
  else
    match chooseID r claimed peerKey draws with
    | None => None
    | Some id =>
        match g_byID r !! id with
        | None =>
            if (0 <? g_maxPeers r) && (g_maxPeers r <=? Z.of_nat (size (g_byID r)))
            then Some (r, (zeroOwner, false))
            else
              let l := g_next r in
              let p := MkPeer id "" None 0 0 in
              let r' := setMaps r (<[id := l]> (g_byID r)) (g_byKey r)
                          (<[l := p]> (g_heap r)) (Datatypes.S l) in
              Some (bindPeer r' l p peerKey ts sink now, (id, true))
        | Some l =>
            match g_heap r !! l with
            | None => None   (* no dangling pointers: see [registry_ok] *)
            | Some p =>
                if negb (ts =? 0) && (ts <=? p_lastTS p) then Some (r, (zeroOwner, false))
                else Some (bindPeer r l p peerKey ts sink now, (id, true))
            end
        end
    end.

Definition Accepts (r : Registry) (owner : Owner) : bool :=
  if negb (g_multiple r) then match g_single r with Some _ => true | None => false end
  else match g_byID r !! owner with Some _ => true | None => false end.

Definition peerAt (r : Registry) (owner : Owner) : option peer :=
  g_byID r !! owner ≫= λ l, g_heap r !! l.

(** [SinkFor]: the peer's sink; the second component is "known". *)
Definition SinkFor (r : Registry) (owner : Owner) : option S * bool :=
  if g_multiple r then
    match peerAt r owner with Some p => (p_sink p, true) | None => (None, false) end
  else match g_single r with Some p => (p_sink p, true) | None => (None, false) end.

(** [Send]: what is delivered and to which sink; calling it is the caller's. *)
Definition Send {E} (call : S → list Z → option E) (r : Registry) (owner : Owner) (blob : list Z) : bool * option E :=
  let sink :=
    if g_multiple r then match peerAt r owner with Some p => p_sink p | None => None end
    else match g_single r with Some p => p_sink p | None => None end in
  match sink with
  | None => (false, None)
  | Some s => (true, call s blob)
  end.

(** The body of [GC]'s range loop, for one entry of [byID]. *)
Definition gcOne (cutoff : Z) (acc : Registry * Z) (entry : Owner * nat) : Registry * Z :=
  let '(r, n) := acc in
  let '(id, l) := entry in
  match g_heap r !! l with
  | None => (r, n)
  | Some p =>
      if p_lastSeen p <? cutoff then
        let byKey := if decide (g_byKey r !! p_key p = Some l)
                     then delete (p_key p) (g_byKey r) else g_byKey r in
        (setMaps r (delete id (g_byID r)) byKey (g_heap r) (g_next r), n + 1)
      else (r, n)
  end.

(** [GC], visiting the entries of [byID] in the given order. *)
Definition GC (r : Registry) (now : Z) (order : list (Owner * nat)) : Registry * Z :=
  if negb (g_multiple r) then (r, 0)
  else fold_left (gcOne (now - g_ttl r)) order (r, 0).

(** ** Invariant *)

Record registry_ok (r : Registry) : Prop := {
  rg_id : ∀ id l, g_byID r !! id = Some l → ∃ p, g_heap r !! l = Some p ∧ p_id p = id ∧ is_Some (p_sink p);
  rg_key : ∀ k l, g_byKey r !! k = Some l →
    ∃ p, g_heap r !! l = Some p ∧ p_key p = k ∧ g_byID r !! p_id p = Some l;
  rg_zero : g_byID r !! zeroOwner = None;
  rg_cap : 0 < g_maxPeers r → Z.of_nat (size (g_byID r)) ≤ g_maxPeers r;
  rg_fresh : ∀ l, (g_next r ≤ l)%nat → g_heap r !! l = None;
}.

(** ** Lemmas *)

Lemma New_ok multiple ttl maxPeers : registry_ok (New multiple ttl maxPeers).
Proof.
  split; simpl; try (intros; by rewrite lookup_empty in * || done).
  intros. rewrite map_size_empty. lia.
Qed.

Lemma mintLocked_some byID draws id :
  mintLocked byID draws = Some id → IsZero id = false ∧ byID !! id = None ∧ id ∈ draws.
Proof.
  induction draws as [|d ds IH]; simpl; [done|].
  destruct (IsZero d) eqn:Hz; [|destruct (byID !! d) eqn:Hd].
  - intros (?&?&?)%IH. split_and!; [done..|]. by right.
  - intros (?&?&?)%IH. split_and!; [done..|]. by right.
  - intros [= ->]. split_and!; [done..|]. left.
Qed.

(** The loop ends at the first draw that is neither zero nor taken. *)
Lemma mintLocked_ends byID draws id :
  id ∈ draws → IsZero id = false → byID !! id = None → is_Some (mintLocked byID draws).
Proof.
  induction draws as [|d ds IH]; simpl; [by intros ?%elem_of_nil|].
  intros [->|Hin]%elem_of_cons Hz Hn.
  - by rewrite Hz, Hn.
  - destruct (IsZero d); [by apply IH|]. destruct (byID !! d); [by apply IH|done].
Qed.

(** Among more distinct draws than ids taken, plus the zero id, one is free. *)
Lemma free_draw (byID : gmap Owner nat) draws :
  NoDup draws → (size byID + 1 < length draws)%nat → ∃ id, id ∈ draws ∧ IsZero id = false ∧ byID !! id = None.
Proof.
  intros Hnd Hlen. destruct (decide (Exists (λ id, IsZero id = false ∧ byID !! id = None) draws)) as [He|Hn].
  { apply Exists_exists in He. exact He. }
  exfalso. assert (list_to_set draws ⊆@{gset Owner} {[zeroOwner]} ∪ dom byID) as Hsub.
  { intros id Hin%elem_of_list_to_set. apply elem_of_union. destruct (byID !! id) eqn:Hb; [right; by apply elem_of_dom|]. left.
    apply elem_of_singleton. destruct (IsZero id) eqn:Hz; [by apply bool_decide_eq_true in Hz|].
    destruct Hn. apply Exists_exists. by exists id. }
  apply subseteq_size in Hsub. rewrite size_list_to_set in Hsub by done.
  pose proof (size_union_alt ({[zeroOwner]} : gset Owner) (dom byID)) as Hu. rewrite size_singleton in Hu.
  assert (size (dom byID ∖ ({[zeroOwner]} : gset Owner)) ≤ size (dom byID))%nat by (apply subseteq_size; set_solver).
  rewrite size_dom in *. lia.
Qed.

Lemma IsZero_true o : IsZero o = true ↔ o = zeroOwner.
Proof. unfold IsZero. apply bool_decide_eq_true. Qed.
Lemma IsZero_false o : IsZero o = false ↔ o ≠ zeroOwner.
Proof. unfold IsZero. apply bool_decide_eq_false. Qed.

Lemma chooseID_nonzero r claimed k draws id :
  registry_ok r → chooseID r claimed k draws = Some id → id ≠ zeroOwner.
Proof.
  intros Hr. unfold chooseID. destruct (IsZero claimed) eqn:Hz.
  - destruct (g_byKey r !! k) as [l|] eqn:Hk.
    + destruct (rg_key _ Hr _ _ Hk) as (p & Hp & _ & Hid). rewrite Hp. simpl.
      intros [= <-] Hz0. rewrite Hz0, (rg_zero _ Hr) in Hid. done.
    + intros (Hz'&_&_)%mintLocked_some. by apply IsZero_false.
  - intros [= <-]. by apply IsZero_false.
Qed.

(** [bindPeer] keeps the invariant, given that [p] is the peer of its id up
    to the sink. *)
Lemma bindPeer_ok r l p k ts sink now :
  registry_ok r ∨
    (∃ r0, registry_ok r0 ∧ g_byID r0 !! p_id p = None ∧ p_id p ≠ zeroOwner ∧ l = g_next r0 ∧
      (0 < g_maxPeers r0 → Z.of_nat (size (g_byID r0)) < g_maxPeers r0) ∧
      r = setMaps r0 (<[p_id p := l]> (g_byID r0)) (g_byKey r0) (<[l := p]> (g_heap r0)) (Datatypes.S l) ∧
      p_key p = ""%string) →
  g_byID r !! p_id p = Some l → g_heap r !! l = Some p →
  registry_ok (bindPeer r l p k ts sink now).
Proof.
  intros Hor Hid Hl.
  assert (Hkeys : ∀ k' l', g_byKey r !! k' = Some l' → ∃ p', g_heap r !! l' = Some p' ∧ p_key p' = k' ∧ g_byID r !! p_id p' = Some l').
  { destruct Hor as [Hr|(r0 & Hr & Hn & Hz & -> & Hc & -> & _)]; [apply Hr|]. simpl.
    intros k' l' Hk'. destruct (rg_key _ Hr _ _ Hk') as (p' & Hp' & Hkey & Hid').
    exists p'. rewrite !lookup_insert_ne; [done| |].
    - intros He. rewrite He, Hid' in Hn. done.
    - intros <-. rewrite (rg_fresh _ Hr) in Hp' by lia. done. }
  assert (Hids : ∀ id' l', l' ≠ l → g_byID r !! id' = Some l' → ∃ p', g_heap r !! l' = Some p' ∧ p_id p' = id' ∧ is_Some (p_sink p')).
  { destruct Hor as [Hr|(r0 & Hr & Hn & Hz & -> & Hc & -> & _)]; [intros; by apply Hr|]. simpl.
    intros id' l' Hne. intros [[_ ?]|[? Hid']]%lookup_insert_Some; [done|].
    rewrite lookup_insert_ne by done. by apply Hr. }
  split.
  - intros id' l'. unfold bindPeer; simpl. intros Hid'. destruct (decide (l' = l)) as [->|Hne].
    + rewrite lookup_insert_eq. eexists. split; [done|]. simpl. split; [|done].
      destruct Hor as [Hr|(r0 & Hr & Hn & Hz & -> & Hc & -> & _)]; simpl in *.
      * destruct (rg_id _ Hr _ _ Hid') as (p' & Hp' & ? & _). congruence.
      * apply lookup_insert_Some in Hid' as [[? _]|[_ Hid']]; [done|].
        destruct (rg_id _ Hr _ _ Hid') as (p' & Hp' & _). rewrite (rg_fresh _ Hr) in Hp' by lia. done.
    + rewrite lookup_insert_ne by done. by apply Hids.
  - intros k' l'. unfold bindPeer; simpl. intros Hk'.
    assert (Hcase : (l' = l ∧ k' = k) ∨ (l' ≠ l ∧ g_byKey r !! k' = Some l')).
    { destruct (String.eqb_spec (p_key p) k) as [He|He].
      - destruct (Hkeys _ _ Hk') as (p' & Hp' & Hkey & _).
        destruct (decide (l' = l)) as [->|]; [left|by right]. split; [done|]. congruence.
      - apply lookup_insert_Some in Hk' as [[-> ->]|[Hne Hk']]; [by left|].
        apply lookup_delete_Some in Hk' as [Hne' Hk']. right. split; [|done]. intros ->.
        destruct (Hkeys _ _ Hk') as (p' & Hp' & Hkey & _). congruence. }
    destruct Hcase as [[-> ->]|[Hne Hk'']].
    + rewrite lookup_insert_eq. eexists. split; [done|]. by simpl.
    + rewrite lookup_insert_ne by done. by apply Hkeys.
  - destruct Hor as [Hr|(r0 & Hr & Hn & Hz & -> & Hc & -> & _)]; simpl; [apply Hr|].
    rewrite lookup_insert_ne by congruence. apply Hr.
  - destruct Hor as [Hr|(r0 & Hr & Hn & Hz & -> & Hc & -> & _)]; simpl; [apply Hr|].
    intros H0. rewrite map_size_insert_None by done. specialize (Hc H0). lia.
  - intros l' Hl'. unfold bindPeer in *; simpl in *.
    destruct Hor as [Hr|(r0 & Hr & Hn & Hz & -> & Hc & -> & _)]; simpl in *.
    + rewrite lookup_insert_ne; [by apply Hr|]. intros <-. rewrite (rg_fresh _ Hr) in Hl by done. done.
    + rewrite !lookup_insert_ne by lia. apply Hr. lia.
Qed.

Definition sameConfig (r r' : Registry) : Prop :=
  g_multiple r' = g_multiple r ∧ g_ttl r' = g_ttl r ∧ g_maxPeers r' = g_maxPeers r.

Lemma peerAt_some r id p :
  registry_ok r → peerAt r id = Some p ↔ ∃ l, g_byID r !! id = Some l ∧ g_heap r !! l = Some p ∧ p_id p = id.
Proof.
  intros Hr. unfold peerAt. split.
  - intros (l & Hl & Hp)%bind_Some. exists l. split_and!; [done..|].
    destruct (rg_id _ Hr _ _ Hl) as (p' & Hp' & ? & _). congruence.
  - intros (l & Hl & Hp & _). by rewrite Hl.
Qed.

Lemma bindPeer_peerAt r l p k ts sink now o :
  registry_ok (bindPeer r l p k ts sink now) → g_byID r !! p_id p = Some l → g_heap r !! l = Some p →
  peerAt (bindPeer r l p k ts sink now) o =
    if decide (o = p_id p) then Some (MkPeer (p_id p) k (Some sink) now ts) else peerAt r o.
Proof.
  intros Hok Hid Hl. unfold peerAt at 1, bindPeer at 1 2. simpl. case_decide as Ho.
  - subst. rewrite Hid. simpl. by rewrite lookup_insert_eq.
  - unfold peerAt. destruct (g_byID r !! o) as [l'|] eqn:Ho'; simpl; [|done].
    apply lookup_insert_ne. intros <-.
    destruct (rg_id _ Hok o l) as (p' & Hp' & Hid' & _); [done|].
    unfold bindPeer in Hp'; simpl in Hp'. rewrite lookup_insert_eq in Hp'. by simplify_eq.
Qed.

(** What an accepted registration of a multiple-mode registry does. *)
Definition registered (r r' : Registry) (k : string) (ts : Z) (sink : S) (now : Z) (id : Owner) : Prop :=
  registry_ok r' ∧ sameConfig r r' ∧ id ≠ zeroOwner ∧
  (∀ o, peerAt r' o = if decide (o = id) then Some (MkPeer id k (Some sink) now ts) else peerAt r o) ∧
  (∀ p, peerAt r id = Some p → ts = 0 ∨ p_lastTS p < ts).

Lemma Register_multiple r claimed k ts sink now draws r' id ok :
  registry_ok r → g_multiple r = true →
  Register r claimed k ts sink now draws = Some (r', (id, ok)) →
  if ok then chooseID r claimed k draws = Some id ∧ registered r r' k ts sink now id
  else r' = r ∧ id = zeroOwner ∧ ∃ i, chooseID r claimed k draws = Some i ∧
    ((peerAt r i = None ∧ 0 < g_maxPeers r ∧ g_maxPeers r ≤ Z.of_nat (size (g_byID r))) ∨
     (∃ p, peerAt r i = Some p ∧ ts ≠ 0 ∧ ts ≤ p_lastTS p)).
Proof.
  intros Hr Hm. unfold Register. rewrite Hm. simpl.
  destruct (chooseID r claimed k draws) as [i|] eqn:Hc; [|done].
  pose proof (chooseID_nonzero _ _ _ _ _ Hr Hc) as Hz.
  destruct (g_byID r !! i) as [l|] eqn:Hi.
  - destruct (rg_id _ Hr _ _ Hi) as (p & Hp & Hpi & _). rewrite Hp.
    assert (peerAt r i = Some p) as Hpa by (unfold peerAt; by rewrite Hi).
    destruct (_ && _) eqn:Hg; intros [= <- <- <-].
    + unbool. split; [done|]. split; [done|]. exists i. split; [done|]. right. exists p. done.
    + subst i. assert (Hok : registry_ok (bindPeer r l p k ts sink now)) by (apply bindPeer_ok; [by left|done..]).
      split; [done|]. split; [done|]. split; [done|]. split; [done|]. split.
      * intros o. by apply bindPeer_peerAt.
      * intros p'. rewrite Hpa. intros [= <-]. apply andb_false_iff in Hg as [?|?]; unbool; [by left|by right].
  - assert (peerAt r i = None) as Hpa by (unfold peerAt; by rewrite Hi).
    destruct (_ && _) eqn:Hg; intros [= <- <- <-].
    + unbool. split; [done|]. split; [done|]. exists i. split; [done|]. by left.
    + set (p := MkPeer i "" None 0 0). set (r1 := setMaps _ _ _ _ _).
      assert (Hi1 : g_byID r1 !! p_id p = Some (g_next r)) by (simpl; by rewrite lookup_insert_eq).
      assert (Hl1 : g_heap r1 !! g_next r = Some p) by (simpl; by rewrite lookup_insert_eq).
      assert (Hok : registry_ok (bindPeer r1 (g_next r) p k ts sink now)).
      { apply bindPeer_ok; [|done..]. right. exists r. split; [done|]. split; [done|]. split; [done|].
        split; [done|]. split; [|done]. intros H0. apply andb_false_iff in Hg as [?|?]; unbool; lia. }
      split; [done|]. split; [done|]. split; [done|]. split; [done|]. split; [|by rewrite Hpa].
      intros o. rewrite bindPeer_peerAt by done. simpl. case_decide; [done|].
      unfold peerAt. simpl. rewrite lookup_insert_ne by done.
      destruct (g_byID r !! o) as [l'|] eqn:Ho'; simpl; [|done]. apply lookup_insert_ne. intros <-.
      destruct (rg_id _ Hr _ _ Ho') as (p' & Hp' & _). rewrite (rg_fresh _ Hr) in Hp' by lia. done.
Qed.

(** [Register] only fails to return while the id source yields nothing usable. *)
Lemma Register_returns r claimed k ts sink now draws :
  registry_ok r → (∃ d, d ∈ draws ∧ IsZero d = false ∧ g_byID r !! d = None) →
  is_Some (Register r claimed k ts sink now draws).
Proof.
  intros Hr (d & Hd & Hz & Hn). unfold Register. destruct (g_multiple r); simpl; [|by case_match].
  assert (is_Some (chooseID r claimed k draws)) as [i Hi].
  { unfold chooseID. destruct (IsZero claimed); [|done]. destruct (g_byKey r !! k) as [l|] eqn:Hk.
    - destruct (rg_key _ Hr _ _ Hk) as (p & -> & _). done.
    - by eapply mintLocked_ends. }
  rewrite Hi. destruct (g_byID r !! i) as [l|] eqn:Hl.
  - destruct (rg_id _ Hr _ _ Hl) as (p & -> & _). by destruct (_ && _).
  - by destruct (_ && _).
Qed.

(** Idle before the cut-off, by location. *)
Definition stale (heap : gmap nat peer) (cutoff : Z) (l : nat) : bool :=
  match heap !! l with Some p => p_lastSeen p <? cutoff | None => false end.

Lemma locations_distinct r i j l :
  registry_ok r → g_byID r !! i = Some l → g_byID r !! j = Some l → i = j.
Proof.
  intros Hr Hi Hj. destruct (rg_id _ Hr _ _ Hi) as (p & Hp & <- & _).
  destruct (rg_id _ Hr _ _ Hj) as (p' & Hp' & <- & _). congruence.
Qed.

(** The two indexes keep exactly the locations satisfying [P]. *)
Definition keeps (r r' : Registry) (P : nat → Prop) : Prop :=
  sameConfig r r' ∧ g_heap r' = g_heap r ∧ g_single r' = g_single r ∧ g_singleTS r' = g_singleTS r ∧
  (∀ id l, g_byID r' !! id = Some l ↔ g_byID r !! id = Some l ∧ P l) ∧
  (∀ k l, g_byKey r' !! k = Some l ↔ g_byKey r !! k = Some l ∧ P l).

Lemma gcOne_ok r cutoff n id l :
  registry_ok r → g_byID r !! id = Some l →
  let '(r', n') := gcOne cutoff (r, n) (id, l) in
  registry_ok r' ∧ keeps r r' (λ x, ¬ (x = l ∧ stale (g_heap r) cutoff l = true)) ∧
  n' - n = Z.of_nat (size (g_byID r)) - Z.of_nat (size (g_byID r')).
Proof.
  intros Hr Hl. simpl. unfold stale. destruct (rg_id _ Hr _ _ Hl) as (p & Hp & Hpi & _). rewrite Hp.
  destruct (p_lastSeen p <? cutoff) eqn:Hs.
  2:{ split; [done|]. split; [|lia]. split; [done|]. split_and!; try done; intros; (split; [intros; split; [done|]; by intros [_ ?]|tauto]). }
  set (byKey' := if decide _ then _ else _).
  assert (Hid : ∀ i x, delete id (g_byID r) !! i = Some x ↔ g_byID r !! i = Some x ∧ ¬ (x = l ∧ true = true)).
  { intros i x. rewrite lookup_delete_Some. split.
    - intros [Hne Hx]. split; [done|]. intros [-> _]. apply Hne. by eapply locations_distinct.
    - intros [Hx Hn]. split; [|done]. intros ->. apply Hn. split; [congruence|done]. }
  assert (Hkey : ∀ k x, byKey' !! k = Some x ↔ g_byKey r !! k = Some x ∧ ¬ (x = l ∧ true = true)).
  { intros k x. unfold byKey'. destruct (decide (g_byKey r !! p_key p = Some l)) as [Hd|Hd].
    - rewrite lookup_delete_Some. split.
      + intros [Hne Hx]. split; [done|]. intros [-> _].
        destruct (rg_key _ Hr _ _ Hx) as (p' & ? & ? & _). congruence.
      + intros [Hx Hn]. split; [|done]. intros <-. apply Hn. split; [congruence|done].
    - split; [|tauto]. intros Hx. split; [done|]. intros [-> _].
      destruct (rg_key _ Hr _ _ Hx) as (p' & ? & ? & _). congruence. }
  split; [|split].
  - split; simpl.
    + intros i x [Hi _]%Hid. by apply Hr.
    + intros k x [Hk Hn]%Hkey. destruct (rg_key _ Hr _ _ Hk) as (p' & ? & ? & ?).
      exists p'. split_and!; [done..|]. apply Hid. done.
    + apply lookup_delete_None. right. apply Hr.
    + intros H0. pose proof (rg_cap _ Hr H0). rewrite map_size_delete_Some by done. lia.
    + apply Hr.
  - by split; [|split_and!].
  - simpl. rewrite map_size_delete_Some by done.
    assert (size (g_byID r) ≠ 0)%nat; [|lia]. apply map_size_non_empty_iff. intros He.
    by rewrite He, lookup_empty in Hl.
Qed.

Lemma gc_fold r cutoff order n :
  registry_ok r → NoDup order.*1 → (∀ e, e ∈ order → g_byID r !! e.1 = Some e.2) →
  let '(r', n') := fold_left (gcOne cutoff) order (r, n) in
  registry_ok r' ∧ keeps r r' (λ x, ¬ (x ∈ order.*2 ∧ stale (g_heap r) cutoff x = true)) ∧
  n' - n = Z.of_nat (size (g_byID r)) - Z.of_nat (size (g_byID r')).
Proof.
  revert r n. induction order as [|[id l] order IH]; intros r n Hr Hnd Hin.
  { cbn [fold_left]. split; [done|]. split; [|lia]. split; [done|].
    split_and!; try done; intros; (split; [intros; split; [done|]; intros [?%elem_of_nil _]; done|tauto]). }
  cbn [fold_left]. pose proof (gcOne_ok r cutoff n id l Hr (Hin (id, l) ltac:(left))) as H1.
  destruct (gcOne cutoff (r, n) (id, l)) as [r1 n1]. destruct H1 as (Hr1 & Hk1 & Hn1).
  cbn [fmap list_fmap fst] in Hnd. apply NoDup_cons in Hnd as [Hnin Hnd].
  destruct Hk1 as ((?&?&?) & Hh & ? & ? & Hi1 & Hke1).
  specialize (IH r1 n1 Hr1 Hnd).
  assert (∀ e, e ∈ order → g_byID r1 !! e.1 = Some e.2) as Hin1.
  { intros e He. apply Hi1. assert (g_byID r !! e.1 = Some e.2) by (apply Hin; by right).
    split; [done|]. intros [Hel _]. apply Hnin. apply list_elem_of_fmap. exists e. split; [|done].
    eapply (locations_distinct r); [done| |done]. rewrite Hel. apply (Hin (id, l)). left. }
  specialize (IH Hin1).
  destruct (fold_left _ _ _) as [r2 n2]. destruct IH as (Hr2 & ((?&?&?) & Hh2 & ? & ? & Hi2 & Hke2) & Hn2).
  rewrite Hh in *. split; [done|]. split; [|lia]. split; [by split_and!; congruence|].
  split_and!; [congruence..| |]; intros a x; [rewrite Hi2, Hi1|rewrite Hke2, Hke1];
    cbn [fmap list_fmap snd]; rewrite elem_of_cons; destruct (decide (x = l)) as [->|]; tauto.
Qed.

Lemma GC_ok r now order :
  registry_ok r → order ≡ₚ map_to_list (g_byID r) → g_multiple r = true →
  let '(r', n) := GC r now order in
  registry_ok r' ∧ keeps r r' (λ x, stale (g_heap r) (now - g_ttl r) x = false ∨ ∀ id, g_byID r !! id ≠ Some x) ∧
  n = Z.of_nat (size (g_byID r)) - Z.of_nat (size (g_byID r')).
Proof.
  intros Hr Ho Hm. unfold GC. rewrite Hm. simpl.
  assert (NoDup order.*1) as Hnd by (rewrite Ho; apply NoDup_fst_map_to_list).
  assert (∀ e, e ∈ order → g_byID r !! e.1 = Some e.2) as Hin.
  { intros [i l]. rewrite Ho. apply elem_of_map_to_list. }
  pose proof (gc_fold r (now - g_ttl r) order 0 Hr Hnd Hin) as H.
  destruct (fold_left _ _ _) as [r' n]. destruct H as (Hr' & (Hc & Hh & ? & ? & Hi & Hk) & Hn).
    split; [done|]. split; [|lia].
    assert (Hx : ∀ x, ¬ (x ∈ order.*2 ∧ stale (g_heap r) (now - g_ttl r) x = true) ↔
      stale (g_heap r) (now - g_ttl r) x = false ∨ ∀ id, g_byID r !! id ≠ Some x).
    { intros x. rewrite Ho, list_elem_of_fmap. split.
      - intros Hx. destruct (stale _ _ x); [|by left]. right. intros id Hid. apply Hx.
        split; [|done]. exists (id, x). split; [done|]. by apply elem_of_map_to_list.
      - intros [Hs|Hs] [Hex Ht]; [congruence|]. destruct Hex as ([i l] & -> & Hil).
        apply elem_of_map_to_list in Hil. by eapply Hs. }
    split; [done|]. split_and!; try done; intros a x; [rewrite Hi|rewrite Hk]; by rewrite Hx.
Qed.

(** ** Histories *)

Inductive pevent :=
| EvRegister (claimed : Owner) (key : string) (ts : Z) (sink : S) (now : Z) (draws : list Owner)
| EvGC (now : Z) (order : list (Owner * nat)).

Inductive pstep : Registry → pevent → Registry → Prop :=
| step_register r claimed k ts sink now draws r' out :
    Register r claimed k ts sink now draws = Some (r', out) →
    pstep r (EvRegister claimed k ts sink now draws) r'
| step_gc r now order r' n :
    order ≡ₚ map_to_list (g_byID r) → GC r now order = (r', n) →
    pstep r (EvGC now order) r'.

Inductive prun : Registry → list pevent → Registry → Prop :=
| prun_nil r : prun r [] r
| prun_cons r e r' es r'' : pstep r e r' → prun r' es r'' → prun r (e :: es) r''.

Lemma pstep_ok r e r' : registry_ok r → pstep r e r' → registry_ok r' ∧ sameConfig r r'.
Proof.
  intros Hr Hs. destruct Hs as [r claimed k ts sink now draws r' [id ok] HR|r now order r' n Ho HG].
  - destruct (g_multiple r) eqn:Hm.
    + pose proof (Register_multiple _ _ _ _ _ _ _ _ _ _ Hr Hm HR) as H. destruct ok.
      * by destruct H as (_ & ? & ? & _).
      * by destruct H as (-> & _).
    + unfold Register in HR. rewrite Hm in HR. simpl in HR. destruct (_ && _); simplify_eq; [done|].
      split; [|done]. destruct Hr. by split.
  - destruct (g_multiple r) eqn:Hm.
    + pose proof (GC_ok _ now _ Hr Ho Hm) as H. rewrite HG in H. by destruct H as (? & (? & _) & _).
    + unfold GC in HG. rewrite Hm in HG. by simplify_eq/=.
Qed.

Lemma prun_ok r es r' : prun r es r' → registry_ok r → registry_ok r' ∧ sameConfig r r'.
Proof.
  induction 1 as [|r e r' es r'' Hs _ IH]; intros Hr; [done|].
  destruct (pstep_ok _ _ _ Hr Hs) as [Hr' (?&?&?)]. destruct (IH Hr') as [? (?&?&?)].
  split; [done|]. split_and!; congruence.
Qed.

(** Registrations carry the timestamp every real client sends, and a collector finds
    the peer [id] not idle for longer than the ttl. *)
Definition spares (id : Owner) (r : Registry) (e : pevent) : Prop :=
  match e with
  | EvRegister _ _ ts _ _ _ => ts ≠ 0
  | EvGC now _ => ∀ p, peerAt r id = Some p → now - g_ttl r ≤ p_lastSeen p
  end.

(** Runs that spare a peer in each step. *)
Inductive sparing (id : Owner) : Registry → list pevent → Registry → Prop :=
| sparing_nil r : sparing id r [] r
| sparing_cons r e r' es r'' : pstep r e r' → spares id r e → sparing id r' es r'' → sparing id r (e :: es) r''.

(** What a collector leaves of each peer. *)
Lemma GC_peerAt r now order r' n id : registry_ok r → order ≡ₚ map_to_list (g_byID r) → g_multiple r = true → GC r now order = (r', n) →
  peerAt r' id = match peerAt r id with
                 | Some p => if p_lastSeen p <? now - g_ttl r then None else Some p
                 | None => None end.
Proof.
  intros Hr Ho Hm HG. pose proof (GC_ok _ now _ Hr Ho Hm) as H. rewrite HG in H. destruct H as (_ & (_ & Hh & _ & _ & Hi & _) & _).
  unfold stale in Hi. unfold peerAt. rewrite Hh. destruct (g_byID r !! id) as [l|] eqn:Hl; simpl.
  - destruct (rg_id _ Hr _ _ Hl) as (p & Hp & _). rewrite Hp. destruct (p_lastSeen p <? _) eqn:Hs.
    + destruct (g_byID r' !! id) as [l'|] eqn:Hl'; [|done]. apply Hi in Hl' as [Hl2 Hc].
      assert (l' = l) as -> by congruence. rewrite Hp, Hs in Hc. destruct Hc as [?|Hc]; [done|]. by destruct (Hc id).
    + assert (g_byID r' !! id = Some l) as -> by (apply Hi; split; [done|]; left; by rewrite Hp). done.
  - destruct (g_byID r' !! id) as [l'|] eqn:Hl'; [|done]. apply Hi in Hl' as [? _]. congruence.
Qed.

Lemma sparing_prun id r es r' : sparing id r es r' → prun r es r'.
Proof. induction 1; [constructor|by econstructor]. Qed.

Lemma sparing_monotone r es r' id p :
  sparing id r es r' → registry_ok r → g_multiple r = true →
  peerAt r id = Some p → ∃ p', peerAt r' id = Some p' ∧ p_lastTS p ≤ p_lastTS p'.
Proof.
  intros Hrun. revert p. induction Hrun as [|r e r1 es r2 Hs He Hrun IH]; intros p Hr Hm Hp.
  { exists p. split; [done|lia]. }
  destruct (pstep_ok _ _ _ Hr Hs) as [Hr1 (Hm1&_)].
  assert (∃ p1, peerAt r1 id = Some p1 ∧ p_lastTS p ≤ p_lastTS p1) as (p1 & Hp1 & Hle).
  { destruct Hs as [r claimed k ts sink now draws r1 [i ok] HR|r now order r1 n Ho HG].
    - pose proof (Register_multiple _ _ _ _ _ _ _ _ _ _ Hr Hm HR) as H. destruct ok.
      + destruct H as (_ & _ & _ & _ & Hat & Hlt). rewrite Hat. case_decide as Hi.
        * subst i. eexists. split; [done|]. simpl. destruct (Hlt _ Hp); [done|lia].
        * exists p. split; [done|lia].
      + destruct H as (-> & _). exists p. split; [done|lia].
    - exists p. split; [|lia]. rewrite (GC_peerAt _ _ _ _ _ id Hr Ho Hm HG), Hp. specialize (He p Hp).
      destruct (Z.ltb_spec (p_lastSeen p) (now - g_ttl r)); [lia|done]. }
  destruct (IH p1) as (p2 & Hp2 & ?); [done|congruence|done|]. exists p2. split; [done|lia].
Qed.

(** ** Properties *)

(** Minting an id ends: as soon as the random source has yielded two
    more distinct ids than there are clients, the loop has returned one, and
    what it returns is neither zero nor taken. *)
Theorem mint_terminates (byID : gmap Owner nat) draws :
  NoDup draws → (size byID + 1 < length draws)%nat →
  ∃ id, mintLocked byID draws = Some id ∧ id ∈ draws ∧ id ≠ zeroOwner ∧ byID !! id = None.
Proof.
  intros Hnd Hlen. destruct (free_draw byID draws Hnd Hlen) as (id & Hin & Hz & Hb).
  destruct (mintLocked_ends byID draws id Hin Hz Hb) as [id' Hm]. exists id'. split; [done|].
  apply mintLocked_some in Hm as (Hz' & Hb' & Hin'). by apply IsZero_false in Hz'.
Qed.

(** After any history of a multiple-mode registry, an accepted
    registration returns a non-zero id, binds that id to the caller's sink and
    timestamp, leaves every other peer's return path alone, keeps the number of
    peers within the cap, and, when the transport key is new to the peer, a repeat
    from it that does not know its id yet is given the same id. *)
Theorem register_binds ttl maxPeers es r claimed k ts sink now draws r' id :
  prun (New true ttl maxPeers) es r →
  Register r claimed k ts sink now draws = Some (r', (id, true)) →
  id ≠ zeroOwner ∧ (claimed ≠ zeroOwner → id = claimed) ∧
  SinkFor r' id = (Some sink, true) ∧ Accepts r' id = true ∧
  (∀ o, o ≠ id → SinkFor r' o = SinkFor r o ∧ peerAt r' o = peerAt r o) ∧
  (0 < maxPeers → Z.of_nat (size (g_byID r')) ≤ maxPeers) ∧
  (k ≠ ""%string → (∀ p, peerAt r id = Some p → p_key p ≠ k) → ∀ draws', chooseID r' zeroOwner k draws' = Some id).
Proof.
  intros Hrun HR. destruct (prun_ok _ _ _ Hrun (New_ok _ _ _)) as [Hr (Hm & _ & Hmax)].
  simpl in Hm, Hmax. destruct (Register_multiple _ _ _ _ _ _ _ _ _ _ Hr Hm HR)
    as (Hc & Hr' & (Hm' & _ & Hmax') & Hz & Hat & _).
  assert (peerAt r' id = Some (MkPeer id k (Some sink) now ts)) as Hid by (rewrite Hat; by case_decide).
  pose proof Hid as (l & Hl & Hp & _)%(peerAt_some r' _ _ Hr').
  split; [done|]. split.
  { intros Hcl%IsZero_false. unfold chooseID in Hc. rewrite Hcl in Hc. congruence. }
  split. { unfold SinkFor. by rewrite Hm', Hm, Hid. }
  split. { unfold Accepts. by rewrite Hm', Hm, Hl. }
  split. { intros o Ho. unfold SinkFor. rewrite Hm', Hm, Hat. by case_decide. }
  split. { intros H0. rewrite <- Hmax, <- Hmax'. apply Hr'. lia. }
  intros Hk Hnew draws'. unfold chooseID. simpl.
  assert (g_byKey r' !! k = Some l) as ->; [|by rewrite Hp].
  clear -Hm Hr HR Hl Hp Hk Hr' Hc Hnew. unfold Register in HR. rewrite Hm in HR. simpl in HR.
  rewrite Hc in HR. destruct (g_byID r !! id) as [l0|] eqn:Hi.
  - destruct (g_heap r !! l0) as [p0|] eqn:Hp0; [|done].
    destruct (_ && _); simplify_eq. simpl in *.
    assert (l = l0) as -> by congruence.
    destruct (String.eqb_spec (p_key p0) k) as [He|]; [|by rewrite lookup_insert_eq].
    destruct (Hnew p0); [|done]. unfold peerAt. by rewrite Hi.
  - destruct (_ && _); simplify_eq. simpl in *.
    destruct k as [|a k]; [done|]. simpl in *. rewrite lookup_insert_eq in Hl. rewrite lookup_insert_eq. done.
Qed.

(** Claim C8.  A captured registration cannot be replayed while its peer is registered.
    In a multiple-mode registry, once a peer's registration at a timestamp was
    accepted, then after any further run of timestamped registrations, from whatever
    addresses, and of collectors that do not find the peer idle for longer than the
    ttl, a registration with a non-zero timestamp that is the same or older is refused
    and changes nothing, from whatever address, if it claims the peer's id; and if it
    claims none, from an address that is still the peer's.  Once a collector has
    evicted the peer its old registrations are accepted again
    ([replay_after_eviction]), and one without an id, resent from another address, is
    a new peer's ([first_contact_elsewhere]). *)
Theorem replay_rejected ttl maxPeers es r claimed k ts sink now draws r1 id es' r2 claimed' k' ts' sink' now' draws' :
  prun (New true ttl maxPeers) es r →
  Register r claimed k ts sink now draws = Some (r1, (id, true)) →
  sparing id r1 es' r2 → ts' ≠ 0 → ts' ≤ ts →
  (claimed' = id ∨ claimed' = zeroOwner ∧ chooseID r2 zeroOwner k' draws' = Some id) →
  Register r2 claimed' k' ts' sink' now' draws' = Some (r2, (zeroOwner, false)).
Proof.
  intros Hrun HR Hrun' H0 Hle Hcl. destruct (prun_ok _ _ _ Hrun (New_ok _ _ _)) as [Hr (Hm & _)].
  simpl in Hm. destruct (Register_multiple _ _ _ _ _ _ _ _ _ _ Hr Hm HR)
    as (_ & Hr1 & (Hm1 & _) & Hz & Hat & _). rewrite Hm in Hm1.
  destruct (prun_ok _ _ _ (sparing_prun _ _ _ _ Hrun') Hr1) as [Hr2 (Hm2 & _)]. rewrite Hm1 in Hm2.
  assert (peerAt r1 id = Some (MkPeer id k (Some sink) now ts)) as Hid by (rewrite Hat; by case_decide).
  destruct (sparing_monotone _ _ _ _ _ Hrun' Hr1 Hm1 Hid) as (p & Hp & Hge). simpl in Hge.
  apply (peerAt_some r2 _ _ Hr2) in Hp as (l & Hl & Hp & _).
  assert (chooseID r2 claimed' k' draws' = Some id) as Hch.
  { destruct Hcl as [->|[-> ?]]; [|done]. unfold chooseID. by rewrite (proj2 (IsZero_false id) Hz). }
  unfold Register. rewrite Hm2. cbn [negb]. rewrite Hch, Hl, Hp.
  by rewrite (proj2 (Z.eqb_neq _ _) H0), (proj2 (Z.leb_le ts' (p_lastTS p))) by lia.
Qed.

(** Garbage collection, in whatever order Go ranges over the map,
    drops exactly the peers idle for longer than the ttl, returns their number,
    keeps every live peer with its return path, and keeps a live peer's
    transport-key entry even when an evicted peer had used the same key. *)
Theorem gc_evicts_exactly_idle ttl maxPeers es r now order r' n :
  prun (New true ttl maxPeers) es r → order ≡ₚ map_to_list (g_byID r) →
  GC r now order = (r', n) →
  (∀ id, peerAt r' id = match peerAt r id with
                        | Some p => if p_lastSeen p <? now - ttl then None else Some p
                        | None => None end) ∧
  n = Z.of_nat (size (g_byID r)) - Z.of_nat (size (g_byID r')) ∧
  (∀ k p l, g_byKey r !! k = Some l → g_heap r !! l = Some p → now - ttl ≤ p_lastSeen p →
     g_byKey r' !! k = Some l ∧ ∀ draws, chooseID r' zeroOwner k draws = Some (p_id p)).
Proof.
  intros Hrun Ho HG. destruct (prun_ok _ _ _ Hrun (New_ok _ _ _)) as [Hr (Hm & Htt & _)].
  simpl in Hm, Htt. pose proof (GC_ok _ now _ Hr Ho Hm) as H. rewrite HG, Htt in H.
  destruct H as (Hr' & (_ & Hh & _ & _ & Hi & Hk) & Hn). unfold stale in Hk. split; [|split; [done|]].
  - intros id. rewrite <- Htt. by apply (GC_peerAt _ _ order _ n).
  - intros k p l Hkl Hp Hls. assert (g_byKey r' !! k = Some l) as Hk'.
    { apply Hk. split; [done|]. left. rewrite Hp. by apply Z.ltb_ge. }
    split; [done|]. intros draws. unfold chooseID. simpl. by rewrite Hk', Hh, Hp.
Qed.
End registry.
Arguments Registry : clear implicits.
Arguments peer : clear implicits.
Arguments pevent : clear implicits.

(** ** Concrete runs *)

Definition ownA : Owner := MkOwner 1 0 0 0.
Definition ownB : Owner := MkOwner 2 0 0 0.

(** Two peers, with sinks named by numbers. *)
Definition demoEvents : list (pevent nat) :=
  [EvRegister ownA "K" 10 7%nat 100 []; EvRegister ownB "L" 11 8%nat 200 []].

Definition demo1 : Registry nat :=
  default (New true 50 4) (fst <$> Register (New true 50 4) ownA "K" 10 7%nat 100 []).
Definition demo2 : Registry nat :=
  default (New true 50 4) (fst <$> Register demo1 ownB "L" 11 8%nat 200 []).

Lemma demo_run1 : prun (New true 50 4) [EvRegister ownA "K" 10 7%nat 100 []] demo1.
Proof. eapply prun_cons; [by eapply step_register; vm_compute|apply prun_nil]. Qed.

Lemma demo_run2 : prun (New true 50 4) demoEvents demo2.
Proof.
  eapply (prun_cons _ _ demo1); [by eapply step_register; vm_compute|].
  eapply prun_cons; [by eapply step_register; vm_compute|apply prun_nil].
Qed.

(** One client taken and four draws: zero, the taken id, a free one. *)
Lemma mint_terminates_witness :
  let byID : gmap Owner nat := {[MkOwner 1 1 1 1 := 0%nat]} in
  let draws := [zeroOwner; MkOwner 1 1 1 1; MkOwner 9 9 9 9] in
  mintLocked byID draws = Some (MkOwner 9 9 9 9) ∧ ∃ id, mintLocked byID draws = Some id ∧ id ∈ draws ∧ id ≠ zeroOwner ∧ byID !! id = None.
Proof.
  intros byID draws. split; [by vm_compute|]. apply mint_terminates.
  - apply (bool_decide_unpack _). vm_compute. exact I.
  - apply Nat.ltb_lt. vm_compute. reflexivity.
Defined.

Lemma register_binds_witness :
  ∃ r', Register demo1 ownB "L" 11 8%nat 200 [] = Some (r', (ownB, true)) ∧
        SinkFor r' ownB = (Some 8%nat, true) ∧ SinkFor r' ownA = SinkFor demo1 ownA.
Proof.
  eexists. split; [by vm_compute|].
  edestruct (register_binds 50 4 _ demo1 ownB "L" 11 8%nat 200 [] demo2 ownB demo_run1)
    as (_ & _ & Hs & _ & Ho & _); [by vm_compute|].
  split; [exact Hs|]. by apply (Ho ownA).
Defined.

(** A collector at 140 finds no peer idle; one at 200 finds A idle. *)
Definition demo3 : Registry nat := (GC demo2 140 (map_to_list (g_byID demo2))).1.
Definition demoEvicted : Registry nat := (GC demo2 200 (map_to_list (g_byID demo2))).1.

Lemma demo_sparing : sparing ownA demo1 [EvRegister ownB "L" 11 8%nat 200 []; EvGC 140 (map_to_list (g_byID demo2))] demo3.
Proof.
  eapply (sparing_cons _ _ _ demo2); [by eapply step_register; vm_compute|done|].
  eapply sparing_cons; [by eapply (step_gc _ _ _ _ 0)|vm_compute; by intros p [= <-]|apply sparing_nil].
Qed.

Lemma replay_rejected_witness :
  Register demo3 ownA "attacker" 10 9%nat 300 [] = Some (demo3, (zeroOwner, false)) ∧
  Register demo3 zeroOwner "K" 10 9%nat 300 [] = Some (demo3, (zeroOwner, false)).
Proof.
  split; eapply (replay_rejected 50 4 [] (New true 50 4) ownA "K" 10 7%nat 100 [] demo1 ownA _ demo3 _ _ 10 9%nat 300 []);
    [apply prun_nil|by vm_compute|exact demo_sparing|done|lia|by left
    |apply prun_nil|by vm_compute|exact demo_sparing|done|lia|right; split; [done|by vm_compute]].
Defined.

(** Where the protection ends. *)
Example replay_after_eviction : ∃ r, Register demoEvicted ownA "attacker" 10 9%nat 300 [] = Some (r, (ownA, true)).
Proof. eexists. vm_compute. reflexivity. Qed.

Example first_contact_elsewhere : ∃ r1 r2, Register (New true 50 4) zeroOwner "K" 10 7%nat 100 [ownA] = Some (r1, (ownA, true)) ∧
  Register r1 zeroOwner "attacker" 10 9%nat 101 [ownB] = Some (r2, (ownB, true)).
Proof. eexists _, _. split; vm_compute; reflexivity. Qed.

Lemma gc_evicts_exactly_idle_witness :
  let '(r', n) := GC demo2 200 (map_to_list (g_byID demo2)) in
  peerAt r' ownA = None ∧ peerAt r' ownB = peerAt demo2 ownB.
Proof.
  destruct (GC demo2 200 (map_to_list (g_byID demo2))) as [r' n] eqn:HG.
  destruct (gc_evicts_exactly_idle 50 4 _ demo2 200 _ r' n demo_run2 (Permutation_refl _) HG) as (Hat & _).
  split; rewrite Hat; by vm_compute.
Defined.

(** [Register]'s unconditional [delete(r.byKey, p.key)] removes the entry of
    another live peer: A registers from K, B takes K over, A moves to K2, and a
    retransmitted first registration from K no longer finds B but mints a new
    id. *)
Lemma register_forgets_live_key :
  let run := foldr (λ e (m : option (Registry nat)), r ← m;
               match e with (cl, k, ts) => fst <$> Register r cl k ts 0%nat 0 [] end) (Some (New true 50 4))
               [(ownA, "K2", 3); (ownB, "K", 2); (ownA, "K", 1)] in
  ∃ r, run = Some r ∧ p_key <$> peerAt r ownB = Some "K"%string ∧
       chooseID r zeroOwner "K" [MkOwner 9 9 9 9] = Some (MkOwner 9 9 9 9).
Proof. eexists. split; [by vm_compute|]. split; by vm_compute. Qed.
