(* ===== verification/Router.v ===== *)
(** * internal/router: the compiled routing table

    A world [W] holds the state of the node's connections and egresses;
    [Accepts] and the guards read it, [Send] and the finalizers change it.
    [Compile] resolves the table once, [dispatch] walks a resolved target list
    per packet.  [evalTable] is the reference semantics: it interprets the rule
    table by name, row by row, with nothing precompiled. *)

From S2P Require Import Prelude GoBytes Wire.
Local Open Scope Z_scope.

Section router.
Context {W : Type}.

(** [conn.Sender], as the router uses it; [Send]'s error is discarded. *)
Record Sender := MkSender {
  snd_Accepts : W → Owner → bool;
  snd_Send : W → Envelope → list Z → W * bool;
}.

(** A connection; [c_sender] is the result of the [c.(conn.Sender)] assertion. *)
Record Conn := MkConn { c_Name : string; c_sender : option Sender }.

(** [Guard.Pass]: owner, destination, and whether it could be parsed. *)
Definition Guard : Type := W → Owner → Addr → bool → bool.

Definition FinalizeFunc : Type := W → Owner → Sender → list Z → W.

Record Rule := MkRule {
  MatchProcessed : option bool;
  Source : string;
  Conditions : list string;
  Egress : string;
  Target : string;
}.

Record target := MkTarget {
  t_egress : string;
  t_finalize : option FinalizeFunc;
  t_conn : Conn;
  t_sender : option Sender;
  t_guards : list Guard;
  t_label : string;
}.

(** The calls made on a [Recorder]. *)
Inductive recEvent :=
| Routed (label : string)
| Sent (target : string) (n : Z)
| Dropped (src : string).

Inductive compileErr :=
| ErrAlreadyProcessed (i : nat)
| ErrUnknownEgress (i : nat) (name : string)
| ErrUnknownTarget (i : nat) (name : string)
| ErrUnknownSource (i : nat) (name : string)
| ErrUnknownCondition (i : nat) (name : string).

Record Router := MkRouter {
  r_compiled : gmap (bool * string) (list target);
  r_labels : list string;
  r_rec : bool;          (** a recorder is attached *)
  r_Warnings : list nat; (** the dead rules warned about *)
}.

Definition SetRecorder (r : Router) (rec : bool) : Router :=
  MkRouter (r_compiled r) (r_labels r) rec (r_Warnings r).

Definition labelFor (ru : Rule) : string :=
  let src := if String.eqb (Source ru) "" then "*"%string else Source ru in
  let m := match MatchProcessed ru with
           | None => "any" | Some true => "proc" | Some false => "unproc" end%string in
  let label := (m +:+ "/" +:+ src)%string in
  let label := match Conditions ru with
               | [] => label
               | cs => (label +:+ "[" +:+ String.concat "," cs +:+ "]")%string end in
  if negb (String.eqb (Egress ru) "") then (label +:+ "→egress:" +:+ Egress ru +:+ "→" +:+ Target ru)%string
  else (label +:+ "→" +:+ Target ru)%string.

Section compile.
Context (conns : gmap string Conn) (conditions : gmap string Guard)
        (finalizers : gmap string FinalizeFunc).

(** The condition loop of one rule. *)
Fixpoint resolveGuards (i : nat) (names : list string) : res compileErr (list Guard) :=
  match names with
  | [] => Ok []
  | name :: names' =>
      match conditions !! name with
      | None => Err (ErrUnknownCondition i name)
      | Some g => match resolveGuards i names' with
                  | Ok gs => Ok (g :: gs)
                  | Err e => Err e end
      end
  end.

(** One iteration of [Compile]'s first loop. *)
Definition resolveRule (i : nat) (ru : Rule) : res compileErr target :=
  match
    (if negb (String.eqb (Egress ru) "") then
       if negb (bool_decide (MatchProcessed ru = Some false)) then Some (ErrAlreadyProcessed i)
       else match finalizers !! Egress ru with
            | None => Some (ErrUnknownEgress i (Egress ru))
            | Some _ => None end
     else None)
  with
  | Some e => Err e
  | None =>
      match conns !! Target ru with
      | None => Err (ErrUnknownTarget i (Target ru))
      | Some c =>
          if negb (String.eqb (Source ru) "") && negb (bool_decide (is_Some (conns !! Source ru)))
          then Err (ErrUnknownSource i (Source ru))
          else match resolveGuards i (Conditions ru) with
               | Err e => Err e
               | Ok guards => Ok (MkTarget (Egress ru) (finalizers !! Egress ru) c (c_sender c) guards (labelFor ru))
               end
      end
  end.

Fixpoint resolveRules (i : nat) (rules : list Rule) : res compileErr (list target) :=
  match rules with
  | [] => Ok []
  | ru :: rules' =>
      match resolveRule i ru with
      | Err e => Err e
      | Ok t => match resolveRules (S i) rules' with
                | Ok ts => Ok (t :: ts)
                | Err e => Err e end
      end
  end.

Definition dedupLabel (acc : list string) (t : target) : list string :=
  if decide (t_label t ∈ acc) then acc else acc ++ [t_label t].

Definition matches (ru : Rule) (processed : bool) : bool :=
  match MatchProcessed ru with None => true | Some b => Bool.eqb b processed end.

Definition rowFor (ru : Rule) (processed : bool) (src : string) : bool :=
  matches ru processed && (String.eqb (Source ru) "" || String.eqb (Source ru) src).

(** The list built for one [key{processed, src}]. *)
Fixpoint listFor (processed : bool) (src : string) (rules : list Rule) (resolved : list target) : list target :=
  match rules, resolved with
  | ru :: rules', t :: resolved' =>
      if rowFor ru processed src then t :: listFor processed src rules' resolved'
      else listFor processed src rules' resolved'
  | _, _ => []
  end.

Definition compileSource (rules : list Rule) (resolved : list target) (processed : bool)
    (m : gmap (bool * string) (list target)) (src : string) : gmap (bool * string) (list target) :=
  <[(processed, src) := listFor processed src rules resolved]> m.

Definition deadRules (resolved : list target) : list nat :=
  imap (λ i t, (i, t)) resolved ≫= λ '(i, t), match t_sender t with None => [i] | Some _ => [] end.

Definition Compile (rules : list Rule) (sources : list string) : res compileErr Router :=
  match resolveRules 0 rules with
  | Err e => Err e
  | Ok resolved =>
      let labels := fold_left dedupLabel resolved [] in
      let compiled := fold_left (λ m processed,
        fold_left (compileSource rules resolved processed) sources m) [false; true] ∅ in
      Ok (MkRouter compiled labels false (deadRules resolved))
  end.
End compile.

(** ** Dispatch *)

Fixpoint allPass (w : W) (guards : list Guard) (owner : Owner) (dst : Addr) (dstOK : bool) : bool :=
  match guards with
  | [] => true
  | g :: guards' => if negb (g w owner dst dstOK) then false else allPass w guards' owner dst dstOK
  end.

(** [wire.DstIP] as the pair Go returns. *)
Definition parseDst (payload : list Z) : Addr * bool :=
  match DstIP payload with Some a => (a, true) | None => (AddrInvalid, false) end.

(** [dispatch]; [dst] is the lazily parsed destination, [None] until a
    guarded target is reached. *)
Fixpoint dispatchFrom (rec : bool) (src : string) (w : W) (dst : option (Addr * bool))
    (ts : list target) (e : Envelope) (payload : list Z) : W * list recEvent :=
  match ts with
  | [] => (w, if rec then [Dropped src] else [])
  | t :: ts' =>
      match t_sender t with
      | None => dispatchFrom rec src w dst ts' e payload
      | Some s =>
          if negb (snd_Accepts s w (Env_Owner e)) then dispatchFrom rec src w dst ts' e payload
          else
            let '(dst, pass) :=
              match t_guards t with
              | [] => (dst, true)
              | guards =>
                  let d := match dst with Some d => d | None => parseDst payload end in
                  (Some d, allPass w guards (Env_Owner e) d.1 d.2)
              end in
            if negb pass then dispatchFrom rec src w dst ts' e payload
            else match t_finalize t with
            | Some fin => (fin w (Env_Owner e) s payload, if rec then [Routed (t_label t)] else [])
            | None =>
                let '(w', delivered) := snd_Send s w e payload in
                if delivered then
                  (w', if rec then [Routed (t_label t); Sent (c_Name (t_conn t)) (zlen payload)] else [])
                else dispatchFrom rec src w' dst ts' e payload
            end
      end
  end.

Definition dispatch (r : Router) (w : W) (src : string) (ts : list target) (e : Envelope) (payload : list Z) :=
  dispatchFrom (r_rec r) src w None ts e payload.

Definition compiledFor (r : Router) (processed : bool) (src : string) : list target :=
  default [] (r_compiled r !! (processed, src)).

Definition Route (r : Router) (w : W) (src : string) (e : Envelope) (payload : list Z) : W * list recEvent :=
  dispatch r w src (compiledFor r (Env_Processed e) src) e payload.

(** [SourceRouter]: [None] for a nil function. *)
Definition SourceRouter (r : Router) (src : string) : option (W → Envelope → list Z → W * list recEvent) :=
  let unproc := compiledFor r false src in
  let proc := compiledFor r true src in
  match unproc, proc with
  | [], [] => None
  | _, _ => Some (λ w e payload,
      dispatch r w src (if Env_Processed e then proc else unproc) e payload)
  end.

(** ** Reference semantics *)

Section table.
Context (conns : gmap string Conn) (conditions : gmap string Guard)
        (finalizers : gmap string FinalizeFunc).

Definition conditionHolds (w : W) (owner : Owner) (payload : list Z) (name : string) : bool :=
  match conditions !! name with
  | Some g => g w owner (parseDst payload).1 (parseDst payload).2
  | None => false
  end.

(** The sender of the row's target, when the row applies to the packet. *)
Definition rowTakes (w : W) (src : string) (e : Envelope) (payload : list Z) (ru : Rule) : option (Conn * Sender) :=
  if negb (rowFor ru (Env_Processed e) src) then None
  else match conns !! Target ru with
  | Some c =>
      match c_sender c with
      | Some s =>
          if snd_Accepts s w (Env_Owner e) && forallb (conditionHolds w (Env_Owner e) payload) (Conditions ru)
          then Some (c, s) else None
      | None => None
      end
  | None => None
  end.

Fixpoint evalTable (rec : bool) (src : string) (w : W) (rules : list Rule) (e : Envelope) (payload : list Z)
    : W * list recEvent :=
  match rules with
  | [] => (w, if rec then [Dropped src] else [])
  | ru :: rules' =>
      match rowTakes w src e payload ru with
      | None => evalTable rec src w rules' e payload
      | Some (c, s) =>
          match (if String.eqb (Egress ru) "" then None else finalizers !! Egress ru) with
          | Some fin => (fin w (Env_Owner e) s payload, if rec then [Routed (labelFor ru)] else [])
          | None =>
              let '(w', delivered) := snd_Send s w e payload in
              if delivered then (w', if rec then [Routed (labelFor ru); Sent (c_Name c) (zlen payload)] else [])
              else evalTable rec src w' rules' e payload
          end
      end
  end.

(** A row [Compile] accepts. *)
Definition rowValid (ru : Rule) : Prop :=
  (Egress ru ≠ ""%string → MatchProcessed ru = Some false ∧ is_Some (finalizers !! Egress ru)) ∧
  is_Some (conns !! Target ru) ∧
  (Source ru ≠ ""%string → is_Some (conns !! Source ru)) ∧
  Forall (λ n, is_Some (conditions !! n)) (Conditions ru).

(** What a resolved target says about its row. *)
Definition resolves (ru : Rule) (t : target) : Prop :=
  rowValid ru ∧ t_egress t = Egress ru ∧ t_finalize t = finalizers !! Egress ru ∧
  conns !! Target ru = Some (t_conn t) ∧ t_sender t = c_sender (t_conn t) ∧
  Forall2 (λ n g, conditions !! n = Some g) (Conditions ru) (t_guards t) ∧
  t_label t = labelFor ru.

(** ** Lemmas *)

Lemma resolveGuards_spec i names :
  match resolveGuards conditions i names with
  | Ok gs => Forall2 (λ n g, conditions !! n = Some g) names gs
  | Err err => ∃ n, n ∈ names ∧ conditions !! n = None ∧ err = ErrUnknownCondition i n
  end.
Proof.
  induction names as [|n names IH]; simpl; [done|].
  destruct (conditions !! n) as [g|] eqn:Hn.
  - destruct (resolveGuards conditions i names) as [gs|err]; [by constructor|].
    destruct IH as (m & ? & ? & ?). exists m. split_and!; [by right|done..].
  - exists n. split_and!; [by left|done..].
Qed.

Lemma Forall2_conditions names gs :
  Forall2 (λ n g, conditions !! n = Some g) names gs → Forall (λ n, is_Some (conditions !! n)) names.
Proof. induction 1; constructor; eauto. Qed.

(** The end of the loop body, once egress, target and source are resolved. *)
Lemma resolveTail_spec i ru c :
  conns !! Target ru = Some c →
  (Egress ru ≠ ""%string → MatchProcessed ru = Some false ∧ is_Some (finalizers !! Egress ru)) →
  (Source ru ≠ ""%string → is_Some (conns !! Source ru)) →
  match
    match resolveGuards conditions i (Conditions ru) with
    | Err e => Err e
    | Ok guards => Ok (MkTarget (Egress ru) (finalizers !! Egress ru) c (c_sender c) guards (labelFor ru))
    end : res compileErr target
  with Ok t => resolves ru t | Err _ => ¬ rowValid ru end.
Proof.
  intros Hc He Hs. pose proof (resolveGuards_spec i (Conditions ru)) as Hg.
  destruct (resolveGuards _ _ _) as [gs|err].
  - split; [|done]. split_and!; [done|by eexists|done|by eapply Forall2_conditions].
  - destruct Hg as (n & Hn & Hnn & _). intros (_ & _ & _ & HF).
    rewrite Forall_forall in HF. destruct (HF _ Hn). congruence.
Qed.

Lemma resolveRule_spec i ru :
  match resolveRule conns conditions finalizers i ru with
  | Ok t => resolves ru t
  | Err _ => ¬ rowValid ru
  end.
Proof.
  unfold resolveRule.
  destruct (String.eqb_spec (Egress ru) "") as [He|He]; simpl.
  - destruct (conns !! Target ru) as [c|] eqn:Hc.
    2:{ intros (_ & [? ?] & _). congruence. }
    destruct (String.eqb_spec (Source ru) "") as [Hs|Hs]; simpl.
    { apply resolveTail_spec; [done|by intros|done]. }
    destruct (bool_decide _) eqn:Hsc; unbool; simpl; [|intros (_ & _ & H & _); by apply Hsc, H].
    apply resolveTail_spec; [done|by intros|done].
  - destruct (bool_decide (MatchProcessed ru = Some false)) eqn:Hm; unbool; simpl.
    2:{ intros (H & _). by destruct (H He). }
    destruct (finalizers !! Egress ru) as [f|] eqn:Hf.
    2:{ intros (H & _). destruct (H He) as [_ [? ?]]. congruence. }
    assert (Egress ru ≠ ""%string → MatchProcessed ru = Some false ∧ is_Some (finalizers !! Egress ru))
      as Hfin by (intros _; split; [done|by eexists]).
    destruct (conns !! Target ru) as [c|] eqn:Hc.
    2:{ intros (_ & [? ?] & _). congruence. }
    rewrite <- Hf. destruct (String.eqb_spec (Source ru) "") as [Hs|Hs]; simpl.
    { by apply resolveTail_spec. }
    destruct (bool_decide _) eqn:Hsc; unbool; simpl; [|intros (_ & _ & H & _); by apply Hsc, H].
    by apply resolveTail_spec.
Qed.

Lemma resolveRules_spec i rules :
  match resolveRules conns conditions finalizers i rules with
  | Ok ts => Forall2 resolves rules ts
  | Err _ => ¬ Forall rowValid rules
  end.
Proof.
  revert i. induction rules as [|ru rules IH]; intros i; simpl; [done|].
  pose proof (resolveRule_spec i ru) as Hr. destruct (resolveRule _ _ _ _ _) as [t|].
  - specialize (IH (S i)). destruct (resolveRules _ _ _ _ _); [by constructor|].
    by intros [_ ?]%Forall_cons_1.
  - by intros [? _]%Forall_cons_1.
Qed.

Lemma compileSource_lookup rules resolved processed sources m q src :
  fold_left (compileSource rules resolved processed) sources m !! (q, src) =
    if decide (q = processed ∧ src ∈ sources) then Some (listFor processed src rules resolved)
    else m !! (q, src).
Proof.
  revert m. induction sources as [|s sources IH]; intros m; simpl.
  { case_decide as H; [|done]. by destruct H as [_ ?%elem_of_nil]. }
  rewrite IH. unfold compileSource at 1.
  destruct (decide (q = processed ∧ src ∈ sources)) as [H|H].
  - rewrite decide_True; [done|]. destruct H. split; [done|by right].
  - destruct (decide (q = processed ∧ src = s)) as [[-> ->]|H'].
    + rewrite lookup_insert_eq, decide_True; [done|]. split; [done|by left].
    + rewrite lookup_insert_ne by (intros [= -> ->]; by apply H'). rewrite decide_False; [done|].
      intros [-> [->|?]%elem_of_cons]; [by apply H'|by apply H].
Qed.

Lemma Compile_spec rules sources :
  match Compile conns conditions finalizers rules sources with
  | Ok r => ∃ ts, Forall2 (resolves) rules ts ∧
      ∀ q src, r_compiled r !! (q, src) = if decide (src ∈ sources) then Some (listFor q src rules ts) else None
  | Err _ => ¬ Forall rowValid rules
  end.
Proof.
  unfold Compile. pose proof (resolveRules_spec 0 rules) as H.
  destruct (resolveRules _ _ _ _ _) as [ts|]; [|done]. exists ts. split; [done|].
  intros q src. cbn [fold_left r_compiled]. rewrite !compileSource_lookup.
  destruct (decide (src ∈ sources)) as [Hs|Hs].
  - destruct q; [by rewrite decide_True|]. rewrite decide_False, decide_True; [done|done|]. by intros [? _].
  - rewrite !decide_False; [|tauto..]. apply lookup_empty.
Qed.

(** Destination parsing does not depend on when it happens. *)
Lemma dispatchFrom_eager rec src w dst ts e payload :
  dst = None ∨ dst = Some (parseDst payload) →
  dispatchFrom rec src w dst ts e payload = dispatchFrom rec src w (Some (parseDst payload)) ts e payload.
Proof.
  revert w dst. induction ts as [|t ts IH]; intros w dst Hd; [done|]. cbn [dispatchFrom].
  assert ((match dst with Some d => d | None => parseDst payload end) = parseDst payload) as Hdd.
  { by destruct Hd as [-> | ->]. }
  destruct (t_sender t) as [s|]; [|by apply IH].
  destruct (negb _); [by apply IH|].
  destruct (t_guards t) as [|g gs].
  - cbn [negb]. destruct (t_finalize t); [done|]. destruct (snd_Send s w e payload) as [w' []]; [done|by apply IH].
  - rewrite Hdd. destruct (negb _); [done|]. destruct (t_finalize t); [done|].
    destruct (snd_Send s w e payload) as [w' []]; done.
Qed.

Lemma allPass_forallb w names gs owner payload :
  Forall2 (λ n g, conditions !! n = Some g) names gs →
  allPass w gs owner (parseDst payload).1 (parseDst payload).2 =
  forallb (conditionHolds w owner payload) names.
Proof.
  induction 1 as [|n g names gs Hn _ IH]; [done|]. cbn [allPass forallb].
  assert (conditionHolds w owner payload n = g w owner (parseDst payload).1 (parseDst payload).2) as ->.
  { exact (f_equal (λ o : option Guard, match o with
      | Some g' => g' w owner (parseDst payload).1 (parseDst payload).2 | None => false end) Hn). }
  rewrite <- IH.
  by destruct (g w owner _ _).
Qed.

Lemma dispatch_table rec src rules ts e payload w :
  finalizers !! ""%string = None → Forall2 resolves rules ts →
  dispatchFrom rec src w (Some (parseDst payload)) (listFor (Env_Processed e) src rules ts) e payload =
  evalTable rec src w rules e payload.
Proof.
  intros Hf Hts. revert w. induction Hts as [|ru t rules ts Ht _ IH]; intros w; [done|].
  destruct Ht as (_ & _ & Hfin & Hc & Hs & Hg & Hl). cbn [listFor evalTable]. unfold rowTakes at 1.
  destruct (rowFor ru _ _); [|apply IH]. cbn [negb]. rewrite Hc. cbn [dispatchFrom]. rewrite Hs.
  destruct (c_sender (t_conn t)) as [s|]; [|apply IH].
  destruct (snd_Accepts s w (Env_Owner e)); [|apply IH]. cbn [negb andb].
  rewrite <- (allPass_forallb w (Conditions ru) (t_guards t)) by done.
  assert ((let '(_, pass) := match t_guards t with
    | [] => (Some (parseDst payload), true)
    | g :: gs => (Some (parseDst payload), allPass w (g :: gs) (Env_Owner e) (parseDst payload).1 (parseDst payload).2)
    end in pass) = allPass w (t_guards t) (Env_Owner e) (parseDst payload).1 (parseDst payload).2) as Hp.
  { by destruct (t_guards t). }
  rewrite <- Hp, Hfin, Hl. destruct (t_guards t) as [|g gs]; cbn [negb].
  - destruct (String.eqb_spec (Egress ru) "") as [->|]; [rewrite Hf|destruct (finalizers !! Egress ru); [done|]];
      destruct (snd_Send s w e payload) as [w' []]; [done|apply IH|done|apply IH].
  - destruct (allPass _ _ _ _ _); cbn [negb]; [|apply IH].
    destruct (String.eqb_spec (Egress ru) "") as [->|]; [rewrite Hf|destruct (finalizers !! Egress ru); [done|]];
      destruct (snd_Send s w e payload) as [w' []]; [done|apply IH|done|apply IH].
Qed.

Lemma listFor_in q src rules ts t :
  Forall2 resolves rules ts → t ∈ listFor q src rules ts → ∃ ru, ru ∈ rules ∧ rowFor ru q src = true ∧ resolves ru t.
Proof.
  induction 1 as [|ru t' rules ts Ht _ IH]; simpl; [by intros ?%elem_of_nil|].
  destruct (rowFor ru q src) eqn:Hrow.
  - intros [->|Hin]%elem_of_cons; [exists ru; by split_and!; [left|..]|].
    destruct (IH Hin) as (ru' & ? & ?). exists ru'. split; [by right|done].
  - intros Hin. destruct (IH Hin) as (ru' & ? & ?). exists ru'. split; [by right|done].
Qed.
End table.

(** ** Properties *)

(** Claim C2.  Routing a packet through the compiled per-source lists, with
    the destination parsed lazily, does what the rule table says when it is
    interpreted row by row: the first row that matches the processed bit and
    the source, whose target accepts the owner and all of whose conditions
    hold, finalizes or sends the packet; a row whose send finds no peer falls
    through; and a packet from a connection the router was not compiled for
    is dropped. *)
Theorem route_is_table conns conditions finalizers rules sources r rec w src e payload :
  Compile conns conditions finalizers rules sources = Ok r →
  finalizers !! ""%string = None →
  Route (SetRecorder r rec) w src e payload =
    if decide (src ∈ sources) then evalTable conns conditions finalizers rec src w rules e payload
    else (w, if rec then [Dropped src] else []).
Proof.
  intros HC Hf. pose proof (Compile_spec conns conditions finalizers rules sources) as H.
  rewrite HC in H. destruct H as (ts & Hts & Hl).
  unfold Route, dispatch, compiledFor. cbn [r_rec r_compiled SetRecorder]. rewrite Hl. case_decide; [|done].
  cbn [default]. rewrite dispatchFrom_eager by (by left). by apply dispatch_table.
Qed.

(** A packet already processed is never handed to an egress: no
    target list for processed packets contains a finalizing target. *)
Theorem processed_never_finalized conns conditions finalizers rules sources r src t :
  Compile conns conditions finalizers rules sources = Ok r →
  finalizers !! ""%string = None →
  t ∈ compiledFor r true src → t_finalize t = None.
Proof.
  intros HC Hf Ht. pose proof (Compile_spec conns conditions finalizers rules sources) as H.
  rewrite HC in H. destruct H as (ts & Hts & Hl). unfold compiledFor in Ht. rewrite Hl in Ht.
  destruct (decide _); [|by apply elem_of_nil in Ht]. cbn [default] in Ht.
  destruct (listFor_in _ _ _ _ _ _ _ _ Hts Ht) as (ru & _ & Hrow & (Hv & _) & He & Hfin & _).
  rewrite Hfin. destruct (String.eqb_spec (Egress ru) "") as [->|Hne]; [done|].
  destruct (Hv Hne) as [Hm _]. unfold rowFor, matches in Hrow. by rewrite Hm in Hrow.
Qed.

(** A receive loop bound once to its source routes every packet
    exactly as [Route] does, and no loop is bound only when every packet of
    that source would be dropped. *)
Theorem source_router_agrees (r : Router) w src e payload :
  match SourceRouter r src with
  | Some route => route w e payload = Route r w src e payload
  | None => Route r w src e payload = (w, if r_rec r then [Dropped src] else [])
  end.
Proof.
  unfold SourceRouter, Route. destruct e as [o q]. cbn [Env_Processed].
  destruct (compiledFor r false src) eqn:Hu, (compiledFor r true src) eqn:Hp, q;
    rewrite ?Hu, ?Hp; done.
Qed.

(** Claim C38.  [Compile] succeeds exactly on the tables all of whose rows are
    valid: targets, sources and conditions that exist, and finalizing rows
    that name an existing egress and match unprocessed packets only. *)
Theorem compile_accepts_iff conns conditions finalizers rules sources :
  is_ok (Compile conns conditions finalizers rules sources) = true ↔
  Forall (rowValid conns conditions finalizers) rules.
Proof.
  pose proof (Compile_spec conns conditions finalizers rules sources) as H.
  destruct (Compile _ _ _ _ _) as [r|]; simpl.
  - split; [|done]. intros _. destruct H as (ts & Hts & _).
    induction Hts as [|ru t ? ? [Hv _] _ IH]; by constructor.
  - split; [done|]. by intros.
Qed.
End router.
Arguments Sender : clear implicits.
Arguments Conn : clear implicits.
Arguments Guard : clear implicits.
Arguments FinalizeFunc : clear implicits.
Arguments target : clear implicits.
Arguments Router : clear implicits.
Arguments Rule : clear implicits.

(** ** A concrete node *)

Module RouterDemo.
(** The world counts deliveries; [down] accepts owner 1 only. *)
Definition up : Sender nat := MkSender (λ _ _, true) (λ w _ _, (w + 1, true))%nat.
Definition down : Sender nat := MkSender (λ _ o, ow0 o =? 1) (λ w _ _, (w + 10, true))%nat.
Definition conns : gmap string (Conn nat) :=
  {["up" := MkConn "up" (Some up); "down" := MkConn "down" (Some down); "rx" := MkConn "rx" None]}.
Definition conditions : gmap string (Guard nat) :=
  {["local" := λ _ _ dst ok, ok && bool_decide (dst = Addr4 167772161)]}.
Definition finalizers : gmap string (FinalizeFunc nat) := {["wan" := λ w _ _ _, (w + 100)%nat]}.
Definition rules : list Rule :=
  [MkRule (Some false) "rx" ["local"] "wan" "down"; MkRule None "" [] "" "down"; MkRule None "rx" [] "" "up"].
Definition r : Router nat :=
  match Compile conns conditions finalizers rules ["rx"] with
  | Ok r => r | Err _ => MkRouter ∅ [] false [] end.
Definition pkt : list Z := [0x45; 0; 0; 20; 0; 0; 0; 0; 64; 6; 0; 0; 1; 1; 1; 1; 10; 0; 0; 1].
End RouterDemo.

Lemma route_is_table_witness :
  Route (SetRecorder RouterDemo.r true) 0%nat "rx" (MkEnvelope (MkOwner 1 0 0 0) false) RouterDemo.pkt =
    (100%nat, [Routed "unproc/rx[local]→egress:wan→down"]) ∧
  Route (SetRecorder RouterDemo.r true) 0%nat "rx" (MkEnvelope (MkOwner 2 0 0 0) false) RouterDemo.pkt =
    (1%nat, [Routed "any/rx→up"; Sent "up" 20]).
Proof.
  split.
  - rewrite (route_is_table RouterDemo.conns RouterDemo.conditions RouterDemo.finalizers RouterDemo.rules ["rx"]);
      by vm_compute.
  - rewrite (route_is_table RouterDemo.conns RouterDemo.conditions RouterDemo.finalizers RouterDemo.rules ["rx"]);
      by vm_compute.
Defined.

Lemma processed_never_finalized_witness : Forall (λ t, t_finalize t = None) (compiledFor RouterDemo.r true "rx").
Proof.
  apply Forall_forall. intros t Ht.
  apply (processed_never_finalized RouterDemo.conns RouterDemo.conditions RouterDemo.finalizers
           RouterDemo.rules ["rx"] RouterDemo.r "rx" t); [by vm_compute|by vm_compute|exact Ht].
Defined.
