(* ===== verification/Finalizer.v ===== *)
(** * internal/finalizer: submit to the internet, route replies back

    The egress is the sink of a batching writer; reply targets are values of a
    type [Tgt] with decidable identity (Go compares the interfaces) whose sends
    act on a world [W].  [Submit] and the reply handling of [Run] are the code's
    sequence of critical sections; [GC] visits the flows in any order. *)

From S2P Require Import Prelude GoBytes Wire PktWriter.
Local Open Scope Z_scope.

Definition injectArena : nat := 128 * 1024.
Definition injectBatch : nat := 64.

Section finalizer.
Context {W F E Tgt : Type} `{EqDecision Tgt}.
(** The egress's [Write], a target's [Send] and its [Name()] ("" when it has none). *)
Context (egWrite : F → list (list Z) → F * option E)
        (sendTo : W → Tgt → Envelope → list Z → W) (nameOf : Tgt → string).

Record entry := MkEntry { e_owner : Owner; e_target : Tgt; e_lastSeen : Z }.

#[global] Instance entry_eq_dec : EqDecision entry.
Proof. solve_decision. Defined.

Record Finalizer := MkFinalizer {
  f_ttl : Z;
  f_maxTrack : Z;
  f_clock : Z;
  f_sentHook : bool;         (** a hook is set *)
  f_w : Writer F E;
  f_track : gmap Addr entry;
}.

Definition New (eg : F) (ttl maxTrack now : Z) : Finalizer :=
  MkFinalizer ttl maxTrack now false (NewWriter eg injectArena injectBatch) ∅.

Definition SetSentHook (f : Finalizer) : Finalizer :=
  MkFinalizer (f_ttl f) (f_maxTrack f) (f_clock f) true (f_w f) (f_track f).
Definition refreshClock (f : Finalizer) (now : Z) : Finalizer :=
  MkFinalizer (f_ttl f) (f_maxTrack f) now (f_sentHook f) (f_w f) (f_track f).
Definition setTrack (f : Finalizer) (m : gmap Addr entry) : Finalizer :=
  MkFinalizer (f_ttl f) (f_maxTrack f) (f_clock f) (f_sentHook f) (f_w f) m.
Definition setWriter (f : Finalizer) (w : Writer F E) : Finalizer :=
  MkFinalizer (f_ttl f) (f_maxTrack f) (f_clock f) (f_sentHook f) w (f_track f).

(** The hook's calls: target name and byte count. *)
Definition recordSent (f : Finalizer) (t : Tgt) (n : Z) : list (string * Z) :=
  if f_sentHook f then [(nameOf t, n)] else [].

(** The read-locked check of an established flow. *)
Definition flowFresh (f : Finalizer) (src : Addr) (owner : Owner) (t : Tgt) (now : Z) : bool :=
  match f_track f !! src with
  | Some e => bool_decide (e_owner e = owner) && bool_decide (e_target e = t) && (e_lastSeen e =? now)
  | None => false
  end.

(** The write-locked section. *)
Definition recordFlow (f : Finalizer) (src : Addr) (owner : Owner) (t : Tgt) (now : Z) : Finalizer :=
  match f_track f !! src with
  | Some _ => setTrack f (<[src := MkEntry owner t now]> (f_track f))
  | None =>
      if (f_maxTrack f <=? 0) || (Z.of_nat (size (f_track f)) <? f_maxTrack f)
      then setTrack f (<[src := MkEntry owner t now]> (f_track f))
      else f
  end.

Definition trackFlow (f : Finalizer) (owner : Owner) (t : Tgt) (payload : list Z) : Finalizer :=
  match SrcIP payload with
  | None => f
  | Some src =>
      let now := f_clock f in
      if flowFresh f src owner t now then f else recordFlow f src owner t now
  end.

(** [Submit] returns, waits for the writer's lock (the flow already
    recorded), or panics in [Reserve]. *)
Inductive submitted :=
| Submitted (f : Finalizer) (w : W) (hooks : list (string * Z))
| SubmitWaits (f : Finalizer)
| SubmitPanics.

Definition Submit (f : Finalizer) (w : W) (owner : Owner) (t : Tgt) (payload : list Z) : submitted :=
  if IsPing payload then
    Submitted f (sendTo w t (MkEnvelope owner true) payload) (recordSent f t (zlen payload))
  else
    let f1 := trackFlow f owner t payload in
    match writePacket egWrite (f_w f1) payload with
    | Next wr => Submitted (setWriter f1 wr) w []
    | Blocked => SubmitWaits f1
    | Panic => SubmitPanics
    end.

(** One iteration of [Run]'s loop on a packet read from the egress. *)
Definition reply (f : Finalizer) (w : W) (pkt : list Z) : Finalizer * W * list (string * Z) :=
  match DstIP pkt with
  | None => (f, w, [])
  | Some dst =>
      let now := f_clock f in
      match f_track f !! dst with
      | None => (f, w, [])
      | Some e =>
          let f' :=
            if e_lastSeen e =? now then f
            else match f_track f !! dst with
                 | Some cur => setTrack f (<[dst := MkEntry (e_owner cur) (e_target cur) now]> (f_track f))
                 | None => f
                 end in
          (f', sendTo w (e_target e) (MkEnvelope (e_owner e) true) pkt, recordSent f (e_target e) (zlen pkt))
      end
  end.

(** The body of [GC]'s range loop. *)
Definition gcFlow (cutoff : Z) (acc : gmap Addr entry * Z) (kv : Addr * entry) : gmap Addr entry * Z :=
  if e_lastSeen kv.2 <? cutoff then (delete kv.1 acc.1, acc.2 + 1) else acc.

Definition GC (f : Finalizer) (now : Z) (order : list (Addr * entry)) : Finalizer * Z :=
  let '(m, n) := fold_left (gcFlow (now - f_ttl f)) order (f_track f, 0) in
  (setTrack f m, n).

(** ** Histories *)

Inductive fevent :=
| EvSubmit (owner : Owner) (t : Tgt) (payload : list Z)
| EvReply (pkt : list Z)
| EvGC (now : Z) (order : list (Addr * entry))
| EvClock (now : Z)
| EvWriter (e : wevent).   (** a flush tick, or another holder of the writer *)

(** [None]: the event is not enabled, or panics. *)
Definition fexec (s : Finalizer * W) (e : fevent) : option (Finalizer * W) :=
  let '(f, w) := s in
  match e with
  | EvSubmit owner t payload =>
      match Submit f w owner t payload with Submitted f' w' _ => Some (f', w') | _ => None end
  | EvReply pkt => Some (reply f w pkt).1
  | EvGC now order => if decide (order ≡ₚ map_to_list (f_track f)) then Some ((GC f now order).1, w) else None
  | EvClock now => Some (refreshClock f now, w)
  | EvWriter we => match wexec egWrite (f_w f) we with Next wr => Some (setWriter f wr, w) | _ => None end
  end.

Fixpoint frun (s : Finalizer * W) (es : list fevent) : option (Finalizer * W) :=
  match es with [] => Some s | e :: es' => s' ← fexec s e; frun s' es' end.

(** ** Lemmas *)

(** Room for a flow: it is known, or the cap is not reached. *)
Definition admits (f : Finalizer) (src : Addr) : bool :=
  match f_track f !! src with
  | Some _ => true
  | None => (f_maxTrack f <=? 0) || (Z.of_nat (size (f_track f)) <? f_maxTrack f)
  end.

Lemma setTrack_id f : setTrack f (f_track f) = f.
Proof. by destruct f. Qed.

(** The fast path skips only writes that would change nothing. *)
Lemma trackFlow_spec f owner t payload :
  trackFlow f owner t payload =
    match SrcIP payload with
    | Some src => if admits f src then setTrack f (<[src := MkEntry owner t (f_clock f)]> (f_track f)) else f
    | None => f
    end.
Proof.
  unfold trackFlow, admits. destruct (SrcIP payload) as [src|]; [|done]. unfold flowFresh, recordFlow.
  destruct (f_track f !! src) as [e|] eqn:He.
  - destruct (_ && _) eqn:Hc; [|done]. unbool. destruct e; simpl in *; subst.
    by rewrite insert_id, setTrack_id.
  - by destruct (_ || _).
Qed.

Lemma trackFlow_lookup f owner t payload src :
  SrcIP payload ≠ Some src → f_track (trackFlow f owner t payload) !! src = f_track f !! src.
Proof.
  intros Hs. rewrite trackFlow_spec. destruct (SrcIP payload) as [src'|]; [|done].
  destruct (admits f src'); [|done]. simpl. apply lookup_insert_ne. congruence.
Qed.

Lemma insert_known_size (m : gmap Addr entry) a e e' : m !! a = Some e → size (<[a := e']> m) = size m.
Proof. intros Ha. apply map_size_insert_Some. by rewrite Ha. Qed.

Definition bounded (f : Finalizer) : Prop := 0 < f_maxTrack f → Z.of_nat (size (f_track f)) ≤ f_maxTrack f.

Lemma trackFlow_bounded f owner t payload : bounded f → bounded (trackFlow f owner t payload).
Proof.
  unfold bounded. intros Hb. rewrite trackFlow_spec. destruct (SrcIP payload) as [src|]; [|done].
  destruct (admits f src) eqn:Ha; [|done]. unfold admits in Ha. simpl. intros H0. specialize (Hb H0).
  destruct (f_track f !! src) as [e|] eqn:He; [by erewrite insert_known_size|].
  rewrite map_size_insert_None by done. apply orb_true_iff in Ha as [?|?]; unbool; lia.
Qed.

Lemma reply_track f w pkt :
  let f' := (reply f w pkt).1.1 in
  f' = setTrack f (f_track f') ∧ size (f_track f') = size (f_track f) ∧
  ∀ a, f_track f' !! a =
    (λ e, if bool_decide (DstIP pkt = Some a) then MkEntry (e_owner e) (e_target e) (f_clock f) else e) <$> f_track f !! a.
Proof.
  unfold reply. destruct (DstIP pkt) as [dst|] eqn:Hd; simpl.
  2:{ rewrite setTrack_id. split_and!; try done. intros a. by destruct (f_track f !! a). }
  destruct (f_track f !! dst) as [e|] eqn:He; simpl.
  2:{ rewrite setTrack_id. split_and!; try done. intros a. destruct (f_track f !! a) eqn:Ha; [|done]. simpl.
      rewrite bool_decide_eq_false_2; [done|congruence]. }
  destruct (e_lastSeen e =? f_clock f) eqn:Hc; unbool.
  - rewrite setTrack_id. split_and!; try done. intros a. destruct (f_track f !! a) as [e'|] eqn:Ha; [|done]. simpl.
    case_bool_decide as Hda; [|done]. assert (e' = e) as -> by congruence. rewrite <- Hc. by destruct e.
  - simpl. split_and!; [done|by erewrite insert_known_size|]. intros a.
    destruct (decide (dst = a)) as [->|Hne].
    + rewrite lookup_insert_eq, He. simpl. by rewrite bool_decide_eq_true_2.
    + rewrite lookup_insert_ne by done. destruct (f_track f !! a); [|done]. simpl.
      rewrite bool_decide_eq_false_2; [done|congruence].
Qed.

Lemma gcFlow_fold cutoff order m n :
  NoDup order.*1 → (∀ kv, kv ∈ order → m !! kv.1 = Some kv.2) →
  let '(m', n') := fold_left (gcFlow cutoff) order (m, n) in
  (∀ a e, m' !! a = Some e ↔ m !! a = Some e ∧ ¬ ((a, e) ∈ order ∧ e_lastSeen e < cutoff)) ∧
  n' - n = Z.of_nat (size m) - Z.of_nat (size m').
Proof.
  revert m n. induction order as [|[a0 e0] order IH]; intros m n Hnd Hin; cbn [fold_left].
  { split; [|lia]. intros a e. split; [|tauto]. intros H. split; [done|]. by intros [?%elem_of_nil _]. }
  cbn [fmap list_fmap fst] in Hnd. apply NoDup_cons in Hnd as [Hnin Hnd].
  assert (m !! a0 = Some e0) as H0 by (apply (Hin (a0, e0)); left).
  assert (Hrest : ∀ kv, kv ∈ order → kv.1 ≠ a0).
  { intros kv Hkv <-. apply Hnin. by apply list_elem_of_fmap_2. }
  unfold gcFlow at 2. cbn [fst snd].
  destruct (e_lastSeen e0 <? cutoff) eqn:Hs; unbool.
  - specialize (IH (delete a0 m) (n + 1) Hnd). destruct (fold_left _ _ _) as [m' n'].
    destruct IH as [IH Hn].
    { intros kv Hkv. rewrite lookup_delete_ne by (by apply not_eq_sym, Hrest). apply Hin. by right. }
    rewrite map_size_delete_Some in Hn by done.
    assert (size m ≠ 0)%nat by (apply (map_size_ne_0_lookup_2 m a0); by exists e0).
    split; [|lia]. intros a e. rewrite IH, lookup_delete_Some, elem_of_cons. split.
    + intros [[Hne Ha] Hn']. split; [done|]. intros [[?|?] ?]; [congruence|tauto].
    + intros [Ha Hn']. split; [|tauto]. split; [|done]. intros <-.
      assert (e = e0) as -> by congruence. apply Hn'. split; [by left|done].
  - specialize (IH m n Hnd). destruct (fold_left _ _ _) as [m' n'].
    destruct IH as [IH Hn]; [intros kv Hkv; apply Hin; by right|]. split; [|lia].
    intros a e. rewrite IH, elem_of_cons. split.
    + intros [Ha Hn']. split; [done|]. intros [[[= -> ->]|?] ?]; [lia|tauto].
    + tauto.
Qed.

Lemma GC_spec f now order :
  order ≡ₚ map_to_list (f_track f) →
  let '(f', n) := GC f now order in
  f' = setTrack f (filter (λ kv, now - f_ttl f ≤ e_lastSeen kv.2) (f_track f)) ∧
  n = Z.of_nat (size (f_track f)) - Z.of_nat (size (f_track f')).
Proof.
  intros Ho. unfold GC. pose proof (gcFlow_fold (now - f_ttl f) order (f_track f) 0) as H.
  destruct (fold_left _ _ _) as [m n]. destruct H as [Hm Hn].
  { rewrite Ho. apply NoDup_fst_map_to_list. }
  { intros [a e]. rewrite Ho. apply elem_of_map_to_list. }
  simpl. split; [|lia]. f_equal. apply map_eq. intros a. apply option_eq. intros e.
  rewrite Hm, map_lookup_filter_Some, Ho, elem_of_map_to_list. cbn [snd]. split.
  - intros [Ha Hn']. split; [done|]. apply Z.nlt_ge. tauto.
  - intros [Ha Hle]. split; [done|]. intros [_ ?]. lia.
Qed.

Lemma fexec_bounded f w e f' w' : fexec (f, w) e = Some (f', w') → bounded f → bounded f' ∧ f_maxTrack f' = f_maxTrack f.
Proof.
  intros He Hb. destruct e as [owner t payload|pkt|now order|now|we]; cbn [fexec] in He.
  - unfold Submit in He. destruct (IsPing payload); [by simplify_eq|].
    pose proof (trackFlow_bounded f owner t payload Hb) as Hb'.
    assert (f_maxTrack (trackFlow f owner t payload) = f_maxTrack f) as Hm.
    { rewrite trackFlow_spec. destruct (SrcIP payload); [|done]. by destruct (admits _ _). }
    destruct (writePacket _ _ _); simplify_eq. by split.
  - pose proof (reply_track f w pkt) as (Hf & Hs & _). destruct (reply f w pkt) as [[f1 w1] h]. simpl in *. simplify_eq.
    rewrite Hf. split; [|done]. unfold bounded. simpl. by rewrite Hs.
  - destruct (decide _) as [Ho|]; [|done]. pose proof (GC_spec f now order Ho) as H.
    destruct (GC f now order) as [f1 n]. destruct H as [-> _]. simplify_eq. split; [|done].
    unfold bounded in *. simpl. intros H0. specialize (Hb H0).
    pose proof (map_size_filter (λ kv : Addr * entry, now - f_ttl f ≤ e_lastSeen kv.2) (f_track f)). lia.
  - by simplify_eq.
  - destruct (wexec _ _ _); by simplify_eq.
Qed.

Lemma frun_bounded s es s' : frun s es = Some s' → bounded s.1 → bounded s'.1 ∧ f_maxTrack s'.1 = f_maxTrack s.1.
Proof.
  revert s. induction es as [|e es IH]; intros [f w] H Hb; cbn [frun] in H; [by simplify_eq|].
  apply bind_Some in H as ([f1 w1] & He & Hr). destruct (fexec_bounded _ _ _ _ _ He Hb) as [Hb1 Hm1].
  destruct (IH _ Hr Hb1) as [? Hm]. split; [done|]. by rewrite Hm.
Qed.

(** What keeps a flow alive and bound: nobody submits from its address
    again, and no collection runs late enough to expire it. *)
Definition sparesFlow (src : Addr) (t0 ttl : Z) (e : fevent) : Prop :=
  match e with
  | EvSubmit _ _ p => SrcIP p ≠ Some src ∨ IsPing p = true
  | EvReply _ => True
  | EvGC now _ => now - ttl ≤ t0
  | EvClock now => t0 ≤ now
  | EvWriter _ => True
  end.

Definition flowBound (src : Addr) (owner : Owner) (t : Tgt) (t0 ttl : Z) (f : Finalizer) : Prop :=
  f_ttl f = ttl ∧ t0 ≤ f_clock f ∧
  ∃ e, f_track f !! src = Some e ∧ e_owner e = owner ∧ e_target e = t ∧ t0 ≤ e_lastSeen e.

Lemma fexec_flow src owner t t0 ttl f w e f' w' :
  sparesFlow src t0 ttl e → fexec (f, w) e = Some (f', w') →
  flowBound src owner t t0 ttl f → flowBound src owner t t0 ttl f'.
Proof.
  intros Hsp He (Ht & Hc & e0 & He0 & Ho & Htg & Hl). destruct e as [ow tg payload|pkt|now order|now|we]; cbn [fexec] in He.
  - unfold Submit in He. destruct (IsPing payload) eqn:Hp; [simplify_eq; split_and!; eauto|].
    destruct Hsp as [Hsp|]; [|congruence].
    pose proof (trackFlow_lookup f ow tg payload src Hsp) as Hlk.
    assert (f_ttl (trackFlow f ow tg payload) = f_ttl f ∧ f_clock (trackFlow f ow tg payload) = f_clock f) as [H1 H2].
    { rewrite trackFlow_spec. destruct (SrcIP payload); [|done]. by destruct (admits _ _). }
    destruct (writePacket _ _ _); simplify_eq. split_and!; simpl; [done|lia|]. rewrite Hlk. eauto.
  - pose proof (reply_track f w pkt) as (Hf & _ & Hs). destruct (reply f w pkt) as [[f1 w1] h]. simpl in *. simplify_eq.
    rewrite Hf. split_and!; simpl; [done..|]. rewrite Hs, He0. simpl. eexists. split; [done|]. by case_bool_decide.
  - destruct (decide _) as [Hor|]; [|done]. pose proof (GC_spec f now order Hor) as H.
    destruct (GC f now order) as [f1 n]. destruct H as [-> _]. simplify_eq. simpl in Hsp.
    split_and!; simpl; [done..|]. exists e0. split; [|done]. apply map_lookup_filter_Some. split; [done|]. simpl. lia.
  - simplify_eq. simpl in Hsp. split_and!; simpl; eauto.
  - destruct (wexec _ _ _); simplify_eq. split_and!; simpl; eauto.
Qed.

Lemma frun_flow src owner t t0 ttl s es s' :
  Forall (sparesFlow src t0 ttl) es → frun s es = Some s' →
  flowBound src owner t t0 ttl s.1 → flowBound src owner t t0 ttl s'.1.
Proof.
  revert s. induction es as [|e es IH]; intros [f w] Hes H Hb; cbn [frun] in H; [by simplify_eq|].
  apply Forall_cons_1 in Hes as [He Hes]. apply bind_Some in H as ([f1 w1] & Hx & Hr).
  eapply IH; [done|done|]. by eapply fexec_flow.
Qed.

(** ** Properties *)

(** Whatever is submitted, answered, collected and flushed, the
    number of tracked return flows never exceeds the cap, starting from no
    flow as [New] does. *)
Theorem track_bounded f w es f' w' :
  f_track f = ∅ → 0 < f_maxTrack f → frun (f, w) es = Some (f', w') →
  Z.of_nat (size (f_track f')) ≤ f_maxTrack f.
Proof.
  intros Hf H0 Hr. destruct (frun_bounded _ _ _ Hr) as [Hb Hm].
  - intros _. simpl. rewrite Hf, map_size_empty. lia.
  - simpl in *. rewrite <- Hm. apply Hb. by rewrite Hm.
Qed.

(** Claim C13.  After a client's packet was submitted and its flow recorded,
    any later reply to that inner address is sent once, unchanged and marked
    processed, to the owner and the target of that submission, whatever other
    clients submit, however often the clock ticks and the writer flushes, and
    whatever collection runs within the ttl. *)
Theorem reply_returns_to_owner f w owner t payload src f1 w1 h1 es f2 w2 pkt :
  IsPing payload = false → SrcIP payload = Some src → admits f src = true →
  Submit f w owner t payload = Submitted f1 w1 h1 →
  Forall (sparesFlow src (f_clock f) (f_ttl f)) es →
  frun (f1, w1) es = Some (f2, w2) →
  DstIP pkt = Some src →
  ∃ f3, reply f2 w2 pkt = (f3, sendTo w2 t (MkEnvelope owner true) pkt, recordSent f2 t (zlen pkt)).
Proof.
  intros Hp Hs Ha Hsub Hes Hrun Hd.
  assert (flowBound src owner t (f_clock f) (f_ttl f) f1) as Hb.
  { unfold Submit in Hsub. rewrite Hp, trackFlow_spec, Hs, Ha in Hsub. destruct (writePacket _ _ _); simplify_eq.
    split_and!; simpl; [done|lia|]. rewrite lookup_insert_eq. eexists. split_and!; [done..|]. simpl. lia. }
  apply (frun_flow _ _ _ _ _ (f1, w1) es (f2, w2)) in Hb as (_ & _ & e & He & Ho & Ht & _); [|done..].
  unfold reply. simpl in He. rewrite Hd, He, Ho, Ht. by eexists.
Qed.

(** A collection, in whatever order it ranges over the flows,
    removes exactly those idle for longer than the ttl and reports their
    number, and a reply to an address with no flow is dropped without effect. *)
Theorem gc_and_unknown_replies f w now order pkt :
  order ≡ₚ map_to_list (f_track f) →
  (let '(f', n) := GC f now order in
   (∀ a, f_track f' !! a = match f_track f !! a with
                           | Some e => if e_lastSeen e <? now - f_ttl f then None else Some e
                           | None => None end) ∧
   n = Z.of_nat (size (f_track f)) - Z.of_nat (size (f_track f')) ∧
   ∀ a, DstIP pkt = Some a → f_track f' !! a = None → reply f' w pkt = (f', w, [])).
Proof.
  intros Ho. pose proof (GC_spec f now order Ho) as H. destruct (GC f now order) as [f' n].
  destruct H as [Hf Hn]. split; [|split; [done|]].
  - intros a. rewrite Hf. simpl. rewrite map_lookup_filter. destruct (f_track f !! a) as [e|]; [|done]. simpl.
    destruct (e_lastSeen e <? _) eqn:Hc; unbool; case_guard; done || lia.
  - intros a Ha Hna. unfold reply. by rewrite Ha, Hna.
Qed.
End finalizer.
Arguments Finalizer : clear implicits.
Arguments entry : clear implicits.
Arguments fevent : clear implicits.

(** While the inject writer is idle, [Submit] of any packet that
    fits the arena returns.  A ping is reflected to the target marked processed
    and neither queued nor tracked; any other packet is queued for the egress
    unchanged behind what was queued before, whether or not its flow is
    recorded, and the flow is recorded unless it is new and the cap is reached
    (the fast path never changes this outcome). *)
Theorem submit_behaviour {W E Tgt} `{EqDecision Tgt} oracle sendTo nameOf
    (f : Finalizer (list (list (list Z))) E Tgt) (w : W) owner t payload :
  writer_ok injectArena injectBatch (f_w f) → w_mu (f_w f) = None → (length payload ≤ injectArena)%nat →
  if IsPing payload then
    Submit (recorder oracle) sendTo nameOf f w owner t payload =
      Submitted f (sendTo w t (MkEnvelope owner true) payload) (recordSent nameOf f t (zlen payload))
  else ∃ f', Submit (recorder oracle) sendTo nameOf f w owner t payload = Submitted f' w [] ∧
    accepted (f_w f') = accepted (f_w f) ++ [payload] ∧
    f_track f' = match SrcIP payload with
                 | Some src => if admits f src then <[src := MkEntry owner t (f_clock f)]> (f_track f) else f_track f
                 | None => f_track f
                 end.
Proof.
  intros Hok Hmu Hlen. unfold Submit. destruct (IsPing payload); [done|].
  assert (f_w (trackFlow f owner t payload) = f_w f ∧ f_track (trackFlow f owner t payload) =
    match SrcIP payload with
    | Some src => if admits f src then <[src := MkEntry owner t (f_clock f)]> (f_track f) else f_track f
    | None => f_track f end) as [Hw Ht].
  { rewrite trackFlow_spec. destruct (SrcIP payload); [|done]. by destruct (admits _ _). }
  assert (0 < injectBatch)%nat as Hk by (unfold injectBatch; lia).
  rewrite Hw. destruct (writePacket_next (recorder oracle) injectArena injectBatch (f_w f) payload Hk Hok Hmu Hlen)
    as (wr & Hwr & _). rewrite Hwr. eexists. split; [done|]. split; [|exact Ht].
  by apply (writePacket_accepted oracle injectArena injectBatch).
Qed.

(** ** A concrete finalizer *)

Module FinalizerDemo.
(** Targets and the world's log of what was sent to them. *)
Definition sendTo (w : list (nat * Envelope * list Z)) (t : nat) (e : Envelope) (p : list Z) := w ++ [(t, e, p)].
Definition nameOf (t : nat) : string := if (t =? 1)%nat then "one" else "".
Definition eg : list (list (list Z)) → list (list Z) → list (list (list Z)) * option unit := recorder (λ _ _, None).
Definition f0 : Finalizer (list (list (list Z))) unit nat :=
  SetSentHook (MkFinalizer 1000 1 50 false (NewWriter [] 64 4) ∅).
(** 10.0.0.1 to 1.1.1.1, and the reply. *)
Definition out : list Z := [0x45; 0; 0; 20; 0; 0; 0; 0; 64; 6; 0; 0; 10; 0; 0; 1; 1; 1; 1; 1].
Definition back : list Z := [0x45; 0; 0; 20; 0; 0; 0; 0; 64; 6; 0; 0; 1; 1; 1; 1; 10; 0; 0; 1].
Definition other : list Z := [0x45; 0; 0; 20; 0; 0; 0; 0; 64; 6; 0; 0; 10; 0; 0; 2; 1; 1; 1; 1].
Definition o : Owner := MkOwner 1 2 3 4.
Definition es : list (fevent nat) :=
  [EvSubmit zeroOwner 9%nat other; EvClock 60; EvWriter EvTryFlush; EvReply back].
Definition f1 := match Submit eg sendTo nameOf f0 [] o 1%nat out with Submitted f _ _ => f | _ => f0 end.
Definition s2 := default (f0, []) (frun eg sendTo nameOf (f1, []) es).
End FinalizerDemo.

Lemma track_bounded_witness :
  Z.of_nat (size (f_track (FinalizerDemo.s2).1)) ≤ 1.
Proof.
  apply (track_bounded FinalizerDemo.eg FinalizerDemo.sendTo FinalizerDemo.nameOf FinalizerDemo.f0 []
           (EvSubmit FinalizerDemo.o 1%nat FinalizerDemo.out :: FinalizerDemo.es)
           (FinalizerDemo.s2).1 (FinalizerDemo.s2).2); [done|done|by vm_compute].
Defined.

Lemma reply_returns_to_owner_witness :
  ∃ f3, reply FinalizerDemo.sendTo FinalizerDemo.nameOf (FinalizerDemo.s2).1 (FinalizerDemo.s2).2 FinalizerDemo.back =
    (f3, (FinalizerDemo.s2).2 ++ [(1%nat, MkEnvelope FinalizerDemo.o true, FinalizerDemo.back)], [("one"%string, 20)]).
Proof.
  apply (reply_returns_to_owner FinalizerDemo.eg FinalizerDemo.sendTo FinalizerDemo.nameOf FinalizerDemo.f0 []
           FinalizerDemo.o 1%nat FinalizerDemo.out (Addr4 167772161) FinalizerDemo.f1 [] [] FinalizerDemo.es);
    [by vm_compute..| |by vm_compute|by vm_compute].
  repeat constructor; vm_compute; congruence.
Defined.

Lemma gc_and_unknown_replies_witness :
  let '(f', n) := GC FinalizerDemo.f1 2000 (map_to_list (f_track FinalizerDemo.f1)) in
  f_track f' !! Addr4 167772161 = None ∧
  reply FinalizerDemo.sendTo FinalizerDemo.nameOf f' [] FinalizerDemo.back = (f', [], []).
Proof.
  pose proof (gc_and_unknown_replies FinalizerDemo.sendTo FinalizerDemo.nameOf FinalizerDemo.f1 [] 2000
    (map_to_list (f_track FinalizerDemo.f1)) FinalizerDemo.back (Permutation_refl _)) as H.
  destruct (GC FinalizerDemo.f1 2000 _) as [f' n]. destruct H as (Ht & _ & Hr).
  assert (f_track f' !! Addr4 167772161 = None) as Hn by (rewrite Ht; by vm_compute).
  split; [exact Hn|]. apply (Hr (Addr4 167772161)); [by vm_compute|exact Hn].
Defined.

Lemma submit_behaviour_witness :
  let f := MkFinalizer 1000 1 50 false (NewWriter [] injectArena injectBatch) ∅ : Finalizer _ unit nat in
  ∃ f', Submit FinalizerDemo.eg FinalizerDemo.sendTo FinalizerDemo.nameOf f [] FinalizerDemo.o 1%nat FinalizerDemo.out =
          Submitted f' [] [] ∧
        accepted (f_w f') = accepted (f_w f) ++ [FinalizerDemo.out] ∧
        f_track f' = {[Addr4 167772161 := MkEntry FinalizerDemo.o 1%nat 50]}.
Proof.
  intros f. apply (submit_behaviour (λ _ _, None) FinalizerDemo.sendTo FinalizerDemo.nameOf f []
    FinalizerDemo.o 1%nat FinalizerDemo.out).
  - apply NewWriter_ok. unfold injectBatch. lia.
  - done.
  - unfold injectArena. apply Nat.leb_le. vm_compute. reflexivity.
Defined.
