(* ===== verification/Health.v ===== *)
(** * internal/healthcheck: the end-to-end liveness driver

    Times are Unix nanoseconds as integers, an unset [time.Time] is [None].
    The driver's callbacks are outputs: health edges, reconnects (by link) and
    probes.  A run interleaves the events [hevent]: packets coming back
    ([Seen]), packets sent ([SentData]) and loop ticks. *)

From S2P Require Import Prelude GoBytes Wire.
Local Open Scope Z_scope.

Record Driver := MkDriver {
  d_interval : Z;
  d_timeout : Z;
  d_upGrace : Z;
  d_links : nat;
  d_seq : Z;
  d_lastSeen : Z;
  d_lastSent : Z;
  d_sentTick : bool;
  d_healthy : bool;
  d_lastObserved : Z;
  d_candidateSince : option Z;
  d_wasActive : bool;
  d_activeSince : option Z;
}.

Inductive houtput :=
| OnHealth (b : bool)
| Reconnect (link : nat)
| Probe (ping : list Z).

Definition New (interval timeout upGrace : Z) (links : nat) : Driver :=
  MkDriver interval timeout upGrace links 0 0 0 false false 0 None false None.

Definition Seen (d : Driver) (now : Z) : Driver :=
  MkDriver (d_interval d) (d_timeout d) (d_upGrace d) (d_links d) (d_seq d) now (d_lastSent d) (d_sentTick d)
    (d_healthy d) (d_lastObserved d) (d_candidateSince d) (d_wasActive d) (d_activeSince d).

Definition SentData (d : Driver) (now : Z) : Driver :=
  MkDriver (d_interval d) (d_timeout d) (d_upGrace d) (d_links d) (d_seq d) (d_lastSeen d) now true
    (d_healthy d) (d_lastObserved d) (d_candidateSince d) (d_wasActive d) (d_activeSince d).

Definition setHealthy (d : Driver) (h : bool) : Driver * list houtput :=
  if Bool.eqb h (d_healthy d) then (d, [])
  else (MkDriver (d_interval d) (d_timeout d) (d_upGrace d) (d_links d) (d_seq d) (d_lastSeen d) (d_lastSent d)
          (d_sentTick d) h (d_lastObserved d) (d_candidateSince d) (d_wasActive d) (d_activeSince d),
        [OnHealth h]).

(** The run-loop fields [step] assigns before and after the edge logic. *)
Definition setLoop (d : Driver) (lastSeen lastObserved : Z) (cand : option Z) (wasActive : bool) (since : option Z) : Driver :=
  MkDriver (d_interval d) (d_timeout d) (d_upGrace d) (d_links d) (d_seq d) lastSeen (d_lastSent d) (d_sentTick d)
    (d_healthy d) lastObserved cand wasActive since.

Definition init (d : Driver) (now : Z) : Driver * list houtput :=
  setHealthy (setLoop d now now None false None) false.

(** [time.Time{}.UnixNano()], the int64 the overflow leaves. *)
Definition zeroUnixNano : Z := -6795364578871345152.
Definition unixNano (t : option Z) : Z := default zeroUnixNano t.

Definition active (d : Driver) (now : Z) : bool :=
  (0 <? d_interval d) || (now - d_lastSent d <? d_timeout d).

Definition sinceFor (d : Driver) (now : Z) : option Z :=
  if active d now && negb (d_wasActive d) then Some now else d_activeSince d.

Definition effectiveSeen (d : Driver) (now : Z) : Z :=
  if (d_interval d =? 0) && (d_lastSeen d <? unixNano (sinceFor d now)) then unixNano (sinceFor d now)
  else d_lastSeen d.

Definition swapSent (d : Driver) : Driver :=
  MkDriver (d_interval d) (d_timeout d) (d_upGrace d) (d_links d) (d_seq d) (d_lastSeen d) (d_lastSent d) false
    (d_healthy d) (d_lastObserved d) (d_candidateSince d) (d_wasActive d) (d_activeSince d).

(** The down edge: mark unhealthy, reconnect every link, restart the window. *)
Definition stepDown (d : Driver) (now : Z) : Driver * list houtput :=
  let '(d', out) := setHealthy d false in
  (setLoop d' now now None (d_wasActive d') (d_activeSince d'), out ++ map Reconnect (seq 0 (d_links d'))).

(** The up edge, on a driver whose [lastObserved] is already updated. *)
Definition stepUp (d : Driver) (now : Z) (fresh : bool) : Driver * list houtput :=
  if d_healthy d then (d, [])
  else if fresh then
    let c := match d_candidateSince d with None => now | Some c => c end in
    let d := setLoop d (d_lastSeen d) (d_lastObserved d) (Some c) (d_wasActive d) (d_activeSince d) in
    if d_upGrace d <=? now - c then setHealthy d true else (d, [])
  else (setLoop d (d_lastSeen d) (d_lastObserved d) None (d_wasActive d) (d_activeSince d), []).

Definition step (d : Driver) (now : Z) : Driver * list houtput * bool :=
  let seen := d_lastSeen d in
  let act := active d now in
  let eff := effectiveSeen d now in
  let d1 := setLoop d seen (d_lastObserved d) (d_candidateSince d) act (sinceFor d now) in
  if act && (d_timeout d <? now - eff) then
    let '(d2, out) := stepDown d1 now in (d2, out, false)
  else
    let fresh := negb (seen =? d_lastObserved d1) in
    let d2 := setLoop d1 seen seen (d_candidateSince d1) (d_wasActive d1) (d_activeSince d1) in
    let '(d3, out) := stepUp d2 now fresh in
    (* d.interval > 0 || d.sentTick.Swap(false) *)
    if 0 <? d_interval d3 then (d3, out, true) else (swapSent d3, out, d_sentTick d3).

(** [d.probe(wire.EncodePing(d.seq.Add(1)))]. *)
Definition emitProbe (d : Driver) : Driver * list houtput :=
  let s := wrap 64 (d_seq d + 1) in
  (MkDriver (d_interval d) (d_timeout d) (d_upGrace d) (d_links d) s (d_lastSeen d) (d_lastSent d)
     (d_sentTick d) (d_healthy d) (d_lastObserved d) (d_candidateSince d) (d_wasActive d) (d_activeSince d),
   [Probe (EncodePing s)]).

(** One firing of [Run]'s ticker. *)
Definition tick (d : Driver) (now : Z) : Driver * list houtput :=
  let '(d1, out, doProbe) := step d now in
  if doProbe then let '(d2, p) := emitProbe d1 in (d2, out ++ p) else (d1, out).

Definition second : Z := 1000000000.
(** The ticker's period; [None] when [Run] returns at once. *)
Definition tickPeriod (d : Driver) : option Z :=
  if d_interval d <? 0 then None
  else Some (if d_interval d =? 0 then
               let t := Z.quot (d_timeout d) 3 in if t <? second then second else t
             else d_interval d).

Inductive hevent :=
| EvSeen (now : Z)
| EvSent (now : Z)
| EvTick (now : Z).

Definition hexec (d : Driver) (e : hevent) : Driver * list houtput :=
  match e with
  | EvSeen now => (Seen d now, [])
  | EvSent now => (SentData d now, [])
  | EvTick now => tick d now
  end.

Fixpoint hrun (d : Driver) (es : list hevent) : Driver * list houtput :=
  match es with
  | [] => (d, [])
  | e :: es' => let '(d1, o1) := hexec d e in let '(d2, o2) := hrun d1 es' in (d2, o1 ++ o2)
  end.

(** ** Lemmas *)

Lemma hrun_app d es es' :
  hrun d (es ++ es') = let '(d1, o1) := hrun d es in let '(d2, o2) := hrun d1 es' in (d2, o1 ++ o2).
Proof.
  revert d. induction es as [|e es IH]; intros d; simpl; [by destruct (hrun d es')|].
  destruct (hexec d e) as [d1 o1]. rewrite IH. destruct (hrun d1 es) as [d2 o2].
  destruct (hrun d2 es') as [d3 o3]. by rewrite app_assoc.
Qed.

Definition edges (out : list houtput) : list bool :=
  omap (λ o, match o with OnHealth b => Some b | _ => None end) out.

Lemma edges_app a b : edges (a ++ b) = edges a ++ edges b.
Proof. apply omap_app. Qed.

Lemma edges_reconnects l : edges (map Reconnect l) = [].
Proof. by induction l. Qed.

(** What a tick may emit besides edges and reconnects. *)
Definition probeOnly (p : list houtput) : Prop := p = [] ∨ ∃ n, p = [Probe (EncodePing n)].

Lemma probeOnly_edges p : probeOnly p → edges p = [].
Proof. by intros [-> | [n ->]]. Qed.

(** The configuration never changes. *)
Definition cfg (d : Driver) : Z * Z * Z * nat := (d_interval d, d_timeout d, d_upGrace d, d_links d).

(** What one tick does, on its two branches. *)
Inductive ticked (d : Driver) (now : Z) (d' : Driver) (out : list houtput) : Prop :=
| ticked_down :
    active d now = true → d_timeout d < now - effectiveSeen d now →
    d_healthy d' = false → d_lastSeen d' = now → d_lastObserved d' = now → d_candidateSince d' = None →
    out = (if d_healthy d then [OnHealth false] else []) ++ map Reconnect (seq 0 (d_links d)) →
    ticked d now d' out
| ticked_quiet :
    (active d now = true → now - effectiveSeen d now ≤ d_timeout d) →
    d_lastSeen d' = d_lastSeen d → d_lastObserved d' = d_lastSeen d →
    probeOnly out → d_healthy d' = d_healthy d →
    (d_healthy d = false → d_candidateSince d' =
       if d_lastSeen d =? d_lastObserved d then None else Some (default now (d_candidateSince d))) →
    ticked d now d' out
| ticked_up probe :
    (active d now = true → now - effectiveSeen d now ≤ d_timeout d) →
    d_lastSeen d' = d_lastSeen d → d_lastObserved d' = d_lastSeen d →
    d_healthy d = false → d_healthy d' = true → d_lastSeen d ≠ d_lastObserved d →
    d_upGrace d ≤ now - default now (d_candidateSince d) →
    out = OnHealth true :: probe → probeOnly probe →
    ticked d now d' out.

(** The fields the edge logic looks at. *)
Definition watched (d : Driver) :=
  (cfg d, (d_lastSeen d, d_lastObserved d, d_candidateSince d), (d_healthy d, d_wasActive d)).

(** The branch without a down edge, before the probe. *)
Lemma stepUp_cases d now :
  let act := active d now in
  let d2 := setLoop d (d_lastSeen d) (d_lastSeen d) (d_candidateSince d) act (sinceFor d now) in
  (act = true → now - effectiveSeen d now ≤ d_timeout d) →
  let '(d3, out) := stepUp d2 now (negb (d_lastSeen d =? d_lastObserved d)) in
  ∀ d4 p, watched d4 = watched d3 → probeOnly p →
    ticked d now d4 (out ++ p) ∧ cfg d4 = cfg d ∧ d_wasActive d4 = act.
Proof.
  intros act d2 Hq. subst d2 act. destruct (stepUp _ now _) as [d3 out] eqn:Hup. intros d4 p Hw Hp.
  unfold watched, cfg in *. destruct d3, d4; cbn in Hw; simplify_eq.
  unfold stepUp, setLoop, setHealthy in Hup. destruct d as [iv to gr ln sq ls lt st h lo cs wa si]; cbn in *.
  destruct h; cbn in Hup.
  { inversion Hup; subst; cbn in *. split; [|done]. by apply ticked_quiet. }
  destruct (ls =? lo) eqn:Hf; cbn in Hup.
  { inversion Hup; subst; cbn in *. split; [|done]. apply ticked_quiet; try done. intros _. cbn. by rewrite Hf. }
  destruct (gr <=? now - _) eqn:Hg; inversion Hup; subst; cbn in *; (split; [|done]); unbool.
  - eapply ticked_up; try done.
  - apply ticked_quiet; try done. intros _. cbn. rewrite (proj2 (Z.eqb_neq _ _) Hf). by destruct cs.
Qed.

Lemma tick_cases d now :
  let '(d', out) := tick d now in ticked d now d' out ∧ cfg d' = cfg d ∧ d_wasActive d' = active d now.
Proof.
  unfold tick, step. destruct (active d now && _) eqn:Hdown.
  - apply andb_prop in Hdown as [Ha Hs%Z.ltb_lt]. unfold stepDown, setHealthy. cbn [d_healthy setLoop].
    destruct (d_healthy d) eqn:Hh; cbn [Bool.eqb]; (split; [|done]);
      apply ticked_down; try done; by rewrite Hh.
  - pose proof (stepUp_cases d now) as H. cbn zeta in *. cbn [setLoop d_lastObserved d_candidateSince d_wasActive d_activeSince] in *.
    destruct (stepUp _ now _) as [d3 out].
    assert (∀ d4 p, watched d4 = watched d3 → probeOnly p →
      ticked d now d4 (out ++ p) ∧ cfg d4 = cfg d ∧ d_wasActive d4 = active d now) as Hall.
    { apply H. intros Ha. rewrite Ha in Hdown. cbn in Hdown. by unbool. }
    clear H. destruct (0 <? d_interval d3); [by apply Hall; [|right; eexists]|].
    destruct (d_sentTick d3); [by apply (Hall (emitProbe (swapSent d3)).1); [|right; eexists]|].
    rewrite <- (app_nil_r out). by apply Hall; [|left].
Qed.

(** ** Histories *)

(** For each tick of a history, its time and whether a packet had come back
    since the tick before; first component: since the last tick. *)
Definition logStep (s : bool * list (Z * bool)) (e : hevent) : bool * list (Z * bool) :=
  match e with
  | EvSeen _ => (true, s.2)
  | EvSent _ => s
  | EvTick t => (false, s.2 ++ [(t, s.1)])
  end.
Definition history (es : list hevent) : bool * list (Z * bool) := fold_left logStep es (false, []).

Lemma history_snoc es e : history (es ++ [e]) = logStep (history es) e.
Proof. apply fold_left_app. Qed.

Record driver_inv (d0 : Driver) (es : list hevent) (d : Driver) : Prop := {
  di_cfg : cfg d = cfg d0;
  di_heard : (history es).1 = false → d_lastSeen d = d_lastObserved d;
  di_window : d_healthy d = false → ∀ c, d_candidateSince d = Some c →
    ∃ pre suf, (history es).2 = pre ++ (c, true) :: suf ∧ Forall (λ x, x.2 = true) suf;
  di_seen : d_lastSeen d ≠ d_lastObserved d ∨ d_healthy d = true → EvSeen (d_lastSeen d) ∈ es;
}.

(** A tick on which no down edge fires, seen from the invariant. *)
Lemma tick_window d0 es d now :
  driver_inv d0 es d → d_healthy d = false → d_lastSeen d ≠ d_lastObserved d →
  ∃ pre suf, (history (es ++ [EvTick now])).2 = pre ++ (default now (d_candidateSince d), true) :: suf ∧
    Forall (λ x, x.2 = true) suf.
Proof.
  intros [] Hh Hf. rewrite history_snoc. cbn [logStep snd].
  assert ((history es).1 = true) as -> by (destruct (history es).1; [done|by destruct Hf; apply di_heard0]).
  destruct (d_candidateSince d) as [c|]; cbn [default].
  - destruct (di_window0 Hh c eq_refl) as (pre & suf & -> & Hs). exists pre, (suf ++ [(now, true)]).
    split; [by rewrite <- app_assoc|]. apply Forall_app. split; [done|by constructor].
  - exists (history es).2, []. by split.
Qed.

Lemma hexec_inv d0 es d e d' out :
  driver_inv d0 es d → hexec d e = (d', out) → driver_inv d0 (es ++ [e]) d'.
Proof.
  intros Hi He. destruct e as [now|now|now]; cbn [hexec] in He.
  - inversion He; subst. destruct Hi. split; cbn; [done| | |].
    + by rewrite history_snoc.
    + intros Hh c Hc. rewrite history_snoc. by apply di_window0.
    + intros _. apply elem_of_app. right. by left.
  - inversion He; subst. destruct Hi. split; cbn; rewrite ?history_snoc; try done.
    intros H. apply elem_of_app. left. by apply di_seen0.
  - pose proof (tick_cases d now) as H. rewrite He in H. destruct H as (H & Hc & _).
    assert (cfg d' = cfg d0) as Hc' by (rewrite Hc; apply Hi).
    destruct H as [Ha Hs Hh Hls Hlo Hcs Ho|Hq Hls Hlo Hp Hh Hcs|p Hq Hls Hlo Hh Hh' Hf Hg Ho Hp].
    + split; [done|congruence|intros; congruence|]. intros [?|?]; congruence.
    + split; [done|congruence| |].
      * intros Hh' c Hc''. rewrite Hh in Hh'. rewrite (Hcs Hh') in Hc''.
        destruct (d_lastSeen d =? d_lastObserved d) eqn:Hf; unbool; [done|]. injection Hc'' as <-.
        by apply (tick_window d0).
      * rewrite Hls, Hlo, Hh. intros [?|?]; [done|]. apply elem_of_app. left. apply Hi. by right.
    + split; [done|congruence|intros; congruence|]. rewrite Hls, Hlo. intros _.
      apply elem_of_app. left. apply Hi. by left.
Qed.

Lemma init_inv d0 t0 : driver_inv d0 [] (init d0 t0).1.
Proof. unfold init, setHealthy. destruct d0 as [? ? ? ? ? ? ? ? []]; cbn; split; cbn; try done; by intros [?|?]. Qed.

Lemma hrun_inv d0 t0 es : driver_inv d0 es (hrun (init d0 t0).1 es).1.
Proof.
  induction es as [|e es IH] using rev_ind; [apply init_inv|].
  rewrite hrun_app. destruct (hrun _ es) as [d1 o1]. cbn [hrun].
  destruct (hexec d1 e) as [d2 o2] eqn:He. by eapply hexec_inv.
Qed.

(** Edges starting from state [h]: each one flips it. *)
Fixpoint alternates (h : bool) (l : list bool) : Prop :=
  match l with [] => True | b :: l' => b = negb h ∧ alternates b l' end.

Lemma alternates_app h l k : alternates h l → alternates (default h (last l)) k → alternates h (l ++ k).
Proof.
  revert h. induction l as [|b l IH]; intros h Hl Hk; [done|]. destruct Hl as [-> Hl]. split; [done|].
  apply IH; [done|]. rewrite last_cons in Hk. by destruct (last l).
Qed.

Lemma hexec_edges d e d' out :
  hexec d e = (d', out) →
  alternates (d_healthy d) (edges out) ∧ d_healthy d' = default (d_healthy d) (last (edges out)).
Proof.
  intros He. destruct e as [now|now|now]; cbn [hexec] in He; [by inversion He..|].
  pose proof (tick_cases d now) as H. rewrite He in H. destruct H as (H & _).
  destruct H as [Ha Hs Hh Hls Hlo Hcs ->|Hq Hls Hlo Hp Hh Hcs|p Hq Hls Hlo Hh Hh' Hf Hg -> Hp].
  - rewrite edges_app, edges_reconnects, app_nil_r, Hh. by destruct (d_healthy d).
  - by rewrite (probeOnly_edges _ Hp), Hh.
  - change (edges (OnHealth true :: p)) with (true :: edges p). by rewrite (probeOnly_edges p Hp), Hh, Hh'.
Qed.

Lemma hrun_edges d es d' out :
  hrun d es = (d', out) →
  alternates (d_healthy d) (edges out) ∧ d_healthy d' = default (d_healthy d) (last (edges out)).
Proof.
  revert d out. induction es as [|e es IH]; intros d out H; cbn [hrun] in H; [by inversion H|].
  destruct (hexec d e) as [d1 o1] eqn:He. destruct (hrun d1 es) as [d2 o2] eqn:Hr. inversion H; subst.
  destruct (hexec_edges _ _ _ _ He) as [Ha1 Hh1]. destruct (IH _ _ Hr) as [Ha2 Hh2].
  rewrite edges_app, last_app, Hh2, Hh1. rewrite Hh1 in Ha2. split; [by apply alternates_app|].
  by destruct (last (edges o2)).
Qed.

(** ** Properties *)

(** The driver starts unhealthy and its callback sees a strict
    alternation of up and down edges, the first one up; the last edge always is
    the current state. *)
Theorem edges_alternate interval timeout upGrace links t0 es :
  let '(d0, out0) := init (New interval timeout upGrace links) t0 in
  let '(d, out) := hrun d0 es in
  out0 = [] ∧ alternates false (edges out) ∧ d_healthy d = default false (last (edges out)).
Proof.
  destruct (init _ t0) as [d0 out0] eqn:Hi. destruct (hrun d0 es) as [d out] eqn:Hr.
  inversion Hi; subst. split; [done|]. by apply hrun_edges in Hr.
Qed.

(** Claim C19.  The driver comes up only after sustained liveness: when a tick
    turns it healthy, the history ends with a run of ticks, each preceded by a
    returned packet since the tick before, that spans at least [upGrace]. *)
Theorem up_needs_grace d0 t0 es now :
  d_healthy (hrun (init d0 t0).1 es).1 = false →
  d_healthy (hrun (init d0 t0).1 (es ++ [EvTick now])).1 = true →
  ∃ pre c suf, (history (es ++ [EvTick now])).2 = pre ++ (c, true) :: suf ∧
    Forall (λ x, x.2 = true) suf ∧ d_upGrace d0 ≤ now - c.
Proof.
  intros Hf Ht. pose proof (hrun_inv d0 t0 es) as Hi. rewrite hrun_app in Ht.
  destruct (hrun _ es) as [d o1]. cbn [hrun hexec fst] in *.
  pose proof (tick_cases d now) as H. destruct (tick d now) as [d' o2]. destruct H as (H & _). cbn in Ht.
  destruct H as [Ha Hs Hh Hls Hlo Hcs Ho|Hq Hls Hlo Hp Hh Hcs|p Hq Hls Hlo Hh Hh' Hfr Hg Ho Hp]; [congruence..|].
  destruct (tick_window d0 es d now Hi Hf Hfr) as (pre & suf & Hl & Hs).
  exists pre, (default now (d_candidateSince d)), suf. split; [done|]. split; [done|].
  assert (d_upGrace d = d_upGrace d0) as <-; [|lia]. pose proof (di_cfg _ _ _ Hi) as Hc. unfold cfg in Hc. congruence.
Qed.

(** At a fixed cadence, a driver that is healthy after a tick heard a
    packet within the timeout before it: silence is always noticed. *)
Theorem healthy_means_heard d0 t0 es now :
  0 < d_interval d0 → d_healthy (hrun (init d0 t0).1 (es ++ [EvTick now])).1 = true →
  ∃ t, EvSeen t ∈ es ∧ now - t ≤ d_timeout d0.
Proof.
  intros Hiv Ht. pose proof (hrun_inv d0 t0 es) as Hi. rewrite hrun_app in Ht.
  destruct (hrun _ es) as [d o1]. cbn [hrun hexec fst] in *.
  pose proof (tick_cases d now) as H. destruct (tick d now) as [d' o2]. destruct H as (H & _). cbn in Ht.
  pose proof (di_cfg _ _ _ Hi) as Hc. unfold cfg in Hc. injection Hc as Hci Hct _ _.
  assert (now - d_lastSeen d ≤ d_timeout d0 → EvSeen (d_lastSeen d) ∈ es → ∃ t, EvSeen t ∈ es ∧ now - t ≤ d_timeout d0)
    as Hdone by (intros; by eexists).
  assert (active d now = true) as Hact.
  { unfold active. by rewrite Hci, (proj2 (Z.ltb_lt _ _) Hiv). }
  assert (effectiveSeen d now = d_lastSeen d) as Heff.
  { unfold effectiveSeen. rewrite Hci. by destruct (Z.eqb_spec (d_interval d0) 0); [lia|]. }
  destruct H as [Ha Hs Hh Hls Hlo Hcs Ho|Hq Hls Hlo Hp Hh Hcs|p Hq Hls Hlo Hh Hh' Hfr Hg Ho Hp]; [congruence|..];
    specialize (Hq Hact); rewrite Heff, Hct in Hq; (apply Hdone; [done|]); apply Hi; [right; congruence|by left].
Qed.

(** A tick of an active driver that heard nothing for longer than
    the timeout leaves it unhealthy, emits the down edge only if it was healthy,
    reconnects every link once in order and sends no probe; any other tick (an
    idle lazy driver's in particular) reconnects nothing and takes nothing down. *)
Theorem reconnects_on_silence d now :
  let '(d', out) := tick d now in
  if active d now && (d_timeout d <? now - effectiveSeen d now) then
    d_healthy d' = false ∧
    out = (if d_healthy d then [OnHealth false] else []) ++ map Reconnect (seq 0 (d_links d))
  else (∀ l, ¬ Reconnect l ∈ out) ∧ ¬ OnHealth false ∈ out ∧ (d_healthy d = true → d_healthy d' = true).
Proof.
  pose proof (tick_cases d now) as H. destruct (tick d now) as [d' out]. destruct H as (H & _).
  assert (∀ p, probeOnly p → ∀ x, x ∈ p → ∃ n, x = Probe (EncodePing n)) as Hpo.
  { intros p [-> |[n ->]] x; [by intros ?%elem_of_nil|]. intros ->%list_elem_of_singleton. by eexists. }
  destruct H as [Ha Hs Hh Hls Hlo Hcs ->|Hq Hls Hlo Hp Hh Hcs|p Hq Hls Hlo Hh Hh' Hfr Hg -> Hp].
  - rewrite Ha, (proj2 (Z.ltb_lt _ _) Hs). done.
  - destruct (_ && _) eqn:Hc; unbool; [specialize (Hq H); lia|]. rewrite Hh.
    split; [|split; [|done]]; [intros l|]; intros [n ?]%(Hpo _ Hp); done.
  - destruct (_ && _) eqn:Hc; unbool; [specialize (Hq H); lia|].
    split; [|split; [|done]]; [intros l|]; intros [?|[n ?]%(Hpo _ Hp)]%elem_of_cons; done.
Qed.

(** A probed link at a cadence of 10 with a timeout of 25 and a grace of 10:
    up at the second fresh tick, then silence. *)
Definition demoHistory : list hevent := [EvTick 10; EvSeen 15; EvTick 20; EvSeen 25].

Lemma up_needs_grace_witness :
  ∃ pre c suf, (history (demoHistory ++ [EvTick 30])).2 = pre ++ (c, true) :: suf ∧
    Forall (λ x, x.2 = true) suf ∧ 10 ≤ 30 - c.
Proof. apply (up_needs_grace (New 10 25 10 2) 0 demoHistory 30); by vm_compute. Defined.

Lemma healthy_means_heard_witness : ∃ t, EvSeen t ∈ demoHistory ∧ 30 - t ≤ 25.
Proof. apply (healthy_means_heard (New 10 25 10 2) 0 demoHistory 30); [done|by vm_compute]. Defined.
