(* ===== verification/Control.v ===== *)
(** * internal/proto, internal/conn/{control,auth,util}.go: authenticated control data

    The control datagrams of the UDP carrier, the header tokens of the HTTP
    carrier, owner ids in headers, and the freshness stamps.  Datagrams and
    header values are lists of bytes. *)

From Stdlib Require Import Sorted.
From S2P Require Import Prelude GoBytes Sha256 Wire.
Local Open Scope Z_scope.

(** ** proto.go *)

Definition MsgRegister : Z := 0x01.
Definition MsgKeepalive : Z := 0x02.
Definition MsgData : Z := 0x03.
Definition MsgPong : Z := 0x04.
Definition MsgAssignID : Z := 0x05.

(** ** control.go *)

Definition controlLen : nat := 1 + OwnerLen + 1 + 8 + 8.

Definition controlBody (typ : Z) (id : Owner) (fl ts : Z) : list Z :=
  [typ] ++ ownerBytes id ++ [fl] ++ be_bytes 8 ts.

Definition encodeControl (typ : Z) (id : Owner) (fl ts : Z) (key : list Z) : list Z :=
  let body := controlBody typ id fl ts in
  body ++ Tag key body.

(** Type, id, flags and stamp; [None] is [errBadControl]. *)
Definition decodeControl (data key : list Z) : option (Z * Owner * Z * Z) :=
  if negb (length data =? controlLen)%nat then None
  else
    let body := take (length data - 8) data in
    let tag := drop (length data - 8) data in
    if negb (VerifyTag key body tag) then None
    else Some (byteAt body 0, ownerFrom (take OwnerLen (drop 1 body)),
               byteAt body (1 + OwnerLen), be_val (take 8 (drop (1 + OwnerLen + 1) body))).

(** ** auth.go *)

Definition authDomainReg : string := "dn-http-reg".
Definition authDomainAssign : string := "dn-http-id".
Definition authTokenLen : nat := 8 + 8.

Definition authMsg (domain : string) (id : Owner) (ts : Z) : list Z :=
  strBytes domain ++ ownerBytes id ++ be_bytes 8 ts.

Definition authToken (key : list Z) (domain : string) (id : Owner) (ts : Z) : list Z :=
  hexEncode (be_bytes 8 ts ++ Tag key (authMsg domain id ts)).

Definition verifyAuthToken (key : list Z) (domain : string) (id : Owner) (hexTok : list Z) : option Z :=
  match hexDecode hexTok with
  | None => None
  | Some raw =>
      if negb (length raw =? authTokenLen)%nat then None
      else
        let ts := be_val (take 8 raw) in
        let tag := drop 8 raw in
        if negb (VerifyTag key (authMsg domain id ts) tag) then None
        else Some ts
  end.

Definition sigHeaderName (idHeader : string) : string := idHeader +:+ "-Sig".

(** ** util.go *)

(** [randomOwner]: the first non-zero draw. *)
Fixpoint randomOwner (draws : list Owner) : option Owner :=
  match draws with
  | [] => None
  | o :: draws' => if negb (IsZero o) then Some o else randomOwner draws'
  end.

Definition ownerHex (o : Owner) : list Z := hexEncode (ownerBytes o).

Definition parseOwnerHex (s : list Z) : Owner :=
  match hexDecode s with
  | None => zeroOwner
  | Some b => if negb (length b =? OwnerLen)%nat then zeroOwner else ownerFrom b
  end.

(** ** udp.go: nextTS *)

(** One attempt of the compare-and-swap loop: the stamp computed from the
    clock reading and the value [prev] loaded, and the counter after the swap
    if it still held [prev]. *)
Definition nextTSAttempt (now prev : Z) : Z :=
  if now <=? prev then wrap 64 (prev + 1) else now.
Definition nextTSSwap (lastTS now prev : Z) : option Z :=
  if lastTS =? prev then Some (nextTSAttempt now prev) else None.

(** Concurrent callers: each event is a goroutine (by number) reading the
    clock, loading the counter or trying its swap. *)
Inductive tsEvent :=
| TsNow (g : nat) (now : Z)
| TsLoad (g : nat)
| TsSwap (g : nat).

Record tsState := MkTs {
  ts_last : Z;                      (** the atomic counter *)
  ts_now : gmap nat Z;              (** clock readings *)
  ts_prev : gmap nat Z;             (** loaded values *)
  ts_out : list Z;                  (** stamps returned, oldest first *)
}.

Definition tsStep (s : tsState) (e : tsEvent) : tsState :=
  match e with
  | TsNow g now => MkTs (ts_last s) (<[g := wrap 64 now]> (ts_now s)) (ts_prev s) (ts_out s)
  | TsLoad g => MkTs (ts_last s) (ts_now s) (<[g := ts_last s]> (ts_prev s)) (ts_out s)
  | TsSwap g =>
      match ts_now s !! g, ts_prev s !! g with
      | Some now, Some prev =>
          match nextTSSwap (ts_last s) now prev with
          | Some ts => MkTs ts (ts_now s) (ts_prev s) (ts_out s ++ [ts])
          | None => MkTs (ts_last s) (ts_now s) (delete g (ts_prev s)) (ts_out s)
          end
      | _, _ => s
      end
  end.

Definition tsRun (s : tsState) (es : list tsEvent) : tsState := fold_left tsStep es s.
Definition tsInit : tsState := MkTs 0 ∅ ∅ [].

(** ** Lemmas *)

Lemma length_controlBody typ id fl ts : length (controlBody typ id fl ts) = 14%nat.
Proof. unfold controlBody. rewrite !length_app, length_be_bytes. done. Qed.

Lemma be_val_be8 ts : u64 ts → be_val (be_bytes 8 ts) = ts.
Proof. intros H. rewrite be_val_bytes. apply Z.mod_small. cbn in *. lia. Qed.

Lemma decode_encode typ id fl ts key :
  u64 ts → decodeControl (encodeControl typ id fl ts key) key = Some (typ, id, fl, ts).
Proof.
  intros Hts. unfold decodeControl, encodeControl. cbv zeta.
  rewrite length_app, length_controlBody, length_Tag. cbn [Nat.eqb negb Nat.sub Nat.add controlLen OwnerLen].
  rewrite take_app_exact, drop_app_exact by apply length_controlBody. rewrite VerifyTag_self. cbn [negb].
  unfold controlBody. destruct id as [a b c d]. cbn [app take drop ownerBytes ow0 ow1 ow2 ow3 Nat.add OwnerLen].
  rewrite (take_ge (be_bytes 8 ts)) by (rewrite length_be_bytes; lia). by rewrite be_val_be8.
Qed.

Lemma bytes14 (l : list Z) : length l = 14%nat → Forall u8 l →
  l = controlBody (byteAt l 0) (ownerFrom (take OwnerLen (drop 1 l))) (byteAt l 5) (be_val (take 8 (drop 6 l))).
Proof.
  intros Hl Hu. unfold controlBody.
  do 6 (destruct l as [|? l]; [done|]). cbn in Hl. repeat (apply Forall_cons_1 in Hu as [? Hu]).
  assert (length l = 8)%nat as Hl8 by lia. cbn [take drop OwnerLen byteAt nth app].
  rewrite (take_ge l) by lia. rewrite <- Hl8 at 1. by rewrite be_bytes_val.
Qed.

Lemma authMsg_length domain id ts : length (authMsg domain id ts) = (length (strBytes domain) + 12)%nat.
Proof. unfold authMsg. rewrite !length_app, length_be_bytes, length_ownerBytes. unfold OwnerLen. lia. Qed.

Lemma authMsg_inj domain id ts id' ts' :
  u64 ts → u64 ts' → authMsg domain id ts = authMsg domain id' ts' → id = id' ∧ ts = ts'.
Proof.
  intros Hts Hts' H. unfold authMsg in H. apply app_inv_head in H.
  assert (ownerBytes id = ownerBytes id' ∧ be_bytes 8 ts = be_bytes 8 ts') as [Ho Hb].
  { apply app_inj_1; [done|exact H]. }
  split.
  - destruct id, id'. by injection Ho as -> -> -> ->.
  - by rewrite <- (be_val_be8 ts), <- (be_val_be8 ts'), Hb.
Qed.

(** Invariant of the stamp counter after at most [k] events, for clock readings
    up to [top]: the stamps handed out increase strictly up to the counter. *)
Record ts_ok (top k : Z) (s : tsState) : Prop := {
  to_sorted : StronglySorted Z.lt (ts_out s);
  to_last : Forall (λ t, t ≤ ts_last s) (ts_out s);
  to_range : 0 ≤ ts_last s ≤ top + k;
  to_now : ∀ g now, ts_now s !! g = Some now → 0 ≤ now ≤ top;
}.

Lemma sorted_snoc (l : list Z) t : StronglySorted Z.lt l → Forall (λ x, x < t) l → StronglySorted Z.lt (l ++ [t]).
Proof.
  induction 1 as [|x l Hs IH Hx]; intros Hl; simpl; [by repeat constructor|].
  apply Forall_cons_1 in Hl as [Hxt Hl]. constructor; [by apply IH|]. apply Forall_app. split; [done|by constructor].
Qed.

Lemma nextTSAttempt_range top now prev :
  0 ≤ prev → 0 ≤ now ≤ top → prev < 2 ^ 64 - 1 →
  prev < nextTSAttempt now prev ∧ now ≤ nextTSAttempt now prev ∧
  nextTSAttempt now prev ≤ Z.max top (prev + 1).
Proof.
  intros Hp Hn Hm. unfold nextTSAttempt. destruct (now <=? prev) eqn:H; unbool; [|lia].
  rewrite wrap_small; lia.
Qed.

Lemma tsStep_ok top k s e :
  0 ≤ k → top + k < 2 ^ 64 - 1 → (∀ g now, e = TsNow g now → 0 ≤ now ≤ top) →
  ts_ok top k s → ts_ok top (k + 1) (tsStep s e).
Proof.
  intros Hk Hmax He [Hs Ht Hr Hn].
  assert (ts_ok top (k + 1) s) as Hok by (split; [done..|lia|done]).
  destruct e as [g now|g|g]; simpl; [| |].
  - split; simpl; [done..|lia|]. intros g' now' [[_ <-]|[_ H]]%lookup_insert_Some; [|by eapply Hn].
    specialize (He g now eq_refl). rewrite wrap_small; lia.
  - by split; simpl; [done..|lia|].
  - destruct (ts_now s !! g) as [now|] eqn:Hg; [|done]. destruct (ts_prev s !! g) as [prev|]; [|done].
    unfold nextTSSwap. destruct (ts_last s =? prev) eqn:Heq; unbool; [|split; simpl; [done..|lia|done]].
    subst prev. destruct (nextTSAttempt_range top now (ts_last s)) as (H1 & _ & H3); [lia|by eapply Hn|lia|].
    split; simpl; [| |lia|done].
    + apply sorted_snoc; [done|]. eapply Forall_impl; [exact Ht|]. simpl. intros. lia.
    + apply Forall_app. split; [|by constructor]. eapply Forall_impl; [exact Ht|]. simpl. intros. lia.
Qed.

Lemma tsRun_ok top es k s :
  0 ≤ k → top + k + zlen es < 2 ^ 64 → (∀ g now, TsNow g now ∈ es → 0 ≤ now ≤ top) →
  ts_ok top k s → ts_ok top (k + zlen es) (tsRun s es).
Proof.
  revert k s. induction es as [|e es IH]; intros k s Hk Hmax Hes Hok.
  { unfold zlen. simpl. by rewrite Z.add_0_r. }
  unfold zlen in *. cbn [length tsRun fold_left] in *. rewrite Nat2Z.inj_succ in *.
  replace (k + Z.succ (Z.of_nat (length es))) with ((k + 1) + Z.of_nat (length es)) by lia. apply IH; [lia|lia| |].
  - intros g now Hin. apply (Hes g now). by right.
  - apply tsStep_ok; [done|lia| |done]. intros g now ->. apply (Hes g now). by left.
Qed.

Lemma encodeControl_u8 typ id fl ts key :
  u8 typ → Forall u8 (ownerBytes id) → u8 fl → Forall u8 (encodeControl typ id fl ts key).
Proof.
  intros Ht Hi Hf. unfold encodeControl, controlBody. repeat apply Forall_app_2;
    [by constructor|done|by constructor|apply be_bytes_u8|apply Tag_u8].
Qed.

(** A token verifies to its stamp; an id survives its header. *)
Lemma verify_token key domain id ts :
  u64 ts → verifyAuthToken key domain id (authToken key domain id ts) = Some ts.
Proof.
  intros Hts. unfold verifyAuthToken, authToken. rewrite hexDecode_encode.
  2:{ apply Forall_app. split; [apply be_bytes_u8|apply Tag_u8]. }
  rewrite length_app, length_be_bytes, length_Tag. cbn [Nat.eqb negb authTokenLen Nat.add].
  rewrite take_app_exact, drop_app_exact, be_val_be8 by (done || apply length_be_bytes).
  by rewrite VerifyTag_self.
Qed.

Lemma parse_ownerHex o : Forall u8 (ownerBytes o) → parseOwnerHex (ownerHex o) = o.
Proof. intros Hu. unfold parseOwnerHex, ownerHex. rewrite hexDecode_encode by done. by destruct o. Qed.

(** ** Properties *)

(** Claim C18.  Control datagrams round-trip, and nothing else is accepted: a
    datagram of bytes decodes to a type, id, flags and stamp exactly when it is
    the encoding of these under the connection's key, so a holder of the
    datagram alone cannot change any field without a new tag. *)
Theorem control_authentic data key typ id fl ts :
  Forall u8 data → u64 ts →
  decodeControl data key = Some (typ, id, fl, ts) ↔ data = encodeControl typ id fl ts key.
Proof.
  intros Hu Hts. split; [|intros ->; by apply decode_encode].
  unfold decodeControl. destruct (Nat.eqb_spec (length data) controlLen) as [Hl|]; [|done]. cbn [negb].
  destruct (VerifyTag _ _ _) eqn:Hv; [|done]. cbn [negb]. apply VerifyTag_true in Hv.
  rewrite Hl in *. change (controlLen - 8)%nat with 14%nat in *. change controlLen with 22%nat in Hl.
  intros Heq. injection Heq as Ht Hi Hf Hs.
  assert (length (take 14 data) = 14%nat) as H14 by (rewrite length_take; lia).
  pose proof (bytes14 (take 14 data) H14 (Forall_take _ _ _ Hu)) as Hb.
  assert (byteAt (take 14 data) 5 = fl) as Hf' by exact Hf.
  assert (be_val (take 8 (drop 6 (take 14 data))) = ts) as Hs' by exact Hs.
  rewrite Ht, Hi, Hf', Hs' in Hb. unfold encodeControl. cbv zeta. rewrite <- Hb, Hv. by rewrite take_drop.
Qed.

(** Header tokens: the token built for a domain, an id and a stamp
    verifies to that stamp; whatever verifies decodes to the stamp and the tag
    of exactly this domain, id and stamp. *)
Theorem auth_token_authentic key domain id ts tok :
  u64 ts →
  verifyAuthToken key domain id (authToken key domain id ts) = Some ts ∧
  (verifyAuthToken key domain id tok = Some ts →
   ∃ raw, hexDecode tok = Some raw ∧ be_val (take 8 raw) = ts ∧ drop 8 raw = Tag key (authMsg domain id ts)).
Proof.
  intros Hts. split.
  - by apply verify_token.
  - unfold verifyAuthToken. destruct (hexDecode tok) as [raw|]; [|done]. destruct (negb _); [done|].
    destruct (VerifyTag _ _ _) eqn:Hv; cbn [negb]; [|done]. apply VerifyTag_true in Hv.
    intros [= <-]. by exists raw.
Qed.

(** The tagged messages of the three uses of a key (control
    datagrams, registration tokens, id assignments) never coincide, and within
    one use the message determines its id and stamp, so a tag made for one
    message says nothing else. *)
Theorem tag_domains_disjoint typ idc fl tsc id ts id' ts' :
  u64 ts → u64 ts' →
  controlBody typ idc fl tsc ≠ authMsg authDomainReg id ts ∧
  controlBody typ idc fl tsc ≠ authMsg authDomainAssign id ts ∧
  authMsg authDomainReg id ts ≠ authMsg authDomainAssign id' ts' ∧
  (∀ domain, authMsg domain id ts = authMsg domain id' ts' → id = id' ∧ ts = ts').
Proof.
  intros Hts Hts'. split; [|split; [|split]].
  - intros H%(f_equal length). rewrite length_controlBody, authMsg_length in H. done.
  - intros H%(f_equal length). rewrite length_controlBody, authMsg_length in H. done.
  - intros H%(f_equal length). rewrite !authMsg_length in H. done.
  - intros domain. by apply authMsg_inj.
Qed.

(** An owner id survives its header representation, and a header
    that is not eight hex digits stands for no id. *)
Theorem owner_header_roundtrip o s :
  Forall u8 (ownerBytes o) →
  parseOwnerHex (ownerHex o) = o ∧ length (ownerHex o) = 8%nat ∧
  (length s ≠ 8%nat → parseOwnerHex s = zeroOwner).
Proof.
  intros Hu. unfold ownerHex. split; [by apply parse_ownerHex|split].
  - by rewrite length_hexEncode.
  - intros Hs. unfold parseOwnerHex. destruct (hexDecode s) as [b|] eqn:Hb; [|done].
    destruct (Nat.eqb_spec (length b) OwnerLen) as [Hl|]; [|done].
    destruct Hs. apply hexDecode_length in Hb. by rewrite Hb, Hl.
Qed.

(** However many senders draw stamps concurrently and whatever their
    clocks read, the stamps handed out increase strictly in the order they are
    taken: no two control datagrams of a connection carry the same stamp. *)
Theorem stamps_increase top es :
  0 ≤ top → (∀ g now, TsNow g now ∈ es → 0 ≤ now ≤ top) → top + zlen es < 2 ^ 64 →
  StronglySorted Z.lt (ts_out (tsRun tsInit es)).
Proof.
  intros Htop Hes Hmax. eapply to_sorted. apply (tsRun_ok top es 0 tsInit); [done|lia|done|].
  split; [constructor|constructor|simpl; lia|]. intros g now. simpl. by rewrite lookup_empty.
Qed.

Lemma control_authentic_witness :
  decodeControl (encodeControl MsgRegister (MkOwner 1 2 3 4) 0 77 (KeyFromPSK "psk")) (KeyFromPSK "psk") =
    Some (MsgRegister, MkOwner 1 2 3 4, 0, 77).
Proof.
  apply control_authentic; [|done|done].
  apply encodeControl_u8; [done| |done]. repeat constructor; cbn; lia.
Defined.

Lemma auth_token_authentic_witness :
  verifyAuthToken (KeyFromPSK "psk") authDomainReg zeroOwner (authToken (KeyFromPSK "psk") authDomainReg zeroOwner 5) = Some 5.
Proof. by apply (auth_token_authentic (KeyFromPSK "psk") authDomainReg zeroOwner 5 []). Defined.

Lemma tag_domains_disjoint_witness :
  authMsg authDomainReg zeroOwner 5 ≠ authMsg authDomainAssign (MkOwner 1 0 0 0) 6.
Proof. by apply (tag_domains_disjoint MsgRegister zeroOwner 0 5 zeroOwner 5 (MkOwner 1 0 0 0) 6). Defined.

Lemma owner_header_roundtrip_witness : parseOwnerHex (ownerHex (MkOwner 0xde 0xad 0xbe 0xef)) = MkOwner 0xde 0xad 0xbe 0xef.
Proof. apply (owner_header_roundtrip _ []). by repeat constructor. Defined.

(** Two senders racing: the second swap of goroutine 1 fails and is retried. *)
Definition stampRace : list tsEvent :=
  [TsNow 1 100; TsNow 2 90; TsLoad 1; TsLoad 2; TsSwap 2; TsSwap 1; TsLoad 1; TsSwap 1; TsLoad 2; TsSwap 2].
Lemma stamps_increase_witness : ts_out (tsRun tsInit stampRace) = [90; 100; 101] ∧ StronglySorted Z.lt (ts_out (tsRun tsInit stampRace)).
Proof.
  split; [by vm_compute|]. apply (stamps_increase 100); [lia| |by vm_compute].
  intros g now Hin. unfold stampRace in Hin. repeat (apply elem_of_cons in Hin as [[= -> ->]|Hin] || apply elem_of_cons in Hin as [?|Hin]; try lia; try done).
  by apply elem_of_nil in Hin.
Defined.
