(* ===== verification/Udp.v ===== *)
(** * internal/conn/udp.go: the UDP carrier

    The four UDP connections over any datagram cipher of the interface
    [DatagramCipher].  Sockets are numbers, a peer address is its string form;
    dialling and the success of a write are arguments, written datagrams are
    outputs.  The state a send reuses (the scratch buffer with its stale bytes)
    is kept. *)

From S2P Require Import Prelude GoBytes Sha256 Wire ChaCha Cipher Control Peers.
Local Open Scope Z_scope.

(** ** splitGRO *)

(** [n] is the byte count of the read; the fuel bounds the iterations and
    [splitGRO] gives one per byte. *)
Fixpoint splitLoop (fuel : nat) (buf : list Z) (n segSize off : Z) : list (list Z) :=
  match fuel with
  | O => []
  | S fuel' =>
      if off <? n then
        let dlen := n - off in
        let dlen := if (0 <? segSize) && (segSize <? dlen) then segSize else dlen in
        take (Z.to_nat dlen) (drop (Z.to_nat off) buf) :: splitLoop fuel' buf n segSize (off + dlen)
      else []
  end.
Definition splitGRO (buf : list Z) (n segSize : Z) : list (list Z) := splitLoop (Z.to_nat n) buf n segSize 0.

Inductive netOut :=
| WriteSock (sock : nat) (dg : list Z)
| CloseSock (sock : nat)
| WriteTo (addr : string) (dg : list Z).

Inductive udpErr := ErrDial | ErrWrite | ErrSeal (e : ioerr) | ErrNotDialed.

Section udp.
Context {P : Type} `{DatagramCipher P}.

(** ** udpConnectOut *)

Record udpConnectOut := MkConnectOut {
  co_cipher : P;
  co_conn : option nat;
  co_buf : list Z;     (** the backing array of the reused scratch buffer *)
}.

(** [buf[:need]], or a fresh zeroed buffer when the capacity is short. *)
Definition scratch (buf : list Z) (need : nat) : list Z :=
  if (length buf <? need)%nat then replicate need 0 else take need buf.

(** What the buffer holds after a reslice to [need] bytes were overwritten. *)
Definition rebuf (buf region : list Z) : list Z :=
  if (length buf <? length region)%nat then region else region ++ drop (length region) buf.

Definition coStart (c : udpConnectOut) (dial : option nat) : udpConnectOut :=
  match dial with
  | Some s => MkConnectOut (co_cipher c) (Some s) (co_buf c)
  | None => c
  end.

(** The part of [Send] after the connection is there. *)
Definition coWrite (c : udpConnectOut) (s : nat) (draw : Z * Z) (wok : bool) (e : Envelope) (payload : list Z)
    : udpConnectOut * list netOut * (bool * option udpErr) :=
  let hdr := dc_overhead (co_cipher c) in
  let need := (hdr + EnvelopeLen + length payload)%nat in
  let region := splice (scratch (co_buf c) need) hdr (PutEnvelope e payload) in
  match dc_sealInPlace (co_cipher c) draw region with
  | Err err => (MkConnectOut (co_cipher c) (Some s) (rebuf (co_buf c) region), [], (true, Some (ErrSeal err)))
  | Ok dg =>
      let buf := rebuf (co_buf c) dg in
      if wok then (MkConnectOut (co_cipher c) (Some s) buf, [WriteSock s dg], (true, None))
      else (MkConnectOut (co_cipher c) None buf, [CloseSock s], (true, Some ErrWrite))
  end.

Definition coSend (c : udpConnectOut) (dial : option nat) (draw : Z * Z) (wok : bool) (e : Envelope) (payload : list Z)
    : udpConnectOut * list netOut * (bool * option udpErr) :=
  match co_conn c with
  | Some s => coWrite c s draw wok e payload
  | None =>
      match dial with
      | None => (c, [], (true, Some ErrDial))
      | Some s => coWrite (MkConnectOut (co_cipher c) (Some s) (co_buf c)) s draw wok e payload
      end
  end.

Definition coReconnect (c : udpConnectOut) (dial : option nat) : udpConnectOut * list netOut * option udpErr :=
  match dial with
  | None => (c, [], Some ErrDial)
  | Some s => (MkConnectOut (co_cipher c) (Some s) (co_buf c),
               match co_conn c with Some old => [CloseSock old] | None => [] end, None)
  end.

(** ** Receiving *)

Inductive received :=
| Deliver (e : Envelope) (payload : list Z)  (** handed to the ingress *)
| Drop                                       (** [onDrop] called *)
| Assign (id : Owner)                        (** the id setter called *)
| Ignore.

(** [udpListenIn.deliver], and the [MsgData] case of [handleDatagram]. *)
Definition deliver (cipher : P) (datagram : list Z) : received :=
  match dc_open cipher datagram with
  | Err _ => Drop
  | Ok blob =>
      match ParseEnvelope blob with
      | Some (e, payload) => if negb (PlausibleIP payload) then Drop else Deliver e payload
      | None => Drop
      end
  end.

Record udpConnectIn := MkConnectIn {
  ci_cipher : P;
  ci_key : list Z;
  ci_conn : option nat;
  ci_curID : Owner;
  ci_lastTS : Z;
}.

Definition setCurID (c : udpConnectIn) (id : Owner) : udpConnectIn :=
  MkConnectIn (ci_cipher c) (ci_key c) (ci_conn c) id (ci_lastTS c).

Definition handleDatagram (c : udpConnectIn) (dg : list Z) : udpConnectIn * received :=
  match dg with
  | [] => (c, Ignore)
  | t :: body =>
      if t =? MsgData then (c, deliver (ci_cipher c) body)
      else if t =? MsgAssignID then
        match decodeControl dg (ci_key c) with
        | Some (typ, id, _, _) => if negb (typ =? MsgAssignID) then (c, Ignore) else (setCurID c id, Assign id)
        | None => (c, Ignore)
        end
      else (c, Ignore)
  end.

(** [nextTS] when no other stamp is drawn meanwhile, then the write. *)
Definition sendControl (c : udpConnectIn) (typ now : Z) : udpConnectIn * list netOut * option udpErr :=
  match ci_conn c with
  | None => (c, [], Some ErrNotDialed)
  | Some s =>
      let ts := nextTSAttempt (wrap 64 now) (ci_lastTS c) in
      (MkConnectIn (ci_cipher c) (ci_key c) (ci_conn c) (ci_curID c) ts,
       [WriteSock s (encodeControl typ (ci_curID c) 0 ts (ci_key c))], None)
  end.

Definition ciReconnect (c : udpConnectIn) (dial : option nat) (now : Z) : udpConnectIn * list netOut * option udpErr :=
  match dial with
  | None => (c, [], Some ErrDial)
  | Some s =>
      let c1 := MkConnectIn (ci_cipher c) (ci_key c) (Some s) (ci_curID c) (ci_lastTS c) in
      let '(c2, out, err) := sendControl c1 MsgRegister now in
      (c2, (match ci_conn c with Some old => [CloseSock old] | None => [] end) ++ out, err)
  end.

(** The first steps of [Start]: dial, then register; the loops are events. *)
Definition ciStart (c : udpConnectIn) (dial : option nat) (now : Z) : udpConnectIn * list netOut * option udpErr :=
  match dial with
  | None => (c, [], Some ErrDial)
  | Some s => sendControl (MkConnectIn (ci_cipher c) (ci_key c) (Some s) (ci_curID c) (ci_lastTS c)) MsgRegister now
  end.

(** ** udpListenOut *)

Record udpListenOut := MkListenOut {
  lo_cipher : P;
  lo_key : list Z;
  lo_multiple : bool;
  lo_reg : Registry string;   (** a sink is the address it writes to *)
}.

Definition setReg (c : udpListenOut) (r : Registry string) : udpListenOut :=
  MkListenOut (lo_cipher c) (lo_key c) (lo_multiple c) r.

(** One datagram of the read loop, [dg] from [addr]; [None] only while the
    id source yields nothing usable. *)
Definition loControl (c : udpListenOut) (dg : list Z) (addr : string) (now : Z) (draws : list Owner)
    : option (udpListenOut * list netOut) :=
  match decodeControl dg (lo_key c) with
  | None => Some (c, [])
  | Some (typ, id, _, ts) =>
      if (typ =? MsgRegister) || (typ =? MsgKeepalive) then
        match Register (lo_reg c) id addr ts addr now draws with
        | None => None
        | Some (reg, (assigned, ok)) =>
            let c := setReg c reg in
            if negb ok then Some (c, [])
            else if lo_multiple c then
              if IsZero id then Some (c, [WriteTo addr (encodeControl MsgAssignID assigned 0 ts (lo_key c))])
              else Some (c, [])
            else Some (c, [WriteTo addr [MsgPong]])
        end
      else Some (c, [])
  end.

Definition loAccepts (c : udpListenOut) (owner : Owner) : bool := Accepts (lo_reg c) owner.

(** [Send]; [buf] is the pooled scratch, the first result false when no peer
    is known. *)
Definition loSend (c : udpListenOut) (buf : list Z) (draw : Z * Z) (e : Envelope) (payload : list Z)
    : list netOut * (bool * option udpErr) :=
  match SinkFor (lo_reg c) (Env_Owner e) with
  | (_, false) => ([], (false, None))
  | (sink, true) =>
      let hdr := (1 + dc_overhead (lo_cipher c))%nat in
      let need := (hdr + EnvelopeLen + length payload)%nat in
      let out := <[O := MsgData]> (scratch buf need) in
      let out := splice out hdr (PutEnvelope e payload) in
      match dc_sealInPlace (lo_cipher c) draw (drop 1 out) with
      | Err err => ([], (true, Some (ErrSeal err)))
      | Ok region =>
          match sink with
          | Some addr => ([WriteTo addr (take 1 out ++ region)], (true, None))
          | None => ([], (true, None))  (* not reached: every known peer has a sink *)
          end
      end
  end.

Definition loGC (c : udpListenOut) (now : Z) (order : list (Owner * nat)) : udpListenOut * Z :=
  let '(r, n) := GC (lo_reg c) now order in (setReg c r, n).
End udp.

(** ** Lemmas *)

Definition allButLast {A} (Q : A → Prop) (l : list A) : Prop := ∀ pre x y post, l = pre ++ x :: y :: post → Q x.

Lemma allButLast_cons {A} (Q : A → Prop) x l : (l ≠ [] → Q x) → allButLast Q l → allButLast Q (x :: l).
Proof.
  intros Hx Hl [|a pre] u v post Heq; simplify_list_eq; [by apply Hx|]. by eapply Hl.
Qed.

Lemma splitLoop_spec fuel buf n segSize off :
  0 ≤ off ≤ n → n ≤ zlen buf → n - off ≤ Z.of_nat fuel →
  let l := splitLoop fuel buf n segSize off in
  concat l = take (Z.to_nat (n - off)) (drop (Z.to_nat off) buf) ∧
  Forall (λ s, s ≠ []) l ∧ (off = n → l = []) ∧
  (0 < segSize → Forall (λ s, zlen s ≤ segSize) l ∧ allButLast (λ s, zlen s = segSize) l) ∧
  (segSize ≤ 0 → (length l ≤ 1)%nat).
Proof.
  revert off. induction fuel as [|fuel IH]; intros off Hoff Hn Hfuel l; subst l; cbn [splitLoop].
  { assert (n - off = 0) as -> by lia. split; [done|]. split; [done|]. split; [done|]. split; [|simpl; lia].
      intros _. split; [done|]. by intros [|? pre] ????. }
  destruct (off <? n) eqn:Hlt; unbool.
  2:{ assert (n - off = 0) as -> by lia. split; [done|]. split; [done|]. split; [done|]. split; [|simpl; lia].
      intros _. split; [done|]. by intros [|? pre] ????. }
  set (dlen := if (0 <? segSize) && (segSize <? n - off) then segSize else n - off).
  assert (0 < dlen ≤ n - off ∧ (0 < segSize → dlen ≤ segSize) ∧ (off + dlen ≠ n → dlen = segSize ∧ 0 < segSize)) as (Hd & Hs & Hl).
  { subst dlen. destruct (_ && _) eqn:Hc; unbool; [lia|]. apply andb_false_iff in Hc as [?|?]; unbool; lia. }
  clearbody dlen. specialize (IH (off + dlen) ltac:(lia) Hn ltac:(lia)). cbv zeta in IH.
  destruct IH as (Hcat & Hne & Hend & Hseg & Hone).
  assert (zlen (take (Z.to_nat dlen) (drop (Z.to_nat off) buf)) = dlen) as Hlen by len.
  split; [|split; [|split; [lia|split]]].
  - cbn [concat]. rewrite Hcat.
    replace (Z.to_nat (n - off)) with (Z.to_nat dlen + Z.to_nat (n - (off + dlen)))%nat by lia.
    rewrite <- take_take_drop, drop_drop. do 3 f_equal. lia.
  - constructor; [|done]. intros He. rewrite He in Hlen. unfold zlen in Hlen. simpl in Hlen. lia.
  - intros H0. destruct (Hseg H0) as [H1 H2]. split; [constructor; [lia|done]|].
    apply allButLast_cons; [|done]. intros Hne'. destruct (Z.eq_dec (off + dlen) n) as [He|He]; [by destruct Hne'; apply Hend|].
    rewrite Hlen. by apply Hl.
  - intros H0. destruct (Z.eq_dec (off + dlen) n) as [He|He]; [by rewrite (Hend He)|]. destruct (Hl He). lia.
Qed.

Section laws.
Context {P : Type} `{DatagramLaws P}.

Lemma length_scratch buf need : length (scratch buf need) = need.
Proof. unfold scratch. destruct (Nat.ltb_spec (length buf) need); len. Qed.

(** Whatever the reused buffer held, what is sealed starts with [hdr] stale
    bytes followed by the envelope. *)
Lemma region_spec (out : list Z) hdr e payload :
  length out = (hdr + EnvelopeLen + length payload)%nat →
  splice out hdr (PutEnvelope e payload) = take hdr out ++ PutEnvelope e payload ∧ length (take hdr out) = hdr.
Proof.
  intros Hl. split; [|rewrite length_take; lia].
  apply splice_all. rewrite length_PutEnvelope. lia.
Qed.

Lemma deliver_put (cipher : P) dg e payload :
  dc_open cipher dg = Ok (PutEnvelope e payload) →
  deliver cipher dg = if PlausibleIP payload then Deliver e payload else Drop.
Proof. intros Ho. unfold deliver. rewrite Ho, parse_put_envelope. by destruct (PlausibleIP payload). Qed.

Lemma encodeControl_cons typ id fl ts key : ∃ rest, encodeControl typ id fl ts key = typ :: rest.
Proof. by eexists. Qed.

Lemma coWrite_spec (c : udpConnectOut) s draw e payload :
  Forall u8 (ownerBytes (Env_Owner e)) → Forall u8 payload →
  ∃ c' dg, coWrite c s draw true e payload = (c', [WriteSock s dg], (true, None)) ∧
    co_conn c' = Some s ∧ co_cipher c' = co_cipher c ∧
    length dg = (dc_overhead (co_cipher c) + EnvelopeLen + length payload)%nat ∧
    dc_open (co_cipher c) dg = Ok (PutEnvelope e payload).
Proof.
  intros Ho Hp. unfold coWrite. cbv zeta.
  destruct (region_spec (scratch (co_buf c) (dc_overhead (co_cipher c) + EnvelopeLen + length payload))
    (dc_overhead (co_cipher c)) e payload) as [-> Hl]; [by rewrite length_scratch|].
  destruct (dc_roundtrip (co_cipher c) draw _ (PutEnvelope e payload) Hl) as (dg & Hs & Hdl & Hop);
    [by apply PutEnvelope_u8|].
  rewrite Hs. eexists _, dg. split; [done|]. split; [done|]. split; [done|]. split; [|done].
  rewrite Hdl, length_app, Hl, length_PutEnvelope. lia.
Qed.

Lemma loSend_spec (c : udpListenOut) buf draw e payload addr :
  Forall u8 (ownerBytes (Env_Owner e)) → Forall u8 payload →
  SinkFor (lo_reg c) (Env_Owner e) = (Some addr, true) →
  ∃ body, loSend c buf draw e payload = ([WriteTo addr (MsgData :: body)], (true, None)) ∧
    dc_open (lo_cipher c) body = Ok (PutEnvelope e payload).
Proof.
  intros Ho Hp Hs. unfold loSend. rewrite Hs. cbv zeta.
  set (hdr := (1 + dc_overhead (lo_cipher c))%nat).
  set (out := <[O := MsgData]> _).
  assert (length out = (hdr + EnvelopeLen + length payload)%nat) as Hlen by (subst out; by rewrite length_insert, length_scratch).
  destruct (region_spec out hdr e payload Hlen) as [-> Hl].
  assert (∃ pre, take hdr out = MsgData :: pre ∧ length pre = dc_overhead (lo_cipher c)) as (pre & Hpre & Hlp).
  { subst out. destruct (scratch buf _) as [|b rest] eqn:Hsc.
    - pose proof (length_scratch buf (hdr + EnvelopeLen + length payload)) as Hx. rewrite Hsc in Hx. subst hdr. simpl in Hx. lia.
    - exists (take (dc_overhead (lo_cipher c)) rest). split; [done|]. subst hdr. cbn [Nat.add take length insert list_insert] in Hl.
      simpl in Hl. lia. }
  rewrite Hpre. cbn [app drop take]. rewrite drop_0, take_0. cbn [app].
  destruct (dc_roundtrip (lo_cipher c) draw pre (PutEnvelope e payload) Hlp) as (dg & Hsl & _ & Hop);
    [by apply PutEnvelope_u8|].
  rewrite Hsl. by exists dg.
Qed.

(** ** Properties *)

(** A packet sent through a connected UDP uplink, whatever bytes an
    earlier packet left in the reused buffer, leaves as one datagram of the
    expected size, and a listener with the same cipher hands exactly this
    envelope and packet to routing if the packet is plausible, and drops it
    otherwise. *)
Theorem udp_uplink (c : udpConnectOut) s dial draw e payload :
  Forall u8 (ownerBytes (Env_Owner e)) → Forall u8 payload → co_conn c = Some s →
  ∃ c' dg, coSend c dial draw true e payload = (c', [WriteSock s dg], (true, None)) ∧
    co_conn c' = Some s ∧
    length dg = (dc_overhead (co_cipher c) + EnvelopeLen + length payload)%nat ∧
    deliver (co_cipher c) dg = if PlausibleIP payload then Deliver e payload else Drop.
Proof.
  intros Ho Hp Hs. destruct (coWrite_spec c s draw e payload Ho Hp) as (c' & dg & Hw & Hc & _ & Hl & Hop).
  exists c', dg. unfold coSend. rewrite Hs. split; [done|]. split; [done|]. split; [done|]. by apply deliver_put.
Qed.

(** Downlink: a packet for an owner the listener knows leaves as
    one datagram to the address that owner last registered from, and the
    connecting side hands exactly this envelope and packet to routing (or
    drops an implausible one) without changing its state; for an unknown
    owner nothing is sealed or sent and the router is told to try elsewhere. *)
Theorem udp_downlink (lo : udpListenOut) (ci : udpConnectIn) buf draw e payload :
  Forall u8 (ownerBytes (Env_Owner e)) → Forall u8 payload → lo_cipher lo = ci_cipher ci →
  (∀ addr, SinkFor (lo_reg lo) (Env_Owner e) = (Some addr, true) →
     ∃ dg, loSend lo buf draw e payload = ([WriteTo addr dg], (true, None)) ∧
       handleDatagram ci dg = (ci, if PlausibleIP payload then Deliver e payload else Drop)) ∧
  ((SinkFor (lo_reg lo) (Env_Owner e)).2 = false → loSend lo buf draw e payload = ([], (false, None))).
Proof.
  intros Ho Hp Hc. split.
  - intros addr Hs. destruct (loSend_spec lo buf draw e payload addr Ho Hp Hs) as (body & Hw & Hop).
    exists (MsgData :: body). split; [done|]. unfold handleDatagram. rewrite Z.eqb_refl. f_equal.
    apply deliver_put. by rewrite <- Hc.
  - unfold loSend. destruct (SinkFor _ _) as [sink b]. cbn. by intros ->.
Qed.

(** The registration handshake: a connecting side without an id
    registers from a new address with a listener for many peers that has
    room; the listener answers with a fresh non-zero id, which the connecting
    side adopts, and from then on the listener accepts packets for this id
    and what it sends for it arrives. *)
Theorem udp_handshake (lo : udpListenOut) (ci : udpConnectIn) s addr now now' draws id :
  registry_ok (lo_reg lo) → g_multiple (lo_reg lo) = true → lo_multiple lo = true →
  lo_key lo = ci_key ci → lo_cipher lo = ci_cipher ci →
  ci_conn ci = Some s → ci_curID ci = zeroOwner →
  g_byKey (lo_reg lo) !! addr = None → mintLocked (g_byID (lo_reg lo)) draws = Some id →
  (0 < g_maxPeers (lo_reg lo) → Z.of_nat (size (g_byID (lo_reg lo))) < g_maxPeers (lo_reg lo)) →
  Forall u8 (ownerBytes id) →
  ∃ ci1 dg lo' reply ci2,
    sendControl ci MsgRegister now = (ci1, [WriteSock s dg], None) ∧
    loControl lo dg addr now' draws = Some (lo', [WriteTo addr reply]) ∧
    handleDatagram ci1 reply = (ci2, Assign id) ∧
    ci_curID ci2 = id ∧ id ≠ zeroOwner ∧ loAccepts lo' id = true ∧
    ∀ buf draw processed payload, Forall u8 payload → PlausibleIP payload = true →
      ∃ dg2, loSend lo' buf draw (MkEnvelope id processed) payload = ([WriteTo addr dg2], (true, None)) ∧
        handleDatagram ci2 dg2 = (ci2, Deliver (MkEnvelope id processed) payload).
Proof.
  intros Hr Hm Hlm Hkey Hciph Hconn Hcur Hnew Hmint Hcap Hu8.
  unfold sendControl. rewrite Hconn. set (ts := nextTSAttempt _ _).
  assert (u64 ts) as Hts.
  { subst ts. unfold nextTSAttempt. destruct (_ <=? _); apply wrap_bound; lia. }
  destruct (mintLocked_some _ _ _ Hmint) as (Hz & Hfree & _).
  assert (chooseID (lo_reg lo) zeroOwner addr draws = Some id) as Hch.
  { unfold chooseID. cbn. by rewrite Hnew. }
  assert (∃ reg, Register (lo_reg lo) zeroOwner addr ts addr now' draws = Some (reg, (id, true))) as [reg HR].
  { unfold Register. rewrite Hm, Hch, Hfree. cbn [negb]. destruct (_ && _) eqn:Hc; [|by eexists].
    unbool. lia. }
  destruct (Register_multiple _ _ _ _ _ _ _ _ _ _ Hr Hm HR) as (_ & Hreg & (Hm' & _) & Hz' & Hat & _).
  assert (peerAt reg id = Some (MkPeer id addr (Some addr) now' ts)) as Hp by (rewrite Hat; by case_decide).
  eexists _, _, (setReg lo reg), (encodeControl MsgAssignID id 0 ts (ci_key ci)), _. split; [done|].
  split. { unfold loControl. rewrite Hcur, Hkey, decode_encode by done. cbn [orb Z.eqb MsgRegister Pos.eqb].
    rewrite HR. cbn [negb setReg lo_multiple lo_key]. rewrite Hlm. by rewrite (proj2 (IsZero_true zeroOwner)), Hkey. }
  split. { destruct (encodeControl_cons MsgAssignID id 0 ts (ci_key ci)) as [rest Hrest].
    unfold handleDatagram. rewrite Hrest. change (MsgAssignID =? MsgData) with false.
    change (MsgAssignID =? MsgAssignID) with true. cbn [ci_key]. rewrite <- Hrest, decode_encode by done. done. }
  split; [done|]. split; [done|].
  split. { unfold loAccepts, Accepts. cbn [lo_reg setReg]. rewrite Hm', Hm. cbn.
    apply (peerAt_some reg _ _ Hreg) in Hp as (l & -> & _). done. }
  intros buf draw processed payload Hpl Hplaus.
  destruct (loSend_spec (setReg lo reg) buf draw (MkEnvelope id processed) payload addr) as (body & Hw & Hop);
    [done|done| |].
  { unfold SinkFor. cbn [lo_reg setReg Env_Owner]. by rewrite Hm', Hm, Hp. }
  exists (MsgData :: body). split; [done|]. unfold handleDatagram. rewrite Z.eqb_refl. f_equal.
  rewrite (deliver_put _ body (MkEnvelope id processed) payload); [by rewrite Hplaus|]. cbn. by rewrite <- Hciph.
Qed.
End laws.

(** Splitting a coalesced read loses and invents nothing: the pieces
    concatenate to the bytes read, none is empty, with a segment size every
    piece but the last has exactly this size and the last at most, and without
    one the read is a single piece. *)
Theorem splitGRO_pieces buf n segSize :
  0 ≤ n ≤ zlen buf →
  concat (splitGRO buf n segSize) = take (Z.to_nat n) buf ∧
  Forall (λ s, s ≠ []) (splitGRO buf n segSize) ∧
  (0 < segSize → Forall (λ s, zlen s ≤ segSize) (splitGRO buf n segSize) ∧
                 allButLast (λ s, zlen s = segSize) (splitGRO buf n segSize)) ∧
  (segSize ≤ 0 → (length (splitGRO buf n segSize) ≤ 1)%nat).
Proof.
  intros Hn. unfold splitGRO.
  destruct (splitLoop_spec (Z.to_nat n) buf n segSize 0) as (Hc & Hne & _ & Hs & H1); [lia|lia|lia|].
  rewrite Z.sub_0_r in Hc. done.
Qed.

(** ** A concrete pair of ends *)

Module UdpDemo.
Definition cipher : packetCipher := chacha4Packet (replicate 32 7) 16.
Definition key : list Z := replicate 32 9.
Definition pkt : list Z := [0x45; 0; 0; 20; 0; 0; 0; 0; 64; 6; 0; 0; 10; 0; 0; 1; 1; 1; 1; 1].
Definition up : udpConnectOut := MkConnectOut cipher (Some 3%nat) [1; 2; 3].
Definition dn : udpConnectIn := MkConnectIn cipher key (Some 4%nat) zeroOwner 0.
Definition lo : udpListenOut := MkListenOut cipher key true (New true 50 4).
End UdpDemo.

Lemma UdpDemo_pkt_u8 : Forall u8 UdpDemo.pkt.
Proof. repeat constructor; cbn; lia. Qed.

Lemma udp_uplink_witness :
  ∃ c' dg, coSend UdpDemo.up None (5, 6) true (MkEnvelope ownA false) UdpDemo.pkt = (c', [WriteSock 3%nat dg], (true, None)) ∧
    deliver UdpDemo.cipher dg = Deliver (MkEnvelope ownA false) UdpDemo.pkt.
Proof.
  destruct (udp_uplink UdpDemo.up 3%nat None (5, 6) (MkEnvelope ownA false) UdpDemo.pkt) as (c' & dg & H & _ & _ & Hd).
  - repeat constructor; cbn; lia.
  - apply UdpDemo_pkt_u8.
  - reflexivity.
  - exists c', dg. split; [exact H|exact Hd].
Defined.

(** A listener one peer of which, [ownA], registered from address "a". *)
Definition UdpDemo_reg : Registry string :=
  default (New true 50 4) (fst <$> Register (New true 50 4) ownA "a" 10 "a"%string 100 []).

Lemma udp_downlink_witness :
  ∃ dg, loSend (setReg UdpDemo.lo UdpDemo_reg) [] (5, 6) (MkEnvelope ownA true) UdpDemo.pkt =
          ([WriteTo "a" dg], (true, None)) ∧
    handleDatagram UdpDemo.dn dg = (UdpDemo.dn, Deliver (MkEnvelope ownA true) UdpDemo.pkt).
Proof.
  apply (udp_downlink (setReg UdpDemo.lo UdpDemo_reg) UdpDemo.dn [] (5, 6) (MkEnvelope ownA true) UdpDemo.pkt).
  - repeat constructor; cbn; lia.
  - apply UdpDemo_pkt_u8.
  - reflexivity.
  - by vm_compute.
Defined.

Lemma udp_handshake_witness :
  ∃ ci1 dg lo' reply ci2,
    sendControl UdpDemo.dn MsgRegister 1000 = (ci1, [WriteSock 4%nat dg], None) ∧
    loControl UdpDemo.lo dg "a" 2000 [zeroOwner; ownB] = Some (lo', [WriteTo "a" reply]) ∧
    handleDatagram ci1 reply = (ci2, Assign ownB).
Proof.
  destruct (udp_handshake UdpDemo.lo UdpDemo.dn 4%nat "a" 1000 2000 [zeroOwner; ownB] ownB)
    as (ci1 & dg & lo' & reply & ci2 & H1 & H2 & H3 & _).
  - apply New_ok.
  - reflexivity.
  - reflexivity.
  - reflexivity.
  - reflexivity.
  - reflexivity.
  - reflexivity.
  - by vm_compute.
  - by vm_compute.
  - intros _. cbn. by vm_compute.
  - repeat constructor; cbn; lia.
  - by exists ci1, dg, lo', reply, ci2.
Defined.

Lemma splitGRO_pieces_witness :
  splitGRO [1; 2; 3; 4; 5; 0] 5 2 = [[1; 2]; [3; 4]; [5]] ∧
  concat (splitGRO [1; 2; 3; 4; 5; 0] 5 2) = take (Z.to_nat 5) [1; 2; 3; 4; 5; 0].
Proof. split; [by vm_compute|]. apply (splitGRO_pieces [1; 2; 3; 4; 5; 0] 5 2). unfold zlen. simpl. lia. Defined.
