(* ===== verification/IpMatch.v ===== *)
(** * internal/ipmatch: the direct-mapped lookup cache

    The prefix table (github.com/gaissmai/bart) is the parameter [miss].  A
    lookup is two atomic accesses, the slot's load and, on a miss, its store;
    concurrent lookups are interleavings of these events. *)

From S2P Require Import Prelude GoBytes Wire.
Local Open Scope Z_scope.

Definition cacheSize : Z := 509.

(** [Addr.Unmap] and [Addr.Is4] of net/netip: an IPv4-mapped IPv6 address is
    the IPv4 address in its low 32 bits. *)
Definition Unmap (ip : Addr) : Addr :=
  match ip with
  | Addr6 a => if Z.shiftr a 32 =? 0xffff then Addr4 (a `mod` 2 ^ 32) else ip
  | _ => ip
  end.

(** Addresses as net/netip holds them. *)
Definition addr_ok (ip : Addr) : Prop :=
  match ip with AddrInvalid => True | Addr4 a => 0 ≤ a < 2 ^ 32 | Addr6 a => 0 ≤ a < 2 ^ 128 end.

Section cache.
Context (miss : Addr → bool).

(** The slots hold 64-bit words: address in the high half, bit 1 valid, bit 0
    the result. *)
Definition newCache : list Z := replicate (Z.to_nat cacheSize) 0.

Definition slotIndex (key : Z) : nat := Z.to_nat (key `mod` cacheSize).

(** The slot's test: the cached answer for [key], if the word holds it. *)
Definition slotHit (w key : Z) : option bool :=
  if negb (Z.land w 2 =? 0) && (wrap 32 (Z.shiftr w 32) =? key) then Some (negb (Z.land w 1 =? 0)) else None.

Definition slotWord (key : Z) (r : bool) : Z :=
  let w := Z.lor (wrap 64 (Z.shiftl key 32)) 2 in
  if r then Z.lor w 1 else w.

(** [contains], when no other lookup interleaves. *)
Definition contains (slots : list Z) (ip : Addr) : list Z * bool :=
  match Unmap ip with
  | Addr4 key =>
      let idx := slotIndex key in
      match slotHit (nth idx slots 0) key with
      | Some r => (slots, r)
      | None => let r := miss (Addr4 key) in (<[idx := slotWord key r]> slots, r)
      end
  | ip => (slots, miss ip)
  end.

(** Concurrent lookups: goroutine [g] starts one (its load), and finishes it
    (its store, if it missed).  [c_pending] holds the store still to do. *)
Record cstate := MkCState {
  c_slots : list Z;
  c_pending : gmap nat (nat * Z);
  c_answers : list (Addr * bool);
}.

Inductive cevent :=
| CLookup (g : nat) (ip : Addr)
| CStore (g : nat).

Definition cstep (s : cstate) (e : cevent) : cstate :=
  match e with
  | CLookup g ip =>
      match Unmap ip with
      | Addr4 key =>
          let idx := slotIndex key in
          match slotHit (nth idx (c_slots s) 0) key with
          | Some r => MkCState (c_slots s) (c_pending s) (c_answers s ++ [(ip, r)])
          | None =>
              let r := miss (Addr4 key) in
              MkCState (c_slots s) (<[g := (idx, slotWord key r)]> (c_pending s)) (c_answers s ++ [(ip, r)])
          end
      | ip' => MkCState (c_slots s) (c_pending s) (c_answers s ++ [(ip, miss ip')])
      end
  | CStore g =>
      match c_pending s !! g with
      | Some (idx, w) => MkCState (<[idx := w]> (c_slots s)) (delete g (c_pending s)) (c_answers s)
      | None => s
      end
  end.

Definition crun (es : list cevent) : cstate := fold_left cstep es (MkCState newCache ∅ []).

(** ** Lemmas *)

(** A word in slot [idx] is empty or packs an address of that slot with its
    right answer. *)
Definition word_ok (idx : nat) (w : Z) : Prop :=
  w = 0 ∨ ∃ key, 0 ≤ key < 2 ^ 32 ∧ slotIndex key = idx ∧ w = slotWord key (miss (Addr4 key)).

Lemma slotWord_bits key r :
  0 ≤ key < 2 ^ 32 → slotHit (slotWord key r) key = Some r ∧ Z.shiftr (slotWord key r) 32 = key.
Proof.
  intros Hk.
  assert (wrap 64 (Z.shiftl key 32) = Z.shiftl key 32) as Hw.
  { apply wrap_small. rewrite Z.shiftl_mul_pow2 by lia. lia. }
  assert (∀ b, 0 ≤ b < 32 → Z.testbit (Z.shiftl key 32) b = false) as Hlow.
  { intros b Hb. rewrite Z.shiftl_spec by lia. apply Z.testbit_neg_r. lia. }
  assert (Z.land (Z.shiftl key 32) 1 = 0 ∧ Z.land (Z.shiftl key 32) 2 = 0) as [H1 H2].
  { rewrite Z.shiftl_mul_pow2 by lia. split.
    - change 1 with (Z.ones 1). rewrite Z.land_ones by lia.
      replace (key * 2 ^ 32) with (key * 2 ^ 31 * 2 ^ 1) by lia. apply Z.mod_mul. lia.
    - apply Z.bits_inj'. intros b Hb. rewrite Z.land_spec, Z.bits_0.
      destruct (Z.ltb_spec b 32); [rewrite <- Z.shiftl_mul_pow2, Hlow by lia; done|].
      replace (Z.testbit 2 b) with false; [by rewrite andb_false_r|]. symmetry. apply (Z.bits_above_log2 2 b); [lia|]. change (Z.log2 2) with 1. lia. }
  assert (Z.shiftr (Z.shiftl key 32) 32 = key) as Hs.
  { rewrite Z.shiftr_shiftl_l by lia. by rewrite Z.sub_diag, Z.shiftl_0_r. }
  unfold slotHit, slotWord. rewrite Hw.
  destruct r; rewrite ?Z.land_lor_distr_l, ?Z.shiftr_lor, Hs, ?H1, ?H2; cbn [Z.land Z.lor Z.shiftr Pos.land Pos.lor];
    change (Z.shiftr 2 32) with 0; change (Z.shiftr 1 32) with 0; rewrite ?Z.lor_0_r, ?wrap_small, Z.eqb_refl by done; done.
Qed.

Lemma slotHit_ok idx w key r :
  word_ok idx w → 0 ≤ key < 2 ^ 32 → slotHit w key = Some r → r = miss (Addr4 key).
Proof.
  intros [-> |(k & Hk & _ & ->)] Hkey Hh; [done|].
  destruct (slotWord_bits k (miss (Addr4 k)) Hk) as [Hk1 Hk2].
  unfold slotHit in Hh. rewrite Hk2, wrap_small in Hh by done.
  destruct (Z.eqb_spec k key) as [->|]; [|by rewrite andb_false_r in Hh].
  unfold slotHit in Hk1. rewrite Hk2, wrap_small, Z.eqb_refl in Hk1 by done. congruence.
Qed.

Definition slots_ok (slots : list Z) : Prop := ∀ idx w, slots !! idx = Some w → word_ok idx w.

Record cache_ok (s : cstate) : Prop := {
  ck_slots : slots_ok (c_slots s);
  ck_pending : ∀ g idx w, c_pending s !! g = Some (idx, w) → word_ok idx w;
  ck_answers : Forall (λ a, a.2 = miss (Unmap a.1)) (c_answers s);
}.

Lemma Unmap_ok ip : addr_ok ip → addr_ok (Unmap ip).
Proof.
  destruct ip as [|a|a]; [trivial|trivial|]. intros Ha. unfold Unmap. destruct (_ =? _); [|exact Ha].
  unfold addr_ok. apply Z.mod_pos_bound. lia.
Qed.

Lemma nth_slot slots idx : slots_ok slots → word_ok idx (nth idx slots 0).
Proof.
  intros Hs. rewrite nth_lookup. destruct (slots !! idx) as [w|] eqn:Hw; simpl; [by apply Hs|by left].
Qed.

Lemma slots_ok_insert slots idx w : slots_ok slots → word_ok idx w → slots_ok (<[idx := w]> slots).
Proof.
  intros Hs Hw i v. destruct (decide (i = idx)) as [->|Hne].
  - intros Hv. destruct (decide (idx < length slots)%nat).
    + rewrite list_lookup_insert_eq in Hv by done. by simplify_eq.
    + rewrite list_insert_ge in Hv by lia. by apply Hs.
  - rewrite list_lookup_insert_ne by done. apply Hs.
Qed.

Lemma cstep_ok s e : (∀ g ip, e = CLookup g ip → addr_ok ip) → cache_ok s → cache_ok (cstep s e).
Proof.
  intros He [Hs Hp Ha]. destruct e as [g ip|g]; simpl.
  - specialize (He g ip eq_refl). apply Unmap_ok in He.
    assert (∀ r, r = miss (Unmap ip) → Forall (λ a, a.2 = miss (Unmap a.1)) (c_answers s ++ [(ip, r)])) as Hans.
    { intros r ->. apply Forall_app. split; [done|by constructor]. }
    destruct (Unmap ip) as [|key|a] eqn:Hu; [by split; cbn; auto| |by split; cbn; auto].
    unfold addr_ok in He. destruct (slotHit _ key) as [r|] eqn:Hh.
    + split; simpl; [done..|]. apply Hans. by eapply slotHit_ok; [apply nth_slot|..].
    + split; simpl; [done| |by apply Hans].
      intros g' idx w [[_ [= <- <-]]|[_ H]]%lookup_insert_Some; [|by eapply Hp].
      right. by exists key.
  - destruct (c_pending s !! g) as [[idx w]|] eqn:Hg; [|done].
    split; simpl; [apply slots_ok_insert; [done|by eapply Hp]| |done].
    intros g' i v [_ H]%lookup_delete_Some. by eapply Hp.
Qed.

Lemma newCache_ok : slots_ok newCache.
Proof. intros i w [-> _]%lookup_replicate. by left. Qed.

Lemma crun_ok es : (∀ g ip, CLookup g ip ∈ es → addr_ok ip) → cache_ok (crun es).
Proof.
  unfold crun. intros Hes. assert (cache_ok (MkCState newCache ∅ [])) as H0.
  { split; simpl; [apply newCache_ok| |done]. intros g idx w. by rewrite lookup_empty. }
  revert H0. generalize (MkCState newCache ∅ []). induction es as [|e es IH]; intros s Hs; [done|].
  apply IH; [intros g ip Hin; apply (Hes g ip); by right|]. apply cstep_ok; [|done].
  intros g ip ->. apply (Hes g ip). by left.
Qed.

(** The cache is invisible: under every interleaving of lookups,
    whatever addresses share a slot, each lookup answers what the table answers
    for the unmapped address. *)
Theorem cache_transparent es :
  (∀ g ip, CLookup g ip ∈ es → addr_ok ip) →
  Forall (λ a, a.2 = miss (Unmap a.1)) (c_answers (crun es)).
Proof. intros Hes. apply crun_ok, Hes. Qed.

(** Without interleaving the two events are the code's [contains]. *)
Lemma contains_steps slots ip g :
  let s := cstep (cstep (MkCState slots ∅ []) (CLookup g ip)) (CStore g) in
  contains slots ip = (c_slots s, match c_answers s with [(_, r)] => r | _ => false end).
Proof.
  unfold contains. simpl. destruct (Unmap ip) as [|key|a]; simpl; try done.
  destruct (slotHit _ key); simpl; [done|]. by rewrite lookup_insert_eq.
Qed.
End cache.

(** Two addresses sharing a slot, and an IPv4-mapped one. *)
Definition demoMiss (ip : Addr) : bool := match ip with Addr4 a => a <? 600 | _ => true end.
Lemma cache_transparent_witness :
  let es := [CLookup 1 (Addr4 5); CLookup 2 (Addr4 (5 + 509 * 2)); CStore 2; CStore 1; CLookup 1 (Addr6 (0xffff * 2 ^ 32 + 5))] in
  c_answers (crun demoMiss es) = [(Addr4 5, true); (Addr4 1023, false); (Addr6 281470681743365, true)] ∧
  Forall (λ a, a.2 = demoMiss (Unmap a.1)) (c_answers (crun demoMiss es)).
Proof.
  intros es. split; [by vm_compute|]. apply (cache_transparent demoMiss es).
  intros g ip Hin. unfold es in Hin.
  repeat (apply elem_of_cons in Hin as [Hin|Hin]; [try discriminate Hin; injection Hin as -> ->; cbn; lia|]).
  by apply elem_of_nil in Hin.
Defined.
