(* ===== verification/Tun.v ===== *)
(** * internal/conn/tun.go: the local tun connection

    The downlink is the batching writer of PktWriter.v over the device; the
    uplink consumes what the device's reader yields.  The liveness hooks are
    flags and their calls outputs.  The two goroutines (senders and the read
    loop) and [SetID] interleave as the events [tevent]. *)

From S2P Require Import Prelude GoBytes Wire PktWriter.
Local Open Scope Z_scope.

Definition tunWriteArena : nat := 128 * 1024.
Definition tunWriteBatch : nat := 64.

Inductive tunHook := HookSeen | HookSent.

Section tun.
Context {F E : Type} (devWrite : F → list (list Z) → F * option E).

Record TunConn := MkTun {
  t_name : string;
  t_id : option Owner;
  t_ready : bool;             (** the channel [ready] is closed *)
  t_seenHook : bool;          (** hooks set and non-nil *)
  t_sentHook : bool;
  t_w : Writer F E;
}.

Definition setID (t : TunConn) (id : Owner) : TunConn :=
  MkTun (t_name t) (Some id) true (t_seenHook t) (t_sentHook t) (t_w t).

Definition NewTun (name : string) (dev : F) (initial : Owner) (pending : bool) : TunConn :=
  let t := MkTun name None false false false (NewWriter dev tunWriteArena tunWriteBatch) in
  if pending then t else setID t initial.

Definition SetHooks (t : TunConn) (seen sent : bool) : TunConn :=
  MkTun (t_name t) (t_id t) (t_ready t) seen sent (t_w t).
Definition setTunWriter (t : TunConn) (w : Writer F E) : TunConn :=
  MkTun (t_name t) (t_id t) (t_ready t) (t_seenHook t) (t_sentHook t) w.

Definition ID (t : TunConn) : Owner * bool :=
  match t_id t with Some id => (id, true) | None => (zeroOwner, false) end.

Definition Accepts (t : TunConn) (owner : Owner) : bool :=
  let '(id, ok) := ID t in ok && bool_decide (id = owner).

(** [Send]: delivered or not and the hooks called; or the writer's lock is
    held; or the packet is larger than the arena. *)
Inductive tunSent :=
| TunSent (t : TunConn) (delivered : bool) (hooks : list tunHook)
| TunWaits
| TunPanics.

Definition Send (t : TunConn) (e : Envelope) (payload : list Z) : tunSent :=
  if negb (Accepts t (Env_Owner e)) then TunSent t false []
  else if IsPing payload then TunSent t true (if t_seenHook t then [HookSeen] else [])
  else match writePacket devWrite (t_w t) payload with
  | Next w => TunSent (setTunWriter t w) true []
  | Blocked => TunWaits
  | Panic => TunPanics
  end.

(** The read loop's body for one device packet; [None] while the loop still
    waits for the id. *)
Definition readOne (t : TunConn) (pkt : list Z) : option (list tunHook * (string * Envelope * list Z)) :=
  if t_ready t then
    Some (if t_sentHook t then [HookSent] else [], (t_name t, MkEnvelope (ID t).1 false, pkt))
  else None.

(** [Close]'s flush of the buffered downlink. *)
Definition closeTun (t : TunConn) : tunSent :=
  match Flush devWrite (t_w t) with
  | Next w => TunSent (setTunWriter t w) true []
  | Blocked => TunWaits
  | Panic => TunPanics
  end.

Inductive tevent :=
| EvSetID (id : Owner)
| EvSend (e : Envelope) (payload : list Z)
| EvRead (pkt : list Z)
| EvTun (we : wevent).

(** The state and what was handed to routing, newest last; [None]: the event
    is not enabled. *)
Definition texec (s : TunConn * list (string * Envelope * list Z)) (e : tevent)
    : option (TunConn * list (string * Envelope * list Z)) :=
  let '(t, routed) := s in
  match e with
  | EvSetID id => Some (setID t id, routed)
  | EvSend e payload => match Send t e payload with TunSent t' _ _ => Some (t', routed) | _ => None end
  | EvRead pkt => match readOne t pkt with Some (_, r) => Some (t, routed ++ [r]) | None => None end
  | EvTun we => match wexec devWrite (t_w t) we with Next w => Some (setTunWriter t w, routed) | _ => None end
  end.

Fixpoint trun (s : TunConn * list (string * Envelope * list Z)) (es : list tevent) :=
  match es with [] => Some s | e :: es' => s' ← texec s e; trun s' es' end.

(** What a history should route: each packet read, stamped with the id set
    last before it. *)
Fixpoint stamped (name : string) (id : option Owner) (es : list tevent) : list (string * Envelope * list Z) :=
  match es with
  | [] => []
  | EvSetID id' :: es' => stamped name (Some id') es'
  | EvRead pkt :: es' => (name, MkEnvelope (default zeroOwner id) false, pkt) :: stamped name id es'
  | _ :: es' => stamped name id es'
  end.

Fixpoint lastID (id : option Owner) (es : list tevent) : option Owner :=
  match es with
  | [] => id
  | EvSetID id' :: es' => lastID (Some id') es'
  | _ :: es' => lastID id es'
  end.

(** [ready] is closed exactly when an id is set. *)
Definition tun_ok (t : TunConn) : Prop := t_ready t = bool_decide (is_Some (t_id t)).

Lemma NewTun_ok name dev initial pending : tun_ok (NewTun name dev initial pending).
Proof. unfold NewTun. by destruct pending. Qed.

Lemma Send_frame t e payload t' d h :
  Send t e payload = TunSent t' d h → t_name t' = t_name t ∧ t_id t' = t_id t ∧ t_ready t' = t_ready t.
Proof.
  unfold Send. destruct (negb _); [by intros [= <- _ _]|]. destruct (IsPing payload); [by intros [= <- _ _]|].
  by destruct (writePacket _ _ _); intros [= <- _ _].
Qed.

Lemma trun_spec t routed es t' routed' :
  tun_ok t → trun (t, routed) es = Some (t', routed') →
  tun_ok t' ∧ t_id t' = lastID (t_id t) es ∧ routed' = routed ++ stamped (t_name t) (t_id t) es ∧
  (t_id t = None → ∀ pre pkt post, es = pre ++ EvRead pkt :: post → ∃ id, EvSetID id ∈ pre).
Proof.
  revert t routed. induction es as [|e es IH]; intros t routed Hok Hr; cbn [trun] in Hr.
  { simplify_eq. split_and!; [done|done|by rewrite app_nil_r|]. by intros _ [] ???. }
  apply bind_Some in Hr as ([t1 r1] & He & Hr).
  assert (∀ t1, t_name t1 = t_name t → t_id t1 = t_id t → t_ready t1 = t_ready t → tun_ok t1) as Hframe.
  { intros x _ Hi Hrd. unfold tun_ok in *. by rewrite Hi, Hrd. }
  assert (∀ ev, (∀ id, ev ≠ EvSetID id) → (∀ pkt, ev ≠ EvRead pkt) →
    t_name t1 = t_name t → t_id t1 = t_id t → t_ready t1 = t_ready t → r1 = routed → 
    stamped (t_name t) (t_id t) (ev :: es) = stamped (t_name t) (t_id t) es → lastID (t_id t) (ev :: es) = lastID (t_id t) es →
    tun_ok t' ∧ t_id t' = lastID (t_id t) (ev :: es) ∧ routed' = routed ++ stamped (t_name t) (t_id t) (ev :: es) ∧
    (t_id t = None → ∀ pre pkt post, ev :: es = pre ++ EvRead pkt :: post → ∃ id, EvSetID id ∈ pre)) as Hstep.
  { intros ev Hns Hnr Hn Hi Hrd -> -> ->. destruct (IH t1 routed) as (H1 & H2 & H3 & H4); [by apply Hframe|done|].
    rewrite Hn, Hi in *. split_and!; [done..|]. intros Hnone [|x pre] pkt post Heq; simplify_list_eq; [by destruct (Hnr pkt)|].
    destruct (H4 Hnone pre pkt post eq_refl) as [id Hid]. exists id. by right. }
  destruct e as [id|env payload|pkt|we]; cbn [texec] in He.
  - simplify_eq. destruct (IH (setID t id) r1) as (H1 & H2 & H3 & _); [done|done|].
    split_and!; [done..|]. intros _ [|x pre] pkt post Heq; simplify_list_eq. exists id. by left.
  - destruct (Send t env payload) as [t2 d h| |] eqn:Hs; simplify_eq. destruct (Send_frame _ _ _ _ _ _ Hs) as (?&?&?).
    by apply Hstep.
  - unfold readOne in He. destruct (t_ready t) eqn:Hrd; simplify_eq. unfold tun_ok in Hok. rewrite Hrd in Hok.
    symmetry in Hok. apply bool_decide_eq_true in Hok as [id Hid].
    destruct (IH t1 (routed ++ [(t_name t1, MkEnvelope (ID t1).1 false, pkt)])) as (H1 & H2 & H3 & _); [|done|].
    { unfold tun_ok. by rewrite Hid. }
    split_and!; [done|done| |intros Hn; congruence]. rewrite H3, <- app_assoc. cbn [stamped app]. do 2 f_equal.
    unfold ID. by rewrite Hid.
  - destruct (wexec _ _ _); simplify_eq. by apply Hstep.
Qed.

(** No packet leaves a tun before it has an id, and each packet read
    from the device is routed exactly once, in order, unprocessed and stamped
    with the id assigned last; a pending tun waits for its first [SetID]. *)
Theorem tun_stamps_packets name dev initial pending es t routed :
  trun (NewTun name dev initial pending, []) es = Some (t, routed) →
  routed = stamped name (if pending then None else Some initial) es ∧
  (pending = true → ∀ pre pkt post, es = pre ++ EvRead pkt :: post → ∃ id, EvSetID id ∈ pre).
Proof.
  intros Hr. destruct (trun_spec _ _ _ _ _ (NewTun_ok _ _ _ _) Hr) as (_ & _ & -> & Hw).
  unfold NewTun in *. destruct pending; simpl in *; split; [done|intros _; by apply Hw|done|done].
Qed.
End tun.
Arguments TunConn : clear implicits.
Arguments tunSent : clear implicits.

(** With an idle writer and a packet that fits, [Send] returns: it
    delivers exactly the packets of the tun's own id; a reflected ping is
    consumed, is the only packet that reports liveness and is never written; any
    other packet is queued for the device unchanged behind the earlier ones. *)
Theorem tun_send {E} oracle (t : TunConn (list (list (list Z))) E) e payload :
  writer_ok tunWriteArena tunWriteBatch (t_w t) → w_mu (t_w t) = None → (length payload ≤ tunWriteArena)%nat →
  ∃ t' d h, Send (recorder oracle) t e payload = TunSent t' d h ∧
    d = bool_decide (t_id t = Some (Env_Owner e)) ∧
    (HookSeen ∈ h → IsPing payload = true ∧ d = true) ∧
    accepted (t_w t') = accepted (t_w t) ++ (if d && negb (IsPing payload) then [payload] else []).
Proof.
  intros Hok Hmu Hlen. unfold Send, Accepts, ID.
  assert (0 < tunWriteBatch)%nat as Hk by (unfold tunWriteBatch; lia).
  destruct (t_id t) as [id|]; cbn [negb andb].
  2:{ eexists _, _, _. split; [done|]. split; [done|]. split; [by intros ?%elem_of_nil|]. by rewrite app_nil_r. }
  destruct (decide (id = Env_Owner e)) as [->|Hne].
  2:{ rewrite bool_decide_eq_false_2 by done. cbn [negb]. eexists _, _, _. split; [done|].
      rewrite bool_decide_eq_false_2 by congruence. split; [done|]. split; [by intros ?%elem_of_nil|]. by rewrite app_nil_r. }
  rewrite bool_decide_eq_true_2 by done. cbn [negb]. destruct (IsPing payload) eqn:Hp.
  - eexists _, _, _. split; [done|]. rewrite bool_decide_eq_true_2 by done. split; [done|]. split; [done|]. by rewrite app_nil_r.
  - destruct (writePacket_next (recorder oracle) tunWriteArena tunWriteBatch (t_w t) payload Hk Hok Hmu Hlen) as (w & Hw & _).
    rewrite Hw. eexists _, _, _. split; [done|]. rewrite bool_decide_eq_true_2 by done. split; [done|].
    split; [by intros ?%elem_of_nil|]. by apply (writePacket_accepted oracle tunWriteArena tunWriteBatch).
Qed.

Definition demoTunEvents : list tevent :=
  [EvSend (MkEnvelope zeroOwner false) [1]; EvSetID (MkOwner 1 2 3 4); EvRead [1; 2]; EvSetID (MkOwner 5 6 7 8); EvRead [3]].

Lemma tun_stamps_packets_witness :
  ∃ t, trun (recorder (λ _ _, @None unit)) (NewTun "tun0" [] zeroOwner true, []) demoTunEvents =
      Some (t, [("tun0"%string, MkEnvelope (MkOwner 1 2 3 4) false, [1; 2]); ("tun0"%string, MkEnvelope (MkOwner 5 6 7 8) false, [3])]) ∧
    ∃ id, EvSetID id ∈ [EvSend (MkEnvelope zeroOwner false) [1]; EvSetID (MkOwner 1 2 3 4)].
Proof.
  eexists. split; [reflexivity|].
  apply (proj2 (tun_stamps_packets (recorder (λ _ _, @None unit)) "tun0" [] zeroOwner true demoTunEvents _ _ eq_refl) eq_refl
    _ [1; 2] [EvSetID (MkOwner 5 6 7 8); EvRead [3]]). reflexivity.
Defined.

Lemma tun_send_witness :
  ∃ t' d h, Send (recorder (λ _ _, @None unit)) (NewTun "tun0" [] (MkOwner 1 2 3 4) false) (MkEnvelope (MkOwner 1 2 3 4) true) [9; 9] =
      TunSent t' d h ∧ d = true ∧ accepted (t_w t') = [[9; 9]].
Proof.
  destruct (tun_send (λ _ _, @None unit) (NewTun "tun0" [] (MkOwner 1 2 3 4) false) (MkEnvelope (MkOwner 1 2 3 4) true) [9; 9])
    as (t' & d & h & H & Hd & _ & Ha).
  - apply NewWriter_ok. unfold tunWriteBatch. lia.
  - reflexivity.
  - unfold tunWriteArena. apply Nat.leb_le. vm_compute. reflexivity.
  - exists t', d, h. split; [exact H|]. split; [exact Hd|]. rewrite Ha, Hd. reflexivity.
Defined.
