(* ===== verification/Tcp.v ===== *)
(** * internal/conn/tcp.go: the TCP carrier

    Frames over the stream ciphers of Cipher.v, batched by the writer of
    PktWriter.v.  A connection under its buffered writer is a [Sink] of Wire.v
    (the bytes written so far, and how many more it takes); whether a flush of
    the buffered writer reaches the peer is part of the environment fields.
    Background dials, the handler's critical sections and the clock are events. *)

From S2P Require Import Prelude GoBytes Sha256 Wire ChaCha Cipher PktWriter Control Peers.
Local Open Scope Z_scope.

Definition tcpBadFrames : Z := 8.
Definition tcpWriteBufSize : nat := 128 * 1024.
Definition streamWriteBatch : nat := 64.
Definition reconnectBackoff : Z := 1000000000.

Inductive tcpErr :=
| ErrBackoff
| ErrTCPDownDead
| ErrFrame (e : ioerr)
| ErrFlush
| ErrWouldBlock.   (** the flush waits for a mutex: the event is not enabled *)

(** ** tcpConnectOut *)

(** The fields under [mu], then the environment: the clock and whether the
    socket takes a flush. *)
Record outCore := MkOutCore {
  oc_cipher : streamCipher;
  oc_obf : option streamWriter;   (** conn, bw and obf; [None]: not connected *)
  oc_dialing : bool;
  oc_closed : bool;
  oc_nextRetry : Z;
  oc_dials : nat;                 (** running [dial] goroutines *)
  oc_now : Z;
  oc_flushOk : bool;
}.

Definition setObf (c : outCore) (obf : option streamWriter) : outCore :=
  MkOutCore (oc_cipher c) obf (oc_dialing c) (oc_closed c) (oc_nextRetry c) (oc_dials c) (oc_now c) (oc_flushOk c).
Definition setRetry (c : outCore) (t : Z) : outCore :=
  MkOutCore (oc_cipher c) (oc_obf c) (oc_dialing c) (oc_closed c) t (oc_dials c) (oc_now c) (oc_flushOk c).
Definition setDialing (c : outCore) (b : bool) (dials : nat) : outCore :=
  MkOutCore (oc_cipher c) (oc_obf c) b (oc_closed c) (oc_nextRetry c) dials (oc_now c) (oc_flushOk c).
Definition setClosed (c : outCore) : outCore :=
  MkOutCore (oc_cipher c) (oc_obf c) (oc_dialing c) true (oc_nextRetry c) (oc_dials c) (oc_now c) (oc_flushOk c).
Definition setEnv (c : outCore) (now : Z) (flushOk : bool) : outCore :=
  MkOutCore (oc_cipher c) (oc_obf c) (oc_dialing c) (oc_closed c) (oc_nextRetry c) (oc_dials c) now flushOk.

Definition resetLocked (c : outCore) : outCore := setObf c None.

Definition kickDialLocked (c : outCore) : outCore :=
  if oc_dialing c || oc_closed c || (oc_now c <? oc_nextRetry c) then c
  else setDialing c true (S (oc_dials c)).

(** [flush]: the batch's frames, then the buffered writer. *)
Definition flush (c : outCore) (views : list (list Z)) : outCore * option tcpErr :=
  match oc_obf c with
  | None => (kickDialLocked c, Some ErrBackoff)
  | Some obf =>
      match writeFrames obf views with
      | (_, Some err) => (setRetry (resetLocked c) (oc_now c + reconnectBackoff), Some (ErrFrame err))
      | (obf', None) =>
          if oc_flushOk c then (setObf c (Some obf'), None)
          else (setRetry (resetLocked c) (oc_now c + reconnectBackoff), Some ErrFlush)
      end
  end.

(** The end of a [dial] goroutine: the connection it got, or a failure. *)
Definition dialDone (c : outCore) (conn : option Sink) (draw : Z * Z) : outCore :=
  let c := setDialing c false (pred (oc_dials c)) in
  match conn with
  | None => setRetry c (oc_now c + reconnectBackoff)
  | Some s =>
      if oc_closed c then c
      else match WrapWriter (oc_cipher c) draw s with
      | Err _ => setRetry c (oc_now c + reconnectBackoff)
      | Ok obf => setObf c (Some obf)
      end
  end.

Definition toReconnect (c : outCore) : outCore := setRetry (resetLocked c) 0.
Definition toClose (c : outCore) : outCore := resetLocked (setClosed c).

(** The connection: its write batch over the core.  [Send] puts the envelope
    blob into the batch. *)
Definition tcpConnectOut : Type := Writer outCore tcpErr.

Definition newTcpConnectOut (x : streamCipher) : tcpConnectOut :=
  NewWriter (MkOutCore x None false false 0 0 0 true) tcpWriteBufSize streamWriteBatch.

Definition toSend (w : tcpConnectOut) (e : Envelope) (payload : list Z) : outcome outCore tcpErr :=
  writePacket flush w (PutEnvelope e payload).

Definition onCore (f : outCore → outCore) (w : tcpConnectOut) : tcpConnectOut :=
  MkWriter (w_arena w) (w_alen w) (w_views w) (w_vcap w) (w_err w) (w_mu w) (f (w_sink w)).

Inductive oevent :=
| OSend (e : Envelope) (payload : list Z)
| OWriter (we : wevent)                  (** a flush tick; the pieces of a concurrent Send *)
| ODialDone (conn : option Sink) (draw : Z * Z)
| OReconnect
| OClose
| OEnv (now : Z) (flushOk : bool).

Definition oexec (w : tcpConnectOut) (e : oevent) : option tcpConnectOut :=
  match e with
  | OSend e payload => match toSend w e payload with Next w' => Some w' | _ => None end
  | OWriter we => match wexec flush w we with Next w' => Some w' | _ => None end
  | ODialDone conn draw =>
      if (0 <? oc_dials (w_sink w))%nat then Some (onCore (λ c, dialDone c conn draw) w) else None
  | OReconnect => Some (onCore toReconnect w)
  | OClose => Some (onCore toClose w)
  | OEnv now ok => Some (onCore (λ c, setEnv c now ok) w)
  end.

Fixpoint orun (w : tcpConnectOut) (es : list oevent) : option tcpConnectOut :=
  match es with [] => Some w | e :: es' => w' ← oexec w e; orun w' es' end.

(** ** runStreamReader *)

Inductive frameVerdict :=
| FDeliver (e : Envelope) (payload : list Z)
| FDrop.

Definition verdict (pkt : list Z) : frameVerdict :=
  match ParseEnvelope pkt with
  | Some (e, payload) => if PlausibleIP payload then FDeliver e payload else FDrop
  | None => FDrop
  end.

(** The routing loop over the frames the reader yields: what happened to each,
    and whether it closed the stream. *)
Fixpoint streamLoop (bad : Z) (frames : list (list Z)) : list frameVerdict * bool :=
  match frames with
  | [] => ([], false)
  | pkt :: frames' =>
      match verdict pkt with
      | FDeliver e payload =>
          let '(out, closed) := streamLoop 0 frames' in (FDeliver e payload :: out, closed)
      | FDrop =>
          let bad := bad + 1 in
          if tcpBadFrames <? bad then ([FDrop], true)
          else let '(out, closed) := streamLoop bad frames' in (FDrop :: out, closed)
      end
  end.

Definition runStreamReader (frames : list (list Z)) : list frameVerdict * bool := streamLoop 0 frames.

(** ** tcpConnectIn *)

Record tcpConnectIn := MkTcpIn {
  ti_key : list Z;
  ti_sendTS : Z;
  ti_curID : Owner;
  ti_lastAssign : Z;
}.

(** The register frame [stream] opens with. *)
Definition registerFrame (c : tcpConnectIn) (now : Z) : tcpConnectIn * list Z :=
  let ts := nextTSAttempt (wrap 64 now) (ti_sendTS c) in
  (MkTcpIn (ti_key c) ts (ti_curID c) (ti_lastAssign c),
   encodeControl MsgRegister (ti_curID c) 0 ts (ti_key c)).

(** The first frame of the downlink; the second component is the id handed to
    the id setter. *)
Definition adoptAssignment (c : tcpConnectIn) (frame : list Z) : tcpConnectIn * option Owner :=
  match decodeControl frame (ti_key c) with
  | Some (typ, aid, _, ts) =>
      if (typ =? MsgAssignID) && negb (IsZero aid) then
        if ti_lastAssign c <? ts then (MkTcpIn (ti_key c) (ti_sendTS c) aid ts, Some aid) else (c, None)
      else (c, None)
  | None => (c, None)
  end.

(** A keepalive carries the id the stream was set up with. *)
Definition keepaliveFrame (c : tcpConnectIn) (id : Owner) (now : Z) : tcpConnectIn * list Z :=
  let ts := nextTSAttempt (wrap 64 now) (ti_sendTS c) in
  (MkTcpIn (ti_key c) ts (ti_curID c) (ti_lastAssign c), encodeControl MsgKeepalive id 0 ts (ti_key c)).

(** ** tcpListenOut and its down connections *)

(** The write half under [pc.mu]; [dc_held] is the handler's hold on it during
    the handshake, [dc_flushOk] the environment's verdict on a socket flush. *)
Record downCore := MkDownCore {
  dc_obf : streamWriter;
  dc_dead : bool;
  dc_held : bool;
  dc_flushOk : bool;
}.

Definition teardownLocked (c : downCore) : downCore := MkDownCore (dc_obf c) true (dc_held c) (dc_flushOk c).
Definition setDown (c : downCore) (obf : streamWriter) : downCore := MkDownCore obf (dc_dead c) (dc_held c) (dc_flushOk c).

(** [flushViews]; while the mutex is held the caller would wait. *)
Definition flushViews (c : downCore) (views : list (list Z)) : downCore * option tcpErr :=
  if dc_held c then (c, Some ErrWouldBlock)
  else if dc_dead c then (c, Some ErrTCPDownDead)
  else match writeFrames (dc_obf c) views with
  | (obf', Some err) => (teardownLocked (setDown c obf'), Some (ErrFrame err))
  | (obf', None) =>
      if dc_flushOk c then (setDown c obf', None) else (teardownLocked (setDown c obf'), Some ErrFlush)
  end.

Definition tcpDownConn : Type := Writer downCore tcpErr.

Definition onDown (f : downCore → downCore) (w : tcpDownConn) : tcpDownConn :=
  MkWriter (w_arena w) (w_alen w) (w_views w) (w_vcap w) (w_err w) (w_mu w) (f (w_sink w)).

(** The connection [handle] builds, mutex taken, before [Register]. *)
Definition newDownConn (obfW : streamWriter) : tcpDownConn :=
  NewWriter (MkDownCore obfW false true true) tcpWriteBufSize streamWriteBatch.

(** [sink]. *)
Definition downSink (w : tcpDownConn) (blob : list Z) : outcome downCore tcpErr * option tcpErr :=
  if dc_dead (w_sink w) then (Next w, Some ErrTCPDownDead)
  else (writePacket flushViews w blob, None).

Record tcpListenOut := MkTcpOut {
  tl_key : list Z;
  tl_multiple : bool;
  tl_reg : Registry nat;   (** a sink is the number of its down connection *)
}.

Definition isRegistration (typ : Z) : bool := (typ =? MsgRegister) || (typ =? MsgKeepalive).

(** The registration frame of [handle], for the down connection [dc]: the
    registry afterwards and the assignment to write, or nothing when the
    handler returns. *)
Definition registerDown (c : tcpListenOut) (frame : list Z) (peerKey : string) (dc : nat) (now : Z) (draws : list Owner)
    : option (tcpListenOut * option (list Z)) :=
  match decodeControl frame (tl_key c) with
  | None => Some (c, None)
  | Some (typ, id, _, ts) =>
      if negb (isRegistration typ) then Some (c, None)
      else match Register (tl_reg c) id peerKey ts dc now draws with
      | None => None
      | Some (reg, (assigned, ok)) =>
          let c := MkTcpOut (tl_key c) (tl_multiple c) reg in
          Some (c, if ok then Some (encodeControl MsgAssignID assigned 0 ts (tl_key c)) else None)
      end
  end.

(** Writing the assignment and releasing the mutex; false: the handler returns. *)
Definition writeAssignment (c : downCore) (frame : list Z) : downCore * bool :=
  let '(obf, err) := WriteFrame (dc_obf c) frame in
  (MkDownCore obf (dc_dead c) false (dc_flushOk c),
   match err with None => dc_flushOk c | Some _ => false end).

(** One frame of the steady read loop: the bad-frame count, and false when the
    handler gives up. *)
Definition steadyFrame (c : tcpListenOut) (bad : Z) (frame : list Z) (peerKey : string) (dc : nat) (now : Z) (draws : list Owner)
    : option (tcpListenOut * Z * bool) :=
  match decodeControl frame (tl_key c) with
  | Some (typ, id, _, ts) =>
      if isRegistration typ then
        match Register (tl_reg c) id peerKey ts dc now draws with
        | Some (reg, _) => Some (MkTcpOut (tl_key c) (tl_multiple c) reg, 0, true)
        | None => None
        end
      else Some (c, bad + 1, negb (tcpBadFrames <? bad + 1))
  | None => Some (c, bad + 1, negb (tcpBadFrames <? bad + 1))
  end.

Definition tlAccepts (c : tcpListenOut) (owner : Owner) : bool := Accepts (tl_reg c) owner.

(** [Send] over the listener's down connections, looking the peer's sink up
    as [Registry.Send] does; [None] when the peer's batch is locked. *)
Definition tlSend (c : tcpListenOut) (conns : gmap nat tcpDownConn) (e : Envelope) (payload : list Z)
    : option (gmap nat tcpDownConn * (bool * option tcpErr)) :=
  match (SinkFor (tl_reg c) (Env_Owner e)).1 with
  | None => Some (conns, (false, None))
  | Some dc =>
      match conns !! dc with
      | None => None
      | Some w =>
          let '(o, err) := downSink w (PutEnvelope e payload) in
          match o with Next w' => Some (<[dc := w']> conns, (true, err)) | _ => None end
      end
  end.

(** The life of one down connection from [newDownConn] on. *)
Inductive devent :=
| DSend (blob : list Z)       (** the router, once the sink is registered *)
| DWriter (we : wevent)       (** the flush group's tick; pieces of a concurrent send *)
| DAssign (frame : list Z)    (** the handler's assignment write *)
| DExit                       (** the handler returns: [pc.dead.Store(true)] *)
| DEnv (flushOk : bool).

(** A writer step that had to flush into a held mutex is not enabled. *)
Definition unblocked (o : outcome downCore tcpErr) : option tcpDownConn :=
  match o with
  | Next w => match w_err w with Some ErrWouldBlock => None | _ => Some w end
  | _ => None
  end.

Definition dexec (w : tcpDownConn) (e : devent) : option tcpDownConn :=
  match e with
  | DSend blob => unblocked (downSink w blob).1
  | DWriter we => unblocked (wexec flushViews w we)
  | DAssign frame =>
      if dc_held (w_sink w) then Some (onDown (λ c, (writeAssignment c frame).1) w) else None
  | DExit => if dc_held (w_sink w) then None else Some (onDown teardownLocked w)
  | DEnv ok => Some (onDown (λ c, MkDownCore (dc_obf c) (dc_dead c) (dc_held c) ok) w)
  end.

Fixpoint drun (w : tcpDownConn) (es : list devent) : option tcpDownConn :=
  match es with [] => Some w | e :: es' => w' ← dexec w e; drun w' es' end.

(** ** Lemmas: the uplink *)

Lemma writeFrames_app (w : streamWriter) a b :
  writeFrames w (a ++ b) =
    match writeFrames w a with (w1, None) => writeFrames w1 b | (w1, Some e) => (w1, Some e) end.
Proof.
  revert w. induction a as [|p a IH]; intros w; cbn [app writeFrames]; [done|].
  destruct (WriteFrame w p) as [w1 [e|]]; [done|]. apply IH.
Qed.

Lemma flush_disconnected c b : oc_obf c = None → oc_obf (flush c b).1 = None.
Proof. intros Hc. unfold flush. rewrite Hc. unfold kickDialLocked. by destruct (_ || _). Qed.

Lemma replay_disconnected log c : oc_obf c = None → oc_obf (replay flush c log) = None.
Proof.
  revert c. induction log as [|b log IH]; intros c Hc; [done|].
  change (replay flush c (b :: log)) with (replay flush (flush c b).1 log). by apply IH, flush_disconnected.
Qed.

(** A connection that is still there wrote every batch it was given. *)
Lemma replay_connected log c obf obf' :
  oc_obf c = Some obf → oc_obf (replay flush c log) = Some obf' → writeFrames obf (concat log) = (obf', None).
Proof.
  revert c obf. induction log as [|b log IH]; intros c obf Hc Hr; [cbn in *; congruence|].
  change (replay flush c (b :: log)) with (replay flush (flush c b).1 log) in Hr.
  cbn [concat]. rewrite writeFrames_app. destruct (flush c b) as [c1 e1] eqn:Hf. unfold flush in Hf. rewrite Hc in Hf.
  cbn [fst] in Hr. destruct (writeFrames obf b) as [obf1 [e|]].
  - simplify_eq. by rewrite replay_disconnected in Hr.
  - destruct (oc_flushOk c); simplify_eq; [|by rewrite replay_disconnected in Hr].
    by apply (IH (setObf c (Some obf1)) obf1).
Qed.

(** ** Lemmas: dialing *)

Record dial_ok (c : outCore) : Prop := {
  dk_one : oc_dials c = if oc_dialing c then 1%nat else 0%nat;
  dk_closed : oc_closed c = true → oc_obf c = None;
}.

Lemma kick_ok c : dial_ok c → dial_ok (kickDialLocked c).
Proof.
  intros [H1 H2]. unfold kickDialLocked.
  destruct (oc_dialing c) eqn:Hd; cbn [orb]; [by split; rewrite ?Hd|].
  destruct (oc_closed c) eqn:Hc; cbn [orb]; [by split; rewrite ?Hd, ?Hc|].
  destruct (_ <? _); [by split; rewrite ?Hd, ?Hc|]. split; cbn; [by rewrite H1|]. by rewrite Hc.
Qed.

Lemma flush_ok c b : dial_ok c → dial_ok (flush c b).1.
Proof.
  intros Hc. unfold flush. destruct (oc_obf c) as [obf|] eqn:Ho; [|by apply kick_ok].
  destruct Hc as [H1 H2]. destruct (writeFrames obf b) as [obf1 [e|]]; [by split|].
  destruct (oc_flushOk c); [|by split]. split; cbn; [done|]. intros Hcl. by rewrite (H2 Hcl) in Ho.
Qed.

Lemma flushLocked_core {F E} (fl : F → list (list Z) → F * option E) (P : F → Prop) w :
  (∀ f b, P f → P (fl f b).1) → P (w_sink w) → P (w_sink (flushLocked fl w)).
Proof.
  intros Hf Hw. unfold flushLocked. destruct (w_views w); [done|].
  destruct (fl (w_sink w) (pending w)) as [f e] eqn:Hfl. cbn. specialize (Hf _ (pending w) Hw). by rewrite Hfl in Hf.
Qed.

(** Whatever a flush keeps true of the sink, every writer step keeps. *)
Lemma wexec_core {F E} (fl : F → list (list Z) → F * option E) (P : F → Prop) w e w' :
  (∀ f b, P f → P (fl f b).1) → wexec fl w e = Next w' → P (w_sink w) → P (w_sink w').
Proof.
  intros Hf He Hw. destruct e as [max|data|n| |]; cbn [wexec] in He.
  - unfold Reserve in He. destruct (w_mu w); [done|].
    destruct (_ || _); destruct (_ <=? _)%nat; simplify_eq; cbn; [by apply flushLocked_core|done].
  - unfold fillReserved in He. destruct (w_mu w); [|done]. destruct (_ <=? _)%nat; by simplify_eq.
  - unfold Commit in He. destruct (w_mu w); [|done]. destruct (_ <=? _)%nat; [|done].
    destruct (_ || _); simplify_eq; cbn; [by apply (flushLocked_core fl)|done].
  - unfold Flush in He. destruct (w_mu w); simplify_eq. by apply flushLocked_core.
  - unfold tryFlush in He. destruct (w_mu w); simplify_eq; [done|]. by apply flushLocked_core.
Qed.

Lemma writePacket_core {F E} (fl : F → list (list Z) → F * option E) (P : F → Prop) w p w' :
  (∀ f b, P f → P (fl f b).1) → writePacket fl w p = Next w' → P (w_sink w) → P (w_sink w').
Proof.
  intros Hf Hw H0. unfold writePacket in Hw.
  destruct (Reserve fl w _) as [w1| |] eqn:E1; [|done..]. destruct (fillReserved w1 p) as [w2| |] eqn:E2; [|done..].
  apply (wexec_core fl P w2 (EvCommit (length p)) w' Hf Hw).
  apply (wexec_core fl P w1 (EvFill p) w2 Hf E2). by apply (wexec_core fl P w (EvReserve (length p)) w1 Hf E1).
Qed.

Lemma dialDone_ok c conn draw : oc_dialing c = true → dial_ok c → dial_ok (dialDone c conn draw).
Proof.
  intros Hd [H1 H2]. rewrite Hd in H1. unfold dialDone. cbn [setDialing oc_closed oc_cipher].
  destruct conn as [s|]; [|split; cbn; [by rewrite H1|done]].
  destruct (oc_closed c) eqn:Hc; [split; cbn; [by rewrite H1|auto]|].
  destruct (WrapWriter _ _ _); split; cbn; rewrite ?H1; try done; congruence.
Qed.

Lemma oexec_ok w e w' : dial_ok (w_sink w) → oexec w e = Some w' → dial_ok (w_sink w').
Proof.
  intros Hok He. destruct e as [e payload|we|conn draw| | |now ok]; cbn [oexec] in He.
  - destruct (toSend w e payload) as [w1| |] eqn:Hs; simplify_eq. by eapply (writePacket_core flush dial_ok); [apply flush_ok|..].
  - destruct (wexec flush w we) as [w1| |] eqn:Hs; simplify_eq. by eapply (wexec_core flush dial_ok); [apply flush_ok|..].
  - destruct (Nat.ltb_spec 0 (oc_dials (w_sink w))); [|done]. simplify_eq. apply dialDone_ok; [|done].
    destruct Hok as [H1 _]. destruct (oc_dialing (w_sink w)); [done|lia].
  - simplify_eq. destruct Hok. by split.
  - simplify_eq. destruct Hok. by split.
  - simplify_eq. destruct Hok. by split.
Qed.

Lemma orun_ok w es w' : dial_ok (w_sink w) → orun w es = Some w' → dial_ok (w_sink w').
Proof.
  revert w. induction es as [|e es IH]; intros w Hok Hr; cbn [orun] in Hr; [by simplify_eq|].
  apply bind_Some in Hr as (w1 & He & Hr). eapply IH; [|exact Hr]. by eapply oexec_ok.
Qed.

(** ** Lemmas: the receiving loop *)

Definition isBad (pkt : list Z) : bool := match verdict pkt with FDrop => true | _ => false end.

(** The number of bad frames in a row at the end of a prefix, starting from [n]. *)
Definition badRun (n : Z) (frames : list (list Z)) : Z :=
  fold_left (λ n f, if isBad f then n + 1 else 0) frames n.

Lemma streamLoop_spec bad frames :
  0 ≤ bad ≤ tcpBadFrames →
  let '(out, closed) := streamLoop bad frames in
  out = map verdict (take (length out) frames) ∧
  (∀ k, (k < length out)%nat → badRun bad (take k frames) ≤ tcpBadFrames) ∧
  if closed then badRun bad (take (length out) frames) = tcpBadFrames + 1
  else length out = length frames ∧ badRun bad frames ≤ tcpBadFrames.
Proof.
  revert bad. induction frames as [|f frames IH]; intros bad Hb; cbn [streamLoop].
  { split; [done|]. split; [cbn; lia|]. split; [done|]. cbn. lia. }
  destruct (verdict f) as [e p|] eqn:Hv.
  - specialize (IH 0 ltac:(unfold tcpBadFrames; lia)). destruct (streamLoop 0 frames) as [out closed].
    destruct IH as (H1 & H2 & H3). cbn [length take map]. rewrite Hv.
    assert (∀ l, badRun bad (f :: l) = badRun 0 l) as Hrun by (intros l; unfold badRun; cbn; unfold isBad; by rewrite Hv).
    split; [by f_equal|]. split.
    + intros [|k] Hk; cbn [take]; [cbn; lia|]. rewrite Hrun. apply H2. cbn in Hk. lia.
    + destruct closed; rewrite Hrun; [done|]. destruct H3 as [-> ?]. done.
  - assert (∀ l, badRun bad (f :: l) = badRun (bad + 1) l) as Hrun by (intros l; unfold badRun; cbn; unfold isBad; by rewrite Hv).
    destruct (tcpBadFrames <? bad + 1) eqn:Hlt; unbool.
    + cbn [length take map]. rewrite take_0, Hrun. cbn [map]. rewrite Hv. split; [done|]. split.
      * intros [|k] Hk; cbn in *; lia.
      * cbn. lia.
    + specialize (IH (bad + 1) ltac:(lia)). destruct (streamLoop (bad + 1) frames) as [out closed].
      destruct IH as (H1 & H2 & H3). cbn [length take map]. rewrite Hv. split; [by f_equal|]. split.
      * intros [|k] Hk; cbn [take]; [cbn; lia|]. rewrite Hrun. apply H2. cbn in Hk. lia.
      * destruct closed; rewrite Hrun; [done|]. destruct H3 as [-> ?]. done.
Qed.

(** ** Lemmas: the down connection *)

Lemma sinkWrite_grows s p : ∃ d, s_out (sinkWrite s p).1 = s_out s ++ d.
Proof.
  unfold sinkWrite. destruct (s_room s) as [k|]; [|by eexists].
  destruct (_ <=? _)%nat; by eexists.
Qed.

Lemma WriteFrame_grows (w : streamWriter) p : ∃ d, stream_out (WriteFrame w p).1 = stream_out w ++ d.
Proof.
  unfold WriteFrame. destruct (zlen p >? MaxPacket); [exists []; by rewrite app_nil_r|].
  destruct w as [s|o]; cbn [asFrameWriter streamWriter_io ioWrite].
  - unfold liftW. destruct (sinkWrite_grows s (be_bytes 2 (wrap 16 (zlen p)))) as [d1 H1].
    destruct (sinkWrite s _) as [s1 [e|]]; cbn in *; [by exists d1|].
    destruct (sinkWrite_grows s1 p) as [d2 H2]. destruct (sinkWrite s1 p) as [s2 e2]; cbn in *.
    exists (d1 ++ d2). by rewrite H2, H1, app_assoc.
  - unfold liftW, cwWriteFrame. destruct (XORKeyStream _ _) as [c1 h]. destruct (xorHead _ _ _) as [c2 b].
    destruct (sinkWrite_grows (cw_w o) (h ++ b)) as [d H]. destruct (sinkWrite _ _) as [s1 e]. cbn in *. by exists d.
Qed.

Lemma writeFrames_grows (w : streamWriter) ps : ∃ d, stream_out (writeFrames w ps).1 = stream_out w ++ d.
Proof.
  revert w. induction ps as [|p ps IH]; intros w; cbn [writeFrames]; [exists []; by rewrite app_nil_r|].
  destruct (WriteFrame_grows w p) as [d1 H1]. destruct (WriteFrame w p) as [w1 [e|]]; cbn in *; [by exists d1|].
  destruct (IH w1) as [d2 H2]. exists (d1 ++ d2). by rewrite H2, H1, app_assoc.
Qed.

(** The bytes on the stream extend [base], which the mutex protected. *)
Definition extends (base : list Z) (c : downCore) : Prop :=
  dc_held c = false ∧ ∃ d, stream_out (dc_obf c) = base ++ d.

Lemma flushViews_extends base c b : extends base c → extends base (flushViews c b).1.
Proof.
  intros [Hh [d Hd]]. unfold flushViews. rewrite Hh. destruct (dc_dead c); [by split; [|exists d]|].
  destruct (writeFrames_grows (dc_obf c) b) as [d' Hd'].
  destruct (writeFrames (dc_obf c) b) as [obf [e|]]; cbn in Hd'; [|destruct (dc_flushOk c)];
    (split; [done|]; exists (d ++ d'); cbn; by rewrite Hd', Hd, app_assoc).
Qed.

(** Nothing happens to the stream while the handler holds the mutex. *)
Definition waiting (obf : streamWriter) (c : downCore) : Prop :=
  dc_held c = true ∧ dc_dead c = false ∧ dc_obf c = obf.

Lemma flushViews_waiting obf c b : waiting obf c → waiting obf (flushViews c b).1.
Proof. intros (Hh & Hd & Ho). unfold flushViews. by rewrite Hh. Qed.

Lemma unblocked_some o w : unblocked o = Some w → o = Next w.
Proof. destruct o as [w'| |]; cbn; try done. destruct (w_err w') as [[]|]; congruence. Qed.

Lemma dexec_core (P : downCore → Prop) w e w' :
  (∀ f b, P f → P (flushViews f b).1) → (∀ frame, e ≠ DAssign frame) → e ≠ DExit → (∀ ok, e ≠ DEnv ok) →
  dexec w e = Some w' → P (w_sink w) → P (w_sink w').
Proof.
  intros Hf H1 H2 H3 He H0. destruct e as [blob|we|frame| |ok]; cbn [dexec] in He; try done.
  - apply unblocked_some in He. unfold downSink in He. destruct (dc_dead _); cbn in He; [by simplify_eq|].
    by eapply (writePacket_core flushViews P).
  - apply unblocked_some in He. by eapply (wexec_core flushViews P).
  - by destruct (H1 frame).
  - by destruct (H3 ok).
Qed.

Lemma drun_extends base w es w' : extends base (w_sink w) → drun w es = Some w' → extends base (w_sink w').
Proof.
  revert w. induction es as [|e es IH]; intros w Hx Hr; cbn [drun] in Hr; [by simplify_eq|].
  apply bind_Some in Hr as (w1 & He & Hr). eapply IH; [|exact Hr].
  destruct e as [blob|we|frame| |ok].
  1,2: refine (dexec_core (extends base) w _ w1 _ _ _ _ He Hx); [apply flushViews_extends|done..].
  - cbn [dexec] in He. destruct Hx as [Hh _]. by rewrite Hh in He.
  - cbn [dexec] in He. destruct Hx as [Hh Hx]. rewrite Hh in He. simplify_eq. by split.
  - cbn [dexec] in He. simplify_eq. destruct Hx. by split.
Qed.

Lemma drun_waiting obf w es w' :
  waiting obf (w_sink w) → drun w es = Some w' →
  ((∀ f, DAssign f ∉ es) ∧ waiting obf (w_sink w')) ∨
  ∃ pre frame post w1, es = pre ++ DAssign frame :: post ∧ (∀ f, DAssign f ∉ pre) ∧
    dc_held (w_sink w1) = false ∧ dc_obf (w_sink w1) = (WriteFrame obf frame).1 ∧ drun w1 post = Some w'.
Proof.
  revert w. induction es as [|e es IH]; intros w Hx Hr; cbn [drun] in Hr.
  { simplify_eq. left. split; [|done]. by intros f ?%elem_of_nil. }
  apply bind_Some in Hr as (w1 & He & Hr).
  assert ((∀ f, e ≠ DAssign f) → waiting obf (w_sink w1) →
    ((∀ f, DAssign f ∉ e :: es) ∧ waiting obf (w_sink w')) ∨
    ∃ pre frame post w1, e :: es = pre ++ DAssign frame :: post ∧ (∀ f, DAssign f ∉ pre) ∧
      dc_held (w_sink w1) = false ∧ dc_obf (w_sink w1) = (WriteFrame obf frame).1 ∧ drun w1 post = Some w') as Hstep.
  { intros Hne Hx1. destruct (IH w1 Hx1 Hr) as [[Hn Hw]|(pre & frame & post & w2 & -> & Hp & Hrest)].
    - left. split; [|done]. intros f [Hf|Hf]%elem_of_cons; [by destruct (Hne f)|by apply (Hn f)].
    - right. exists (e :: pre), frame, post, w2. split; [done|]. split; [|done].
      intros f [Hf|Hf]%elem_of_cons; [by destruct (Hne f)|by apply (Hp f)]. }
  destruct e as [blob|we|frame| |ok].
  1,2: apply Hstep; [done|]; refine (dexec_core (waiting obf) w _ w1 _ _ _ _ He Hx); [apply flushViews_waiting|done..].
  - right. exists [], frame, es, w1. cbn [dexec] in He. destruct Hx as (Hh & Hd & Ho). rewrite Hh in He. simplify_eq.
    split; [done|]. split; [by intros f ?%elem_of_nil|]. split; [|split; [|exact Hr]];
      unfold onDown, writeAssignment; cbn [w_sink]; by destruct (WriteFrame _ frame) as [o err].
  - cbn [dexec] in He. destruct Hx as (Hh & _). by rewrite Hh in He.
  - cbn [dexec] in He. simplify_eq. apply Hstep; [done|]. destruct Hx as (?&?&?). done.
Qed.

(** ** Properties *)

(** The TCP uplink delivers, whatever the limits of its batch (the
    code's are [tcpWriteBufSize] and [streamWriteBatch]): while the connection
    lasts, the frames that reached the stream are, in order and unchanged, the envelopes of the
    packets sent, all of them but the ones still in the batch (none after a
    tick), and a receiver whose cipher is in step with the sender reads exactly
    these frames. *)
Theorem tcp_uplink_stream cap k c0 obf0 r0 sends w' obf' :
  (0 < k)%nat → oc_obf c0 = Some obf0 → stream_sync obf0 r0 →
  Forall (λ ep : Envelope * list Z, Forall u8 (ownerBytes (Env_Owner ep.1)) ∧ Forall u8 ep.2) (omap id sends) →
  qrun flush (NewWriter c0 cap k)
    (map (λ o, match o with Some (e, p) => QPut (PutEnvelope e p) | None => QTick end) sends) = Some w' →
  oc_obf (w_sink w') = Some obf' →
  ∃ framed delta r', framed ++ pending w' = map (λ ep, PutEnvelope ep.1 ep.2) (omap id sends) ∧
    stream_out obf' = stream_out obf0 ++ delta ∧
    ∀ rest, readFrames (length framed) (stream_feed r0 (delta ++ rest)) MaxPacket = (stream_feed r' rest, Ok framed).
Proof.
  intros Hk Hc0 Hsync Hu8 Hr Hconn. apply qrun_sink in Hr as (log & Hlog & Hq); [|done].
  rewrite Hlog in Hconn. pose proof (replay_connected log c0 obf0 obf' Hc0 Hconn) as Hw.
  assert (puts (map (λ o, match o with Some (e, p) => QPut (PutEnvelope e p) | None => QTick end) sends) =
    map (λ ep, PutEnvelope ep.1 ep.2) (omap id sends)) as Hputs.
  { clear. unfold puts. induction sends as [|[[e p]|] l IH]; cbn; [done| |done]. by f_equal. }
  rewrite Hputs in Hq.
  assert (Forall (Forall u8) (concat log)) as Hb.
  { assert (Forall (Forall u8) (concat log ++ pending w')) as H; [|by apply Forall_app in H as [? _]].
    rewrite Hq. clear -Hu8. induction Hu8 as [|[e p] l [Ho Hp] _ IH]; cbn; constructor; [|done]. by apply PutEnvelope_u8. }
  destruct (frames_law (H1:=stream_link) obf0 r0 (concat log) obf' Hsync Hb Hw) as (delta & r' & He & _ & Hread).
  exists (concat log), delta, r'. split; [done|]. split; [done|]. intros rest. by apply Hread.
Qed.

(** Dialing stays off the packet path and under control: whatever is
    sent, ticked, dialed, reconnected and closed, at most one dial is in flight,
    a closed connection holds no socket, and a dial that completes after the
    close does not install one. *)
Theorem tcp_dial_discipline x es w :
  orun (newTcpConnectOut x) es = Some w →
  (oc_dials (w_sink w) ≤ 1)%nat ∧ (oc_closed (w_sink w) = true → oc_obf (w_sink w) = None) ∧
  ∀ conn draw w', oc_closed (w_sink w) = true → oexec w (ODialDone conn draw) = Some w' → oc_obf (w_sink w') = None.
Proof.
  intros Hr. apply orun_ok in Hr as Hok; [|by split]. pose proof Hok as [H1 H2]. split; [|split; [done|]].
  - rewrite H1. destruct (oc_dialing _); lia.
  - intros conn draw w' Hcl He. apply oexec_ok in He as Hok'; [|done]. apply Hok'.
    cbn [oexec] in He. destruct (_ <? _)%nat; [|done]. simplify_eq. unfold onCore, dialDone. cbn [w_sink setDialing oc_closed].
    destruct conn; cbn; by rewrite Hcl.
Qed.

(** The receiving loop handles a prefix of the frames in order,
    routing each frame that parses to a plausible packet and dropping each
    other; it tears the stream down at the first point where nine frames in a
    row were bad, and never earlier. *)
Theorem stream_reader_tolerance frames :
  let '(out, closed) := runStreamReader frames in
  out = map verdict (take (length out) frames) ∧
  (∀ k, (k < length out)%nat → badRun 0 (take k frames) ≤ 8) ∧
  if closed then badRun 0 (take (length out) frames) = 9
  else length out = length frames ∧ badRun 0 frames ≤ 8.
Proof. by apply (streamLoop_spec 0 frames). Qed.

(** Claim C29.  On every interleaving of the handler with the router's sends and
    the flush ticks, no byte reaches a down connection's stream before the
    assignment; once the assignment was written without error, it is the first
    frame a client in step reads, whatever data follows it. *)
Theorem assignment_first obf0 r0 es w :
  drun (newDownConn obf0) es = Some w → stream_sync obf0 r0 →
  ((∀ f, DAssign f ∉ es) ∧ dc_obf (w_sink w) = obf0) ∨
  ∃ pre frame post, es = pre ++ DAssign frame :: post ∧ (∀ f, DAssign f ∉ pre) ∧
    ((WriteFrame obf0 frame).2 = None → Forall u8 frame →
     ∃ delta d r1, stream_out (dc_obf (w_sink w)) = stream_out obf0 ++ delta ++ d ∧
       ∀ more, ReadFrame (stream_feed r0 (delta ++ more)) MaxPacket = (stream_feed r1 more, Ok frame)).
Proof.
  intros Hr Hsync. destruct (drun_waiting obf0 (newDownConn obf0) es w) as [[Hn Hw]|(pre & frame & post & w1 & -> & Hp & Hh & Ho & Hpost)];
    [done|done| |].
  - left. split; [done|]. apply Hw.
  - right. exists pre, frame, post. split; [done|]. split; [done|]. intros Hok Hu8.
    destruct (WriteFrame obf0 frame) as [obf1 err] eqn:Hwf. cbn in Hok. subst err. cbn in Ho.
    destruct (frame_law (FrameLink:=stream_link) obf0 r0 frame obf1 Hsync Hu8 Hwf) as (delta & r1 & He & _ & Hread).
    cbn [emitted stream_link] in He.
    destruct (drun_extends (stream_out obf1) w1 post w) as (_ & d & Hd); [|done|].
    { split; [done|]. exists []. by rewrite Ho, app_nil_r. }
    exists delta, d, r1. split; [by rewrite Hd, He, app_assoc|]. intros more. by apply Hread.
Qed.

(** The frames [stream] receives over the life of the connection. *)
Definition adoptAll (c : tcpConnectIn) (fs : list (list Z)) : tcpConnectIn := fold_left (λ c f, (adoptAssignment c f).1) fs c.

Lemma adopt_monotone c f : ti_lastAssign c ≤ ti_lastAssign (adoptAssignment c f).1 ∧ ti_key (adoptAssignment c f).1 = ti_key c.
Proof.
  unfold adoptAssignment. destruct (decodeControl f (ti_key c)) as [[[[typ aid] fl] ts]|]; [|by split].
  destruct (_ && _); [|by split]. destruct (_ <? ts) eqn:H; unbool; cbn; split; done || lia.
Qed.

Lemma adoptAll_monotone c fs : ti_lastAssign c ≤ ti_lastAssign (adoptAll c fs) ∧ ti_key (adoptAll c fs) = ti_key c.
Proof.
  revert c. induction fs as [|f fs IH]; intros c; [by split|]. destruct (adopt_monotone c f) as [H1 H2].
  destruct (IH (adoptAssignment c f).1) as [H3 H4]. unfold adoptAll in *. cbn [fold_left]. split; [lia|congruence].
Qed.

(** A client adopts only non-zero ids assigned under its key, each
    with a stamp newer than the one before, and an assignment it once adopted is
    never adopted again, whatever it received in between. *)
Theorem assignment_no_replay c f c1 id fs :
  adoptAssignment c f = (c1, Some id) →
  (∃ fl ts, decodeControl f (ti_key c) = Some (MsgAssignID, id, fl, ts) ∧ ti_lastAssign c < ts ∧ ti_lastAssign c1 = ts) ∧
  id ≠ zeroOwner ∧ ti_curID c1 = id ∧
  adoptAssignment (adoptAll c1 fs) f = (adoptAll c1 fs, None).
Proof.
  intros Ha. unfold adoptAssignment in Ha. destruct (decodeControl f (ti_key c)) as [[[[typ aid] fl] ts]|] eqn:Hd; [|done].
  destruct (_ && _) eqn:Hg; [|done]. apply andb_prop in Hg as [Ht%Z.eqb_eq Hz%negb_true_iff].
  destruct (_ <? ts) eqn:Hlt; [|done]. apply Z.ltb_lt in Hlt. injection Ha as <- <-.
  split. { exists fl, ts. split; [by rewrite Ht|done]. }
  split; [by apply IsZero_false|]. split; [done|].
  set (c1 := MkTcpIn _ _ _ _). destruct (adoptAll_monotone c1 fs) as [Hm Hk]. cbn in Hm, Hk.
  unfold adoptAssignment. rewrite Hk, Hd, Ht, Hz. cbn [negb andb Z.eqb MsgAssignID Pos.eqb].
  destruct (_ <? ts) eqn:Hlt'; unbool; [lia|done].
Qed.

(** ** Concrete connections *)

Module TcpDemo.
Definition key : list Z := replicate 32 7.
Definition nonce : list Z := replicate 12 1.
Definition obf0 : streamWriter := ChachaWriter (MkCW (MkSink [] None) (newChacha4Cipher key nonce) 16).
Definition r0 : streamReader := ChachaReader (MkCR [] (newChacha4Cipher key nonce) 16).
Definition core : outCore := MkOutCore (chacha4Stream key 16) (Some obf0) false false 0 0 0 true.
Definition pkt : list Z := [0x45; 0; 0; 20; 0; 0; 0; 0; 64; 6; 0; 0; 10; 0; 0; 1; 1; 1; 1; 1].
Definition sends : list (option (Envelope * list Z)) :=
  [Some (MkEnvelope ownA false, pkt); None; Some (MkEnvelope ownB true, [1; 2; 3])].
Definition ops : list qop := map (λ o, match o with Some (e, p) => QPut (PutEnvelope e p) | None => QTick end) sends.
Definition cin : tcpConnectIn := MkTcpIn key 0 zeroOwner 5.
End TcpDemo.

Lemma TcpDemo_sync : stream_sync TcpDemo.obf0 TcpDemo.r0.
Proof. split; [done|]. split; [done|]. do 3 eexists. split; apply cursor_new. Qed.

Lemma tcp_uplink_stream_witness :
  ∃ w' obf' framed delta r',
    qrun flush (NewWriter TcpDemo.core 64 4) TcpDemo.ops = Some w' ∧
    framed ++ pending w' = [PutEnvelope (MkEnvelope ownA false) TcpDemo.pkt; PutEnvelope (MkEnvelope ownB true) [1; 2; 3]] ∧
    stream_out obf' = stream_out TcpDemo.obf0 ++ delta ∧
    readFrames (length framed) (stream_feed TcpDemo.r0 (delta ++ [])) MaxPacket = (stream_feed r' [], Ok framed).
Proof.
  eassert (qrun flush (NewWriter TcpDemo.core 64 4) TcpDemo.ops = Some _) as Hq by (vm_compute; reflexivity).
  match type of Hq with _ = Some ?w => set (w' := w) in Hq end.
  destruct (oc_obf (w_sink w')) as [obf'|] eqn:Ho; [|discriminate Ho].
  destruct (tcp_uplink_stream 64 4 TcpDemo.core TcpDemo.obf0 TcpDemo.r0 TcpDemo.sends w' obf') as (framed & delta & r' & H1 & H2 & H3).
  - lia.
  - reflexivity.
  - apply TcpDemo_sync.
  - repeat constructor; cbn; lia.
  - exact Hq.
  - exact Ho.
  - exists w', obf', framed, delta, r'. split; [exact Hq|]. split; [exact H1|]. split; [exact H2|apply H3].
Defined.

(** A send while disconnected starts a dial, which completes after the close. *)
Definition demoDialEvents : list oevent :=
  [OSend (MkEnvelope ownA false) [1; 2; 3]; OWriter EvTryFlush; OClose; ODialDone (Some (MkSink [] None)) (0, 0)].

Lemma tcp_dial_discipline_witness :
  ∃ w, orun (newTcpConnectOut noneStream) demoDialEvents = Some w ∧
    (oc_dials (w_sink w) ≤ 1)%nat ∧ (oc_closed (w_sink w) = true → oc_obf (w_sink w) = None).
Proof.
  assert (bool_decide (is_Some (orun (newTcpConnectOut noneStream) demoDialEvents)) = true) as Hs by (vm_compute; reflexivity).
  destruct (orun (newTcpConnectOut noneStream) demoDialEvents) as [w|] eqn:Hr; [|discriminate Hs].
  exists w. split; [reflexivity|]. destruct (tcp_dial_discipline noneStream _ w Hr) as (H1 & H2 & _). by split.
Defined.

Definition demoAssign : list Z := encodeControl MsgAssignID ownA 0 9 TcpDemo.key.
Definition demoDownEvents : list devent := [DSend TcpDemo.pkt; DAssign demoAssign; DWriter EvTryFlush].

Lemma assignment_first_witness :
  ∃ w, drun (newDownConn TcpDemo.obf0) demoDownEvents = Some w ∧
    ∃ delta d r1, stream_out (dc_obf (w_sink w)) = stream_out TcpDemo.obf0 ++ delta ++ d ∧
       ∀ more, ReadFrame (stream_feed TcpDemo.r0 (delta ++ more)) MaxPacket = (stream_feed r1 more, Ok demoAssign).
Proof.
  assert (bool_decide (is_Some (drun (newDownConn TcpDemo.obf0) demoDownEvents)) = true) as Hs by (vm_compute; reflexivity).
  destruct (drun (newDownConn TcpDemo.obf0) demoDownEvents) as [w|] eqn:Hr; [|discriminate Hs].
  exists w. split; [reflexivity|].
  destruct (assignment_first TcpDemo.obf0 TcpDemo.r0 _ w Hr TcpDemo_sync) as [[Hn _]|(pre & f & post & He & Hp & Hok)].
  - destruct (Hn demoAssign). right. left.
  - assert (f = demoAssign) as ->.
    { destruct pre as [|a [|b pre]]; [discriminate He|by injection He|].
      exfalso. injection He as _ <- _. apply (Hp demoAssign). right. left. }
    apply Hok; [vm_compute; reflexivity|]. unfold demoAssign. apply encodeControl_u8; [cbn beta; unfold MsgAssignID; lia| |cbn beta; lia].
    repeat constructor; cbn; lia.
Defined.

Lemma assignment_no_replay_witness :
  let f := encodeControl MsgAssignID ownA 0 9 TcpDemo.key in
  ∃ c1, adoptAssignment TcpDemo.cin f = (c1, Some ownA) ∧ adoptAssignment (adoptAll c1 [[]]) f = (adoptAll c1 [[]], None).
Proof.
  intros f. eexists. split; [vm_compute; reflexivity|].
  eapply (assignment_no_replay TcpDemo.cin f _ ownA [[]]). vm_compute. reflexivity.
Defined.
