(* ===== verification/Http.v ===== *)
(** * internal/conn/http.go: the HTTP carrier

    An upload is a chunked POST body, a download a held-open GET response; both
    carry the frames of the stream ciphers of Cipher.v.  A body under its
    cipher is a [Sink] of Wire.v; [chunkedWrite] is the code that puts such a
    body on the socket.  net/http itself (parsing of requests, responses and
    the chunked coding on the far side) is not modelled: a request is the
    method, path and header values the handlers read, looked up by canonical name
    as net/http does, and handlers, dials and clocks are events.  Handlers and streams are numbered in order of creation. *)

From S2P Require Import Prelude GoBytes GoStrings Sha256 Wire ChaCha Cipher PktWriter Control Peers Tcp.
Local Open Scope Z_scope.

Definition defaultUserAgent : string := "Mozilla/5.0".
Definition UpstreamPath : string := "/upload".
Definition DownstreamPath : string := "/download".
Definition HeaderID : string := "X-Upload-Tag".

Record HTTPParams := MkHTTPParams {
  hp_UploadPath : string;
  hp_DownloadPath : string;
  hp_Host : string;
  hp_UserAgent : string;
  hp_IDHeader : string;
  hp_Headers : list (string * string);   (** in the order the map is iterated *)
}.

Definition orDefault (s d : string) : string := if String.eqb s "" then d else s.

Definition withDefaults (h : HTTPParams) (dialHost : string) : HTTPParams :=
  MkHTTPParams (orDefault (hp_UploadPath h) UpstreamPath) (orDefault (hp_DownloadPath h) DownstreamPath)
    (orDefault (hp_Host h) dialHost) (orDefault (hp_UserAgent h) defaultUserAgent)
    (orDefault (hp_IDHeader h) HeaderID) (hp_Headers h).

(** ** chunkedWriter *)

(** [strconv.AppendInt(_, n, 16)] for [0 <= n < 16^fuel]. *)
Fixpoint hexInt (fuel : nat) (n : Z) : list Z :=
  match fuel with
  | O => []
  | S fuel' => (if n <? 16 then [] else hexInt fuel' (n / 16)) ++ [hex_digit (n `mod` 16)]
  end.

Definition crlf : list Z := [13; 10].

Definition chunkOf (p : list Z) : list Z := hexInt 16 (zlen p) ++ crlf ++ p ++ crlf.

Definition chunkedWrite (w : Sink) (p : list Z) : Sink * option ioerr :=
  if (length p =? 0)%nat then (w, None) else sinkWrite w (chunkOf p).

(** A caller writing pieces until the first error. *)
Fixpoint chunkedWrites (w : Sink) (ps : list (list Z)) : Sink * option ioerr :=
  match ps with
  | [] => (w, None)
  | p :: ps' =>
      match chunkedWrite w p with
      | (w1, None) => chunkedWrites w1 ps'
      | (w1, Some err) => (w1, Some err)
      end
  end.

(** Specification: the chunked transfer coding seen by the far side.  The size
    line's digits, then the data and its line end; nothing when the chunk is
    not there in full. *)
Fixpoint chunkSize (acc : Z) (bs : list Z) : option (Z * list Z) :=
  match bs with
  | [] => None
  | b :: bs' =>
      match hex_value b with
      | Some v => chunkSize (acc * 16 + v) bs'
      | None => if b =? 13 then match bs' with 10 :: bs'' => Some (acc, bs'') | _ => None end else None
      end
  end.

Definition readChunk (bs : list Z) : option (list Z * list Z) :=
  match chunkSize 0 bs with
  | Some (n, bs') =>
      if n + 2 <=? zlen bs' then Some (take (Z.to_nat n) bs', drop (Z.to_nat n + 2) bs') else None
  | None => None
  end.

Fixpoint dechunk (fuel : nat) (bs : list Z) : list (list Z) :=
  match fuel with
  | O => []
  | S fuel' => match readChunk bs with Some (p, bs') => p :: dechunk fuel' bs' | None => [] end
  end.

(** ** httpConnectOut *)

Inductive httpErr :=
| HBackoff | HDial | HIo (e : ioerr) | HDead | HFlush
| HNil.   (** use of a nil writer: a panic *)

#[export] Instance httpErr_eq_dec : EqDecision httpErr.
Proof. solve_decision. Defined.

(** A live connection: its socket up to the request head, and the cipher over
    the chunked body. *)
Record upConn := MkUpConn { uc_socket : Sink; uc_obf : streamWriter }.

Record httpConnectOut := MkHttpOut {
  ho_path : string;
  ho_hostHeader : string;
  ho_userAgent : string;
  ho_idHeader : string;
  ho_headers : list (string * string);
  ho_chanID : string;
  ho_cipher : streamCipher;
  ho_maxAge : Z;
  ho_conn : option upConn;       (** [None]: not connected *)
  ho_connectedAt : Z;
  ho_nextRetry : Z;
}.

Definition setConn (c : httpConnectOut) (conn : option upConn) (at_ : Z) : httpConnectOut :=
  MkHttpOut (ho_path c) (ho_hostHeader c) (ho_userAgent c) (ho_idHeader c) (ho_headers c) (ho_chanID c)
    (ho_cipher c) (ho_maxAge c) conn at_ (ho_nextRetry c).
Definition setNextRetry (c : httpConnectOut) (t : Z) : httpConnectOut :=
  MkHttpOut (ho_path c) (ho_hostHeader c) (ho_userAgent c) (ho_idHeader c) (ho_headers c) (ho_chanID c)
    (ho_cipher c) (ho_maxAge c) (ho_conn c) (ho_connectedAt c) t.

Definition hoReset (c : httpConnectOut) : httpConnectOut := setConn c None (ho_connectedAt c).

Definition line (s : string) : list Z := strBytes s ++ crlf.

(** The request head [connectLocked] builds. *)
Definition requestHead (c : httpConnectOut) : list Z :=
  line ("POST " +:+ ho_path c +:+ " HTTP/1.1") ++
  line ("Host: " +:+ ho_hostHeader c) ++
  line ("User-Agent: " +:+ ho_userAgent c) ++
  line (ho_idHeader c +:+ ": " +:+ ho_chanID c) ++
  line "Content-Type: application/octet-stream" ++
  concat (map (λ kv, line (kv.1 +:+ ": " +:+ kv.2)) (ho_headers c)) ++
  line "Transfer-Encoding: chunked" ++ crlf.

(** The outcome of the dial: the socket, and how much body it will take. *)
Definition connectLocked (c : httpConnectOut) (dial : option (Sink * option nat)) (draw : Z * Z) (now : Z)
    : httpConnectOut * option httpErr :=
  match dial with
  | None => (c, Some HDial)
  | Some (s, room) =>
      match sinkWrite s (requestHead c) with
      | (_, Some err) => (c, Some (HIo err))
      | (s', None) =>
          match WrapWriter (ho_cipher c) draw (MkSink [] room) with
          | Err err => (c, Some (HIo err))
          | Ok obf => (setConn c (Some (MkUpConn s' obf)) now, None)
          end
      end
  end.

(** The clock at the start of the call and after a dial or write. *)
Definition writeBlob (c : httpConnectOut) (u : upConn) (later : Z) (blob : list Z) : httpConnectOut * option httpErr :=
  match WriteFrame (uc_obf u) blob with
  | (_, Some err) => (setNextRetry (hoReset c) (later + reconnectBackoff), Some (HIo err))
  | (obf, None) => (setConn c (Some (MkUpConn (uc_socket u) obf)) (ho_connectedAt c), None)
  end.

Definition expire (c : httpConnectOut) (now : Z) : httpConnectOut :=
  if bool_decide (is_Some (ho_conn c)) && (0 <? ho_maxAge c) && (ho_maxAge c <? now - ho_connectedAt c)
  then hoReset c else c.

Definition hoSend (c0 : httpConnectOut) (now later : Z) (dial : option (Sink * option nat)) (draw : Z * Z)
    (e : Envelope) (payload : list Z) : httpConnectOut * option httpErr :=
  let c := expire c0 now in
  match ho_conn c with
  | Some u => writeBlob c u later (PutEnvelope e payload)
  | None =>
      if now <? ho_nextRetry c then (c, Some HBackoff)
      else match connectLocked c dial draw later with
      | (c', Some err) => (setNextRetry c' (later + reconnectBackoff), Some err)
      | (c', None) =>
          match ho_conn c' with
          | Some u => writeBlob c' u later (PutEnvelope e payload)
          | None => (c', Some HDead)   (* not reached: [connectLocked] succeeded *)
          end
      end
  end.

Definition hoReconnect (c : httpConnectOut) : httpConnectOut := setNextRetry (hoReset c) 0.
Definition hoClose (c : httpConnectOut) : httpConnectOut := hoReset c.

(** ** httpConnectIn *)

Record httpConnectIn := MkHttpIn {
  hi_userAgent : string;
  hi_idHeader : string;
  hi_headers : list (string * string);
  hi_key : list Z;
  hi_sendTS : Z;
  hi_curID : Owner;
  hi_lastAssign : Z;
}.

(** The headers of the GET, in the order they are set. *)
Definition hiRequest (c : httpConnectIn) (now : Z) : httpConnectIn * list (string * list Z) :=
  let ts := nextTSAttempt (wrap 64 now) (hi_sendTS c) in
  (MkHttpIn (hi_userAgent c) (hi_idHeader c) (hi_headers c) (hi_key c) ts (hi_curID c) (hi_lastAssign c),
   [("User-Agent", strBytes (hi_userAgent c));
    (hi_idHeader c, ownerHex (hi_curID c));
    (sigHeaderName (hi_idHeader c), authToken (hi_key c) authDomainReg (hi_curID c) ts)] ++
   map (λ kv, (kv.1, strBytes kv.2)) (hi_headers c)).

(** The assignment of a response: the values of its id and signature headers
    (empty when absent).  The second component is the id handed to the setter. *)
Definition hiAdopt (c : httpConnectIn) (idh sig : list Z) : httpConnectIn * option Owner :=
  match idh with
  | [] => (c, None)
  | _ =>
      let assigned := parseOwnerHex idh in
      if IsZero assigned then (c, None)
      else match verifyAuthToken (hi_key c) authDomainAssign assigned sig with
      | None => (c, None)
      | Some ts =>
          if hi_lastAssign c <? ts then
            (MkHttpIn (hi_userAgent c) (hi_idHeader c) (hi_headers c) (hi_key c) (hi_sendTS c) assigned ts,
             Some assigned)
          else (c, None)
      end
  end.

(** ** httpListenIn: one handler per channel id *)

Record httpListenIn := MkHttpListenIn {
  hn_active : gmap string nat;
  hn_cancelled : gset nat;      (** handlers whose [cancel] ran *)
}.

Definition hnReplace (c : httpListenIn) (id : string) (h : nat) : httpListenIn :=
  MkHttpListenIn (<[id := h]> (hn_active c))
    (match hn_active c !! id with Some old => {[old]} ∪ hn_cancelled c | None => hn_cancelled c end).

Definition hnRemove (c : httpListenIn) (id : string) (h : nat) : httpListenIn :=
  if bool_decide (hn_active c !! id = Some h) then MkHttpListenIn (delete id (hn_active c)) (hn_cancelled c)
  else c.

(** [serveHTTP]'s handlers: a POST enters under its channel id, and leaves. *)
Inductive nevent := NEnter (chanID : string) | NLeave (h : nat).

Record nstate := MkNState {
  ns_c : httpListenIn;
  ns_running : gmap nat string;
  ns_next : nat;
}.

Definition nexec (s : nstate) (e : nevent) : option nstate :=
  match e with
  | NEnter id => Some (MkNState (hnReplace (ns_c s) id (ns_next s)) (<[ns_next s := id]> (ns_running s)) (S (ns_next s)))
  | NLeave h =>
      match ns_running s !! h with
      | Some id => Some (MkNState (hnRemove (ns_c s) id h) (delete h (ns_running s)) (ns_next s))
      | None => None
      end
  end.

Fixpoint nrun (s : nstate) (es : list nevent) : option nstate :=
  match es with [] => Some s | e :: es' => s' ← nexec s e; nrun s' es' end.

Definition nstart : nstate := MkNState (MkHttpListenIn ∅ ∅) ∅ 0.

(** ** httpListenOut: download streams *)

Record httpListenOut := MkHttpListenOut {
  hl_path : string;
  hl_idHeader : string;
  hl_key : list Z;
  hl_maxPeers : Z;
  hl_multiple : bool;
  hl_assignTS : Z;
  hl_byID : gmap Owner nat;
  hl_lastTS : gmap Owner Z;
  hl_done : gset nat;           (** streams whose [done] channel is closed *)
}.

Definition setStreams (c : httpListenOut) byID lastTS done_ : httpListenOut :=
  MkHttpListenOut (hl_path c) (hl_idHeader c) (hl_key c) (hl_maxPeers c) (hl_multiple c) (hl_assignTS c)
    byID lastTS done_.

(** [for { id = randomOwner(); if !exists { break } }] over the raw draws. *)
Fixpoint mintFree (byID : gmap Owner nat) (draws : list Owner) : option Owner :=
  match draws with
  | [] => None
  | d :: draws' =>
      if IsZero d then mintFree byID draws'   (* randomOwner draws again *)
      else match byID !! d with None => Some d | Some _ => mintFree byID draws' end
  end.

Inductive reserved :=
| Refused
| Reserved (c : httpListenOut) (id : Owner)
| NoDraw            (** the given draws do not end the mint loop *)
| ClosePanic.       (** [close] of a closed channel *)

Definition full (c : httpListenOut) : bool :=
  (0 <? hl_maxPeers c) && (hl_maxPeers c <=? Z.of_nat (size (hl_byID c))).

(** The tail of [reserve], common to both paths. *)
Definition install (c : httpListenOut) (id : Owner) (ts : Z) (dc : nat) : reserved :=
  let byID := <[id := dc]> (hl_byID c) in
  let lastTS := <[id := ts]> (hl_lastTS c) in
  match hl_byID c !! id with
  | None => Reserved (setStreams c byID lastTS (hl_done c)) id
  | Some old =>
      if bool_decide (old ∈ hl_done c) then ClosePanic
      else Reserved (setStreams c byID lastTS ({[old]} ∪ hl_done c)) id
  end.

Definition reserve (c : httpListenOut) (claimed : Owner) (ts : Z) (dc : nat) (draws : list Owner) : reserved :=
  let id := if hl_multiple c then claimed else zeroOwner in
  if hl_multiple c && IsZero claimed then
    if full c then Refused
    else match mintFree (hl_byID c) draws with
    | None => NoDraw
    | Some id => install c id ts dc
    end
  else
    if ts <=? default 0 (hl_lastTS c !! id) then Refused
    else if bool_decide (hl_byID c !! id = None) && full c then Refused
    else install c id ts dc.

Definition hlRemove (c : httpListenOut) (id : Owner) (dc : nat) : httpListenOut :=
  if bool_decide (hl_byID c !! id = Some dc) then setStreams c (delete id (hl_byID c)) (hl_lastTS c) (hl_done c)
  else c.

Definition lookupStream (c : httpListenOut) (owner : Owner) : option nat :=
  if hl_multiple c then hl_byID c !! owner else hl_byID c !! zeroOwner.

Definition hlAccepts (c : httpListenOut) (owner : Owner) : bool :=
  bool_decide (is_Some (lookupStream c owner)).

(** What the handler reads of a request. *)
Record request := MkRequest {
  rq_method : string;
  rq_path : string;
  rq_id : list Z;       (** the id header, empty when absent *)
  rq_sig : list Z;      (** the signature header *)
}.

(** [serveHTTP] up to the installed stream: 404, or the id reserved and the
    headers of the response. *)
Inductive served :=
| NotFound
| Serving (c : httpListenOut) (id : Owner) (headers : list (string * list Z))
| ServeNoDraw
| ServePanic.

Definition serveDown (c : httpListenOut) (r : request) (dc : nat) (draws : list Owner) (now : Z) : served :=
  if negb (String.eqb (rq_method r) "GET") || negb (String.eqb (rq_path r) (hl_path c)) then NotFound
  else
    let claimed := parseOwnerHex (rq_id r) in
    match verifyAuthToken (hl_key c) authDomainReg claimed (rq_sig r) with
    | None => NotFound
    | Some ts =>
        match reserve c claimed ts dc draws with
        | Refused => NotFound
        | NoDraw => ServeNoDraw
        | ClosePanic => ServePanic
        | Reserved c id =>
            let ctype := ("Content-Type", strBytes "application/octet-stream") in
            if hl_multiple c then
              let ats := nextTSAttempt (wrap 64 now) (hl_assignTS c) in
              Serving (MkHttpListenOut (hl_path c) (hl_idHeader c) (hl_key c) (hl_maxPeers c) (hl_multiple c) ats
                         (hl_byID c) (hl_lastTS c) (hl_done c)) id
                [ctype; (hl_idHeader c, ownerHex id);
                 (sigHeaderName (hl_idHeader c), authToken (hl_key c) authDomainAssign id ats)]
            else Serving c id [ctype]
        end
    end.

(** The streams of a listener: each request that reserves, and each handler
    that returns. *)
Inductive hevent :=
| HServe (r : request) (draws : list Owner) (now : Z)
| HExit (dc : nat).

Record hstate := MkHState {
  hs_c : httpListenOut;
  hs_running : gmap nat Owner;    (** handlers between [reserve] and [remove] *)
  hs_next : nat;
}.

Definition hexec (s : hstate) (e : hevent) : option hstate :=
  match e with
  | HServe r draws now =>
      match serveDown (hs_c s) r (hs_next s) draws now with
      | NotFound => Some (MkHState (hs_c s) (hs_running s) (S (hs_next s)))
      | Serving c id _ => Some (MkHState c (<[hs_next s := id]> (hs_running s)) (S (hs_next s)))
      | ServeNoDraw | ServePanic => None
      end
  | HExit dc =>
      match hs_running s !! dc with
      | Some id => Some (MkHState (hlRemove (hs_c s) id dc) (delete dc (hs_running s)) (hs_next s))
      | None => None
      end
  end.

Fixpoint hrun (s : hstate) (es : list hevent) : option hstate :=
  match es with [] => Some s | e :: es' => s' ← hexec s e; hrun s' es' end.

(** ** httpDownConn *)

Record hdCore := MkHdCore {
  hd_obf : option streamWriter;    (** nil until the handler installed it *)
  hd_live : bool;
  hd_phase : nat;                  (** the handler: 0 reserved, 1 installed, 2 live, 3 torn down *)
  hd_flushOk : bool;               (** environment: the response takes a flush *)
}.

Definition setLive (c : hdCore) (obf : option streamWriter) (live : bool) : hdCore :=
  MkHdCore obf live (hd_phase c) (hd_flushOk c).

Definition hdFlushViews (c : hdCore) (views : list (list Z)) : hdCore * option httpErr :=
  if negb (hd_live c) then (c, Some HDead)
  else match hd_obf c with
  | None => (c, Some HNil)
  | Some obf =>
      match writeFrames obf views with
      | (obf', Some err) => (setLive c (Some obf') false, Some (HIo err))
      | (obf', None) =>
          if hd_flushOk c then (setLive c (Some obf') true, None)
          else (setLive c (Some obf') false, Some HFlush)
      end
  end.

Definition httpDownConn : Type := Writer hdCore httpErr.

Definition newHttpDown : httpDownConn :=
  NewWriter (MkHdCore None false 0 true) tcpWriteBufSize streamWriteBatch.

Definition onHd (f : hdCore → hdCore) (w : httpDownConn) : httpDownConn :=
  MkWriter (w_arena w) (w_alen w) (w_views w) (w_vcap w) (w_err w) (w_mu w) (f (w_sink w)).

(** The handler: [dc.obf, dc.rc = obf, rc], then [dc.live.Store(true)], then
    at its end [teardown]. *)
Definition hdInstall (c : hdCore) (obf : streamWriter) : hdCore := MkHdCore (Some obf) (hd_live c) 1 (hd_flushOk c).
Definition hdGoLive (c : hdCore) : hdCore := MkHdCore (hd_obf c) true 2 (hd_flushOk c).
Definition hdTeardown (c : hdCore) : hdCore := MkHdCore (hd_obf c) false 3 (hd_flushOk c).

(** [Send] on a looked-up stream: delivered or not. *)
Definition hdSend (w : httpDownConn) (e : Envelope) (payload : list Z) : outcome hdCore httpErr * bool :=
  if negb (hd_live (w_sink w)) then (Next w, false)
  else (writePacket hdFlushViews w (PutEnvelope e payload), true).

(** [Send] of the listener over its streams' connections. *)
Definition hlSend (c : httpListenOut) (conns : gmap nat httpDownConn) (e : Envelope) (payload : list Z)
    : option (gmap nat httpDownConn * bool) :=
  match lookupStream c (Env_Owner e) with
  | None => Some (conns, false)
  | Some dc =>
      match conns !! dc with
      | None => None
      | Some w =>
          match hdSend w e payload with
          | (Next w', ok) => Some (<[dc := w']> conns, ok)
          | _ => None
          end
      end
  end.

Inductive hdevent :=
| HdSend (e : Envelope) (payload : list Z)
| HdWriter (we : wevent)        (** the flush group's tick; pieces of a concurrent send *)
| HdInstall (obf : streamWriter)
| HdGoLive
| HdTeardown
| HdEnv (flushOk : bool).

Definition nextW (o : outcome hdCore httpErr) : option httpDownConn :=
  match o with Next w => Some w | _ => None end.

Definition hdexec (w : httpDownConn) (e : hdevent) : option httpDownConn :=
  match e with
  | HdSend e payload => nextW (hdSend w e payload).1
  | HdWriter we => nextW (wexec hdFlushViews w we)
  | HdInstall obf => if (hd_phase (w_sink w) =? 0)%nat then Some (onHd (λ c, hdInstall c obf) w) else None
  | HdGoLive => if (hd_phase (w_sink w) =? 1)%nat then Some (onHd hdGoLive w) else None
  | HdTeardown => if (hd_phase (w_sink w) =? 2)%nat then Some (onHd hdTeardown w) else None
  | HdEnv ok => Some (onHd (λ c, MkHdCore (hd_obf c) (hd_live c) (hd_phase c) ok) w)
  end.

Fixpoint hdrun (w : httpDownConn) (es : list hdevent) : option httpDownConn :=
  match es with [] => Some w | e :: es' => w' ← hdexec w e; hdrun w' es' end.

(** ** Lemmas: the chunked coding *)

Definition nonEmpty (p : list Z) : bool := negb (length p =? 0)%nat.

Lemma hexInt_size f n rest :
  (0 < f)%nat → 0 ≤ n < 16 ^ Z.of_nat f → chunkSize 0 (hexInt f n ++ rest) = chunkSize n rest.
Proof.
  revert n rest. induction f as [|f IH]; intros n rest Hf Hn; [lia|]. cbn [hexInt].
  assert (0 ≤ n `mod` 16 < 16) as Hm by (apply Z.mod_pos_bound; lia).
  destruct (n <? 16) eqn:Hs; unbool.
  - cbn [app chunkSize]. rewrite hex_value_digit by done. by rewrite Z.mod_small by lia.
  - rewrite Nat2Z.inj_succ, Z.pow_succ_r in Hn by lia. rewrite <- app_assoc.
    destruct f as [|f]; [cbn in Hn; lia|]. rewrite IH; [|lia|split; [apply Z.div_pos; lia|apply Z.div_lt_upper_bound; lia]].
    cbn [app chunkSize]. rewrite hex_value_digit by done. f_equal. pose proof (Z.div_mod n 16). lia.
Qed.

Lemma chunkSize_crlf n l : chunkSize n (crlf ++ l) = Some (n, l).
Proof. done. Qed.

Definition hexDigit (b : Z) : Prop := is_Some (hex_value b).

Lemma hexInt_digits f n : 0 ≤ n → Forall hexDigit (hexInt f n).
Proof.
  revert n. induction f as [|f IH]; intros n Hn; cbn [hexInt]; [constructor|]. apply Forall_app. split.
  - destruct (n <? 16); [constructor|]. apply IH, Z.div_pos; lia.
  - constructor; [|constructor]. eexists. apply hex_value_digit, Z.mod_pos_bound. lia.
Qed.

Lemma chunkSize_short acc h j :
  Forall hexDigit h → (j < length h + 2)%nat → chunkSize acc (take j (h ++ crlf)) = None.
Proof.
  intros Hh. revert acc j. induction Hh as [|b h [v Hv] _ IH]; intros acc j Hj.
  - cbn [length] in Hj. do 2 (destruct j as [|j]; [done|]). lia.
  - cbn [length] in Hj. destruct j as [|j]; [done|]. cbn [app take chunkSize]. rewrite Hv. apply IH. lia.
Qed.

Lemma readChunk_whole p rest : zlen p < 16 ^ 16 → readChunk (chunkOf p ++ rest) = Some (p, rest).
Proof.
  intros Hp. unfold readChunk, chunkOf. rewrite <- !app_assoc.
  rewrite hexInt_size; [|lia|split; [apply zlen_nonneg|exact Hp]].
  rewrite chunkSize_crlf.
  destruct (_ <=? _) eqn:H; unbool; [|rewrite !zlen_app in H; unfold zlen, crlf in H; cbn in H; lia].
  unfold zlen. rewrite Nat2Z.id, take_app_length, <- drop_drop, drop_app_length. done.
Qed.

Lemma readChunk_part p j :
  zlen p < 16 ^ 16 → (j < length (chunkOf p))%nat → readChunk (take j (chunkOf p)) = None.
Proof.
  intros Hp Hj. unfold readChunk. set (h := hexInt 16 (zlen p)).
  assert (chunkOf p = (h ++ crlf) ++ p ++ crlf) as Hc by (unfold chunkOf, h; by rewrite <- !app_assoc).
  destruct (decide (j < length h + 2)%nat) as [Hs|Hs].
  - rewrite Hc, take_app_le by (rewrite length_app; cbn [length crlf]; lia).
    by rewrite chunkSize_short; [|apply hexInt_digits, zlen_nonneg|done].
  - rewrite Hc in Hj |- *. rewrite !length_app in Hj. cbn [length crlf] in Hj.
    rewrite take_app_ge by (rewrite length_app; cbn [length crlf]; lia). rewrite <- app_assoc. unfold h at 1.
    rewrite hexInt_size; [|lia|split; [apply zlen_nonneg|exact Hp]].
    rewrite chunkSize_crlf.
    destruct (_ <=? _) eqn:H; unbool; [|done]. exfalso. unfold zlen in H.
    rewrite length_take, !length_app in H. cbn [length crlf] in H. lia.
Qed.

(** What a failed socket write leaves behind is a proper prefix. *)
Lemma sinkWrite_err s p s' e : sinkWrite s p = (s', Some e) →
  ∃ j, (j < length p)%nat ∧ s_out s' = s_out s ++ take j p.
Proof.
  unfold sinkWrite. destruct (s_room s) as [k|]; [|done]. destruct (_ <=? _)%nat eqn:H; [done|].
  intros Hs. simplify_eq. unbool. by exists k.
Qed.

Lemma chunkedWrites_bytes s ps s' err fuel :
  Forall (λ p, zlen p < 16 ^ 16) ps → chunkedWrites s ps = (s', err) → (length ps < fuel)%nat →
  ∃ delta k, s_out s' = s_out s ++ delta ∧ dechunk fuel delta = take k (base.filter nonEmpty ps) ∧
    (err = None → dechunk fuel delta = base.filter nonEmpty ps).
Proof.
  revert s fuel. induction ps as [|p ps IH]; intros s fuel Hps Hw Hf; cbn [chunkedWrites] in Hw.
  { injection Hw as <- <-. exists [], 0%nat. rewrite app_nil_r. by destruct fuel. }
  apply Forall_cons_1 in Hps as [Hp Hps]. destruct fuel as [|fuel]; [lia|].
  destruct (chunkedWrite s p) as [s1 [e|]] eqn:H1.
  - injection Hw as <- <-. unfold chunkedWrite in H1. destruct (_ =? 0)%nat; [done|].
    apply sinkWrite_err in H1 as (j & Hj & Ho). exists (take j (chunkOf p)), 0%nat.
    split; [done|]. cbn [dechunk]. rewrite readChunk_part by done. by split.
  - unfold chunkedWrite in H1. rewrite filter_cons.
    assert (nonEmpty p = negb (length p =? 0)%nat) as Hne by done. destruct (length p =? 0)%nat.
    + injection H1 as ->. destruct (IH s1 (S fuel) Hps Hw ltac:(cbn in Hf; lia)) as (d & k & H).
      exists d, k. rewrite decide_False; [exact H|]. rewrite Hne. by intros [].
    + apply sinkWrite_ok in H1. destruct (IH s1 fuel Hps Hw ltac:(cbn in Hf; lia)) as (d & k & Ho & Hk & Hn).
      exists (chunkOf p ++ d), (S k). rewrite Ho, H1, <- app_assoc. split; [done|]. cbn [dechunk].
      rewrite readChunk_whole by done. rewrite decide_True by (rewrite Hne; exact I). cbn [take]. rewrite Hk. split; [done|].
      intros He. by rewrite <- Hk, (Hn He).
Qed.

(** The chunked body: whatever pieces are written and wherever the
    socket fails, the far side decodes whole pieces only, in order and unchanged;
    after writes without an error it decodes all of them, the empty ones apart,
    so the body is exactly the stream of bytes the cipher wrote. *)
Theorem chunked_body s ps s' err :
  Forall (λ p, zlen p < 16 ^ 16) ps → chunkedWrites s ps = (s', err) →
  ∃ delta k, s_out s' = s_out s ++ delta ∧
    dechunk (S (length ps)) delta = take k (base.filter nonEmpty ps) ∧
    (err = None → concat (dechunk (S (length ps)) delta) = concat ps).
Proof.
  intros Hps Hw. destruct (chunkedWrites_bytes s ps s' err (S (length ps)) Hps Hw ltac:(lia)) as (d & k & Ho & Hk & Hn).
  exists d, k. split; [done|]. split; [done|]. intros He. rewrite (Hn He). clear.
  induction ps as [|[|b p] ps IH]; [done|exact IH|]. rewrite filter_cons, decide_True by done. cbn [concat]. by rewrite IH.
Qed.

(** ** Lemmas: the uplink connection *)

Inductive uevent :=
| USend (now later : Z) (dial : option (Sink * option nat)) (draw : Z * Z) (e : Envelope) (payload : list Z)
| UReconnect
| UClose.

(** The connection, the blobs of the Sends that returned no error over earlier
    connections, and of those over the one in use: a Send that finds no live
    connection, or one past its age, opens another. *)
Definition ustate : Type := httpConnectOut * list (list Z) * list (list Z).

Definition uexec (s : ustate) (e : uevent) : ustate :=
  let '(c, earlier, live) := s in
  match e with
  | USend now later dial draw e payload =>
      match hoSend c now later dial draw e payload with
      | (c', None) =>
          if bool_decide (is_Some (ho_conn (expire c now))) then (c', earlier, live ++ [PutEnvelope e payload])
          else (c', earlier ++ live, [PutEnvelope e payload])
      | (c', Some _) => (c', earlier, live)
      end
  | UReconnect => (hoReconnect c, earlier, live)
  | UClose => (hoClose c, earlier, live)
  end.

Definition urun (s : ustate) (es : list uevent) : ustate := fold_left uexec es s.

Lemma readFrames_snoc `{IoReader R} n (r : R) buflen r1 ps r2 p :
  readFrames n r buflen = (r1, Ok ps) → ReadFrame r1 buflen = (r2, Ok p) →
  readFrames (S n) r buflen = (r2, Ok (ps ++ [p])).
Proof.
  revert r ps. induction n as [|n IH]; intros r ps Hr Hp.
  - cbn [readFrames] in Hr. injection Hr as -> <-. cbn [readFrames]. by rewrite Hp.
  - cbn [readFrames] in Hr. destruct (ReadFrame r buflen) as [r0 [q|]] eqn:E; [|done].
    destruct (readFrames n r0 buflen) as [r3 [qs|]] eqn:E'; [|done]. injection Hr as -> <-.
    pose proof (IH _ _ E' Hp) as H'. cbn [readFrames] in H' |- *. by rewrite E, H'.
Qed.

(** [fs] is what the body of the connection carries so far. *)
Definition carries (x : streamCipher) (u : upConn) (fs : list (list Z)) : Prop :=
  ∃ r, stream_sync (uc_obf u) r ∧
    ∀ rest, ∃ sr, WrapReader x (stream_out (uc_obf u) ++ rest) = Ok sr ∧
      readFrames (length fs) sr MaxPacket = (stream_feed r rest, Ok fs).

Lemma carries_new x u draw room obf :
  WrapWriter x draw (MkSink [] room) = Ok obf → uc_obf u = obf → carries x u [].
Proof.
  intros Hw <-. destruct (wrap_sync _ _ _ _ Hw) as (d & r & Ho & Hs & Hr). exists r. split; [done|].
  intros rest. exists (stream_feed r rest). rewrite Ho. by split.
Qed.

Lemma carries_write x u fs blob obf :
  carries x u fs → Forall u8 blob → WriteFrame (uc_obf u) blob = (obf, None) →
  carries x (MkUpConn (uc_socket u) obf) (fs ++ [blob]).
Proof.
  intros (r & Hs & Hr) Hb Hw. destruct (stream_frame_law _ _ _ _ Hs Hb Hw) as (d & r' & Ho & Hs' & Hread).
  exists r'. split; [done|]. intros rest. destruct (Hr (d ++ rest)) as (sr & Hsr & Hfs). exists sr. cbn [uc_obf].
  rewrite Ho, <- app_assoc. split; [done|]. rewrite length_app, Nat.add_1_r.
  eapply readFrames_snoc; [exact Hfs|]. by apply Hread.
Qed.

(** The connection, if any, carries exactly the blobs accepted over it below its
    head. *)
Definition up_ok (c : httpConnectOut) (live : list (list Z)) : Prop :=
  ∀ u, ho_conn c = Some u → carries (ho_cipher c) u live ∧ ∃ pre, s_out (uc_socket u) = pre ++ requestHead c.

Lemma writeBlob_ok c u later blob live :
  ho_conn c = Some u → Forall u8 blob → up_ok c live →
  match writeBlob c u later blob with
  | (c', None) => up_ok c' (live ++ [blob])
  | (c', Some _) => up_ok c' live
  end.
Proof.
  intros Hc Hb Hok. unfold writeBlob. destruct (WriteFrame (uc_obf u) blob) as [obf [e|]] eqn:Hw; [done|].
  intros u' Hu. cbn in Hu. simplify_eq. destruct (Hok u Hc) as (Hcar & Hh). split; [|exact Hh].
  exact (carries_write _ _ _ _ _ Hcar Hb Hw).
Qed.

Lemma expire_ok c live now : up_ok c live → up_ok (expire c now) live.
Proof. intros Hok. unfold expire. destruct (_ && _); [done|exact Hok]. Qed.

Lemma hoSend_ok c live now later dial draw e payload :
  Forall u8 (PutEnvelope e payload) → up_ok c live →
  match hoSend c now later dial draw e payload with
  | (c', None) => up_ok c' (if bool_decide (is_Some (ho_conn (expire c now))) then live ++ [PutEnvelope e payload] else [PutEnvelope e payload])
  | (c', Some _) => up_ok c' live
  end.
Proof.
  intros Hb Hok. unfold hoSend. apply (expire_ok c live now) in Hok. set (c1 := expire c now) in *.
  destruct (ho_conn c1) as [u|] eqn:Hc.
  { rewrite bool_decide_eq_true_2 by done. by apply writeBlob_ok. }
  rewrite bool_decide_eq_false_2 by (by intros [? ?]). destruct (_ <? _); [done|].
  unfold connectLocked. destruct dial as [[s room]|]; [|intros u Hu; cbn in Hu; by rewrite Hc in Hu].
  destruct (sinkWrite s (requestHead c1)) as [s' [err|]] eqn:Hh; [intros u Hu; cbn in Hu; by rewrite Hc in Hu|].
  destruct (WrapWriter (ho_cipher c1) draw (MkSink [] room)) as [obf|err] eqn:Hw;
    [|intros u Hu; cbn in Hu; by rewrite Hc in Hu].
  cbn [ho_conn setConn]. set (c2 := setConn c1 _ later).
  pose proof (writeBlob_ok c2 (MkUpConn s' obf) later (PutEnvelope e payload) [] eq_refl Hb) as Hwb.
  assert (up_ok c2 []) as H2.
  { intros u Hu. cbn in Hu. simplify_eq. split; [by eapply carries_new|]. exists (s_out s). by apply sinkWrite_ok in Hh. }
  specialize (Hwb H2). unfold writeBlob in *. by destruct (WriteFrame _ _) as [obf' [?|]].
Qed.

Definition sends_bytes (es : list uevent) : Prop :=
  Forall (λ ev, match ev with USend _ _ _ _ e payload => Forall u8 (PutEnvelope e payload) | _ => True end) es.

Lemma urun_ok es c earlier live : sends_bytes es → up_ok c live →
  let '(c', _, live') := urun (c, earlier, live) es in up_ok c' live'.
Proof.
  intros Hes. revert c earlier live. induction Hes as [|ev es Hb _ IH]; intros c earlier live Hok; [exact Hok|].
  unfold urun. cbn [fold_left uexec]. destruct ev as [now later dial draw e payload| |]; [|by apply IH..].
  pose proof (hoSend_ok c live now later dial draw e payload Hb Hok) as H.
  destruct (hoSend c now later dial draw e payload) as [c' [?|]]; [by apply IH|].
  destruct (bool_decide _); by apply IH.
Qed.

(** A reader in step has nothing left to read. *)
Lemma sync_drained w r : stream_sync w r → is_ok (ReadFrame (stream_feed r []) MaxPacket).2 = false.
Proof.
  destruct w as [s|o], r as [b|i]; intros Hs; try done.
  - cbn in Hs. subst b. done.
  - destruct Hs as (_ & Hr & _). destruct i as [ir ic ih]. cbn in Hr. subst ir. done.
Qed.

(** A send that failed on the way out leaves the connection down. *)
Lemma hoSend_failed c now later dial draw e payload c' err :
  hoSend c now later dial draw e payload = (c', Some err) → err ≠ HBackoff →
  ho_conn c' = None ∧ ho_nextRetry c' = later + reconnectBackoff.
Proof.
  unfold hoSend. set (c1 := expire c now). intros H Hne.
  assert (∀ c0 u, ho_conn c0 = Some u → writeBlob c0 u later (PutEnvelope e payload) = (c', Some err) →
    ho_conn c' = None ∧ ho_nextRetry c' = later + reconnectBackoff) as Hwb.
  { intros c0 u _ Hwb. unfold writeBlob in Hwb. destruct (WriteFrame _ _) as [? [?|]]; by simplify_eq. }
  destruct (ho_conn c1) as [u|] eqn:Hc; [by eapply Hwb|]. destruct (_ <? _); [by injection H as _ <-|].
  unfold connectLocked in H. destruct dial as [[s room]|]; [|by injection H as <- <-].
  destruct (sinkWrite s _) as [s' [?|]]; [by injection H as <- <-|].
  destruct (WrapWriter _ _ _) as [obf|?]; [|by injection H as <- <-].
  cbn [ho_conn setConn] in H. by refine (Hwb _ _ _ H).
Qed.

(** ** Properties: the uplink *)

(** Claim C21.  The HTTP uplink: after any sequence of sends (whatever the dials,
    clocks and socket failures), reconnects and closes, the live connection began
    with the request head, and a receiver wrapping a reader around its body reads
    exactly the envelopes of the sends accepted since that connection was opened,
    in order, and nothing after them. *)
Theorem http_uplink_stream c es u c' earlier live :
  urun (c, [], []) es = (c', earlier, live) → ho_conn c = None → sends_bytes es → ho_conn c' = Some u →
  (∃ pre, s_out (uc_socket u) = pre ++ requestHead c') ∧
  ∃ r, is_ok (ReadFrame (stream_feed r []) MaxPacket).2 = false ∧
    ∀ rest, ∃ sr, WrapReader (ho_cipher c') (stream_out (uc_obf u) ++ rest) = Ok sr ∧
      readFrames (length live) sr MaxPacket = (stream_feed r rest, Ok live).
Proof.
  intros Hrun Hc Hes Hu. assert (up_ok c []) as Hok by (intros u' Hu'; congruence).
  pose proof (urun_ok es c [] [] Hes Hok) as H. rewrite Hrun in H. destruct (H u Hu) as ((r & Hs & Hr) & Hh).
  split; [done|]. exists r. split; [by eapply sync_drained|exact Hr].
Qed.

(** Sending over HTTP keeps its throttle and its age limit: a send
    that failed drops the connection, and from then on, until a second after the
    failure, every send is refused without touching the network; a successful
    send went out on a connection no older than the limit or opened for it. *)
Theorem http_send_discipline c now later dial draw e payload c' res :
  hoSend c now later dial draw e payload = (c', res) →
  match res with
  | Some err =>
      err = HBackoff ∨
      ∀ es, Forall (λ ev, match ev with USend now' _ _ _ _ _ => now' < later + reconnectBackoff | _ => False end) es →
        urun (c', [], []) es = (c', [], [])
  | None =>
      ∃ u', ho_conn c' = Some u' ∧
        ((ho_connectedAt c' = ho_connectedAt c ∧ (∃ u, ho_conn c = Some u ∧ uc_socket u' = uc_socket u) ∧
            (0 < ho_maxAge c → now - ho_connectedAt c ≤ ho_maxAge c)) ∨
         (ho_connectedAt c' = later ∧ ho_nextRetry c ≤ now ∧ dial ≠ None))
  end.
Proof.
  intros H. destruct res as [err|].
  - destruct (decide (err = HBackoff)) as [|Hne]; [by left|right]. apply hoSend_failed in H as [Hc Hr]; [|done].
    induction 1 as [|ev es Hev _ IH]; [done|]. destruct ev as [n l d w e' p| |]; [|done..].
    unfold urun. cbn [fold_left uexec]. unfold hoSend, expire. rewrite Hc.
    cbn [is_Some]. rewrite bool_decide_eq_false_2 by (intros [? ?]; done). cbn [andb]. rewrite Hc, Hr.
    destruct (n <? _) eqn:Hn; unbool; [exact IH|lia].
  - unfold hoSend in H. destruct (ho_conn (expire c now)) as [u|] eqn:Hu.
    + unfold writeBlob in H. destruct (WriteFrame _ _) as [obf [?|]]; [done|]. injection H as <-.
      eexists. split; [done|]. left. cbn. unfold expire in *. destruct (_ && _) eqn:Hx; [done|].
      split; [done|]. split; [by exists u|]. rewrite Hu in Hx. rewrite bool_decide_eq_true_2 in Hx by done.
      cbn [andb] in Hx. intros Hm. apply andb_false_iff in Hx as [Hx|Hx]; unbool; lia.
    + destruct (_ <? _) eqn:Hn; [done|]. unfold connectLocked in H. destruct dial as [[s room]|]; [|done].
      destruct (sinkWrite s _) as [s' [?|]]; [done|]. destruct (WrapWriter _ _ _) as [obf|?]; [|done].
      cbn [ho_conn setConn] in H. unfold writeBlob in H. destruct (WriteFrame _ _) as [obf' [?|]]; [done|]. injection H as <-.
      eexists. split; [done|]. right. cbn. unbool. split; [done|]. split; [|done].
      unfold expire in Hn. destruct (_ && _); exact Hn.
Qed.

(** ** Lemmas: listeners *)

Lemma mintFree_some byID draws id : mintFree byID draws = Some id → id ≠ zeroOwner ∧ byID !! id = None ∧ id ∈ draws.
Proof.
  induction draws as [|d draws IH]; cbn [mintFree]; [done|]. destruct (IsZero d) eqn:Hz.
  - intros (?&?&?)%IH. split; [done|]. split; [done|]. by right.
  - destruct (byID !! d) eqn:Hd.
    + intros (?&?&?)%IH. split; [done|]. split; [done|]. by right.
    + intros Hid. simplify_eq. split; [by apply IsZero_false|]. split; [done|]. by left.
Qed.

Lemma mintFree_ends byID draws id : id ∈ draws → id ≠ zeroOwner → byID !! id = None → is_Some (mintFree byID draws).
Proof.
  intros Hin Hz Hb. induction draws as [|d draws IH]; [by apply not_elem_of_nil in Hin|]. cbn [mintFree].
  destruct (IsZero d) eqn:Hd; [|destruct (byID !! d) eqn:Hb'; [|done]];
    apply elem_of_cons in Hin as [->|Hin]; auto; [|congruence]. by apply IsZero_false in Hz; congruence.
Qed.

(** What a [reserve] that succeeds did. *)
Lemma reserve_inv c claimed ts dc draws c' id :
  reserve c claimed ts dc draws = Reserved c' id →
  (hl_multiple c && IsZero claimed = true ∧ mintFree (hl_byID c) draws = Some id ∨
   hl_multiple c && IsZero claimed = false ∧ id = (if hl_multiple c then claimed else zeroOwner) ∧
   default 0 (hl_lastTS c !! id) < ts) ∧
  (hl_byID c !! id = None → full c = false) ∧
  (∀ old, hl_byID c !! id = Some old → old ∉ hl_done c) ∧
  c' = setStreams c (<[id := dc]> (hl_byID c)) (<[id := ts]> (hl_lastTS c))
         (match hl_byID c !! id with Some old => {[old]} ∪ hl_done c | None => hl_done c end).
Proof.
  assert (∀ i, install c i ts dc = Reserved c' id → i = id ∧ (∀ old, hl_byID c !! id = Some old → old ∉ hl_done c) ∧
    c' = setStreams c (<[id := dc]> (hl_byID c)) (<[id := ts]> (hl_lastTS c))
         (match hl_byID c !! id with Some old => {[old]} ∪ hl_done c | None => hl_done c end)) as Hin.
  { intros i. unfold install. destruct (hl_byID c !! i) as [old|] eqn:Ho; [case_bool_decide; [done|]|];
      intros Hx; injection Hx as <- <-; rewrite Ho; (split; [done|split; [|done]]); intros o' Ho'; congruence. }
  unfold reserve. destruct (hl_multiple c && IsZero claimed) eqn:Hm.
  - destruct (full c) eqn:Hf; [done|]. destruct (mintFree _ _) as [i|] eqn:Hmint; [|done].
    intros (-> & H1 & H2)%Hin. split; [by left|]. split; [done|]. by split.
  - destruct (ts <=? _) eqn:Hts; [done|]. destruct (bool_decide _ && full c) eqn:Hf; [done|].
    intros (<- & H1 & H2)%Hin. unbool. split; [by right|]. split; [|by split].
    intros Hn. rewrite bool_decide_eq_true_2 in Hf by done. exact Hf.
Qed.

(** Streams are numbered in order: the live one of an id is the newest running
    one, and its [done] channel is open. *)
Record streams_ok (s : hstate) : Prop := {
  so_fresh : ∀ dc, is_Some (hs_running s !! dc) ∨ dc ∈ hl_done (hs_c s) → (dc < hs_next s)%nat;
  so_live : ∀ id dc, hl_byID (hs_c s) !! id = Some dc ↔ hs_running s !! dc = Some id ∧ dc ∉ hl_done (hs_c s);
  so_cap : 0 < hl_maxPeers (hs_c s) → Z.of_nat (size (hl_byID (hs_c s))) ≤ hl_maxPeers (hs_c s);
  so_single : hl_multiple (hs_c s) = false → ∀ id dc, hl_byID (hs_c s) !! id = Some dc → id = zeroOwner;
}.

Lemma reserve_ok s claimed ts draws c id :
  streams_ok s → reserve (hs_c s) claimed ts (hs_next s) draws = Reserved c id →
  streams_ok (MkHState c (<[hs_next s := id]> (hs_running s)) (S (hs_next s))).
Proof.
  intros [Hf Hl Hc Hs] (Hid & Hcap & Hdone & ->)%reserve_inv. destruct s as [c0 run n]. cbn [hs_c hs_running hs_next] in *.
  assert (run !! n = None) as Hn.
  { apply eq_None_not_Some. intros H. specialize (Hf n (or_introl H)). lia. }
  assert (n ∉ hl_done c0) as Hnd by (intros H; specialize (Hf n (or_intror H)); lia).
  assert (∀ i, hl_byID c0 !! i ≠ Some n) as Hni by (intros i [H _]%Hl; congruence).
  set (done' := match hl_byID c0 !! id with Some old => {[old]} ∪ hl_done c0 | None => hl_done c0 end).
  assert (∀ d, d ∈ done' ↔ hl_byID c0 !! id = Some d ∨ d ∈ hl_done c0) as Hd'.
  { intros d. unfold done'. destruct (hl_byID c0 !! id) as [old|]; [|split; [by right|by intros [?|?]]].
    rewrite elem_of_union, elem_of_singleton. split; (intros [H|H]; [left; congruence|by right]). }
  split; cbn [hs_c hs_running hs_next setStreams hl_byID hl_done hl_maxPeers hl_multiple].
  - intros dc [[i Hi]|Hi].
    + apply lookup_insert_Some in Hi as [[<- _]|[_ Hi]]; [lia|]. specialize (Hf dc (or_introl (ex_intro _ i Hi))). lia.
    + apply Hd' in Hi as [Hi|Hi]; [apply Hl in Hi as [Hi _]; specialize (Hf dc (or_introl (ex_intro _ _ Hi)))|specialize (Hf dc (or_intror Hi))]; lia.
  - intros i dc. rewrite Hd', lookup_insert_Some, lookup_insert_Some. split.
    + intros [[<- <-]|[Hne Hi]]; [split; [by left|]; intros [H|H]; [by apply (Hni id)|done]|].
      apply Hl in Hi as [Hi Hnot]. split; [right; split; [congruence|done]|]. intros [H|H]; [|done].
      apply Hl in H as [H _]. congruence.
    + intros [[[<- <-]|[Hne Hi]] Hnot]; [by left|right]. assert (hl_byID c0 !! i = Some dc) as Hb.
      { apply Hl. split; [done|]. intros H. apply Hnot. by right. }
      split; [|done]. intros <-. apply Hnot. by left.
  - intros Hm. specialize (Hc Hm). destruct (hl_byID c0 !! id) as [old|] eqn:Ho.
    + rewrite map_size_insert_Some by (by rewrite Ho). done.
    + rewrite map_size_insert_None by done. specialize (Hcap eq_refl). unfold full in Hcap.
      apply andb_false_iff in Hcap as [H|H]; unbool; lia.
  - intros Hm i dc [[<- _]|[_ H]]%lookup_insert_Some; [|by eapply Hs]. rewrite Hm in Hid.
    destruct Hid as [[H _]|(_ & H & _)]; done.
Qed.

Lemma serveDown_inv c r dc draws now c' id hdrs :
  serveDown c r dc draws now = Serving c' id hdrs →
  ∃ ts c1, verifyAuthToken (hl_key c) authDomainReg (parseOwnerHex (rq_id r)) (rq_sig r) = Some ts ∧
    reserve c (parseOwnerHex (rq_id r)) ts dc draws = Reserved c1 id ∧
    hl_byID c' = hl_byID c1 ∧ hl_lastTS c' = hl_lastTS c1 ∧ hl_done c' = hl_done c1 ∧
    hl_maxPeers c' = hl_maxPeers c1 ∧ hl_multiple c' = hl_multiple c1 ∧ hl_key c' = hl_key c1.
Proof.
  unfold serveDown. destruct (_ || _); [done|]. destruct (verifyAuthToken _ _ _ _) as [ts|]; [|done].
  destruct (reserve c _ ts dc draws) as [|c1 i| |] eqn:Hr; [done| |done..].
  destruct (hl_multiple c1) eqn:Hm; intros H; injection H as <- <- _; exists ts, c1; rewrite Hr; cbn; repeat (split; [done|]); done.
Qed.

Lemma hexec_ok s e s' : streams_ok s → hexec s e = Some s' → streams_ok s'.
Proof.
  intros Hok He. destruct e as [r draws now|dc]; cbn [hexec] in He.
  - destruct (serveDown _ _ _ _ _) as [|c id hdrs| |] eqn:Hs; simplify_eq.
    + destruct Hok as [Hf Hl Hc Hs']. split; cbn; try done. intros dc Hdc. specialize (Hf dc Hdc). lia.
    + apply serveDown_inv in Hs as (ts & c1 & _ & Hr & H1 & H2 & H3 & H4 & H5 & _).
      destruct (reserve_ok _ _ _ _ _ _ Hok Hr) as [Hf Hl Hc Hs']. cbn [hs_c hs_running hs_next] in *.
      split; cbn [hs_c hs_running hs_next]; rewrite ?H1, ?H3, ?H4, ?H5; done.
  - destruct (hs_running s !! dc) as [id|] eqn:Hr; simplify_eq. destruct Hok as [Hf Hl Hc Hs]. unfold hlRemove.
    destruct s as [c run n]. cbn [hs_c hs_running hs_next] in *. case_bool_decide as Hb.
    + split; cbn.
      * intros d [[i Hi]|Hi]; apply Hf; [left|by right]. apply lookup_delete_Some in Hi as [_ Hi]. by exists i.
      * intros i d. rewrite !lookup_delete_Some, Hl. split.
        -- intros (Hne & Hi & Hn). split; [|done]. split; [|done]. congruence.
        -- intros ((Hne & Hi) & Hn). split; [|done]. intros <-. apply Hne.
           assert (hl_byID c !! id = Some d) as Hd by (by apply Hl). congruence.
      * intros Hm. specialize (Hc Hm). rewrite map_size_delete, Hb. lia.
      * intros Hm i d [_ H]%lookup_delete_Some. by eapply Hs.
    + split; cbn [hs_c hs_running hs_next]; [|..|done|done].
      * intros d [[i Hi]|Hi]; apply Hf; [left|by right]. apply lookup_delete_Some in Hi as [_ Hi]. by exists i.
      * intros i d. rewrite lookup_delete_Some, Hl. split; [|by intros [[_ ?] ?]].
        intros [Hi Hn]. split; [|done]. split; [|done]. intros <-. apply Hb. apply Hl. split; [congruence|done].
Qed.

Lemma hrun_ok s es s' : streams_ok s → hrun s es = Some s' → streams_ok s'.
Proof.
  revert s. induction es as [|e es IH]; intros s Hok Hr; cbn [hrun] in Hr; [by simplify_eq|].
  apply bind_Some in Hr as (s1 & He & Hr). eapply IH; [|done]. by eapply hexec_ok.
Qed.

(** The listener the factory builds. *)
Definition newListenOut (path idHeader : string) (key : list Z) (maxPeers : Z) (multiple : bool) : httpListenOut :=
  MkHttpListenOut path idHeader key maxPeers multiple 0 ∅ ∅ ∅.

Definition hstart (c : httpListenOut) : hstate := MkHState c ∅ 0.

Lemma hstart_ok path idHeader key maxPeers multiple :
  0 ≤ maxPeers → streams_ok (hstart (newListenOut path idHeader key maxPeers multiple)).
Proof.
  intros Hm. split; cbn.
  - intros dc [[? H]|H]; [by rewrite lookup_empty in H|set_solver].
  - intros id dc. rewrite !lookup_empty. split; [done|by intros [? _]].
  - intros _. rewrite map_size_empty. lia.
  - intros _ id dc. by rewrite lookup_empty.
Qed.


(** A stamp refused once stays refused while the id is not drawn again. *)
Lemma serve_stamps c r dc draws now c' id hdrs i :
  serveDown c r dc draws now = Serving c' id hdrs → i ∉ draws ∨ i = zeroOwner →
  default 0 (hl_lastTS c !! i) ≤ default 0 (hl_lastTS c' !! i).
Proof.
  intros (ts & c1 & _ & (Hid & _ & _ & ->)%reserve_inv & _ & -> & _)%serveDown_inv Hi.
  cbn [setStreams hl_lastTS]. destruct (decide (id = i)) as [->|Hne]; [|rewrite lookup_insert_ne by done; lia].
  rewrite lookup_insert_eq. cbn [default]. destruct Hid as [[_ (Hz&_&Hin)%mintFree_some]|(_&_&Hts)]; [|cbn; lia].
  by destruct Hi.
Qed.

Lemma serve_consts c r dc draws now c' id hdrs :
  serveDown c r dc draws now = Serving c' id hdrs → hl_multiple c' = hl_multiple c ∧ hl_key c' = hl_key c.
Proof.
  intros (ts & c1 & _ & (_ & _ & _ & ->)%reserve_inv & _ & _ & _ & _ & -> & ->)%serveDown_inv. done.
Qed.

Lemma hrun_stamps s es s' i :
  hrun s es = Some s' → (∀ r draws now, HServe r draws now ∈ es → i ∉ draws) ∨ i = zeroOwner →
  default 0 (hl_lastTS (hs_c s) !! i) ≤ default 0 (hl_lastTS (hs_c s') !! i) ∧
  hl_multiple (hs_c s') = hl_multiple (hs_c s) ∧ hl_key (hs_c s') = hl_key (hs_c s).
Proof.
  revert s. induction es as [|e es IH]; intros s Hr Hi; cbn [hrun] in Hr; [simplify_eq; split; [lia|done]|].
  apply bind_Some in Hr as (s1 & He & Hr). destruct (IH s1 Hr) as (H1 & H2 & H3).
  { destruct Hi as [Hi|Hi]; [left|by right]. intros r d n Hin. apply (Hi r d n). by right. }
  assert (default 0 (hl_lastTS (hs_c s) !! i) ≤ default 0 (hl_lastTS (hs_c s1) !! i) ∧
    hl_multiple (hs_c s1) = hl_multiple (hs_c s) ∧ hl_key (hs_c s1) = hl_key (hs_c s)) as (H4 & H5 & H6);
    [|split; [lia|split; congruence]].
  destruct e as [r draws now|dc]; cbn [hexec] in He.
  - destruct (serveDown _ _ _ _ _) as [|c id hdrs| |] eqn:Hs; simplify_eq; [split; [apply Z.le_refl|done]|].
    split; [|by apply serve_consts in Hs]. eapply serve_stamps; [exact Hs|].
    destruct Hi as [Hi|Hi]; [left|by right]. apply (Hi r draws now). by left.
  - destruct (hs_running s !! dc) as [id|]; simplify_eq. unfold hlRemove. case_bool_decide;
      (split; [cbn [setStreams hl_lastTS hs_c]; lia|done]).
Qed.

(** Download streams: whatever requests arrive and whichever
    handlers return, in any order, the stream an id is served on is its only
    running one that was not superseded, no [done] channel is closed twice, the
    number of peers stays under the cap, and a new stream for an id supersedes
    the one before at once. *)
Theorem download_streams path idHeader key maxPeers multiple es s :
  0 ≤ maxPeers → hrun (hstart (newListenOut path idHeader key maxPeers multiple)) es = Some s →
  (∀ id dc, hl_byID (hs_c s) !! id = Some dc ↔ hs_running s !! dc = Some id ∧ dc ∉ hl_done (hs_c s)) ∧
  (0 < hl_maxPeers (hs_c s) → Z.of_nat (size (hl_byID (hs_c s))) ≤ hl_maxPeers (hs_c s)) ∧
  ∀ r draws now,
    match serveDown (hs_c s) r (hs_next s) draws now with
    | ServePanic => False
    | Serving c id _ => lookupStream c id = Some (hs_next s) ∧
        ∀ old, hs_running s !! old = Some id → old ∈ hl_done c
    | _ => True
    end.
Proof.
  intros Hm Hr. apply hrun_ok in Hr; [|by apply hstart_ok]. pose proof Hr as [Hf Hl Hc Hsg].
  split; [exact Hl|]. split; [exact Hc|]. intros r draws now.
  destruct (serveDown _ _ _ _ _) as [|c id hdrs| |] eqn:Hs; try done.
  - pose proof (serveDown_inv _ _ _ _ _ _ _ _ Hs) as (ts & c1 & _ & Hres & Hb & _ & Hd & _ & Hmul & _).
    pose proof (reserve_ok _ _ _ _ _ _ Hr Hres) as [Hf1 Hl1 Hc1 Hs1]. cbn [hs_c hs_running hs_next] in *.
    assert (hl_byID c1 !! id = Some (hs_next s)) as Hid.
    { apply reserve_inv in Hres as (_ & _ & _ & ->). cbn. apply lookup_insert_eq. }
    split.
    + unfold lookupStream. rewrite Hb, Hmul. destruct (hl_multiple c1) eqn:Hmc; [done|]. by rewrite <- (Hs1 eq_refl _ _ Hid).
    + intros old Ho. rewrite Hd. apply dec_stable. intros Hn.
      assert (hs_running s !! hs_next s = None) as Hnext.
      { apply eq_None_not_Some. intros H. specialize (Hf _ (or_introl H)). lia. }
      assert (hs_next s ≠ old) as Hne by congruence.
      assert (hl_byID c1 !! id = Some old) as Ho'; [|congruence].
      apply Hl1. split; [by rewrite lookup_insert_ne|done].
  - unfold serveDown in Hs. destruct (_ || _); [done|]. destruct (verifyAuthToken _ _ _ _) as [ts|]; [|done].
    destruct (reserve _ _ _ _ _) as [|c1 i| |] eqn:Hres; try done; [by destruct (hl_multiple c1)|].
    assert (∀ i, install (hs_c s) i ts (hs_next s) ≠ ClosePanic) as Hin.
    { intros i. unfold install. destruct (hl_byID (hs_c s) !! i) as [old|] eqn:Ho; [|done].
      case_bool_decide; [|done]. by apply Hl in Ho as [_ ?]. }
    unfold reserve in Hres. destruct (hl_multiple _ && _).
    + destruct (full _); [done|]. destruct (mintFree _ _) as [i|]; [|done]. by apply Hin in Hres.
    + destruct (_ <=? _); [done|]. destruct (_ && _); [done|]. by apply Hin in Hres.
Qed.

(** Claim C20.  A captured download request cannot be replayed: a request that
    registered a named peer (or the one peer of a single listener) is refused
    from then on, whatever happens in between, as long as the listener's random
    source does not draw that id again for another peer. *)
Theorem download_no_replay s r dc draws now c id hdrs run n es s' dc' draws' now' :
  serveDown (hs_c s) r dc draws now = Serving c id hdrs →
  hl_multiple (hs_c s) = false ∨ parseOwnerHex (rq_id r) ≠ zeroOwner →
  hrun (MkHState c run n) es = Some s' →
  (∀ r draws now, HServe r draws now ∈ es → id ∉ draws) ∨ hl_multiple (hs_c s) = false →
  serveDown (hs_c s') r dc' draws' now' = NotFound.
Proof.
  intros Hs Hid Hr Hdraws. pose proof Hs as (Hmul & Hkey)%serve_consts.
  pose proof (serveDown_inv _ _ _ _ _ _ _ _ Hs) as (ts & c1 & Hv & Hres & _ & Hts & _).
  apply reserve_inv in Hres as (Hc & _ & _ & ->). cbn [setStreams hl_lastTS] in Hts.
  assert (hl_multiple (hs_c s) && IsZero (parseOwnerHex (rq_id r)) = false) as Hm.
  { destruct Hid as [->|Hid]; [done|]. apply andb_false_intro2. by apply IsZero_false. }
  rewrite Hm in Hc. destruct Hc as [[? _]|(_ & Hid' & Hlt)]; [done|].
  assert (hl_multiple (hs_c s) = false → id = zeroOwner) as Hz by (intros H; by rewrite H in Hid').
  destruct (hrun_stamps _ _ _ id Hr) as (Hle & Hmul' & Hkey').
  { destruct Hdraws as [H|H]; [left; exact H|right; by apply Hz]. }
  cbn [hs_c] in *. rewrite Hts, lookup_insert_eq in Hle. cbn in Hle.
  unfold serveDown. destruct (_ || _); [done|]. rewrite Hkey', Hkey, Hv. unfold reserve.
  rewrite Hmul', Hmul, Hm, <- Hid'. destruct (ts <=? _) eqn:H; [done|]. unbool. unfold default in *. lia.
Qed.

(** [textproto.CanonicalMIMEHeaderKey]: in a name made of token characters the
    first letter and those after a hyphen are upper case, the others lower case. *)
Definition inRange (lo hi : nat) (c : ascii) : bool := (lo <=? nat_of_ascii c)%nat && (nat_of_ascii c <=? hi)%nat.
Definition tokenByte (c : ascii) : bool :=
  inRange 48 57 c || inRange 65 90 c || inRange 97 122 c || existsb (Ascii.eqb c) (chars "!#$%&'*+-.^_`|~").
Fixpoint canonFrom (upper : bool) (l : list ascii) : list ascii :=
  match l with
  | [] => []
  | c :: l' =>
      let c' := if upper && inRange 97 122 c then ascii_of_nat (nat_of_ascii c - 32)
                else if negb upper && inRange 65 90 c then ascii_of_nat (nat_of_ascii c + 32) else c in
      c' :: canonFrom (Ascii.eqb c "-") l'
  end.
Definition canonicalHeader (name : string) : string :=
  if forallb tokenByte (chars name) then unchars (canonFrom true (chars name)) else name.
Definition sameHeader (a b : string) : bool := String.eqb (canonicalHeader a) (canonicalHeader b).

(** [http.Header.Get] on headers set in order. *)
Definition header (hs : list (string * list Z)) (name : string) : list Z :=
  fold_left (λ acc kv, if sameHeader kv.1 name then kv.2 else acc) hs [].

Lemma header_skip hs name acc :
  Forall (λ kv : string * string, sameHeader kv.1 name = false) hs →
  fold_left (λ acc kv, if sameHeader kv.1 name then kv.2 else acc) (map (λ kv, (kv.1, strBytes kv.2)) hs) acc = acc.
Proof.
  intros H. revert acc. induction H as [|kv hs Hk _ IH]; intros acc; [done|]. cbn [map fold_left fst]. rewrite Hk. apply IH.
Qed.

Lemma length_canonFrom upper l : length (canonFrom upper l) = length l.
Proof. revert upper. induction l as [|c l IH]; intros upper; [done|]. cbn. by rewrite IH. Qed.

Lemma length_canonical name : length (chars (canonicalHeader name)) = length (chars name).
Proof. unfold canonicalHeader. destruct (forallb _ _); [|done]. by rewrite chars_unchars, length_canonFrom. Qed.

Lemma sameHeader_refl name : sameHeader name name = true.
Proof. apply String.eqb_refl. Qed.

Lemma sig_ne name : sameHeader (sigHeaderName name) name = false ∧ sameHeader name (sigHeaderName name) = false.
Proof.
  assert (canonicalHeader (sigHeaderName name) ≠ canonicalHeader name) as H.
  { intros H%(f_equal (λ s, length (chars s))). rewrite !length_canonical in H. unfold sigHeaderName in H. rewrite chars_app, length_app in H. cbn in H. lia. }
  split; apply String.eqb_neq; congruence.
Qed.

Lemma hiRequest_headers c now c1 req :
  hiRequest c now = (c1, req) →
  Forall (λ kv : string * string, sameHeader kv.1 (hi_idHeader c) = false ∧ sameHeader kv.1 (sigHeaderName (hi_idHeader c)) = false) (hi_headers c) →
  header req (hi_idHeader c) = ownerHex (hi_curID c) ∧
  header req (sigHeaderName (hi_idHeader c)) =
    authToken (hi_key c) authDomainReg (hi_curID c) (nextTSAttempt (wrap 64 now) (hi_sendTS c)).
Proof.
  intros Hr Hh. unfold hiRequest in Hr. injection Hr as <- <-. destruct (sig_ne (hi_idHeader c)) as [H1 H2].
  unfold header. cbn [app fold_left fst snd]. rewrite H1, H2, !sameHeader_refl.
  rewrite !header_skip; [done|..]; (eapply Forall_impl; [exact Hh|by intros kv [? ?]]).
Qed.

Lemma ts_u64 now prev : u64 (nextTSAttempt (wrap 64 now) prev).
Proof. unfold nextTSAttempt. destruct (_ <=? _); apply (wrap_bound 64); lia. Qed.

(** Registering over HTTP: a client's request proves the key to a
    listener that has the same one, which then serves it exactly when it can
    reserve an id for it; a listener of several peers answers with the id the
    stream is served on, and the client adopts that id, unless it already
    adopted a newer assignment. *)
Theorem http_handshake c c1 req now l dc draws later :
  hiRequest c now = (c1, req) →
  Forall (λ kv : string * string, sameHeader kv.1 (hi_idHeader c) = false ∧ sameHeader kv.1 (sigHeaderName (hi_idHeader c)) = false) (hi_headers c) →
  Forall u8 (ownerBytes (hi_curID c)) → Forall (λ o, Forall u8 (ownerBytes o)) draws →
  hi_key c = hl_key l → hi_idHeader c = hl_idHeader l → hl_multiple l = true →
  let ts := nextTSAttempt (wrap 64 now) (hi_sendTS c) in
  let ats := nextTSAttempt (wrap 64 later) (hl_assignTS l) in
  let r := MkRequest "GET" (hl_path l) (header req (hi_idHeader c)) (header req (sigHeaderName (hi_idHeader c))) in
  match reserve l (hi_curID c) ts dc draws, serveDown l r dc draws later with
  | Refused, NotFound => True
  | Reserved _ id, Serving l' id' hdrs =>
      id' = id ∧ id ≠ zeroOwner ∧ lookupStream l' id = Some dc ∧
      (hi_lastAssign c < ats →
       ∃ c2, hiAdopt c1 (header hdrs (hl_idHeader l)) (header hdrs (sigHeaderName (hl_idHeader l))) = (c2, Some id) ∧
         hi_curID c2 = id ∧ hi_lastAssign c2 = ats)
  | NoDraw, ServeNoDraw | ClosePanic, ServePanic => True
  | _, _ => False
  end.
Proof.
  intros Hr Hh Hu Hdu Hk Hid Hm ts ats r. destruct (hiRequest_headers c now c1 req Hr Hh) as [Hreq Hsig].
  unfold serveDown. cbn [rq_method rq_path rq_id rq_sig r]. rewrite !String.eqb_refl. cbn [negb orb].
  rewrite Hreq, Hsig, parse_ownerHex by done. rewrite <- Hk, verify_token by apply ts_u64. fold ts.
  destruct (reserve l (hi_curID c) ts dc draws) as [|l1 id| |] eqn:Hres; [done| |done..].
  pose proof Hres as (Hcase & _ & _ & ->)%reserve_inv. cbn [setStreams hl_multiple]. rewrite Hm.
  assert (id ≠ zeroOwner ∧ Forall u8 (ownerBytes id)) as [Hz Hidu].
  { rewrite Hm in Hcase. destruct Hcase as [[_ (Hz & _ & Hin)%mintFree_some]|(Hz & -> & _)].
    - split; [done|]. by eapply Forall_forall in Hdu.
    - cbn [andb] in Hz. split; [by apply IsZero_false|done]. }
  split; [done|]. split; [done|]. split.
  { unfold lookupStream. cbn [hl_multiple hl_byID setStreams]. rewrite ?Hm. apply lookup_insert_eq. }
  intros Hlt. cbn [hl_idHeader setStreams hl_key hl_assignTS]. unfold header. cbn [fold_left fst snd].
  destruct (sig_ne (hl_idHeader l)) as [H1 H2]. rewrite H1, H2, !sameHeader_refl. fold ats.
  unfold hiAdopt. destruct (ownerHex id) as [|b h] eqn:Hh0.
  { apply (f_equal length) in Hh0. unfold ownerHex in Hh0. by rewrite length_hexEncode, length_ownerBytes in Hh0. }
  rewrite <- Hh0, parse_ownerHex by done. apply IsZero_false in Hz. rewrite Hz.
  unfold hiRequest in Hr. injection Hr as <- _. cbn [hi_key hi_lastAssign]. rewrite Hk, verify_token by apply ts_u64.
  destruct (_ <? ats) eqn:H; unbool; [|lia]. by eexists.
Qed.

(** Upload handlers are numbered in order; the active one of a channel is its
    only running one that was not cancelled. *)
Record uploads_ok (s : nstate) : Prop := {
  uo_fresh : ∀ h, is_Some (ns_running s !! h) ∨ h ∈ hn_cancelled (ns_c s) → (h < ns_next s)%nat;
  uo_live : ∀ id h, hn_active (ns_c s) !! id = Some h ↔ ns_running s !! h = Some id ∧ h ∉ hn_cancelled (ns_c s);
}.

Lemma nexec_ok s e s' : uploads_ok s → nexec s e = Some s' → uploads_ok s'.
Proof.
  intros [Hf Hl] He. destruct s as [c run n]. cbn [ns_c ns_running ns_next] in *. destruct e as [id|h]; cbn [nexec ns_c ns_running ns_next] in He.
  - simplify_eq. assert (run !! n = None) as Hn.
    { apply eq_None_not_Some. intros H. specialize (Hf n (or_introl H)). lia. }
    assert (n ∉ hn_cancelled c) as Hnc by (intros H; specialize (Hf n (or_intror H)); lia).
    assert (∀ h, h ∈ hn_cancelled (hnReplace c id n) ↔ hn_active c !! id = Some h ∨ h ∈ hn_cancelled c) as Hc.
    { intros h. cbn. destruct (hn_active c !! id) as [old|]; [|split; [by right|by intros [?|?]]].
      rewrite elem_of_union, elem_of_singleton. split; (intros [H|H]; [left; congruence|by right]). }
    split; cbn [ns_c ns_running ns_next].
    + intros h [[i Hi]|Hi].
      * apply lookup_insert_Some in Hi as [[<- _]|[_ Hi]]; [lia|]. specialize (Hf h (or_introl (ex_intro _ i Hi))). lia.
      * apply Hc in Hi as [Hi|Hi]; [apply Hl in Hi as [Hi _]; specialize (Hf h (or_introl (ex_intro _ _ Hi)))|specialize (Hf h (or_intror Hi))]; lia.
    + intros i h. rewrite Hc. cbn [hnReplace hn_active]. rewrite !lookup_insert_Some. split.
      * intros [[<- <-]|[Hne Hi]].
        { split; [by left|]. intros [H|H]; [apply Hl in H as [H _]; congruence|done]. }
        apply Hl in Hi as [Hi Hnot]. split; [right; split; [congruence|done]|]. intros [H|H]; [|done].
        apply Hl in H as [H _]. congruence.
      * intros [[[<- <-]|[Hne Hi]] Hnot]; [by left|right]. assert (hn_active c !! i = Some h) as Hb.
        { apply Hl. split; [done|]. intros H. apply Hnot. by right. }
        split; [|done]. intros <-. apply Hnot. by left.
  - destruct (run !! h) as [id|] eqn:Hr; simplify_eq. unfold hnRemove. case_bool_decide as Hb; split; cbn [ns_c ns_running ns_next hn_active hn_cancelled].
    + intros d [[i Hi]|Hi]; apply Hf; [left|by right]. apply lookup_delete_Some in Hi as [_ Hi]. by exists i.
    + intros i d. rewrite !lookup_delete_Some, Hl. split.
      * intros (Hne & Hi & Hn). split; [|done]. split; [|done]. congruence.
      * intros ((Hne & Hi) & Hn). split; [|done]. intros <-. apply Hne.
        assert (hn_active c !! id = Some d) as Hd by (by apply Hl). congruence.
    + intros d [[i Hi]|Hi]; apply Hf; [left|by right]. apply lookup_delete_Some in Hi as [_ Hi]. by exists i.
    + intros i d. rewrite lookup_delete_Some, Hl. split; [|by intros [[_ ?] ?]].
      intros [Hi Hn]. split; [|done]. split; [|done]. intros <-. apply Hb. apply Hl. split; [congruence|done].
Qed.

Lemma nrun_ok s es s' : uploads_ok s → nrun s es = Some s' → uploads_ok s'.
Proof.
  revert s. induction es as [|e es IH]; intros s Hok Hr; cbn [nrun] in Hr; [by simplify_eq|].
  apply bind_Some in Hr as (s1 & He & Hr). eapply IH; [|done]. by eapply nexec_ok.
Qed.

(** Upload streams: whatever POSTs arrive and whichever handlers
    return, in any order, two handlers still reading for one channel id are the
    same handler, it is the registered one, and the next POST on the channel
    cancels it. *)
Theorem upload_supersede es s :
  nrun nstart es = Some s →
  (∀ id h, hn_active (ns_c s) !! id = Some h ↔ ns_running s !! h = Some id ∧ h ∉ hn_cancelled (ns_c s)) ∧
  ∀ id s' h, nexec s (NEnter id) = Some s' → ns_running s !! h = Some id → h ∈ hn_cancelled (ns_c s').
Proof.
  intros Hr. assert (uploads_ok nstart) as H0.
  { split; cbn.
    - intros h [[? H]|H]; [by rewrite lookup_empty in H|set_solver].
    - intros id h. rewrite !lookup_empty. split; [done|by intros [? _]]. }
  apply nrun_ok in Hr as Hok; [|done]. split; [apply Hok|]. intros id s' h He Hh.
  destruct (nexec_ok _ _ _ Hok He) as [Hf' Hl']. cbn [nexec] in He. simplify_eq.
  cbn [ns_c ns_running ns_next] in *. apply dec_stable. intros Hn.
  assert (h ≠ ns_next s) as Hne by (intros ->; pose proof (uo_fresh _ Hok _ (or_introl (ex_intro _ _ Hh))); lia).
  assert (hn_active (hnReplace (ns_c s) id (ns_next s)) !! id = Some h) as Ha.
  { apply Hl'. split; [by rewrite lookup_insert_ne by done|done]. }
  cbn in Ha. rewrite lookup_insert_eq in Ha. congruence.
Qed.

(** ** Lemmas: a download response *)

(** Where the handler is decides what the write half holds: nothing is live
    before the cipher is installed or after the teardown. *)
Record hd_ok (c : hdCore) : Prop := {
  hd_phases : (hd_phase c ≤ 3)%nat;
  hd_live_phase : hd_live c = true → hd_phase c = 2%nat;
  hd_installed : (1 ≤ hd_phase c)%nat → is_Some (hd_obf c);
}.

Lemma hdFlush_ok c b : hd_ok c → hd_ok (hdFlushViews c b).1.
Proof.
  intros Hok. pose proof Hok as [H1 H2 H3]. unfold hdFlushViews. destruct (hd_live c) eqn:Hl; [|done]. cbn [negb].
  destruct (hd_obf c) as [obf|]; [|done]. destruct (writeFrames obf b) as [obf' [e|]]; [|destruct (hd_flushOk c)]; by split.
Qed.

Lemma hdexec_ok w e w' : hd_ok (w_sink w) → hdexec w e = Some w' → hd_ok (w_sink w').
Proof.
  intros Hok He. destruct e as [e payload|we|obf| | |ok]; cbn [hdexec] in He.
  - unfold hdSend in He. destruct (hd_live (w_sink w)) eqn:Hl; cbn in He; [|by simplify_eq].
    destruct (writePacket _ _ _) as [w1| |] eqn:Hw; simplify_eq/=. by eapply (writePacket_core hdFlushViews); [apply hdFlush_ok|..].
  - destruct (wexec _ _ _) as [w1| |] eqn:Hw; simplify_eq/=. by eapply (wexec_core hdFlushViews); [apply hdFlush_ok|..].
  - destruct (_ =? _)%nat eqn:Hp; simplify_eq. unbool. destruct Hok as [H1 H2 H3]. split; cbn; [lia| |by eexists].
    intros Hl. specialize (H2 Hl). lia.
  - destruct (_ =? _)%nat eqn:Hp; simplify_eq. unbool. destruct Hok as [H1 H2 H3]. split; cbn; [lia|done|]. intros _. apply H3. lia.
  - destruct (_ =? _)%nat eqn:Hp; simplify_eq. unbool. destruct Hok as [H1 H2 H3]. split; cbn; [lia|done|]. intros _. apply H3. lia.
  - simplify_eq. by destruct Hok.
Qed.

Lemma hdrun_ok w es w' : hd_ok (w_sink w) → hdrun w es = Some w' → hd_ok (w_sink w').
Proof.
  revert w. induction es as [|e es IH]; intros w Hok Hr; cbn [hdrun] in Hr; [by simplify_eq|].
  apply bind_Some in Hr as (w1 & He & Hr). eapply IH; [|done]. by eapply hdexec_ok.
Qed.

(** Torn down: the response is not touched. *)
Definition torn (obf : option streamWriter) (c : hdCore) : Prop := hd_phase c = 3%nat ∧ hd_live c = false ∧ hd_obf c = obf.

Lemma hdrun_torn obf w es w' : torn obf (w_sink w) → hdrun w es = Some w' → torn obf (w_sink w').
Proof.
  assert (∀ c b, torn obf c → torn obf (hdFlushViews c b).1) as Hf.
  { intros c b Hc. pose proof Hc as (_ & Hl & _). unfold hdFlushViews. by rewrite Hl. }
  revert w. induction es as [|e es IH]; intros w Hok Hr; cbn [hdrun] in Hr; [by simplify_eq|].
  apply bind_Some in Hr as (w1 & He & Hr). eapply IH; [|done]. clear IH Hr. pose proof Hok as (Hp & Hl & Ho).
  destruct e as [e payload|we|obf'| | |ok]; cbn [hdexec] in He; rewrite ?Hp in He; try done.
  - unfold hdSend in He. rewrite Hl in He. cbn in He. by simplify_eq.
  - destruct (wexec _ _ _) as [w2| |] eqn:Hw; simplify_eq/=. eapply (wexec_core hdFlushViews (torn _)); [exact Hf|exact Hw|exact Hok].
  - by simplify_eq.
Qed.

(** A download response is used only between its installation and its
    teardown: in every interleaving of sends, flush ticks and the handler, no
    flush meets a missing writer, and once the handler tore the stream down no
    straggling flush or send changes the response again. *)
Theorem response_lifetime es w :
  hdrun newHttpDown es = Some w →
  (∀ views, (hdFlushViews (w_sink w) views).2 ≠ Some HNil) ∧
  (hd_phase (w_sink w) = 3%nat → ∀ es' w', hdrun w es' = Some w' → hd_obf (w_sink w') = hd_obf (w_sink w)).
Proof.
  intros Hr. apply hdrun_ok in Hr as Hok; [|split; cbn; [lia|done|lia]]. destruct Hok as [H1 H2 H3]. split.
  - intros views. unfold hdFlushViews. destruct (hd_live _) eqn:Hl; [|done]. cbn [negb].
    destruct H3 as [obf Ho]; [by rewrite H2 by done; lia|]. rewrite Ho.
    destruct (writeFrames obf views) as [obf' [e|]]; [|destruct (hd_flushOk _)]; done.
  - intros Hp es' w' Hr'. apply (hdrun_torn (hd_obf (w_sink w))) in Hr'; [apply Hr'|]. split; [done|]. split; [|done].
    destruct (hd_live (w_sink w)); [|done]. specialize (H2 eq_refl). congruence.
Qed.

(** ** Concrete carriers *)

Module HttpDemo.
Definition key : list Z := replicate 32 7.
Definition out : httpConnectOut :=
  MkHttpOut "/upload" "relay.example" "Mozilla/5.0" "X-Upload-Tag" [("Accept", "*/*")%string] "01020304"
    (chacha4Stream key 16) 300 None 0 0.
Definition pkt : list Z := [0x45; 0; 0; 20; 0; 0; 0; 0; 64; 6; 0; 0; 10; 0; 0; 1; 1; 1; 1; 1].
Definition sock : Sink := MkSink [] None.
(** A dial that fails, a send in the backoff, a reconnect, two sends, and again a
    reconnect and two sends. *)
Definition events : list uevent :=
  [USend 10 11 None (0, 0) (MkEnvelope ownA false) pkt;
   USend 12 12 (Some (sock, None)) (0, 0) (MkEnvelope ownA false) pkt;
   UReconnect;
   USend 20 21 (Some (sock, None)) (3, 4) (MkEnvelope ownA false) pkt;
   USend 22 23 None (0, 0) (MkEnvelope ownB true) [1; 2; 3];
   UReconnect;
   USend 30 31 (Some (sock, None)) (5, 6) (MkEnvelope ownB true) [4; 5];
   USend 32 33 None (0, 0) (MkEnvelope ownA false) pkt].
Definition client (id : Owner) : httpConnectIn := MkHttpIn "Mozilla/5.0" "X-Upload-Tag" [("Accept", "*/*")%string] key 0 id 0.
Definition listener : httpListenOut := newListenOut "/download" "X-Upload-Tag" key 2 true.
Definition get (id : Owner) (now : Z) : request :=
  let req := (hiRequest (client id) now).2 in
  MkRequest "GET" "/download" (header req "X-Upload-Tag") (header req "X-Upload-Tag-Sig").
(** A first contact, and the same peer coming back under its id. *)
Definition visits : list hevent := [HServe (get zeroOwner 50) [ownA] 60; HServe (get ownA 70) [] 80; HExit 0].
End HttpDemo.

Lemma chunked_body_witness :
  ∃ delta k, s_out (chunkedWrites HttpDemo.sock [[1; 2]; []; replicate 20 9]).1 = [] ++ delta ∧
    dechunk 4 delta = take k [[1; 2]; replicate 20 9] ∧ concat (dechunk 4 delta) = [1; 2] ++ replicate 20 9.
Proof.
  destruct (chunked_body HttpDemo.sock [[1; 2]; []; replicate 20 9] _ None
    ltac:(repeat constructor; vm_compute; reflexivity) (eq_refl _)) as (delta & k & H1 & H2 & H3).
  exists delta, k. split; [exact H1|]. split; [exact H2|]. exact (H3 eq_refl).
Defined.

Lemma http_uplink_stream_witness :
  let '(c', earlier, live) := urun (HttpDemo.out, [], []) HttpDemo.events in
  earlier = [PutEnvelope (MkEnvelope ownA false) HttpDemo.pkt; PutEnvelope (MkEnvelope ownB true) [1; 2; 3]] ∧
  live = [PutEnvelope (MkEnvelope ownB true) [4; 5]; PutEnvelope (MkEnvelope ownA false) HttpDemo.pkt] ∧
  ∃ u r sr, ho_conn c' = Some u ∧ WrapReader (ho_cipher c') (stream_out (uc_obf u) ++ []) = Ok sr ∧
    readFrames 2 sr MaxPacket = (stream_feed r [], Ok live).
Proof.
  assert (match urun (HttpDemo.out, [], []) HttpDemo.events with (c', earlier, live) =>
    bool_decide (is_Some (ho_conn c')) && bool_decide (earlier = [PutEnvelope (MkEnvelope ownA false) HttpDemo.pkt; PutEnvelope (MkEnvelope ownB true) [1; 2; 3]]) &&
    bool_decide (live = [PutEnvelope (MkEnvelope ownB true) [4; 5]; PutEnvelope (MkEnvelope ownA false) HttpDemo.pkt]) end = true) as Hs by (vm_compute; reflexivity).
  assert (sends_bytes HttpDemo.events) as Hb.
  { unfold sends_bytes, HttpDemo.events. repeat (apply Forall_cons; split); first [exact I | split; by vm_compute | constructor]. }
  destruct (urun (HttpDemo.out, [], []) HttpDemo.events) as [[c' earlier] live] eqn:Hrun.
  apply andb_true_iff in Hs as [[Hu%bool_decide_eq_true He%bool_decide_eq_true]%andb_true_iff Hl%bool_decide_eq_true]. destruct Hu as [u Hu].
  destruct (http_uplink_stream HttpDemo.out HttpDemo.events u c' earlier live Hrun eq_refl Hb Hu) as (_ & r & _ & H).
  destruct (H []) as (sr & H1 & H2). split; [exact He|]. split; [exact Hl|]. exists u, r, sr. split; [exact Hu|]. split; [exact H1|].
  rewrite Hl in H2 |- *. exact H2.
Defined.

Lemma http_send_discipline_witness :
  let '(c', res) := hoSend HttpDemo.out 10 11 None (0, 0) (MkEnvelope ownA false) HttpDemo.pkt in
  res = Some HDial ∧ urun (c', [], []) [USend 12 12 (Some (HttpDemo.sock, None)) (0, 0) (MkEnvelope ownA false) HttpDemo.pkt] = (c', [], []).
Proof.
  destruct (hoSend HttpDemo.out 10 11 None (0, 0) (MkEnvelope ownA false) HttpDemo.pkt) as [c' res] eqn:H.
  pose proof (http_send_discipline _ _ _ _ _ _ _ _ _ H) as Hd.
  assert (res = Some HDial) as -> by (vm_compute in H; congruence). split; [reflexivity|].
  destruct Hd as [Hd|Hd]; [discriminate Hd|]. apply Hd. repeat constructor.
Defined.

Lemma download_streams_witness :
  ∃ s, hrun (hstart HttpDemo.listener) HttpDemo.visits = Some s ∧ hl_byID (hs_c s) !! ownA = Some 1%nat ∧
    hs_running s !! 1%nat = Some ownA ∧ Z.of_nat (size (hl_byID (hs_c s))) ≤ 2.
Proof.
  assert (bool_decide (option_map (λ s, (hl_byID (hs_c s) !! ownA, hl_maxPeers (hs_c s)))
    (hrun (hstart HttpDemo.listener) HttpDemo.visits) = Some (Some 1%nat, 2)) = true) as Hs by (vm_compute; reflexivity).
  apply bool_decide_eq_true_1 in Hs.
  destruct (hrun (hstart HttpDemo.listener) HttpDemo.visits) as [s|] eqn:Hr; [|discriminate Hs].
  cbn [option_map] in Hs. injection Hs as Hs Hm. exists s. split; [reflexivity|]. split; [exact Hs|].
  destruct (download_streams "/download" "X-Upload-Tag" HttpDemo.key 2 true HttpDemo.visits s) as (H1 & H2 & _); [lia|exact Hr|].
  split; [by apply H1|]. rewrite Hm in H2. apply H2. lia.
Defined.

(** A named peer's request, served again after its handler returned. *)
Lemma download_no_replay_witness :
  ∃ c id hdrs s',
    serveDown HttpDemo.listener (HttpDemo.get ownA 70) 0 [] 80 = Serving c id hdrs ∧
    hrun (MkHState c {[0%nat := id]} 1) [HExit 0] = Some s' ∧
    serveDown (hs_c s') (HttpDemo.get ownA 70) 1 [] 90 = NotFound.
Proof.
  assert ((if serveDown HttpDemo.listener (HttpDemo.get ownA 70) 0 [] 80 is Serving _ id _ then bool_decide (id = ownA) else false) = true)
    as Hs by (vm_compute; reflexivity).
  destruct (serveDown HttpDemo.listener (HttpDemo.get ownA 70) 0 [] 80) as [|c id hdrs| |] eqn:H; try discriminate Hs.
  exists c, id, hdrs, (MkHState (hlRemove c id 0) ∅ 1). split; [reflexivity|].
  assert (hrun (MkHState c {[0%nat := id]} 1) [HExit 0] = Some (MkHState (hlRemove c id 0) ∅ 1)) as Hr.
  { cbn [hrun hexec hs_running]. rewrite lookup_singleton_eq. cbn. by rewrite delete_singleton_eq. }
  split; [exact Hr|].
  refine (download_no_replay (hstart HttpDemo.listener) (HttpDemo.get ownA 70) 0 [] 80 c id hdrs _ _ _ _ _ _ _ H _ Hr _).
  - right. vm_compute. discriminate.
  - left. clear. intros r draws now Hx. apply elem_of_cons in Hx as [Hx|Hx]; [discriminate Hx|by apply elem_of_nil in Hx].
Defined.

(** The freshness check does not cover a first contact: the same zero-id request
    replayed is given another id. *)
Lemma first_contact_replayed :
  match serveDown HttpDemo.listener (HttpDemo.get zeroOwner 50) 0 [ownA] 60 with
  | Serving c _ _ =>
      match serveDown c (HttpDemo.get zeroOwner 50) 1 [ownB] 61 with
      | Serving c' id _ => bool_decide (id = ownB) && (size (hl_byID c') =? 2)%nat
      | _ => false
      end
  | _ => false
  end = true.
Proof. vm_compute. reflexivity. Qed.

Lemma http_handshake_witness :
  ∃ c1 req l' hdrs c2, hiRequest (HttpDemo.client zeroOwner) 50 = (c1, req) ∧
    serveDown HttpDemo.listener (MkRequest "GET" "/download" (header req "X-Upload-Tag") (header req "X-Upload-Tag-Sig")) 0 [ownA] 60
      = Serving l' ownA hdrs ∧
    hiAdopt c1 (header hdrs "X-Upload-Tag") (header hdrs "X-Upload-Tag-Sig") = (c2, Some ownA).
Proof.
  destruct (hiRequest (HttpDemo.client zeroOwner) 50) as [c1 req] eqn:Hr.
  pose proof (http_handshake (HttpDemo.client zeroOwner) c1 req 50 HttpDemo.listener 0 [ownA] 60 Hr) as H.
  cbv zeta in H.
  match type of H with _ → _ → _ → _ → _ → _ → ?G => assert G as HG end.
  { apply H; clear H Hr.
    - repeat constructor; vm_compute; discriminate.
    - repeat constructor; cbn; lia.
    - repeat constructor; cbn; lia.
    - reflexivity.
    - reflexivity.
    - reflexivity. }
  clear H. change (hi_idHeader (HttpDemo.client zeroOwner)) with "X-Upload-Tag"%string in HG.
  change (hl_path HttpDemo.listener) with "/download"%string in HG. change (hl_idHeader HttpDemo.listener) with "X-Upload-Tag"%string in HG.
  change (sigHeaderName "X-Upload-Tag") with "X-Upload-Tag-Sig"%string in HG.
  match type of HG with match ?a with _ => _ end => assert (∃ l1, a = Reserved l1 ownA) as [l1 Ha] by (eexists; vm_compute; reflexivity); rewrite Ha in HG end.
  destruct (serveDown _ _ _ _ _) as [|l' id hdrs| |] eqn:Hs; try done.
  destruct HG as (-> & _ & _ & Ho). destruct Ho as (c2 & Hc2 & _); [vm_compute; reflexivity|].
  exists c1, req, l', hdrs, c2. split; [reflexivity|]. split; [exact Hs|exact Hc2].
Defined.

Lemma upload_supersede_witness :
  ∃ s s', nrun nstart [NEnter "a"; NEnter "b"; NEnter "a"; NLeave 0] = Some s ∧ hn_active (ns_c s) !! "a"%string = Some 2%nat ∧
    nexec s (NEnter "a") = Some s' ∧ 2%nat ∈ hn_cancelled (ns_c s').
Proof.
  eassert (nrun nstart [NEnter "a"; NEnter "b"; NEnter "a"; NLeave 0] = Some _) as Hr by (vm_compute; reflexivity).
  destruct (upload_supersede _ _ Hr) as [H1 H2]. eexists _, _. split; [exact Hr|]. split; [reflexivity|]. split; [reflexivity|].
  apply (H2 "a"%string _ 2%nat eq_refl). reflexivity.
Defined.

Definition responseEvents : list hdevent :=
  [HdSend (MkEnvelope ownA false) HttpDemo.pkt; HdInstall (RawWriter HttpDemo.sock); HdGoLive;
   HdSend (MkEnvelope ownA false) HttpDemo.pkt; HdTeardown].

Lemma response_lifetime_witness :
  ∃ w w', hdrun newHttpDown responseEvents = Some w ∧ hdrun w [HdWriter EvTryFlush] = Some w' ∧
    hd_obf (w_sink w') = hd_obf (w_sink w).
Proof.
  assert ((if hdrun newHttpDown responseEvents is Some w
    then bool_decide (is_Some (hdrun w [HdWriter EvTryFlush])) && (hd_phase (w_sink w) =? 3)%nat else false) = true) as Hs
    by (vm_compute; reflexivity).
  destruct (hdrun newHttpDown responseEvents) as [w|] eqn:Hr; [|discriminate Hs].
  apply andb_prop in Hs as [Hs Hp]. destruct (hdrun w [HdWriter EvTryFlush]) as [w'|] eqn:Hr'; [|discriminate Hs].
  exists w, w'. split; [reflexivity|]. split; [exact Hr'|].
  destruct (response_lifetime _ _ Hr) as [_ H2]. apply Nat.eqb_eq in Hp. exact (H2 Hp _ _ Hr').
Defined.
