(* ===== verification/Streams.v ===== *)
(** * internal/conn/tcp.go and http.go: whole sessions over a byte stream

    Tcp.v and Http.v model the critical sections of the stream carriers; this
    file models the functions that run them over one connection: the handlers
    of the listening ends and the [stream] functions of the dialing ends, on
    the bytes the other end put on the connection.  A connection that breaks
    (or is cut by a deadline, a cancelled context or an attacker) is one whose
    bytes end early.  The prefetching reader between [ReadFrame] and the
    routing loop hands over the frames in order (PktReader.v), so a session
    reads [allFrames]. *)

From S2P Require Import Prelude GoBytes Sha256 Wire ChaCha Cipher PktWriter Peers Control Tcp Http.
Local Open Scope Z_scope.

(** ** The frames of a stream *)

(** The bytes that have not been read yet. *)
Definition stream_left (r : streamReader) : list Z :=
  match r with RawReader b => b | ChachaReader i => cr_r i end.

(** The loop of the [fill] functions: frames until the first error. *)
Fixpoint allFrames (fuel : nat) (r : streamReader) : list (list Z) * option ioerr :=
  match fuel with
  | O => ([], None)
  | S fuel' =>
      match ReadFrame r MaxPacket with
      | (_, Err e) => ([], Some e)
      | (r', Ok p) => let '(ps, e) := allFrames fuel' r' in (p :: ps, e)
      end
  end.

(** Each frame takes at least its two-byte header. *)
Definition framesOf (r : streamReader) : list (list Z) := (allFrames (S (length (stream_left r))) r).1.

(** ** tcpListenIn, httpListenIn: a session of the receiving end *)

(** [handle]: the frames routed or dropped, and whether the handler gave up. *)
Definition tliHandle (x : streamCipher) (conn : list Z) : list frameVerdict * bool :=
  match WrapReader x conn with
  | Err _ => ([], false)
  | Ok obf => runStreamReader (framesOf obf)
  end.

(** [serveHTTP] of the upload listener on a request's body; [None]: 404. *)
Definition hnServe (path : string) (x : streamCipher) (method urlPath : string) (body : list Z)
    : option (list frameVerdict * bool) :=
  if negb (String.eqb method "POST") || negb (String.eqb urlPath path) then None
  else match WrapReader x body with
  | Err _ => Some ([], false)
  | Ok obf => Some (runStreamReader (framesOf obf))
  end.

(** ** tcpConnectIn: a session of the registering end *)

(** [stream] up to the registration on the wire; the draw is the cipher's
    nonce.  The result is the keystream for the keepalives, or nothing when
    the session ends here. *)
Definition tiOpen (c : tcpConnectIn) (x : streamCipher) (conn : Sink) (draw : Z * Z) (now : Z)
    : tcpConnectIn * option streamWriter :=
  match WrapWriter x draw conn with
  | Err _ => (c, None)
  | Ok obfW =>
      let '(c1, frame) := registerFrame c now in
      match WriteFrame obfW frame with
      | (_, Some _) => (c1, None)
      | (obfW', None) => (c1, Some obfW')
      end
  end.

(** What a session does with the bytes it receives: the id handed to the id
    setter, the id its keepalives carry, and the frames routed or dropped. *)
Record session := MkSession {
  ss_adopted : option Owner;
  ss_id : Owner;
  ss_frames : list frameVerdict;
  ss_gaveUp : bool;
}.

Definition endedSession (id : Owner) : session := MkSession None id [] false.

(** The rest of [stream], on the bytes the server sends; [id] is [curID] at the start. *)
Definition tiRead (c : tcpConnectIn) (x : streamCipher) (id : Owner) (conn : list Z) : tcpConnectIn * session :=
  match WrapReader x conn with
  | Err _ => (c, endedSession id)
  | Ok obfR =>
      match ReadFrame obfR MaxPacket with
      | (_, Err _) => (c, endedSession id)
      | (obfR, Ok frame) =>
          let '(c, adopted) := adoptAssignment c frame in
          let '(out, gaveUp) := runStreamReader (framesOf obfR) in
          (c, MkSession adopted (default id adopted) out gaveUp)
      end
  end.

(** [stream]: the dial's connection (how much it will take), what the server
    sends on it, and the id to keep alive. *)
Record attempt := MkAttempt {
  at_dial : option Sink;
  at_draw : Z * Z;
  at_now : Z;
  at_received : list Z;
}.

Definition tiStream (c : tcpConnectIn) (x : streamCipher) (a : attempt) : tcpConnectIn * session :=
  let id := ti_curID c in
  match at_dial a with
  | None => (c, endedSession id)
  | Some conn =>
      match tiOpen c x conn (at_draw a) (at_now a) with
      | (c, None) => (c, endedSession id)
      | (c, Some _) => tiRead c x id (at_received a)
      end
  end.

(** The loop of [Start]: one session after the other, on one client state. *)
Fixpoint tiLoop (c : tcpConnectIn) (x : streamCipher) (attempts : list attempt) : tcpConnectIn * list session :=
  match attempts with
  | [] => (c, [])
  | a :: attempts' =>
      let '(c, ss) := tiStream c x a in
      let '(c, sss) := tiLoop c x attempts' in (c, ss :: sss)
  end.

(** [keepalive]: one frame per tick until a write fails. *)
Fixpoint keepalives (c : tcpConnectIn) (obfW : streamWriter) (id : Owner) (ticks : list Z) : tcpConnectIn * streamWriter :=
  match ticks with
  | [] => (c, obfW)
  | now :: ticks' =>
      let '(c, frame) := keepaliveFrame c id now in
      match WriteFrame obfW frame with
      | (obfW, Some _) => (c, obfW)
      | (obfW, None) => keepalives c obfW id ticks'
      end
  end.

(** ** tcpListenOut: a session of the registering end's server *)

(** [handle] up to the assignment, on the bytes the client sends: the new down
    connection with the assignment frame to write, and the reader the steady
    loop goes on with.  [None]: the draws do not end the mint loop. *)
Definition tlHandshake (c : tcpListenOut) (x : streamCipher) (conn : list Z) (out : Sink) (draw : Z * Z)
    (peerKey : string) (dc : nat) (now : Z) (draws : list Owner)
    : option (tcpListenOut * option (tcpDownConn * list Z * streamReader)) :=
  match WrapReader x conn with
  | Err _ => Some (c, None)
  | Ok obfR =>
      match ReadFrame obfR MaxPacket with
      | (_, Err _) => Some (c, None)
      | (obfR, Ok frame) =>
          match decodeControl frame (tl_key c) with
          | None => Some (c, None)
          | Some (typ, _, _, _) =>
              if negb (isRegistration typ) then Some (c, None)
              else match WrapWriter x draw out with
              | Err _ => Some (c, None)
              | Ok obfW =>
                  match registerDown c frame peerKey dc now draws with
                  | None => None
                  | Some (c, None) => Some (c, None)
                  | Some (c, Some assign) => Some (c, Some (newDownConn obfW, assign, obfR))
                  end
              end
          end
      end
  end.

(** The steady loop over the frames that follow, each with the clock at its
    arrival and the draws a registration would take; false: the handler gave up. *)
Fixpoint tlSteady (c : tcpListenOut) (bad : Z) (frames : list (list Z * Z * list Owner)) (peerKey : string) (dc : nat)
    : option (tcpListenOut * bool) :=
  match frames with
  | [] => Some (c, true)
  | (frame, now, draws) :: frames' =>
      match steadyFrame c bad frame peerKey dc now draws with
      | None => None
      | Some (c, bad, true) => tlSteady c bad frames' peerKey dc
      | Some (c, _, false) => Some (c, false)
      end
  end.

(** The life of a registered connection among everything that happens to its
    listener: its own frames, the collector, registrations of other handlers.
    The collector visits the peers in any order. *)
Inductive lifeEvent :=
| LFrame (frame : list Z) (now : Z) (draws : list Owner)
| LGC (now : Z) (order : list (Owner * nat))
| LOther (claimed : Owner) (key : string) (ts : Z) (dc : nat) (now : Z) (draws : list Owner).

Inductive life (peerKey : string) (dc : nat) : tcpListenOut * Z → list lifeEvent → tcpListenOut * Z → Prop :=
| life_nil s : life peerKey dc s [] s
| life_frame c bad frame now draws c1 bad1 es s :
    steadyFrame c bad frame peerKey dc now draws = Some (c1, bad1, true) → life peerKey dc (c1, bad1) es s →
    life peerKey dc (c, bad) (LFrame frame now draws :: es) s
| life_gc c bad now order reg n es s :
    order ≡ₚ map_to_list (g_byID (tl_reg c)) → GC (tl_reg c) now order = (reg, n) →
    life peerKey dc (MkTcpOut (tl_key c) (tl_multiple c) reg, bad) es s →
    life peerKey dc (c, bad) (LGC now order :: es) s
| life_other c bad claimed key ts dc' now draws reg out es s :
    Register (tl_reg c) claimed key ts dc' now draws = Some (reg, out) →
    life peerKey dc (MkTcpOut (tl_key c) (tl_multiple c) reg, bad) es s →
    life peerKey dc (c, bad) (LOther claimed key ts dc' now draws :: es) s.

(** ** httpConnectIn: a download session *)

(** [stream] from the response on: the values of its id and signature headers,
    then its body.  The status code is not looked at. *)
Definition hiRead (c : httpConnectIn) (x : streamCipher) (idh sig body : list Z) : httpConnectIn * session :=
  let id := hi_curID c in
  let '(c, adopted) := hiAdopt c idh sig in
  match WrapReader x body with
  | Err _ => (c, MkSession adopted (default id adopted) [] false)
  | Ok obf =>
      let '(out, gaveUp) := runStreamReader (framesOf obf) in
      (c, MkSession adopted (default id adopted) out gaveUp)
  end.

(** ** Lemmas: reading a stream that is cut *)

Lemma readFull_ok n r b r' : readFull n r = Ok (b, r') → r = b ++ r' ∧ length b = n.
Proof.
  unfold readFull. destruct (Nat.leb_spec n (length r)) as [Hn|Hn]; [|by destruct r].
  intros [= <- <-]. split; [by rewrite take_drop|]. rewrite length_take. lia.
Qed.

Lemma readFull_more n r b r' more : readFull n r = Ok (b, r') → readFull n (r ++ more) = Ok (b, r' ++ more).
Proof. intros [-> <-]%readFull_ok. rewrite <- app_assoc. apply readFull_app. Qed.

(** A frame that was read is read the same whatever follows it, and took at
    least two bytes. *)
Lemma crReadFrame_local i n i' p more :
  crReadFrame i n = (i', Ok p) →
  crReadFrame (MkCR (cr_r i ++ more) (cr_c i) (cr_head i)) n = (MkCR (cr_r i' ++ more) (cr_c i') (cr_head i'), Ok p) ∧
  (length (cr_r i') + 2 ≤ length (cr_r i))%nat.
Proof.
  unfold crReadFrame. cbn [cr_r cr_c cr_head]. destruct (n <? 2); [done|].
  destruct (readFull 2 (cr_r i)) as [[h r1]|e] eqn:E1; [|done]. rewrite (readFull_more _ _ _ _ more E1).
  apply readFull_ok in E1 as [E1 Hh].
  destruct (XORKeyStream (cr_c i) h) as [c1 hdr]. destruct (be_val hdr >? n); [done|].
  destruct (readFull (Z.to_nat (be_val hdr)) r1) as [[b r2]|e] eqn:E2; [|done]. rewrite (readFull_more _ _ _ _ more E2).
  apply readFull_ok in E2 as [E2 Hb]. destruct (xorHead c1 _ b) as [c2 q]. intros [= <- <-]. cbn. split; [done|].
  rewrite E1, E2, !length_app. lia.
Qed.

Lemma bytesReadFrame_local b n b' p more :
  ReadFrame b n = (b', Ok p) → ReadFrame (b ++ more) n = (b' ++ more, Ok p) ∧ (length b' + 2 ≤ length b)%nat.
Proof.
  unfold ReadFrame. cbn [asFrameReader bytes_reader ioReadFull]. destruct (n <? 2); [done|]. unfold bytesReadFull.
  destruct (readFull 2 b) as [[h b1]|e] eqn:E1; [|done]. rewrite (readFull_more _ _ _ _ more E1).
  apply readFull_ok in E1 as [E1 Hh]. destruct (be_val h >? n); [done|].
  destruct (readFull (Z.to_nat (be_val h)) b1) as [[q b2]|e] eqn:E2; [|done]. rewrite (readFull_more _ _ _ _ more E2).
  apply readFull_ok in E2 as [E2 Hb]. intros [= <- <-]. split; [done|]. rewrite E1, E2, !length_app. lia.
Qed.

Lemma ReadFrame_local (r : streamReader) n r' p more :
  ReadFrame r n = (r', Ok p) →
  ReadFrame (stream_feed r more) n = (stream_feed r' more, Ok p) ∧
  (length (stream_left r') + 2 ≤ length (stream_left r))%nat.
Proof.
  destruct r as [b|i].
  - rewrite ReadFrame_raw. cbn [stream_feed]. rewrite ReadFrame_raw. unfold liftR.
    destruct (ReadFrame b n) as [b1 [q|e]] eqn:E; [|done]. intros [= <- <-].
    destruct (bytesReadFrame_local b n b1 q more E) as [-> H]. by split.
  - unfold ReadFrame. cbn [asFrameReader streamReader_io stream_feed]. unfold liftR.
    destruct (crReadFrame i n) as [i1 [q|e]] eqn:E; [|done]. intros [= <- <-].
    destruct (crReadFrame_local i n i1 q more E) as [-> H]. by split.
Qed.

Lemma stream_left_feed r more : stream_left (stream_feed r more) = stream_left r ++ more.
Proof. by destruct r. Qed.

Lemma stream_feed_app r a b : stream_feed (stream_feed r a) b = stream_feed r (a ++ b).
Proof. destruct r; cbn; by rewrite app_assoc. Qed.

Lemma stream_feed_nil r : stream_feed r [] = r.
Proof. destruct r as [b|[b c h]]; cbn; by rewrite app_nil_r. Qed.

Lemma sync_left w r : stream_sync w r → stream_left r = [].
Proof. destruct w, r; cbn; try done. by intros (_ & ? & _). Qed.

(** The reading loop ends, whatever the bytes. *)
Lemma allFrames_ends fuel r : (length (stream_left r) < fuel)%nat → is_Some (allFrames fuel r).2.
Proof.
  revert r. induction fuel as [|fuel IH]; intros r Hf; [lia|]. cbn [allFrames].
  destruct (ReadFrame r MaxPacket) as [r' [p|e]] eqn:E; [|done].
  apply (ReadFrame_local _ _ _ _ []) in E as [_ Hl]. specialize (IH r' ltac:(lia)).
  by destruct (allFrames fuel r').
Qed.

(** A frame whose bytes did not all arrive is not read. *)
Lemma frame_cut (w : streamWriter) r p w' k delta r' :
  stream_sync w r → Forall u8 p → WriteFrame w p = (w', None) → stream_out w' = stream_out w ++ delta →
  (k < length delta)%nat → (ReadFrame (stream_feed r (take k delta)) MaxPacket).2 ≠ Ok r'.
Proof.
  intros Hs Hu Hw Hout Hk Hr.
  destruct (stream_frame_law w r p w' Hs Hu Hw) as (d & r1 & Hd & Hs1 & Hread).
  assert (d = delta) as -> by (apply (app_inv_head (stream_out w)); congruence).
  destruct (ReadFrame (stream_feed r (take k delta)) MaxPacket) as [r2 res] eqn:E. cbn in Hr. subst res.
  apply (ReadFrame_local _ _ _ _ (drop k delta)) in E as [E _].
  rewrite stream_feed_app, take_drop in E. specialize (Hread [] MaxPacket ltac:(reflexivity)). rewrite app_nil_r in Hread.
  rewrite Hread in E. injection E as E _. apply (f_equal stream_left) in E.
  rewrite !stream_left_feed, (sync_left _ _ Hs1) in E. apply (f_equal length) in E.
  rewrite !length_app, length_drop in E. cbn in E. lia.
Qed.

(** Of a stream of frames cut anywhere, exactly some first frames are read:
    all of them when all bytes arrived. *)
Lemma frames_cut (w : streamWriter) r ps w' delta k fuel :
  stream_sync w r → Forall (Forall u8) ps → writeFrames w ps = (w', None) → stream_out w' = stream_out w ++ delta →
  (k < fuel)%nat →
  ∃ n, (n ≤ length ps)%nat ∧ (allFrames fuel (stream_feed r (take k delta))).1 = take n ps ∧
    ((length delta ≤ k)%nat → n = length ps).
Proof.
  revert w r delta k fuel. induction ps as [|p ps IH]; intros w r delta k fuel Hs Hu Hw Hout Hf.
  - cbn in Hw. simplify_eq. assert (delta = []) as ->.
    { apply (app_inv_head (stream_out w')). by rewrite app_nil_r. }
    exists 0%nat. split; [done|]. split; [|done]. rewrite take_nil, stream_feed_nil.
    destruct fuel as [|fuel]; [done|]. cbn [allFrames]. destruct (ReadFrame r MaxPacket) as [r1 [q|e]] eqn:E; [|done].
    apply (ReadFrame_local _ _ _ _ []) in E as [_ Hl]. rewrite (sync_left _ _ Hs) in Hl. cbn in Hl. lia.
  - cbn [writeFrames] in Hw. apply Forall_cons in Hu as [Hp Hps].
    destruct (WriteFrame w p) as [w1 [e|]] eqn:Hw1; [done|].
    destruct (stream_frame_law w r p w1 Hs Hp Hw1) as (d1 & r1 & Hd1 & Hs1 & Hread).
    destruct (writeFrames_grows w1 ps) as [d2 Hd2]. rewrite Hw in Hd2. cbn [fst] in Hd2.
    assert (delta = d1 ++ d2) as -> by (apply (app_inv_head (stream_out w)); rewrite <- Hout, Hd2, Hd1; by rewrite app_assoc).
    destruct fuel as [|fuel]; [lia|]. cbn [allFrames].
    destruct (decide (k < length d1)%nat) as [Hk|Hk].
    + rewrite take_app_le by lia. exists 0%nat. split; [lia|]. split; [|rewrite length_app; lia].
      destruct (ReadFrame (stream_feed r (take k d1)) MaxPacket) as [r2 [q|e]] eqn:E; [|done].
      exfalso. apply (frame_cut w r p w1 k d1 q Hs Hp Hw1 Hd1 Hk). by rewrite E.
    + rewrite take_app_ge by lia. rewrite (Hread _ MaxPacket ltac:(reflexivity)).
      assert (2 ≤ length d1)%nat as H2.
      { specialize (Hread [] MaxPacket ltac:(reflexivity)). apply (ReadFrame_local _ _ _ _ []) in Hread as [_ Hl].
        rewrite !stream_left_feed, (sync_left _ _ Hs), !length_app in Hl. cbn in Hl. lia. }
      destruct (IH w1 r1 d2 (k - length d1)%nat fuel Hs1 Hps Hw Hd2 ltac:(lia)) as (n & Hn & Ha & Hall).
      exists (S n). split; [cbn; lia|]. split.
      * destruct (allFrames fuel _) as [qs e]. cbn in *. by rewrite Ha.
      * rewrite length_app. intros Hk'. cbn. rewrite Hall by lia. done.
Qed.

Lemma framesOf_cut (w : streamWriter) r ps w' delta k :
  stream_sync w r → Forall (Forall u8) ps → writeFrames w ps = (w', None) → stream_out w' = stream_out w ++ delta →
  ∃ n, (n ≤ length ps)%nat ∧ framesOf (stream_feed r (take k delta)) = take n ps ∧ ((length delta ≤ k)%nat → n = length ps).
Proof.
  intros Hs Hu Hw Hout. destruct (decide (length delta ≤ k)%nat) as [Hk|Hk].
  - destruct (frames_cut w r ps w' delta (length delta) (S (length delta)) Hs Hu Hw Hout ltac:(lia)) as (n & Hn & Ha & Hall).
    exists n. split; [done|]. split; [|auto]. rewrite <- Ha. unfold framesOf.
    by rewrite stream_left_feed, (sync_left _ _ Hs), (take_ge delta k), firstn_all by done.
  - destruct (frames_cut w r ps w' delta k (S k) Hs Hu Hw Hout ltac:(lia)) as (n & Hn & Ha & Hall).
    exists n. split; [done|]. split; [|done]. rewrite <- Ha. unfold framesOf.
    rewrite stream_left_feed, (sync_left _ _ Hs). cbn [app]. by rewrite length_take_le by lia.
Qed.

(** Whatever arrives of a stream that begins with a nonce: the reader is
    wrapped exactly when the whole nonce arrived. *)
Lemma wrap_cut x draw s sw k :
  s_out s = [] → WrapWriter x draw s = Ok sw →
  ∃ sr, stream_sync sw sr ∧ ∀ bytes,
    if (k <? length (stream_out sw))%nat then (∃ e, WrapReader x (take k (stream_out sw ++ bytes)) = Err e)
    else WrapReader x (take k (stream_out sw ++ bytes)) = Ok (stream_feed sr (take (k - length (stream_out sw)) bytes)).
Proof.
  intros Hs Hw. destruct (wrap_sync x draw s sw Hw) as (d & sr & Hd & Hsync & Hr). rewrite Hs in Hd. cbn in Hd.
  exists sr. split; [done|]. intros bytes. rewrite Hd. destruct (Nat.ltb_spec k (length d)) as [Hk|Hk].
  - rewrite take_app_le by lia. destruct (WrapReader x (take k d)) as [r|e] eqn:E; [exfalso|by eexists].
    destruct x as [|key head]; cbn in Hw, E.
    + injection Hw as <-. cbn in Hd. rewrite Hs in Hd. subst d. cbn in Hk. lia.
    + destruct (readFull chachaNonceLen (take k d)) as [[nonce r']|e] eqn:E'; [|done].
      apply readFull_ok in E' as [E' Hn]. apply (f_equal length) in E'. rewrite length_app, length_take_le in E' by lia.
      destruct (sinkWrite s _) as [s' [e|]] eqn:Es; [done|]. injection Hw as <-. apply sinkWrite_ok in Es. rewrite Hs in Es.
      cbn in Es, Hd. subst d. rewrite Es in Hk. cbn in Hk, Hn. unfold chachaNonceLen in Hn. lia.
  - rewrite take_app_ge by lia. by rewrite Hr.
Qed.

(** ** Lemmas: batches over any state of a writer *)

(** [qrun_sink] from any state: the batches given to the sink, with what is
    still buffered, are what was buffered and the packets put. *)
Lemma qrun_sink_from {F E} (fl : F → list (list Z) → F * option E) cap k w ops w' :
  (0 < k)%nat → writer_ok cap k w → qrun fl w ops = Some w' →
  ∃ log, w_sink w' = replay fl (w_sink w) log ∧ concat log ++ pending w' = pending w ++ puts ops ∧ writer_ok cap k w'.
Proof.
  intros Hk Hok Hr.
  set (wl := MkWriter (w_arena w) (w_alen w) (w_views w) (w_vcap w) (w_err w) (w_mu w) [] : Writer (list (list (list Z))) E).
  assert (w = unlog fl (w_sink w) wl) as Hw by (by destruct w).
  rewrite Hw in Hr. cbn [unlog w_sink] in Hr. rewrite qrun_unlog in Hr. apply fmap_Some in Hr as (wl' & Hr & ->).
  assert (writer_ok cap k wl) as Hokl by (by destruct Hok).
  destruct (qrun_accepted _ cap k _ _ _ Hk Hokl Hr) as [Hok' Ha]. exists (w_sink wl'). split; [done|].
  split; [exact Ha|]. by destruct Hok'.
Qed.

(** What every flush keeps true of the sink and the sticky error, every step
    of the writer keeps. *)
Section pair.
Context {F E : Type} (fl : F → list (list Z) → F * option E) (P : F → option E → Prop).
Context (Hfl : ∀ f b err, P f err → P (fl f b).1 (match (fl f b).2 with Some e => Some e | None => err end)).
Let ok (w : Writer F E) : Prop := P (w_sink w) (w_err w).

Lemma flushLocked_pair w : ok w → ok (flushLocked fl w).
Proof.
  intros Hw. unfold flushLocked. destruct (w_views w); [done|].
  specialize (Hfl _ (pending w) _ Hw). by destruct (fl (w_sink w) (pending w)).
Qed.

Lemma writePacket_pair w p w' : ok w → writePacket fl w p = Next w' → ok w'.
Proof.
  intros Hw. unfold writePacket, Reserve. destruct (w_mu w); [done|].
  match goal with |- context [if ?b then flushLocked fl w else w] => set (w1 := if b then flushLocked fl w else w) end.
  assert (ok w1) as H1 by (unfold w1; destruct (_ || _); [by apply flushLocked_pair|done]).
  clearbody w1. destruct (_ <=? _)%nat; [|done]. unfold fillReserved. cbn [setMu w_mu w_alen w_views w_vcap w_err w_sink w_arena].
  destruct (_ <=? _)%nat; [|done]. unfold Commit. cbn [w_mu w_alen w_arena]. destruct (_ <=? _)%nat; [|done].
  intros [= <-]. unfold ok. cbn [setMu w_sink w_err]. destruct (_ || _); [by apply flushLocked_pair|done].
Qed.

Lemma qrun_pair w ops w' : ok w → qrun fl w ops = Some w' → ok w'.
Proof.
  revert w. induction ops as [|[p|] ops IH]; intros w Hw Hr; cbn [qrun qexec] in Hr; [by simplify_eq| |].
  - destruct (writePacket fl w p) as [w1| |] eqn:E1; [|done..]. eapply IH; [|exact Hr]. by eapply writePacket_pair.
  - unfold tryFlush in Hr. destruct (w_mu w); (eapply IH; [|exact Hr]); [done|by apply flushLocked_pair].
Qed.
End pair.

(** ** Lemmas: the down connection of a session *)

Definition qev (o : qop) : devent := match o with QPut blob => DSend blob | QTick => DWriter EvTryFlush end.

Lemma drun_app w a b : drun w (a ++ b) = drun w a ≫= λ w1, drun w1 b.
Proof. revert w. induction a as [|e a IH]; intros w; cbn [app drun]; [done|]. destruct (dexec w e); cbn; [apply IH|done]. Qed.

Lemma flushViews_dead c b : dc_dead c = true → dc_dead (flushViews c b).1 = true.
Proof. intros Hd. unfold flushViews. rewrite Hd. by destruct (dc_held c). Qed.

Lemma drun_dead w ops w' : dc_dead (w_sink w) = true → drun w (map qev ops) = Some w' → dc_dead (w_sink w') = true.
Proof.
  revert w. induction ops as [|o ops IH]; intros w Hd Hr; cbn [map drun] in Hr; [by simplify_eq|].
  apply bind_Some in Hr as (w1 & He & Hr). apply (IH w1); [|done].
  refine (dexec_core (λ c, dc_dead c = true) w _ w1 _ _ _ _ He Hd); [apply flushViews_dead|by destruct o..].
Qed.

(** A connection that is not dead at the end took every step as its writer
    does, none of them into a held mutex. *)
Lemma drun_qrun w ops w' :
  drun w (map qev ops) = Some w' → dc_dead (w_sink w') = false →
  qrun flushViews w ops = Some w' ∧ (w_err w ≠ Some ErrWouldBlock → w_err w' ≠ Some ErrWouldBlock).
Proof.
  revert w. induction ops as [|o ops IH]; intros w Hr Hd; cbn [map drun] in Hr; [by simplify_eq|].
  apply bind_Some in Hr as (w1 & He & Hr). destruct (IH w1 Hr Hd) as [Hq Herr]. cbn [qrun].
  assert (qexec flushViews w o = Next w1 ∧ w_err w1 ≠ Some ErrWouldBlock) as [-> Hne]; [|by split; [|auto]].
  destruct o as [blob|]; cbn [qev dexec qexec wexec] in *.
  - unfold downSink in He. destruct (dc_dead (w_sink w)) eqn:Hdw; cbn in He.
    + assert (dc_dead (w_sink w1) = true) as Hd1 by (destruct (w_err w) as [[]|]; by simplify_eq).
      by rewrite (drun_dead w1 ops w' Hd1 Hr) in Hd.
    + pose proof (unblocked_some _ _ He) as Hn. split; [done|]. rewrite Hn in He. cbn in He. by destruct (w_err w1) as [[]|].
  - pose proof (unblocked_some _ _ He) as Hn. split; [done|]. rewrite Hn in He. cbn in He. by destruct (w_err w1) as [[]|].
Qed.

Lemma waiting_replay obf log c : waiting obf c → replay flushViews c log = c.
Proof.
  intros (Hh & Hd & Ho). induction log as [|b log IH] using rev_ind; [done|].
  unfold replay in *. rewrite fold_left_app, IH. cbn [fold_left]. unfold flushViews. by rewrite Hh.
Qed.

(** While the handler holds the mutex packets are only buffered. *)
Lemma waiting_run obf cap k w ops w' :
  (0 < k)%nat → writer_ok cap k w → waiting obf (w_sink w) → w_err w ≠ Some ErrWouldBlock →
  drun w (map qev ops) = Some w' →
  writer_ok cap k w' ∧ w_sink w' = w_sink w ∧ pending w' = pending w ++ puts ops.
Proof.
  intros Hk Hok Hw He Hr.
  assert (waiting obf (w_sink w')) as Hw'.
  { destruct (drun_waiting obf w _ w' Hw Hr) as [[_ H]|(pre & f & post & w1 & Heq & _)]; [done|]. exfalso.
    assert (DAssign f ∈ map qev ops) as Hin by (rewrite Heq; apply elem_of_app; right; left).
    apply list_elem_of_fmap in Hin as ([p|] & Ho & _); discriminate Ho. }
  destruct (drun_qrun w ops w' Hr) as [Hq Herr]; [apply Hw'|].
  set (wl := MkWriter (w_arena w) (w_alen w) (w_views w) (w_vcap w) (w_err w) (w_mu w) [] : Writer (list (list (list Z))) tcpErr).
  assert (w = unlog flushViews (w_sink w) wl) as Hwl by (by destruct w).
  rewrite Hwl in Hq. cbn [unlog w_sink] in Hq. rewrite qrun_unlog in Hq. apply fmap_Some in Hq as (wl' & Hq & ->).
  assert (writer_ok cap k wl) as Hokl by (by destruct Hok).
  destruct (qrun_accepted _ cap k _ _ _ Hk Hokl Hq) as [Hok' Ha].
  assert (w_sink wl' = []) as Hlog.
  { destruct (qrun_pair (recorder (replayErr flushViews (w_sink w))) (λ log err, log = [] ∨ err = Some ErrWouldBlock)) with (w := wl) (ops := ops) (w' := wl')
      as [H|H]; [|by left|done|done|]; [|by apply Herr in H].
    intros log b err _. right. unfold recorder, replayErr. cbn. rewrite (waiting_replay obf) by done.
    unfold flushViews. destruct Hw as (-> & _ & _). done. }
  split; [by destruct Hok'|]. cbn [unlog w_sink]. rewrite Hlog. split; [done|].
  unfold accepted in Ha. rewrite Hlog in Ha. exact Ha.
Qed.

(** A flushed connection that is still alive framed every batch it was given. *)
Lemma replay_alive log c :
  dc_held c = false → dc_dead (replay flushViews c log) = false →
  writeFrames (dc_obf c) (concat log) = (dc_obf (replay flushViews c log), None).
Proof.
  revert c. induction log as [|b log IH]; intros c Hh Hd; [done|].
  change (replay flushViews c (b :: log)) with (replay flushViews (flushViews c b).1 log) in *.
  assert (∀ c0, dc_dead c0 = true → dc_dead (replay flushViews c0 log) = true) as Hdead.
  { clear. induction log as [|b' log IH]; intros c0 H; [done|]. apply (IH (flushViews c0 b').1), flushViews_dead, H. }
  cbn [concat]. rewrite writeFrames_app.
  assert (dc_dead (flushViews c b).1 = false) as Hd1.
  { destruct (dc_dead (flushViews c b).1) eqn:H; [|done]. by rewrite (Hdead _ H) in Hd. }
  assert (∃ obf, writeFrames (dc_obf c) b = (obf, None) ∧ (flushViews c b).1 = setDown c obf) as (obf & -> & Hf).
  { unfold flushViews in *. rewrite Hh in *. destruct (dc_dead c) eqn:Hdc; [by cbn in Hd1; congruence|].
    destruct (writeFrames (dc_obf c) b) as [obf [e|]]; [done|]. exists obf. split; [done|]. by destruct (dc_flushOk c). }
  rewrite Hf in *. by apply (IH (setDown c obf)).
Qed.

(** The stream of a down connection that lived through its session: the
    assignment, then the packets sent that are not in the batch any more. *)
Lemma down_stream obf0 pre f post w' :
  drun (newDownConn obf0) (map qev pre ++ DAssign f :: map qev post) = Some w' → dc_dead (w_sink w') = false →
  (WriteFrame obf0 f).2 = None →
  ∃ framed, framed ++ pending w' = puts pre ++ puts post ∧ writeFrames obf0 (f :: framed) = (dc_obf (w_sink w'), None).
Proof.
  intros Hr Hd Hok. rewrite drun_app in Hr. apply bind_Some in Hr as (w1 & Hpre & Hr). cbn [drun] in Hr.
  apply bind_Some in Hr as (w2 & Ha & Hpost).
  assert ((0 < streamWriteBatch)%nat) as Hk by (unfold streamWriteBatch; lia).
  destruct (waiting_run obf0 tcpWriteBufSize streamWriteBatch (newDownConn obf0) pre w1) as (Hok1 & Hs1 & Hp1);
    [done|by apply NewWriter_ok|done|done|done|].
  cbn [dexec] in Ha. rewrite Hs1 in Ha. cbn [newDownConn NewWriter w_sink dc_held] in Ha. injection Ha as <-.
  destruct (drun_qrun _ _ _ Hpost Hd) as [Hq _].
  assert (writer_ok tcpWriteBufSize streamWriteBatch (onDown (λ c, (writeAssignment c f).1) w1)) as Hok2 by (by destruct Hok1).
  destruct (qrun_sink_from flushViews _ _ _ post w' Hk Hok2 Hq) as (log & Hlog & Hc & _).
  exists (concat log). split.
  - change (pending (onDown _ w1)) with (pending w1) in Hc. rewrite Hp1 in Hc. exact Hc.
  - rewrite Hlog in *. cbn [onDown w_sink] in *. rewrite Hs1 in *. cbn [newDownConn NewWriter w_sink] in *.
    cbn [writeFrames]. unfold writeAssignment in *. cbn [dc_obf] in *. destruct (WriteFrame obf0 f) as [o1 err]. cbn in Hok. subst err.
    cbn [fst] in *. apply (replay_alive log (MkDownCore o1 false false true)); done.
Qed.

(** ** Lemmas: routing what was sent *)

Definition blobOf (ep : Envelope * list Z) : list Z := PutEnvelope ep.1 ep.2.
Definition delivery (ep : Envelope * list Z) : frameVerdict := FDeliver ep.1 ep.2.

(** What the carriers are given: bytes, of which the payload is an IP packet. *)
Definition bytesOwner (o : Owner) : Prop := Forall u8 (ownerBytes o).
Definition ipPacket (ep : Envelope * list Z) : Prop :=
  bytesOwner (Env_Owner ep.1) ∧ Forall u8 ep.2 ∧ PlausibleIP ep.2 = true.

Lemma blobs_u8 sends : Forall ipPacket sends → Forall (Forall u8) (map blobOf sends).
Proof. intros H. apply Forall_map. eapply Forall_impl; [exact H|]. intros ep (Ho & Hp & _). by apply PutEnvelope_u8. Qed.

Lemma deliver_all bad sends : Forall ipPacket sends → streamLoop bad (map blobOf sends) = (map delivery sends, false).
Proof.
  intros H. revert bad. induction H as [|[e p] sends (_ & _ & Hp) _ IH]; intros bad; [done|]. cbn [map streamLoop].
  unfold verdict, blobOf. cbn [fst snd] in *. rewrite parse_put_envelope, Hp, IH. done.
Qed.

Definition toOps (sends : list (option (Envelope * list Z))) : list qop :=
  map (λ o, match o with Some ep => QPut (blobOf ep) | None => QTick end) sends.

Lemma puts_toOps sends : puts (toOps sends) = map blobOf (omap id sends).
Proof. unfold puts, toOps. induction sends as [|[ep|] l IH]; cbn; [done| |done]. by f_equal. Qed.

Lemma split_sent {A} (f : A → list Z) framed (rest : list (list Z)) l :
  framed ++ rest = map f l → framed = map f (take (length framed) l) ∧ (length framed + length rest = length l)%nat.
Proof.
  intros H. split.
  - rewrite <- firstn_map, <- H. by rewrite take_app_length.
  - rewrite <- length_app, H. by rewrite length_map.
Qed.

(** ** Properties *)

(** Claim C7.  An uplink session end to end: a connection the dialer got is wrapped, packets are sent with
    flush ticks in between, and wherever the connection breaks, the handler of
    the listener routes exactly some first packets of those sent, each intact
    with its envelope, drops none and does not give up; when the whole stream
    arrives these are all but the ones still in the batch. *)
Theorem up_session c s draw obf0 cap k sends w' obf' cut :
  (0 < k)%nat → oc_closed c = false → s_out s = [] → WrapWriter (oc_cipher c) draw s = Ok obf0 →
  Forall ipPacket (omap id sends) →
  qrun flush (NewWriter (dialDone c (Some s) draw) cap k) (toOps sends) = Some w' → oc_obf (w_sink w') = Some obf' →
  ∃ n, tliHandle (oc_cipher c) (take cut (stream_out obf')) = (map delivery (take n (omap id sends)), false) ∧
    (n + length (pending w') ≤ length (omap id sends))%nat ∧
    ((length (stream_out obf') ≤ cut)%nat → (n + length (pending w') = length (omap id sends))%nat).
Proof.
  intros Hk Hcl Hs Hw Hip Hr Hobf.
  assert (oc_obf (dialDone c (Some s) draw) = Some obf0) as Hc0.
  { unfold dialDone. cbn [setDialing oc_closed oc_cipher]. by rewrite Hcl, Hw. }
  apply qrun_sink in Hr as (log & Hlog & Hq); [|done]. rewrite Hlog in Hobf.
  pose proof (replay_connected log _ obf0 obf' Hc0 Hobf) as Hwf. rewrite puts_toOps in Hq.
  destruct (split_sent blobOf _ _ _ Hq) as [Hfr Hlen].
  destruct (writeFrames_grows obf0 (concat log)) as [d Hd]. rewrite Hwf in Hd. cbn [fst] in Hd.
  destruct (wrap_cut _ draw s obf0 cut Hs Hw) as (sr & Hsync & Hwrap). specialize (Hwrap d). rewrite <- Hd in Hwrap.
  unfold tliHandle. destruct (Nat.ltb_spec cut (length (stream_out obf0))) as [Hlt|Hge].
  - destruct Hwrap as [e ->]. exists 0%nat. rewrite take_0. split; [done|]. split; [lia|]. rewrite Hd, length_app. lia.
  - rewrite Hwrap. destruct (framesOf_cut obf0 sr (concat log) obf' d (cut - length (stream_out obf0)) Hsync) as (n & Hn & Hf & Hall);
      [|done|done|].
    { rewrite Hfr. apply blobs_u8, Forall_take, Hip. }
    exists n. rewrite Hf, Hfr, firstn_map, take_take. rewrite (Nat.min_l n) by lia. split; [by apply deliver_all, Forall_take|].
    split; [lia|]. intros Hcut. rewrite Hd, length_app in Hcut. rewrite Hall by lia. lia.
Qed.

(** ** Lemmas: the handshake *)

Lemma tiOpen_inv c x s draw now c1 obfC :
  tiOpen c x s draw now = (c1, Some obfC) →
  ∃ obf0, WrapWriter x draw s = Ok obf0 ∧ c1 = (registerFrame c now).1 ∧ WriteFrame obf0 (registerFrame c now).2 = (obfC, None).
Proof.
  unfold tiOpen. destruct (WrapWriter x draw s) as [obf0|]; [|done]. destruct (registerFrame c now) as [c' f].
  destruct (WriteFrame obf0 f) as [o [e|]] eqn:E; [done|]. intros [= <- <-]. by exists obf0.
Qed.

(** The server's handshake on what the client wrote: the registration it
    sent, and the assignment the server answers with. *)
Lemma handshake_registers c x s draw now c1 obfC srv more out draw' k dc snow draws srv1 w0 assign obfR :
  s_out s = [] → bytesOwner (ti_curID c) → tl_key srv = ti_key c →
  tiOpen c x s draw now = (c1, Some obfC) →
  tlHandshake srv x (stream_out obfC ++ more) out draw' k dc snow draws = Some (srv1, Some (w0, assign, obfR)) →
  let ts := nextTSAttempt (wrap 64 now) (ti_sendTS c) in
  ∃ reg assigned obfW,
    Register (tl_reg srv) (ti_curID c) k ts dc snow draws = Some (reg, (assigned, true)) ∧
    srv1 = MkTcpOut (tl_key srv) (tl_multiple srv) reg ∧
    assign = encodeControl MsgAssignID assigned 0 ts (ti_key c) ∧
    WrapWriter x draw' out = Ok obfW ∧ w0 = newDownConn obfW ∧
    ∃ sr, stream_sync obfC sr ∧ obfR = stream_feed sr more.
Proof.
  intros Hs Hid Hkey Hopen Hhs ts. apply tiOpen_inv in Hopen as (obf0 & Hw & -> & Hwf).
  cbn [registerFrame snd] in Hwf. fold ts in Hwf.
  destruct (wrap_sync x draw s obf0 Hw) as (d0 & sr & Hd0 & Hsync & Hwrap). rewrite Hs in Hd0. cbn [app] in Hd0.
  set (frame := encodeControl MsgRegister (ti_curID c) 0 ts (ti_key c)) in *.
  assert (Forall u8 frame) as Hu by (apply encodeControl_u8; [cbn; unfold MsgRegister; lia|done|cbn; lia]).
  destruct (stream_frame_law obf0 sr frame obfC Hsync Hu Hwf) as (d1 & r1 & Hd1 & Hs1 & Hread).
  unfold tlHandshake in Hhs. rewrite Hd1, Hd0, <- app_assoc, Hwrap, (Hread more MaxPacket ltac:(reflexivity)) in Hhs.
  unfold registerDown in Hhs. rewrite Hkey in Hhs. unfold frame in Hhs.
  rewrite decode_encode in Hhs by (done || apply ts_u64). change (isRegistration MsgRegister) with true in Hhs. cbn [negb] in Hhs.
  destruct (WrapWriter x draw' out) as [obfW|] eqn:Hout; [|done].
  destruct (Register (tl_reg srv) (ti_curID c) k ts dc snow draws) as [[reg [assigned [|]]]|] eqn:Hreg; [|done|done].
  simplify_eq. exists reg, assigned, obfW. rewrite Hkey. do 5 (split; [done|]). by exists r1.
Qed.

Lemma chooseID_bytes (r : Registry nat) claimed k draws id :
  registry_ok r → bytesOwner claimed → Forall bytesOwner draws → (∀ o l, g_byID r !! o = Some l → bytesOwner o) →
  chooseID r claimed k draws = Some id → bytesOwner id.
Proof.
  intros Hr Hc Hd Hown. unfold chooseID. destruct (IsZero claimed); [|by intros [= <-]].
  destruct (g_byKey r !! k) as [l|] eqn:Hk.
  - destruct (rg_key _ Hr _ _ Hk) as (p & -> & _ & Hp). intros [= <-]. by eapply Hown.
  - intros (_ & _ & Hin)%mintLocked_some. by eapply Forall_forall in Hd.
Qed.

(** The client's end of a session whose server wrote [assign] and then [ps],
    cut anywhere: either nothing was adopted and nothing routed, or the
    assignment was, and some first packets after it. *)
Lemma client_end c x assigned ts s obf0 draw ps obf' cut :
  ti_lastAssign c < ts → u64 ts → assigned ≠ zeroOwner → bytesOwner assigned → Forall ipPacket ps →
  s_out s = [] → WrapWriter x draw s = Ok obf0 →
  writeFrames obf0 (encodeControl MsgAssignID assigned 0 ts (ti_key c) :: map blobOf ps) = (obf', None) →
  ∃ n, (n ≤ length ps)%nat ∧
    (tiRead c x (ti_curID c) (take cut (stream_out obf')) = (c, endedSession (ti_curID c)) ∧
       (cut < length (stream_out obf'))%nat ∧ n = 0%nat ∨
     tiRead c x (ti_curID c) (take cut (stream_out obf')) =
       (MkTcpIn (ti_key c) (ti_sendTS c) assigned ts, MkSession (Some assigned) assigned (map delivery (take n ps)) false) ∧
       ((length (stream_out obf') ≤ cut)%nat → n = length ps)).
Proof.
  intros Hlt Hts Hz Hb Hip Hs Hw Hwf. set (frame := encodeControl _ _ _ _ _) in *.
  assert (Forall u8 frame) as Hu by (apply encodeControl_u8; [cbn; unfold MsgAssignID; lia|done|cbn; lia]).
  cbn [writeFrames] in Hwf. destruct (WriteFrame obf0 frame) as [obf1 [e|]] eqn:Hf1; [done|].
  destruct (wrap_cut x draw s obf0 cut Hs Hw) as (sr & Hsync & Hwrap).
  destruct (stream_frame_law obf0 sr frame obf1 Hsync Hu Hf1) as (d1 & r1 & Hd1 & Hs1 & Hread).
  destruct (writeFrames_grows obf1 (map blobOf ps)) as [d2 Hd2]. rewrite Hwf in Hd2. cbn [fst] in Hd2.
  specialize (Hwrap (d1 ++ d2)). rewrite app_assoc, <- Hd1, <- Hd2 in Hwrap. unfold tiRead.
  assert (length (stream_out obf') = (length (stream_out obf0) + length d1 + length d2)%nat) as Hlen.
  { by rewrite Hd2, Hd1, !length_app. }
  destruct (Nat.ltb_spec cut (length (stream_out obf0))) as [Hc|Hc].
  { destruct Hwrap as [e ->]. exists 0%nat. split; [lia|]. left. split; [done|]. split; [lia|done]. }
  rewrite Hwrap. set (k := (cut - length (stream_out obf0))%nat). destruct (decide (k < length d1)%nat) as [Hk|Hk].
  - rewrite take_app_le by lia. exists 0%nat. split; [lia|]. left.
    destruct (ReadFrame (stream_feed sr (take k d1)) MaxPacket) as [r2 [q|e]] eqn:E; [|split; [done|split; [lia|done]]].
    exfalso. apply (frame_cut obf0 sr frame obf1 k d1 q Hsync Hu Hf1 Hd1 Hk). by rewrite E.
  - rewrite take_app_ge, (Hread _ MaxPacket ltac:(reflexivity)) by lia.
    destruct (framesOf_cut obf1 r1 (map blobOf ps) obf' d2 (k - length d1)%nat Hs1 (blobs_u8 _ Hip) Hwf Hd2) as (n & Hn & Ha & Hall).
    rewrite length_map in Hn, Hall. exists n. split; [done|]. right. rewrite Ha, firstn_map. unfold runStreamReader.
    rewrite deliver_all by (by apply Forall_take). unfold adoptAssignment, frame. rewrite decode_encode by done.
    apply IsZero_false in Hz. rewrite Hz. change (MsgAssignID =? MsgAssignID) with true. cbn [andb negb].
    assert ((ti_lastAssign c <? ts) = true) as -> by lia. split; [done|]. intros Hcut. apply Hall. lia.
Qed.

(** Claim C6.  A downlink session end to end: a client dials a listener of several peers that
    shares its key and registers; the router sends packets to the connection
    from the moment it is registered, flush ticks in between, on both sides of
    the handler's assignment write.  The registry then holds the connection
    under the id it assigned.  Wherever the client's side of the stream breaks,
    the client either adopted nothing and routed nothing, or adopted exactly
    that id and routed exactly some first packets of those sent, intact and in
    order, and does not give up; when the whole stream arrives, these are all
    but the ones still in the batch. *)
Theorem down_session c x s draw now c1 obfC srv more out draw' k dc snow draws srv1 w0 assign obfR pre post w' cut :
  s_out s = [] → s_out out = [] → tl_key srv = ti_key c → ti_lastAssign c < nextTSAttempt (wrap 64 now) (ti_sendTS c) →
  registry_ok (tl_reg srv) → g_multiple (tl_reg srv) = true →
  bytesOwner (ti_curID c) → Forall bytesOwner draws → (∀ o l, g_byID (tl_reg srv) !! o = Some l → bytesOwner o) →
  tiOpen c x s draw now = (c1, Some obfC) →
  tlHandshake srv x (stream_out obfC ++ more) out draw' k dc snow draws = Some (srv1, Some (w0, assign, obfR)) →
  Forall ipPacket (omap id (pre ++ post)) → (WriteFrame (dc_obf (w_sink w0)) assign).2 = None →
  drun w0 (map qev (toOps pre) ++ DAssign assign :: map qev (toOps post)) = Some w' → dc_dead (w_sink w') = false →
  ∃ assigned n, assigned ≠ zeroOwner ∧ SinkFor (tl_reg srv1) assigned = (Some dc, true) ∧
    let sent := omap id (pre ++ post) in
    let conn := stream_out (dc_obf (w_sink w')) in
    let '(c2, ss) := tiRead c1 x (ti_curID c) (take cut conn) in
    ss_frames ss = map delivery (take n sent) ∧ ss_gaveUp ss = false ∧
    (ss_adopted ss = Some assigned ∧ ti_curID c2 = assigned ∧ ss_id ss = assigned ∨
     ss_adopted ss = None ∧ c2 = c1 ∧ n = 0%nat ∧ (cut < length conn)%nat) ∧
    (n + length (pending w') ≤ length sent)%nat ∧
    ((length conn ≤ cut)%nat → (n + length (pending w') = length sent)%nat).
Proof.
  intros Hs Hout Hkey Hlt Hreg Hm Hid Hdr Hown Hopen Hhs Hip Hok Hrun Hdead.
  destruct (handshake_registers _ _ _ _ _ _ _ _ _ _ _ _ _ _ _ _ _ _ _ Hs Hid Hkey Hopen Hhs)
    as (reg & assigned & obfW & HR & -> & -> & Hw & -> & _).
  set (ts := nextTSAttempt (wrap 64 now) (ti_sendTS c)) in *.
  destruct (Register_multiple _ _ _ _ _ _ _ _ _ true Hreg Hm HR) as (Hch & Hreg' & (Hm' & _) & Hz & Hat & _).
  destruct (down_stream obfW (toOps pre) _ (toOps post) w' Hrun Hdead Hok) as (framed & Hq & Hwf).
  assert (puts (toOps pre) ++ puts (toOps post) = map blobOf (omap id (pre ++ post))) as Hputs.
  { by rewrite !puts_toOps, omap_app, map_app. }
  rewrite Hputs in Hq. destruct (split_sent blobOf _ _ _ Hq) as [Hfr Hlen]. rewrite Hfr in Hwf.
  apply tiOpen_inv in Hopen as (_ & _ & -> & _). cbn [registerFrame fst]. fold ts.
  destruct (client_end (MkTcpIn (ti_key c) ts (ti_curID c) (ti_lastAssign c)) x assigned ts out obfW draw'
    (take (length framed) (omap id (pre ++ post))) (dc_obf (w_sink w')) cut) as (n & Hn & Hcase); [exact Hlt|apply ts_u64|exact Hz| |by apply Forall_take|exact Hout|exact Hw|exact Hwf|].
  { by apply (chooseID_bytes (tl_reg srv) (ti_curID c) k draws assigned). }
  exists assigned, n. split; [done|]. split.
  { unfold SinkFor. cbn [tl_reg]. rewrite Hm', Hm, Hat. by case_decide. }
  rewrite length_take in Hn. cbn [ti_curID ti_key ti_sendTS] in Hcase.
  destruct Hcase as [(-> & Hcut & ->)|[-> Hall]].
  - cbn. split; [by rewrite take_0|]. split; [done|]. split; [by right|]. split; lia.
  - cbn [ss_frames ss_gaveUp ss_adopted ss_id ti_curID]. rewrite take_take, Nat.min_l by lia.
    split; [done|]. split; [done|]. split; [by left|]. split; [lia|]. intros Hcut. specialize (Hall Hcut).
    rewrite length_take in Hall. lia.
Qed.

(** ** Lemmas: keepalives *)

(** The frames [keepalive] writes while no write fails. *)
Fixpoint kaFrames (c : tcpConnectIn) (id : Owner) (ticks : list Z) : list (list Z) :=
  match ticks with
  | [] => []
  | now :: ticks' => (keepaliveFrame c id now).2 :: kaFrames (keepaliveFrame c id now).1 id ticks'
  end.

Lemma keepalives_write c w id ticks w' :
  writeFrames w (kaFrames c id ticks) = (w', None) → (keepalives c w id ticks).2 = w'.
Proof.
  revert c w. induction ticks as [|now ticks IH]; intros c w; cbn [kaFrames writeFrames keepalives]; [by intros [= <-]|].
  destruct (keepaliveFrame c id now) as [c1 f]. cbn [fst snd]. destruct (WriteFrame w f) as [w1 [e|]]; [done|]. apply IH.
Qed.

Lemma kaFrames_u8 c id ticks : bytesOwner id → Forall (Forall u8) (kaFrames c id ticks).
Proof.
  intros Hid. revert c. induction ticks as [|now ticks IH]; intros c; cbn [kaFrames]; constructor; [|apply IH].
  apply encodeControl_u8; [cbn; unfold MsgKeepalive; lia|done|cbn; lia].
Qed.

Definition lifeFrames (es : list lifeEvent) : list (list Z) :=
  omap (λ e, match e with LFrame f _ _ => Some f | _ => None end) es.

(** The collector runs within [ttl] of the last frame, and no other handler
    speaks for the connection's id or from its address. *)
Fixpoint undisturbed (ttl : Z) (id : Owner) (k : string) (seen : Z) (es : list lifeEvent) : Prop :=
  match es with
  | [] => True
  | LFrame _ now _ :: es' => undisturbed ttl id k now es'
  | LGC now _ :: es' => now - ttl ≤ seen ∧ undisturbed ttl id k seen es'
  | LOther claimed key _ _ _ draws :: es' => claimed ≠ id ∧ key ≠ k ∧ undisturbed ttl id k seen es'
  end.

Record held (c : tcpListenOut) (id : Owner) (k : string) (dc : nat) (seen ts : Z) : Prop := {
  hd_reg : registry_ok (tl_reg c);
  hd_multi : g_multiple (tl_reg c) = true;
  hd_peer : peerAt (tl_reg c) id = Some (MkPeer id k (Some dc) seen ts);
}.

Lemma held_other c id k dc seen ts claimed key ts' dc' now draws reg out :
  held c id k dc seen ts → claimed ≠ id → key ≠ k →
  Register (tl_reg c) claimed key ts' dc' now draws = Some (reg, out) →
  held (MkTcpOut (tl_key c) (tl_multiple c) reg) id k dc seen ts ∧ g_ttl reg = g_ttl (tl_reg c).
Proof.
  intros [Hr Hm Hp] Hc Hk HR. destruct out as [i ok]. pose proof (Register_multiple _ _ _ _ _ _ _ _ _ ok Hr Hm HR) as H.
  destruct ok.
  - destruct H as (Hch & Hr' & (Hm' & Httl & _) & _ & Hat & _). split; [|done].
    assert (id ≠ i) as Hne.
    { intros <-. unfold chooseID in Hch. destruct (IsZero claimed); [|congruence].
      apply (peerAt_some _ _ _ Hr) in Hp as (l & Hl & Hh & _).
      destruct (g_byKey (tl_reg c) !! key) as [l'|] eqn:Hl'.
      - destruct (rg_key _ Hr _ _ Hl') as (p & Hp & Hkey & Hid). rewrite Hp in Hch. cbn in Hch.
        assert (l' = l) as -> by congruence. assert (p = MkPeer id k (Some dc) seen ts) as -> by congruence. by cbn in Hkey.
      - apply mintLocked_some in Hch as (_ & Hn & _). congruence. }
    split; cbn [tl_reg]; [done|congruence|]. rewrite Hat. by case_decide.
  - destruct H as (-> & _). by split.
Qed.

Lemma held_gc c id k dc seen ts now order reg n :
  held c id k dc seen ts → now - g_ttl (tl_reg c) ≤ seen → order ≡ₚ map_to_list (g_byID (tl_reg c)) →
  GC (tl_reg c) now order = (reg, n) →
  held (MkTcpOut (tl_key c) (tl_multiple c) reg) id k dc seen ts ∧ g_ttl reg = g_ttl (tl_reg c).
Proof.
  intros [Hr Hm Hp] Hnow Ho HG. pose proof (GC_ok _ now _ Hr Ho Hm) as H. rewrite HG in H.
  destruct H as (Hr' & ((Hm' & Httl & _) & Hh & _ & _ & Hi & _) & _). split; [|done].
  split; cbn [tl_reg]; [done|congruence|]. apply (peerAt_some _ _ _ Hr) in Hp as (l & Hl & Hlp & _).
  unfold peerAt. rewrite (proj2 (Hi id l)); [cbn; by rewrite Hh|]. split; [done|]. left.
  unfold stale. rewrite Hlp. cbn. by apply Z.ltb_ge.
Qed.

Lemma held_frame c client id k dc seen now tick draws c1 bad bad1 keep top :
  held c id k dc seen (ti_sendTS client) → id ≠ zeroOwner → tl_key c = ti_key client →
  0 ≤ tick ≤ top → 0 ≤ ti_sendTS client < 2 ^ 64 - 1 → top < 2 ^ 64 - 1 →
  steadyFrame c bad (keepaliveFrame client id tick).2 k dc now draws = Some (c1, bad1, keep) →
  held c1 id k dc now (ti_sendTS (keepaliveFrame client id tick).1) ∧ bad1 = 0 ∧
  tl_key c1 = tl_key c ∧ g_ttl (tl_reg c1) = g_ttl (tl_reg c).
Proof.
  intros [Hr Hm Hp] Hz Hk Ht Hts Htop Hst. cbn [keepaliveFrame fst snd ti_sendTS] in *.
  rewrite (wrap_small 64 tick) in * by lia.
  destruct (nextTSAttempt_range top tick (ti_sendTS client)) as (Hlt & _ & _); [lia..|].
  set (ts := nextTSAttempt tick (ti_sendTS client)) in *. unfold steadyFrame in Hst. rewrite Hk in Hst.
  assert (u64 ts) as Hu by (unfold ts, nextTSAttempt in *; destruct (_ <=? _); [apply (wrap_bound 64); lia|cbn; lia]).
  rewrite decode_encode in Hst by done. change (isRegistration MsgKeepalive) with true in Hst. cbn iota in Hst.
  destruct (Register (tl_reg c) id k ts dc now draws) as [[reg [i ok]]|] eqn:HR; [|done].
  pose proof (Register_multiple _ _ _ _ _ _ _ _ _ ok Hr Hm HR) as H. injection Hst as <- <- _. cbn [tl_key tl_reg].
  assert (chooseID (tl_reg c) id k draws = Some id) as Hch by (unfold chooseID; by rewrite (proj2 (IsZero_false id) Hz)).
  destruct ok.
  - destruct H as (Hch' & Hr' & (Hm' & Httl & _) & _ & Hat & _). assert (i = id) as -> by congruence.
    split; [|by split_and!; [|congruence|]]. split; cbn [tl_reg]; [done|congruence|]. rewrite Hat. by case_decide.
  - exfalso. destruct H as (_ & _ & i' & Hch' & H). assert (i' = id) as -> by congruence. rewrite Hp in H.
    destruct H as [[? _]|(p & Hpp & _ & Hle)]; [done|]. injection Hpp as <-. cbn in Hle. lia.
Qed.

Lemma life_held k dc s es s' :
  life k dc s es s' → ∀ client id ticks n seen top ttl,
  held s.1 id k dc seen (ti_sendTS client) → id ≠ zeroOwner → tl_key s.1 = ti_key client → g_ttl (tl_reg s.1) = ttl →
  Forall (λ t, 0 ≤ t ≤ top) ticks → 0 ≤ ti_sendTS client → Z.max top (ti_sendTS client) + zlen ticks < 2 ^ 64 - 1 →
  s.2 = 0 → lifeFrames es = take n (kaFrames client id ticks) → undisturbed ttl id k seen es →
  s'.2 = 0 ∧ ∃ seen' ts', held s'.1 id k dc seen' ts'.
Proof.
  induction 1 as [s|c bad frame now draws c1 bad1 es s Hst Hl IH|c bad now order reg m es s Ho HG Hl IH|c bad claimed key ts dc' now draws reg out es s HR Hl IH];
    intros client id ticks n seen top ttl Hh Hz Hk Httl Hticks Hpos Hmax Hbad Hfr Hund; cbn [fst snd] in *.
  - split; [done|]. by eexists _, _.
  - destruct n as [|n], ticks as [|tick ticks]; cbn in Hfr; try discriminate Hfr. injection Hfr as -> Hfr.
    apply Forall_cons in Hticks as [Ht Hticks]. unfold zlen in *. cbn [length] in Hmax. rewrite Nat2Z.inj_succ in Hmax.
    destruct (held_frame _ client id k dc seen now tick draws c1 bad bad1 true top Hh Hz Hk Ht) as (Hh1 & -> & Hk1 & Httl1); [lia|lia|exact Hst|].
    destruct (nextTSAttempt_range top tick (ti_sendTS client)) as (_ & _ & Hrange); [lia..|].
    apply (IH (keepaliveFrame client id tick).1 id ticks n now top ttl); try done; [|congruence| |].
    + cbn. by rewrite Hk1, Hk.
    + cbn. unfold nextTSAttempt. destruct (_ <=? _); apply (wrap_bound 64); lia.
    + cbn. rewrite (wrap_small 64 tick) by lia. lia.
  - cbn [undisturbed] in Hund. destruct Hund as [Hnow Hund]. subst ttl.
    destruct (held_gc _ _ _ _ _ _ _ _ _ _ Hh Hnow Ho HG) as [Hh1 Httl1]. by eapply (IH client id ticks n seen top).
  - cbn [undisturbed] in Hund. destruct Hund as (Hc & Hkey & Hund).
    destruct (held_other _ _ _ _ _ _ _ _ _ _ _ _ _ _ Hh Hc Hkey HR) as [Hh1 Httl1].
    eapply (IH client id ticks n seen top); try done. congruence.
Qed.

(** Claim C28.  A connected client stays registered: whatever part of its keepalives arrives, interleaved
    in any way with the collector and the registrations of other peers, as long
    as the collector never runs more than the ttl after the last one that
    arrived, the registry keeps the client's id bound to its connection, and
    none of its frames counts as bad. *)
Theorem keepalive_outlives_gc client w id ticks sr cut k dc srv es srv' bad' seen top delta :
  (writeFrames w (kaFrames client id ticks)).2 = None → stream_sync w sr →
  stream_out (keepalives client w id ticks).2 = stream_out w ++ delta →
  bytesOwner id → id ≠ zeroOwner → tl_key srv = ti_key client →
  Forall (λ t, 0 ≤ t ≤ top) ticks → 0 ≤ ti_sendTS client → Z.max top (ti_sendTS client) + zlen ticks < 2 ^ 64 - 1 →
  held srv id k dc seen (ti_sendTS client) → undisturbed (g_ttl (tl_reg srv)) id k seen es →
  lifeFrames es = framesOf (stream_feed sr (take cut delta)) → life k dc (srv, 0) es (srv', bad') →
  bad' = 0 ∧ SinkFor (tl_reg srv') id = (Some dc, true).
Proof.
  intros Hwf Hsync Hout Hid Hz Hk Hticks Hpos Hmax Hheld Hund Hfr Hlife.
  destruct (writeFrames w (kaFrames client id ticks)) as [w' e] eqn:Hw. cbn in Hwf. subst e.
  rewrite (keepalives_write _ _ _ _ _ Hw) in Hout.
  destruct (framesOf_cut w sr _ w' delta cut Hsync (kaFrames_u8 client id ticks Hid) Hw Hout) as (n & _ & Hf & _).
  rewrite Hf in Hfr.
  destruct (life_held _ _ _ _ _ Hlife client id ticks n seen top (g_ttl (tl_reg srv))) as [Hb (seen' & ts' & Hh)]; try done.
  split; [exact Hb|]. destruct Hh as [_ Hm Hp]. unfold SinkFor. cbn [fst] in *. by rewrite Hm, Hp.
Qed.

(** ** Lemmas: a download response that lives *)

Definition hqev (o : option (Envelope * list Z)) : hdevent :=
  match o with Some ep => HdSend ep.1 ep.2 | None => HdWriter EvTryFlush end.

Lemma hdFlushViews_dead c b : hd_live c = false → hd_live (hdFlushViews c b).1 = false.
Proof. intros Hl. unfold hdFlushViews. by rewrite Hl. Qed.

Lemma hdrun_qrun w sends w' :
  hdrun w (map hqev sends) = Some w' → hd_live (w_sink w') = true → qrun hdFlushViews w (toOps sends) = Some w'.
Proof.
  revert w. induction sends as [|o sends IH]; intros w Hr Hl; cbn [map hdrun toOps] in *; [by simplify_eq|].
  assert (∀ w0, hd_live (w_sink w0) = false → hdrun w0 (map hqev sends) = Some w' → False) as Hdead.
  { clear -Hl. induction sends as [|o sends IH]; intros w0 Hd Hr; cbn [map hdrun] in Hr; [simplify_eq; congruence|].
    apply bind_Some in Hr as (w1 & He & Hr). apply (IH w1); [|done]. destruct o as [[e p]|]; cbn [hqev hdexec] in He.
    - unfold hdSend in He. rewrite Hd in He. cbn in He. by simplify_eq.
    - destruct (wexec hdFlushViews w0 EvTryFlush) as [w2| |] eqn:Hw; [|discriminate He..]. injection He as <-.
      by refine (wexec_core hdFlushViews (λ c, hd_live c = false) w0 EvTryFlush w2 _ Hw Hd); apply hdFlushViews_dead. }
  apply bind_Some in Hr as (w1 & He & Hr). cbn [qrun]. specialize (IH w1 Hr Hl).
  destruct o as [[e p]|]; cbn [hqev hdexec qexec fst snd] in *.
  - unfold hdSend in He. destruct (hd_live (w_sink w)) eqn:Hlw; cbn [negb fst nextW] in He.
    + unfold blobOf. cbn [fst snd]. destruct (writePacket hdFlushViews w _); simplify_eq/=. exact IH.
    + simplify_eq. by destruct (Hdead w1 Hlw).
  - cbn [wexec] in He. destruct (tryFlush hdFlushViews w); simplify_eq/=. exact IH.
Qed.

Lemma replay_live log c obf :
  hd_obf c = Some obf → hd_live (replay hdFlushViews c log) = true →
  ∃ obf', hd_obf (replay hdFlushViews c log) = Some obf' ∧ writeFrames obf (concat log) = (obf', None).
Proof.
  revert c obf. induction log as [|b log IH]; intros c obf Ho Hl; [by exists obf|].
  change (replay hdFlushViews c (b :: log)) with (replay hdFlushViews (hdFlushViews c b).1 log) in *.
  assert (∀ c0, hd_live c0 = false → hd_live (replay hdFlushViews c0 log) = false) as Hdead.
  { clear. induction log as [|b' log IH]; intros c0 H; [done|]. apply (IH (hdFlushViews c0 b').1), hdFlushViews_dead, H. }
  assert (hd_live (hdFlushViews c b).1 = true) as Hl1.
  { destruct (hd_live (hdFlushViews c b).1) eqn:H; [done|]. by rewrite (Hdead _ H) in Hl. }
  cbn [concat]. rewrite writeFrames_app. unfold hdFlushViews in Hl1, Hl |- *. rewrite Ho in *.
  destruct (hd_live c) eqn:Hlc; cbn [negb] in *; [|cbn in Hl1; congruence].
  destruct (writeFrames obf b) as [obf1 [e|]]; [done|]. destruct (hd_flushOk c); [|done].
  by apply (IH (setLive c (Some obf1) true) obf1).
Qed.

(** The client's end of a response: whatever arrives of its body. *)
Lemma body_end x draw s obf0 ps obf' cut :
  Forall ipPacket ps → s_out s = [] → WrapWriter x draw s = Ok obf0 → writeFrames obf0 (map blobOf ps) = (obf', None) →
  ∃ n, (n ≤ length ps)%nat ∧ ((length (stream_out obf') ≤ cut)%nat → n = length ps) ∧
    match WrapReader x (take cut (stream_out obf')) with
    | Err _ => n = 0%nat
    | Ok r => runStreamReader (framesOf r) = (map delivery (take n ps), false)
    end.
Proof.
  intros Hip Hs Hw Hwf. destruct (wrap_cut x draw s obf0 cut Hs Hw) as (sr & Hsync & Hwrap).
  destruct (writeFrames_grows obf0 (map blobOf ps)) as [d Hd]. rewrite Hwf in Hd. cbn [fst] in Hd.
  specialize (Hwrap d). rewrite <- Hd in Hwrap.
  destruct (Nat.ltb_spec cut (length (stream_out obf0))) as [Hlt|Hge].
  - destruct Hwrap as [e ->]. exists 0%nat. split; [lia|]. split; [|done]. rewrite Hd, length_app. lia.
  - rewrite Hwrap. destruct (framesOf_cut obf0 sr _ obf' d (cut - length (stream_out obf0)) Hsync (blobs_u8 _ Hip) Hwf Hd)
      as (n & Hn & Hf & Hall). rewrite length_map in Hn, Hall. exists n. split; [done|]. split.
    + rewrite Hd, length_app. intros Hcut. apply Hall. lia.
    + rewrite Hf, firstn_map. by apply deliver_all, Forall_take.
Qed.

(** Claim C27.  A download session end to end: a client's request, served by a listener of several
    peers with the same key, is answered with an id the response proves; the
    client adopts it, and wherever the response body breaks, it routes exactly
    some first packets of those sent to that stream since it went live, intact
    and in order; when the whole body arrives, all but the ones still in the
    batch. *)
Theorem download_session c x c1 req now l dc draws later l' id hdrs draw out obf0 sends w' obf' cut :
  hiRequest c now = (c1, req) →
  Forall (λ kv : string * string, sameHeader kv.1 (hi_idHeader c) = false ∧ sameHeader kv.1 (sigHeaderName (hi_idHeader c)) = false) (hi_headers c) →
  bytesOwner (hi_curID c) → Forall bytesOwner draws →
  hi_key c = hl_key l → hi_idHeader c = hl_idHeader l → hl_multiple l = true →
  hi_lastAssign c < nextTSAttempt (wrap 64 later) (hl_assignTS l) →
  serveDown l (MkRequest "GET" (hl_path l) (header req (hi_idHeader c)) (header req (sigHeaderName (hi_idHeader c)))) dc draws later
    = Serving l' id hdrs →
  s_out out = [] → WrapWriter x draw out = Ok obf0 → Forall ipPacket (omap Datatypes.id sends) →
  hdrun newHttpDown (HdInstall obf0 :: HdGoLive :: map hqev sends) = Some w' →
  hd_live (w_sink w') = true → hd_obf (w_sink w') = Some obf' →
  id ≠ zeroOwner ∧ lookupStream l' id = Some dc ∧
  ∃ c2 n, hiRead c1 x (header hdrs (hl_idHeader l)) (header hdrs (sigHeaderName (hl_idHeader l))) (take cut (stream_out obf')) =
      (c2, MkSession (Some id) id (map delivery (take n (omap Datatypes.id sends))) false) ∧ hi_curID c2 = id ∧
    (n + length (pending w') ≤ length (omap Datatypes.id sends))%nat ∧
    ((length (stream_out obf') ≤ cut)%nat → (n + length (pending w') = length (omap Datatypes.id sends))%nat).
Proof.
  intros Hreq Hh Hid Hdr Hk Hih Hm Hlt Hserve Hout Hw Hip Hrun Hlive Hobf.
  pose proof (http_handshake c c1 req now l dc draws later Hreq Hh Hid Hdr Hk Hih Hm) as Hhs. cbv zeta in Hhs.
  rewrite Hserve in Hhs. destruct (reserve _ _ _ _ _) as [|l1 i| |]; [done| |done..].
  destruct Hhs as (<- & Hz & Hlook & Hadopt). split; [done|]. split; [done|].
  destruct (Hadopt Hlt) as (c2 & Ha & Hcur & _).
  cbn [hdrun hdexec newHttpDown NewWriter w_sink hd_phase Nat.eqb mbind option_bind onHd] in Hrun.
  assert (0 < streamWriteBatch)%nat as Hk0 by (unfold streamWriteBatch; lia).
  apply hdrun_qrun in Hrun; [|done].
  destruct (qrun_sink hdFlushViews (hdGoLive (hdInstall (MkHdCore None false 0 true) obf0)) tcpWriteBufSize streamWriteBatch _ w' Hk0 Hrun)
    as (log & Hlog & Hq).
  rewrite puts_toOps in Hq. destruct (split_sent blobOf _ _ _ Hq) as [Hfr Hlen]. rewrite Hlog in Hlive, Hobf.
  destruct (replay_live log (hdGoLive (hdInstall (MkHdCore None false 0 true) obf0)) obf0 eq_refl Hlive) as (o & Ho & Hwf). assert (o = obf') as -> by congruence. rewrite Hfr in Hwf.
  assert (Forall ipPacket (take (length (concat log)) (omap Datatypes.id sends))) as Hip' by (by apply Forall_take).
  destruct (body_end x draw out obf0 _ obf' cut Hip' Hout Hw Hwf) as (n & Hn & Hall & Hread).
  rewrite length_take in Hn. exists c2, n.
  unfold hiRead. rewrite Ha. cbn [default]. rewrite take_take, Nat.min_l in Hread by lia.
  split; [|split; [done|split; [lia|]]].
  - destruct (WrapReader x _) as [r|e]; [by rewrite Hread|]. subst n. by rewrite take_0.
  - intros Hcut. specialize (Hall Hcut). rewrite length_take in Hall. lia.
Qed.

(** ** Lemmas: one session after the other *)

Lemma tiRead_monotone c x id conn :
  let '(c1, ss) := tiRead c x id conn in
  ti_lastAssign c ≤ ti_lastAssign c1 ∧ ti_key c1 = ti_key c ∧ ti_sendTS c1 = ti_sendTS c.
Proof.
  unfold tiRead. destruct (WrapReader x conn) as [r|]; [|done]. destruct (ReadFrame r MaxPacket) as [r1 [f|]]; [|done].
  pose proof (adopt_monotone c f) as [H1 H2]. assert (ti_sendTS (adoptAssignment c f).1 = ti_sendTS c) as H3.
  { unfold adoptAssignment. destruct (decodeControl f (ti_key c)) as [[[[? ?] ?] ?]|]; [|done]. destruct (_ && _); [|done].
    by destruct (_ <? _). }
  destruct (adoptAssignment c f) as [c1 o]. by destruct (runStreamReader _).
Qed.

Lemma tiOpen_keeps c x conn draw now :
  let '(c1, _) := tiOpen c x conn draw now in ti_lastAssign c1 = ti_lastAssign c ∧ ti_key c1 = ti_key c.
Proof.
  unfold tiOpen. destruct (WrapWriter x draw conn) as [w|]; [|done]. unfold registerFrame.
  by destruct (WriteFrame w _) as [? [?|]].
Qed.

Lemma tiLoop_monotone c x attempts :
  ti_lastAssign c ≤ ti_lastAssign (tiLoop c x attempts).1 ∧ ti_key (tiLoop c x attempts).1 = ti_key c.
Proof.
  revert c. induction attempts as [|a l IH]; intros c; cbn [tiLoop]; [done|].
  assert (ti_lastAssign c ≤ ti_lastAssign (tiStream c x a).1 ∧ ti_key (tiStream c x a).1 = ti_key c) as [H1 H2].
  { unfold tiStream. destruct (at_dial a) as [s|]; [|done]. pose proof (tiOpen_keeps c x s (at_draw a) (at_now a)) as Ho.
    destruct (tiOpen c x s (at_draw a) (at_now a)) as [c1 [w|]]; destruct Ho as [Ho1 Ho2]; [|cbn; lia || (split; [lia|done])].
    pose proof (tiRead_monotone c1 x (ti_curID c) (at_received a)) as Hr. destruct (tiRead _ _ _ _) as [c2 ss].
    destruct Hr as (Hr1 & Hr2 & _). cbn. split; [lia|congruence]. }
  destruct (tiStream c x a) as [c1 ss]. cbn in *. destruct (IH c1) as [H3 H4]. destruct (tiLoop c1 x l) as [c2 sss].
  cbn in *. split; [lia|congruence].
Qed.

Lemma adopted_once c f c1 o c2 :
  adoptAssignment c f = (c1, Some o) → ti_lastAssign c1 ≤ ti_lastAssign c2 → ti_key c2 = ti_key c1 →
  adoptAssignment c2 f = (c2, None).
Proof.
  intros Ha Hm Hk. unfold adoptAssignment in *. destruct (decodeControl f (ti_key c)) as [[[[typ aid] fl] ts]|] eqn:Hd; [|done].
  destruct (_ && _) eqn:Hg; [|done]. destruct (_ <? ts); [|done]. injection Ha as <- <-. cbn [ti_lastAssign ti_key] in *.
  rewrite Hk, Hd, Hg. assert ((ti_lastAssign c2 <? ts) = false) as -> by lia. done.
Qed.

Lemma WrapReader_more x b r more : WrapReader x b = Ok r → WrapReader x (b ++ more) = Ok (stream_feed r more).
Proof.
  destruct x as [|key head]; cbn; [by intros [= <-]|].
  destruct (readFull chachaNonceLen b) as [[nonce b']|e] eqn:E; [|done]. rewrite (readFull_more _ _ _ _ more E).
  by intros [= <-].
Qed.

(** The first frame of a stream, and that it is the same however the stream
    goes on. *)
Definition firstFrame (x : streamCipher) (conn : list Z) : option (list Z) :=
  match WrapReader x conn with
  | Ok r => match (ReadFrame r MaxPacket).2 with Ok f => Some f | Err _ => None end
  | Err _ => None
  end.

Lemma firstFrame_more x conn more f : firstFrame x conn = Some f → firstFrame x (conn ++ more) = Some f.
Proof.
  unfold firstFrame. destruct (WrapReader x conn) as [r|] eqn:Hw; [|done]. rewrite (WrapReader_more _ _ _ more Hw).
  destruct (ReadFrame r MaxPacket) as [r1 [q|]] eqn:Hr; [|done]. apply (ReadFrame_local _ _ _ _ more) in Hr as [-> _]. done.
Qed.

Lemma tiRead_adopted c x id conn :
  ss_adopted (tiRead c x id conn).2 = match firstFrame x conn with Some f => (adoptAssignment c f).2 | None => None end.
Proof.
  unfold tiRead, firstFrame. destruct (WrapReader x conn) as [r|]; [|done].
  destruct (ReadFrame r MaxPacket) as [r1 [f|]]; [|done]. cbn [snd]. destruct (adoptAssignment c f) as [c1 o].
  by destruct (runStreamReader _).
Qed.

Lemma tiRead_client c x id conn f : firstFrame x conn = Some f → (tiRead c x id conn).1 = (adoptAssignment c f).1.
Proof.
  unfold tiRead, firstFrame. destruct (WrapReader x conn) as [r|]; [|done].
  destruct (ReadFrame r MaxPacket) as [r1 [q|]]; [|done]. intros [= <-]. destruct (adoptAssignment c q) as [c1 o].
  by destruct (runStreamReader _).
Qed.

(** A recorded session cannot be replayed to a client: the bytes
    of a session in which it adopted an id never make it adopt one again,
    whatever sessions came in between and however the replay is cut short or
    continued. *)
Theorem session_not_replayed c x id conn o attempts id' conn' more :
  ss_adopted (tiRead c x id conn).2 = Some o → conn' = conn ++ more ∨ conn = conn' ++ more →
  ss_adopted (tiRead (tiLoop (tiRead c x id conn).1 x attempts).1 x id' conn').2 = None.
Proof.
  intros Ho Hconn. rewrite tiRead_adopted in *. destruct (firstFrame x conn) as [f|] eqn:Hf; [|done].
  rewrite (tiRead_client _ _ _ _ _ Hf). set (c1 := (adoptAssignment c f).1).
  destruct (tiLoop_monotone c1 x attempts) as [Hm Hk].
  destruct (firstFrame x conn') as [f'|] eqn:Hf'; [|done].
  assert (f' = f) as ->.
  { destruct Hconn as [-> | ->].
    - apply (firstFrame_more _ _ more) in Hf. congruence.
    - apply (firstFrame_more _ _ more) in Hf'. congruence. }
  rewrite (adopted_once c f c1 o); [done| |done|done]. unfold c1. by destruct (adoptAssignment c f); cbn in *; subst.
Qed.

(** ** Concrete sessions *)

Module StreamDemo.
Definition pktA : Envelope * list Z := (MkEnvelope ownA false, TcpDemo.pkt).
Definition pktB : Envelope * list Z := (MkEnvelope ownB true, TcpDemo.pkt).
Definition x : streamCipher := chacha4Stream TcpDemo.key 16.
Definition sock : Sink := MkSink [] None.
Definition dialing : outCore := MkOutCore x None true false 0 1 0 true.
Definition sends : list (option (Envelope * list Z)) := [Some pktA; None; Some pktB].

(** A client that was never assigned an id, and a listener without peers. *)
Definition client : tcpConnectIn := MkTcpIn TcpDemo.key 0 zeroOwner 0.
Definition server : tcpListenOut := MkTcpOut TcpDemo.key true (Peers.New true 50 4).
Definition pre : list (option (Envelope * list Z)) := [Some pktA].
Definition post : list (option (Envelope * list Z)) := [None; Some pktB].

(** A client registered under [ownA] with the stamp 60, its listener's registry
    and two keepalives. *)
Definition registered : tcpConnectIn := MkTcpIn TcpDemo.key 60 ownA 50.
Definition reg1 : Registry nat :=
  default (Peers.New true 50 4) (fst <$> Register (Peers.New true 50 4) ownA "K" 60 7%nat 100 []).
Definition ka (n : nat) : list Z := nth n (kaFrames registered ownA [70; 65]) [].
Definition lifetime : list lifeEvent :=
  [LGC 120 (map_to_list (g_byID reg1)); LFrame (ka 0) 140 []; LOther ownB "L" 5 8 150 []; LFrame (ka 1) 160 []].
End StreamDemo.

Lemma demo_ip : Forall ipPacket [StreamDemo.pktA; StreamDemo.pktB].
Proof. repeat constructor; cbn; lia. Qed.

Lemma up_session_witness :
  ∃ w' obf' n,
    qrun flush (NewWriter (dialDone StreamDemo.dialing (Some StreamDemo.sock) (1, 2)) 64 4) (toOps StreamDemo.sends) = Some w' ∧
    oc_obf (w_sink w') = Some obf' ∧
    tliHandle StreamDemo.x (take 70 (stream_out obf')) = (map delivery (take n [StreamDemo.pktA; StreamDemo.pktB]), false).
Proof.
  eassert (qrun flush (NewWriter (dialDone StreamDemo.dialing (Some StreamDemo.sock) (1, 2)) 64 4) (toOps StreamDemo.sends) = Some _)
    as Hq by (vm_compute; reflexivity).
  match type of Hq with _ = Some ?w => set (w' := w) in Hq end.
  destruct (oc_obf (w_sink w')) as [obf'|] eqn:Ho; [|discriminate Ho].
  destruct (WrapWriter StreamDemo.x (1, 2) StreamDemo.sock) as [obf0|e] eqn:Hw; [|discriminate Hw].
  destruct (up_session StreamDemo.dialing StreamDemo.sock (1, 2) obf0 64 4 StreamDemo.sends w' obf' 70) as (n & Hn & _).
  - lia.
  - reflexivity.
  - reflexivity.
  - exact Hw.
  - exact demo_ip.
  - exact Hq.
  - exact Ho.
  - exists w', obf', n. split; [exact Hq|]. split; [exact Ho|exact Hn].
Defined.

Lemma down_session_witness :
  ∃ c1 obfC srv1 w0 assign obfR w' assigned n,
    tiOpen StreamDemo.client StreamDemo.x StreamDemo.sock (1, 2) 50 = (c1, Some obfC) ∧ tlHandshake StreamDemo.server StreamDemo.x (stream_out obfC ++ []) StreamDemo.sock (3, 4) "K" 7 100 [ownA] = Some (srv1, Some (w0, assign, obfR)) ∧
    drun w0 (map qev (toOps StreamDemo.pre) ++ DAssign assign :: map qev (toOps StreamDemo.post)) = Some w' ∧
    SinkFor (tl_reg srv1) assigned = (Some 7%nat, true) ∧
    ss_frames (tiRead c1 StreamDemo.x zeroOwner (take 80 (stream_out (dc_obf (w_sink w'))))).2 =
      map delivery (take n [StreamDemo.pktA; StreamDemo.pktB]).
Proof.
  assert (match tiOpen StreamDemo.client StreamDemo.x StreamDemo.sock (1, 2) 50 with
    | (_, Some obfC) =>
        match tlHandshake StreamDemo.server StreamDemo.x (stream_out obfC ++ []) StreamDemo.sock (3, 4) "K" 7 100 [ownA] with
        | Some (_, Some (w0, assign, _)) =>
            match (WriteFrame (dc_obf (w_sink w0)) assign).2,
                  drun w0 (map qev (toOps StreamDemo.pre) ++ DAssign assign :: map qev (toOps StreamDemo.post)) with
            | None, Some w' => negb (dc_dead (w_sink w')) && (length (pending w') =? 1)%nat
            | _, _ => false
            end
        | _ => false
        end
    | _ => false
    end = true) as Hl by (vm_compute; reflexivity).
  destruct (tiOpen StreamDemo.client StreamDemo.x StreamDemo.sock (1, 2) 50) as [c1 [obfC|]] eqn:Ho; [|discriminate Hl].
  destruct (tlHandshake StreamDemo.server StreamDemo.x (stream_out obfC ++ []) StreamDemo.sock (3, 4) "K" 7 100 [ownA]) as [[srv1 [[[w0 assign] obfR]|]]|] eqn:Hs; [|discriminate Hl..].
  destruct (WriteFrame (dc_obf (w_sink w0)) assign).2 eqn:Hw; [discriminate Hl|].
  destruct (drun w0 (map qev (toOps StreamDemo.pre) ++ DAssign assign :: map qev (toOps StreamDemo.post))) as [w'|] eqn:Hr; [|discriminate Hl].
  apply andb_prop in Hl as [Hd _]. apply negb_true_iff in Hd.
  destruct (down_session StreamDemo.client StreamDemo.x StreamDemo.sock (1, 2) 50 c1 obfC StreamDemo.server [] StreamDemo.sock (3, 4)
    "K" 7 100 [ownA] srv1 w0 assign obfR StreamDemo.pre StreamDemo.post w' 80) as (assigned & n & _ & Hsink & Hread).
  - reflexivity.
  - reflexivity.
  - reflexivity.
  - vm_compute. reflexivity.
  - apply New_ok.
  - reflexivity.
  - change (Forall u8 [0; 0; 0; 0]). repeat (constructor; [lia|]). constructor.
  - repeat constructor; cbn; lia.
  - intros o l H. change ((∅ : gmap Owner nat) !! o = Some l) in H. rewrite lookup_empty in H. discriminate H.
  - exact Ho.
  - exact Hs.
  - exact demo_ip.
  - exact Hw.
  - exact Hr.
  - exact Hd.
  - exists c1, obfC, srv1, w0, assign, obfR, w', assigned, n.
    cbv zeta in Hread. change (ti_curID StreamDemo.client) with zeroOwner in Hread.
    destruct (tiRead c1 StreamDemo.x zeroOwner _) as [c2 ss]. destruct Hread as [Hf _].
    split; [reflexivity|]. split; [exact Hs|]. split; [exact Hr|]. split; [exact Hsink|].
    clear -Hf. exact Hf.
Defined.

Lemma download_session_witness :
  ∃ c1 req l' id hdrs (w' : httpDownConn) obf' c2 n,
    hiRequest (HttpDemo.client zeroOwner) 50 = (c1, req) ∧
    serveDown HttpDemo.listener (MkRequest "GET" "/download" (header req "X-Upload-Tag") (header req (sigHeaderName "X-Upload-Tag"))) 7 [ownA] 60
      = Serving l' id hdrs ∧
    hd_obf (w_sink w') = Some obf' ∧
    hiRead c1 StreamDemo.x (header hdrs "X-Upload-Tag") (header hdrs (sigHeaderName "X-Upload-Tag")) (take 70 (stream_out obf')) =
      (c2, MkSession (Some id) id (map delivery (take n [StreamDemo.pktA; StreamDemo.pktB])) false) ∧ hi_curID c2 = id.
Proof.
  destruct (hiRequest (HttpDemo.client zeroOwner) 50) as [c1 req] eqn:Hreq.
  assert (match serveDown HttpDemo.listener (MkRequest "GET" "/download" (header (hiRequest (HttpDemo.client zeroOwner) 50).2 "X-Upload-Tag")
            (header (hiRequest (HttpDemo.client zeroOwner) 50).2 (sigHeaderName "X-Upload-Tag"))) 7 [ownA] 60 with
          | Serving _ _ _ => true | _ => false end = true) as Hs by (vm_compute; reflexivity).
  rewrite Hreq in Hs. cbn [snd] in Hs.
  destruct (serveDown HttpDemo.listener _ 7 [ownA] 60) as [|l' id hdrs| |] eqn:Hserve; [discriminate Hs| |discriminate Hs..].
  destruct (WrapWriter StreamDemo.x (3, 4) StreamDemo.sock) as [obf0|e] eqn:Hw; [|discriminate Hw].
  assert (match WrapWriter StreamDemo.x (3, 4) StreamDemo.sock with
    | Ok obf0 =>
        match hdrun newHttpDown (HdInstall obf0 :: HdGoLive :: map hqev StreamDemo.sends) with
        | Some w' => hd_live (w_sink w') && bool_decide (is_Some (hd_obf (w_sink w')))
        | None => false
        end
    | Err _ => false
    end = true) as Hl by (vm_compute; reflexivity).
  rewrite Hw in Hl. destruct (hdrun newHttpDown _) as [w'|] eqn:Hr; [|discriminate Hl].
  apply andb_prop in Hl as [Hl Ho]. destruct (hd_obf (w_sink w')) as [obf'|] eqn:Hobf; [|discriminate Ho].
  destruct (download_session (HttpDemo.client zeroOwner) StreamDemo.x c1 req 50 HttpDemo.listener 7 [ownA] 60 l' id hdrs (3, 4) StreamDemo.sock
    obf0 StreamDemo.sends w' obf' 70) as (_ & _ & c2 & n & Hread & Hc2 & _).
  - exact Hreq.
  - constructor; [split; vm_compute; reflexivity|constructor].
  - change (Forall u8 [0; 0; 0; 0]). repeat (constructor; [lia|]). constructor.
  - repeat constructor; cbn; lia.
  - reflexivity.
  - reflexivity.
  - reflexivity.
  - vm_compute. reflexivity.
  - exact Hserve.
  - reflexivity.
  - exact Hw.
  - exact demo_ip.
  - exact Hr.
  - exact Hl.
  - exact Hobf.
  - exists c1, req, l', id, hdrs, w', obf', c2, n.
    split; [reflexivity|]. split; [exact Hserve|]. split; [exact Hobf|]. split; [exact Hread|exact Hc2].
Defined.

Lemma keepalive_outlives_gc_witness :
  ∃ srv' bad',
    life "K" 7 (MkTcpOut TcpDemo.key true StreamDemo.reg1, 0) StreamDemo.lifetime (srv', bad') ∧
    bad' = 0 ∧ SinkFor (tl_reg srv') ownA = (Some 7%nat, true).
Proof.
  set (srv := MkTcpOut TcpDemo.key true StreamDemo.reg1).
  eassert (GC StreamDemo.reg1 120 (map_to_list (g_byID StreamDemo.reg1)) = _) as H1 by (vm_compute; reflexivity).
  eassert (steadyFrame srv 0 (StreamDemo.ka 0) "K" 7 140 [] = Some _) as H2 by (vm_compute; reflexivity).
  match type of H2 with _ = Some (?c, _, _) => set (srv2 := c) in H2 end.
  eassert (Register (tl_reg srv2) ownB "L" 5 8%nat 150 [] = Some _) as H3 by (vm_compute; reflexivity).
  match type of H3 with _ = Some (?r, _) => set (reg3 := r) in H3 end.
  eassert (steadyFrame (MkTcpOut TcpDemo.key true reg3) 0 (StreamDemo.ka 1) "K" 7 160 [] = Some _) as H4 by (vm_compute; reflexivity).
  match type of H4 with _ = Some (?c, _, _) => set (srv4 := c) in H4 end.
  assert (life "K" 7 (srv, 0) StreamDemo.lifetime (srv4, 0)) as Hlife.
  { eapply life_gc; [reflexivity|exact H1|]. eapply life_frame; [exact H2|]. eapply life_other; [exact H3|].
    eapply life_frame; [exact H4|]. apply life_nil. }
  exists srv4, 0. split; [exact Hlife|].
  eapply (keepalive_outlives_gc StreamDemo.registered TcpDemo.obf0 ownA [70; 65] TcpDemo.r0 1000 "K" 7 srv StreamDemo.lifetime srv4 0 100 1000).
  - vm_compute. reflexivity.
  - exact TcpDemo_sync.
  - vm_compute. reflexivity.
  - change (Forall u8 [1; 0; 0; 0]). repeat (constructor; [lia|]). constructor.
  - discriminate.
  - reflexivity.
  - repeat constructor; lia.
  - vm_compute. discriminate.
  - vm_compute. reflexivity.
  - split; [|reflexivity|vm_compute; reflexivity].
    destruct (prun_ok (Peers.New true 50 4) [EvRegister ownA "K" 60 7%nat 100 []] StreamDemo.reg1) as [Hok _];
      [eapply prun_cons; [eapply step_register; vm_compute; reflexivity|apply prun_nil]|apply New_ok|exact Hok].
  - change (120 - 50 ≤ 100 ∧ ownB ≠ ownA ∧ "L"%string ≠ "K"%string ∧ True). split; [lia|]. split; [discriminate|]. split; [discriminate|exact I].
  - vm_compute. reflexivity.
  - exact Hlife.
Defined.

Lemma session_not_replayed_witness :
  let conn := be_bytes 2 22 ++ encodeControl MsgAssignID ownA 0 90 TcpDemo.key in
  ss_adopted (tiRead StreamDemo.client noneStream zeroOwner conn).2 = Some ownA ∧
  ss_adopted (tiRead (tiLoop (tiRead StreamDemo.client noneStream zeroOwner conn).1 noneStream
    [MkAttempt (Some StreamDemo.sock) (0, 0) 70 []; MkAttempt None (0, 0) 80 []]).1 noneStream ownA (conn ++ [0; 0])).2 = None.
Proof.
  intros conn. assert (ss_adopted (tiRead StreamDemo.client noneStream zeroOwner conn).2 = Some ownA) as Ha by (vm_compute; reflexivity).
  split; [exact Ha|].
  apply (session_not_replayed StreamDemo.client noneStream zeroOwner conn ownA _ ownA (conn ++ [0; 0]) [0; 0] Ha).
  left. reflexivity.
Defined.
