(* ===== verification/UdpSession.v ===== *)
(** * internal/conn/udp.go: the loops of the UDP carrier, and a client and its
    listener over a network

    Udp.v models what the UDP connections do with one datagram or one send;
    this file models the loops around it (the maintenance schedule, the read
    loops over coalesced reads) and a registering client with its listener on
    a network that loses, repeats, delays and reorders their datagrams, where others
    send too ([allowed] says what) and the listener's collector runs. *)

From Stdlib Require Import Sorting.Sorted.
From S2P Require Import Prelude GoBytes Sha256 Wire ChaCha Cipher Control Peers Udp.
Local Open Scope Z_scope.

(** ** maintain *)

(** The delays of the re-registers, in nanoseconds. *)
Definition warmup : list Z := [500000000; 1000000000; 2000000000; 4000000000].

(** The sends of the warm-up started at [t] and cancelled at [until]: when and
    what; the time at its end unless it was cancelled. *)
Fixpoint warmSends (t until : Z) (delays : list Z) : list (Z * Z) * option Z :=
  match delays with
  | [] => ([], Some t)
  | d :: delays' =>
      if until <=? t + d then ([], None)
      else let '(out, fin) := warmSends (t + d) until delays' in ((t + d, MsgRegister) :: out, fin)
  end.

(** The ticker's sends; the fuel bounds their number. *)
Fixpoint tickSends (fuel : nat) (t refresh until : Z) : list (Z * Z) :=
  match fuel with
  | O => []
  | S fuel' => if until <=? t + refresh then [] else (t + refresh, MsgKeepalive) :: tickSends fuel' (t + refresh) refresh until
  end.

Definition maintain (t0 refresh until : Z) : list (Z * Z) :=
  let '(out, fin) := warmSends t0 until warmup in
  match fin with
  | None => out
  | Some t => out ++ tickSends (S (Z.to_nat ((until - t) / refresh))) t refresh until
  end.

(** ** The read loops *)

(** A read: an error, or a buffer, its byte count and the segment size. *)
Definition readRes : Type := option (list Z * Z * Z).

(** [udpListenIn.Start]: the frames of each read, until the first error. *)
Fixpoint listenReads (reads : list readRes) : list (list Z) :=
  match reads with
  | Some (buf, n, segSize) :: reads' => splitGRO buf n segSize ++ listenReads reads'
  | None :: _ | [] => []
  end.

(** [readLoop]: errors are retried, with the connection of that moment; the
    loop ends when there is none. *)
Fixpoint connectReads (reads : list (option nat * readRes)) : list (list Z) :=
  match reads with
  | (None, _) :: _ | [] => []
  | (Some _, None) :: reads' => connectReads reads'
  | (Some _, Some (buf, n, segSize)) :: reads' => splitGRO buf n segSize ++ connectReads reads'
  end.

Section net.
Context {P : Type} `{DatagramLaws P}.

Definition listenIn (cipher : P) (reads : list readRes) : list received := map (deliver cipher) (listenReads reads).

(** The consumer of [readLoop]: the client afterwards and what it did. *)
Fixpoint handleAll (c : udpConnectIn (P:=P)) (dgs : list (list Z)) : udpConnectIn (P:=P) * list received :=
  match dgs with
  | [] => (c, [])
  | dg :: dgs' => let '(c, r) := handleDatagram c dg in let '(c, rs) := handleAll c dgs' in (c, r :: rs)
  end.

(** ** A client and its listener *)

(** Everything ever put on the network, in each direction. *)
Record net := MkNet {
  nt_c : udpConnectIn (P:=P);
  nt_s : udpListenOut (P:=P);
  nt_up : list (list Z);
  nt_down : list (list Z);
  nt_got : list received;
}.

(** What reaches the client at [addr]. *)
Definition toClient (addr : string) (out : list netOut) : list (list Z) :=
  omap (λ o, match o with WriteTo a dg => if String.eqb a addr then Some dg else None | _ => None end) out.
Definition toServer (out : list netOut) : list (list Z) :=
  omap (λ o, match o with WriteSock _ dg => Some dg | _ => None end) out.

Inductive nevent :=
| NControl (typ now : Z)                          (** maintain, Start or Reconnect sends *)
| NUp (i : nat) (now : Z) (draws : list Owner)    (** the network delivers a datagram of the client, again or late *)
| NDown (i : nat)                                 (** the same towards the client *)
| NSend (buf : list Z) (draw : Z * Z) (e : Envelope) (payload : list Z)   (** the router sends *)
| NForeignUp (dg : list Z) (from : string) (now : Z) (draws : list Owner)
| NForeignDown (dg : list Z)
| NGC (now : Z) (order : list (Owner * nat)).      (** the listener's collector, ranging in some order *)

Definition nexec (addr : string) (s : net) (e : nevent) : option net :=
  match e with
  | NControl typ now =>
      let '(c, out, _) := sendControl (nt_c s) typ now in
      Some (MkNet c (nt_s s) (nt_up s ++ toServer out) (nt_down s) (nt_got s))
  | NUp i now draws =>
      match nt_up s !! i with
      | None => None
      | Some dg => '(l, out) ← loControl (nt_s s) dg addr now draws;
          Some (MkNet (nt_c s) l (nt_up s) (nt_down s ++ toClient addr out) (nt_got s))
      end
  | NDown i =>
      match nt_down s !! i with
      | None => None
      | Some dg => let '(c, r) := handleDatagram (nt_c s) dg in
          Some (MkNet c (nt_s s) (nt_up s) (nt_down s) (nt_got s ++ [r]))
      end
  | NSend buf draw e payload =>
      Some (MkNet (nt_c s) (nt_s s) (nt_up s) (nt_down s ++ toClient addr (loSend (nt_s s) buf draw e payload).1) (nt_got s))
  | NForeignUp dg from now draws =>
      '(l, out) ← loControl (nt_s s) dg from now draws;
      Some (MkNet (nt_c s) l (nt_up s) (nt_down s ++ toClient addr out) (nt_got s))
  | NForeignDown dg =>
      let '(c, r) := handleDatagram (nt_c s) dg in Some (MkNet c (nt_s s) (nt_up s) (nt_down s) (nt_got s ++ [r]))
  | NGC now order =>
      if decide (order ≡ₚ map_to_list (g_byID (lo_reg (nt_s s))))
      then Some (MkNet (nt_c s) (loGC (nt_s s) now order).1 (nt_up s) (nt_down s) (nt_got s)) else None
  end.

Fixpoint nrun (addr : string) (s : net) (es : list nevent) : option net :=
  match es with [] => Some s | e :: es' => s' ← nexec addr s e; nrun addr s' es' end.

(** What the environment may do in a state.  The client sends its two kinds of
    control and clocks stay below [top].  Other addresses send what they like: noise,
    other clients' controls under the same key, even the client's captured
    registrations, as long as these do not claim the id of the peer bound to the
    client's address.  Nobody hands the client an assignment that was not sent to it.
    The collector runs while that peer is not idle for longer than the ttl. *)
Definition allowed (addr : string) (top : Z) (key : list Z) (s : net) (e : nevent) : bool :=
  let reg := lo_reg (nt_s s) in
  match e with
  | NControl typ now => ((typ =? MsgRegister) || (typ =? MsgKeepalive)) && (0 <=? now) && (now <=? top)
  | NForeignUp dg from _ _ =>
      match decodeControl dg key with
      | None => true
      | Some (_, id, _, _) => negb (String.eqb from addr) &&
          match peerAt reg id with Some p => negb (String.eqb (p_key p) addr) | None => true end
      end
  | NForeignDown dg => match decodeControl dg key with None => true | Some (typ, _, _, _) => negb (typ =? MsgAssignID) end
  | NGC now _ =>
      match g_byKey reg !! addr ≫= λ l, g_heap reg !! l with
      | Some p => now - g_ttl reg <=? p_lastSeen p
      | None => true
      end
  | _ => true
  end.

(** Each event is allowed in the state it meets. *)
Fixpoint calm (addr : string) (top : Z) (key : list Z) (s : net) (es : list nevent) : bool :=
  match es with
  | [] => true
  | e :: es' => allowed addr top key s e && match nexec addr s e with Some s' => calm addr top key s' es' | None => true end
  end.
End net.
Arguments net : clear implicits.

(** ** Lemmas: the registry and one client *)

(** What the registry holds for the client at [addr], to which it assigned
    [m]: nothing yet, or a peer of that id bound to the address. *)
Definition client_peer (addr : string) (m : option Owner) (bound : Z) (r : Registry string) : Prop :=
  match m with
  | None => g_byKey r !! addr = None
  | Some id => id ≠ zeroOwner ∧ ∃ l p, g_byKey r !! addr = Some l ∧ g_heap r !! l = Some p ∧ p_id p = id ∧
      p_sink p = Some addr ∧ p_lastTS p ≤ bound
  end.

Lemma client_peer_mono addr m b b' r : b ≤ b' → client_peer addr m b r → client_peer addr m b' r.
Proof. intros Hb. destruct m as [id|]; [|done]. intros (Hz & l & p & H1 & H2 & H3 & H4 & H5). split; [done|]. exists l, p. split_and!; [done..|lia]. Qed.

Lemma client_peer_sink addr id b r :
  registry_ok r → g_multiple r = true → client_peer addr (Some id) b r → SinkFor r id = (Some addr, true).
Proof.
  intros Hr Hm (Hz & l & p & Hk & Hp & Hid & Hs & _). destruct (rg_key _ Hr _ _ Hk) as (p' & Hp' & _ & Hb).
  assert (p' = p) as -> by congruence. rewrite Hid in Hb. unfold SinkFor, peerAt. rewrite Hm, Hb. cbn. rewrite Hp. by rewrite Hs.
Qed.

(** The client's registrations, with no id or the one it was assigned. *)
Lemma register_client addr m b r claimed ts now draws :
  registry_ok r → g_multiple r = true → addr ≠ ""%string → client_peer addr m b r →
  claimed = zeroOwner ∨ m = Some claimed → ts ≤ b →
  match Register r claimed addr ts addr now draws with
  | None => m = None ∧ mintLocked (g_byID r) draws = None
  | Some (r', (id, true)) => registry_ok r' ∧ g_multiple r' = true ∧ client_peer addr (Some id) b r' ∧ (m = None ∨ m = Some id)
  | Some (r', (id, false)) => r' = r ∧
      (m = None ∧ 0 < g_maxPeers r ≤ Z.of_nat (size (g_byID r)) ∨
       ∃ id p, m = Some id ∧ peerAt r id = Some p ∧ ts ≠ 0 ∧ ts ≤ p_lastTS p)
  end.
Proof.
  intros Hr Hm Ha Hcp Hcl Hts.
  destruct (Register r claimed addr ts addr now draws) as [[r' [id ok]]|] eqn:HR.
  - pose proof (Register_multiple _ _ _ _ _ _ _ _ _ ok Hr Hm HR) as H. destruct ok.
    + destruct H as (Hch & Hr' & (Hm' & _) & Hz & _). split; [done|]. split; [congruence|].
      unfold Register in HR. rewrite Hm, Hch in HR. cbn [negb] in HR. destruct m as [mid|].
      * destruct Hcp as (Hmz & l & p & Hk & Hp & Hid & Hs & Hb).
        destruct (rg_key _ Hr _ _ Hk) as (p' & Hp' & Hpk & Hbid). assert (p' = p) as -> by congruence.
        assert (id = mid) as ->.
        { unfold chooseID in Hch. destruct Hcl as [-> | Heq].
          - change (IsZero zeroOwner) with true in Hch. cbn iota in Hch. rewrite Hk, Hp in Hch. cbn in Hch. congruence.
          - injection Heq as <-. apply IsZero_false in Hmz. rewrite Hmz in Hch. congruence. }
        rewrite Hid in Hbid. rewrite Hbid, Hp in HR. destruct (_ && _); [done|]. injection HR as <-.
        split; [|by right]. split; [done|]. exists l, (MkPeer (p_id p) addr (Some addr) now ts).
        unfold bindPeer. cbn [setMaps g_byKey g_heap p_id p_sink p_lastTS]. rewrite Hpk, String.eqb_refl, lookup_insert_eq.
        by split_and!.
      * destruct Hcl as [-> |]; [|done]. cbn in Hcp. unfold chooseID in Hch. change (IsZero zeroOwner) with true in Hch.
        cbn iota in Hch. rewrite Hcp in Hch. apply mintLocked_some in Hch as (_ & Hfree & _). rewrite Hfree in HR.
        destruct (_ && _); [done|]. injection HR as <-. split; [|by left]. split; [done|].
        exists (g_next r), (MkPeer id addr (Some addr) now ts). unfold bindPeer. cbn [setMaps g_byKey g_heap p_id p_sink p_lastTS p_key].
        destruct (String.eqb_spec "" addr) as [He|_]; [by destruct Ha|]. rewrite !lookup_insert_eq. by split_and!.
    + destruct H as (-> & _ & i & Hch & H). split; [done|]. destruct m as [mid|].
      * right. destruct Hcp as (Hmz & l & p & Hk & Hp & Hid & _).
        assert (i = mid) as ->.
        { unfold chooseID in Hch. destruct Hcl as [-> | Heq].
          - change (IsZero zeroOwner) with true in Hch. cbn iota in Hch. rewrite Hk, Hp in Hch. cbn in Hch. congruence.
          - injection Heq as <-. apply IsZero_false in Hmz. rewrite Hmz in Hch. congruence. }
        destruct (rg_key _ Hr _ _ Hk) as (p' & Hp' & _ & Hbid). assert (p' = p) as -> by congruence. rewrite Hid in Hbid.
        destruct H as [(Hn & _)|(q & Hq & H0 & Hle)]; [unfold peerAt in Hn; rewrite Hbid in Hn; cbn in Hn; congruence|].
        by exists mid, q.
      * left. split; [done|]. destruct Hcl as [-> |]; [|done]. cbn in Hcp. unfold chooseID in Hch.
        change (IsZero zeroOwner) with true in Hch. cbn iota in Hch. rewrite Hcp in Hch.
        apply mintLocked_some in Hch as (_ & Hfree & _).
        destruct H as [(_ & ? & ?)|(q & Hq & _)]; [lia|]. unfold peerAt in Hq. by rewrite Hfree in Hq.
  - unfold Register in HR. rewrite Hm in HR. cbn [negb] in HR. destruct (chooseID r claimed addr draws) as [i|] eqn:Hch.
    + destruct (g_byID r !! i) as [l|] eqn:Hi; [|by destruct (_ && _)].
      destruct (rg_id _ Hr _ _ Hi) as (p & Hp & _). rewrite Hp in HR. by destruct (_ && _).
    + unfold chooseID in Hch. destruct (IsZero claimed); [|done].
      destruct (g_byKey r !! addr) as [l|] eqn:Hk.
      { destruct (rg_key _ Hr _ _ Hk) as (p & Hp & _). by rewrite Hp in Hch. }
      split; [|done]. destruct m as [mid|]; [|done]. destruct Hcp as (_ & l & p & Hk' & _). congruence.
Qed.

(** A registration from another address, not for the peer at [addr]. *)
Lemma register_other addr from m b r claimed ts sink now draws r' out :
  registry_ok r → g_multiple r = true → addr ≠ ""%string → from ≠ addr → client_peer addr m b r →
  (∀ p, peerAt r claimed = Some p → p_key p ≠ addr) → Register r claimed from ts sink now draws = Some (r', out) →
  registry_ok r' ∧ g_multiple r' = true ∧ client_peer addr m b r'.
Proof.
  intros Hr Hm Ha Hf Hcp Hcl HR. destruct out as [id ok].
  pose proof (Register_multiple _ _ _ _ _ _ _ _ _ ok Hr Hm HR) as H. destruct ok; [|by destruct H as (-> & _)].
  destruct H as (Hch & Hr' & (Hm' & _) & _). split; [done|]. split; [congruence|].
  unfold Register in HR. rewrite Hm, Hch in HR. cbn [negb] in HR.
  assert (∀ r0 l0 p0, p_key p0 ≠ addr → g_byKey r0 = g_byKey r → (∀ l p, g_byKey r !! addr = Some l → g_heap r !! l = Some p → g_heap r0 !! l = Some p ∧ l ≠ l0) →
    client_peer addr m b (bindPeer r0 l0 p0 from ts sink now)) as Hbind.
  { intros r0 l0 p0 Hk0 Hbk Hheap. unfold client_peer in *. unfold bindPeer. cbn [setMaps g_byKey g_heap]. rewrite Hbk.
    assert ((if String.eqb (p_key p0) from then g_byKey r else <[from:=l0]> (delete (p_key p0) (g_byKey r))) !! addr = g_byKey r !! addr) as ->.
    { destruct (String.eqb _ _); [done|]. rewrite lookup_insert_ne by done. by apply lookup_delete_ne. }
    destruct m as [mid|]; [|done]. destruct Hcp as (Hz & l & p & Hl & Hp & Hrest). destruct (Hheap l p Hl Hp) as [Hp' Hne].
    split; [done|]. exists l, p. split; [done|]. split; [by rewrite lookup_insert_ne|done]. }
  destruct (g_byID r !! id) as [l0|] eqn:Hi.
  - destruct (rg_id _ Hr _ _ Hi) as (p0 & Hp0 & Hpid & _). rewrite Hp0 in HR. destruct (_ && _); [done|]. injection HR as <-.
    assert (p_key p0 ≠ addr) as Hk0.
    { unfold chooseID in Hch. destruct (IsZero claimed).
      - destruct (g_byKey r !! from) as [lf|] eqn:Hkf.
        + destruct (rg_key _ Hr _ _ Hkf) as (pf & Hpf & Hkpf & Hidf). rewrite Hpf in Hch. cbn in Hch. injection Hch as Hch.
          rewrite Hch in Hidf. congruence.
        + apply mintLocked_some in Hch as (_ & Hfree & _). congruence.
      - injection Hch as ->. apply (Hcl p0). unfold peerAt. rewrite Hi. exact Hp0. }
    apply Hbind; [done|done|]. intros l p Hl Hp. split; [done|]. intros ->.
    destruct (rg_key _ Hr _ _ Hl) as (p' & Hp' & Hkp & _). congruence.
  - destruct (_ && _); [done|]. injection HR as <-. apply Hbind; [by apply not_eq_sym|done|]. intros l p _ Hp. cbn [setMaps g_heap].
    assert (l ≠ g_next r) as Hne by (intros ->; rewrite (rg_fresh _ Hr) in Hp by lia; done). by rewrite lookup_insert_ne.
Qed.

(** A collector that does not find that peer idle. *)
Lemma gc_client addr m b r now order r' n : registry_ok r → g_multiple r = true → order ≡ₚ map_to_list (g_byID r) → GC r now order = (r', n) →
  (∀ l p, g_byKey r !! addr = Some l → g_heap r !! l = Some p → now - g_ttl r ≤ p_lastSeen p) →
  client_peer addr m b r → registry_ok r' ∧ g_multiple r' = true ∧ client_peer addr m b r'.
Proof.
  intros Hr Hm Ho HG Hidle Hcp. pose proof (GC_ok _ now _ Hr Ho Hm) as H. rewrite HG in H.
  destruct H as (Hr' & ((Hm' & _) & Hh & _ & _ & _ & Hk) & _). split; [done|]. split; [congruence|]. destruct m as [mid|]; cbn [client_peer] in *.
  - destruct Hcp as (Hz & l & p & Hl & Hp & Hrest). split; [done|]. exists l, p. rewrite Hh. split; [|done]. apply Hk. split; [done|]. left.
    unfold stale. rewrite Hp. apply Z.ltb_ge. by eapply Hidle.
  - destruct (g_byKey r' !! addr) as [l|] eqn:Hl; [|done]. apply Hk in Hl as [Hl _]. congruence.
Qed.

(** ** Lemmas: the network *)

Section client.
Context {P : Type} `{DatagramLaws P} (addr : string) (key : list Z).

Definition controlOf (m : option Owner) (bound : Z) (dg : list Z) : Prop :=
  ∃ typ id ts, (typ = MsgRegister ∨ typ = MsgKeepalive) ∧ u64 ts ∧ ts ≤ bound ∧
    dg = encodeControl typ id 0 ts key ∧ (id = zeroOwner ∨ m = Some id).

(** What the listener sends: the assignment of [m], or data. *)
Definition answerOf (m : option Owner) (dg : list Z) : Prop :=
  (∃ id ts, u64 ts ∧ dg = encodeControl MsgAssignID id 0 ts key ∧ m = Some id) ∨ (∃ body, dg = MsgData :: body).

Record one_id (m : option Owner) (s : net P) : Prop := {
  oi_key_c : ci_key (nt_c s) = key;
  oi_key_s : lo_key (nt_s s) = key;
  oi_cipher : lo_cipher (nt_s s) = ci_cipher (nt_c s);
  oi_mult : lo_multiple (nt_s s) = true;
  oi_reg : registry_ok (lo_reg (nt_s s));
  oi_gm : g_multiple (lo_reg (nt_s s)) = true;
  oi_ts : 0 ≤ ci_lastTS (nt_c s);
  oi_cur : ci_curID (nt_c s) = zeroOwner ∨ m = Some (ci_curID (nt_c s));
  oi_up : Forall (controlOf m (ci_lastTS (nt_c s))) (nt_up s);
  oi_down : Forall (answerOf m) (nt_down s);
  oi_got : ∀ id, Assign id ∈ nt_got s → m = Some id;
  oi_peer : client_peer addr m (ci_lastTS (nt_c s)) (lo_reg (nt_s s));
}.

Lemma controlOf_learn id bound dg : controlOf None bound dg → controlOf (Some id) bound dg.
Proof.
  intros (typ & i & ts & H1 & H2 & H3 & H4 & [-> | Hn]); [|done]. exists typ, zeroOwner, ts.
  do 4 (split; [done|]). by left.
Qed.

Lemma answerOf_learn id dg : answerOf None dg → answerOf (Some id) dg.
Proof. intros [(i & ts & _ & _ & Hn)|Hb]; [done|by right]. Qed.

(** Nothing that was said before the id was minted speaks of another. *)
Lemma one_id_learn m id s :
  m = None ∨ m = Some id → one_id m s → client_peer addr (Some id) (ci_lastTS (nt_c s)) (lo_reg (nt_s s)) → one_id (Some id) s.
Proof.
  intros [-> | ->] [] Hp; [|by split]. split; try done.
  - destruct oi_cur0; [by left|done].
  - eapply Forall_impl; [done|]. apply controlOf_learn.
  - eapply Forall_impl; [done|]. apply answerOf_learn.
  - intros i Hi. by specialize (oi_got0 i Hi).
Qed.

Lemma loSend_answers (l : udpListenOut (P:=P)) buf draw e payload m : Forall (answerOf m) (toClient addr (loSend l buf draw e payload).1).
Proof.
  unfold loSend. destruct (SinkFor _ _) as [sink [|]]; [|constructor]. cbv zeta.
  set (need := (_ + EnvelopeLen + _)%nat). pose proof (length_scratch buf need) as Hl.
  assert (∃ t, splice (<[0%nat:=MsgData]> (scratch buf need)) (1 + dc_overhead (lo_cipher l)) (PutEnvelope e payload) = MsgData :: t) as [t ->].
  { destruct (scratch buf need) as [|b rest]; [cbn in Hl; lia|]. by eexists. }
  destruct (dc_sealInPlace _ _ _) as [region|]; [|constructor]. destruct sink as [a|]; [|constructor].
  cbn. destruct (String.eqb a addr); constructor; [|constructor]. right. by eexists.
Qed.

Lemma handle_foreign (c : udpConnectIn (P:=P)) dg :
  match decodeControl dg (ci_key c) with None => true | Some (typ, _, _, _) => negb (typ =? MsgAssignID) end = true →
  (handleDatagram c dg).1 = c ∧ ∀ id, (handleDatagram c dg).2 ≠ Assign id.
Proof.
  intros Hd. unfold handleDatagram. destruct dg as [|t body]; [done|].
  destruct (t =? MsgData).
  - split; [done|]. intros id. cbn. unfold deliver.
    destruct (dc_open _ _) as [blob|]; [|done]. destruct (ParseEnvelope blob) as [[e p]|]; [|done]. by destruct (negb _).
  - destruct (t =? MsgAssignID); [|done]. destruct (decodeControl _ _) as [[[[typ i] fl] ts]|]; [|done]. by rewrite Hd.
Qed.

Lemma handle_answer (c : udpConnectIn (P:=P)) m dg :
  ci_key c = key → answerOf m dg →
  (handleDatagram c dg).1 = c ∧ (∀ id, (handleDatagram c dg).2 ≠ Assign id) ∨
  ∃ id, m = Some id ∧ handleDatagram c dg = (setCurID c id, Assign id).
Proof.
  intros Hk [(id & ts & Hu & -> & Hm)|(body & ->)].
  - right. exists id. split; [done|]. destruct (encodeControl_cons MsgAssignID id 0 ts key) as [rest Hr].
    unfold handleDatagram. rewrite Hr. change (MsgAssignID =? MsgData) with false. change (MsgAssignID =? MsgAssignID) with true.
    cbn iota. rewrite <- Hr, Hk, decode_encode by done. done.
  - left. unfold handleDatagram. rewrite Z.eqb_refl. split; [done|]. intros id. cbn. unfold deliver.
    destruct (dc_open _ _) as [blob|]; [|done]. destruct (ParseEnvelope blob) as [[e p]|]; [|done]. by destruct (negb _).
Qed.

(** What a delivered control of the client does to the listener. *)
Lemma loControl_client m s dg now draws l out :
  one_id m s → addr ≠ ""%string → controlOf m (ci_lastTS (nt_c s)) dg → loControl (nt_s s) dg addr now draws = Some (l, out) →
  ∃ m', (m = None ∨ m' = m) ∧ one_id m' (MkNet (nt_c s) l (nt_up s) (nt_down s ++ toClient addr out) (nt_got s)).
Proof.
  intros Hok Ha (typ & id & ts & Ht & Hu & Hts & -> & Hid) Hlo. pose proof Hok as [Hkc Hks Hci Hmu Hr Hm Hpos Hcur Hup Hdn Hgot Hp].
  unfold loControl in Hlo. rewrite Hks, decode_encode in Hlo by done.
  assert ((typ =? MsgRegister) || (typ =? MsgKeepalive) = true) as Hty by (destruct Ht as [-> | ->]; done). rewrite Hty in Hlo.
  pose proof (register_client addr m (ci_lastTS (nt_c s)) (lo_reg (nt_s s)) id ts now draws Hr Hm Ha Hp Hid Hts) as HR.
  destruct (Register _ _ _ _ _ _ _) as [[reg [assigned [|]]]|]; [| |done].
  - destruct HR as (Hr' & Hm' & Hp' & Hmm). cbn [negb] in Hlo. cbn [setReg lo_multiple] in Hlo. rewrite Hmu in Hlo.
    exists (Some assigned). split; [destruct Hmm as [-> | ->]; [by left|by right]|].
    pose proof (one_id_learn m assigned (MkNet (nt_c s) (setReg (nt_s s) reg) (nt_up s) (nt_down s) (nt_got s)) Hmm) as Hl.
    assert (one_id (Some assigned) (MkNet (nt_c s) (setReg (nt_s s) reg) (nt_up s) (nt_down s) (nt_got s))) as [].
    { destruct Hmm as [-> | ->]; [|by split]. split; cbn; try done.
      - destruct Hcur; [by left|done].
      - eapply Forall_impl; [done|]. apply controlOf_learn.
      - eapply Forall_impl; [done|]. apply answerOf_learn.
      - intros i Hi. by specialize (Hgot i Hi). }
    destruct (IsZero id); simplify_eq; (split; cbn; try done).
    + apply Forall_app. split; [done|]. rewrite String.eqb_refl. constructor; [|constructor]. left. exists assigned, ts.
      rewrite ?Hks. done.
    + by rewrite app_nil_r.
  - destruct HR as [-> _]. cbn [negb] in Hlo. simplify_eq. exists m. split; [by right|]. cbn. rewrite app_nil_r.
    split; cbn; done.
Qed.

(** What a control from another address does to the listener. *)
Lemma loControl_other m s dg from now draws l out top :
  one_id m s → addr ≠ ""%string → allowed addr top key s (NForeignUp dg from now draws) = true → loControl (nt_s s) dg from now draws = Some (l, out) →
  one_id m (MkNet (nt_c s) l (nt_up s) (nt_down s ++ toClient addr out) (nt_got s)).
Proof.
  intros Hok Ha Hal Hlo. pose proof Hok as [Hkc Hks Hci Hmu Hr Hm Hpos Hcur Hup Hdn Hgot Hp]. cbn [allowed] in Hal. unfold loControl in Hlo. rewrite Hks in Hlo.
  assert (∀ out, toClient addr out = [] → one_id m (MkNet (nt_c s) (nt_s s) (nt_up s) (nt_down s ++ toClient addr out) (nt_got s))) as Hsame.
  { intros o Ho. rewrite Ho, app_nil_r. by destruct s. }
  destruct (decodeControl dg key) as [[[[typ id] fl] ts]|]; [|injection Hlo as <- <-; by apply Hsame].
  destruct (_ || _); [|injection Hlo as <- <-; by apply Hsame]. apply andb_true_iff in Hal as [Hf%negb_true_iff%String.eqb_neq Hid].
  destruct (Register _ _ _ _ _ _ _) as [[reg [assigned ok]]|] eqn:HR; [|done].
  destruct (register_other addr from m (ci_lastTS (nt_c s)) (lo_reg (nt_s s)) id ts from now draws reg (assigned, ok)) as (Hr' & Hm' & Hp'); [done..| |done|].
  { intros p Hpa. rewrite Hpa in Hid. by apply negb_true_iff, String.eqb_neq in Hid. }
  assert (l = setReg (nt_s s) reg ∧ toClient addr out = []) as [-> ->].
  { apply String.eqb_neq in Hf. destruct ok; cbn [negb] in Hlo; [|by simplify_eq]. destruct (lo_multiple _); [destruct (IsZero id)|]; simplify_eq; cbn; by rewrite ?Hf. }
  rewrite app_nil_r. by split.
Qed.

Lemma nexec_one_id top m s e s' :
  top < 2 ^ 64 → ci_lastTS (nt_c s) < 2 ^ 64 - 1 → addr ≠ ""%string → allowed addr top key s e = true →
  one_id m s → nexec addr s e = Some s' →
  (∃ m', (m = None ∨ m' = m) ∧ one_id m' s') ∧ ci_lastTS (nt_c s') ≤ Z.max top (ci_lastTS (nt_c s) + 1).
Proof.
  intros Htop Hb Ha Hal Hok He. pose proof Hok as [Hkc Hks Hci Hmu Hr Hm Hpos Hcur Hup Hdn Hgot Hp].
  destruct e as [typ now|i now draws|i|buf draw e payload|dg from now draws|dg|now order]; cbn [nexec] in He.
  - cbn [allowed] in Hal. apply andb_true_iff in Hal as [[Hty Hnow%Z.leb_le]%andb_true_iff Hnow'%Z.leb_le].
    assert (typ = MsgRegister ∨ typ = MsgKeepalive) as Hty' by (apply orb_true_iff in Hty as [?%Z.eqb_eq|?%Z.eqb_eq]; auto). unfold sendControl in He. destruct (ci_conn (nt_c s)) as [sock|] eqn:Hc.
    + rewrite (wrap_small 64 now) in He by lia.
      destruct (nextTSAttempt_range top now (ci_lastTS (nt_c s))) as (H1 & _ & H3); [lia..|].
      set (ts := nextTSAttempt now (ci_lastTS (nt_c s))) in *. injection He as <-. cbn [nt_c ci_lastTS]. split; [|lia].
      exists m. split; [by right|]. split; cbn; try done; [lia| |by eapply client_peer_mono; [|done]; lia].
      apply Forall_app. split.
      * eapply Forall_impl; [exact Hup|]. intros dg (t & id & ts' & ? & ? & ? & ? & ?). exists t, id, ts'.
        do 2 (split; [done|]). split; [lia|done].
      * constructor; [|constructor]. exists typ, (ci_curID (nt_c s)), ts. rewrite Hkc. split; [done|]. split; [|done].
        split; [lia|]. unfold ts, nextTSAttempt. destruct (_ <=? _); [apply (wrap_bound 64); lia|lia].
    + injection He as <-. cbn. split; [|lia]. exists m. split; [by right|]. rewrite app_nil_r. by destruct s.
  - destruct (nt_up s !! i) as [dg|] eqn:Hi; [|done]. apply bind_Some in He as ([l out] & Hlo & He). injection He as <-.
    cbn [nt_c]. split; [|lia]. eapply loControl_client; [done|done| |exact Hlo]. by eapply Forall_lookup in Hup.
  - destruct (nt_down s !! i) as [dg|] eqn:Hi; [|done]. eapply Forall_lookup in Hdn as Ha'; [|done].
    destruct (handle_answer (nt_c s) m dg Hkc Ha') as [[H1 H2]|(id & -> & H1)].
    + destruct (handleDatagram (nt_c s) dg) as [c r]. cbn in H1, H2. subst c. injection He as <-. cbn. split; [|lia].
      exists m. split; [by right|]. split; cbn; try done. intros id [Hid|Hid%list_elem_of_singleton]%elem_of_app; [by apply Hgot|].
      by destruct (H2 id).
    + rewrite H1 in He. injection He as <-. cbn. split; [|lia]. exists (Some id). split; [by right|].
      split; cbn; try done; [by right|]. intros i' [Hid|Hid%list_elem_of_singleton]%elem_of_app; [by apply Hgot|congruence].
  - injection He as <-. cbn. split; [|lia]. exists m. split; [by right|]. split; cbn; try done.
    apply Forall_app. split; [done|]. apply loSend_answers.
  - apply bind_Some in He as ([l out] & Hlo & He). injection He as <-. cbn [nt_c]. split; [|lia]. exists m. split; [by right|].
    by eapply loControl_other.
  - cbn [allowed] in Hal. rewrite <- Hkc in Hal. destruct (handle_foreign (nt_c s) dg Hal) as [H1 H2].
    destruct (handleDatagram (nt_c s) dg) as [c r]. cbn in H1, H2. subst c. injection He as <-. cbn. split; [|lia].
    exists m. split; [by right|]. split; cbn; try done. intros id [Hid|Hid%list_elem_of_singleton]%elem_of_app; [by apply Hgot|].
    by destruct (H2 id).
  - case_decide as Ho; [|done]. injection He as <-. cbn [nt_c]. split; [|lia]. exists m. split; [by right|]. unfold loGC.
    destruct (GC (lo_reg (nt_s s)) now order) as [reg k] eqn:HG. cbn [fst].
    destruct (gc_client addr m (ci_lastTS (nt_c s)) _ now order reg k Hr Hm Ho HG) as (Hr' & Hm' & Hp').
    + intros l p Hl Hpl. cbn [allowed] in Hal. rewrite Hl in Hal. cbn [mbind option_bind] in Hal. rewrite Hpl in Hal. by unbool.
    + done.
    + by split.
Qed.

Lemma nrun_one_id top es m s s' k :
  addr ≠ ""%string → calm addr top key s es = true → 0 ≤ k → top + k + zlen es < 2 ^ 64 - 1 → ci_lastTS (nt_c s) ≤ top + k →
  one_id m s → nrun addr s es = Some s' →
  (∃ m', (m = None ∨ m' = m) ∧ one_id m' s') ∧ ci_lastTS (nt_c s') ≤ top + k + zlen es.
Proof.
  intros Ha. revert m s k. induction es as [|e es IH]; intros m s k Hal Hk Hmax Hb Hok Hr; cbn [nrun] in Hr.
  { simplify_eq. split; [exists m; split; [by right|done]|unfold zlen; cbn; lia]. }
  apply bind_Some in Hr as (s1 & He & Hr). cbn [calm] in Hal. rewrite He in Hal. apply andb_true_iff in Hal as [Hal1 Hal]. unfold zlen in *. cbn [length] in *.
  rewrite Nat2Z.inj_succ in *.
  destruct (nexec_one_id top m s e s1) as [(m1 & Hm1 & Hok1) Hb1]; [lia|lia|done..|].
  destruct (IH m1 s1 (k + 1) Hal) as [(m2 & Hm2 & Hok2) Hb2]; [lia|lia|lia|done..|].
  split; [|lia]. exists m2. split; [|done]. destruct Hm1 as [?| ->]; [by left|done].
Qed.
End client.

(** ** Properties *)

(** A client that was never assigned an id, and a listener of several peers
    with the same key and cipher that does not know its address. *)
Record strangers {P} (addr : string) (c : udpConnectIn (P:=P)) (l : udpListenOut (P:=P)) : Prop := {
  sg_key : lo_key l = ci_key c;
  sg_cipher : lo_cipher l = ci_cipher c;
  sg_mult : lo_multiple l = true;
  sg_reg : registry_ok (lo_reg l);
  sg_gm : g_multiple (lo_reg l) = true;
  sg_cur : ci_curID c = zeroOwner;
  sg_addr : addr ≠ ""%string;
  sg_new : g_byKey (lo_reg l) !! addr = None;
}.

Section session.
Context {P : Type} `{DatagramLaws P} (addr : string) (c : udpConnectIn (P:=P)) (l : udpListenOut (P:=P)).
Context (Hstr : strangers addr c l).

Lemma strangers_one_id : 0 ≤ ci_lastTS c → one_id addr (ci_key c) None (MkNet c l [] [] []).
Proof. intros Hts. destruct Hstr. split; cbn; try done; [by left|]. by intros id ?%elem_of_nil. Qed.

Lemma session_ok top es s :
  0 ≤ ci_lastTS c ≤ top → top + zlen es < 2 ^ 64 - 1 → calm addr top (ci_key c) (MkNet c l [] [] []) es = true →
  nrun addr (MkNet c l [] [] []) es = Some s →
  (∃ m, one_id addr (ci_key c) m s) ∧ ci_lastTS (nt_c s) ≤ top + zlen es.
Proof.
  intros Hts Hmax Hal Hr.
  destruct (nrun_one_id addr (ci_key c) top es None (MkNet c l [] [] []) s 0 (sg_addr _ _ _ Hstr) Hal) as [(m & _ & Hok) Hb];
    [lia|lia|cbn; lia|apply strangers_one_id; lia|exact Hr|].
  split; [by exists m|lia].
Qed.

(** Claim C11.  A client gets at most one id.  Take a client and a listener of several
    peers with the same key, strangers to each other, and a network that loses,
    repeats, delays and reorders the datagrams between the client's address and the
    listener; other addresses meanwhile send noise, other clients' registrations under
    the same key, and captured registrations, except for ones that claim the id of the
    peer the listener holds at the client's address; nobody relays to the client an
    assignment sent to another address; the collector runs, but does not find that
    peer idle for longer than the ttl.  Then every assignment the client adopts is of
    one same non-zero id, its control datagrams claim no other, and the listener's
    return path for that id is the client's address.  Without these conditions it can
    get a second id: its first registration resent from another address mints one,
    and the client adopts the answer when that is relayed to it ([second_id]); and an
    old assignment sets its id back ([udp_assignment_replayed]). *)
Theorem udp_one_id top es s :
  0 ≤ ci_lastTS c ≤ top → top + zlen es < 2 ^ 64 - 1 → calm addr top (ci_key c) (MkNet c l [] [] []) es = true →
  nrun addr (MkNet c l [] [] []) es = Some s →
  ∃ m : option Owner,
    (∀ id, Assign id ∈ nt_got s → m = Some id) ∧ (ci_curID (nt_c s) = zeroOwner ∨ m = Some (ci_curID (nt_c s))) ∧
    (∀ id, m = Some id → id ≠ zeroOwner ∧ SinkFor (lo_reg (nt_s s)) id = (Some addr, true)) ∧
    ∀ dg typ id fl ts, dg ∈ nt_up s → decodeControl dg (ci_key c) = Some (typ, id, fl, ts) → id = zeroOwner ∨ m = Some id.
Proof.
  intros Hts Hmax Hal Hr.
  destruct (session_ok top es s Hts Hmax Hal Hr) as [[m Hok] _].
  exists m. split; [apply Hok|]. split; [apply Hok|]. split.
  - intros id ->. split; [apply (oi_peer _ _ _ _ Hok)|]. eapply client_peer_sink; apply Hok.
  - intros dg typ id fl ts Hin Hd. pose proof (oi_up _ _ _ _ Hok) as Hup. rewrite Forall_forall in Hup.
    destruct (Hup dg Hin) as (t & i & ts' & _ & Hu & _ & -> & Hi). rewrite decode_encode in Hd by done. by simplify_eq.
Qed.

(** A packet sent to a known id and delivered. *)
Lemma downlink_delivers s id buf draw processed payload :
  lo_cipher (nt_s s) = ci_cipher (nt_c s) → SinkFor (lo_reg (nt_s s)) id = (Some addr, true) →
  Forall u8 (ownerBytes id) → Forall u8 payload → PlausibleIP payload = true →
  ∃ s2, nrun addr s [NSend buf draw (MkEnvelope id processed) payload; NDown (length (nt_down s))] = Some s2 ∧
    nt_got s2 = nt_got s ++ [Deliver (MkEnvelope id processed) payload].
Proof.
  intros Hc Hs Hid Hp Hip.
  destruct (loSend_spec (nt_s s) buf draw (MkEnvelope id processed) payload addr Hid Hp Hs) as (body & Hw & Hop).
  cbn [nrun nexec]. rewrite Hw. cbn [mbind option_bind fst toClient omap list_omap nt_down nt_c]. rewrite String.eqb_refl.
  rewrite (lookup_app_r (nt_down s)), Nat.sub_diag by done. cbn [lookup list_lookup handleDatagram]. rewrite Z.eqb_refl.
  rewrite Hc in Hop. rewrite (deliver_put _ _ _ _ Hop), Hip. eexists. split; [done|]. done.
Qed.

(** A register of the client and, when it has no id yet, the answer. *)
Definition reregister (s : net P) (now unow : Z) (draws : list Owner) : list nevent :=
  [NControl MsgRegister now; NUp (length (nt_up s)) unow draws] ++
  (if IsZero (ci_curID (nt_c s)) then [NDown (length (nt_down s))] else []).

(** Claim C17.  From every such state one register that gets through, with its
    answer, connects the client: it ends with a non-zero id the listener routes
    to its address, and every packet then sent for that id and delivered
    reaches the client's routing. *)
Theorem udp_converges top es s sock now unow draws :
  0 ≤ ci_lastTS c ≤ top → top + zlen es < 2 ^ 64 - 2 → calm addr top (ci_key c) (MkNet c l [] [] []) es = true →
  nrun addr (MkNet c l [] [] []) es = Some s →
  ci_conn (nt_c s) = Some sock → 0 ≤ now ≤ top →
  (∃ d, d ∈ draws ∧ IsZero d = false ∧ g_byID (lo_reg (nt_s s)) !! d = None) →
  (0 < g_maxPeers (lo_reg (nt_s s)) → Z.of_nat (size (g_byID (lo_reg (nt_s s)))) < g_maxPeers (lo_reg (nt_s s))) →
  ∃ s1 id, nrun addr s (reregister s now unow draws) = Some s1 ∧
    id ≠ zeroOwner ∧ ci_curID (nt_c s1) = id ∧ SinkFor (lo_reg (nt_s s1)) id = (Some addr, true) ∧
    (ci_curID (nt_c s) ≠ zeroOwner → id = ci_curID (nt_c s)) ∧
    ∀ buf draw processed payload, Forall u8 (ownerBytes id) → Forall u8 payload → PlausibleIP payload = true →
      ∃ s2, nrun addr s1 [NSend buf draw (MkEnvelope id processed) payload; NDown (length (nt_down s1))] = Some s2 ∧
        nt_got s2 = nt_got s1 ++ [Deliver (MkEnvelope id processed) payload].
Proof.
  intros Hts Hmax Hal Hr Hsock Hnow (d & Hd & Hdz & Hdf) Hroom.
  assert (0 ≤ zlen es) as Hes by (unfold zlen; lia).
  destruct (session_ok top es s Hts ltac:(lia) Hal Hr) as [[m Hok] Hb].
  pose proof Hok as [Hkc Hks Hci Hmu Hreg Hm Hpos Hcur Hup Hdn Hgot Hp].
  unfold reregister. cbn [app nrun nexec]. unfold sendControl. rewrite Hsock, (wrap_small 64 now) by lia.
  destruct (nextTSAttempt_range top now (ci_lastTS (nt_c s))) as (H1 & _ & H3); [lia..|].
  set (ts := nextTSAttempt now (ci_lastTS (nt_c s))) in *.
  assert (u64 ts) as Hu by (unfold ts, nextTSAttempt; destruct (_ <=? _); [apply (wrap_bound 64); lia|split; lia]).
  cbn [mbind option_bind toServer omap list_omap id nt_up nt_down nt_c nt_s nt_got].
  rewrite (lookup_app_r (nt_up s)), Nat.sub_diag by done. cbn [lookup list_lookup].
  unfold loControl at 1. rewrite Hks, Hkc, decode_encode by done. change (MsgRegister =? MsgRegister) with true. cbn [orb].
  assert (client_peer addr m ts (lo_reg (nt_s s))) as Hp' by (eapply client_peer_mono; [|exact Hp]; lia).
  pose proof (register_client addr m ts (lo_reg (nt_s s)) (ci_curID (nt_c s)) ts unow draws Hreg Hm (sg_addr _ _ _ Hstr) Hp' Hcur ltac:(lia)) as HR.
  destruct (Register (lo_reg (nt_s s)) (ci_curID (nt_c s)) addr ts addr unow draws) as [[reg [assigned [|]]]|].
  - destruct HR as (Hr' & Hm' & Hpeer & Hmm). cbn [negb setReg lo_multiple]. rewrite Hmu.
    pose proof (client_peer_sink _ _ _ _ Hr' Hm' Hpeer) as Hsink. pose proof (proj1 Hpeer : assigned ≠ zeroOwner) as Hnz.
    destruct (IsZero (ci_curID (nt_c s))) eqn:Hz; cbn [mbind option_bind nrun nexec app nt_down nt_up nt_c nt_s].
    + cbn [toClient omap list_omap]. rewrite String.eqb_refl. cbn [setReg lo_key]. rewrite Hks.
      rewrite (lookup_app_r (nt_down s)), Nat.sub_diag by done. cbn [lookup list_lookup].
      set (c1 := MkConnectIn _ _ _ _ ts).
      destruct (handle_answer (ci_key c) c1 (Some assigned) (encodeControl MsgAssignID assigned 0 ts (ci_key c)))
        as [[_ Hno]|(i & Hi & ->)]; [done|left; by exists assigned, ts| |].
      { exfalso. apply (Hno assigned). destruct (encodeControl_cons MsgAssignID assigned 0 ts (ci_key c)) as [rest Hrest].
        unfold handleDatagram. rewrite Hrest. change (MsgAssignID =? MsgData) with false.
        change (MsgAssignID =? MsgAssignID) with true. cbn iota. rewrite <- Hrest. cbn [c1 ci_key]. by rewrite decode_encode. }
      injection Hi as <-. eexists _, assigned. split; [reflexivity|]. split; [exact Hnz|]. split; [reflexivity|].
      split; [exact Hsink|]. split; [intros Hne; by apply IsZero_true in Hz|].
      intros. apply downlink_delivers; [exact Hci|exact Hsink|done..].
    + apply IsZero_false in Hz. destruct Hcur as [|Hcur]; [done|]. destruct Hmm as [->|Hmm]; [done|].
      assert (assigned = ci_curID (nt_c s)) as -> by congruence.
      eexists _, (ci_curID (nt_c s)). split; [reflexivity|]. split; [exact Hz|]. split; [reflexivity|].
      split; [exact Hsink|]. split; [done|]. intros. apply downlink_delivers; [exact Hci|exact Hsink|done..].
  - exfalso. destruct HR as [-> [(-> & Hfull)|(i & p & -> & Hpa & Hne & Hle)]]; [lia|].
    destruct Hp as (_ & lo & q & Hk & Hq & Hid & _ & Hq'). destruct (rg_key _ Hreg _ _ Hk) as (q' & Hq2 & _ & Hbid).
    assert (q' = q) as -> by congruence. unfold peerAt in Hpa. rewrite Hid in Hbid. rewrite Hbid in Hpa. cbn in Hpa.
    assert (p = q) as -> by congruence. lia.
  - exfalso. destruct HR as [_ Hn]. destruct (mintLocked_ends _ _ _ Hd Hdz Hdf) as [x Hx]. congruence.
Qed.
End session.

(** ** Lemmas: the schedule *)

(** Within [gap] after every moment of the period there is a send, or the
    period ends. *)
Definition covers (gap from until : Z) (sends : list (Z * Z)) : Prop :=
  ∀ x, from ≤ x < until → until ≤ x + gap ∨ ∃ t typ, (t, typ) ∈ sends ∧ x < t ≤ x + gap.

Lemma covers_cons gap from t until typ sends :
  t ≤ from + gap → covers gap t until sends → covers gap from until ((t, typ) :: sends).
Proof.
  intros Ht Hc x Hx. destruct (decide (t ≤ x)) as [Hle|Hlt].
  - destruct (Hc x ltac:(lia)) as [?|(t' & typ' & Hin & ?)]; [by left|]. right. exists t', typ'. split; [by right|lia].
  - right. exists t, typ. split; [by left|lia].
Qed.

(** In order, within the period, covering it. *)
Definition scheduled (gap from until : Z) (sends : list (Z * Z)) : Prop :=
  StronglySorted Z.lt sends.*1 ∧ Forall (λ s, from < s.1 < until) sends ∧ covers gap from until sends.

Lemma scheduled_cons gap from t until typ sends :
  from < t < until → t ≤ from + gap → scheduled gap t until sends → scheduled gap from until ((t, typ) :: sends).
Proof.
  intros Hft Ht (Hs & Hf & Hc). split; [|split; [|by apply covers_cons]].
  - cbn. constructor; [done|]. apply Forall_fmap. eapply Forall_impl; [exact Hf|]. cbn. lia.
  - constructor; [done|]. eapply Forall_impl; [exact Hf|]. cbn. lia.
Qed.

Lemma scheduled_end gap from until : until ≤ from + gap → scheduled gap from until [].
Proof. intros Hu. split; [constructor|]. split; [constructor|]. intros x Hx. left. lia. Qed.

Lemma tickSends_scheduled fuel t refresh until gap :
  0 < refresh ≤ gap → until - t ≤ Z.of_nat fuel * refresh → scheduled gap t until (tickSends fuel t refresh until).
Proof.
  intros Hr. revert t. induction fuel as [|fuel IH]; intros t Hf; cbn [tickSends]; [apply scheduled_end; lia|].
  destruct (until <=? t + refresh) eqn:Hu; unbool; [apply scheduled_end; lia|].
  apply scheduled_cons; [lia|lia|]. apply IH. rewrite Nat2Z.inj_succ in Hf. lia.
Qed.

Lemma warmSends_scheduled delays t until gap :
  Forall (λ d, 0 < d ≤ gap) delays →
  match warmSends t until delays with
  | (out, None) => scheduled gap t until out
  | (out, Some t') => ∀ rest, scheduled gap t' until rest → scheduled gap t until (out ++ rest)
  end.
Proof.
  intros Hd. revert t. induction Hd as [|d delays Hd _ IH]; intros t; cbn [warmSends]; [done|].
  destruct (until <=? t + d) eqn:Hu; unbool; [apply scheduled_end; lia|]. specialize (IH (t + d)).
  destruct (warmSends (t + d) until delays) as [out [t'|]].
  - intros rest Hrest. apply scheduled_cons; [lia|lia|]. by apply IH.
  - apply scheduled_cons; [lia|lia|done].
Qed.

(** While it runs, the maintenance of a registering client never
    falls silent: its sends are in order, and after every moment of the run one
    follows within the longer of the refresh interval and four seconds, unless
    the run ends by then. *)
Theorem maintain_cadence t0 refresh until :
  0 < refresh → scheduled (Z.max refresh 4000000000) t0 until (maintain t0 refresh until).
Proof.
  intros Hr. unfold maintain.
  pose proof (warmSends_scheduled warmup t0 until (Z.max refresh 4000000000)) as H.
  destruct (warmSends t0 until warmup) as [out [t|]].
  - apply H; [repeat constructor; lia|]. apply tickSends_scheduled; [lia|].
    pose proof (Z.div_mod (until - t) refresh ltac:(lia)). pose proof (Z.mod_pos_bound (until - t) refresh Hr). nia.
  - apply H. repeat constructor; lia.
Qed.

(** ** Lemmas: coalesced reads *)

(** What the kernel hands over in one read: datagrams of the segment size, the
    last possibly shorter, or a single one without a segment size. *)
Fixpoint coalesced (segSize : Z) (dgs : list (list Z)) : Prop :=
  match dgs with
  | [] => True
  | [dg] => 0 < zlen dg ∧ (0 < segSize → zlen dg ≤ segSize)
  | dg :: dgs' => 0 < segSize ∧ zlen dg = segSize ∧ coalesced segSize dgs'
  end.

Lemma splitLoop_coalesced segSize dgs pre fuel rest :
  coalesced segSize dgs → (length (concat dgs) ≤ fuel)%nat →
  splitLoop fuel (pre ++ concat dgs ++ rest) (zlen (pre ++ concat dgs)) segSize (zlen pre) = dgs.
Proof.
  revert pre fuel. induction dgs as [|dg dgs IH]; intros pre fuel Hc Hf.
  { destruct fuel; cbn [splitLoop]; [done|]. cbn [concat]. rewrite app_nil_r, (proj2 (Z.ltb_ge _ _)) by lia. done. }
  assert (0 < zlen dg ∧ (segSize < zlen dg + zlen (concat dgs) → 0 < segSize → segSize = zlen dg) ∧
          (segSize ≤ 0 → dgs = []) ∧ (zlen dg + zlen (concat dgs) ≤ segSize → dgs = []) ∧ coalesced segSize dgs) as (Hd & H1 & H2 & H3 & Hc').
  { unfold zlen in *. destruct dgs as [|dg2 dgs].
    - destruct Hc as [Hc1 Hc2]. cbn. unfold zlen in Hc1, Hc2. split; [lia|]. split; [|done]. intros Hlt H0. specialize (Hc2 H0). lia.
    - destruct Hc as (H0 & Hl & Hc). unfold zlen in Hl. split; [lia|]. split; [lia|]. split; [lia|]. split; [|done].
      assert (0 < length dg2)%nat.
      { destruct dgs as [|dg3 dgs]; [destruct Hc as [Hc _]|destruct Hc as (_ & Hc & _)]; unfold zlen in Hc; lia. }
      cbn. rewrite length_app. lia. }
  destruct fuel as [|fuel]; [cbn in Hf; rewrite length_app in Hf; unfold zlen in Hd; lia|].
  cbn [splitLoop concat]. rewrite (proj2 (Z.ltb_lt _ _)).
  2:{ unfold zlen in *. rewrite !length_app. lia. }
  match goal with |- context [if (0 <? segSize) && ?b then segSize else ?r] =>
    set (dlen := if (0 <? segSize) && b then segSize else r) end.
  assert (dlen = zlen dg) as ->.
  { subst dlen. unfold zlen in *. rewrite !length_app, !Nat2Z.inj_add in *.
    destruct (0 <? segSize) eqn:E0; unbool; cbn [andb].
    - destruct (segSize <? _) eqn:E1; unbool; [lia|]. rewrite (H3 ltac:(lia)). cbn. lia.
    - rewrite (H2 ltac:(lia)). cbn. lia. }
  f_equal.
  - unfold zlen. rewrite !Nat2Z.id, drop_app_length, <- app_assoc. by rewrite take_app_length.
  - specialize (IH (pre ++ dg) fuel Hc'). rewrite <- !app_assoc in IH. unfold zlen in *.
    rewrite <- !app_assoc. rewrite !length_app, !Nat2Z.inj_add in *. apply IH.
    cbn in Hf. rewrite length_app in Hf. lia.
Qed.

Lemma splitGRO_coalesced segSize dgs rest :
  coalesced segSize dgs → splitGRO (concat dgs ++ rest) (zlen (concat dgs)) segSize = dgs.
Proof. intros Hc. unfold splitGRO. apply (splitLoop_coalesced segSize dgs [] _ rest Hc). unfold zlen. lia. Qed.

(** However the kernel groups the datagrams that arrive into
    coalesced reads, and whatever the reused buffer still holds behind them, the
    listener hands every datagram to routing exactly once, in order; the
    registering client does so across read errors as well. *)
Theorem reads_in_order `{DatagramLaws P} (cipher : P) (groups : list (Z * list (list Z) * list Z)) errs :
  Forall (λ g, coalesced g.1.1 g.1.2) groups → length errs = length groups →
  let reads := map (λ g, Some (concat g.1.2 ++ g.2, zlen (concat g.1.2), g.1.1)) groups in
  listenIn cipher reads = map (deliver cipher) (concat (map (λ g, g.1.2) groups)) ∧
  ∀ sock, connectReads (concat (zip_with (λ n r, replicate n (Some sock, None) ++ [(Some sock, r)]) errs reads)) =
    concat (map (λ g, g.1.2) groups).
Proof.
  intros Hg Hl reads. split.
  - unfold listenIn. f_equal. subst reads. clear errs Hl. induction Hg as [|[[seg dgs] rest] groups Hc _ IH]; [done|].
    cbn [map listenReads concat fst snd]. cbn [fst snd] in Hc. by rewrite splitGRO_coalesced, IH.
  - intros sock. subst reads. revert errs Hl. induction Hg as [|[[seg dgs] rest] groups Hc _ IH]; intros [|n errs] Hl; try done.
    cbn [map zip_with concat fst snd]. cbn [fst snd] in Hc. rewrite <- app_assoc.
    assert (length errs = length groups) as Hl' by (cbn in Hl; lia). clear Hl. induction n as [|n IHn]; [|exact IHn].
    cbn [replicate app connectReads]. by rewrite splitGRO_coalesced, IH.
Qed.

(** ** Concrete sessions *)

Lemma demo_strangers : strangers "a" UdpDemo.dn UdpDemo.lo.
Proof. split; first [done|apply New_ok]. Qed.

(** A register that is lost, one that arrives, the first arriving late, the
    answer twice, noise, a keepalive, the client's first register captured and resent
    from elsewhere, another client, and a collector. *)
Definition demoNetEvents : list nevent :=
  [NControl MsgRegister 10; NControl MsgRegister 20; NUp 1 100 [ownA]; NUp 0 110 [ownB]; NDown 0; NForeignDown [3; 1]; NDown 0;
   NControl MsgKeepalive 30; NUp 2 120 []; NForeignUp [1; 2] "b" 130 [ownB];
   NForeignUp (encodeControl MsgRegister zeroOwner 0 10 UdpDemo.key) "b" 131 [ownB];
   NForeignUp (encodeControl MsgRegister (MkOwner 9 9 9 9) 0 7 UdpDemo.key) "d" 132 [];
   NGC 150 [(ownA, 0%nat); (ownB, 1%nat); (MkOwner 9 9 9 9, 2%nat)]].

Lemma udp_one_id_witness :
  ∃ s m, nrun "a" (MkNet UdpDemo.dn UdpDemo.lo [] [] []) demoNetEvents = Some s ∧
    (∀ id, Assign id ∈ nt_got s → m = Some id) ∧ (ci_curID (nt_c s) = zeroOwner ∨ m = Some (ci_curID (nt_c s))).
Proof.
  assert (bool_decide (is_Some (nrun "a" (MkNet UdpDemo.dn UdpDemo.lo [] [] []) demoNetEvents)) = true) as Hs by (vm_compute; reflexivity).
  destruct (nrun "a" (MkNet UdpDemo.dn UdpDemo.lo [] [] []) demoNetEvents) as [s|] eqn:Hr; [|discriminate Hs].
  destruct (udp_one_id "a" UdpDemo.dn UdpDemo.lo demo_strangers 1000 demoNetEvents s) as (m & H1 & H2 & _).
  - vm_compute. split; discriminate.
  - vm_compute. reflexivity.
  - vm_compute. reflexivity.
  - exact Hr.
  - exists s, m. split; [reflexivity|]. split; [exact H1|exact H2].
Defined.

(** The client's first register, captured and resent from "b", mints an id of its own,
    and the client adopts the answer to "b" when it is relayed. *)
Example second_id :
  nt_got <$> nrun "a" (MkNet UdpDemo.dn UdpDemo.lo [] [] [])
    [NControl MsgRegister 10; NUp 0 100 [ownA]; NDown 0; NForeignUp (encodeControl MsgRegister zeroOwner 0 10 UdpDemo.key) "b" 110 [ownB];
     NForeignDown (encodeControl MsgAssignID ownB 0 10 UdpDemo.key)] = Some [Assign ownA; Assign ownB].
Proof. vm_compute. reflexivity. Qed.

Lemma udp_converges_witness :
  let s := MkNet UdpDemo.dn UdpDemo.lo [] [] [] in
  ∃ s1 id, nrun "a" s (reregister s 10 100 [zeroOwner; ownA]) = Some s1 ∧ id ≠ zeroOwner ∧ ci_curID (nt_c s1) = id.
Proof.
  intros s.
  destruct (udp_converges "a" UdpDemo.dn UdpDemo.lo demo_strangers 1000 [] s 4 10 100 [zeroOwner; ownA]) as (s1 & id & H1 & H2 & H3 & _).
  - vm_compute. split; discriminate.
  - vm_compute. reflexivity.
  - reflexivity.
  - reflexivity.
  - reflexivity.
  - lia.
  - exists ownA. split; [right; left|]. split; reflexivity.
  - intros _. vm_compute. reflexivity.
  - exists s1, id. split; [exact H1|]. split; [exact H2|exact H3].
Defined.

Lemma maintain_cadence_witness :
  maintain 0 20000000000 30000000000 =
    [(500000000, MsgRegister); (1500000000, MsgRegister); (3500000000, MsgRegister); (7500000000, MsgRegister);
     (27500000000, MsgKeepalive)] ∧
  scheduled (Z.max 20000000000 4000000000) 0 30000000000 (maintain 0 20000000000 30000000000).
Proof. split; [vm_compute; reflexivity|apply maintain_cadence; lia]. Defined.

Lemma reads_in_order_witness :
  let groups := [(2, [[1; 2]; [3; 4]; [5]], [9; 9]); (0, [[6; 7; 8]], [])] in
  listenIn nonePacket (map (λ g, Some (concat g.1.2 ++ g.2, zlen (concat g.1.2), g.1.1)) groups) =
    map (deliver nonePacket) [[1; 2]; [3; 4]; [5]; [6; 7; 8]].
Proof.
  intros groups. apply (reads_in_order nonePacket groups [1%nat; 0%nat]); [|reflexivity].
  constructor; [|constructor; [|constructor]]; unfold coalesced, zlen; cbn [fst snd length]; lia.
Defined.

(** An assignment carries a stamp, but the UDP client compares it with nothing:
    one it received before its present id sets it back. *)
Example udp_assignment_replayed :
  let first := encodeControl MsgAssignID ownA 0 10 UdpDemo.key in
  let second := encodeControl MsgAssignID ownB 0 20 UdpDemo.key in
  (handleAll UdpDemo.dn [first; second; first]).2 = [Assign ownA; Assign ownB; Assign ownA] ∧
  ci_curID (handleAll UdpDemo.dn [first; second; first]).1 = ownA.
Proof. split; vm_compute; reflexivity. Qed.
