(* ===== verification/Dsl.v ===== *)
(** * internal/netschema/dsl.go: the one-line syntax of links and routes

    Strings are Go byte strings; the YAML nodes the decoders walk are lists of
    key and value, a value being a scalar or not. *)

From S2P Require Import Prelude GoStrings.
Local Open Scope Z_scope.

Definition toAcceptor : string := "to-acceptor".
Definition toDialer : string := "to-dialer".

Record Link := MkLink {
  l_Name : string;
  l_Dialer : string;
  l_Acceptor : string;
  l_Dataflow : string;
  l_Protocol : string;
  l_Port : Z;
  l_DialerSource : string;
  l_AcceptorSource : string;
  l_Multiple : bool;
  l_IDSetter : string;
  l_PSK : string;
}.

Record Branch := MkBranch {
  b_When : list string;
  b_Egress : string;
  b_Up : list string;
  b_Down : list string;
  b_Gateway : string;
}.

#[export] Instance Link_eq_dec : EqDecision Link.
Proof. solve_decision. Defined.
#[export] Instance Branch_eq_dec : EqDecision Branch.
Proof. solve_decision. Defined.

Inductive dslErr :=
| ErrLinksKind | ErrLinkForm | ErrLinkFields | ErrArrow | ErrLinkEnds | ErrLinkParams | ErrLinkPort
| ErrRoutesKind | ErrRouteKind | ErrRouteEmpty | ErrRouteEgresses | ErrRouteParens.

#[export] Instance dslErr_eq_dec : EqDecision dslErr.
Proof. solve_decision. Defined.

(** ** Arrows *)

Definition str (l : list ascii) : string := unchars l.

(** [strings.ContainsAny(idSetter, "<>-.")] *)
Definition arrowChar (c : ascii) : bool :=
  bool_decide (c = "<"%char) || bool_decide (c = ">"%char) || bool_decide (c = "-"%char) || bool_decide (c = "."%char).

Definition bareOrFail (flow : string) (multiple : bool) (idSetter : list ascii) : option (string * bool * list ascii) :=
  if existsb arrowChar idSetter then None else Some (flow, multiple, idSetter).

(** [parseArrow]; [None] is [ok = false]. *)
Definition parseArrow (tok : list ascii) : option (string * bool * list ascii) :=
  if bool_decide (">"%char ∈ tok) then
    match tok with
    | "-"%char :: body =>
        if bool_decide ([">"%char; ">"%char] `suffix_of` body) then bareOrFail toAcceptor true (take (length body - 2) body)
        else if bool_decide ([">"%char] `suffix_of` body) then bareOrFail toAcceptor false (take (length body - 1) body)
        else None
    | _ => None
    end
  else if bool_decide ("<"%char ∈ tok) then
    if bool_decide (["-"%char] `suffix_of` tok) then
      let body := take (length tok - 1) tok in
      match body with
      | "<"%char :: "<"%char :: body => bareOrFail toDialer true body
      | "<"%char :: body => bareOrFail toDialer false body
      | _ => None
      end
    else None
  else None.

(** ** Links *)

Definition splitNodeSource (s : list ascii) : list ascii * list ascii :=
  let s := trimSpace s in
  match indexChar "."%char s with
  | Some i => (trimSpace (take i s), trimSpace (drop (S i) s))
  | None => (s, [])
  end.

Definition notEmpty (l : list ascii) : bool := match l with [] => false | _ => true end.

Definition splitTrim (s : list ascii) (sep : ascii) : list (list ascii) :=
  base.filter notEmpty (map trimSpace (splitOn sep s)).

Definition parseLink (name def : string) : res dslErr Link :=
  let d := chars def in
  match indexChar "("%char d, lastIndexChar ")"%char d with
  | Some open, Some close =>
      if (close <? open)%nat then Err ErrLinkForm
      else match fields (take open d) with
      | [f0; f1; f2] =>
          match parseArrow f1 with
          | None => Err ErrArrow
          | Some (dataflow, multiple, idSetter) =>
              let '(dialer, dsrc) := splitNodeSource f0 in
              let '(acceptor, asrc) := splitNodeSource f2 in
              if negb (notEmpty dialer) || negb (notEmpty acceptor) then Err ErrLinkEnds
              else match splitTrim (take (close - S open) (drop (S open) d)) ","%char with
              | [proto; port] =>
                  match atoi (str port) with
                  | None => Err ErrLinkPort
                  | Some n => Ok (MkLink name (str dialer) (str acceptor) dataflow (str proto) n (str dsrc) (str asrc)
                                   multiple (str idSetter) "")
                  end
              | _ => Err ErrLinkParams
              end
          end
      | _ => Err ErrLinkFields
      end
  | _, _ => Err ErrLinkForm
  end.

(** A YAML value: the text of a scalar, or [None]; and a YAML node: the entries
    of a mapping, or [None]. *)
Definition yamlValue : Type := option string.
Definition yamlNode : Type := option (list (string * yamlValue)).

(** [node.Value]: empty for what is not a scalar. *)
Definition yValue (v : yamlValue) : string := default ""%string v.

Fixpoint eachEntry {A} (f : string → yamlValue → res dslErr A) (acc : list A) (content : list (string * yamlValue)) : res dslErr (list A) :=
  match content with
  | [] => Ok acc
  | (k, v) :: content' => res_bind (f k v) (λ a, eachEntry f (acc ++ [a]) content')
  end.

Definition unmarshalLinks (ls : list Link) (node : yamlNode) : res dslErr (list Link) :=
  match node with
  | Some content => eachEntry (λ k v, parseLink k (yValue v)) ls content
  | _ => Err ErrLinksKind
  end.

(** ** Routes *)

Definition isEgress (t : list ascii) : bool :=
  match t with
  | "("%char :: _ => bool_decide ([")"%char] `suffix_of` t)
  | _ => false
  end.

(** The scan for the one parenthesized token. *)
Fixpoint egressIndex (i : nat) (found : option nat) (tokens : list (list ascii)) : res dslErr (option nat) :=
  match tokens with
  | [] => Ok found
  | t :: tokens' =>
      if isEgress t then
        match found with
        | Some _ => Err ErrRouteEgresses
        | None => egressIndex (S i) (Some i) tokens'
        end
      else egressIndex (S i) found tokens'
  end.

Definition parseBranch (cond : string) (val : yamlValue) : res dslErr Branch :=
  match val with
  | Some v =>
      let when := if String.eqb cond "default" then [] else [cond] in
      let tokens := splitTrim (chars v) ">"%char in
      match tokens with
      | [] => Err ErrRouteEmpty
      | _ =>
          match egressIndex 0 None tokens with
          | Err e => Err e
          | Ok None =>
              match tokens with
              | [t] => Ok (MkBranch when (str t) [] [] "")
              | _ => Err ErrRouteParens
              end
          | Ok (Some i) =>
              let t := nth i tokens [] in
              Ok (MkBranch when (str (trimSpace (take (length t - 2) (drop 1 t))))
                    (map str (take i tokens)) (map str (drop (S i) tokens)) "")
          end
      end
  | _ => Err ErrRouteKind
  end.

Definition unmarshalBranches (bs : list Branch) (node : yamlNode) : res dslErr (list Branch) :=
  match node with
  | Some content => eachEntry parseBranch bs content
  | _ => Err ErrRoutesKind
  end.

(** ** Specification: how a link and a route are written *)

Definition renderArrow (dataflow : string) (multiple : bool) (idSetter : list ascii) : list ascii :=
  if String.eqb dataflow toAcceptor
  then ["-"%char] ++ idSetter ++ (if multiple then [">"%char; ">"%char] else [">"%char])
  else (if multiple then ["<"%char; "<"%char] else ["<"%char]) ++ idSetter ++ ["-"%char].

Definition renderEnd (node source : string) : list ascii :=
  chars node ++ (if String.eqb source "" then [] else ["."%char] ++ chars source).

Definition renderLink (l : Link) : string :=
  str (renderEnd (l_Dialer l) (l_DialerSource l) ++ [" "%char] ++
       renderArrow (l_Dataflow l) (l_Multiple l) (chars (l_IDSetter l)) ++ [" "%char] ++
       renderEnd (l_Acceptor l) (l_AcceptorSource l) ++ [" "%char; "("%char] ++
       chars (l_Protocol l) ++ [","%char; " "%char] ++ itoa (l_Port l) ++ [")"%char]).

Definition renderRoute (b : Branch) : string :=
  str (concat (map (λ u, chars u ++ [" "%char; ">"%char; " "%char]) (b_Up b)) ++
       ["("%char] ++ chars (b_Egress b) ++ [")"%char] ++
       concat (map (λ u, [" "%char; ">"%char; " "%char] ++ chars u) (b_Down b))).

(** A bare word: no white space and none of the syntax's separators. *)
Definition wordChar (c : ascii) : bool :=
  negb (isSpace c) && negb (existsb (λ d, bool_decide (c = d)) ["("; ")"; ","; "."; "<"; ">"]%char).
Definition word (s : string) : Prop := chars s ≠ [] ∧ Forall (λ c, wordChar c = true) (chars s).
Definition wordOrEmpty (s : string) : Prop := Forall (λ c, wordChar c = true) (chars s).

Record link_wf (l : Link) : Prop := {
  lw_dialer : word (l_Dialer l);
  lw_dsrc : wordOrEmpty (l_DialerSource l);
  lw_acceptor : word (l_Acceptor l);
  lw_asrc : wordOrEmpty (l_AcceptorSource l);
  lw_flow : l_Dataflow l = toAcceptor ∨ l_Dataflow l = toDialer;
  lw_setter : wordOrEmpty (l_IDSetter l) ∧ "-"%char ∉ chars (l_IDSetter l);
  lw_proto : word (l_Protocol l);
  lw_port : 0 ≤ l_Port l < 2 ^ 63;
  lw_psk : l_PSK l = ""%string;
}.

Record branch_wf (cond : string) (b : Branch) : Prop := {
  bw_when : b_When b = (if String.eqb cond "default" then [] else [cond]);
  bw_egress : wordOrEmpty (b_Egress b);
  bw_up : Forall word (b_Up b);
  bw_down : Forall word (b_Down b);
  bw_gateway : b_Gateway b = ""%string;
}.

(** ** Lemmas *)

Lemma wordChar_not c : wordChar c = true →
  isSpace c = false ∧ c ≠ "("%char ∧ c ≠ ")"%char ∧ c ≠ ","%char ∧ c ≠ "."%char ∧ c ≠ "<"%char ∧ c ≠ ">"%char.
Proof.
  unfold wordChar. intros [H1 H2]%andb_prop. apply negb_true_iff in H1, H2. split; [done|].
  cbn [existsb] in H2. repeat (apply orb_false_elim in H2 as [?%bool_decide_eq_false H2]). done.
Qed.

Lemma words_not l d : Forall (λ c, wordChar c = true) l →
  d ∈ ["("; ")"; ","; "."; "<"; ">"]%char → d ∉ l.
Proof.
  intros Hl Hd Hin. eapply Forall_forall in Hl; [|exact Hin]. apply wordChar_not in Hl as (_&?&?&?&?&?&?).
  repeat (apply elem_of_cons in Hd as [?|Hd]; [done|]). by apply elem_of_nil in Hd.
Qed.

Lemma words_spaceless l : Forall (λ c, wordChar c = true) l → spaceless l.
Proof. intros H. eapply Forall_impl; [exact H|]. intros c Hc. by apply wordChar_not in Hc as [? _]. Qed.

Lemma bareOrFail_some flow m ids r :
  bareOrFail flow m ids = Some r ↔ r = (flow, m, ids) ∧ existsb arrowChar ids = false.
Proof. unfold bareOrFail. destruct (existsb _ _); split; [done|by intros [_ ?]|intros; by simplify_eq|by intros [-> _]]. Qed.

Lemma arrowChars l : existsb arrowChar l = false ↔
  ("<"%char ∉ l) ∧ (">"%char ∉ l) ∧ ("-"%char ∉ l) ∧ ("."%char ∉ l).
Proof.
  induction l as [|c l IH]; cbn [existsb].
  { split; [|done]. intros _. repeat split; apply not_elem_of_nil. }
  rewrite orb_false_iff, IH, !not_elem_of_cons. unfold arrowChar. rewrite !orb_false_iff, !bool_decide_eq_false.
  split; [intros [[[[? ?] ?] ?] (?&?&?&?)]|intros ([? ?]&[? ?]&[? ?]&[? ?])]; repeat split; done || congruence.
Qed.

Lemma cut_suffix1 (k : list ascii) a : take (length (k ++ [a]) - 1) (k ++ [a]) = k.
Proof. apply (cut_suffix k [a]). Qed.

Lemma cut_suffix2 (k : list ascii) a b : take (length (k ++ [a; b]) - 2) (k ++ [a; b]) = k.
Proof. apply (cut_suffix k [a; b]). Qed.

Lemma suffix_snoc (l : list ascii) a k b : [a] `suffix_of` (l ++ k ++ [b]) → a = b.
Proof. intros [j Hj]. rewrite app_assoc in Hj. apply app_inj_tail in Hj as [_ ->]. done. Qed.

Lemma parseArrow_render flow m ids :
  flow = toAcceptor ∨ flow = toDialer → existsb arrowChar ids = false →
  parseArrow (renderArrow flow m ids) = Some (flow, m, ids).
Proof.
  intros Hf Hb. pose proof Hb as (Hl & Hg & Hd & Hdot)%arrowChars.
  assert (bareOrFail flow m ids = Some (flow, m, ids)) as Hbf by (by apply bareOrFail_some).
  unfold parseArrow. destruct Hf as [-> | ->].
  + unfold renderArrow. rewrite String.eqb_refl. cbn [app].
    rewrite bool_decide_eq_true_2 by (right; apply elem_of_app; right; destruct m; left).
    destruct m.
    * rewrite bool_decide_eq_true_2 by (by exists ids). by rewrite cut_suffix2.
    * rewrite bool_decide_eq_false_2.
      2:{ intros [k Hk]. change [">"%char; ">"%char] with ([">"%char] ++ [">"%char]) in Hk. rewrite app_assoc in Hk.
          apply app_inj_tail in Hk as [-> _]. apply Hg, elem_of_app. right. left. }
      rewrite bool_decide_eq_true_2 by (by exists ids). by rewrite cut_suffix1.
  + unfold renderArrow. change (String.eqb toDialer toAcceptor) with false. cbv iota.
    rewrite bool_decide_eq_false_2.
    2:{ intros [Hin|[Hin|Hin]%elem_of_app]%elem_of_app.
        - destruct m; repeat (apply elem_of_cons in Hin as [?|Hin]; [done|]); by apply elem_of_nil in Hin.
        - done.
        - apply elem_of_cons in Hin as [?|Hin]; [done|]; by apply elem_of_nil in Hin. }
    rewrite bool_decide_eq_true_2 by (apply elem_of_app; left; destruct m; left).
    rewrite app_assoc. rewrite bool_decide_eq_true_2 by (by eexists).
    rewrite cut_suffix1. destruct m; [exact Hbf|]. cbn [app].
    destruct ids as [|c ids]; [exact Hbf|]. destruct (decide (c = "<"%char)) as [->|Hc]; [exfalso; apply Hl; left|].
    rewrite <- Hbf. by repeat case_match.
Qed.

(** An arrow parses to a direction, a multiplicity and an id-setter
    name exactly when it is the arrow written for them, the name being free of
    the arrow's own characters and of dots. *)
Theorem parseArrow_exact tok flow m ids :
  parseArrow tok = Some (flow, m, ids) ↔
  tok = renderArrow flow m ids ∧ (flow = toAcceptor ∨ flow = toDialer) ∧ existsb arrowChar ids = false.
Proof.
  split.
  - unfold parseArrow. case_bool_decide as Hgt; [|case_bool_decide as Hlt; [|done]].
    + destruct tok as [|c body]; [done|]. destruct (decide (c = "-"%char)) as [->|]; [|by repeat case_match].
      case_bool_decide as Hs; [|case_bool_decide as Hs'; [|done]].
      * destruct Hs as [k ->]. rewrite cut_suffix2.
        intros [H Hb]%bareOrFail_some. simplify_eq. split; [done|]. by split; [left|].
      * destruct Hs' as [k ->]. rewrite cut_suffix1.
        intros [H Hb]%bareOrFail_some. simplify_eq. split; [done|]. by split; [left|].
    + case_bool_decide as Hs; [|done]. destruct Hs as [k ->]. rewrite cut_suffix1.
      destruct k as [|c k]; [done|]. destruct (decide (c = "<"%char)) as [->|]; [|by repeat case_match].
      destruct k as [|c k].
      * intros [H Hb]%bareOrFail_some. simplify_eq. split; [done|]. by split; [right|].
      * destruct (decide (c = "<"%char)) as [->|Hc].
        -- intros [H Hb]%bareOrFail_some. simplify_eq. split; [done|]. by split; [right|].
        -- intros Hm. assert (bareOrFail toDialer false (c :: k) = Some (flow, m, ids)) as [H Hb]%bareOrFail_some
             by (rewrite <- Hm; by repeat case_match). simplify_eq. split; [done|]. by split; [right|].
  - intros (-> & Hf & Hb). by apply parseArrow_render.
Qed.

Lemma wordChar_arrow l : Forall (λ c, wordChar c = true) l → "-"%char ∉ l → existsb arrowChar l = false.
Proof. intros Hl Hd. apply arrowChars. repeat split; [..|done|]; (eapply words_not; [exact Hl|set_solver]). Qed.

Lemma trimSpace_word w : spaceless w → w ≠ [] → trimSpace w = w.
Proof. intros Hw Hn. pose proof (trimSpace_pad [] w [] ltac:(constructor) ltac:(constructor) Hw Hn) as H. by rewrite app_nil_r in H. Qed.

Lemma trimSpace_words w : Forall (λ c, wordChar c = true) w → trimSpace w = w.
Proof. intros Hw. destruct w as [|c w]; [done|]. apply trimSpace_word; [by apply words_spaceless|done]. Qed.

Lemma chars_empty s : chars s = [] ↔ s = ""%string.
Proof. split; [intros H; by apply chars_inj|by intros ->]. Qed.

Lemma spaceless_app a b : spaceless a → spaceless b → spaceless (a ++ b).
Proof. intros. by apply Forall_app. Qed.

Lemma splitNodeSource_render n s : word n → wordOrEmpty s → splitNodeSource (renderEnd n s) = (chars n, chars s).
Proof.
  intros [Hne Hn] Hs. unfold splitNodeSource, renderEnd. pose proof (words_not _ "."%char Hn ltac:(set_solver)) as Hdot.
  destruct (String.eqb_spec s "") as [->|Hse].
  - rewrite app_nil_r, trimSpace_words by done. by apply indexChar_None in Hdot as ->.
  - rewrite trimSpace_word.
    + cbn [app]. rewrite indexChar_app by done. rewrite take_app_length.
      replace (drop (S (length (chars n))) (chars n ++ "."%char :: chars s)) with (chars s).
      * by rewrite !trimSpace_words.
      * change ("."%char :: chars s) with (["."%char] ++ chars s). rewrite app_assoc, drop_app_exact; [done|]. rewrite length_app. cbn. lia.
    + apply spaceless_app; [by apply words_spaceless|]. apply (spaceless_app ["."%char]); [by repeat constructor|by apply words_spaceless].
    + intros [H _]%app_eq_nil. done.
Qed.

Lemma renderEnd_chars n s : word n → wordOrEmpty s → spaceless (renderEnd n s) ∧ renderEnd n s ≠ [] ∧ "("%char ∉ renderEnd n s.
Proof.
  intros [Hne Hn] Hs. unfold renderEnd. destruct (String.eqb_spec s "") as [->|Hse].
  - rewrite app_nil_r. split; [by apply words_spaceless|]. split; [done|]. eapply words_not; [done|set_solver].
  - split; [apply spaceless_app; [by apply words_spaceless|apply (spaceless_app ["."%char]); [by repeat constructor|by apply words_spaceless]]|].
    split; [by intros [H _]%app_eq_nil|]. pose proof (words_not _ "("%char Hn ltac:(set_solver)) as H1. pose proof (words_not _ "("%char Hs ltac:(set_solver)) as H2.
    intros [H|[H|H]%elem_of_app]%elem_of_app; [done| |done]. apply list_elem_of_singleton in H. done.
Qed.

Lemma renderArrow_chars flow m ids : Forall (λ c, wordChar c = true) ids →
  spaceless (renderArrow flow m ids) ∧ renderArrow flow m ids ≠ [] ∧ "("%char ∉ renderArrow flow m ids.
Proof.
  intros Hi. pose proof (words_not _ "("%char Hi ltac:(set_solver)) as Hp. apply words_spaceless in Hi.
  unfold renderArrow. destruct (String.eqb flow toAcceptor).
  - split; [apply (spaceless_app ["-"%char]); [by repeat constructor|apply spaceless_app; [done|destruct m; by repeat constructor]]|].
    split; [done|]. intros [H|[H|H]%elem_of_app]%elem_of_app; [set_solver|done|destruct m; set_solver].
  - split; [apply spaceless_app; [destruct m; by repeat constructor|apply spaceless_app; [done|by repeat constructor]]|].
    split; [by destruct m|]. intros [H|[H|H]%elem_of_app]%elem_of_app; [destruct m; set_solver|done|set_solver].
Qed.

Lemma digit_word c : isDigit c → wordChar c = true.
Proof. intros [d Hd]. destruct c as [[] [] [] [] [] [] [] []]; try (vm_compute in Hd; discriminate Hd); reflexivity. Qed.

Lemma itoa_words n : 0 ≤ n → Forall (λ c, wordChar c = true) (itoa n).
Proof. intros Hn. eapply Forall_impl; [by apply (itoaFrom_digits 19)|]. apply digit_word. Qed.

(** Claim C37.  Writing a link and parsing the line gives the link back: its two
    ends with the connections they bind, the direction, multiplicity and
    id-setter of its arrow, its protocol and its port. *)
Theorem link_roundtrip l : link_wf l → parseLink (l_Name l) (renderLink l) = Ok l.
Proof.
  intros [Hd Hds Ha Has Hf [Hi Hid] [Hpn Hp] Hport Hpsk].
  destruct (renderEnd_chars _ _ Hd Hds) as (Hd1 & Hd2 & Hd3). destruct (renderEnd_chars _ _ Ha Has) as (Ha1 & Ha2 & Ha3).
  destruct (renderArrow_chars (l_Dataflow l) (l_Multiple l) _ Hi) as (Hr1 & Hr2 & Hr3).
  set (e1 := renderEnd (l_Dialer l) (l_DialerSource l)) in *. set (e2 := renderEnd (l_Acceptor l) (l_AcceptorSource l)) in *.
  set (ar := renderArrow (l_Dataflow l) (l_Multiple l) (chars (l_IDSetter l))) in *.
  set (inner := chars (l_Protocol l) ++ [","%char; " "%char] ++ itoa (l_Port l)).
  set (head := e1 ++ " "%char :: ar ++ " "%char :: e2 ++ [" "%char]).
  assert (chars (renderLink l) = head ++ "("%char :: inner ++ [")"%char]) as Hc.
  { unfold renderLink, str. rewrite chars_unchars. fold e1 e2 ar. unfold head, inner. cbn [app]. rewrite <- !app_assoc. cbn [app].
    rewrite <- !app_assoc. cbn [app]. rewrite <- !app_assoc. done. }
  assert ("("%char ∉ head) as Hno.
  { unfold head. rewrite not_elem_of_app, not_elem_of_cons, not_elem_of_app, not_elem_of_cons, not_elem_of_app. set_solver. }
  unfold parseLink. rewrite Hc, (indexChar_app _ _ _ Hno). change ("("%char :: inner ++ [")"%char]) with (("("%char :: inner) ++ [")"%char]).
  rewrite app_assoc, lastIndexChar_snoc, <- app_assoc. cbn [app].
  destruct (_ <? _)%nat eqn:Hlt; unbool; [rewrite length_app in Hlt; cbn in Hlt; lia|]. clear Hlt. rewrite take_app_length.
  assert (fields head = [e1; ar; e2]) as ->.
  { unfold head. rewrite (fields_word e1), (fields_word ar), (fields_word e2) by done. done. }
  unfold ar at 1. rewrite parseArrow_render by (done || by apply wordChar_arrow).
  unfold e1, e2. rewrite !splitNodeSource_render by done.
  assert (∀ s, word s → notEmpty (chars s) = true) as Hne by (intros s [H _]; by destruct (chars s)).
  rewrite !Hne by done. cbn [negb orb].
  assert (take (length (head ++ "("%char :: inner) - S (length head)) (drop (S (length head)) (head ++ "("%char :: inner ++ [")"%char])) = inner) as ->.
  { change ("("%char :: inner ++ [")"%char]) with (["("%char] ++ inner ++ [")"%char]). rewrite app_assoc, drop_app_exact by (rewrite length_app; cbn; lia).
    rewrite length_app. cbn [length]. replace (_ - _)%nat with (length inner) by lia. apply take_app_length. }
  assert (splitTrim inner ","%char = [chars (l_Protocol l); itoa (l_Port l)]) as ->.
  { unfold splitTrim, inner. cbn [app]. rewrite splitOn_cons by (eapply words_not; [done|set_solver]).
    rewrite splitOn_last by (apply not_elem_of_cons; split; [done|]; eapply words_not; [apply itoa_words; lia|set_solver]).
    cbn [map]. rewrite (trimSpace_words (chars (l_Protocol l))) by done.
    pose proof (trimSpace_pad [" "%char] (itoa (l_Port l)) [] ltac:(by repeat constructor) ltac:(constructor)
      (words_spaceless _ (itoa_words (l_Port l) ltac:(lia))) (itoa_nonempty _)) as Ht. rewrite app_nil_r in Ht. cbn [app] in Ht. rewrite Ht.
    rewrite !filter_cons. pose proof (itoa_nonempty (l_Port l)). destruct (chars (l_Protocol l)), (itoa (l_Port l)); done. }
  unfold str. rewrite atoi_itoa by done. rewrite !unchars_chars. destruct l. cbn in *. by subst.
Qed.

Lemma splitTrim_space l sep : sep ≠ " "%char → splitTrim (" "%char :: l) sep = splitTrim l sep.
Proof.
  intros Hs. unfold splitTrim. cbn [splitOn]. rewrite bool_decide_eq_false_2 by congruence.
  destruct (splitOn sep l) as [|p ps] eqn:E; [|done]. exfalso. destruct l as [|c l]; [done|]. cbn in E.
  case_bool_decide; [done|]. by destruct (splitOn sep l).
Qed.

Lemma splitTrim_word w b l sep :
  sep ∉ w → sep ∉ b → spaceless w → w ≠ [] → Forall (λ c, isSpace c = true) b →
  splitTrim (w ++ b ++ sep :: l) sep = w :: splitTrim l sep.
Proof.
  intros Hw Hb Hsp Hn Hbs. unfold splitTrim. rewrite app_assoc, splitOn_cons by (rewrite not_elem_of_app; done).
  cbn [map]. pose proof (trimSpace_pad [] w b ltac:(constructor) Hbs Hsp Hn) as Ht. cbn [app] in Ht. rewrite Ht, filter_cons.
  by rewrite decide_True by (by destruct w).
Qed.

Lemma splitTrim_last w sep : sep ∉ w → spaceless w → w ≠ [] → splitTrim w sep = [w].
Proof.
  intros Hw Hsp Hn. unfold splitTrim. rewrite splitOn_last by done. cbn [map]. rewrite trimSpace_word, filter_cons by done.
  by rewrite decide_True by (by destruct w).
Qed.

Lemma word_token s : word s → spaceless (chars s) ∧ (">"%char ∉ chars s) ∧ isEgress (chars s) = false.
Proof.
  intros [Hn Hw]. split; [by apply words_spaceless|]. split; [eapply words_not; [exact Hw|set_solver]|].
  destruct (chars s) as [|c l]; [done|]. apply Forall_cons_1 in Hw as [Hc _]. apply wordChar_not in Hc as (_ & Hc & _).
  cbn. by repeat case_match.
Qed.

Lemma tokens_up us rest : Forall word us →
  splitTrim (concat (map (λ u, chars u ++ [" "%char; ">"%char; " "%char]) us) ++ rest) ">"%char =
  map chars us ++ splitTrim rest ">"%char.
Proof.
  induction 1 as [|u us Hu _ IH]; [done|]. cbn [map concat]. rewrite <- !app_assoc. cbn [app].
  change (chars u ++ " "%char :: ">"%char :: " "%char :: ?l) with (chars u ++ [" "%char] ++ ">"%char :: " "%char :: l).
  destruct (word_token u Hu) as (Hs & Hg & _). destruct Hu as [Hn _].
  rewrite (splitTrim_word (chars u) [" "%char]) by (done || by repeat constructor || set_solver).
  by rewrite splitTrim_space, IH.
Qed.

Lemma tokens_down w ds : spaceless w → w ≠ [] → ">"%char ∉ w → Forall word ds →
  splitTrim (w ++ concat (map (λ u, [" "%char; ">"%char; " "%char] ++ chars u) ds)) ">"%char = w :: map chars ds.
Proof.
  intros Hs Hn Hg Hds. revert w Hs Hn Hg. induction Hds as [|d ds Hd _ IH]; intros w Hs Hn Hg; cbn [map concat].
  - rewrite app_nil_r. by apply splitTrim_last.
  - cbn [app]. change (w ++ " "%char :: ">"%char :: " "%char :: ?l) with (w ++ [" "%char] ++ ">"%char :: " "%char :: l).
    destruct (word_token d Hd) as (Hsd & Hgd & _).
    rewrite (splitTrim_word w [" "%char]) by (done || by repeat constructor || set_solver).
    rewrite splitTrim_space by done. f_equal. apply IH; [done|by destruct Hd|done].
Qed.

Lemma egressIndex_found i us t ds :
  Forall (λ u, isEgress u = false) us → isEgress t = true → Forall (λ u, isEgress u = false) ds →
  egressIndex i None (us ++ t :: ds) = Ok (Some (i + length us)%nat).
Proof.
  intros Hu Ht Hd. revert i. induction Hu as [|u us Hu _ IH]; intros i; cbn [app egressIndex].
  - rewrite Ht. cbn [length]. rewrite Nat.add_0_r. generalize (S i). induction Hd as [|d ds Hd _ IH]; intros j; [done|].
    cbn [egressIndex]. by rewrite Hd.
  - rewrite Hu, IH. cbn [length]. do 2 f_equal. lia.
Qed.

Lemma map_str_chars l : map str (map chars l) = l.
Proof. induction l as [|s l IH]; [done|]. cbn [map]. rewrite IH. unfold str. by rewrite unchars_chars. Qed.

(** Writing a route and parsing the line gives the branch back, its
    up-links, egress and down-links in order, under the condition of its key
    ([default] standing for none). *)
Theorem branch_roundtrip cond b : branch_wf cond b → parseBranch cond (Some (renderRoute b)) = Ok b.
Proof.
  intros [Hw He Hu Hd Hg]. unfold parseBranch, renderRoute. cbv zeta.
  assert (∀ l, chars (str l) = l) as Hcs by apply chars_unchars. rewrite !Hcs.
  set (t := ["("%char] ++ chars (b_Egress b) ++ [")"%char]).
  assert (isEgress t = true) as Ht by (apply bool_decide_eq_true_2; by exists ("("%char :: chars (b_Egress b))).
  assert (spaceless t ∧ ">"%char ∉ t) as [Hts Htg].
  { unfold t. pose proof (words_not _ ">"%char He ltac:(set_solver)) as Hng. split; [|set_solver].
    apply (spaceless_app ["("%char]); [by repeat constructor|apply spaceless_app; [by apply words_spaceless|by repeat constructor]]. }
  assert (splitTrim (concat (map (λ u, chars u ++ [" "%char; ">"%char; " "%char]) (b_Up b)) ++ ["("%char] ++ chars (b_Egress b) ++ [")"%char] ++
     concat (map (λ u, [" "%char; ">"%char; " "%char] ++ chars u) (b_Down b))) ">"%char = map chars (b_Up b) ++ t :: map chars (b_Down b)) as Hts'.
  { rewrite tokens_up by done. f_equal. rewrite <- (tokens_down t) by done. unfold t. by rewrite <- !app_assoc. }
  rewrite Hts'. assert (∀ l, Forall word l → Forall (λ u, isEgress u = false) (map chars l)) as Hne.
  { intros l. induction 1 as [|s l Hs _ IH]; constructor; [by apply word_token|done]. }
  rewrite egressIndex_found by auto. destruct (map chars (b_Up b) ++ t :: map chars (b_Down b)) eqn:E.
  { by apply app_eq_nil in E as [_ ?]. }
  rewrite <- E. clear E Hts'. cbn [Nat.add]. rewrite take_app_length.
  assert (drop (S (length (map chars (b_Up b)))) (map chars (b_Up b) ++ t :: map chars (b_Down b)) = map chars (b_Down b)) as ->.
  { change (t :: map chars (b_Down b)) with ([t] ++ map chars (b_Down b)). rewrite app_assoc, drop_app_exact; [done|]. rewrite length_app. cbn. lia. }
  rewrite app_nth2, Nat.sub_diag by lia. cbn [nth].
  assert (take (length t - 2) (drop 1 t) = chars (b_Egress b)) as ->.
  { unfold t. cbn [app drop length]. rewrite length_app. cbn [length]. replace (_ - 2)%nat with (length (chars (b_Egress b))) by lia. apply take_app_length. }
  rewrite trimSpace_words, !map_str_chars by done. unfold str. rewrite unchars_chars, <- Hw. destruct b. cbn in *. by subst.
Qed.

(** ** Concrete lines *)

Definition demoLink : Link := MkLink "ka" "ktc" "alb" toDialer "udp-c4" 7002 "starlink" "" true "utun9" "".
Definition demoBranch : Branch := MkBranch ["iran"] "ftth" ["up1"; "up2"] ["down"] "".

Example link_lines :
  parseLink "ka" "ktc.starlink <<utun9- alb (udp-c4, 7002)" = Ok demoLink ∧
  parseLink "x" "a - b (p, 1)" = Err ErrArrow ∧ parseLink "x" "a->b (p, 1)" = Err ErrLinkFields ∧
  parseLink "x" "a -> b (p, q)" = Err ErrLinkPort ∧ parseLink "x" "a -> b (p)" = Err ErrLinkParams.
Proof. vm_compute. done. Qed.

Example route_lines :
  parseBranch "iran" (Some "up1 > up2 > (ftth) > down"%string) = Ok demoBranch ∧
  parseBranch "default" (Some "wan"%string) = Ok (MkBranch [] "wan" [] [] "") ∧
  parseBranch "c" (Some "up > wan"%string) = Err ErrRouteParens ∧ parseBranch "c" (Some "(a) > (b)"%string) = Err ErrRouteEgresses.
Proof. vm_compute. done. Qed.

Lemma link_roundtrip_witness : parseLink "ka" (renderLink demoLink) = Ok demoLink.
Proof.
  apply (link_roundtrip demoLink). split.
  1,3,7: split; [discriminate|repeat constructor].
  1,2: repeat constructor.
  - right. reflexivity.
  - split; [repeat constructor|]. cbn. intros H. repeat (apply elem_of_cons in H as [H|H]; [discriminate H|]). by apply elem_of_nil in H.
  - cbn. lia.
  - reflexivity.
Defined.

Lemma branch_roundtrip_witness : parseBranch "iran" (Some (renderRoute demoBranch)) = Ok demoBranch.
Proof.
  apply branch_roundtrip. split; [reflexivity|repeat constructor| | |reflexivity].
  - repeat (constructor; [split; [discriminate|repeat constructor]|]). constructor.
  - repeat (constructor; [split; [discriminate|repeat constructor]|]). constructor.
Defined.
