(* ===== verification/NetIp.v ===== *)
(** * Textual addresses: net/netip's [ParseAddr] and [ParsePrefix]

    Part of the Go standard library, modelled because the configuration rules
    rest on what it accepts.  Characters are bytes. *)

From S2P Require Import Prelude GoStrings.
Local Open Scope Z_scope.

Inductive netipAddr :=
| V4 (b : list Z)
| V6 (b : list Z) (zone : list ascii).

#[export] Instance netipAddr_eq_dec : EqDecision netipAddr.
Proof. solve_decision. Defined.

(** One octet of [parseIPv4Fields]: decimal, no leading zero, at most 255. *)
Definition octet (l : list ascii) : option Z :=
  match l with
  | [] => None
  | c :: l' =>
      if bool_decide (c = "0"%char) && negb (match l' with [] => true | _ => false end) then None
      else match digitsVal 0 l with Some v => if v <=? 255 then Some v else None | None => None end
  end.

Definition parseIPv4Fields (l : list ascii) : option (list Z) :=
  match splitOn "."%char l with
  | [a; b; c; d] =>
      match octet a, octet b, octet c, octet d with
      | Some a, Some b, Some c, Some d => Some [a; b; c; d]
      | _, _, _, _ => None
      end
  | _ => None
  end.

Definition hexDigitOf (c : ascii) : option Z :=
  let v := Z.of_N (N_of_ascii c) in
  if (48 <=? v) && (v <=? 57) then Some (v - 48)
  else if (97 <=? v) && (v <=? 102) then Some (v - 87)
  else if (65 <=? v) && (v <=? 70) then Some (v - 55)
  else None.

(** The hexadecimal digits at the head: how many, their value, what follows. *)
Fixpoint hexGroup (l : list ascii) (off : nat) (acc : Z) : nat * Z * list ascii :=
  match l with
  | c :: l' =>
      match hexDigitOf c with
      | Some d => hexGroup l' (S off) (acc * 16 + d)
      | None => (off, acc, l)
      end
  | [] => (off, acc, [])
  end.

(** [parseIPv6]'s loop: [ip] holds the bytes so far, [ellipsis] where the
    double colon was.  The result adds what was left over. *)
Fixpoint ipv6Loop (fuel : nat) (s : list ascii) (ip : list Z) (ellipsis : option nat)
    : option (list ascii * list Z * option nat) :=
  match fuel with
  | O => Some (s, ip, ellipsis)
  | S fuel' =>
      if (16 <=? length ip)%nat then Some (s, ip, ellipsis)
      else
        let '(off, acc, rest) := hexGroup s 0 0 in
        if (off =? 0)%nat || (4 <? off)%nat then None
        else match rest with
        | "."%char :: _ =>
            if bool_decide (ellipsis = None) && negb (length ip =? 12)%nat then None
            else if (12 <? length ip)%nat then None
            else match parseIPv4Fields s with
            | Some q => Some ([], ip ++ q, ellipsis)
            | None => None
            end
        | _ =>
            let ip := ip ++ [acc / 256; acc `mod` 256] in
            match rest with
            | [] => Some ([], ip, ellipsis)
            | ":"%char :: ((c :: s') as s1) =>
                if bool_decide (c = ":"%char) then
                  match ellipsis with
                  | Some _ => None
                  | None =>
                      match s' with
                      | [] => Some ([], ip, Some (length ip))
                      | _ => ipv6Loop fuel' s' ip (Some (length ip))
                      end
                  end
                else ipv6Loop fuel' s1 ip ellipsis
            | _ => None
            end
        end
  end.

Definition parseIPv6 (l : list ascii) : option netipAddr :=
  let '(s, zone, bad) :=
    match indexChar "%"%char l with
    | Some i => (take i l, drop (S i) l, bool_decide (drop (S i) l = []))
    | None => (l, [], false)
    end in
  if (bad : bool) then None
  else
    let '(s, ellipsis) :=
      match s with
      | ":"%char :: ":"%char :: s' => (s', Some O)
      | _ => (s, None)
      end in
    match s, ellipsis with
    | [], Some _ => Some (V6 (replicate 16 0) zone)
    | _, _ =>
        match ipv6Loop 8 s [] ellipsis with
        | Some ([], ip, e) =>
            if (length ip <? 16)%nat then
              match e with
              | None => None
              | Some i => Some (V6 (take i ip ++ replicate (16 - length ip) 0 ++ drop i ip) zone)
              end
            else match e with None => Some (V6 ip zone) | Some _ => None end
        | _ => None
        end
    end.

(** The first of dot, colon and percent decides the family. *)
Fixpoint family (l : list ascii) : option ascii :=
  match l with
  | [] => None
  | c :: l' =>
      if bool_decide (c = "."%char) || bool_decide (c = ":"%char) || bool_decide (c = "%"%char) then Some c
      else family l'
  end.

Definition ParseAddr (s : string) : option netipAddr :=
  let l := chars s in
  match family l with
  | Some "."%char => V4 <$> parseIPv4Fields l
  | Some ":"%char => parseIPv6 l
  | _ => None
  end.

Definition ParsePrefix (s : string) : option (netipAddr * Z) :=
  let l := chars s in
  match lastIndexChar "/"%char l with
  | None => None
  | Some i =>
      match ParseAddr (unchars (take i l)) with
      | None => None
      | Some ip =>
          let bits := drop (S i) l in
          let zoned := match ip with V6 _ (_ :: _) => true | _ => false end in
          let badForm := match bits with
            | c :: _ :: _ => let v := Z.of_N (N_of_ascii c) in negb ((49 <=? v) && (v <=? 57))
            | _ => false
            end in
          if zoned || badForm then None
          else match atoi (unchars bits) with
          | None => None
          | Some n =>
              let maxBits := match ip with V4 _ => 32 | V6 _ _ => 128 end in
              if (n <? 0) || (maxBits <? n) then None else Some (ip, n)
          end
      end
  end.

Definition validAddr (s : string) : bool := bool_decide (is_Some (ParseAddr s)).
Definition validPrefix (s : string) : bool := bool_decide (is_Some (ParsePrefix s)).

Example addresses :
  ParseAddr "10.9.0.2" = Some (V4 [10; 9; 0; 2]) ∧ ParseAddr "10.9.0" = None ∧ ParseAddr "10.9.0.256" = None ∧
  ParseAddr "10.9.0.01" = None ∧ ParseAddr "::" = Some (V6 (replicate 16 0) []) ∧
  ParseAddr "2001:db8::1" = Some (V6 ([0x20; 1; 0x0d; 0xb8] ++ replicate 11 0 ++ [1]) []) ∧
  ParseAddr "::ffff:1.2.3.4" = Some (V6 (replicate 10 0 ++ [255; 255; 1; 2; 3; 4]) []) ∧
  ParseAddr "1:2:3:4:5:6:7:8:9" = None ∧ ParseAddr "1:2:3:4:5:6:7::8" = None ∧ ParseAddr "1::2::3" = None ∧
  ParseAddr "fe80::1%eth0" = Some (V6 ([0xfe; 0x80] ++ replicate 13 0 ++ [1]) (chars "eth0")) ∧
  ParseAddr "1:2:3:4:5:6:7:" = None ∧ ParseAddr "12345::" = None ∧
  ParseAddr "1:2:3:4:5:6:7:8" = Some (V6 [0;1;0;2;0;3;0;4;0;5;0;6;0;7;0;8] []).
Proof. vm_compute. repeat split. Qed.

Example prefixes :
  ParsePrefix "10.9.0.0/24" = Some (V4 [10; 9; 0; 0], 24) ∧ ParsePrefix "10.9.0.0/33" = None ∧
  ParsePrefix "10.9.0.0/024" = None ∧ ParsePrefix "10.9.0.0" = None ∧ ParsePrefix "10.9.0.0/+4" = None ∧
  ParsePrefix "::/0" = Some (V6 (replicate 16 0) [], 0) ∧ ParsePrefix "fe80::%a/10" = None.
Proof. vm_compute. repeat split. Qed.
