(* ===== verification/Config.v ===== *)
(** * internal/config: a node's configuration and what makes it valid

    Validation errors are the format strings of the code's messages.  Go maps
    are iterated in the order of [map_to_list]; which of several errors is
    reported first may differ, whether there is one does not. *)

From S2P Require Import Prelude GoBytes GoStrings NetIp Wire Cipher.
Local Open Scope Z_scope.
Local Open Scope string_scope.
Local Open Scope go_scope.

(** ** config.go: the data *)

Record HTTPConfig := MkHTTPConfig {
  hc_UploadPath : string;
  hc_DownloadPath : string;
  hc_Host : string;
  hc_UserAgent : string;
  hc_IDHeader : string;
  hc_Headers : gmap string string;
}.

Record Connection := MkConnection {
  c_Name : string;
  c_Type : string;
  c_Interface : string;
  c_SourceIP : string;
  c_Direction : string;
  c_Transport : string;
  c_Port : Z;
  c_IP : string;
  c_Warpped : bool;
  c_Multiple : bool;
  c_IDSetter : string;
  c_PSK : string;
  c_Cipher : string;
  c_HTTP : option HTTPConfig;
  c_Address : string;
  c_CaptureDefault : bool;
  c_LANIface : string;
}.

Record Egress := MkEgress {
  e_Mode : string;
  e_ExtIface : string;
  e_Gateway : string;
  e_TunName : string;
  e_WARPConfig : string;
  e_WARPCache : string;
  e_WARPInsecure : bool;
}.

Record IPSet := MkIPSet { s_File : string; s_List : list string; s_Reload : Z }.

Record HealthcheckSpec := MkHealthcheckSpec {
  hs_Up : list string;
  hs_Tun : string;
  hs_Interval : Z;
  hs_Timeout : Z;
  hs_UpGrace : Z;
  hs_Links : list string;
}.

Record Condition := MkCondition {
  d_Name : string;
  d_DstIn : option IPSet;
  d_SrcIn : option IPSet;
  d_Healthcheck : option HealthcheckSpec;
}.

Record Forward := MkForward { f_When : list string; f_Egress : string }.

Record Match := MkMatch {
  m_Processed : option bool;
  m_Source : string;
  m_Conditions : list string;
}.
Record Action := MkAction { a_Egress : string; a_Target : string }.
Record Route := MkRoute { r_Match : Match; r_Action : Action }.

#[export] Instance Match_eq_dec : EqDecision Match.
Proof. solve_decision. Defined.
#[export] Instance Action_eq_dec : EqDecision Action.
Proof. solve_decision. Defined.
#[export] Instance Route_eq_dec : EqDecision Route.
Proof. solve_decision. Defined.

Record Node := MkNode {
  n_PSK : string;
  n_MTU : Z;
  n_Subnet : string;
  n_Connections : list Connection;
  n_Egresses : gmap string Egress;
  n_Conditions : list Condition;
  n_Routes : list Route;
  n_Datapath : string;
  n_Forward : list Forward;
  n_LANIfaces : list string;
  n_Healthcheck : option Z;
  n_HealthcheckTimeout : Z;
  n_HealthcheckUpGrace : Z;
  n_StatsFile : string;
  n_StatsInterval : Z;
  n_StatsMaxMB : Z;
}.

Definition DefaultMTU : Z := 1360.

Definition setCipher (c : Connection) (x : string) : Connection :=
  MkConnection (c_Name c) (c_Type c) (c_Interface c) (c_SourceIP c) (c_Direction c) (c_Transport c) (c_Port c) (c_IP c)
    (c_Warpped c) (c_Multiple c) (c_IDSetter c) (c_PSK c) x (c_HTTP c) (c_Address c) (c_CaptureDefault c) (c_LANIface c).

Definition defaultEgress (datapath name : string) (eg : Egress) : Egress :=
  let mode := if e_Mode eg =? "" then "kernel" else e_Mode eg in
  let tun := if (datapath =? "kernel") && (mode =? "warp") && (e_TunName eg =? "") then "warp-" +:+ name else e_TunName eg in
  MkEgress mode (e_ExtIface eg) (e_Gateway eg) tun (e_WARPConfig eg) (e_WARPCache eg) (e_WARPInsecure eg).

Definition Defaults (n : Node) : Node :=
  MkNode (n_PSK n)
    (if (n_MTU n =? 0)%Z then DefaultMTU else n_MTU n)
    (if n_Subnet n =? "" then "10.9.0.0/24" else n_Subnet n)
    (map (λ c, if c_Cipher c =? "" then setCipher c "none" else c) (n_Connections n))
    (map_imap (λ name eg, Some (defaultEgress (n_Datapath n) name eg)) (n_Egresses n))
    (n_Conditions n) (n_Routes n) (n_Datapath n) (n_Forward n) (n_LANIfaces n)
    (n_Healthcheck n) (n_HealthcheckTimeout n) (n_HealthcheckUpGrace n) (n_StatsFile n)
    (if (n_StatsInterval n =? 0)%Z then 10 else n_StatsInterval n)
    (if (n_StatsMaxMB n =? 0)%Z then 10 else n_StatsMaxMB n).

Definition ForArtifact (n : Node) : Node :=
  MkNode "" (n_MTU n) (n_Subnet n) (n_Connections n) (n_Egresses n) (n_Conditions n) (n_Routes n) (n_Datapath n)
    (n_Forward n) (n_LANIfaces n) (n_Healthcheck n) (n_HealthcheckTimeout n) (n_HealthcheckUpGrace n)
    (n_StatsFile n) (n_StatsInterval n) (n_StatsMaxMB n).

Definition EffectivePSK (c : Connection) (nodePSK : string) : string :=
  if negb (c_PSK c =? "") then c_PSK c else nodePSK.

Definition Key (c : Connection) (nodePSK : string) : list Z := KeyFromPSK (EffectivePSK c nodePSK).

(** ** validate.go *)

Definition vres (A : Type) : Type := res string A.

(** [for _, x := range xs { if err := f(x); err != nil { return err } }],
    threading what the loop accumulates. *)
Fixpoint rangeM {A S} (f : S → A → vres S) (s : S) (xs : list A) : vres S :=
  match xs with [] => Ok s | x :: xs' => let? s' := f s x in rangeM f s' xs' end.

Definition containsSlash (s : string) : bool := bool_decide ("/"%char ∈ chars s).

Definition validateIPToken (s : string) : vres () :=
  if containsSlash s then check? validPrefix s else "bad prefix"; Ok tt
  else check? validAddr s else "bad address"; Ok tt.

Definition ValidateIPSet (s : IPSet) (name : string) : vres () :=
  let hasFile := negb (s_File s =? "") in
  let hasList := (0 <? length (s_List s))%nat in
  check? negb (Bool.eqb hasFile hasList) else "condition must set exactly one of file / list";
  rangeM (λ _ e, validateIPToken e) tt (s_List s).

Definition validateTransport (c : Connection) : vres () :=
  check? (c_Transport c =? "http") || (c_Transport c =? "udp") || (c_Transport c =? "tcp") else "transport must be http, udp or tcp";
  match c_HTTP c with
  | None => Ok tt
  | Some h =>
      check? c_Transport c =? "http" else "http options but transport is not http";
      rangeM (λ _ p, check? (p =? "") || bool_decide (head (chars p) = Some "/"%char) else "http path must begin with /"; Ok tt)
        tt [hc_UploadPath h; hc_DownloadPath h]
  end.

(** The addresses seen on tuns, and the number of capturing tuns. *)
Definition connState : Type := list netipAddr * Z.

Definition validateConn (c : Connection) (st : connState) : vres connState :=
  let? _ := (if c_SourceIP c =? "" then Ok tt
    else check? negb (c_Type c =? "tun") else "tun must not set source_ip";
    validateIPToken (c_SourceIP c)) in
  if c_Type c =? "connect" then
    check? negb (c_IP c =? "") && (0 <? c_Port c)%Z else "connect needs ip and port";
    check? validAddr (c_IP c) else "connect bad ip";
    let? _ := validateTransport c in
    check? (c_Direction c =? "outgoing") || (c_Direction c =? "incoming") else "connect direction";
    check? negb (c_Multiple c) else "connect cannot be multiple";
    check? negb (c_Warpped c && negb (c_Transport c =? "http")) else "warpped requires transport http";
    check? (c_IDSetter c =? "") || (c_Direction c =? "incoming") else "id_setter is only valid on an incoming connection";
    check? c_LANIface c =? "" else "connect cannot set lan_iface";
    Ok st
  else if c_Type c =? "listen" then
    check? (0 <? c_Port c)%Z else "listen needs port";
    let? _ := validateTransport c in
    check? (c_Direction c =? "outgoing") || (c_Direction c =? "incoming") else "listen direction";
    check? (c_IP c =? "") && negb (c_Warpped c) && (c_IDSetter c =? "") && (c_LANIface c =? "")
      else "listen cannot set ip/warpped/id_setter/lan_iface";
    check? negb (c_Multiple c && negb (c_Direction c =? "outgoing")) else "multiple is only meaningful with direction outgoing";
    Ok st
  else if c_Type c =? "tun" then
    check? (c_Transport c =? "") && (c_Port c =? 0)%Z && (c_IP c =? "") && (c_Direction c =? "")
      else "tun must not set transport/port/ip/direction";
    check? bool_decide (c_HTTP c = None) else "tun must not set http options";
    let? addrs := (if c_Address c =? "" then Ok st.1
      else match ParseAddr (c_Address c) with
      | None => Err "tun bad address"
      | Some a => check? negb (bool_decide (a ∈ st.1)) else "tun address used by more than one tun"; Ok (a :: st.1)
      end) in
    let? captures := (if c_CaptureDefault c then
        check? negb (c_Address c =? "") else "capture_default but no address"; Ok (st.2 + 1)%Z
      else Ok st.2) in
    check? (c_LANIface c =? "") || c_CaptureDefault c else "lan_iface but not capture_default";
    Ok (addrs, captures)
  else Err "unknown type".

Definition validateEgresses (n : Node) : vres () :=
  rangeM (λ _ '(name, eg),
    check? negb (name =? "") else "an egress has no name";
    let? _ := (if (e_Mode eg =? "kernel") || (e_Mode eg =? "direct") then
        check? negb (e_ExtIface eg =? "") else "egress needs exit";
        check? negb ((e_Mode eg =? "kernel") && negb (e_Gateway eg =? "")) else "egress mode kernel must not set gateway";
        Ok tt
      else if e_Mode eg =? "warp" then
        check? (e_ExtIface eg =? "") && (e_Gateway eg =? "") && (e_TunName eg =? "") else "egress mode warp must not set exit/gateway/tun_name";
        Ok tt
      else Err "egress mode must be kernel, direct, or warp") in
    check? (e_Gateway eg =? "") || validAddr (e_Gateway eg) else "egress bad gateway";
    Ok tt) tt (map_to_list (n_Egresses n)).

Definition validateIfaceName (s : string) : vres () :=
  check? negb ((s =? "") || (15 <? String.length s)%nat) else "device name must be 1-15 characters";
  check? negb (existsb (λ c, bool_decide (c ∈ ["/"; " "; ascii_of_nat 9; ascii_of_nat 10]%char)) (chars s))
    else "device name must not contain '/' or whitespace";
  Ok tt.

(** The tun a healthcheck belongs to: its own, or the node's only one. *)
Fixpoint soleTun (cs : list Connection) (only : string) : vres string :=
  match cs with
  | [] => check? negb (only =? "") else "healthcheck needs a tun but the node has none"; Ok only
  | c :: cs' =>
      if c_Type c =? "tun" then
        check? only =? "" else "healthcheck needs an explicit tun (node has several)"; soleTun cs' (c_Name c)
      else soleTun cs' only
  end.

(** The kinds of the conditions so far and the healthchecks per tun. *)
Definition condState : Type := gmap string string * gmap string nat.

Definition validateCondition (n : Node) (names : gmap string Connection) (st : condState) (c : Condition) : vres condState :=
  let '(conds, healthTuns) := st in
  check? negb (d_Name c =? "") else "a condition has no name";
  check? bool_decide (conds !! d_Name c = None) else "duplicate condition name";
  check? bool_decide (d_SrcIn c = None) else "src_in is only valid on a kernel-datapath node";
  match d_DstIn c, d_Healthcheck c with
  | Some s, None =>
      let? _ := ValidateIPSet s (d_Name c) in Ok (<[d_Name c := "dst"]> conds, healthTuns)
  | None, Some hc =>
      match hs_Up hc with
      | [] => Err "healthcheck has no up-link path"
      | up0 :: _ =>
          match names !! up0 with
          | None => Err "healthcheck up[0] is not a connection"
          | Some via =>
              check? negb (c_Type via =? "tun") else "healthcheck up[0] must be a connect/listen, not a tun";
              check? c_Direction via =? "outgoing" else "healthcheck up[0] must be an outgoing (sending) connection";
              let? tun := (if hs_Tun hc =? "" then soleTun (n_Connections n) ""
                else match names !! hs_Tun hc with
                | Some t => check? c_Type t =? "tun" else "healthcheck tun must name a local tun"; Ok (hs_Tun hc)
                | None => Err "healthcheck tun must name a local tun"
                end) in
              let k := S (default O (healthTuns !! tun)) in
              check? (k <=? 1)%nat else "tun has more than one healthcheck condition";
              Ok (<[d_Name c := "health"]> conds, <[tun := k]> healthTuns)
          end
      end
  | _, _ => Err "must set exactly one of dst_in / healthcheck"
  end.

Definition validateConditions (n : Node) (names : gmap string Connection) : vres (gmap string string) :=
  let? st := rangeM (validateCondition n names) (∅, ∅) (n_Conditions n) in Ok st.1.

(** [names[x].Name == ""]: a missing key reads as the zero connection. *)
Definition noName (names : gmap string Connection) (x : string) : bool :=
  match names !! x with Some c => c_Name c =? "" | None => true end.

(** The body of the loop of [validateRoutes]. *)
Definition validateRoute (n : Node) (names : gmap string Connection) (conds : gmap string string) (r : Route) : vres () :=
  check? negb ((a_Target (r_Action r) =? "") || noName names (a_Target (r_Action r))) else "route targets unknown connection";
  check? (m_Source (r_Match r) =? "") || negb (noName names (m_Source (r_Match r))) else "route has unknown source";
  let? _ := (if a_Egress (r_Action r) =? "" then Ok tt
    else check? bool_decide (is_Some (n_Egresses n !! a_Egress (r_Action r))) else "route references unknown egress";
    check? bool_decide (m_Processed (r_Match r) = Some false) else "route cannot finalize an already-processed packet";
    Ok tt) in
  rangeM (λ _ cn,
    match conds !! cn with
    | None => Err "route references unknown condition"
    | Some kind =>
        check? negb ((kind =? "dst") && bool_decide (m_Processed (r_Match r) = Some true))
          else "route uses packet condition on a processed rule"; Ok tt
    end) tt (m_Conditions (r_Match r)).

Definition validateRoutes (n : Node) (names : gmap string Connection) (conds : gmap string string) : vres () :=
  rangeM (λ _ r, validateRoute n names conds r) tt (n_Routes n).

(** The loop over the connections: names so far, then [connState]. *)
Definition connStep (n : Node) (acc : gmap string Connection * connState) (c : Connection) : vres (gmap string Connection * connState) :=
  let '(names, st) := acc in
  check? negb (c_Name c =? "") else "a connection has no name";
  check? bool_decide (names !! c_Name c = None) else "duplicate connection name";
  check? negb (EffectivePSK c (n_PSK n) =? "") else "connection has no psk";
  check? is_ok (ParseName (c_Cipher c)) else "connection cipher";
  let? st := validateConn c st in
  Ok (<[c_Name c := c]> names, st).

Definition validateConnections (n : Node) : vres (gmap string Connection * connState) :=
  rangeM (connStep n) (∅, ([], 0)) (n_Connections n).

Definition validateUserspace (n : Node) : vres () :=
  check? (length (n_Forward n) =? 0)%nat && (length (n_LANIfaces n) =? 0)%nat else "forward/lan_ifaces are kernel-datapath only";
  check? negb (length (n_Connections n) =? 0)%nat else "no connections";
  let? acc := validateConnections n in
  let '(names, (_, captures)) := acc in
  check? negb (1 <? captures)%Z else "at most one tun may set capture_default";
  let? _ := rangeM (λ _ c,
    if c_IDSetter c =? "" then Ok tt
    else match names !! c_IDSetter c with
    | Some t => check? c_Type t =? "tun" else "id_setter must name a local tun"; Ok tt
    | None => Err "id_setter must name a local tun"
    end) tt (n_Connections n) in
  let? _ := validateEgresses n in
  let? conds := validateConditions n names in
  validateRoutes n names conds.

(** *** Kernel-datapath nodes *)

Definition validateKernelEgresses (n : Node) : vres (gmap string string) :=
  rangeM (λ wgDevs '(name, eg),
    let? wgDevs := (if e_Mode eg =? "kernel" then
        check? negb (e_ExtIface eg =? "") else "kernel node egress needs exit";
        check? (e_TunName eg =? "") && (e_WARPConfig eg =? "") && (e_WARPCache eg =? "") && negb (e_WARPInsecure eg)
          else "mode kernel must not set tun_name/warp_config/warp_cache/warp_insecure";
        Ok wgDevs
      else if e_Mode eg =? "warp" then
        check? negb (e_ExtIface eg =? "") else "mode warp needs exit";
        let? _ := validateIfaceName (e_TunName eg) in
        check? bool_decide (wgDevs !! e_TunName eg = None) else "egresses share WireGuard device";
        Ok (<[e_TunName eg := name]> wgDevs)
      else Err "kernel node egress mode must be kernel or warp") in
    check? (e_Gateway eg =? "") || validAddr (e_Gateway eg) else "kernel node egress bad gateway";
    Ok wgDevs) ∅ (map_to_list (n_Egresses n)).

Definition validateKernelCondition (conds : gmap string string) (c : Condition) : vres (gmap string string) :=
  check? negb (d_Name c =? "") else "a condition has no name";
  check? bool_decide (conds !! d_Name c = None) else "duplicate condition name";
  check? bool_decide (d_Healthcheck c = None) else "kernel node condition cannot use healthcheck";
  match d_DstIn c, d_SrcIn c with
  | Some s, None => let? _ := ValidateIPSet s (d_Name c) in Ok (<[d_Name c := "dst"]> conds)
  | None, Some s => let? _ := ValidateIPSet s (d_Name c) in Ok (<[d_Name c := "src"]> conds)
  | _, _ => Err "kernel node condition must set exactly one of dst_in / src_in"
  end.

(** One branch of [validateForward]: the phase (0 src_in, 1 dst_in, 2 default
    seen) and the number of defaults. *)
Definition forwardStep (n : Node) (conds : gmap string string) (st : Z * Z) (f : Forward) : vres (Z * Z) :=
  let '(phase, defaults) := st in
  check? negb (f_Egress f =? "") else "forward branch has no egress";
  check? bool_decide (is_Some (n_Egresses n !! f_Egress f)) else "forward branch references unknown egress";
  match f_When f with
  | [] => Ok (2, defaults + 1)%Z
  | w :: ws =>
      check? negb (phase =? 2)%Z else "forward branch comes after the default branch";
      check? bool_decide (ws = []) else "forward branch must name exactly one condition";
      match conds !! w with
      | None => Err "forward branch references unknown condition"
      | Some kind =>
          if kind =? "src" then check? negb (0 <? phase)%Z else "src_in must come before dst_in branches"; Ok (phase, defaults)
          else if kind =? "dst" then Ok (1, defaults)%Z
          else Ok (phase, defaults)
      end
  end.

Definition validateForward (n : Node) (conds : gmap string string) : vres () :=
  check? negb (length (n_Forward n) =? 0)%nat else "kernel node needs a forward policy";
  let? st := rangeM (forwardStep n conds) (0, 0)%Z (n_Forward n) in
  check? (st.2 =? 1)%Z else "kernel forward policy needs exactly one default branch";
  Ok tt.

Definition validateKernel (n : Node) : vres () :=
  check? (length (n_Connections n) =? 0)%nat else "kernel-datapath node must have no connections";
  check? (length (n_Routes n) =? 0)%nat else "kernel-datapath node must have no routes (use forward)";
  check? negb (size (n_Egresses n) =? 0)%nat else "kernel-datapath node needs at least one egress";
  let? _ := validateKernelEgresses n in
  let? conds := rangeM validateKernelCondition ∅ (n_Conditions n) in
  validateForward n conds.

Definition Validate (n : Node) : vres () :=
  check? (576 <=? n_MTU n)%Z && (n_MTU n <=? 9000)%Z else "mtu out of range";
  check? validPrefix (n_Subnet n) else "bad subnet";
  if (n_Datapath n =? "") || (n_Datapath n =? "userspace") then validateUserspace n
  else if n_Datapath n =? "kernel" then validateKernel n
  else Err "unknown datapath".

(** ** interfaces.go *)

Definition addName (out : list string) (name : string) : list string :=
  if (name =? "") || bool_decide (name ∈ out) then out else (out ++ [name])%list.

(** Go's string order: bytes, lexicographically. *)
Fixpoint strLe (a b : list ascii) : bool :=
  match a, b with
  | [], _ => true
  | _, [] => false
  | x :: a', y :: b' => if (N_of_ascii x =? N_of_ascii y)%N then strLe a' b' else (N_of_ascii x <? N_of_ascii y)%N
  end.

(** [sort.Strings], as insertion. *)
Fixpoint insertSorted (s : string) (l : list string) : list string :=
  match l with
  | [] => [s]
  | t :: l' => if strLe (chars s) (chars t) then s :: t :: l' else t :: insertSorted s l'
  end.
Definition sortStrings (l : list string) : list string := foldr insertSorted [] l.

Definition RequiredInterfaces (n : Node) : list string :=
  let out := fold_left (λ out c, addName out (if c_Type c =? "tun" then c_LANIface c else c_Interface c)) (n_Connections n) [] in
  let out := fold_left (λ out kv, addName out (e_ExtIface kv.2)) (map_to_list (n_Egresses n)) out in
  let out := fold_left addName (n_LANIfaces n) out in
  sortStrings out.

(** ** Specifications *)

Definition named (names : gmap string Connection) (x : string) : Prop := ∃ c, names !! x = Some c.

(** The index the validation builds. *)
Definition nameMap (cs : list Connection) : gmap string Connection :=
  fold_left (λ m c, <[c_Name c := c]> m) cs ∅.

(** A route the router can be built from: its connections, its egress and its
    conditions exist; it finalizes unprocessed packets only, and does not test a
    packet condition on processed ones. *)
Record route_ok (n : Node) (names : gmap string Connection) (conds : gmap string string) (r : Route) : Prop := {
  ro_target : named names (a_Target (r_Action r));
  ro_source : m_Source (r_Match r) = "" ∨ named names (m_Source (r_Match r));
  ro_egress : a_Egress (r_Action r) = "" ∨
    is_Some (n_Egresses n !! a_Egress (r_Action r)) ∧ m_Processed (r_Match r) = Some false;
  ro_conds : ∀ cn, cn ∈ m_Conditions (r_Match r) →
    ∃ kind, conds !! cn = Some kind ∧ (kind = "dst" → m_Processed (r_Match r) ≠ Some true);
}.

(** A kernel forwarding policy: source rules, then destination rules, then the
    default, each to an egress of the node. *)
Definition branch_to (n : Node) (f : Forward) : Prop := f_Egress f ≠ "" ∧ is_Some (n_Egresses n !! f_Egress f).
Definition branch_on (conds : gmap string string) (kind : string) (f : Forward) : Prop :=
  ∃ w, f_When f = [w] ∧ conds !! w = Some kind.

Definition policy (n : Node) (conds : gmap string string) (fs : list Forward) : Prop :=
  Forall (branch_to n) fs ∧
  ∃ srcs dsts d, fs = (srcs ++ dsts ++ [d])%list ∧ Forall (branch_on conds "src") srcs ∧
    Forall (branch_on conds "dst") dsts ∧ f_When d = [].

(** ** Lemmas *)

Lemma rangeM_inv {A S} (f : S → A → vres S) (P : S → Prop) xs s s' :
  (∀ s x s', x ∈ xs → P s → f s x = Ok s' → P s') → P s → rangeM f s xs = Ok s' → P s'.
Proof.
  revert s. induction xs as [|x xs IH]; intros s Hf Hs H; cbn [rangeM] in H; [by simplify_eq|].
  apply res_bind_ok in H as (s1 & H1 & H). eapply (IH s1); [|by eapply Hf; [left|..]|done].
  intros t y t' Hy. apply Hf. by right.
Qed.

Lemma rangeM_snoc {A S} (f : S → A → vres S) xs x s s' :
  rangeM f s (xs ++ [x])%list = Ok s' → ∃ t, rangeM f s xs = Ok t ∧ f t x = Ok s'.
Proof.
  revert s. induction xs as [|y xs IH]; intros s H; cbn [app rangeM] in H; apply res_bind_ok in H as (t & Ht & H).
  - injection H as <-. by exists s.
  - destruct (IH t H) as (u & Hu & Hx). exists u. cbn [rangeM]. by rewrite Ht.
Qed.

(** What a step establishes for its element, and later steps keep. *)
Lemma rangeM_reaches {A S} (f : S → A → vres S) (Q : A → S → Prop) xs s s' :
  (∀ s x s', x ∈ xs → f s x = Ok s' → Q x s') →
  (∀ s x s' y, x ∈ xs → f s x = Ok s' → Q y s → Q y s') →
  rangeM f s xs = Ok s' → ∀ x, x ∈ xs → Q x s'.
Proof.
  revert s. induction xs as [|x xs IH]; intros s Hf Hk H y Hy; [by apply elem_of_nil in Hy|]. cbn [rangeM] in H.
  apply res_bind_ok in H as (s1 & H1 & H). apply elem_of_cons in Hy as [->|Hy].
  - eapply (rangeM_inv f (Q x) xs s1); [|by eapply Hf; [left|]|done]. intros t z t' Hz Ht Hft. eapply Hk; [by right|done|done].
  - eapply (IH s1); [| |done|done]; [intros t z t' Hz; apply Hf; by right|intros t z t' w Hz; apply Hk; by right].
Qed.

Lemma rangeM_split {A S} (f : S → A → vres S) xs ys s s' :
  rangeM f s (xs ++ ys)%list = Ok s' → ∃ t, rangeM f s xs = Ok t ∧ rangeM f t ys = Ok s'.
Proof.
  revert s. induction xs as [|x xs IH]; intros s H; cbn [app rangeM] in *; [by exists s|]. apply res_bind_ok in H as (t & Ht & H).
  destruct (IH t H) as (u & Hu & Hy). exists u. by rewrite Ht.
Qed.

(** An invariant that speaks of the elements already processed. *)
Lemma rangeM_prefix {A S} (f : S → A → vres S) (P : list A → S → Prop) xs s s' :
  (∀ seen s x s', P seen s → f s x = Ok s' → P (seen ++ [x])%list s') → P [] s → rangeM f s xs = Ok s' → P xs s'.
Proof.
  intros Hf. enough (∀ seen s, P seen s → rangeM f s xs = Ok s' → P (seen ++ xs)%list s') as H by (intros Hs; exact (H [] s Hs)).
  clear s. induction xs as [|x xs IH]; intros seen s Hs H; cbn [rangeM] in H; [simplify_eq; by rewrite app_nil_r|].
  apply res_bind_ok in H as (t & Ht & H). specialize (IH (seen ++ [x])%list t). rewrite <- app_assoc in IH. apply IH; [by eapply Hf|done].
Qed.

Lemma insertSorted_perm s l : insertSorted s l ≡ₚ s :: l.
Proof.
  induction l as [|t l IH]; cbn [insertSorted]; [done|]. destruct (strLe _ _); [done|]. rewrite IH. apply Permutation_swap.
Qed.

Lemma sortStrings_perm l : sortStrings l ≡ₚ l.
Proof. induction l as [|s l IH]; [done|]. cbn. by rewrite insertSorted_perm, IH. Qed.

Lemma rangeM_each {A} (f : () → A → vres ()) (P : A → Prop) xs :
  (∀ x, f tt x = Ok tt ↔ P x) → rangeM f tt xs = Ok tt ↔ Forall P xs.
Proof.
  intros Hf. induction xs as [|x xs IH]; cbn [rangeM]; [by split|]. rewrite Forall_cons, <- IH, <- Hf.
  destruct (f tt x) as [[]|e]; cbn [res_bind]; [tauto|]. split; [done|by intros [? _]].
Qed.

Lemma eqb_empty s : (s =? "") = true ↔ s = "".
Proof. apply String.eqb_eq. Qed.
Lemma eqb_set s : (s =? "") = false ↔ s ≠ "".
Proof. apply String.eqb_neq. Qed.

Lemma noName_false names x : (∀ k c, names !! k = Some c → c_Name c = k) → x ≠ "" → noName names x = false ↔ named names x.
Proof.
  intros Hn Hx. unfold noName, named. destruct (names !! x) as [c|] eqn:E.
  - apply Hn in E. rewrite E. split; [by eexists|]. intros _. by apply eqb_set.
  - split; [done|by intros [c ?]].
Qed.

Lemma noName_empty names : (∀ k c, names !! k = Some c → c_Name c = k) → noName names "" = true.
Proof.
  intros Hn. unfold noName. destruct (names !! "") as [c|] eqn:E; [|done]. apply Hn in E. by rewrite E.
Qed.


(** The keys of the index are the connections' names. *)
Definition keyed (names : gmap string Connection) : Prop := ∀ k c, names !! k = Some c → c_Name c = k ∧ k ≠ "".

Lemma noName_spec names x : keyed names → x ≠ "" → noName names x = false ↔ named names x.
Proof.
  intros Hk Hx. apply noName_false; [|done]. intros k c H. by apply Hk in H as [? _].
Qed.

Lemma check_ok {A} (b : bool) (e : string) (k : vres A) a : (if b then k else Err e) = Ok a ↔ b = true ∧ k = Ok a.
Proof. destruct b; [tauto|]. split; [done|by intros [? _]]. Qed.

Lemma validateRoute_spec n names conds r : keyed names → validateRoute n names conds r = Ok tt ↔ route_ok n names conds r.
Proof.
  intros Hk. unfold validateRoute. rewrite !check_ok.
  assert (∀ a, negb ((a =? "") || noName names a) = true ↔ named names a) as Ht.
  { intros a. rewrite negb_true_iff, orb_false_iff. destruct (String.eqb_spec a "") as [->|Ha].
    - split; [by intros [? _]|]. intros [c Hc]. by apply Hk in Hc as [_ ?].
    - rewrite noName_spec by done. tauto. }
  assert (∀ a, (a =? "") || negb (noName names a) = true ↔ a = "" ∨ named names a) as Hs.
  { intros a. rewrite orb_true_iff, eqb_empty, negb_true_iff. destruct (decide (a = "")) as [->|Ha]; [tauto|].
    by rewrite noName_spec. }
  rewrite Ht, Hs.
  assert (∀ a k, res_bind (if a_Egress a =? "" then Ok tt
      else if bool_decide (is_Some (n_Egresses n !! a_Egress a)) then
        (if bool_decide (m_Processed (r_Match r) = Some false) then Ok tt else Err "route cannot finalize an already-processed packet")
      else Err "route references unknown egress") (λ _ : (), k) = Ok tt ↔
    (a_Egress a = "" ∨ is_Some (n_Egresses n !! a_Egress a) ∧ m_Processed (r_Match r) = Some false) ∧ k = (Ok tt : vres ())) as He.
  { intros a k. destruct (String.eqb_spec (a_Egress a) "") as [Ha|Ha]; [cbn; tauto|].
    repeat case_bool_decide; cbn; intuition congruence. }
  rewrite He, (rangeM_each _ (λ cn, ∃ kind, conds !! cn = Some kind ∧ (kind = "dst" → m_Processed (r_Match r) ≠ Some true))).
  2:{ intros cn. destruct (conds !! cn) as [kind|]; [|split; [done|by intros (? & ? & _)]]. rewrite check_ok, negb_true_iff, andb_false_iff.
      rewrite String.eqb_neq, bool_decide_eq_false. split.
      - intros [H _]. exists kind. split; [done|]. intros ->. by destruct H.
      - intros (k & Hk' & H). simplify_eq. split; [|done]. destruct (decide (k = "dst")); auto. }
  rewrite Forall_forall. split.
  - intros (H1 & H2 & H3 & H4). by split.
  - intros [H1 H2 H3 H4]. repeat split; done.
Qed.

Lemma forwardStep_default n conds phase defaults f s :
  f_When f = [] → forwardStep n conds (phase, defaults) f = Ok s ↔ branch_to n f ∧ s = (2, defaults + 1)%Z.
Proof.
  intros Hw. unfold forwardStep, branch_to. rewrite Hw, !check_ok, negb_true_iff, eqb_set, bool_decide_eq_true. 
  split; [intros (?&?&?)|intros [[? ?] ->]]; by simplify_eq.
Qed.

(** After the default no conditional branch is accepted. *)
Lemma forward_closed n conds fs defaults s :
  rangeM (forwardStep n conds) (2, defaults)%Z fs = Ok s → (s.2 = 1 → 1 ≤ defaults → fs = [] ∧ defaults = 1)%Z ∧ (defaults ≤ s.2)%Z.
Proof.
  revert defaults. induction fs as [|f fs IH]; intros defaults Hr; cbn [rangeM] in Hr.
  - simplify_eq. cbn. split; [intros; by split|lia].
  - destruct (f_When f) as [|w ws] eqn:Hw.
    + destruct (forwardStep n conds (2, defaults)%Z f) as [s1|] eqn:Hs; [|done].
      apply forwardStep_default in Hs as [_ ->]; [|done]. cbn [res_bind] in Hr. apply IH in Hr as [H1 H2].
      split; [|lia]. intros He Hd. lia.
    + unfold forwardStep in Hr. rewrite Hw in Hr. destruct (negb _); [|done]. by destruct (bool_decide _).
Qed.

(** The branches still to come when the phase is [phase]: [policy], without
    source rules once a destination rule was seen. *)
Lemma forward_from n conds phase fs :
  (∀ w k, conds !! w = Some k → k = "src" ∨ k = "dst") → (phase = 0 ∨ phase = 1)%Z →
  (∃ s, rangeM (forwardStep n conds) (phase, 0)%Z fs = Ok s ∧ s.2 = 1%Z) ↔
  Forall (branch_to n) fs ∧
  ∃ srcs dsts d, fs = (srcs ++ dsts ++ [d])%list ∧ Forall (branch_on conds "src") srcs ∧
    Forall (branch_on conds "dst") dsts ∧ f_When d = [] ∧ (phase = 1%Z → srcs = []).
Proof.
  intros Hk. revert phase. induction fs as [|f fs IH]; intros phase Hp.
  { split; [intros (s & Hs & H1); cbn in Hs; by simplify_eq|]. intros (_ & srcs & dsts & d & He & _). by destruct srcs, dsts. }
  assert (∀ st, forwardStep n conds (phase, 0)%Z f = Ok st →
    branch_to n f ∧ (f_When f = [] ∧ st = (2, 1)%Z ∨ branch_on conds "src" f ∧ phase = 0%Z ∧ st = (0, 0)%Z ∨ branch_on conds "dst" f ∧ st = (1, 0)%Z)) as Hstep.
  { intros st. destruct (f_When f) as [|w ws] eqn:Hw.
    - rewrite forwardStep_default by done. intros [Hb ->]. split; [done|by left].
    - unfold forwardStep. rewrite Hw, !check_ok, negb_true_iff, eqb_set, bool_decide_eq_true. intros (H1 & H2 & _ & H4 & H).
      apply bool_decide_eq_true in H4 as ->. split; [done|]. destruct (conds !! w) as [k|] eqn:Hc; [|done].
      destruct (Hk _ _ Hc) as [-> | ->]; cbn in H.
      + right. left. destruct (0 <? phase)%Z eqn:H0; [done|]. unbool. cbn in H. simplify_eq. assert (phase = 0)%Z as -> by lia. split; [by exists w|done].
      + right. right. simplify_eq. split; [by exists w|done]. }
  assert (∀ kind, branch_to n f → branch_on conds kind f → (kind = "src" → phase = 0%Z) → kind = "src" ∨ kind = "dst" →
    forwardStep n conds (phase, 0)%Z f = Ok (if kind =? "src" then (0, 0)%Z else (1, 0)%Z)) as Hback.
  { intros kind [H1 H2] (w & Hw & Hc) Hp0 Hkind. unfold forwardStep. rewrite Hw, Hc, !check_ok, negb_true_iff, eqb_set, !bool_decide_eq_true.
    assert (negb (phase =? 2) = true)%Z as Hp2 by (destruct Hp as [-> | ->]; done). repeat split; try done.
    destruct Hkind as [-> | ->]; cbn; [|done]. by rewrite Hp0. }
  cbn [rangeM]. split.
  - intros (s & Hs & H1). destruct (forwardStep n conds (phase, 0)%Z f) as [st|] eqn:Hst; [|done]. cbn [res_bind] in Hs.
    destruct (Hstep st eq_refl) as (Hb & [[Hw ->]|[(Hon & -> & ->)|[Hon ->]]]).
    + destruct (forward_closed _ _ _ _ _ Hs) as [Hcl _]. destruct (Hcl H1 ltac:(lia)) as [-> _].
      split; [constructor; [done|constructor]|]. exists [], [], f. by repeat split.
    + pose proof (ex_intro (λ s, rangeM (forwardStep n conds) _ fs = Ok s ∧ s.2 = 1%Z) s (conj Hs H1)) as Hex. clear Hs.
      apply IH in Hex as (Hall & srcs & dsts & d & -> & Hs & Hd & Hw & _); [|by left].
      split; [by constructor|]. exists (f :: srcs), dsts, d. repeat split; try done. by constructor.
    + pose proof (ex_intro (λ s, rangeM (forwardStep n conds) _ fs = Ok s ∧ s.2 = 1%Z) s (conj Hs H1)) as Hex. clear Hs.
      apply IH in Hex as (Hall & srcs & dsts & d & -> & Hs & Hd & Hw & Hsrc); [|by right].
      rewrite (Hsrc eq_refl). split; [constructor; [done|]; by rewrite (Hsrc eq_refl) in Hall|].
      exists [], (f :: dsts), d. split; [done|]. split; [done|]. split; [by constructor|]. by split.
  - intros (Hall & srcs & dsts & d & He & Hs & Hd & Hw & Hsrc). apply Forall_cons_1 in Hall as [Hb Hall].
    destruct srcs as [|src srcs]; cbn in He.
    + destruct dsts as [|dst dsts]; cbn in He; injection He as -> ->.
      * exists (2, 1)%Z. by rewrite (proj2 (forwardStep_default n conds phase 0 d (2, 1)%Z Hw) (conj Hb eq_refl)).
      * apply Forall_cons_1 in Hd as [Hd1 Hd]. rewrite (Hback "dst" Hb Hd1 ltac:(done) ltac:(by right)). cbn [res_bind String.eqb Ascii.eqb Bool.eqb].
        apply IH; [by right|]. split; [done|]. exists [], dsts, d. by repeat split.
    + injection He as -> ->. apply Forall_cons_1 in Hs as [Hs1 Hs]. assert (phase = 0)%Z as -> by (destruct Hp as [?|Hp1]; [done|by apply Hsrc in Hp1]).
      rewrite (Hback "src" Hb Hs1 ltac:(done) ltac:(by left)). cbn [res_bind String.eqb Ascii.eqb Bool.eqb].
      apply IH; [by left|]. split; [done|]. exists srcs, dsts, d. by repeat split.
Qed.

Definition kinds_ok (conds : gmap string string) : Prop := ∀ w k, conds !! w = Some k → k = "src" ∨ k = "dst".

Lemma kernelConditions_kinds m cs m' : rangeM validateKernelCondition m cs = Ok m' → kinds_ok m → kinds_ok m'.
Proof.
  revert m. induction cs as [|c cs IH]; intros m Hr Hm; cbn [rangeM] in Hr; [by simplify_eq|].
  apply res_bind_ok in Hr as (m1 & Hc & Hr). apply (IH m1 Hr). clear IH Hr. unfold validateKernelCondition in Hc.
  rewrite !check_ok in Hc. destruct Hc as (_ & _ & _ & Hc).
  assert (∀ k, k = "src" ∨ k = "dst" → kinds_ok (<[d_Name c := k]> m)) as Hins.
  { intros k Hk w k' [[_ <-]|[_ H]]%lookup_insert_Some; [done|by eapply Hm]. }
  destruct (d_DstIn c), (d_SrcIn c); try done; apply res_bind_ok in Hc as (? & _ & Hc); simplify_eq; apply Hins; auto.
Qed.

Lemma policy_exact n conds :
  rangeM validateKernelCondition ∅ (n_Conditions n) = Ok conds →
  validateForward n conds = Ok tt ↔ policy n conds (n_Forward n).
Proof.
  intros Hc. apply kernelConditions_kinds in Hc as Hk; [|intros w k; by rewrite lookup_empty].
  unfold validateForward, policy. rewrite check_ok, negb_true_iff, Nat.eqb_neq.
  pose proof (forward_from n conds 0 (n_Forward n) Hk (or_introl eq_refl)) as Hf. split.
  - intros [_ H]. apply res_bind_ok in H as (s & Hs & H). rewrite check_ok, Z.eqb_eq in H. destruct H as [H1 _].
    destruct (proj1 Hf (ex_intro _ s (conj Hs H1))) as (Hall & srcs & dsts & d & He & H). split; [done|].
    exists srcs, dsts, d. tauto.
  - intros (Hall & srcs & dsts & d & He & Hs & Hd & Hw). split.
    { rewrite He, !length_app. cbn. lia. }
    assert (∃ s, rangeM (forwardStep n conds) (0, 0)%Z (n_Forward n) = Ok s ∧ s.2 = 1%Z) as (s & -> & H1).
    { apply Hf. split; [done|]. exists srcs, dsts, d. done. }
    cbn [res_bind]. by rewrite H1.
Qed.

(** A kernel node's forwarding policy is accepted exactly when it is
    source rules, then destination rules, then one default rule, each naming one
    known condition of its kind and an egress of the node: the fixed precedence
    the kernel gives the rules they become. *)
Theorem forward_policy_exact n conds :
  rangeM validateKernelCondition ∅ (n_Conditions n) = Ok conds →
  validateForward n conds = Ok tt ↔ policy n conds (n_Forward n).
Proof. apply policy_exact. Qed.

(** What a tun contributes to the checks across connections. *)
Definition tunAddr (c : Connection) : option netipAddr :=
  if (c_Type c =? "tun") && negb (c_Address c =? "") then ParseAddr (c_Address c) else None.
Definition captures (c : Connection) : bool := (c_Type c =? "tun") && c_CaptureDefault c.

(** The state of the loop after a prefix of the connections. *)
Record conns_ok (n : Node) (cs : list Connection) (acc : gmap string Connection * connState) : Prop := {
  ko_keyed : keyed acc.1;
  ko_names : ∀ x c, acc.1 !! x = Some c ↔ c ∈ cs ∧ c_Name c = x;
  ko_nodup : NoDup (map c_Name cs);
  ko_psk : Forall (λ c, EffectivePSK c (n_PSK n) ≠ "" ∧ is_ok (ParseName (c_Cipher c)) = true) cs;
  ko_addrs : acc.2.1 = rev (omap tunAddr cs) ∧ NoDup acc.2.1;
  ko_captures : acc.2.2 = Z.of_nat (length (base.filter captures cs));
}.

Lemma validateConn_state c st st' : validateConn c st = Ok st' →
  match tunAddr c with Some a => (a ∉ st.1) ∧ st'.1 = a :: st.1 | None => st'.1 = st.1 end ∧
  st'.2 = (st.2 + if captures c then 1 else 0)%Z.
Proof.
  intros H. unfold validateConn in H. apply res_bind_ok in H as (_ & _ & H). unfold tunAddr, captures.
  destruct (c_Type c =? "connect") eqn:E1.
  { apply String.eqb_eq in E1. rewrite E1. change ("connect" =? "tun") with false. cbn [andb].
    rewrite !check_ok in H. destruct H as (_ & _ & H). apply res_bind_ok in H as (_ & _ & H). rewrite !check_ok in H.
    destruct H as (_&_&_&_&_&H). simplify_eq. split; [done|lia]. }
  destruct (c_Type c =? "listen") eqn:E2.
  { apply String.eqb_eq in E2. rewrite E2. change ("listen" =? "tun") with false. cbn [andb].
    rewrite !check_ok in H. destruct H as (_ & H). apply res_bind_ok in H as (_ & _ & H). rewrite !check_ok in H.
    destruct H as (_&_&_&H). simplify_eq. split; [done|lia]. }
  destruct (c_Type c =? "tun"); [|done]. cbn [andb]. rewrite !check_ok in H. destruct H as (_ & _ & H).
  apply res_bind_ok in H as (addrs & Ha & H). apply res_bind_ok in H as (caps & Hc & H). rewrite check_ok in H. destruct H as [_ H].
  simplify_eq. cbn [fst snd]. split.
  - destruct (c_Address c =? ""); cbn [negb]; [by simplify_eq|]. destruct (ParseAddr (c_Address c)) as [a|]; [|done].
    rewrite check_ok, negb_true_iff, bool_decide_eq_false in Ha. destruct Ha as [Ha ?]. by simplify_eq.
  - destruct (c_CaptureDefault c); [|simplify_eq; lia]. rewrite check_ok in Hc. destruct Hc as [_ Hc]. by simplify_eq.
Qed.

Lemma connStep_ok n cs acc c acc' : conns_ok n cs acc → connStep n acc c = Ok acc' → conns_ok n (cs ++ [c]) acc'.
Proof.
  destruct acc as [names st]. intros [Hk Hn Hnd Hp [Ha Had] Hc] H. cbn [fst snd] in *. unfold connStep in H.
  rewrite !check_ok, !negb_true_iff, !eqb_set, bool_decide_eq_true in H. destruct H as (H1 & H2 & H3 & H4 & H).
  apply res_bind_ok in H as (st' & Hst & H). simplify_eq. apply validateConn_state in Hst as [Hs1 Hs2].
  split; cbn [fst snd].
  - intros k c' [[<- <-]|[_ H]]%lookup_insert_Some; [done|by apply Hk].
  - intros x c'. rewrite lookup_insert_Some, elem_of_app, list_elem_of_singleton. split.
    + intros [[<- <-]|[Hne H]]; [split; [by right|done]|]. apply Hn in H as [? ?]. split; [by left|done].
    + intros [[Hin | ->] Hx]; [right|by left]. assert (names !! x = Some c') as Hl by (by apply Hn). split; [|done]. intros <-. congruence.
  - rewrite map_app. apply NoDup_app. split; [done|]. split; [|apply NoDup_singleton].
    intros x Hx Hx'. apply list_elem_of_singleton in Hx' as ->. apply list_elem_of_fmap in Hx as (c' & Hx & Hin).
    assert (names !! c_Name c = Some c') as Hl by (by apply Hn). congruence.
  - apply Forall_app. split; [done|]. by repeat constructor.
  - rewrite omap_app, rev_app_distr. cbn [omap list_omap]. destruct (tunAddr c) as [a|].
    + destruct Hs1 as [Hnot ->]. split; [by rewrite Ha|]. constructor; [done|]. done.
    + by rewrite Hs1.
  - rewrite Hs2, Hc, filter_app, length_app, filter_cons, filter_nil. destruct (captures c); cbn [length]; [rewrite decide_True by done|rewrite decide_False by (intros []) ]; cbn [length]; lia.
Qed.

Lemma connections_ok n cs acc cs' acc' :
  conns_ok n cs acc → rangeM (connStep n) acc cs' = Ok acc' → conns_ok n (cs ++ cs') acc'.
Proof.
  revert cs acc. induction cs' as [|c cs' IH]; intros cs acc Hok H; cbn [rangeM] in H; [simplify_eq; by rewrite app_nil_r|].
  apply res_bind_ok in H as (acc1 & Hc & H). replace (cs ++ c :: cs')%list with ((cs ++ [c]) ++ cs')%list by (by rewrite <- app_assoc).
  eapply IH; [|exact H]. by eapply connStep_ok.
Qed.

Lemma connSteps_each n acc cs acc' : rangeM (connStep n) acc cs = Ok acc' → Forall (λ c, ∃ st st', validateConn c st = Ok st') cs.
Proof.
  revert acc. induction cs as [|c cs IH]; intros acc H; cbn [rangeM] in H; [constructor|].
  apply res_bind_ok in H as ([names' st1] & Hc & H). constructor; [|by eapply IH]. destruct acc as [names st]. unfold connStep in Hc.
  rewrite !check_ok in Hc. destruct Hc as (_ & _ & _ & _ & Hc). apply res_bind_ok in Hc as (st' & Hc & _). by exists st, st'.
Qed.

Lemma validated_facts n :
  Validate n = Ok tt → n_Datapath n ≠ "kernel" →
  let cs := n_Connections n in
  NoDup (map c_Name cs) ∧
  validPrefix (n_Subnet n) = true ∧ Forall (λ c, ∃ st st', validateConn c st = Ok st') cs ∧
  Forall (λ c, EffectivePSK c (n_PSK n) ≠ "" ∧ is_ok (ParseName (c_Cipher c)) = true) cs ∧
  NoDup (omap tunAddr cs) ∧ (length (base.filter captures cs) ≤ 1)%nat ∧
  Forall (λ c, c_IDSetter c = "" ∨ ∃ t, t ∈ cs ∧ c_Name t = c_IDSetter c ∧ c_Type t = "tun") cs ∧
  ∃ names conds, (∀ x c, names !! x = Some c ↔ c ∈ cs ∧ c_Name c = x) ∧
    validateConditions n names = Ok conds ∧ Forall (route_ok n names conds) (n_Routes n).
Proof.
  intros Hv Hd cs. unfold Validate in Hv. rewrite !check_ok in Hv. destruct Hv as (_ & Hpre & Hv).
  destruct ((n_Datapath n =? "") || (n_Datapath n =? "userspace")).
  2:{ destruct (String.eqb_spec (n_Datapath n) "kernel"); done. }
  unfold validateUserspace in Hv. rewrite !check_ok in Hv. destruct Hv as (_ & _ & Hv).
  apply res_bind_ok in Hv as ([names [addrs caps]] & Hcs & Hv). cbn [fst snd] in Hv. rewrite check_ok, negb_true_iff in Hv. destruct Hv as [Hcap Hv].
  apply res_bind_ok in Hv as ([] & Hset & Hv). apply res_bind_ok in Hv as ([] & _ & Hv). apply res_bind_ok in Hv as (conds & Hconds & Hr).
  pose proof (connSteps_each _ _ _ _ Hcs) as Heach. apply (connections_ok n []) in Hcs; [|split; cbn; [intros k c; by rewrite lookup_empty|intros x c; rewrite lookup_empty; split; [done|by intros [?%elem_of_nil _]]|constructor|constructor|split; [done|constructor]|done]].
  cbn [app] in Hcs. destruct Hcs as [Hk Hn Hnd Hp [Ha Had] Hc]. cbn [fst snd] in *.
  split; [done|]. split; [done|]. split; [exact Heach|]. split; [done|]. split.
  { rewrite Ha in Had. apply NoDup_ListNoDup in Had. apply NoDup_ListNoDup.
    apply List.NoDup_rev in Had. by rewrite rev_involutive in Had. }
  split. { apply Z.ltb_ge in Hcap. unfold cs. lia. }
  split.
  { apply (rangeM_each _ (λ c, c_IDSetter c = "" ∨ ∃ t, t ∈ cs ∧ c_Name t = c_IDSetter c ∧ c_Type t = "tun")) in Hset; [done|].
    intros c. destruct (String.eqb_spec (c_IDSetter c) "") as [He|He]; [split; [by left|done]|].
    destruct (names !! c_IDSetter c) as [t|] eqn:Ht.
    - rewrite check_ok, String.eqb_eq. apply Hn in Ht as [Hin Hname]. split; [intros [Hty _]; right; by exists t|].
      intros [?|(t' & Hin' & Hname' & Hty')]; [done|]. split; [|done].
      assert (names !! c_IDSetter c = Some t) as H1 by (by apply Hn). assert (names !! c_IDSetter c = Some t') as H2 by (by apply Hn). congruence.
    - split; [done|]. intros [?|(t' & Hin' & Hname' & _)]; [done|]. assert (names !! c_IDSetter c = Some t') as H2 by (by apply Hn). congruence. }
  exists names, conds. split; [exact Hn|]. split; [exact Hconds|].
  by apply (rangeM_each _ (route_ok n names conds)) in Hr; [|intros r; by apply validateRoute_spec].
Qed.

(** What a valid userspace configuration guarantees: connection names
    are unique, every connection has a key and a known cipher, tun addresses
    differ, at most one tun captures the default route, id setters name local
    tuns, and every route's connections, egress and conditions exist, finalizing
    unprocessed packets only. *)
Theorem validated_userspace n :
  Validate n = Ok tt → n_Datapath n ≠ "kernel" →
  let cs := n_Connections n in
  NoDup (map c_Name cs) ∧
  Forall (λ c, EffectivePSK c (n_PSK n) ≠ "" ∧ is_ok (ParseName (c_Cipher c)) = true) cs ∧
  NoDup (omap tunAddr cs) ∧ (length (base.filter captures cs) ≤ 1)%nat ∧
  Forall (λ c, c_IDSetter c = "" ∨ ∃ t, t ∈ cs ∧ c_Name t = c_IDSetter c ∧ c_Type t = "tun") cs ∧
  ∃ names conds, (∀ x c, names !! x = Some c ↔ c ∈ cs ∧ c_Name c = x) ∧
    validateConditions n names = Ok conds ∧ Forall (route_ok n names conds) (n_Routes n).
Proof.
  intros Hv Hd cs. destruct (validated_facts n Hv Hd) as (H1 & _ & _ & H2 & H). done.
Qed.

Lemma Defaults_idem n : Defaults (Defaults n) = Defaults n.
Proof.
  assert (∀ d name eg, defaultEgress d name (defaultEgress d name eg) = defaultEgress d name eg) as Heg.
  { intros d name [m x g t wc wca wi]. unfold defaultEgress. cbn. destruct (m =? "") eqn:Em; cbn; rewrite ?Em;
      destruct (d =? "kernel"); cbn; try done; destruct (m =? "warp"); cbn; try done; destruct (t =? "") eqn:Et; cbn; rewrite ?Et; done. }
  unfold Defaults. cbn. f_equal.
  - destruct (n_MTU n =? 0)%Z eqn:E; [done|]. by rewrite E.
  - destruct (n_Subnet n =? "") eqn:E; [done|]. by rewrite E.
  - rewrite map_map. apply map_ext. intros c. destruct (c_Cipher c =? "") eqn:E; [done|]. by rewrite E.
  - apply map_eq. intros k. rewrite !map_lookup_imap. destruct (n_Egresses n !! k) as [eg|]; [|done]. cbn. by rewrite Heg.
  - destruct (n_StatsInterval n =? 0)%Z eqn:E; [done|]. by rewrite E.
  - destruct (n_StatsMaxMB n =? 0)%Z eqn:E; [done|]. by rewrite E.
Qed.

(** Filling the defaults is idempotent, so a configuration may be
    defaulted again after it was loaded or generated; afterwards every
    connection has a cipher, every egress a mode, and a kernel node's WARP
    egresses a device name. *)
Theorem defaults_idempotent n :
  Defaults (Defaults n) = Defaults n ∧
  Forall (λ c, c_Cipher c ≠ "") (n_Connections (Defaults n)) ∧
  ∀ name eg, n_Egresses (Defaults n) !! name = Some eg →
    e_Mode eg ≠ "" ∧ (n_Datapath n = "kernel" → e_Mode eg = "warp" → e_TunName eg ≠ "").
Proof.
  split; [apply Defaults_idem|split].
  - cbn [Defaults n_Connections]. apply Forall_forall. intros c Hin. apply list_elem_of_fmap in Hin as (c0 & -> & _).
    destruct (c_Cipher c0 =? "") eqn:E; [done|]. by apply eqb_set in E.
  - intros name eg Hl. cbn [Defaults n_Egresses] in Hl. rewrite map_lookup_imap in Hl.
    destruct (n_Egresses n !! name) as [eg0|]; [|done]. cbn in Hl. simplify_eq. unfold defaultEgress. cbn. split.
    + destruct (e_Mode eg0 =? "") eqn:E; [done|by apply eqb_set in E].
    + intros -> ->. cbn. destruct (e_TunName eg0 =? "") eqn:E; cbn; [done|by apply eqb_set in E].
Qed.

(** ** Concrete configurations *)

Definition conn0 : Connection := MkConnection "" "" "" "" "" "" 0 "" false false "" "" "none" None "" false "".
Definition demoTun : Connection := MkConnection "utun9" "tun" "utun9" "" "" "" 0 "" false false "" "" "none" None "10.9.0.2" true "".
Definition demoUp : Connection := MkConnection "up" "connect" "wan0" "" "outgoing" "tcp" 7000 "192.0.2.1" false false "" "" "chacha4" None "" false "".
Definition demoDown : Connection := MkConnection "down" "connect" "sat0" "" "incoming" "udp" 7001 "192.0.2.2" false false "utun9" "" "chacha4:64" None "" false "".
Definition demoEgress : Egress := MkEgress "kernel" "eth0" "" "" "" "" false.
Definition demoCond : Condition := MkCondition "lan" (Some (MkIPSet "" ["10.0.0.0/8"] 0)) None None.
Definition demoNode : Node :=
  MkNode "psk" 1360 "10.9.0.0/24" [demoTun; demoUp; demoDown] {["wan" := demoEgress]} [demoCond]
    [MkRoute (MkMatch (Some false) "utun9" ["lan"]) (MkAction "wan" "utun9");
     MkRoute (MkMatch (Some false) "utun9" []) (MkAction "" "up");
     MkRoute (MkMatch (Some true) "down" []) (MkAction "" "utun9")]
    "" [] [] None 0 0 "" 10 10.
Definition demoKernel : Node :=
  MkNode "" 1360 "10.9.0.0/24" [] {["wan" := demoEgress]}
    [demoCond; MkCondition "vip" None (Some (MkIPSet "" ["10.1.2.3"] 0)) None] []
    "kernel" [MkForward ["vip"] "wan"; MkForward ["lan"] "wan"; MkForward [] "wan"] ["br0"] None 0 0 "" 10 10.

Example demo_validates : Validate demoNode = Ok tt ∧ Validate demoKernel = Ok tt ∧
  Validate (Defaults demoNode) = Ok tt ∧ RequiredInterfaces demoNode = ["eth0"; "sat0"; "wan0"].
Proof. vm_compute. done. Qed.

Lemma validated_userspace_witness : NoDup (map c_Name (n_Connections demoNode)) ∧ (length (base.filter captures (n_Connections demoNode)) ≤ 1)%nat.
Proof.
  destruct (validated_userspace demoNode) as (H1 & _ & _ & H2 & _); [vm_compute; reflexivity|discriminate|]. split; [exact H1|exact H2].
Defined.

Lemma forward_policy_exact_witness :
  let conds : gmap string string := <["vip" := "src"]> (<["lan" := "dst"]> ∅) in policy demoKernel conds (n_Forward demoKernel).
Proof. apply forward_policy_exact; vm_compute; reflexivity. Defined.
