(* ===== verification/Schema.v ===== *)
(** * internal/netschema/schema.go: the network schema and its validation

    Errors are the format strings of the messages, as in Config.v; Go maps are
    iterated in the order of [map_to_list].  YAML decoding is not modelled. *)

From S2P Require Import Prelude GoStrings NetIp Config Dsl.
Local Open Scope Z_scope.
Local Open Scope string_scope.
Local Open Scope go_scope.


Record ProtocolSpec := MkProtocol {
  p_Transport : string;
  p_Cipher : string;
  p_Warpped : bool;
  p_UploadPath : string;
  p_DownloadPath : string;
  p_Host : string;
  p_UserAgent : string;
  p_IDHeader : string;
  p_Headers : gmap string string;
}.

Definition hasHTTPOpts (p : ProtocolSpec) : bool :=
  negb (p_UploadPath p =? "") || negb (p_DownloadPath p =? "") || negb (p_Host p =? "") ||
  negb (p_UserAgent p =? "") || negb (p_IDHeader p =? "") || (0 <? size (p_Headers p))%nat.

Definition httpConfig (p : ProtocolSpec) : option Config.HTTPConfig :=
  if negb (p_Transport p =? "http") || negb (hasHTTPOpts p) then None
  else Some (Config.MkHTTPConfig (p_UploadPath p) (p_DownloadPath p) (p_Host p) (p_UserAgent p) (p_IDHeader p) (p_Headers p)).

Record Conn := MkConn {
  k_Type : string;
  k_Iface : string;
  k_IP : string;
  k_CaptureDefault : bool;
  k_LAN : string;
}.

Definition isTun (c : Conn) : bool := k_Type c =? "tun".

Record BuildSpec := MkBuild { bd_Arch : string; bd_Upx : bool }.

Record DeploySpec := MkDeploy {
  dp_Mode : string;
  dp_Build : string;
  dp_Host : string;
  dp_User : string;
  dp_Port : Z;
  dp_Key : string;
  dp_BinPath : string;
  dp_ConfigPath : string;
  dp_FilesDir : string;
  dp_Daemonize : string;
  dp_Unit : string;
  dp_RestartCmd : string;
  dp_Context : string;
  dp_Namespace : string;
  dp_Image : string;
  dp_Method : string;
  dp_ImportHost : string;
  dp_Manifest : string;
  dp_DeploymentName : string;
}.

Record Node := MkNode {
  nd_IP : string;
  nd_Datapath : string;
  nd_Connections : gmap string Conn;
  nd_Egresses : gmap string Config.Egress;
  nd_PSK : string;
  nd_Deploy : option DeploySpec;
}.

Record HealthcheckSpec := MkHealth {
  h_Path : string;
  h_Gateway : string;
  h_Tun : string;
  h_Interval : Z;
  h_Timeout : Z;
  h_UpGrace : Z;
}.

Record ConditionSpec := MkCond {
  cs_DstIn : option Config.IPSet;
  cs_SrcIn : option Config.IPSet;
  cs_Healthcheck : option HealthcheckSpec;
}.

Record Path := MkPath { pt_Name : string; pt_Node : string; pt_Routes : list Branch }.

Record Network := MkNetwork {
  w_PSK : string;
  w_MTU : Z;
  w_Subnet : string;
  w_Healthcheck : option Z;
  w_HealthcheckTimeout : Z;
  w_HealthcheckUpGrace : Z;
  w_StatsFile : string;
  w_StatsInterval : Z;
  w_StatsMaxMB : Z;
  w_Protocols : gmap string ProtocolSpec;
  w_Conditions : gmap string ConditionSpec;
  w_Nodes : gmap string Node;
  w_Links : list Link;
  w_Paths : list Path;
  w_Builds : gmap string BuildSpec;
}.

Definition OriginNode (p : Path) : string := pt_Node p.
Definition Label (p : Path) : string := if negb (pt_Name p =? "") then pt_Name p else pt_Node p.

Definition targetOf (l : Link) : string := if l_Dataflow l =? toAcceptor then l_Acceptor l else l_Dialer l.
Definition senderOf (l : Link) : string := if l_Dataflow l =? toAcceptor then l_Dialer l else l_Acceptor l.

Definition gatewayOf (br : Branch) (links : gmap string Link) : vres string :=
  match last (b_Up br) with
  | None =>
      check? (length (b_Down br) =? 0)%nat else "branch has down-links but no up-links";
      Ok ""
  | Some up =>
      match links !! up with
      | None => Err "unknown up-link"
      | Some l =>
          let gw := targetOf l in
          match b_Down br with
          | [] => Ok gw
          | d :: _ =>
              match links !! d with
              | None => Err "unknown down-link"
              | Some first =>
                  check? senderOf first =? gw else "up-path and down-path must have the same gateway";
                  Ok gw
              end
          end
      end
  end.

Definition setGateway (br : Branch) (gw : string) : Branch :=
  MkBranch (b_When br) (b_Egress br) (b_Up br) (b_Down br) gw.

Fixpoint inferBranches (links : gmap string Link) (brs : list Branch) : vres (list Branch) :=
  match brs with
  | [] => Ok []
  | br :: brs' =>
      let? gw := gatewayOf br links in
      let? brs'' := inferBranches links brs' in
      Ok (setGateway br gw :: brs'')
  end.

Fixpoint inferPaths (links : gmap string Link) (ps : list Path) : vres (list Path) :=
  match ps with
  | [] => Ok []
  | p :: ps' =>
      let? rs := inferBranches links (pt_Routes p) in
      let? ps'' := inferPaths links ps' in
      Ok (MkPath (pt_Name p) (pt_Node p) rs :: ps'')
  end.

Definition setPaths (n : Network) (ps : list Path) : Network :=
  MkNetwork (w_PSK n) (w_MTU n) (w_Subnet n) (w_Healthcheck n) (w_HealthcheckTimeout n) (w_HealthcheckUpGrace n)
    (w_StatsFile n) (w_StatsInterval n) (w_StatsMaxMB n) (w_Protocols n) (w_Conditions n) (w_Nodes n) (w_Links n) ps (w_Builds n).

Definition inferGateways (n : Network) (links : gmap string Link) : vres Network :=
  let? ps := inferPaths links (w_Paths n) in Ok (setPaths n ps).

Definition linkMap (n : Network) : gmap string Link :=
  fold_left (λ m l, <[l_Name l := l]> m) (w_Links n) ∅.

(** ** Node attachments *)

(** [originTun]: the capturing tun, else the only one. *)
Definition originTun (nd : Node) : option string :=
  let tuns := base.filter (λ kv, isTun kv.2 = true) (map_to_list (nd_Connections nd)) in
  let capture := fold_left (λ acc kv, if k_CaptureDefault kv.2 then kv.1 else acc) tuns "" in
  let sole := fold_left (λ _ kv, kv.1) tuns "" in
  if negb (capture =? "") then Some capture
  else if (length tuns =? 1)%nat then Some sole else None.

Definition resolveSource (nd : Node) (name : string) : string * string :=
  if name =? "" then ("", "")
  else match nd_Connections nd !! name with
  | Some c => (k_Iface c, k_IP c)
  | None => (name, "")
  end.

Definition resolveIface (nd : Node) (name : string) : string := (resolveSource nd name).1.

Definition kernelLANIfaces (nd : Node) : list string :=
  let wan := map (λ kv, resolveIface nd (Config.e_ExtIface kv.2)) (map_to_list (nd_Egresses nd)) in
  let out := fold_left (λ out kv,
    let c := kv.2 in
    if isTun c || (k_Iface c =? "") || bool_decide (k_Iface c ∈ wan) || bool_decide (k_Iface c ∈ out) then out
    else (out ++ [k_Iface c])%list) (map_to_list (nd_Connections nd)) [] in
  Config.sortStrings out.

Definition validSourceIP (s : string) : bool :=
  if Config.containsSlash s then validPrefix s else validAddr s.

(** ** Deployment *)

Definition ArchBuild (arch : string) : option (string * string * string) :=
  if arch =? "amd64" then Some ("amd64", "", "linux/amd64")
  else if arch =? "arm64" then Some ("arm64", "", "linux/arm64")
  else if arch =? "arm/v5" then Some ("arm", "5", "linux/arm/v5")
  else if arch =? "arm/v6" then Some ("arm", "6", "linux/arm/v6")
  else if arch =? "arm/v7" then Some ("arm", "7", "linux/arm/v7")
  else None.

Definition validateBuild (b : BuildSpec) : vres () :=
  check? bool_decide (is_Some (ArchBuild (bd_Arch b))) else "build arch"; Ok tt.

Definition oneOf (s : string) (l : list string) : bool := existsb (String.eqb s) l.

Definition validateDeploy (d : DeploySpec) (builds : gmap string BuildSpec) : vres () :=
  check? negb (dp_Build d =? "") else "deploy has no build";
  check? bool_decide (is_Some (builds !! dp_Build d)) else "deploy references unknown build";
  if dp_Mode d =? "ssh" then
    check? forallb (λ s, s =? "") [dp_Context d; dp_Namespace d; dp_Image d; dp_Method d; dp_ImportHost d; dp_Manifest d; dp_DeploymentName d]
      else "deploy mode ssh sets k8s-only fields";
    check? oneOf (dp_Daemonize d) [""; "none"; "systemd"] else "deploy daemonize must be none or systemd";
    Ok tt
  else if dp_Mode d =? "k8s" then
    check? forallb (λ s, s =? "") [dp_Host d; dp_User d; dp_Key d; dp_BinPath d; dp_ConfigPath d; dp_FilesDir d; dp_Daemonize d; dp_Unit d; dp_RestartCmd d]
             && (dp_Port d =? 0)%Z
      else "deploy mode k8s sets ssh-only fields";
    check? negb (dp_Image d =? "") else "deploy mode k8s needs an image";
    check? oneOf (dp_Method d) [""; "registry"; "ctr"] else "deploy method must be registry or ctr";
    check? oneOf (dp_Manifest d) [""; "hostNetwork"; "service"] else "deploy manifest must be hostNetwork or service";
    Ok tt
  else Err "deploy mode must be ssh or k8s".

(** ** Validation *)

Definition validateAttachment (nd : Node) (captures : Z) (c : Conn) : vres Z :=
  check? (k_IP c =? "") || validSourceIP (k_IP c) else "connection bad ip";
  if k_Type c =? "" then
    check? negb (k_Iface c =? "") else "connection has no iface";
    check? negb (k_CaptureDefault c) && (k_LAN c =? "") else "sets capture_default/lan but is not a tun";
    Ok captures
  else if k_Type c =? "tun" then
    check? negb (k_CaptureDefault c && (k_IP c =? "")) else "tun sets capture_default but has no ip";
    let captures := if k_CaptureDefault c then (captures + 1)%Z else captures in
    check? (k_LAN c =? "") || k_CaptureDefault c else "tun sets lan but not capture_default";
    check? (k_LAN c =? "") || match nd_Connections nd !! k_LAN c with Some lc => negb (isTun lc) | None => false end
      else "tun lan is not an interface connection";
    Ok captures
  else Err "connection type must be empty or tun".

Definition validateNode (nd : Node) : vres () :=
  let? _ := (if oneOf (nd_Datapath nd) [""; "userspace"] then Ok tt
    else if nd_Datapath nd =? "kernel" then
      check? forallb (λ kv, negb (isTun kv.2)) (map_to_list (nd_Connections nd)) else "kernel node must not declare a tun";
      check? negb (size (nd_Egresses nd) =? 0)%nat else "kernel node needs at least one egress";
      rangeM (λ _ kv,
        check? oneOf (Config.e_Mode kv.2) [""; "kernel"; "warp"] else "kernel node egress mode must be kernel or warp";
        check? negb (Config.e_ExtIface kv.2 =? "") else "kernel node egress needs exit";
        Ok tt) tt (map_to_list (nd_Egresses nd))
    else Err "datapath must be userspace or kernel") in
  let? captures := rangeM (λ captures kv, validateAttachment nd captures kv.2) 0%Z (map_to_list (nd_Connections nd)) in
  check? negb (1 <? captures)%Z else "more than one capture_default tun";
  Ok tt.

Definition validateProtocol (p : ProtocolSpec) : vres () :=
  check? oneOf (p_Transport p) ["http"; "udp"; "tcp"] else "protocol transport must be http, udp or tcp";
  if negb (p_Transport p =? "http") then
    check? negb (hasHTTPOpts p) else "protocol sets http-only fields";
    check? negb (p_Warpped p) else "protocol sets warpped";
    Ok tt
  else Ok tt.

Definition isKernel (n : Network) (name : string) : bool :=
  match w_Nodes n !! name with Some nd => nd_Datapath nd =? "kernel" | None => false end.

Definition validateLink (n : Network) (links : gmap string Link) (l : Link) : vres (gmap string Link) :=
  check? negb (l_Name l =? "") else "a link has no name";
  check? bool_decide (links !! l_Name l = None) else "duplicate link name";
  match w_Nodes n !! l_Dialer l with
  | None => Err "link dialer is not a node"
  | Some dialer =>
      match w_Nodes n !! l_Acceptor l with
      | None => Err "link acceptor is not a node"
      | Some acceptor =>
          check? (l_Dataflow l =? toAcceptor) || (l_Dataflow l =? toDialer) else "link dataflow";
          check? negb (l_Protocol l =? "") else "link has no protocol";
          match w_Protocols n !! l_Protocol l with
          | None => Err "link references unknown protocol"
          | Some proto =>
              check? negb (nd_IP acceptor =? "") else "link acceptor needs an ip";
              check? negb (isKernel n (l_Dialer l) || isKernel n (l_Acceptor l)) else "link has a kernel-datapath endpoint";
              check? (l_DialerSource l =? "") ||
                negb (negb ((resolveSource dialer (l_DialerSource l)).2 =? "") && p_Warpped proto) else "link binds source but protocol is warpped";
              Ok (<[l_Name l := l]> links)
          end
      end
  end.

(** Names of paths and nodes with a path, so far. *)
Definition validatePathName (st : list string * list string) (p : Path) : vres (list string * list string) :=
  let '(paths, pathNodes) := st in
  check? negb (pt_Node p =? "") else "a path has no node";
  check? negb (bool_decide (pt_Node p ∈ pathNodes)) else "node has more than one path";
  if negb (pt_Name p =? "") then
    check? negb (bool_decide (pt_Name p ∈ paths)) else "duplicate path name";
    Ok (pt_Name p :: paths, pt_Node p :: pathNodes)
  else Ok (paths, pt_Node p :: pathNodes).

Definition conditionKind (paths : list string) (name : string) (c : ConditionSpec) : vres string :=
  match cs_DstIn c, cs_SrcIn c, cs_Healthcheck c with
  | Some s, None, None => let? _ := Config.ValidateIPSet s name in Ok "dst"
  | None, Some s, None => let? _ := Config.ValidateIPSet s name in Ok "src"
  | None, None, Some h =>
      check? bool_decide (h_Path h ∈ paths) else "healthcheck path is not a path"; Ok "health"
  | _, _, _ => Err "must set exactly one of dst_in / src_in / healthcheck"
  end.

Definition condKinds (paths : list string) (cs : gmap string ConditionSpec) : vres (gmap string string) :=
  rangeM (λ m '(name, c), let? k := conditionKind paths name c in Ok (<[name := k]> m)) ∅ (map_to_list cs).

(** One branch of [validateKernelPath]: phase and number of defaults. *)
Definition kernelBranch (egresses : gmap string Config.Egress) (condKind : gmap string string) (st : Z * Z) (br : Branch) : vres (Z * Z) :=
  let '(phase, defaults) := st in
  check? (length (b_Up br) =? 0)%nat && (length (b_Down br) =? 0)%nat else "cannot forward to a gateway";
  check? negb (b_Egress br =? "") else "branch with no egress";
  check? bool_decide (is_Some (egresses !! b_Egress br)) else "branch egress is not an egress on kernel node";
  match b_When br with
  | [] => Ok (2, defaults + 1)%Z
  | w :: ws =>
      check? negb (phase =? 2)%Z else "branch after the default branch";
      check? bool_decide (ws = []) else "kernel branch must name exactly one condition";
      match condKind !! w with
      | Some kind =>
          if kind =? "src" then check? negb (0 <? phase)%Z else "src_in branch must come before dst_in branches"; Ok (phase, defaults)
          else if kind =? "dst" then Ok (1, defaults)%Z
          else Err "kernel branch condition must be src_in or dst_in"
      | None => Err "kernel branch condition must be src_in or dst_in"
      end
  end.

Definition validateKernelPath (nd : Node) (p : Path) (condKind : gmap string string) : vres () :=
  let? st := rangeM (kernelBranch (nd_Egresses nd) condKind) (0, 0)%Z (pt_Routes p) in
  check? (st.2 =? 1)%Z else "needs exactly one default branch";
  Ok tt.

(** One branch of a userspace path; the state is whether the default was seen. *)
Definition userspaceBranch (links : gmap string Link) (condKind : gmap string string) (sawDefault : bool) (br : Branch) : vres bool :=
  let? saw := (if (length (b_When br) =? 0)%nat then Ok true
    else check? negb sawDefault else "branch after the default"; Ok sawDefault) in
  let? _ := rangeM (λ _ cn,
    match condKind !! cn with
    | None => Err "references unknown condition"
    | Some kind => check? negb (kind =? "src") else "src_in condition on a userspace node"; Ok tt
    end) tt (b_When br) in
  check? negb (b_Egress br =? "") else "branch with no egress";
  let? _ := rangeM (λ _ ln, check? bool_decide (is_Some (links !! ln)) else "references unknown link"; Ok tt) tt (b_Up br ++ b_Down br)%list in
  Ok saw.

Definition validatePath (n : Network) (links : gmap string Link) (condKind : gmap string string) (p : Path) : vres () :=
  match w_Nodes n !! OriginNode p with
  | None => Err "path node is not a node"
  | Some nd =>
      let kernel := nd_Datapath nd =? "kernel" in
      check? kernel || bool_decide (is_Some (originTun nd)) else "path origin has no tun connection";
      check? negb (length (pt_Routes p) =? 0)%nat else "path has no routes";
      if kernel then validateKernelPath nd p condKind
      else
        let? saw := rangeM (userspaceBranch links condKind) false (pt_Routes p) in
        check? saw else "path needs a default branch";
        Ok tt
  end.

(** [validate]; the network afterwards has its gateways filled in. *)
Definition validate (n : Network) : vres Network :=
  check? negb (size (w_Nodes n) =? 0)%nat else "no nodes";
  let? _ := rangeM (λ _ kv, validateNode kv.2) tt (map_to_list (w_Nodes n)) in
  let? _ := rangeM (λ _ kv, validateProtocol kv.2) tt (map_to_list (w_Protocols n)) in
  let? links := rangeM (validateLink n) ∅ (w_Links n) in
  let? n := inferGateways n links in
  let? st := rangeM validatePathName ([], []) (w_Paths n) in
  let? condKind := condKinds st.1 (w_Conditions n) in
  let? _ := rangeM (λ _ p, validatePath n links condKind p) tt (w_Paths n) in
  let? _ := rangeM (λ _ kv, validateBuild kv.2) tt (map_to_list (w_Builds n)) in
  let? _ := rangeM (λ _ kv, match nd_Deploy kv.2 with Some d => validateDeploy d (w_Builds n) | None => Ok tt end) tt (map_to_list (w_Nodes n)) in
  Ok n.
