(* ===== verification/Compile.v ===== *)
(** * internal/netschema/compile.go: from the network schema to node configurations

    The node configurations under construction are a map from node name to
    configuration; a use of a missing node or of a missing condition, which
    dereferences nil, is the error "nil".  Map keys built by joining strings
    are joined here the same way. *)

From S2P Require Import Prelude GoStrings Config Dsl Schema.
Local Open Scope Z_scope.
Local Open Scope string_scope.
Local Open Scope go_scope.

Abbreviation cfg := Config.Node.
Abbreviation routes := (gmap string cfg).

Definition zeroLink : Link := MkLink "" "" "" "" "" 0 "" "" false "" "".
Definition zeroNode : Node := MkNode "" "" ∅ ∅ "" None.
Definition node (n : Network) (name : string) : Node := default zeroNode (w_Nodes n !! name).

Definition setRoutes (cn : cfg) (rs : list Config.Route) : cfg :=
  Config.MkNode (Config.n_PSK cn) (Config.n_MTU cn) (Config.n_Subnet cn) (Config.n_Connections cn) (Config.n_Egresses cn)
    (Config.n_Conditions cn) rs (Config.n_Datapath cn) (Config.n_Forward cn) (Config.n_LANIfaces cn) (Config.n_Healthcheck cn)
    (Config.n_HealthcheckTimeout cn) (Config.n_HealthcheckUpGrace cn) (Config.n_StatsFile cn) (Config.n_StatsInterval cn) (Config.n_StatsMaxMB cn).
Definition setConnections (cn : cfg) (cs : list Config.Connection) : cfg :=
  Config.MkNode (Config.n_PSK cn) (Config.n_MTU cn) (Config.n_Subnet cn) cs (Config.n_Egresses cn)
    (Config.n_Conditions cn) (Config.n_Routes cn) (Config.n_Datapath cn) (Config.n_Forward cn) (Config.n_LANIfaces cn) (Config.n_Healthcheck cn)
    (Config.n_HealthcheckTimeout cn) (Config.n_HealthcheckUpGrace cn) (Config.n_StatsFile cn) (Config.n_StatsInterval cn) (Config.n_StatsMaxMB cn).
Definition setForward (cn : cfg) (fs : list Config.Forward) : cfg :=
  Config.MkNode (Config.n_PSK cn) (Config.n_MTU cn) (Config.n_Subnet cn) (Config.n_Connections cn) (Config.n_Egresses cn)
    (Config.n_Conditions cn) (Config.n_Routes cn) (Config.n_Datapath cn) fs (Config.n_LANIfaces cn) (Config.n_Healthcheck cn)
    (Config.n_HealthcheckTimeout cn) (Config.n_HealthcheckUpGrace cn) (Config.n_StatsFile cn) (Config.n_StatsInterval cn) (Config.n_StatsMaxMB cn).
Definition setConditions (cn : cfg) (ds : list Config.Condition) : cfg :=
  Config.MkNode (Config.n_PSK cn) (Config.n_MTU cn) (Config.n_Subnet cn) (Config.n_Connections cn) (Config.n_Egresses cn)
    ds (Config.n_Routes cn) (Config.n_Datapath cn) (Config.n_Forward cn) (Config.n_LANIfaces cn) (Config.n_Healthcheck cn)
    (Config.n_HealthcheckTimeout cn) (Config.n_HealthcheckUpGrace cn) (Config.n_StatsFile cn) (Config.n_StatsInterval cn) (Config.n_StatsMaxMB cn).

(** [n.Nodes[name]], then dereferenced. *)
Definition nodeAt (n : Network) (name : string) : vres Node :=
  match w_Nodes n !! name with Some nd => Ok nd | None => Err "nil" end.

(** [out[name].X = ...]: a missing node is a nil dereference. *)
Definition atNode (out : routes) (name : string) (f : cfg → cfg) : vres routes :=
  match out !! name with Some cn => Ok (<[name := f cn]> out) | None => Err "nil" end.

(** [sortedKeys] *)
Definition sortedKeys {V} (m : gmap string V) : list string := Config.sortStrings (map fst (map_to_list m)).

(** ** Nodes and links *)

(** One node's configuration before links and paths. *)
Definition baseNode (n : Network) (nd : Node) : cfg :=
  let psk := if nd_PSK nd =? "" then w_PSK n else nd_PSK nd in
  let egresses := (λ eg, Config.MkEgress (Config.e_Mode eg) (resolveIface nd (Config.e_ExtIface eg)) (Config.e_Gateway eg)
    (Config.e_TunName eg) (Config.e_WARPConfig eg) (Config.e_WARPCache eg) (Config.e_WARPInsecure eg)) <$> nd_Egresses nd in
  let kernel := nd_Datapath nd =? "kernel" in
  let tuns := if kernel then [] else
    omap (λ tn, match nd_Connections nd !! tn with
      | Some c => if isTun c then
          Some (Config.MkConnection tn "tun" (k_Iface c) "" "" "" 0 "" false false "" "" "" None (k_IP c) (k_CaptureDefault c) (resolveIface nd (k_LAN c)))
          else None
      | None => None end) (sortedKeys (nd_Connections nd)) in
  Config.MkNode psk (w_MTU n) (w_Subnet n) tuns egresses [] [] (if kernel then "kernel" else "") []
    (if kernel then kernelLANIfaces nd else []) (w_Healthcheck n) (w_HealthcheckTimeout n) (w_HealthcheckUpGrace n)
    (w_StatsFile n) (w_StatsInterval n) (w_StatsMaxMB n).

Definition addLinkConnections (n : Network) (out : routes) (l : Link) : vres routes :=
  let? dialer := nodeAt n (l_Dialer l) in
  let? acceptor := nodeAt n (l_Acceptor l) in
  let proto := default (MkProtocol "" "" false "" "" "" "" "" ∅) (w_Protocols n !! l_Protocol l) in
  let up := l_Dataflow l =? toAcceptor in
  let '(dialerIface, dialerIP) := resolveSource dialer (l_DialerSource l) in
  let dc setter := Config.MkConnection (l_Name l) "connect" dialerIface dialerIP (if up then "outgoing" else "incoming")
    (p_Transport proto) (l_Port l) (nd_IP acceptor) (p_Warpped proto) false setter (l_PSK l) (p_Cipher proto) (httpConfig proto) "" false "" in
  let? setter := (if l_IDSetter l =? "" then Ok ""
    else
      check? l_Dataflow l =? toDialer else "id-setter tun but not a downlink";
      check? l_Multiple l else "id-setter tun but not multiple";
      check? match nd_Connections dialer !! l_IDSetter l with Some c => isTun c | None => false end else "id-setter is not a tun connection";
      Ok (l_IDSetter l)) in
  let? out := atNode out (l_Dialer l) (λ cn, setConnections cn (Config.n_Connections cn ++ [dc setter])%list) in
  let '(acceptorIface, acceptorIP) := resolveSource acceptor (l_AcceptorSource l) in
  let ac := Config.MkConnection (l_Name l) "listen" acceptorIface acceptorIP (if up then "incoming" else "outgoing")
    (p_Transport proto) (l_Port l) "" false (if l_Dataflow l =? toDialer then l_Multiple l else false) "" (l_PSK l) (p_Cipher proto) (httpConfig proto) "" false "" in
  atNode out (l_Acceptor l) (λ cn, setConnections cn (Config.n_Connections cn ++ [ac])%list).

(** ** Routes *)

Definition relayNode (prev next : Link) : vres string :=
  let mid := targetOf prev in
  check? senderOf next =? mid else "links are mis-chained"; Ok mid.

Record pendingRule := MkPending {
  pr_node : string;
  pr_route : Config.Route;
  pr_relay : bool;
  pr_when : list string;
  pr_path : string;
}.

Definition route (processed : bool) (source : string) (conditions : list string) (egress target : string) : Config.Route :=
  Config.MkRoute (Config.MkMatch (Some processed) source conditions) (Config.MkAction egress target).

Definition addRule (name : string) (r : Config.Route) : pendingRule := MkPending name r false [] "".
Definition addBranchRule (name : string) (r : Config.Route) (p : Path) (br : Branch) : pendingRule :=
  MkPending name r true (b_When br) (Label p).

(** The relays between consecutive links of the up-path and of the down-path. *)
Fixpoint upRelays (p : Path) (br : Branch) (up : list Link) : vres (list pendingRule) :=
  match up with
  | a :: ((b :: _) as rest) =>
      let? mid := relayNode a b in
      let? rs := upRelays p br rest in
      Ok (addBranchRule mid (route false (l_Name a) [] "" (l_Name b)) p br :: rs)
  | _ => Ok []
  end.

Fixpoint downRelays (down : list Link) : vres (list pendingRule) :=
  match down with
  | a :: ((b :: _) as rest) =>
      let? mid := relayNode a b in
      let? rs := downRelays rest in
      Ok (addRule mid (route true (l_Name a) [] "" (l_Name b)) :: rs)
  | _ => Ok []
  end.

(** A userspace branch: local egress, or through a gateway. *)
Definition branchRules (links : gmap string Link) (p : Path) (tun : string) (br : Branch) : vres (list pendingRule) :=
  let origin := OriginNode p in
  if b_Gateway br =? "" then
    Ok [addRule origin (route false tun (b_When br) (b_Egress br) tun)]
  else
    let up := map (λ ln, default zeroLink (links !! ln)) (b_Up br) in
    let down := map (λ ln, default zeroLink (links !! ln)) (b_Down br) in
    match up, last up with
    | up0 :: _, Some lastUp =>
        check? senderOf up0 =? origin else "origin is not the sender on its first up link";
        let? ups := upRelays p br up in
        let gwTarget := match down with d :: _ => l_Name d | [] => tun end in
        let head := (addRule origin (route false tun (b_When br) "" (l_Name up0)) :: ups ++
          [addBranchRule (b_Gateway br) (route false (l_Name lastUp) [] (b_Egress br) gwTarget) p br])%list in
        match last down with
        | None => Ok head
        | Some lastDown =>
            let? downs := downRelays down in
            check? targetOf lastDown =? origin else "last down link does not deliver to the origin";
            Ok (head ++ downs ++ [addRule origin (route true (l_Name lastDown) [] "" tun)])%list
        end
    | _, _ => Err "nil"
    end.

(** The loop over the paths: pending rules, conditions referenced per node, and
    the forwarding policies of kernel nodes. *)
Record derivation := MkDerivation {
  dv_out : routes;
  dv_pend : list pendingRule;
  dv_refs : list (string * string);
}.

Definition pathStep (n : Network) (links : gmap string Link) (d : derivation) (p : Path) : vres derivation :=
  let origin := OriginNode p in
  let? nd := nodeAt n origin in
  let refs := concat (map (λ br, map (λ cn, (origin, cn)) (b_When br)) (pt_Routes p)) in
  if nd_Datapath nd =? "kernel" then
    let? out := rangeM (λ out br, atNode out origin (λ cn, setForward cn (Config.n_Forward cn ++ [Config.MkForward (b_When br) (b_Egress br)])%list))
      (dv_out d) (pt_Routes p) in
    Ok (MkDerivation out (dv_pend d) (dv_refs d ++ refs)%list)
  else
    let tun := default "" (originTun nd) in
    let? pend := rangeM (λ acc br, let? rs := branchRules links p tun br in Ok (acc ++ rs)%list) (dv_pend d) (pt_Routes p) in
    Ok (MkDerivation (dv_out d) pend (dv_refs d ++ refs)%list).

(** ** qualifyRules *)

Definition arrival (pr : pendingRule) : string :=
  pr_node pr +:+ String (ascii_of_nat 0) (Config.m_Source (Config.r_Match (pr_route pr))).

(** "egress→target", the arrow in UTF-8. *)
Definition actionKey (a : Config.Action) : string :=
  Config.a_Egress a +:+ unchars (map ascii_of_nat [226; 134; 146]%nat) +:+ Config.a_Target a.

(** The distinct actions of the relay rules at an arrival point. *)
Definition actionsAt (pend : list pendingRule) (k : string) : gset string :=
  list_to_set (map (λ pr, actionKey (Config.r_Action (pr_route pr)))
    (base.filter (λ pr, pr_relay pr = true ∧ arrival pr = k) pend)).

Definition isDstIn (n : Network) (cond : string) : bool :=
  match w_Conditions n !! cond with Some c => bool_decide (is_Some (cs_DstIn c)) | None => false end.

Definition withConditions (pr : pendingRule) (conds : list string) : pendingRule :=
  let r := pr_route pr in
  MkPending (pr_node pr) (Config.MkRoute (Config.MkMatch (Config.m_Processed (Config.r_Match r)) (Config.m_Source (Config.r_Match r)) conds) (Config.r_Action r))
    (pr_relay pr) (pr_when pr) (pr_path pr).

(** The second loop: what remains of the rules, the arrival points claimed by an
    unguarded rule, and the references added. *)
Fixpoint qualifyFrom (n : Network) (all : list pendingRule) (catchAll : gset string) (pend : list pendingRule)
    : vres (list pendingRule * list (string * string)) :=
  match pend with
  | [] => Ok ([], [])
  | pr :: pend' =>
      if negb (pr_relay pr) || (size (actionsAt all (arrival pr)) <? 2)%nat then
        let? r := qualifyFrom n all catchAll pend' in Ok (pr :: r.1, r.2)
      else
        let restate := base.filter (λ c, isDstIn n c = true) (pr_when pr) in
        match restate with
        | [] =>
            check? (length (pr_when pr) =? 0)%nat else "branch condition cannot be re-evaluated there";
            let? r := qualifyFrom n all ({[arrival pr]} ∪ catchAll) pend' in Ok (pr :: r.1, r.2)
        | _ =>
            check? negb (bool_decide (arrival pr ∈ catchAll)) else "branch is dead";
            let? r := qualifyFrom n all catchAll pend' in
            Ok (withConditions pr restate :: r.1, (map (λ c, (pr_node pr, c)) restate ++ r.2)%list)
        end
  end.

Definition qualifyRules (n : Network) (pend : list pendingRule) : vres (list pendingRule * list (string * string)) :=
  qualifyFrom n pend ∅ pend.

(** ** emitRules *)

Definition bar : string := "|".

Definition matchKey (m : Config.Match) : string :=
  (match Config.m_Processed m with Some true => "true" | _ => "false" end) +:+ bar +:+ Config.m_Source m +:+ bar +:+
  String.concat "," (Config.m_Conditions m).

Definition ruleKey (r : Config.Route) : string :=
  matchKey (Config.r_Match r) +:+ bar +:+ Config.a_Egress (Config.r_Action r) +:+ bar +:+ Config.a_Target (Config.r_Action r).

Record emission := MkEmission {
  em_out : routes;
  em_seen : gset (string * string);
  em_finAt : gmap (string * string) Config.Action;
}.

Definition emitStep (s : emission) (pr : pendingRule) : vres emission :=
  let r := pr_route pr in
  let mk := (pr_node pr, matchKey (Config.r_Match r)) in
  let? finAt := (if Config.a_Egress (Config.r_Action r) =? "" then Ok (em_finAt s)
    else
      check? match em_finAt s !! mk with Some prev => bool_decide (prev = Config.r_Action r) | None => true end
        else "two finalize rules for the same match";
      Ok (<[mk := Config.r_Action r]> (em_finAt s))) in
  let key := (pr_node pr, ruleKey r) in
  if bool_decide (key ∈ em_seen s) then Ok (MkEmission (em_out s) (em_seen s) finAt)
  else
    let? out := atNode (em_out s) (pr_node pr) (λ cn, setRoutes cn (Config.n_Routes cn ++ [r])%list) in
    Ok (MkEmission out ({[key]} ∪ em_seen s) finAt).

Definition emitRules (out : routes) (pend : list pendingRule) : vres routes :=
  let? s := rangeM emitStep (MkEmission out ∅ ∅) pend in Ok (em_out s).

(** ** emitConditions *)

Fixpoint joinSlash (l : list (list ascii)) : list ascii :=
  match l with [] => [] | [a] => a | a :: l' => (a ++ "/"%char :: joinSlash l')%list end.

(** [path.Clean]: the elements kept, the last first. *)
Fixpoint cleanElems (rooted : bool) (acc elems : list (list ascii)) : list (list ascii) :=
  match elems with
  | [] => acc
  | e :: elems' =>
      if bool_decide (e = []) || bool_decide (e = ["."%char]) then cleanElems rooted acc elems'
      else if bool_decide (e = ["."%char; "."%char]) then
        match acc with
        | a :: acc' => if bool_decide (a = ["."%char; "."%char]) then cleanElems rooted (e :: acc) elems' else cleanElems rooted acc' elems'
        | [] => cleanElems rooted (if rooted then [] else [e]) elems'
        end
      else cleanElems rooted (e :: acc) elems'
  end.

Definition pathClean (l : list ascii) : list ascii :=
  let rooted := match l with "/"%char :: _ => true | _ => false end in
  let body := joinSlash (rev (cleanElems rooted [] (splitOn "/"%char l))) in
  if rooted then "/"%char :: body else match body with [] => ["."%char] | _ => body end.

Definition pathDir (s : string) : string :=
  match lastIndexChar "/"%char (chars s) with
  | Some i => unchars (pathClean (take (S i) (chars s)))
  | None => "."
  end.

Fixpoint dropSlashes (l : list ascii) : list ascii := match l with "/"%char :: l' => dropSlashes l' | _ => l end.

Definition pathBase (s : string) : string :=
  if s =? "" then "."
  else
    let l := rev (dropSlashes (rev (chars s))) in
    let b := match lastIndexChar "/"%char l with Some i => drop (S i) l | None => l end in
    match b with [] => "/" | _ => unchars b end.

Definition filesDir (d : DeploySpec) : string :=
  if negb (dp_FilesDir d =? "") then dp_FilesDir d
  else pathDir (if dp_ConfigPath d =? "" then "/etc/dualnet/node.yaml" else dp_ConfigPath d).

Definition remoteConditionFile (n : Network) (name localFile : string) : string :=
  match nd_Deploy (node n name) with
  | None => localFile
  | Some d => filesDir d +:+ "/" +:+ pathBase localFile
  end.

Definition relocateSet (n : Network) (name : string) (s : Config.IPSet) : Config.IPSet :=
  if Config.s_File s =? "" then s
  else Config.MkIPSet (remoteConditionFile n name (Config.s_File s)) (Config.s_List s) (Config.s_Reload s).

Definition findPath (n : Network) (name : string) : option Path :=
  head (base.filter (λ p, pt_Name p = name) (w_Paths n)).

Definition gatewayBranch (n : Network) (pathName gateway : string) : vres (Branch * string) :=
  match findPath n pathName with
  | None => Err "unknown path"
  | Some p =>
      match base.filter (λ br, b_Gateway br ≠ "" ∧ (gateway = "" ∨ b_Gateway br = gateway)) (pt_Routes p) with
      | [] => Err "path has no gateway branch to probe"
      | [br] => Ok (br, OriginNode p)
      | _ => Err "path has multiple gateway branches"
      end
  end.

Definition pathReconnectLinks (n : Network) (br : Branch) (origin : string) : list string :=
  base.filter (λ ln, (l_Dialer <$> linkMap n !! ln) = Some origin) (b_Up br ++ b_Down br)%list.

Definition compiledCondition (n : Network) (name cond : string) : vres Config.Condition :=
  match w_Conditions n !! cond with
  | None => Err "nil"
  | Some spec =>
      match cs_DstIn spec, cs_SrcIn spec, cs_Healthcheck spec with
      | Some s, _, _ => Ok (Config.MkCondition cond (Some (relocateSet n name s)) None None)
      | None, Some s, _ => Ok (Config.MkCondition cond None (Some (relocateSet n name s)) None)
      | None, None, None => Err "nil"
      | None, None, Some hc =>
          let? bt := gatewayBranch n (h_Path hc) (h_Gateway hc) in
          let '(br, tunNode) := bt in
          check? name =? tunNode else "healthcheck condition is emitted on another node";
          let tun := if h_Tun hc =? "" then default "" (originTun (node n tunNode)) else h_Tun hc in
          Ok (Config.MkCondition cond None None (Some (Config.MkHealthcheckSpec (b_Up br) tun (h_Interval hc) (h_Timeout hc) (h_UpGrace hc)
            (pathReconnectLinks n br tunNode))))
      end
  end.

(** [emit], with the pairs already done. *)
Definition emitCondition (n : Network) (st : routes * gset (string * string)) (nc : string * string) : vres (routes * gset (string * string)) :=
  if bool_decide (nc ∈ st.2) then Ok st
  else
    let? d := compiledCondition n nc.1 nc.2 in
    let? out := atNode st.1 nc.1 (λ cn, setConditions cn (Config.n_Conditions cn ++ [d])%list) in
    Ok (out, {[nc]} ∪ st.2).

(** The references in the order they are emitted: by node, then by name. *)
Definition sortedRefs (refs : list (string * string)) : list (string * string) :=
  let nodes := Config.sortStrings (remove_dups (map fst refs)) in
  concat (map (λ nd, map (λ c, (nd, c)) (Config.sortStrings (remove_dups (map snd (base.filter (λ nc, nc.1 = nd) refs))))) nodes).

Definition healthOn (n : Network) (nc : string * string) : vres () :=
  match w_Conditions n !! nc.2 with
  | Some spec =>
      match cs_Healthcheck spec with
      | Some hc =>
          let? bt := gatewayBranch n (h_Path hc) (h_Gateway hc) in
          check? bt.2 =? nc.1 else "healthcheck condition is used on another node"; Ok tt
      | None => Ok tt
      end
  | None => Ok tt
  end.

Definition emitConditions (n : Network) (out : routes) (refs : list (string * string)) : vres routes :=
  let? st := rangeM (λ st nc, let? _ := healthOn n nc in emitCondition n st nc) (out, ∅) (sortedRefs refs) in
  let? st := rangeM (λ st '(cond, spec),
    match cs_Healthcheck spec with
    | None => Ok st
    | Some hc =>
        let? bt := gatewayBranch n (h_Path hc) (h_Gateway hc) in
        emitCondition n st (bt.2, cond)
    end) st (map_to_list (w_Conditions n)) in
  Ok st.1.

(** ** deriveRoutes and Compile *)

Definition isProcessedTun (tunName : string) (r : Config.Route) : bool :=
  bool_decide (Config.m_Processed (Config.r_Match r) = Some true) && (Config.a_Target (Config.r_Action r) =? tunName).

(** The stable sort that puts deliver-to-tun reply rules first. *)
Definition tunFirst (tunName : string) (rs : list Config.Route) : list Config.Route :=
  (base.filter (λ r, isProcessedTun tunName r = true) rs ++ base.filter (λ r, isProcessedTun tunName r = false) rs)%list.

Definition sortRoutes (n : Network) (out : routes) : routes :=
  map_imap (λ name cn, Some (match originTun (node n name) with
    | Some tunName => setRoutes cn (tunFirst tunName (Config.n_Routes cn))
    | None => cn end)) out.

Definition deriveRoutes (n : Network) (out : routes) (links : gmap string Link) : vres routes :=
  let? d := rangeM (pathStep n links) (MkDerivation out [] []) (w_Paths n) in
  let? q := qualifyRules n (dv_pend d) in
  let? out := emitRules (dv_out d) q.1 in
  let? out := emitConditions n out (dv_refs d ++ q.2)%list in
  Ok (sortRoutes n out).

Definition Compile (n : Network) : vres routes :=
  let out := baseNode n <$> w_Nodes n in
  let links := linkMap n in
  let? out := rangeM (addLinkConnections n) out (w_Links n) in
  let? n := inferGateways n links in
  let? out := deriveRoutes n out links in
  let out := Config.Defaults <$> out in
  let? _ := rangeM (λ _ kv, match Config.Validate kv.2 with Err e => Err ("generated config invalid: " +:+ e) | ok => ok end) tt (map_to_list out) in
  Ok out.

(** ** Lemmas: rule keys *)

(** Names the joined keys tell apart. *)
Definition plain (s : string) : Prop := "|"%char ∉ chars s.
Definition condName (s : string) : Prop := s ≠ "" ∧ plain s ∧ ","%char ∉ chars s.

Record rule_clean (r : Config.Route) : Prop := {
  rc_processed : is_Some (Config.m_Processed (Config.r_Match r));
  rc_source : plain (Config.m_Source (Config.r_Match r));
  rc_conds : Forall condName (Config.m_Conditions (Config.r_Match r));
  rc_egress : plain (Config.a_Egress (Config.r_Action r));
  rc_target : plain (Config.a_Target (Config.r_Action r));
}.

Lemma cut_inj (c : ascii) (a b x y : list ascii) :
  c ∉ a → c ∉ b → (a ++ c :: x = b ++ c :: y)%list → a = b ∧ x = y.
Proof.
  revert b. induction a as [|d a IH]; intros [|e b] Ha Hb H; cbn in H.
  - by injection H.
  - injection H as <- _. exfalso. apply Hb. left.
  - injection H as -> _. exfalso. apply Ha. left.
  - injection H as -> H. apply not_elem_of_cons in Ha as [_ Ha], Hb as [_ Hb]. destruct (IH b Ha Hb H) as [-> ->]. done.
Qed.

Lemma concat_chars s l : chars (String.concat "," (s :: l)) = (chars s ++ concat (map (λ t, ","%char :: chars t) l))%list.
Proof.
  revert s. induction l as [|t l IH]; intros s; [cbn; by rewrite app_nil_r|].
  change (String.concat "," (s :: t :: l)) with (s +:+ "," +:+ String.concat "," (t :: l)). rewrite !chars_app, IH. done.
Qed.

Lemma split_concat l : l ≠ [] → Forall (λ s, ","%char ∉ chars s) l → splitOn ","%char (chars (String.concat "," l)) = map chars l.
Proof.
  intros Hl H. destruct l as [|s l]; [done|]. clear Hl. apply Forall_cons_1 in H as [Hs H]. rewrite concat_chars.
  revert s Hs. induction H as [|t l Ht _ IH]; intros s Hs; cbn [map concat app].
  - rewrite app_nil_r. by apply splitOn_last.
  - rewrite splitOn_cons by done. f_equal. by apply IH.
Qed.

Lemma concat_inj l l' : Forall condName l → Forall condName l' → String.concat "," l = String.concat "," l' → l = l'.
Proof.
  intros H H' He.
  assert (∀ k, Forall condName k → Forall (λ s, ","%char ∉ chars s) k) as Hk by (intros k Hk; eapply Forall_impl; [exact Hk|by intros s (_&_&?)]).
  assert (∀ k, Forall condName k → k ≠ [] → String.concat "," k ≠ "") as Hne.
  { intros [|s k] Hck Hk0; [done|]. apply Forall_cons_1 in Hck as [(Hs & _) _]. intros He0. apply (f_equal chars) in He0.
    rewrite concat_chars in He0. apply app_eq_nil in He0 as [He0 _]. apply Hs. by apply chars_inj. }
  destruct (decide (l = [])) as [->|Hl].
  { destruct (decide (l' = [])) as [->|Hl']; [done|]. by destruct (Hne l' H' Hl'). }
  destruct (decide (l' = [])) as [->|Hl'].
  { by destruct (Hne l H Hl). }
  pose proof (split_concat l Hl (Hk l H)) as H1. rewrite He, (split_concat l' Hl' (Hk l' H')) in H1.
  apply (f_equal (map unchars)) in H1. rewrite !map_map in H1.
  rewrite (map_ext _ id (λ s, unchars_chars s)), (map_ext (λ x, unchars (chars x)) id (λ s, unchars_chars s)), !map_id in H1. done.
Qed.

Lemma concat_plain l : Forall condName l → "|"%char ∉ chars (String.concat "," l).
Proof.
  intros H. destruct l as [|s l]; [apply not_elem_of_nil|]. rewrite concat_chars. apply Forall_cons_1 in H as [(_ & Hs & _) H].
  rewrite not_elem_of_app. split; [done|]. induction H as [|t l (_ & Ht & _) _ IH]; cbn [map concat]; [apply not_elem_of_nil|].
  rewrite not_elem_of_app, not_elem_of_cons. by split.
Qed.

Lemma ruleKey_inj r r' : rule_clean r → rule_clean r' → ruleKey r = ruleKey r' → r = r'.
Proof.
  destruct r as [[pr src cs] [eg tg]], r' as [[pr' src' cs'] [eg' tg']]. intros [[p Hp] Hs Hc He Ht] [[p' Hp'] Hs' Hc' He' Ht'] H.
  cbn in *. subst pr pr'. apply (f_equal chars) in H. unfold ruleKey, matchKey, bar in H. cbn [Config.r_Match Config.r_Action Config.m_Processed
    Config.m_Source Config.m_Conditions Config.a_Egress Config.a_Target] in H. rewrite !chars_app in H. rewrite <- !app_assoc in H.
  change (chars "|") with ["|"%char] in H. cbn [app] in H.
  assert (∀ b : bool, "|"%char ∉ chars (if b then "true" else "false")) as Hb.
  { intros b Hin. destruct b; cbn in Hin; repeat (apply elem_of_cons in Hin as [?|Hin]; [done|]); by apply elem_of_nil in Hin. }
  apply cut_inj in H as [H1 H]; [|apply Hb..]. apply cut_inj in H as [H2 H]; [|done..].
  apply cut_inj in H as [H3 H]; [|by apply concat_plain..]. apply cut_inj in H as [H4 H5]; [|done..].
  apply chars_inj in H2, H3, H4, H5. apply concat_inj in H3; [|done..]. subst. by destruct p, p'.
Qed.

(** ** Lemmas: emission *)

Definition rulesOf (name : string) (pend : list pendingRule) : list Config.Route :=
  map pr_route (base.filter (λ pr, pr_node pr = name) pend).

(** Exact duplicates dropped, the first kept. *)
Fixpoint dedup (seen : gset string) (rs : list Config.Route) : list Config.Route :=
  match rs with
  | [] => []
  | r :: rs' => if bool_decide (ruleKey r ∈ seen) then dedup seen rs' else r :: dedup ({[ruleKey r]} ∪ seen) rs'
  end.

Lemma dedup_snoc seen rs r :
  dedup seen (rs ++ [r])%list =
    (dedup seen rs ++ if bool_decide (ruleKey r ∈ seen ∨ ruleKey r ∈ map ruleKey rs) then [] else [r])%list.
Proof.
  revert seen. induction rs as [|q rs IH]; intros seen; cbn [app dedup map].
  - case_bool_decide as H1; case_bool_decide as H2; try done; exfalso; [apply H2; by left|].
    destruct H2 as [H2|H2]; [done|by apply elem_of_nil in H2].
  - case_bool_decide as H1; rewrite IH; [|cbn [app]; f_equal]; f_equal.
    + apply (f_equal (λ b : bool, if b then [] else [r])), bool_decide_ext. rewrite elem_of_cons. split; [tauto|].
      intros [?|[Heq|?]]; [by left|left; by rewrite Heq|by right].
    + apply (f_equal (λ b : bool, if b then [] else [r])), bool_decide_ext. rewrite elem_of_union, elem_of_singleton, elem_of_cons. tauto.
Qed.

Lemma dedup_key seen rs r : r ∈ rs → ruleKey r ∈ seen ∨ ∃ q, q ∈ dedup seen rs ∧ ruleKey q = ruleKey r.
Proof.
  revert seen. induction rs as [|p rs IH]; intros seen Hin; [by apply elem_of_nil in Hin|]. cbn [dedup].
  apply elem_of_cons in Hin as [->|Hin].
  - case_bool_decide; [by left|right]. exists p. split; [by left|done].
  - case_bool_decide as H; [by apply IH|]. destruct (IH ({[ruleKey p]} ∪ seen) Hin) as [Hs|(q & Hq & Hk)].
    + apply elem_of_union in Hs as [Hs|Hs]; [|by left]. apply elem_of_singleton in Hs. right. exists p. split; [by left|done].
    + right. exists q. split; [by right|done].
Qed.

Lemma dedup_sub seen rs r : r ∈ dedup seen rs → r ∈ rs.
Proof.
  revert seen. induction rs as [|p rs IH]; intros seen Hin; [done|]. cbn [dedup] in Hin.
  case_bool_decide; [right; by eapply IH|]. apply elem_of_cons in Hin as [->|Hin]; [left|right; by eapply IH].
Qed.

Definition ruleKeys (pend : list pendingRule) : list (string * string) := map (λ pr, (pr_node pr, ruleKey (pr_route pr))) pend.

(** After a prefix of the pending rules. *)
Record emit_ok (out0 : routes) (pend : list pendingRule) (s : emission) : Prop := {
  eo_routes : ∀ name cn, em_out s !! name = Some cn →
    ∃ cn0, out0 !! name = Some cn0 ∧ cn = setRoutes cn0 (Config.n_Routes cn0 ++ dedup ∅ (rulesOf name pend))%list;
  eo_nodes : ∀ name, is_Some (out0 !! name) → is_Some (em_out s !! name);
  eo_has : ∀ pr, pr ∈ pend → is_Some (em_out s !! pr_node pr);
  eo_seen : ∀ k, k ∈ em_seen s ↔ k ∈ ruleKeys pend;
  eo_fin : ∀ pr, pr ∈ pend → Config.a_Egress (Config.r_Action (pr_route pr)) ≠ "" →
    em_finAt s !! (pr_node pr, matchKey (Config.r_Match (pr_route pr))) = Some (Config.r_Action (pr_route pr));
}.

Lemma setRoutes_id cn : setRoutes cn (Config.n_Routes cn) = cn.
Proof. by destruct cn. Qed.

Lemma rulesOf_snoc name pend pr :
  rulesOf name (pend ++ [pr])%list = (rulesOf name pend ++ if bool_decide (pr_node pr = name) then [pr_route pr] else [])%list.
Proof.
  unfold rulesOf. rewrite filter_app, map_app, filter_cons, filter_nil. f_equal. case_decide; case_bool_decide; done.
Qed.

Lemma ruleKeys_in pend pr : (pr_node pr, ruleKey (pr_route pr)) ∈ ruleKeys pend ↔ ruleKey (pr_route pr) ∈ map ruleKey (rulesOf (pr_node pr) pend).
Proof.
  unfold ruleKeys, rulesOf. rewrite map_map. split.
  - intros (q & Hq & Hin)%list_elem_of_fmap. injection Hq as Hn Hk. apply list_elem_of_fmap. exists q. split; [done|].
    apply list_elem_of_filter. done.
  - intros (q & Hq & Hin)%list_elem_of_fmap. apply list_elem_of_filter in Hin as [Hn Hin]. apply list_elem_of_fmap. exists q. by rewrite Hq, Hn.
Qed.

Lemma nodeAt_ok n name nd : nodeAt n name = Ok nd → w_Nodes n !! name = Some nd ∧ nd = node n name.
Proof. unfold nodeAt, node. destruct (w_Nodes n !! name); [|done]. intros H. simplify_eq. done. Qed.

Lemma atNode_some out name f out' : atNode out name f = Ok out' → ∃ cn, out !! name = Some cn ∧ out' = <[name := f cn]> out.
Proof. unfold atNode. destruct (out !! name) as [cn|]; [|done]. intros H. simplify_eq. by exists cn. Qed.

Lemma emitStep_ok out0 pend s pr s' : emit_ok out0 pend s → emitStep s pr = Ok s' → emit_ok out0 (pend ++ [pr])%list s'.
Proof.
  intros [Hr Hn Hh Hs Hf] He. unfold emitStep in He. apply res_bind_ok in He as (finAt & Hfin & He).
  assert (∀ q, q ∈ (pend ++ [pr])%list → Config.a_Egress (Config.r_Action (pr_route q)) ≠ "" →
    finAt !! (pr_node q, matchKey (Config.r_Match (pr_route q))) = Some (Config.r_Action (pr_route q))) as Hf'.
  { intros q Hq Hq0. destruct (String.eqb_spec (Config.a_Egress (Config.r_Action (pr_route pr))) "") as [Heq|Hne].
    - injection Hfin as <-. apply elem_of_app in Hq as [Hq|Hq]; [by apply Hf|]. by apply list_elem_of_singleton in Hq as ->.
    - apply Config.check_ok in Hfin as [Hchk Hfin]. injection Hfin as <-. apply elem_of_app in Hq as [Hq|Hq].
      + rewrite lookup_insert_Some. destruct (decide ((pr_node pr, matchKey (Config.r_Match (pr_route pr))) = (pr_node q, matchKey (Config.r_Match (pr_route q))))) as [Heq|Hne'].
        * left. split; [done|]. rewrite Heq in Hchk. rewrite (Hf q Hq Hq0) in Hchk. by apply bool_decide_eq_true in Hchk.
        * right. split; [done|]. by apply Hf.
      + apply list_elem_of_singleton in Hq as ->. by rewrite lookup_insert_eq. }
  assert (∀ name, dedup ∅ (rulesOf name (pend ++ [pr])%list) = (dedup ∅ (rulesOf name pend) ++
    if bool_decide (pr_node pr = name) then (if bool_decide ((pr_node pr, ruleKey (pr_route pr)) ∈ em_seen s) then [] else [pr_route pr]) else [])%list) as Hd.
  { intros name. rewrite rulesOf_snoc. destruct (bool_decide (pr_node pr = name)) eqn:Hname; [|by rewrite !app_nil_r].
    apply bool_decide_eq_true in Hname. rewrite dedup_snoc. f_equal. subst name.
    apply (f_equal (λ b : bool, if b then [] else [pr_route pr])), bool_decide_ext. rewrite Hs, ruleKeys_in. split; [|by right].
    intros [?|?]; [by apply elem_of_empty in H|done]. }
  case_bool_decide as Hseen.
  - injection He as <-. split; cbn [em_out em_seen em_finAt].
    + intros name cn Hcn. rewrite Hd. destruct (Hr name cn Hcn) as (cn0 & H0 & ->). exists cn0. split; [done|]. case_bool_decide; by rewrite app_nil_r.
    + done.
    + intros q [Hq|Hq]%elem_of_app; [by apply Hh|]. apply list_elem_of_singleton in Hq as ->.
      apply Hs in Hseen. unfold ruleKeys in Hseen. apply list_elem_of_fmap in Hseen as (q & Hq & Hin). injection Hq as Hq _. rewrite Hq. by apply Hh.
    + intros k. rewrite Hs. unfold ruleKeys. rewrite map_app, elem_of_app. split; [by left|]. intros [?|Hk]; [done|].
      apply list_elem_of_singleton in Hk as ->. by apply Hs.
    + exact Hf'.
  - apply res_bind_ok in He as (out & Hout & He). injection He as <-. apply atNode_some in Hout as (cn1 & Hcn1 & ->).
    split; cbn [em_out em_seen em_finAt].
    + intros name cn [[<- <-]|[Hne Hcn]]%lookup_insert_Some.
      * destruct (Hr _ cn1 Hcn1) as (cn0 & H0 & ->). exists cn0. split; [done|]. rewrite Hd, bool_decide_eq_true_2 by done.
        cbn. by rewrite <- app_assoc.
      * rewrite Hd, bool_decide_eq_false_2, app_nil_r by done. by apply Hr.
    + intros name Hname. destruct (decide (pr_node pr = name)) as [->|Hne]; [by rewrite lookup_insert_eq|]. rewrite lookup_insert_ne by done. by apply Hn.
    + intros q Hq. destruct (decide (pr_node pr = pr_node q)) as [->|Hne]; [by rewrite lookup_insert_eq|]. rewrite lookup_insert_ne by done.
      apply elem_of_app in Hq as [Hq|Hq]; [by apply Hh|]. by apply list_elem_of_singleton in Hq as ->.
    + intros k. rewrite elem_of_union, elem_of_singleton, Hs. unfold ruleKeys. rewrite map_app, elem_of_app. cbn [map]. rewrite list_elem_of_singleton. tauto.
    + exact Hf'.
Qed.

Lemma emit_all out0 done s rest s' :
  emit_ok out0 done s → rangeM emitStep s rest = Ok s' → emit_ok out0 (done ++ rest)%list s'.
Proof.
  revert done s. induction rest as [|pr rest IH]; intros done s Hok H; cbn [rangeM] in H; [simplify_eq; by rewrite app_nil_r|].
  apply res_bind_ok in H as (s1 & H1 & H). replace (done ++ pr :: rest)%list with ((done ++ [pr]) ++ rest)%list by (by rewrite <- app_assoc).
  eapply IH; [|exact H]. by eapply emitStep_ok.
Qed.

Lemma emitRules_ok out pend out' : emitRules out pend = Ok out' → ∃ s, em_out s = out' ∧ emit_ok out pend s.
Proof.
  intros H. apply res_bind_ok in H as (s & H & He). injection He as <-. exists s. split; [done|]. apply (emit_all out []) in H; [exact H|].
  split; cbn [em_out em_seen em_finAt].
  - intros name cn Hcn. exists cn. split; [done|]. change (dedup ∅ (rulesOf name [])) with (@nil Config.Route). by rewrite app_nil_r, setRoutes_id.
  - done.
  - intros pr Hin. by apply elem_of_nil in Hin.
  - intros k. split; [by intros ?%elem_of_empty|by intros ?%elem_of_nil].
  - intros pr Hin. by apply elem_of_nil in Hin.
Qed.

(** The derived rules reach the nodes: each node receives its rules in
    derivation order with exact repetitions dropped, nothing is lost, and no node
    is given two finalizing rules for one match that act differently, of which
    the second would never apply. *)
Theorem emitted_rules out pend out' :
  emitRules out pend = Ok out' →
  (∀ name cn, out' !! name = Some cn → ∃ cn0, out !! name = Some cn0 ∧
     cn = setRoutes cn0 (Config.n_Routes cn0 ++ dedup ∅ (rulesOf name pend))%list) ∧
  (∀ pr, pr ∈ pend → ∃ cn r, out' !! pr_node pr = Some cn ∧ r ∈ Config.n_Routes cn ∧ ruleKey r = ruleKey (pr_route pr)) ∧
  (∀ p q, p ∈ pend → q ∈ pend → pr_node p = pr_node q → Config.r_Match (pr_route p) = Config.r_Match (pr_route q) →
     Config.a_Egress (Config.r_Action (pr_route p)) ≠ "" → Config.a_Egress (Config.r_Action (pr_route q)) ≠ "" →
     Config.r_Action (pr_route p) = Config.r_Action (pr_route q)).
Proof.
  intros H. apply emitRules_ok in H as (s & <- & [Hr Hn Hh Hs Hf]). split; [exact Hr|]. split.
  - intros pr Hin. destruct (Hh pr Hin) as [cn Hcn]. destruct (Hr _ _ Hcn) as (cn0 & _ & ->).
    destruct (dedup_key ∅ (rulesOf (pr_node pr) pend) (pr_route pr)) as [Hk|(q & Hq & Hk)].
    + apply list_elem_of_fmap. exists pr. split; [done|]. by apply list_elem_of_filter.
    + by apply elem_of_empty in Hk.
    + eexists _, q. split; [exact Hcn|]. split; [|done]. cbn. apply elem_of_app. by right.
  - intros p q Hp Hq Hnode Hmatch Hep Heq. pose proof (Hf p Hp Hep) as H1. pose proof (Hf q Hq Heq) as H2.
    rewrite Hnode, Hmatch, H2 in H1. congruence.
Qed.

(** ** Specification: a path's branch realised by the tables *)

(** The node's table has the rule. *)
Definition offers (out : routes) (name : string) (r : Config.Route) : Prop :=
  ∃ cn, out !! name = Some cn ∧ r ∈ Config.n_Routes cn.

(** ... restating the branch's dst_in conditions, or not. *)
Definition relays (n : Network) (out : routes) (name source egress target : string) (br : Branch) : Prop :=
  offers out name (route false source [] egress target) ∨
  offers out name (route false source (base.filter (λ c, isDstIn n c = true) (b_When br)) egress target).

Definition linksOf (links : gmap string Link) (names : list string) : list Link :=
  map (λ ln, default zeroLink (links !! ln)) names.

(** A packet of the branch finds a rule at every node of its way: from the tun
    up link by link to the gateway, which finalizes it, and the reply down link
    by link to the tun. *)
Definition realised (n : Network) (links : gmap string Link) (out : routes) (p : Path) (tun : string) (br : Branch) : Prop :=
  let origin := OriginNode p in
  if b_Gateway br =? "" then offers out origin (route false tun (b_When br) (b_Egress br) tun)
  else
    let up := linksOf links (b_Up br) in
    let down := linksOf links (b_Down br) in
    (∃ up0, head up = Some up0 ∧ senderOf up0 = origin ∧ offers out origin (route false tun (b_When br) "" (l_Name up0))) ∧
    (∀ i a b, up !! i = Some a → up !! S i = Some b →
       senderOf b = targetOf a ∧ relays n out (targetOf a) (l_Name a) "" (l_Name b) br) ∧
    (∃ lastUp, last up = Some lastUp ∧
       relays n out (b_Gateway br) (l_Name lastUp) (b_Egress br) (from_option l_Name tun (head down)) br) ∧
    (∀ i a b, down !! i = Some a → down !! S i = Some b →
       senderOf b = targetOf a ∧ offers out (targetOf a) (route true (l_Name a) [] "" (l_Name b))) ∧
    (∀ d, last down = Some d → targetOf d = origin ∧ offers out origin (route true (l_Name d) [] "" tun)).

(** ** Lemmas: derivation *)

(** What a pending rule becomes: itself, or a relay rule restating conditions. *)
Definition restated (n : Network) (pr pr' : pendingRule) : Prop :=
  pr' = pr ∨ pr_relay pr = true ∧ pr' = withConditions pr (base.filter (λ c, isDstIn n c = true) (pr_when pr)).

Lemma qualifyFrom_rel n all catchAll pend r : qualifyFrom n all catchAll pend = Ok r → Forall2 (restated n) pend r.1.
Proof.
  revert catchAll r. induction pend as [|pr pend IH]; intros catchAll r H; cbn [qualifyFrom] in H; [simplify_eq; constructor|].
  destruct (negb (pr_relay pr) || _) eqn:Hg.
  - apply res_bind_ok in H as (q & Hq & H). simplify_eq. constructor; [by left|]. by eapply IH.
  - apply orb_false_elim in Hg as [Hrel%negb_false_iff _].
    destruct (base.filter (λ c, isDstIn n c = true) (pr_when pr)) as [|c cs] eqn:Hf.
    + apply Config.check_ok in H as [_ H]. apply res_bind_ok in H as (q & Hq & H). simplify_eq. constructor; [by left|]. by eapply IH.
    + apply Config.check_ok in H as [_ H]. apply res_bind_ok in H as (q & Hq & H). simplify_eq.
      constructor; [right; by rewrite Hf|]. by eapply IH.
Qed.

Lemma restated_in n pend pend' pr : Forall2 (restated n) pend pend' → pr ∈ pend → ∃ pr', pr' ∈ pend' ∧ restated n pr pr'.
Proof.
  induction 1 as [|p p' ps ps' Hp _ IH]; intros Hin; [by apply elem_of_nil in Hin|].
  apply elem_of_cons in Hin as [->|Hin]; [exists p'; split; [by left|done]|].
  destruct (IH Hin) as (q & Hq & Hr). exists q. split; [by right|done].
Qed.

Lemma upRelays_in p br up rs i a b :
  upRelays p br up = Ok rs → up !! i = Some a → up !! S i = Some b →
  senderOf b = targetOf a ∧ addBranchRule (targetOf a) (route false (l_Name a) [] "" (l_Name b)) p br ∈ rs.
Proof.
  revert rs i. induction up as [|x up IH]; intros rs i H Ha Hb; [done|]. destruct up as [|y up]; [by destruct i|].
  cbn [upRelays] in H. apply res_bind_ok in H as (mid & Hmid & H). apply res_bind_ok in H as (rs' & Hrs & H). injection H as <-.
  apply Config.check_ok in Hmid as [Hs Hmid]. injection Hmid as <-. apply String.eqb_eq in Hs. destruct i as [|i].
  - cbn in Ha, Hb. simplify_eq. split; [done|by left].
  - destruct (IH rs' i Hrs Ha Hb) as [H1 H2]. split; [done|by right].
Qed.

Lemma downRelays_in down rs i a b :
  downRelays down = Ok rs → down !! i = Some a → down !! S i = Some b →
  senderOf b = targetOf a ∧ addRule (targetOf a) (route true (l_Name a) [] "" (l_Name b)) ∈ rs.
Proof.
  revert rs i. induction down as [|x down IH]; intros rs i H Ha Hb; [done|]. destruct down as [|y down]; [by destruct i|].
  cbn [downRelays] in H. apply res_bind_ok in H as (mid & Hmid & H). apply res_bind_ok in H as (rs' & Hrs & H). injection H as <-.
  apply Config.check_ok in Hmid as [Hs Hmid]. injection Hmid as <-. apply String.eqb_eq in Hs. destruct i as [|i].
  - cbn in Ha, Hb. simplify_eq. split; [done|by left].
  - destruct (IH rs' i Hrs Ha Hb) as [H1 H2]. split; [done|by right].
Qed.

(** Tables that offer every pending rule, possibly restated. *)
Definition carried (n : Network) (out : routes) (rs : list pendingRule) : Prop :=
  ∀ pr, pr ∈ rs → ∃ pr', restated n pr pr' ∧ offers out (pr_node pr') (pr_route pr').

Lemma carried_rule n out rs name r : carried n out rs → addRule name r ∈ rs → offers out name r.
Proof. intros Hc Hin. destruct (Hc _ Hin) as (pr' & [->|[H _]] & Ho); [exact Ho|done]. Qed.

Lemma carried_branch n out rs name source egress target p br :
  carried n out rs → addBranchRule name (route false source [] egress target) p br ∈ rs → relays n out name source egress target br.
Proof. intros Hc Hin. destruct (Hc _ Hin) as (pr' & [->|[_ ->]] & Ho); [by left|by right]. Qed.

Lemma branch_realised n links out p tun br rs :
  branchRules links p tun br = Ok rs → carried n out rs → realised n links out p tun br.
Proof.
  intros H Hc. unfold branchRules in H. unfold realised. fold (linksOf links (b_Up br)) (linksOf links (b_Down br)) in H.
  destruct (b_Gateway br =? ""); [simplify_eq; apply (carried_rule _ _ _ _ _ Hc); by left|].
  destruct (linksOf links (b_Up br)) as [|up0 ups] eqn:Hup; [done|]. rewrite <- Hup in H |- *.
  destruct (last (linksOf links (b_Up br))) as [lastUp|] eqn:Hlast; [|done].
  apply Config.check_ok in H as [Hs%String.eqb_eq H]. apply res_bind_ok in H as (relay & Hrel & H).
  assert (carried n out rs → (∃ up1, head (linksOf links (b_Up br)) = Some up1 ∧ senderOf up1 = OriginNode p ∧
      offers out (OriginNode p) (route false tun (b_When br) "" (l_Name up1))) →
    (∀ pr, pr ∈ relay → pr ∈ rs) →
    addBranchRule (b_Gateway br) (route false (l_Name lastUp) [] (b_Egress br) (match linksOf links (b_Down br) with d :: _ => l_Name d | [] => tun end)) p br ∈ rs →
    (∃ up1, head (linksOf links (b_Up br)) = Some up1 ∧ senderOf up1 = OriginNode p ∧
      offers out (OriginNode p) (route false tun (b_When br) "" (l_Name up1))) ∧
    (∀ i a b, linksOf links (b_Up br) !! i = Some a → linksOf links (b_Up br) !! S i = Some b →
       senderOf b = targetOf a ∧ relays n out (targetOf a) (l_Name a) "" (l_Name b) br) ∧
    (∃ l, Some lastUp = Some l ∧ relays n out (b_Gateway br) (l_Name l) (b_Egress br) (from_option l_Name tun (head (linksOf links (b_Down br)))) br)) as Hhead.
  { intros _ H0 Hsub Hgw. split; [exact H0|]. split.
    - intros i a b Ha Hb. destruct (upRelays_in _ _ _ _ _ _ _ Hrel Ha Hb) as [H1 H2]. split; [done|].
      eapply carried_branch; [exact Hc|]. by apply Hsub.
    - exists lastUp. split; [done|]. eapply carried_branch; [exact Hc|].
      replace (from_option l_Name tun (head (linksOf links (b_Down br)))) with (match linksOf links (b_Down br) with d :: _ => l_Name d | [] => tun end); [exact Hgw|].
      by destruct (linksOf links (b_Down br)). }
  assert (addRule (OriginNode p) (route false tun (b_When br) "" (l_Name up0)) ∈ rs →
    ∃ up1, head (linksOf links (b_Up br)) = Some up1 ∧ senderOf up1 = OriginNode p ∧ offers out (OriginNode p) (route false tun (b_When br) "" (l_Name up1))) as H0.
  { intros Hin. exists up0. split; [by rewrite Hup|]. split; [done|]. by eapply carried_rule. }
  destruct (last (linksOf links (b_Down br))) as [lastDown|] eqn:Hld.
  - apply res_bind_ok in H as (downs & Hdowns & H). apply Config.check_ok in H as [Ht%String.eqb_eq H]. injection H as <-.
    destruct Hhead as (Ha & Hb & Hg); [done|apply H0; left|intros pr Hin; right; apply elem_of_app; left; apply elem_of_app; by left| |].
    { right. apply elem_of_app. left. apply elem_of_app. right. left. }
    split; [exact Ha|]. split; [exact Hb|]. split; [exact Hg|]. split.
    + intros i a b Hia Hib. destruct (downRelays_in _ _ _ _ _ Hdowns Hia Hib) as [H1 H2]. split; [done|].
      eapply carried_rule; [exact Hc|]. right. apply elem_of_app. right. apply elem_of_app. by left.
    + intros d Hd. injection Hd as <-. split; [done|]. eapply carried_rule; [exact Hc|]. right. apply elem_of_app. right. apply elem_of_app. right. left.
  - injection H as <-. destruct Hhead as (Ha & Hb & Hg); [done|apply H0; left|intros pr Hin; right; apply elem_of_app; by left| |].
    { right. apply elem_of_app. right. left. }
    apply last_None in Hld. split; [exact Ha|]. split; [exact Hb|]. split; [exact Hg|]. rewrite Hld. split; [intros i a b H; by destruct i|done].
Qed.
