(* ===== verification/Paths.v ===== *)
(** * Paths realised by the compiled tables

    The compiler of Compile.v turns every branch of every path into rules on the
    nodes of its way.  This file shows that the tables it derives carry a packet
    of the branch from its tun to the gateway and the reply back, and that the
    restating of conditions leaves no rule behind an unguarded one. *)

From S2P Require Import Prelude GoStrings Config Dsl Schema Compile.
Local Open Scope Z_scope.
Local Open Scope string_scope.
Local Open Scope go_scope.

(** ** Lemmas: names the joined keys tell apart *)

(** A schema whose names hold none of the separators the compiler joins with. *)
Record clean_names (n : Network) (links : gmap string Link) : Prop := {
  cl_links : ∀ ln l, links !! ln = Some l → plain (l_Name l);
  cl_tuns : ∀ p, p ∈ w_Paths n → plain (default "" (originTun (node n (OriginNode p))));
  cl_egresses : ∀ p br, p ∈ w_Paths n → br ∈ pt_Routes p → plain (b_Egress br);
  cl_conditions : ∀ p br, p ∈ w_Paths n → br ∈ pt_Routes p → Forall condName (b_When br);
}.

#[export] Instance plain_dec s : Decision (plain s).
Proof. unfold plain. apply _. Defined.
#[export] Instance condName_dec s : Decision (condName s).
Proof. unfold condName. apply _. Defined.

Definition clean_namesb (n : Network) (links : gmap string Link) : bool :=
  bool_decide (map_Forall (λ _ l, plain (l_Name l)) links) &&
  forallb (λ p, bool_decide (plain (default "" (originTun (node n (OriginNode p))))) &&
    forallb (λ br, bool_decide (plain (b_Egress br)) && bool_decide (Forall condName (b_When br))) (pt_Routes p)) (w_Paths n).

Lemma clean_namesb_sound n links : clean_namesb n links = true → clean_names n links.
Proof.
  unfold clean_namesb. rewrite andb_true_iff, bool_decide_eq_true, forallb_forall. intros [Hl Hp].
  assert (∀ p, p ∈ w_Paths n → plain (default "" (originTun (node n (OriginNode p)))) ∧
    ∀ br, br ∈ pt_Routes p → plain (b_Egress br) ∧ Forall condName (b_When br)) as H.
  { intros p Hin%list_elem_of_In. specialize (Hp p Hin). rewrite andb_true_iff, bool_decide_eq_true, forallb_forall in Hp.
    destruct Hp as [Ht Hb]. split; [done|]. intros br Hbr%list_elem_of_In. specialize (Hb br Hbr).
    by rewrite andb_true_iff, !bool_decide_eq_true in Hb. }
  split; [done|by intros p Hin; apply H|intros p br Hin Hbr; by apply (H p Hin)..].
Qed.

Definition pending_clean (pr : pendingRule) : Prop := rule_clean (pr_route pr) ∧ Forall condName (pr_when pr).

Lemma plain_nil : plain "".
Proof. apply not_elem_of_nil. Qed.

Lemma route_clean b source cs egress target :
  plain source → Forall condName cs → plain egress → plain target → rule_clean (route b source cs egress target).
Proof. intros. split; [by eexists|done..]. Qed.

Lemma upRelays_clean p br up rs :
  Forall (λ l, plain (l_Name l)) up → Forall condName (b_When br) → upRelays p br up = Ok rs → Forall pending_clean rs.
Proof.
  intros Hup Hw. revert rs. induction Hup as [|a up Ha Hup IH]; intros rs H; [injection H as <-; constructor|]. destruct up as [|b up]; [injection H as <-; constructor|].
  cbn [upRelays] in H. apply res_bind_ok in H as (mid & _ & H). apply res_bind_ok in H as (rs' & Hrs & H). injection H as <-.
  constructor; [|by apply IH]. split; [|done]. apply route_clean; [done|by apply Forall_nil_2|apply plain_nil|by apply Forall_cons_1 in Hup as [? _]].
Qed.

Lemma downRelays_clean down rs : Forall (λ l, plain (l_Name l)) down → downRelays down = Ok rs → Forall pending_clean rs.
Proof.
  intros Hup. revert rs. induction Hup as [|a up Ha Hup IH]; intros rs H; [injection H as <-; constructor|]. destruct up as [|b up]; [injection H as <-; constructor|].
  cbn [downRelays] in H. apply res_bind_ok in H as (mid & _ & H). apply res_bind_ok in H as (rs' & Hrs & H). injection H as <-.
  constructor; [|by apply IH]. split; [|by apply Forall_nil_2]. apply route_clean; [done|by apply Forall_nil_2|apply plain_nil|by apply Forall_cons_1 in Hup as [? _]].
Qed.

Lemma linksOf_clean links names : (∀ ln l, links !! ln = Some l → plain (l_Name l)) → Forall (λ l, plain (l_Name l)) (linksOf links names).
Proof.
  intros H. apply Forall_map, Forall_true. intros ln. unfold compose. destruct (links !! ln) as [l|] eqn:Hl; [by eapply H|apply plain_nil].
Qed.

Lemma branchRules_clean links p tun br rs :
  (∀ ln l, links !! ln = Some l → plain (l_Name l)) → plain tun → plain (b_Egress br) → Forall condName (b_When br) →
  branchRules links p tun br = Ok rs → Forall pending_clean rs.
Proof.
  intros Hl Ht He Hw H. unfold branchRules in H. fold (linksOf links (b_Up br)) (linksOf links (b_Down br)) in H.
  destruct (b_Gateway br =? "").
  { simplify_eq. constructor; [|constructor]. split; [by apply route_clean|by apply Forall_nil_2]. }
  pose proof (linksOf_clean links (b_Up br) Hl) as Hup. pose proof (linksOf_clean links (b_Down br) Hl) as Hdown.
  destruct (linksOf links (b_Up br)) as [|up0 ups] eqn:Hu; [done|]. rewrite <- Hu in H, Hup.
  destruct (last (linksOf links (b_Up br))) as [lastUp|] eqn:Hlast; [|done].
  assert (plain (l_Name up0)) as H0 by (rewrite Hu in Hup; by apply Forall_cons_1 in Hup as [? _]).
  assert (plain (l_Name lastUp)) as H1.
  { rewrite last_lookup in Hlast. by eapply (Forall_lookup_1 (λ l, plain (l_Name l))) in Hlast. }
  assert (plain (match linksOf links (b_Down br) with d :: _ => l_Name d | [] => tun end)) as H2.
  { destruct Hdown; done. }
  apply Config.check_ok in H as [_ H]. apply res_bind_ok in H as (relay & Hrel & H).
  assert (Forall pending_clean (addRule (OriginNode p) (route false tun (b_When br) "" (l_Name up0)) :: relay ++
    [addBranchRule (b_Gateway br) (route false (l_Name lastUp) [] (b_Egress br) (match linksOf links (b_Down br) with d :: _ => l_Name d | [] => tun end)) p br])) as Hhead.
  { constructor; [split; [apply route_clean; [done..|apply plain_nil|done]|by apply Forall_nil_2]|]. apply Forall_app. split; [exact (upRelays_clean _ _ _ _ Hup Hw Hrel)|].
    constructor; [|constructor]. split; [by apply route_clean|done]. }
  destruct (last (linksOf links (b_Down br))) as [lastDown|] eqn:Hld; [|by simplify_eq].
  apply res_bind_ok in H as (downs & Hdowns & H). apply Config.check_ok in H as [_ H]. injection H as <-.
  change (Forall pending_clean ((addRule (OriginNode p) (route false tun (b_When br) "" (l_Name up0)) :: relay ++
    [addBranchRule (b_Gateway br) (route false (l_Name lastUp) [] (b_Egress br) (match linksOf links (b_Down br) with d :: _ => l_Name d | [] => tun end)) p br])
    ++ (downs ++ [addRule (OriginNode p) (route true (l_Name lastDown) [] "" tun)]))).
  apply Forall_app. split; [exact Hhead|]. apply Forall_app. split; [exact (downRelays_clean _ _ Hdown Hdowns)|].
  constructor; [|constructor]. split; [|by apply Forall_nil_2]. apply route_clean; [|by apply Forall_nil_2|apply plain_nil|done].
  rewrite last_lookup in Hld. by eapply (Forall_lookup_1 (λ l, plain (l_Name l))) in Hld.
Qed.

Lemma restated_clean n pend pend' : Forall2 (restated n) pend pend' → Forall pending_clean pend → Forall pending_clean pend'.
Proof.
  induction 1 as [|p p' ps ps' Hp _ IH]; intros Hc; [constructor|]. apply Forall_cons_1 in Hc as [[Hr Hw] Hc]. constructor; [|by apply IH].
  destruct Hp as [->|[_ ->]]; [by split|]. destruct Hr as [? ? ? ? ?]. split; [|done]. split; [done|done| |done|done].
  cbn. apply Forall_forall. intros c [_ Hc']%list_elem_of_filter. by eapply (Forall_forall condName (pr_when p)).
Qed.

(** ** Lemmas: the walk over the paths *)

Definition pathTun (n : Network) (p : Path) : string := default "" (originTun (node n (OriginNode p))).
Definition kernelPath (n : Network) (p : Path) : bool := nd_Datapath (node n (OriginNode p)) =? "kernel".

Lemma branches_pend links p tun brs acc pend :
  rangeM (λ acc br, let? rs := branchRules links p tun br in Ok (acc ++ rs)%list) acc brs = Ok pend →
  (∀ pr, pr ∈ acc → pr ∈ pend) ∧
  (∀ br, br ∈ brs → ∃ rs, branchRules links p tun br = Ok rs ∧ ∀ pr, pr ∈ rs → pr ∈ pend) ∧
  (∀ pr, pr ∈ pend → pr ∈ acc ∨ ∃ br rs, br ∈ brs ∧ branchRules links p tun br = Ok rs ∧ pr ∈ rs).
Proof.
  revert acc. induction brs as [|b brs IH]; intros acc H; cbn [rangeM] in H.
  - injection H as <-. split; [done|]. split; [by intros br ?%elem_of_nil|by left].
  - apply res_bind_ok in H as (acc' & Ha & H). apply res_bind_ok in Ha as (rs & Hrs & Ha). injection Ha as <-.
    destruct (IH _ H) as (H1 & H2 & H3). split; [intros pr Hpr; apply H1, elem_of_app; by left|]. split.
    + intros br [->|Hbr]%elem_of_cons; [|by apply H2]. exists rs. split; [done|]. intros pr Hpr. apply H1, elem_of_app. by right.
    + intros pr Hpr. destruct (H3 pr Hpr) as [[Hin|Hin]%elem_of_app|(br & rs' & Hbr & Hr & Hin)]; [by left| |].
      * right. exists b, rs. split; [left|done].
      * right. exists br, rs'. split; [by right|done].
Qed.

Lemma pathStep_pend n links d p d' :
  pathStep n links d p = Ok d' →
  (∀ pr, pr ∈ dv_pend d → pr ∈ dv_pend d') ∧
  (∀ br, kernelPath n p = false → br ∈ pt_Routes p →
     ∃ rs, branchRules links p (pathTun n p) br = Ok rs ∧ ∀ pr, pr ∈ rs → pr ∈ dv_pend d') ∧
  (∀ pr, pr ∈ dv_pend d' → pr ∈ dv_pend d ∨ ∃ br rs, br ∈ pt_Routes p ∧ branchRules links p (pathTun n p) br = Ok rs ∧ pr ∈ rs).
Proof.
  unfold pathStep, kernelPath. intros H. apply res_bind_ok in H as (nd & [_ ->]%nodeAt_ok & H). destruct (nd_Datapath (node n (OriginNode p)) =? "kernel").
  - apply res_bind_ok in H as (out & _ & H). injection H as <-. cbn [dv_pend]. split; [done|]. split; [done|by left].
  - apply res_bind_ok in H as (pend & Hp & H). injection H as <-. cbn [dv_pend]. apply branches_pend in Hp as (H1 & H2 & H3).
    split; [done|]. split; [|done]. intros br _. apply H2.
Qed.

Lemma paths_pend n links ps d d' :
  rangeM (pathStep n links) d ps = Ok d' → ∀ p br, p ∈ ps → kernelPath n p = false → br ∈ pt_Routes p →
  ∃ rs, branchRules links p (pathTun n p) br = Ok rs ∧ ∀ pr, pr ∈ rs → pr ∈ dv_pend d'.
Proof.
  intros H p br Hp Hk Hbr.
  apply (Config.rangeM_reaches (pathStep n links) (λ p d, kernelPath n p = false → ∀ br, br ∈ pt_Routes p →
    ∃ rs, branchRules links p (pathTun n p) br = Ok rs ∧ ∀ pr, pr ∈ rs → pr ∈ dv_pend d) ps d); try done.
  - intros s x s' _ Hs Hk' b Hb. apply pathStep_pend in Hs as (_ & H2 & _). by apply H2.
  - intros s x s' y _ Hs Hy Hk' b Hb. destruct (Hy Hk' b Hb) as (rs & Hrs & Hin). exists rs. split; [done|].
    apply pathStep_pend in Hs as (H1 & _). intros pr Hpr. by apply H1, Hin.
Qed.

Lemma paths_clean n links d' out :
  clean_names n links → rangeM (pathStep n links) (MkDerivation out [] []) (w_Paths n) = Ok d' → Forall pending_clean (dv_pend d').
Proof.
  intros [Hl Ht He Hc] H.
  refine (Config.rangeM_inv (pathStep n links) (λ d, Forall pending_clean (dv_pend d)) _ _ _ _ _ H); [|constructor].
  intros s p s' Hp Hs Hst. apply pathStep_pend in Hst as (_ & _ & H3). apply Forall_forall. intros pr Hpr.
  destruct (H3 pr Hpr) as [Hin|(br & rs & Hbr & Hrs & Hin)]; [by eapply (Forall_forall pending_clean (dv_pend s))|].
  pose proof (branchRules_clean links p _ br rs Hl (Ht p Hp) (He p br Hp Hbr) (Hc p br Hp Hbr) Hrs) as Hcl.
  by eapply (Forall_forall pending_clean rs).
Qed.

(** ** Lemmas: configurations only grow *)

(** What the later stages of the compiler do to a node: its key, datapath and
    connections stay, its rules stay among others. *)
Record node_grows (cn cn' : cfg) : Prop := {
  ng_psk : Config.n_PSK cn' = Config.n_PSK cn;
  ng_datapath : Config.n_Datapath cn' = Config.n_Datapath cn;
  ng_connections : Config.n_Connections cn' = Config.n_Connections cn;
  ng_routes : ∀ r, r ∈ Config.n_Routes cn → r ∈ Config.n_Routes cn';
}.

#[export] Instance node_grows_preorder : PreOrder node_grows.
Proof.
  split; [by intros cn; split|]. intros a b c [] []. split; [congruence..|auto].
Qed.

Definition grows (out out' : routes) : Prop :=
  dom out' = dom out ∧ ∀ name cn cn', out !! name = Some cn → out' !! name = Some cn' → node_grows cn cn'.

Lemma grows_at out out' name cn : grows out out' → out !! name = Some cn → ∃ cn', out' !! name = Some cn' ∧ node_grows cn cn'.
Proof.
  intros [Hd H] Hcn. assert (is_Some (out' !! name)) as [cn' Hcn'] by (apply elem_of_dom; rewrite Hd; by apply elem_of_dom_2 in Hcn).
  exists cn'. split; [done|by eapply H].
Qed.

#[export] Instance grows_preorder : PreOrder grows.
Proof.
  split.
  - intros out. split; [done|]. intros name cn cn' H H'. assert (cn' = cn) as -> by congruence. reflexivity.
  - intros a b c Hab Hbc. split; [by rewrite (proj1 Hbc), (proj1 Hab)|]. intros name cn cn' Hcn Hcn'.
    destruct (grows_at _ _ _ _ Hab Hcn) as (cm & Hcm & H1). transitivity cm; [done|]. by eapply (proj2 Hbc).
Qed.

Lemma grows_atNode out name f out' : (∀ cn, node_grows cn (f cn)) → atNode out name f = Ok out' → grows out out'.
Proof.
  intros Hf (cn & Hcn & ->)%atNode_some. split; [rewrite dom_insert_L; apply elem_of_dom_2 in Hcn; set_solver|].
  intros nm c c' Hc Hc'. destruct (decide (name = nm)) as [->|Hne].
  - rewrite lookup_insert_eq in Hc'. assert (c = cn) as -> by congruence. injection Hc' as <-. apply Hf.
  - rewrite lookup_insert_ne in Hc' by done. assert (c' = c) as -> by congruence. reflexivity.
Qed.

Lemma grows_rangeM {A} (f : routes → A → vres routes) xs out out' :
  (∀ o x o', f o x = Ok o' → grows o o') → rangeM f out xs = Ok out' → grows out out'.
Proof.
  intros Hf H. refine (Config.rangeM_inv f (grows out) _ _ _ _ _ H); [|reflexivity]. intros o x o' _ Ho Hx. transitivity o; [done|by eapply Hf].
Qed.

Lemma grows_pathStep n links d p d' : pathStep n links d p = Ok d' → grows (dv_out d) (dv_out d').
Proof.
  unfold pathStep. intros H. apply res_bind_ok in H as (nd & _ & H). destruct (nd_Datapath nd =? "kernel").
  - apply res_bind_ok in H as (out & Ho & H). injection H as <-. cbn [dv_out]. eapply grows_rangeM; [|exact Ho].
    intros o br o' Hx. eapply grows_atNode; [|exact Hx]. by intros cn; split.
  - apply res_bind_ok in H as (pend & _ & H). injection H as <-. reflexivity.
Qed.

Lemma grows_emitRules out pend out' : emitRules out pend = Ok out' → grows out out'.
Proof.
  intros H. apply res_bind_ok in H as (s & H & He). injection He as <-.
  refine (Config.rangeM_inv emitStep (λ s, grows out (em_out s)) _ _ _ _ _ H); [|reflexivity].
  intros t pr t' _ Ht Hx. transitivity (em_out t); [done|]. unfold emitStep in Hx. apply res_bind_ok in Hx as (fin & _ & Hx).
  case_bool_decide; [injection Hx as <-; reflexivity|]. apply res_bind_ok in Hx as (o & Ho & Hx). injection Hx as <-.
  eapply grows_atNode; [|exact Ho]. intros cn. split; [done..|]. intros r Hr. cbn. apply elem_of_app. by left.
Qed.

Lemma grows_emitCondition n st nc st' : emitCondition n st nc = Ok st' → grows st.1 st'.1.
Proof.
  unfold emitCondition. case_bool_decide; [intros [= ->]; reflexivity|]. intros (d & _ & He)%res_bind_ok.
  apply res_bind_ok in He as (out & Hout & He). injection He as <-. cbn [fst]. eapply grows_atNode; [|exact Hout]. by intros cn; split.
Qed.

Lemma grows_emitConditions n out refs out' : emitConditions n out refs = Ok out' → grows out out'.
Proof.
  intros H. unfold emitConditions in H. apply res_bind_ok in H as (st & Hst & H). apply res_bind_ok in H as (st' & Hst' & H).
  injection H as <-. refine (Config.rangeM_inv _ (λ st, grows out st.1) _ _ _ _ _ Hst').
  - intros s [c spec] s' _ Hs Hx. transitivity s.1; [done|]. destruct (cs_Healthcheck spec); [|injection Hx as ->; reflexivity].
    apply res_bind_ok in Hx as (bt & _ & Hx). by eapply grows_emitCondition.
  - refine (Config.rangeM_inv _ (λ st, grows out st.1) _ _ _ _ _ Hst); [|reflexivity].
    intros s nc s' _ Hs Hx. transitivity s.1; [done|]. apply res_bind_ok in Hx as (u & _ & Hx). by eapply grows_emitCondition.
Qed.

Lemma tunFirst_in tunName rs r : r ∈ tunFirst tunName rs ↔ r ∈ rs.
Proof.
  unfold tunFirst. rewrite elem_of_app, !list_elem_of_filter. destruct (isProcessedTun tunName r); naive_solver.
Qed.

Lemma grows_sortRoutes n out : grows out (sortRoutes n out).
Proof.
  assert (∀ name cn, out !! name = Some cn → ∃ cn', sortRoutes n out !! name = Some cn' ∧ node_grows cn cn') as H.
  { intros name cn Hcn. unfold sortRoutes. rewrite map_lookup_imap, Hcn. cbn. eexists. split; [done|].
    destruct (originTun (node n name)); [|reflexivity]. split; [done..|]. intros r Hr. cbn. by apply tunFirst_in. }
  split.
  - apply set_eq. intros name. rewrite !elem_of_dom. unfold sortRoutes. rewrite map_lookup_imap. destruct (out !! name); cbn; [|done].
    split; intros _; by eexists.
  - intros name cn cn' Hcn Hcn'. destruct (H name cn Hcn) as (c & Hc & Hg). assert (cn' = c) as -> by congruence. done.
Qed.

Lemma grows_deriveRoutes n out links out' : deriveRoutes n out links = Ok out' → grows out out'.
Proof.
  intros H. unfold deriveRoutes in H. apply res_bind_ok in H as (d & Hd & H). apply res_bind_ok in H as (q & _ & H).
  apply res_bind_ok in H as (o1 & Ho1 & H). apply res_bind_ok in H as (o2 & Ho2 & H). injection H as <-.
  transitivity (dv_out d).
  { refine (Config.rangeM_inv (pathStep n links) (λ d, grows out (dv_out d)) _ _ _ _ _ Hd); [|reflexivity].
    intros s p s' _ Hs Hx. transitivity (dv_out s); [done|by eapply grows_pathStep]. }
  transitivity o1; [by eapply grows_emitRules|]. transitivity o2; [by eapply grows_emitConditions|]. apply grows_sortRoutes.
Qed.

#[export] Instance offers_proper : Proper (grows ==> eq ==> eq ==> impl) offers.
Proof.
  intros out out' Hg nm ? <- r ? <- (cn & Hcn & Hr). destruct (grows_at _ _ _ _ Hg Hcn) as (cn' & Hcn' & Hn).
  exists cn'. split; [done|]. by apply Hn.
Qed.

Lemma emitted_offers out pend out' :
  Forall pending_clean pend → emitRules out pend = Ok out' → ∀ pr, pr ∈ pend → offers out' (pr_node pr) (pr_route pr).
Proof.
  intros Hc H pr Hin. apply emitRules_ok in H as (s & <- & [Hr _ Hh _ _]). destruct (Hh pr Hin) as [cn Hcn].
  destruct (Hr _ _ Hcn) as (cn0 & _ & Heq). exists cn. split; [done|]. rewrite Heq. cbn. apply elem_of_app. right.
  destruct (dedup_key ∅ (rulesOf (pr_node pr) pend) (pr_route pr)) as [Hk|(q & Hq & Hk)].
  - apply list_elem_of_fmap. exists pr. split; [done|]. by apply list_elem_of_filter.
  - by apply elem_of_empty in Hk.
  - pose proof (dedup_sub _ _ _ Hq) as Hsub. apply list_elem_of_fmap in Hsub as (p & -> & [_ Hp]%list_elem_of_filter).
    rewrite Forall_forall in Hc. apply ruleKey_inj in Hk; [by rewrite <- Hk|apply Hc, Hp|apply Hc, Hin].
Qed.

Lemma derive_realised n out links out' p br :
  clean_names n links → deriveRoutes n out links = Ok out' →
  p ∈ w_Paths n → kernelPath n p = false → br ∈ pt_Routes p →
  ∃ rs, branchRules links p (pathTun n p) br = Ok rs ∧ carried n out' rs.
Proof.
  intros Hclean H Hp Hk Hbr. unfold deriveRoutes in H.
  apply res_bind_ok in H as (d & Hd & H). apply res_bind_ok in H as (q & Hq & H). apply res_bind_ok in H as (o1 & Ho1 & H).
  apply res_bind_ok in H as (o2 & Ho2 & H). injection H as <-.
  destruct (paths_pend n links _ _ _ Hd p br Hp Hk Hbr) as (rs & Hrs & Hin). pose proof (paths_clean n links d out Hclean Hd) as Hc.
  apply qualifyFrom_rel in Hq. exists rs. split; [exact Hrs|]. intros pr Hpr.
  destruct (restated_in _ _ _ _ Hq (Hin pr Hpr)) as (pr' & Hpr' & Hre). exists pr'. split; [done|].
  eapply offers_proper; [|reflexivity..|eapply emitted_offers; [|exact Ho1|done]].
  - transitivity o2; [by eapply grows_emitConditions|apply grows_sortRoutes].
  - by eapply restated_clean.
Qed.

Lemma offers_Defaults out nm r : offers out nm r → offers (Config.Defaults <$> out) nm r.
Proof. intros (cn & Hcn & Hr). exists (Config.Defaults cn). by rewrite lookup_fmap, Hcn. Qed.

(** The stages of a compilation that succeeds. *)
Lemma Compile_stages n out :
  Compile n = Ok out → ∃ o1 n' o2, rangeM (addLinkConnections n) (baseNode n <$> w_Nodes n) (w_Links n) = Ok o1 ∧
    inferGateways n (linkMap n) = Ok n' ∧ deriveRoutes n' o1 (linkMap n) = Ok o2 ∧ out = Config.Defaults <$> o2 ∧
    ∀ name cn, out !! name = Some cn → Config.Validate cn = Ok tt.
Proof.
  intros H. unfold Compile in H. apply res_bind_ok in H as (o1 & H1 & H). apply res_bind_ok in H as (n' & H2 & H).
  apply res_bind_ok in H as (o2 & H3 & H). apply res_bind_ok in H as ([] & H4 & H). injection H as <-.
  exists o1, n', o2. split; [done|]. split; [done|]. split; [done|]. split; [done|]. intros name cn Hcn.
  apply (Config.rangeM_each _ (λ kv, Config.Validate kv.2 = Ok tt)) in H4; [|by intros [? ?]; destruct (Config.Validate _)].
  rewrite Forall_forall in H4. apply (H4 (name, cn)). by apply elem_of_map_to_list.
Qed.

(** Claim C5.  Every branch of every userspace path is realised by the compiled
    configurations: the origin has a rule from its tun to the first up link under
    the branch's conditions, every relay receives on one link and forwards on the
    next, the gateway finalizes onto the branch's egress, the reply finds a rule
    at every node of the way down, and the last one delivers it to the tun. *)
Theorem path_realised n n' out p br :
  Compile n = Ok out → inferGateways n (linkMap n) = Ok n' → clean_names n' (linkMap n) →
  p ∈ w_Paths n' → kernelPath n' p = false → br ∈ pt_Routes p →
  realised n' (linkMap n) out p (pathTun n' p) br.
Proof.
  intros H Hn' Hclean Hp Hk Hbr. apply Compile_stages in H as (o1 & m & o2 & _ & Hm & Hd & -> & _).
  rewrite Hn' in Hm. injection Hm as <-. destruct (derive_realised _ _ _ _ _ _ Hclean Hd Hp Hk Hbr) as (rs & Hrs & Hc).
  eapply branch_realised; [exact Hrs|]. intros pr Hpr. destruct (Hc pr Hpr) as (pr' & Hre & Ho). exists pr'. split; [done|by apply offers_Defaults].
Qed.

(** ** Lemmas: restating *)

Definition conds (pr : pendingRule) : list string := Config.m_Conditions (Config.r_Match (pr_route pr)).

(** The rules of branches that diverge where they arrive. *)
Definition diverges (all : list pendingRule) (pr : pendingRule) : Prop :=
  pr_relay pr = true ∧ (2 ≤ size (actionsAt all (arrival pr)))%nat.

Lemma withConditions_diverges all pr cs : diverges all (withConditions pr cs) ↔ diverges all pr.
Proof. done. Qed.

Lemma qualifyFrom_order n all catchAll pend r :
  qualifyFrom n all catchAll pend = Ok r → Forall (λ pr, diverges all pr → conds pr = []) pend →
  (∀ b, b ∈ r.1 → diverges all b → arrival b ∈ catchAll → conds b = []) ∧
  (∀ b, b ∈ r.1 → diverges all b → conds b = base.filter (λ c, isDstIn n c = true) (pr_when b) ∧ (conds b = [] → pr_when b = [])) ∧
  (∀ i j a b, (i < j)%nat → r.1 !! i = Some a → r.1 !! j = Some b → diverges all a → diverges all b → arrival a = arrival b →
     conds a = [] → conds b = []).
Proof.
  revert catchAll r. induction pend as [|pr pend IH]; intros catchAll r H Hc; cbn [qualifyFrom] in H.
  { injection H as <-. cbn. split; [|split]; [by intros b ?%elem_of_nil..|by intros i j a b _ ?]. }
  apply Forall_cons_1 in Hc as [Hpr Hc]. destruct (negb (pr_relay pr) || _) eqn:Hg.
  - apply res_bind_ok in H as (q & Hq & H). injection H as <-. cbn [fst].
    assert (¬ diverges all pr) as Hnd.
    { intros [Hr Hs]. rewrite Hr in Hg. change (negb true) with false in Hg. rewrite orb_false_l in Hg. apply Nat.ltb_lt in Hg. lia. }
    destruct (IH _ _ Hq Hc) as (H1 & H2 & H3). split; [|split].
    + intros b [->|Hb]%elem_of_cons Hd; [done|by apply H1].
    + intros b [->|Hb]%elem_of_cons Hd; [done|by apply H2].
    + intros [|i] [|j] a b Hij Ha Hb Hda Hdb; [lia| |lia|by eapply (H3 i j); [lia|..]]. cbn in Ha. by simplify_eq.
  - apply orb_false_elim in Hg as [Hrel%negb_false_iff Hsz%Nat.ltb_ge].
    assert (diverges all pr) as Hd by done.
    destruct (base.filter (λ c, isDstIn n c = true) (pr_when pr)) as [|c cs] eqn:Hf.
    + apply Config.check_ok in H as [Hw%Nat.eqb_eq H]. apply res_bind_ok in H as (q & Hq & H). injection H as <-. cbn [fst].
      apply length_zero_iff_nil in Hw. destruct (IH _ _ Hq Hc) as (H1 & H2 & H3). split; [|split].
      * intros b [->|Hb]%elem_of_cons Hdb Hk; [by apply Hpr|]. apply H1; [done..|]. apply elem_of_union. by right.
      * intros b [->|Hb]%elem_of_cons Hdb; [|by apply H2]. rewrite Hf. split; [by apply Hpr|done].
      * intros [|i] [|j] a b Hij Ha Hb Hda Hdb Harr Hca; [lia| |lia|by eapply (H3 i j); [lia|..]].
        cbn in Ha, Hb. injection Ha as <-. apply H1; [by eapply list_elem_of_lookup_2|done|]. rewrite <- Harr. set_solver.
    + apply Config.check_ok in H as [Hk H]. apply res_bind_ok in H as (q & Hq & H). injection H as <-. cbn [fst].
      apply negb_true_iff, bool_decide_eq_false in Hk. destruct (IH _ _ Hq Hc) as (H1 & H2 & H3). split; [|split].
      * intros b [->|Hb]%elem_of_cons Hdb Hk'; [by destruct Hk|by apply H1].
      * intros b [->|Hb]%elem_of_cons Hdb; [|by apply H2]. split; [symmetry; exact Hf|done].
      * intros [|i] [|j] a b Hij Ha Hb Hda Hdb Harr Hca; [lia| |lia|by eapply (H3 i j); [lia|..]].
        cbn in Ha. injection Ha as <-. done.
Qed.

(** Where branches arrive on one link and part, every rule of a
    conditional branch restates exactly the dst_in conditions of its branch, at
    least one, and only default branches stay unguarded; an unguarded rule never
    stands above a guarded one, so no conditional branch is dead there. *)
Theorem no_dead_branch n pend q :
  qualifyRules n pend = Ok q → Forall (λ pr, diverges pend pr → conds pr = []) pend →
  Forall2 (restated n) pend q.1 ∧
  (∀ b, b ∈ q.1 → diverges pend b →
     conds b = base.filter (λ c, isDstIn n c = true) (pr_when b) ∧ (conds b = [] → pr_when b = [])) ∧
  (∀ i j a b, (i < j)%nat → q.1 !! i = Some a → q.1 !! j = Some b → diverges pend a → diverges pend b →
     arrival a = arrival b → conds a = [] → conds b = []).
Proof.
  intros H Hc. split; [by eapply qualifyFrom_rel|]. by destruct (qualifyFrom_order _ _ _ _ _ H Hc) as (_ & H2 & H3).
Qed.

(** ** Lemmas: connections *)

(** The node, with its key, has the connection. *)
Definition attached (out : routes) (name psk : string) (c : Config.Connection) : Prop :=
  ∃ cn, out !! name = Some cn ∧ Config.n_PSK cn = psk ∧ c ∈ Config.n_Connections cn.

#[export] Instance attached_proper : Proper (grows ==> eq ==> eq ==> eq ==> impl) attached.
Proof.
  intros out out' Hg nm ? <- psk ? <- c ? <- (cn & Hcn & Hp & Hc). destruct (grows_at _ _ _ _ Hg Hcn) as (cn' & Hcn' & []).
  exists cn'. split; [done|]. split; congruence.
Qed.

Lemma attached_atNode out name cs out' nm psk c :
  atNode out name (λ cn, setConnections cn (Config.n_Connections cn ++ cs)%list) = Ok out' →
  attached out nm psk c → attached out' nm psk c.
Proof.
  intros (cn & Hcn & ->)%atNode_some (cn' & Hcn' & Hp & Hc). destruct (decide (name = nm)) as [->|Hne].
  - assert (cn' = cn) as -> by congruence. eexists. rewrite lookup_insert_eq. split; [done|]. split; [done|]. cbn. apply elem_of_app. by left.
  - exists cn'. by rewrite lookup_insert_ne.
Qed.

(** The key a node has: its own, else the network's. *)
Definition nodePSK (n : Network) (name : string) : string :=
  if nd_PSK (node n name) =? "" then w_PSK n else nd_PSK (node n name).

Definition kernelNode (n : Network) (name : string) : bool := nd_Datapath (node n name) =? "kernel".

(** The configurations belong to the schema's nodes. *)
Record keyed_as (n : Network) (out : routes) : Prop := {
  ka_nodes : dom out = dom (w_Nodes n);
  ka_psk : ∀ name cn, out !! name = Some cn → Config.n_PSK cn = nodePSK n name;
  ka_datapath : ∀ name cn, out !! name = Some cn → Config.n_Datapath cn = if kernelNode n name then "kernel" else "";
}.

Lemma atNode_attached n out name cs out' c :
  keyed_as n out → atNode out name (λ cn, setConnections cn (Config.n_Connections cn ++ cs)%list) = Ok out' → c ∈ cs →
  keyed_as n out' ∧ attached out' name (nodePSK n name) c.
Proof.
  intros [Hd Hk Hp] (cn & Hcn & ->)%atNode_some Hc. split; [split|].
  - rewrite dom_insert_L, <- Hd. apply elem_of_dom_2 in Hcn. set_solver.
  - intros nm c' [[<- <-]|[_ H]]%lookup_insert_Some; [cbn; by apply Hk|by apply Hk].
  - intros nm c' [[<- <-]|[_ H]]%lookup_insert_Some; [cbn; by apply Hp|by apply Hp].
  - eexists. rewrite lookup_insert_eq. split; [done|]. split; [cbn; by apply Hk|]. cbn. apply elem_of_app. by right.
Qed.

(** What the two ends of a link must agree on. *)
Record ends (n : Network) (l : Link) (cd ca : Config.Connection) : Prop := {
  en_names : Config.c_Name cd = l_Name l ∧ Config.c_Name ca = l_Name l;
  en_types : Config.c_Type cd = "connect" ∧ Config.c_Type ca = "listen";
  en_directions : Config.c_Direction cd = (if l_Dataflow l =? toAcceptor then "outgoing" else "incoming") ∧
    Config.c_Direction ca = (if l_Dataflow l =? toAcceptor then "incoming" else "outgoing");
  en_dial : Config.c_IP cd = nd_IP (node n (l_Acceptor l)) ∧ Config.c_Port cd = Config.c_Port ca;
  en_transport : Config.c_Transport cd = Config.c_Transport ca;
  en_cipher : Config.c_Cipher cd = Config.c_Cipher ca;
  en_http : Config.c_HTTP cd = Config.c_HTTP ca;
  en_key : nodePSK n (l_Dialer l) = nodePSK n (l_Acceptor l) ∨ l_PSK l ≠ "" →
    Config.Key cd (nodePSK n (l_Dialer l)) = Config.Key ca (nodePSK n (l_Acceptor l));
  en_mint : Config.c_Multiple ca = true → Config.c_Direction ca = "outgoing";
  en_assigned : Config.c_IDSetter cd ≠ "" → Config.c_Multiple ca = true;
}.

Definition joined (n : Network) (out : routes) (l : Link) : Prop :=
  ∃ cd ca, attached out (l_Dialer l) (nodePSK n (l_Dialer l)) cd ∧ attached out (l_Acceptor l) (nodePSK n (l_Acceptor l)) ca ∧ ends n l cd ca.

Lemma addLink_joined n out l out' :
  keyed_as n out → addLinkConnections n out l = Ok out' →
  keyed_as n out' ∧ joined n out' l ∧ (∀ nm psk c, attached out nm psk c → attached out' nm psk c).
Proof.
  intros Hk H. unfold addLinkConnections in H. apply res_bind_ok in H as (dl & [_ ->]%nodeAt_ok & H).
  apply res_bind_ok in H as (ac & [_ ->]%nodeAt_ok & H).
  destruct (resolveSource (node n (l_Dialer l)) (l_DialerSource l)) as [dif dip].
  destruct (resolveSource (node n (l_Acceptor l)) (l_AcceptorSource l)) as [aif aip].
  apply res_bind_ok in H as (setter & Hset & H). apply res_bind_ok in H as (o1 & H1 & H2).
  assert (setter ≠ "" → l_Dataflow l = toDialer ∧ l_Multiple l = true) as Hs.
  { destruct (l_IDSetter l =? ""); [injection Hset as <-; done|]. intros _. apply Config.check_ok in Hset as [Hf%String.eqb_eq Hset].
    by apply Config.check_ok in Hset as [Hm _]. }
  destruct (atNode_attached n out _ _ o1 _ Hk H1 (list_elem_of_here _ _)) as [Hk1 Hcd].
  destruct (atNode_attached n o1 _ _ out' _ Hk1 H2 (list_elem_of_here _ _)) as [Hk2 Hca].
  split; [exact Hk2|]. split.
  - eexists _, _. split; [eapply attached_atNode; [exact H2|exact Hcd]|]. split; [exact Hca|].
    split; cbn; try done.
    + unfold Config.Key, Config.EffectivePSK. cbn. destruct (String.eqb_spec (l_PSK l) ""); cbn; [|done]. by intros [->|?].
    + destruct (String.eqb_spec (l_Dataflow l) toDialer) as [->|]; done.
    + intros Hset'. destruct (Hs Hset') as [-> ->]. done.
  - intros nm psk c Hc. eapply attached_atNode; [exact H2|]. by eapply attached_atNode.
Qed.

Lemma links_joined n ls out out' :
  keyed_as n out → rangeM (addLinkConnections n) out ls = Ok out' → keyed_as n out' ∧ ∀ l, l ∈ ls → joined n out' l.
Proof.
  revert out out'. induction ls as [|l ls IH] using rev_ind; intros out out' Hk H.
  - injection H as <-. split; [done|]. by intros l ?%elem_of_nil.
  - assert (∃ o, rangeM (addLinkConnections n) out ls = Ok o ∧ addLinkConnections n o l = Ok out') as (o & Ho & Hl).
    { by apply Config.rangeM_snoc. }
    destruct (IH out o Hk Ho) as [Hko Hj]. destruct (addLink_joined n o l out' Hko Hl) as (Hk' & Hjl & Hkeep). split; [done|].
    intros l' [Hin|Hin]%elem_of_app; [|by apply list_elem_of_singleton in Hin as ->].
    destruct (Hj l' Hin) as (cd & ca & Hd & Ha & He). exists cd, ca. auto.
Qed.

Lemma keyed_base n : keyed_as n (baseNode n <$> w_Nodes n).
Proof.
  split; [apply dom_fmap_L| |]; intros name cn Hcn; rewrite lookup_fmap in Hcn; unfold nodePSK, kernelNode, node;
    (destruct (w_Nodes n !! name) as [nd|]; [|done]); cbn in Hcn; by injection Hcn as <-.
Qed.

Definition defaultCipher (c : Config.Connection) : Config.Connection :=
  if Config.c_Cipher c =? "" then Config.setCipher c "none" else c.

Lemma attached_Defaults out nm psk c : attached out nm psk c → attached (Config.Defaults <$> out) nm psk (defaultCipher c).
Proof.
  intros (cn & Hcn & Hp & Hc). exists (Config.Defaults cn). rewrite lookup_fmap, Hcn. split; [done|]. split; [done|].
  cbn. apply list_elem_of_fmap. by exists c.
Qed.

Lemma ends_Defaults n l cd ca : ends n l cd ca → ends n l (defaultCipher cd) (defaultCipher ca).
Proof.
  intros [H1 H2 H3 H4 H5 H6 H7 H8 H9 H10]. unfold defaultCipher. rewrite H6.
  destruct (Config.c_Cipher ca =? ""); split; done.
Qed.

(** The two ends of every link of a compiled network fit: the dialer's
    node connects to the acceptor's address and port, the acceptor's node listens
    there, with opposite directions along the link's dataflow, the same
    transport, cipher, HTTP options and key, and ids are minted and assigned only
    where data flows to the dialer. *)
Theorem link_ends n out l :
  Compile n = Ok out → l ∈ w_Links n → joined n out l.
Proof.
  intros H Hl. apply Compile_stages in H as (o1 & n' & o2 & H1 & _ & Hd & -> & _).
  destruct (links_joined n _ _ _ (keyed_base n) H1) as [_ Hj]. destruct (Hj l Hl) as (cd & ca & Hcd & Hca & He).
  apply grows_deriveRoutes in Hd. exists (defaultCipher cd), (defaultCipher ca).
  split; [apply attached_Defaults; by eapply attached_proper|]. split; [apply attached_Defaults; by eapply attached_proper|by apply ends_Defaults].
Qed.

Lemma compiled_dom n out : Compile n = Ok out → dom out = dom (w_Nodes n).
Proof.
  intros H. apply Compile_stages in H as (o1 & n' & o2 & H1 & _ & Hd & -> & _).
  destruct (links_joined n _ _ _ (keyed_base n) H1) as [[Hdom _ _] _]. apply grows_deriveRoutes in Hd. rewrite dom_fmap_L, (proj1 Hd). exact Hdom.
Qed.

(** Claim C22.  A compilation gives exactly the schema's nodes a configuration,
    and every one of them is a valid configuration for its node: it passes the
    node's own validation, its defaults are filled in, and it has the node's key
    and datapath. *)
Theorem compiled_valid n out :
  Compile n = Ok out →
  dom out = dom (w_Nodes n) ∧
  ∀ name cn, out !! name = Some cn →
    Config.Validate cn = Ok tt ∧ Config.Defaults cn = cn ∧ Config.n_PSK cn = nodePSK n name ∧
    Config.n_Datapath cn = (if kernelNode n name then "kernel" else "").
Proof.
  intros H. split; [by apply compiled_dom|]. apply Compile_stages in H as (o1 & n' & o2 & H1 & _ & Hd & -> & Hv).
  destruct (links_joined n _ _ _ (keyed_base n) H1) as [[_ Hpsk Hdp] _]. apply grows_deriveRoutes in Hd. intros name cn Hcn. split; [by eapply Hv|].
  rewrite lookup_fmap in Hcn. destruct (o2 !! name) as [c2|] eqn:H2; [|done]. injection Hcn as <-.
  assert (is_Some (o1 !! name)) as [c1 Hc1] by (apply elem_of_dom; rewrite <- (proj1 Hd); by apply elem_of_dom_2 in H2).
  destruct (proj2 Hd _ _ _ Hc1 H2) as [Hg1 Hg2 _ _]. split; [apply Config.Defaults_idem|]. cbn. rewrite Hg1, Hg2.
  split; [by apply Hpsk|by apply Hdp].
Qed.

(** ** A concrete network *)

Definition demoConn : Conn := MkConn "tun" "tun0" "10.9.0.2" true "".
Definition demoIface : Conn := MkConn "" "eth0" "" false "".
Definition demoEgress : Config.Egress := Config.MkEgress "kernel" "eth0" "" "" "" "" false.
Definition demoNodes : gmap string Node :=
  <["A" := MkNode "" "" {["t" := demoConn; "wan" := demoIface]} ∅ "" None]>
  (<["B" := MkNode "192.0.2.2" "" {["wan" := demoIface]} ∅ "" None]>
  (<["G1" := MkNode "192.0.2.3" "" {["wan" := demoIface]} {["net" := demoEgress]} "" None]>
  {["G2" := MkNode "192.0.2.4" "" {["wan" := demoIface]} {["net" := demoEgress]} "" None]})).

(** Two branches that part at the relay B: one condition to G1, the rest to G2. *)
Definition demoLink (name dialer acceptor : string) (port : Z) : Link :=
  MkLink name dialer acceptor toAcceptor "p" port "" "" false "" "".
Definition demoDown (name dialer acceptor setter : string) (port : Z) : Link :=
  MkLink name dialer acceptor toDialer "p" port "" "" true setter "".

Definition demoNet : Network :=
  MkNetwork "secret" 1400 "10.9.0.0/24" None 0 0 "" 0 0
    {["p" := MkProtocol "udp" "" false "" "" "" "" "" ∅]}
    {["ir" := MkCond (Some (Config.MkIPSet "" ["203.0.113.0/24"] 0)) None None]}
    demoNodes
    [demoLink "ab" "A" "B" 1001; demoLink "bg1" "B" "G1" 1002; demoLink "bg2" "B" "G2" 1003;
     demoDown "g1a" "A" "G1" "t" 1004; demoDown "g2a" "A" "G2" "" 1005]
    [MkPath "main" "A" [MkBranch ["ir"] "net" ["ab"; "bg1"] ["g1a"] ""; MkBranch [] "net" ["ab"; "bg2"] ["g2a"] ""]]
    ∅.

Definition demoOut : routes := match Compile demoNet with Ok out => out | Err _ => ∅ end.
Definition demoInferred : Network := match inferGateways demoNet (linkMap demoNet) with Ok n => n | Err _ => demoNet end.

Lemma demoOut_ok : Compile demoNet = Ok demoOut.
Proof.
  assert (is_ok (Compile demoNet) = true) as H by (vm_compute; reflexivity). unfold demoOut. by destruct (Compile demoNet).
Defined.

Lemma demoInferred_ok : inferGateways demoNet (linkMap demoNet) = Ok demoInferred.
Proof. vm_compute. reflexivity. Defined.

Definition demoPath : Path := default (MkPath "" "" []) (head (w_Paths demoInferred)).
Definition demoBranch : Branch := default (MkBranch [] "" [] [] "") (head (pt_Routes demoPath)).

Lemma path_realised_witness :
  validate demoNet = Ok demoInferred ∧ realised demoInferred (linkMap demoNet) demoOut demoPath "t" demoBranch.
Proof.
  split; [vm_compute; reflexivity|].
  apply (path_realised demoNet demoInferred demoOut demoPath demoBranch demoOut_ok demoInferred_ok).
  - apply clean_namesb_sound. vm_compute. reflexivity.
  - apply list_elem_of_here.
  - vm_compute. reflexivity.
  - apply list_elem_of_here.
Defined.

Lemma link_ends_witness : joined demoNet demoOut (demoDown "g1a" "A" "G1" "t" 1004).
Proof. apply (link_ends demoNet demoOut _ demoOut_ok). do 3 apply list_elem_of_further. apply list_elem_of_here. Defined.

Lemma compiled_valid_witness : dom demoOut = dom demoNodes ∧ Config.n_PSK <$> demoOut !! "B" = Some "secret".
Proof. split; [apply (compiled_valid demoNet demoOut demoOut_ok)|vm_compute; reflexivity]. Defined.

(** The relay's two rules of the network above. *)
Definition demoPending : list pendingRule :=
  [MkPending "B" (route false "ab" [] "" "bg1") true ["ir"] "main"; MkPending "B" (route false "ab" [] "" "bg2") true [] "main"].
Definition demoQualified : list pendingRule * list (string * string) :=
  ([withConditions (MkPending "B" (route false "ab" [] "" "bg1") true ["ir"] "main") ["ir"];
    MkPending "B" (route false "ab" [] "" "bg2") true [] "main"], [("B", "ir")]).

Lemma no_dead_branch_witness :
  ∀ b, b ∈ demoQualified.1 → diverges demoPending b → conds b = base.filter (λ c, isDstIn demoNet c = true) (pr_when b) ∧ (conds b = [] → pr_when b = []).
Proof.
  refine (proj1 (proj2 (no_dead_branch demoNet demoPending demoQualified _ _))); [vm_compute; reflexivity|].
  repeat constructor.
Defined.

Lemma emitted_rules_witness :
  let out := {["B" := Config.MkNode "" 0 "" [] ∅ [] [] "" [] [] None 0 0 "" 0 0]} in
  ∃ out', emitRules out demoQualified.1 = Ok out' ∧
  ∃ cn r, out' !! "B" = Some cn ∧ r ∈ Config.n_Routes cn ∧ ruleKey r = "false|ab|||bg2".
Proof.
  intros out. assert (is_ok (emitRules out demoQualified.1) = true) as Hok by (vm_compute; reflexivity).
  destruct (emitRules out demoQualified.1) as [out'|] eqn:He; [|done]. exists out'. split; [done|].
  destruct (emitted_rules out demoQualified.1 out' He) as (_ & H & _).
  destruct (H (MkPending "B" (route false "ab" [] "" "bg2") true [] "main")) as (cn & r & H1 & H2 & H3).
  { apply list_elem_of_further, list_elem_of_here. }
  exists cn, r. split; [exact H1|]. split; [exact H2|]. rewrite H3. vm_compute. reflexivity.
Defined.
