(* ===== verification/Checked.v ===== *)
(** * What a validated schema guarantees

    The facts [Network.validate] establishes (schema.go) and what they are worth
    to the compiler: the inferred gateways are the nodes both legs meet at, and
    [Compile] never uses a node, link or condition that is not there. *)

From S2P Require Import Prelude GoStrings Config Dsl Schema Compile Paths.
Local Open Scope Z_scope.
Local Open Scope string_scope.
Local Open Scope go_scope.

(** ** Results that are no nil dereference *)

Definition safe {A} (m : vres A) : Prop := m ≠ Err "nil".

Lemma safe_ok {A} (a : A) : safe (Ok a).
Proof. done. Qed.
Lemma safe_bind {A B} (m : vres A) (k : A → vres B) : safe m → (∀ a, m = Ok a → safe (k a)) → safe (let? a := m in k a).
Proof. unfold safe. destruct m; cbn; [|congruence]. auto. Qed.
Lemma safe_check {A} (b : bool) e (k : vres A) : e ≠ "nil" → (b = true → safe k) → safe (if b then k else Err e).
Proof. unfold safe. destruct b; [auto|congruence]. Qed.
Lemma safe_rangeM {A S} (f : S → A → vres S) (P : S → Prop) xs s :
  P s → (∀ s x, x ∈ xs → P s → safe (f s x) ∧ ∀ s', f s x = Ok s' → P s') → safe (rangeM f s xs).
Proof.
  revert s. induction xs as [|x xs IH]; intros s Hs Hf; cbn [rangeM]; [done|].
  destruct (Hf s x ltac:(left) Hs) as [H1 H2]. apply safe_bind; [done|]. intros s' Hs'. apply IH; [by apply H2|].
  intros t y Hy. apply Hf. by right.
Qed.

#[export] Hint Resolve safe_ok : go_safe.
Ltac safe := repeat first
  [ apply safe_ok | apply safe_bind; [|intros ? ?] | apply safe_check; [done|intros _] ].

(** ** What validation establishes *)

Definition linked (n : Network) (links : gmap string Link) : Prop :=
  ∀ ln l, links !! ln = Some l → l_Name l = ln ∧ is_Some (w_Nodes n !! l_Dialer l) ∧ is_Some (w_Nodes n !! l_Acceptor l).

(** A branch with its gateway: none, or where its up-path ends and its
    down-path, if any, starts. *)
Definition gateway_ok (links : gmap string Link) (br : Branch) : Prop :=
  match last (b_Up br) with
  | None => b_Down br = [] ∧ b_Gateway br = ""
  | Some up => ∃ l, links !! up = Some l ∧ b_Gateway br = targetOf l ∧
      match b_Down br with [] => True | d :: _ => ∃ f, links !! d = Some f ∧ senderOf f = b_Gateway br end
  end.

Record branch_known (n : Network) (links : gmap string Link) (br : Branch) : Prop := {
  bk_conditions : ∀ c, c ∈ b_When br → is_Some (w_Conditions n !! c);
  bk_links : ∀ ln, ln ∈ (b_Up br ++ b_Down br)%list → is_Some (links !! ln);
  bk_egress : b_Egress br ≠ "";
}.

(** Exactly one kind is set. *)
Definition one_kind (c : ConditionSpec) : Prop :=
  match cs_DstIn c, cs_SrcIn c, cs_Healthcheck c with
  | Some _, None, None | None, Some _, None | None, None, Some _ => True
  | _, _, _ => False
  end.

Record checked (n : Network) (links : gmap string Link) : Prop := {
  ck_links : linked n links;
  ck_linkMap : linkMap n = links;
  ck_names : NoDup (map l_Name (w_Links n));
  ck_origins : ∀ p, p ∈ w_Paths n → is_Some (w_Nodes n !! OriginNode p);
  ck_branches : ∀ p br, p ∈ w_Paths n → br ∈ pt_Routes p → branch_known n links br ∧ gateway_ok links br;
  ck_paths : NoDup (map pt_Node (w_Paths n));
  ck_kinds : ∀ c spec, w_Conditions n !! c = Some spec → one_kind spec;
}.

(** ** Lemmas: gateways *)

Lemma gatewayOf_ok br links gw : gatewayOf br links = Ok gw → gateway_ok links (setGateway br gw).
Proof.
  unfold gatewayOf, gateway_ok. cbn. destruct (last (b_Up br)) as [up|].
  - destruct (links !! up) as [l|]; [|done]. intros H. exists l. split; [done|]. destruct (b_Down br) as [|d ds].
    + by injection H as <-.
    + destruct (links !! d) as [f|]; [|done]. apply Config.check_ok in H as [Hs%String.eqb_eq H]. injection H as <-.
      split; [done|]. by exists f.
  - intros H. apply Config.check_ok in H as [Hd%Nat.eqb_eq H]. injection H as <-. by apply length_zero_iff_nil in Hd.
Qed.

Lemma gatewayOf_setGateway br gw links : gatewayOf (setGateway br gw) links = gatewayOf br links.
Proof. done. Qed.

Lemma setGateway_twice br gw : setGateway (setGateway br gw) gw = setGateway br gw.
Proof. done. Qed.

Lemma inferBranches_rel links brs brs' :
  inferBranches links brs = Ok brs' → Forall2 (λ br br', ∃ gw, gatewayOf br links = Ok gw ∧ br' = setGateway br gw) brs brs'.
Proof.
  revert brs'. induction brs as [|br brs IH]; intros brs' H; cbn [inferBranches] in H; [injection H as <-; constructor|].
  apply res_bind_ok in H as (gw & Hg & H). apply res_bind_ok in H as (r & Hr & H). injection H as <-. constructor; [by exists gw|by apply IH].
Qed.

Lemma inferBranches_idem links brs brs' : inferBranches links brs = Ok brs' → inferBranches links brs' = Ok brs'.
Proof.
  revert brs'. induction brs as [|br brs IH]; intros brs' H; cbn [inferBranches] in H; [by injection H as <-|].
  apply res_bind_ok in H as (gw & Hg & H). apply res_bind_ok in H as (r & Hr & H). injection H as <-. cbn [inferBranches].
  rewrite gatewayOf_setGateway, Hg. cbn [res_bind]. by rewrite (IH r Hr).
Qed.

Lemma inferPaths_idem links ps ps' : inferPaths links ps = Ok ps' → inferPaths links ps' = Ok ps'.
Proof.
  revert ps'. induction ps as [|p ps IH]; intros ps' H; cbn [inferPaths] in H; [by injection H as <-|].
  apply res_bind_ok in H as (rs & Hrs & H). apply res_bind_ok in H as (r & Hr & H). injection H as <-. cbn [inferPaths pt_Routes pt_Name pt_Node].
  rewrite (inferBranches_idem _ _ _ Hrs). cbn [res_bind]. by rewrite (IH r Hr).
Qed.

Lemma inferPaths_ok links ps ps' :
  inferPaths links ps = Ok ps' → ∀ p br, p ∈ ps' → br ∈ pt_Routes p → gateway_ok links br.
Proof.
  revert ps'. induction ps as [|q ps IH]; intros ps' H p br Hp Hbr; cbn [inferPaths] in H; [injection H as <-; by apply elem_of_nil in Hp|].
  apply res_bind_ok in H as (rs & Hrs & H). apply res_bind_ok in H as (r & Hr & H). injection H as <-.
  apply elem_of_cons in Hp as [->|Hp]; [|by eapply IH]. cbn in Hbr. apply inferBranches_rel in Hrs.
  apply list_elem_of_lookup_1 in Hbr as [i Hi]. destruct (Forall2_lookup_r _ _ _ _ _ Hrs Hi) as (b & _ & gw & Hg & ->).
  by apply gatewayOf_ok.
Qed.

Lemma inferGateways_idem n links n' : inferGateways n links = Ok n' → inferGateways n' links = Ok n'.
Proof.
  unfold inferGateways. intros H. apply res_bind_ok in H as (ps & Hps & H). injection H as <-. cbn [w_Paths setPaths].
  by rewrite (inferPaths_idem _ _ _ Hps).
Qed.

(** ** Lemmas: links, paths, conditions *)

Lemma validateLink_ok n links l links' :
  validateLink n links l = Ok links' →
  links' = <[l_Name l := l]> links ∧ links !! l_Name l = None ∧ is_Some (w_Nodes n !! l_Dialer l) ∧ is_Some (w_Nodes n !! l_Acceptor l).
Proof.
  unfold validateLink. rewrite !Config.check_ok. intros (_ & Hnew%bool_decide_eq_true & H).
  destruct (w_Nodes n !! l_Dialer l) as [d|]; [|done]. destruct (w_Nodes n !! l_Acceptor l) as [a|]; [|done].
  rewrite !Config.check_ok in H. destruct H as (_ & _ & H). destruct (w_Protocols n !! l_Protocol l) as [pr|]; [|done].
  rewrite !Config.check_ok in H. destruct H as (_ & _ & _ & H). injection H as <-. eauto.
Qed.

Lemma validateLinks_ok n ls acc links :
  rangeM (validateLink n) acc ls = Ok links → linked n acc →
  linked n links ∧ links = fold_left (λ m l, <[l_Name l := l]> m) ls acc ∧
  NoDup (map l_Name ls) ∧ (∀ l, l ∈ ls → acc !! l_Name l = None).
Proof.
  revert acc. induction ls as [|l ls IH]; intros acc H Hacc; cbn [rangeM] in H.
  { injection H as <-. split; [done|]. split; [done|]. split; [constructor|by intros l ?%elem_of_nil]. }
  apply res_bind_ok in H as (acc' & Hl & H). apply validateLink_ok in Hl as (-> & Hnew & Hd & Ha).
  destruct (IH _ H) as (H1 & H2 & H3 & H4).
  { intros ln l' [[<- <-]|[_ Hl']]%lookup_insert_Some; [done|by apply Hacc]. }
  split; [done|]. split; [done|]. cbn [map]. split.
  - constructor; [|done]. intros (l' & Heq & Hin)%list_elem_of_fmap. specialize (H4 l' Hin). rewrite <- Heq, lookup_insert_eq in H4. done.
  - intros l' [->|Hin]%elem_of_cons; [done|]. specialize (H4 l' Hin). by apply lookup_insert_None in H4 as [? _].
Qed.

Lemma validatePathNames_ok ps st st' :
  rangeM validatePathName st ps = Ok st' → NoDup (map pt_Node ps) ∧ ∀ p, p ∈ ps → pt_Node p ∉ st.2.
Proof.
  revert st. induction ps as [|p ps IH]; intros [names nodes] H; cbn [rangeM] in H.
  { split; [constructor|by intros p ?%elem_of_nil]. }
  apply res_bind_ok in H as (st1 & H1 & H). unfold validatePathName in H1. rewrite !Config.check_ok in H1.
  destruct H1 as (_ & Hnew%negb_true_iff%bool_decide_eq_false & H1).
  assert (st1.2 = pt_Node p :: nodes) as Hst.
  { destruct (negb (pt_Name p =? "")); [apply Config.check_ok in H1 as [_ H1]|]; by injection H1 as <-. }
  destruct (IH st1 H) as [H2 H3]. rewrite Hst in H3. cbn [map snd]. split.
  - constructor; [|done]. intros (q & Hq & Hin)%list_elem_of_fmap. apply (H3 q Hin). rewrite <- Hq. left.
  - intros q [->|Hq]%elem_of_cons; [done|]. specialize (H3 q Hq). set_solver.
Qed.

Lemma conditionKind_one paths name c k : conditionKind paths name c = Ok k → one_kind c.
Proof. unfold conditionKind, one_kind. by destruct (cs_DstIn c), (cs_SrcIn c), (cs_Healthcheck c). Qed.

Lemma condKinds_ok paths cs kinds :
  condKinds paths cs = Ok kinds →
  (∀ c k, kinds !! c = Some k → is_Some (cs !! c)) ∧ (∀ c spec, cs !! c = Some spec → one_kind spec).
Proof.
  intros H. unfold condKinds in H. split.
  - refine (Config.rangeM_inv _ (λ m : gmap string string, ∀ c k, m !! c = Some k → is_Some (cs !! c)) _ _ _ _ _ H); [|done].
    intros m [name c] m' Hin Hm Hx. apply res_bind_ok in Hx as (k & _ & Hx). injection Hx as <-.
    intros c' k' [[<- _]|[_ Hl]]%lookup_insert_Some; [|by eapply Hm]. apply elem_of_map_to_list in Hin. by eexists.
  - intros c spec Hc. refine (Config.rangeM_reaches _ (λ kv _, one_kind kv.2) _ _ _ _ _ H (c, spec) _); [| |by apply elem_of_map_to_list].
    + intros m [name d] m' _ Hx. apply res_bind_ok in Hx as (k & Hk & _). by apply conditionKind_one in Hk.
    + done.
Qed.

Lemma rangeM_unit {A} (f : () → A → vres ()) xs : rangeM f tt xs = Ok tt → ∀ x, x ∈ xs → f tt x = Ok tt.
Proof.
  intros H. apply (Config.rangeM_each f (λ x, f tt x = Ok tt)) in H; [|done]. by apply Forall_forall.
Qed.

Lemma userspaceBranch_ok n links kinds saw br saw' :
  (∀ c k, kinds !! c = Some k → is_Some (w_Conditions n !! c)) →
  userspaceBranch links kinds saw br = Ok saw' → branch_known n links br.
Proof.
  intros Hk H. unfold userspaceBranch in H. apply res_bind_ok in H as (s & _ & H). apply res_bind_ok in H as ([] & Hc & H).
  apply Config.check_ok in H as [He H]. apply res_bind_ok in H as ([] & Hl & _). split.
  - intros c Hin. apply rangeM_unit with (x := c) in Hc; [|done]. cbn in Hc. destruct (kinds !! c) eqn:Hc'; [|done]. by eapply Hk.
  - intros ln Hin. apply rangeM_unit with (x := ln) in Hl; [|done]. cbn in Hl. apply Config.check_ok in Hl as [Hl _].
    by apply bool_decide_eq_true in Hl.
  - by apply negb_true_iff, String.eqb_neq in He.
Qed.

Lemma kernelBranch_ok n egs links kinds st br st' :
  (∀ c k, kinds !! c = Some k → is_Some (w_Conditions n !! c)) →
  kernelBranch egs kinds st br = Ok st' → branch_known n links br.
Proof.
  intros Hk H. unfold kernelBranch in H. destruct st as [phase defaults]. rewrite !Config.check_ok in H.
  destruct H as ([Hu%Nat.eqb_eq Hd%Nat.eqb_eq]%andb_true_iff & He%negb_true_iff%String.eqb_neq & _ & H).
  apply length_zero_iff_nil in Hu, Hd. split; [|rewrite Hu, Hd; by intros ln ?%elem_of_nil|done].
  intros c Hc. destruct (b_When br) as [|w ws]; [by apply elem_of_nil in Hc|]. rewrite !Config.check_ok in H.
  destruct H as (_ & Hws%bool_decide_eq_true & H). subst ws. apply list_elem_of_singleton in Hc as ->.
  destruct (kinds !! w) eqn:Hw; [|done]. by eapply Hk.
Qed.

Lemma validatePath_ok n links kinds p br :
  (∀ c k, kinds !! c = Some k → is_Some (w_Conditions n !! c)) → validatePath n links kinds p = Ok tt →
  is_Some (w_Nodes n !! OriginNode p) ∧ (br ∈ pt_Routes p → branch_known n links br).
Proof.
  intros Hk H. unfold validatePath in H. destruct (w_Nodes n !! OriginNode p) as [nd|]; [|done]. split; [by eexists|]. intros Hbr.
  rewrite !Config.check_ok in H. destruct H as (_ & _ & H). destruct (nd_Datapath nd =? "kernel").
  - unfold validateKernelPath in H. apply res_bind_ok in H as (st & Hst & _).
    refine (Config.rangeM_reaches _ (λ br _, branch_known n links br) _ _ _ _ _ Hst br Hbr); [|done].
    intros s x s' _ Hx. by eapply kernelBranch_ok.
  - apply res_bind_ok in H as (saw & Hsaw & _).
    refine (Config.rangeM_reaches _ (λ br _, branch_known n links br) _ _ _ _ _ Hsaw br Hbr); [|done].
    intros s x s' _ Hx. by eapply userspaceBranch_ok.
Qed.

Lemma validate_inferred n n' : validate n = Ok n' → inferGateways n' (linkMap n') = Ok n' ∧ checked n' (linkMap n').
Proof.
  intros H. unfold validate in H. apply Config.check_ok in H as [_ H]. apply res_bind_ok in H as ([] & _ & H).
  apply res_bind_ok in H as ([] & _ & H). apply res_bind_ok in H as (links & Hlinks & H). apply res_bind_ok in H as (m & Hm & H).
  apply res_bind_ok in H as (st & Hst & H). apply res_bind_ok in H as (kinds & Hkinds & H). apply res_bind_ok in H as ([] & Hp & H).
  apply res_bind_ok in H as ([] & _ & H). apply res_bind_ok in H as ([] & _ & H). injection H as <-.
  pose proof (inferGateways_idem _ _ _ Hm) as Hidem. unfold inferGateways in Hm. apply res_bind_ok in Hm as (ps & Hps & Hm). injection Hm as <-.
  destruct (validateLinks_ok n _ _ _ Hlinks) as (Hl1 & Hl2 & Hl3 & _); [by intros ln l ?|].
  change (fold_left (λ m l, <[l_Name l := l]> m) (w_Links n) ∅) with (linkMap (setPaths n ps)) in Hl2. rewrite <- Hl2.
  split; [exact Hidem|]. destruct (condKinds_ok _ _ _ Hkinds) as [Hk1 Hk2].
  assert (∀ p br, p ∈ ps → is_Some (w_Nodes n !! OriginNode p) ∧ (br ∈ pt_Routes p → branch_known (setPaths n ps) links br)) as Hpath.
  { intros p br Hin. apply (validatePath_ok (setPaths n ps) links kinds p br Hk1). apply (rangeM_unit (λ _ p, validatePath (setPaths n ps) links kinds p) ps Hp p Hin). }
  split.
  - exact Hl1.
  - by rewrite <- Hl2.
  - exact Hl3.
  - intros p Hin. apply (Hpath p (MkBranch [] "" [] [] "") Hin).
  - intros p br Hin Hbr. split; [by apply (Hpath p br Hin)|by eapply inferPaths_ok].
  - by eapply validatePathNames_ok.
  - exact Hk2.
Qed.

(** ** Lemmas: sorting *)

Lemma sortedRefs_in refs nc : nc ∈ sortedRefs refs ↔ nc ∈ refs.
Proof.
  unfold sortedRefs. rewrite list_elem_of_In, in_concat. setoid_rewrite in_map_iff. destruct nc as [nd c]. split.
  - intros (cs & (nd' & <- & Hnd) & Hc). apply in_map_iff in Hc as (c' & [= -> ->] & Hc). apply list_elem_of_In in Hc.
    rewrite Config.sortStrings_perm, elem_of_remove_dups in Hc. apply list_elem_of_fmap in Hc as ([nd2 c2] & -> & Hc).
    by apply list_elem_of_filter in Hc as [<- Hc].
  - intros Hin. eexists. split.
    + exists nd. split; [done|]. apply list_elem_of_In. rewrite Config.sortStrings_perm, elem_of_remove_dups. apply list_elem_of_fmap. by exists (nd, c).
    + apply in_map_iff. exists c. split; [done|]. apply list_elem_of_In. rewrite Config.sortStrings_perm, elem_of_remove_dups. apply list_elem_of_fmap.
      exists (nd, c). split; [done|]. by apply list_elem_of_filter.
Qed.

(** ** Lemmas: the compiler on a checked schema *)

Section compile.
Context (n : Network) (links : gmap string Link) (Hck : checked n links).

Definition has_node (name : string) : Prop := is_Some (w_Nodes n !! name).

Lemma safe_atNode out name f : dom out = dom (w_Nodes n) → has_node name → safe (atNode out name f).
Proof.
  intros Hd Hn. unfold atNode. assert (is_Some (out !! name)) as [cn ->]; [|done].
  apply elem_of_dom. rewrite Hd. by apply elem_of_dom.
Qed.

Lemma safe_nodeAt name : has_node name → safe (nodeAt n name).
Proof. intros [nd H]. unfold nodeAt. by rewrite H. Qed.

Lemma target_known ln l : links !! ln = Some l → has_node (targetOf l) ∧ has_node (senderOf l).
Proof.
  intros H. destruct (ck_links _ _ Hck ln l H) as (_ & Hd & Ha). unfold targetOf, senderOf. destruct (l_Dataflow l =? toAcceptor); by split.
Qed.

Lemma linksOf_known names : (∀ ln, ln ∈ names → is_Some (links !! ln)) → Forall (λ l, has_node (targetOf l)) (linksOf links names).
Proof.
  intros H. apply Forall_map, Forall_forall. intros ln Hin. unfold compose. destruct (H ln Hin) as [l Hl]. rewrite Hl. cbn.
  by eapply target_known.
Qed.

Lemma safe_addLink out l : dom out = dom (w_Nodes n) → l ∈ w_Links n → has_node (l_Dialer l) → has_node (l_Acceptor l) →
  safe (addLinkConnections n out l).
Proof.
  intros Hd Hl Hdl Hac. unfold addLinkConnections. apply safe_bind; [by apply safe_nodeAt|]. intros dl _.
  apply safe_bind; [by apply safe_nodeAt|]. intros ac _.
  destruct (resolveSource dl (l_DialerSource l)) as [dif dip], (resolveSource ac (l_AcceptorSource l)) as [aif aip].
  apply safe_bind.
  { destruct (l_IDSetter l =? ""); [apply safe_ok|]. safe. }
  intros setter _. apply safe_bind; [by apply safe_atNode|]. intros o (cn & Hcn & ->)%atNode_some. apply safe_atNode; [|done].
  rewrite dom_insert_L, <- Hd. apply elem_of_dom_2 in Hcn. set_solver.
Qed.

Lemma linkMap_link l : l ∈ w_Links n → linkMap n !! l_Name l = Some l.
Proof.
  intros Hl. assert (∀ ls acc, NoDup (map l_Name ls) → l ∈ ls → fold_left (λ (m : gmap string Link) l, <[l_Name l := l]> m) ls acc !! l_Name l = Some l) as Hm.
  { induction ls as [|x ls IH] using rev_ind; intros acc Hnd Hin; [by apply elem_of_nil in Hin|]. rewrite fold_left_app. cbn [fold_left].
    rewrite map_app in Hnd. apply NoDup_app in Hnd as (Hnd & Hx & _). apply elem_of_app in Hin as [Hin|Hin].
    - rewrite lookup_insert_ne; [by apply IH|]. intros Heq. apply (Hx (l_Name l)); [apply list_elem_of_fmap; by exists l|].
      rewrite <- Heq. left.
    - apply list_elem_of_singleton in Hin as ->. apply lookup_insert_eq. }
  exact (Hm (w_Links n) ∅ (ck_names _ _ Hck) Hl).
Qed.

Lemma link_nodes l : l ∈ w_Links n → has_node (l_Dialer l) ∧ has_node (l_Acceptor l).
Proof.
  intros Hl. pose proof (linkMap_link l Hl) as Hm. rewrite (ck_linkMap _ _ Hck) in Hm. by destruct (ck_links _ _ Hck _ _ Hm) as (_ & ? & ?).
Qed.

Lemma safe_links : safe (rangeM (addLinkConnections n) (baseNode n <$> w_Nodes n) (w_Links n)).
Proof.
  apply (safe_rangeM _ (keyed_as n)); [apply keyed_base|]. intros out l Hl Hk. destruct (link_nodes l Hl) as [Hd Ha]. split.
  - apply safe_addLink; [by apply Hk|done..].
  - intros out' H. by apply (addLink_joined n out l).
Qed.

(** Rules go to nodes of the schema. *)
Definition placed (pr : pendingRule) : Prop := has_node (pr_node pr).

Lemma upRelays_safe p br up : Forall (λ l, has_node (targetOf l)) up →
  safe (upRelays p br up) ∧ ∀ rs, upRelays p br up = Ok rs → Forall placed rs.
Proof.
  induction 1 as [|a up Ha Hup [IH1 IH2]]; [by split; [|intros rs [= <-]; constructor]|].
  destruct up as [|b up]; [by split; [|intros rs [= <-]; constructor]|]. cbn [upRelays]. unfold relayNode. split.
  - safe. exact IH1.
  - intros rs H. apply res_bind_ok in H as (mid & Hm & H). apply Config.check_ok in Hm as [_ Hm]. injection Hm as <-.
    apply res_bind_ok in H as (rs' & Hrs & H). injection H as <-. constructor; [exact Ha|by apply IH2].
Qed.

Lemma downRelays_safe down : Forall (λ l, has_node (targetOf l)) down →
  safe (downRelays down) ∧ ∀ rs, downRelays down = Ok rs → Forall placed rs.
Proof.
  induction 1 as [|a up Ha Hup [IH1 IH2]]; [by split; [|intros rs [= <-]; constructor]|].
  destruct up as [|b up]; [by split; [|intros rs [= <-]; constructor]|]. cbn [downRelays]. unfold relayNode. split.
  - safe. exact IH1.
  - intros rs H. apply res_bind_ok in H as (mid & Hm & H). apply Config.check_ok in Hm as [_ Hm]. injection Hm as <-.
    apply res_bind_ok in H as (rs' & Hrs & H). injection H as <-. constructor; [exact Ha|by apply IH2].
Qed.

Lemma gateway_known br : branch_known n links br → gateway_ok links br → b_Gateway br ≠ "" → has_node (b_Gateway br) ∧ b_Up br ≠ [].
Proof.
  intros [_ Hl _] Hg Hne. unfold gateway_ok in Hg. destruct (last (b_Up br)) as [up|] eqn:Hu; [|by destruct Hg as [_ ?]].
  destruct Hg as (l & Hup & -> & _). split; [by eapply target_known|]. intros H0. by rewrite H0 in Hu.
Qed.

Lemma branchRules_safe p tun br : has_node (OriginNode p) → branch_known n links br → gateway_ok links br →
  safe (branchRules links p tun br) ∧ ∀ rs, branchRules links p tun br = Ok rs → Forall placed rs.
Proof.
  intros Ho Hb Hg. unfold branchRules. fold (linksOf links (b_Up br)) (linksOf links (b_Down br)).
  destruct (String.eqb_spec (b_Gateway br) "") as [_|Hne].
  { split; [done|]. intros rs [= <-]. constructor; [exact Ho|constructor]. }
  destruct (gateway_known br Hb Hg Hne) as [Hgw Hup].
  assert (Forall (λ l, has_node (targetOf l)) (linksOf links (b_Up br))) as Hu.
  { apply linksOf_known. intros ln Hin. apply Hb, elem_of_app. by left. }
  assert (Forall (λ l, has_node (targetOf l)) (linksOf links (b_Down br))) as Hd.
  { apply linksOf_known. intros ln Hin. apply Hb, elem_of_app. by right. }
  destruct (upRelays_safe p br _ Hu) as [Hu1 Hu2]. destruct (downRelays_safe _ Hd) as [Hd1 Hd2].
  assert (linksOf links (b_Up br) ≠ []) as Hne2 by (unfold linksOf; by destruct (b_Up br)).
  destruct (linksOf links (b_Up br)) as [|up0 ups] eqn:Hl; [done|]. rewrite <- Hl in Hu1, Hu2 |- *.
  destruct (last (linksOf links (b_Up br))) as [lastUp|] eqn:Hlast.
  2:{ apply last_None in Hlast. by rewrite Hlast in Hl. }
  split.
  - apply safe_check; [done|]. intros _. apply safe_bind; [exact Hu1|]. intros ups' _.
    destruct (last (linksOf links (b_Down br))); [|apply safe_ok]. apply safe_bind; [exact Hd1|]. intros downs _. safe.
  - intros rs H. apply Config.check_ok in H as [_ H]. apply res_bind_ok in H as (ups' & Hups & H). specialize (Hu2 _ Hups).
    assert (∀ r1 r2, Forall placed (addRule (OriginNode p) r1 :: ups' ++ [addBranchRule (b_Gateway br) r2 p br])) as Hhead.
    { intros r1 r2. constructor; [exact Ho|]. apply Forall_app. split; [exact Hu2|]. constructor; [exact Hgw|constructor]. }
    destruct (last (linksOf links (b_Down br))) as [lastDown|]; [|injection H as <-; apply Hhead].
    apply res_bind_ok in H as (downs & Hdowns & H). apply Config.check_ok in H as [_ H]. injection H as <-. specialize (Hd2 _ Hdowns).
    rewrite app_comm_cons. apply Forall_app. split; [apply Hhead|]. apply Forall_app. split; [exact Hd2|]. constructor; [exact Ho|constructor].
Qed.

Definition ref_ok (nc : string * string) : Prop := has_node nc.1 ∧ is_Some (w_Conditions n !! nc.2).

Record derived_ok (d : derivation) : Prop := {
  do_out : dom (dv_out d) = dom (w_Nodes n);
  do_pend : Forall placed (dv_pend d);
  do_refs : Forall ref_ok (dv_refs d);
}.

Lemma pathStep_safe d p : p ∈ w_Paths n → derived_ok d →
  safe (pathStep n links d p) ∧ ∀ d', pathStep n links d p = Ok d' → derived_ok d'.
Proof.
  intros Hp [Hout Hpend Hrefs]. pose proof (ck_origins _ _ Hck p Hp) as Ho.
  assert (Forall ref_ok (dv_refs d ++ concat (map (λ br, map (λ cn, (OriginNode p, cn)) (b_When br)) (pt_Routes p)))%list) as Hr.
  { apply Forall_app. split; [done|]. apply Forall_concat, Forall_map, Forall_forall. intros br Hbr. apply Forall_map, Forall_forall.
    intros c Hc. split; [exact Ho|]. destruct (ck_branches _ _ Hck p br Hp Hbr) as [[Hc' _ _] _]. by apply Hc'. }
  assert (∀ br acc, br ∈ pt_Routes p → Forall placed acc →
    safe (let? rs := branchRules links p (default "" (originTun (node n (OriginNode p)))) br in Ok (acc ++ rs)%list) ∧
    ∀ acc', (let? rs := branchRules links p (default "" (originTun (node n (OriginNode p)))) br in Ok (acc ++ rs)%list) = Ok acc' → Forall placed acc') as Hb.
  { intros br acc Hbr Hacc. destruct (ck_branches _ _ Hck p br Hp Hbr) as [Hk Hg].
    destruct (branchRules_safe p (default "" (originTun (node n (OriginNode p)))) br Ho Hk Hg) as [H1 H2]. split.
    - apply safe_bind; [exact H1|]. intros rs _. apply safe_ok.
    - intros acc' H. apply res_bind_ok in H as (rs & Hrs & H). injection H as <-. apply Forall_app. split; [done|by apply H2]. }
  split.
  - unfold pathStep. apply safe_bind; [by apply safe_nodeAt|]. intros nd [_ ->]%nodeAt_ok. destruct (nd_Datapath _ =? "kernel").
    + apply safe_bind; [|intros; apply safe_ok]. apply (safe_rangeM _ (λ out : routes, dom out = dom (w_Nodes n))); [done|].
      intros out br _ Hd. split; [by apply safe_atNode|]. intros out' (cn & Hcn & ->)%atNode_some.
      rewrite dom_insert_L, <- Hd. apply elem_of_dom_2 in Hcn. set_solver.
    + apply safe_bind; [|intros; apply safe_ok]. apply (safe_rangeM _ (Forall placed)); [done|]. intros acc br Hbr Hacc. by apply Hb.
  - intros d' H. pose proof (grows_pathStep _ _ _ _ _ H) as [Hg _]. split; [by rewrite Hg| |].
    + unfold pathStep in H. apply res_bind_ok in H as (nd & [_ ->]%nodeAt_ok & H). destruct (nd_Datapath _ =? "kernel").
      { apply res_bind_ok in H as (out & _ & H). by injection H as <-. }
      apply res_bind_ok in H as (pend & Hpe & H). injection H as <-. cbn [dv_pend].
      refine (Config.rangeM_inv _ (Forall placed) _ _ _ _ Hpend Hpe). intros acc br acc' Hbr Hacc Hx. by apply (Hb br acc Hbr Hacc).
    + unfold pathStep in H. apply res_bind_ok in H as (nd & [_ ->]%nodeAt_ok & H).
      destruct (nd_Datapath _ =? "kernel"); apply res_bind_ok in H as (x & _ & H); injection H as <-; exact Hr.
Qed.

Lemma qualify_safe all catchAll pend : Forall placed pend →
  safe (qualifyFrom n all catchAll pend) ∧
  ∀ q, qualifyFrom n all catchAll pend = Ok q → Forall placed q.1 ∧ Forall ref_ok q.2.
Proof.
  intros H. revert catchAll. induction H as [|pr pend Hpr Hpend IH]; intros catchAll; cbn [qualifyFrom].
  { split; [done|]. intros q [= <-]. by split; constructor. }
  destruct (negb (pr_relay pr) || _).
  { destruct (IH catchAll) as [H1 H2]. split; [by safe|]. intros q H. apply res_bind_ok in H as (r & Hr & H). injection H as <-.
    destruct (H2 r Hr). split; [by constructor|done]. }
  destruct (base.filter (λ c, isDstIn n c = true) (pr_when pr)) as [|c cs] eqn:Hf.
  - destruct (IH ({[arrival pr]} ∪ catchAll)) as [H1 H2]. split; [by safe|]. intros q H. apply Config.check_ok in H as [_ H].
    apply res_bind_ok in H as (r & Hr & H). injection H as <-. destruct (H2 r Hr). split; [by constructor|done].
  - destruct (IH catchAll) as [H1 H2]. split; [by safe|]. intros q H. apply Config.check_ok in H as [_ H].
    apply res_bind_ok in H as (r & Hr & H). injection H as <-. destruct (H2 r Hr) as [Ha Hb]. split; [by constructor|].
    apply (Forall_app ref_ok (map (λ c, (pr_node pr, c)) (c :: cs))). split; [|done]. apply Forall_map. rewrite <- Hf. apply Forall_forall.
    intros x [Hx _]%list_elem_of_filter. split; [exact Hpr|]. unfold compose. cbn. unfold isDstIn in Hx. by destruct (w_Conditions n !! x).
Qed.

Lemma emitRules_safe out pend : dom out = dom (w_Nodes n) → Forall placed pend → safe (emitRules out pend).
Proof.
  intros Hd Hp. unfold emitRules. apply safe_bind; [|intros; apply safe_ok].
  apply (safe_rangeM _ (λ s, dom (em_out s) = dom (w_Nodes n))); [done|]. intros s pr Hin Hs. rewrite Forall_forall in Hp. specialize (Hp pr Hin).
  unfold emitStep. split.
  - apply safe_bind. { destruct (Config.a_Egress _ =? ""); [apply safe_ok|]. safe. } intros fin _.
    case_bool_decide; [apply safe_ok|]. apply safe_bind; [by apply safe_atNode|]. intros o _. apply safe_ok.
  - intros s' H. apply res_bind_ok in H as (fin & _ & H). case_bool_decide; [by injection H as <-|].
    apply res_bind_ok in H as (o & (cn & Hcn & ->)%atNode_some & H). injection H as <-. cbn [em_out].
    rewrite dom_insert_L, <- Hs. apply elem_of_dom_2 in Hcn. set_solver.
Qed.

Lemma gatewayBranch_safe pathName gateway :
  safe (gatewayBranch n pathName gateway) ∧ ∀ bt, gatewayBranch n pathName gateway = Ok bt → has_node bt.2.
Proof.
  unfold gatewayBranch, findPath. destruct (head _) as [p|] eqn:Hp; [|done].
  assert (has_node (OriginNode p)) as Ho.
  { apply (ck_origins _ _ Hck). destruct (base.filter _ (w_Paths n)) as [|q qs] eqn:Hf; [done|]. injection Hp as <-.
    assert (q ∈ q :: qs) as Hin by left. rewrite <- Hf in Hin. by apply list_elem_of_filter in Hin as [_ ?]. }
  destruct (base.filter _ (pt_Routes p)) as [|br [|br' brs]]; [done| |done]. split; [done|]. by intros bt [= <-].
Qed.

Lemma emitCondition_safe st nc : dom st.1 = dom (w_Nodes n) → ref_ok nc →
  safe (emitCondition n st nc) ∧ ∀ st', emitCondition n st nc = Ok st' → dom st'.1 = dom (w_Nodes n).
Proof.
  intros Hd [Hnode [spec Hspec]]. split.
  - unfold emitCondition. case_bool_decide; [apply safe_ok|]. apply safe_bind.
    + unfold compiledCondition. rewrite Hspec. pose proof (ck_kinds _ _ Hck _ _ Hspec) as Hk. unfold one_kind in Hk.
      destruct (cs_DstIn spec); [apply safe_ok|]. destruct (cs_SrcIn spec); [apply safe_ok|]. destruct (cs_Healthcheck spec) as [hc|]; [|done].
      apply safe_bind; [apply gatewayBranch_safe|]. intros [br tun] _. safe.
    + intros d _. apply safe_bind; [by apply safe_atNode|]. intros; apply safe_ok.
  - intros st' H. apply grows_emitCondition in H as [Hg _]. by rewrite Hg.
Qed.

Lemma emitConditions_safe out refs : dom out = dom (w_Nodes n) → Forall ref_ok refs → safe (emitConditions n out refs).
Proof.
  intros Hd Hr. unfold emitConditions. apply safe_bind; [|intros st Hst; apply safe_bind; [|intros; apply safe_ok]].
  - apply (safe_rangeM _ (λ st, dom st.1 = dom (w_Nodes n))); [done|]. intros st nc Hin Hst.
    rewrite sortedRefs_in in Hin. rewrite Forall_forall in Hr. specialize (Hr nc Hin). destruct (emitCondition_safe st nc Hst Hr) as [H1 H2]. split.
    + apply safe_bind; [|intros; exact H1]. unfold healthOn. destruct (w_Conditions n !! nc.2) as [spec|]; [|apply safe_ok].
      destruct (cs_Healthcheck spec); [|apply safe_ok]. apply safe_bind; [apply gatewayBranch_safe|]. intros bt _. safe.
    + intros st' H. apply res_bind_ok in H as (u & _ & H). by apply H2.
  - apply (safe_rangeM _ (λ st, dom st.1 = dom (w_Nodes n))).
    + refine (Config.rangeM_inv _ (λ st, dom st.1 = dom (w_Nodes n)) _ _ _ _ _ Hst); [|done].
      intros s nc s' _ Hs Hx. apply res_bind_ok in Hx as (u & _ & Hx). apply grows_emitCondition in Hx as [Hg _]. by rewrite Hg.
    + intros s [c spec] Hin%elem_of_map_to_list Hs. destruct (cs_Healthcheck spec) as [hc|]; [|split; [apply safe_ok|by intros s' [= <-]]].
      destruct (gatewayBranch_safe (h_Path hc) (h_Gateway hc)) as [H1 H2]. split.
      * apply safe_bind; [exact H1|]. intros bt Hbt. apply emitCondition_safe; [done|]. split; [by apply H2|by eexists].
      * intros s' H. apply res_bind_ok in H as (bt & _ & H). apply grows_emitCondition in H as [Hg _]. by rewrite Hg.
Qed.

Lemma deriveRoutes_safe out : dom out = dom (w_Nodes n) → safe (deriveRoutes n out links).
Proof.
  intros Hd. unfold deriveRoutes.
  assert (derived_ok (MkDerivation out [] [])) as H0 by (split; [done|constructor..]).
  apply safe_bind.
  { apply (safe_rangeM _ derived_ok); [done|]. intros d p Hp Hdo. by apply pathStep_safe. }
  intros d Hdd. assert (derived_ok d) as [Ho Hp Hr].
  { refine (Config.rangeM_inv _ derived_ok _ _ _ _ H0 Hdd). intros s p s' Hin Hs Hx. by apply (pathStep_safe s p Hin Hs). }
  destruct (qualify_safe (dv_pend d) ∅ (dv_pend d) Hp) as [Hq1 Hq2]. apply safe_bind; [exact Hq1|]. intros q Hq.
  destruct (Hq2 q Hq) as [Hpl Hrf]. apply safe_bind; [by apply emitRules_safe|]. intros o1 Ho1. apply grows_emitRules in Ho1 as [Hg1 _].
  apply safe_bind; [|intros; apply safe_ok]. apply emitConditions_safe; [by rewrite Hg1|]. by apply Forall_app.
Qed.
End compile.

(** What validation establishes about the schema it returns: its
    gateways are a fixed point of the inference and each is the node where the
    branch's up-path ends and its down-path starts; link names are unique and
    their ends are nodes; every path has its own origin node; every branch names
    known conditions and links and an egress; every condition has one kind. *)
Theorem validated_schema n n' :
  validate n = Ok n' → inferGateways n' (linkMap n') = Ok n' ∧ checked n' (linkMap n').
Proof. apply validate_inferred. Qed.

(** ** The compiler with every lookup checked

    Where a link or a protocol is looked up by name Go reads a missing one as the
    zero value, as [Compile] does.  [strictCompile] is the same compiler with those
    lookups checked too: whatever is not there is the error "nil". *)

Definition linkAt (links : gmap string Link) (ln : string) : vres () :=
  match links !! ln with Some _ => Ok tt | None => Err "nil" end.
Definition strictRules (links : gmap string Link) (p : Path) (tun : string) (br : Branch) : vres (list pendingRule) :=
  let? _ := (if b_Gateway br =? "" then Ok tt else rangeM (λ _ ln, linkAt links ln) tt (b_Up br ++ b_Down br)%list) in
  branchRules links p tun br.
Definition strictLink (n : Network) (out : routes) (l : Link) : vres routes :=
  match w_Protocols n !! l_Protocol l with Some _ => addLinkConnections n out l | None => Err "nil" end.

Definition strictPathStep (n : Network) (links : gmap string Link) (d : derivation) (p : Path) : vres derivation :=
  let origin := OriginNode p in
  let? nd := nodeAt n origin in
  let refs := concat (map (λ br, map (λ cn, (origin, cn)) (b_When br)) (pt_Routes p)) in
  if nd_Datapath nd =? "kernel" then
    let? out := rangeM (λ out br, atNode out origin (λ cn, setForward cn (Config.n_Forward cn ++ [Config.MkForward (b_When br) (b_Egress br)])%list))
      (dv_out d) (pt_Routes p) in
    Ok (MkDerivation out (dv_pend d) (dv_refs d ++ refs)%list)
  else
    let tun := default "" (originTun nd) in
    let? pend := rangeM (λ acc br, let? rs := strictRules links p tun br in Ok (acc ++ rs)%list) (dv_pend d) (pt_Routes p) in
    Ok (MkDerivation (dv_out d) pend (dv_refs d ++ refs)%list).

Definition strictDerive (n : Network) (out : routes) (links : gmap string Link) : vres routes :=
  let? d := rangeM (strictPathStep n links) (MkDerivation out [] []) (w_Paths n) in
  let? q := qualifyRules n (dv_pend d) in
  let? out := emitRules (dv_out d) q.1 in
  let? out := emitConditions n out (dv_refs d ++ q.2)%list in
  Ok (sortRoutes n out).

Definition strictCompile (n : Network) : vres routes :=
  let out := baseNode n <$> w_Nodes n in
  let links := linkMap n in
  let? out := rangeM (strictLink n) out (w_Links n) in
  let? n := inferGateways n links in
  let? out := strictDerive n out links in
  let out := Config.Defaults <$> out in
  let? _ := rangeM (λ _ kv, match Config.Validate kv.2 with Err e => Err ("generated config invalid: " +:+ e) | ok => ok end) tt (map_to_list out) in
  Ok out.

Lemma rangeM_ext {A S} (f g : S → A → vres S) xs s : (∀ s x, x ∈ xs → f s x = g s x) → rangeM f s xs = rangeM g s xs.
Proof.
  revert s. induction xs as [|x xs IH]; intros s H; [done|]. cbn [rangeM]. rewrite (H s x) by left. destruct (g s x); [|done]. cbn.
  apply IH. intros t y Hy. apply H. by right.
Qed.

Lemma strictRules_known n links p tun br : branch_known n links br → strictRules links p tun br = branchRules links p tun br.
Proof.
  intros [_ Hl _]. unfold strictRules. destruct (b_Gateway br =? ""); [done|].
  assert (rangeM (λ _ ln, linkAt links ln) tt (b_Up br ++ b_Down br)%list = Ok tt) as ->; [|done].
  induction (b_Up br ++ b_Down br)%list as [|ln l IH]; [done|]. cbn [rangeM]. unfold linkAt at 1. destruct (Hl ln ltac:(left)) as [x ->]. cbn.
  apply IH. intros y Hy. apply Hl. by right.
Qed.

Lemma validate_protocols n n' : validate n = Ok n' → ∀ l, l ∈ w_Links n' → is_Some (w_Protocols n' !! l_Protocol l).
Proof.
  intros H. unfold validate in H. apply Config.check_ok in H as [_ H]. do 2 apply res_bind_ok in H as ([] & _ & H).
  apply res_bind_ok in H as (links & Hlinks & H). apply res_bind_ok in H as (m & Hm & H).
  assert (w_Links n' = w_Links n ∧ w_Protocols n' = w_Protocols n) as [-> ->].
  { unfold inferGateways in Hm. apply res_bind_ok in Hm as (ps & _ & Hm). injection Hm as <-.
    apply res_bind_ok in H as (st & _ & H). apply res_bind_ok in H as (kinds & _ & H). do 3 apply res_bind_ok in H as ([] & _ & H). by injection H as <-. }
  intros l Hl. refine (Config.rangeM_reaches _ (λ l _, is_Some (w_Protocols n !! l_Protocol l)) _ _ _ _ _ Hlinks l Hl); [|done].
  intros acc x acc' _ Hx. unfold validateLink in Hx. rewrite !Config.check_ok in Hx. destruct Hx as (_ & _ & Hx).
  destruct (w_Nodes n !! l_Dialer x); [|done]. destruct (w_Nodes n !! l_Acceptor x); [|done]. rewrite !Config.check_ok in Hx.
  destruct Hx as (_ & _ & Hx). destruct (w_Protocols n !! l_Protocol x); [by eexists|done].
Qed.

(** Claim C15.  Compiling a validated schema uses no node, link, protocol or
    condition that is not there: the compiler with every lookup by name checked
    gives the same result as [Compile], and that is the configurations or one of
    the compiler's own errors, never a nil dereference. *)
Theorem compile_never_nil n n' : validate n = Ok n' → strictCompile n' = Compile n' ∧ Compile n' ≠ Err "nil".
Proof.
  intros Hv. pose proof (validate_protocols n n' Hv) as Hp. destruct (validate_inferred n n' Hv) as [Hinf Hck]. split.
  - unfold strictCompile, Compile. rewrite (rangeM_ext (strictLink n') (addLinkConnections n')).
    2:{ intros s l Hl. unfold strictLink. by destruct (Hp l Hl) as [pr ->]. }
    destruct (rangeM (addLinkConnections n') _ _) as [o|]; [|done]. cbn [res_bind]. rewrite Hinf. cbn [res_bind]. f_equal. unfold strictDerive, deriveRoutes. f_equal.
    apply rangeM_ext. intros d p Hin. unfold strictPathStep, pathStep. destruct (nodeAt n' (OriginNode p)) as [nd|]; [|done]. cbn [res_bind].
    destruct (nd_Datapath nd =? "kernel"); [done|]. f_equal. apply rangeM_ext. intros acc br Hbr.
    by rewrite (strictRules_known n' _ _ _ _ (proj1 (ck_branches _ _ Hck p br Hin Hbr))).
  - unfold Compile. apply safe_bind; [by eapply safe_links|]. intros o1 H1.
    destruct (links_joined _ _ _ _ (keyed_base n') H1) as [[Hd _ _] _]. rewrite Hinf. cbn [res_bind].
    apply safe_bind; [by eapply deriveRoutes_safe|]. intros o2 _. apply safe_bind; [|intros; apply safe_ok].
    apply (safe_rangeM _ (λ _, True)); [done|]. intros [] kv _ _. split; [|done]. by destruct (Config.Validate kv.2).
Qed.

Lemma validated_schema_witness : inferGateways demoInferred (linkMap demoInferred) = Ok demoInferred.
Proof. refine (proj1 (validated_schema demoNet demoInferred _)). vm_compute. reflexivity. Defined.

(** The two compilers differ on a branch through a link that is not there. *)
Definition ghostBranch : Branch := MkBranch [] "direct" ["a-b"; "ghost"] [] "b".
Definition ghostLinks : gmap string Link := {["a-b" := MkLink "a-b" "a" "b" toAcceptor "p" 1 "" "" false "" ""]}.
Lemma ghost_link :
  branchRules ghostLinks (MkPath "" "a" []) "tun" ghostBranch = Err "links are mis-chained" ∧
  strictRules ghostLinks (MkPath "" "a" []) "tun" ghostBranch = Err "nil".
Proof. vm_compute. done. Qed.

Lemma compile_never_nil_witness : is_ok (validate demoNet) = true ∧ strictCompile demoInferred = Compile demoInferred ∧ Compile demoInferred ≠ Err "nil".
Proof. split; [vm_compute; reflexivity|]. apply (compile_never_nil demoNet demoInferred). vm_compute. reflexivity. Defined.
