(* ===== verification/Stats.v ===== *)
(** * internal/stats/stats.go: counters, interval peaks and the rotated file

    The atomic counters are 64-bit with wrap-around; every method call is one
    step, in the order the calls take effect.  Memory readings, the clock and the
    outcomes of the file operations are arguments; JSON encoding is not modelled,
    a record is the bytes the encoder writes. *)

From S2P Require Import Prelude GoStrings.
Local Open Scope Z_scope.

(** ** Registry *)

Record connStat := MkConnStat { s_recv : Z; s_sent : Z; s_recvBytes : Z; s_sentBytes : Z }.

Record Registry := MkRegistry {
  g_conns : gmap string connStat;
  g_routes : gmap string Z;
  g_noRouteDrops : Z;
  g_decodeDrops : Z;
  g_start : Z;
  g_maxHeap : Z;
  g_maxSys : Z;
  g_maxGoros : Z;
}.

(** [atomic.Uint64.Add]. *)
Definition add64 (x d : Z) : Z := wrap 64 (x + d).

Definition setConns (r : Registry) (m : gmap string connStat) : Registry :=
  MkRegistry m (g_routes r) (g_noRouteDrops r) (g_decodeDrops r) (g_start r) (g_maxHeap r) (g_maxSys r) (g_maxGoros r).
Definition setRoutesMap (r : Registry) (m : gmap string Z) : Registry :=
  MkRegistry (g_conns r) m (g_noRouteDrops r) (g_decodeDrops r) (g_start r) (g_maxHeap r) (g_maxSys r) (g_maxGoros r).
Definition setWindow (r : Registry) (heap sys goros : Z) : Registry :=
  MkRegistry (g_conns r) (g_routes r) (g_noRouteDrops r) (g_decodeDrops r) (g_start r) heap sys goros.

Definition New (connNames : list string) (now : Z) : Registry :=
  MkRegistry (fold_left (λ m n, <[n := MkConnStat 0 0 0 0]> m) connNames ∅) ∅ 0 0 now 0 0 0.

Definition SetRoutes (r : Registry) (labels : list string) : Registry :=
  setRoutesMap r (fold_left (λ m l, match m !! l with Some _ => m | None => <[l := 0]> m end) labels (g_routes r)).

Definition Recv (r : Registry) (name : string) (n : Z) : Registry :=
  match g_conns r !! name with
  | Some c => setConns r (<[name := MkConnStat (add64 (s_recv c) 1) (s_sent c) (add64 (s_recvBytes c) (wrap 64 n)) (s_sentBytes c)]> (g_conns r))
  | None => r
  end.

Definition Sent (r : Registry) (name : string) (n : Z) : Registry :=
  match g_conns r !! name with
  | Some c => setConns r (<[name := MkConnStat (s_recv c) (add64 (s_sent c) 1) (s_recvBytes c) (add64 (s_sentBytes c) (wrap 64 n))]> (g_conns r))
  | None => r
  end.

Definition Route (r : Registry) (label : string) : Registry :=
  match g_routes r !! label with
  | Some c => setRoutesMap r (<[label := add64 c 1]> (g_routes r))
  | None => r
  end.

Definition NoRouteDrop (r : Registry) : Registry :=
  MkRegistry (g_conns r) (g_routes r) (add64 (g_noRouteDrops r) 1) (g_decodeDrops r) (g_start r) (g_maxHeap r) (g_maxSys r) (g_maxGoros r).
Definition DecodeDrop (r : Registry) : Registry :=
  MkRegistry (g_conns r) (g_routes r) (g_noRouteDrops r) (add64 (g_decodeDrops r) 1) (g_start r) (g_maxHeap r) (g_maxSys r) (g_maxGoros r).

(** [sample], with the readings. *)
Definition sample (r : Registry) (heapAlloc sys goros : Z) : Registry :=
  setWindow r (if g_maxHeap r <? heapAlloc then heapAlloc else g_maxHeap r)
    (if g_maxSys r <? sys then sys else g_maxSys r)
    (if g_maxGoros r <? goros then goros else g_maxGoros r).

Definition takeWindow (r : Registry) : Registry * (Z * Z * Z) :=
  (setWindow r 0 0 0, (g_maxHeap r, g_maxSys r, g_maxGoros r)).

(** The conversion of a uint64 to float64: 53 bits, ties to even.  Dividing by
    [mib], a power of two, changes the exponent only, so a size in MiB is this
    number over 2^20. *)
Definition float64OfUint64 (z : Z) : Z :=
  if z <? 2 ^ 53 then z
  else
    let e := Z.log2 z - 52 in
    let q := Z.shiftr z e in
    let r := z - Z.shiftl q e in
    let half := 2 ^ (e - 1) in
    Z.shiftl (if (half <? r) || ((r =? half) && Z.odd q) then q + 1 else q) e.

Record Snapshot := MkSnapshot {
  sn_Time : Z;
  sn_UptimeSec : Z;
  sn_MaxHeap : Z;  (** MiB / 2^20 *)
  sn_MaxSys : Z;   (** MiB / 2^20 *)
  sn_MaxGoros : Z;
  sn_Conns : gmap string connStat;
  sn_Routes : gmap string Z;
  sn_NoRoute : Z;
  sn_Decode : Z;
}.

(** [snapshot] at time [now], in nanoseconds; the time is formatted in seconds. *)
Definition snapshot (r : Registry) (now : Z) : Registry * Snapshot :=
  let '(r', (heap, sys, goros)) := takeWindow r in
  (r', MkSnapshot (now / 1000000000) (Z.quot (now - g_start r) 1000000000) (float64OfUint64 heap) (float64OfUint64 sys) goros
     (g_conns r) (g_routes r) (g_noRouteDrops r) (g_decodeDrops r)).

(** The calls of the packet path and of the reporter. *)
Inductive sevent :=
| EvRecv (name : string) (n : Z)
| EvSent (name : string) (n : Z)
| EvRoute (label : string)
| EvNoRoute
| EvDecode
| EvSample (heapAlloc sys goros : Z)
| EvWrite (now heapAlloc sys goros : Z).

(** [Run]'s cases: a sample, or a sample and a snapshot. *)
Definition sstep (r : Registry) (e : sevent) : Registry * list Snapshot :=
  match e with
  | EvRecv name n => (Recv r name n, [])
  | EvSent name n => (Sent r name n, [])
  | EvRoute l => (Route r l, [])
  | EvNoRoute => (NoRouteDrop r, [])
  | EvDecode => (DecodeDrop r, [])
  | EvSample h s g => (sample r h s g, [])
  | EvWrite now h s g => let '(r', sn) := snapshot (sample r h s g) now in (r', [sn])
  end.

Fixpoint srun (r : Registry) (es : list sevent) : Registry * list Snapshot :=
  match es with
  | [] => (r, [])
  | e :: es' => let '(r1, o1) := sstep r e in let '(r2, o2) := srun r1 es' in (r2, (o1 ++ o2)%list)
  end.

(** ** Rotating file *)

(** The last element's extension: from its last dot. *)
Fixpoint extLen (rev : list ascii) (k : nat) : option nat :=
  match rev with
  | [] => None
  | c :: rev' => if bool_decide (c = "/"%char) then None else if bool_decide (c = "."%char) then Some (S k) else extLen rev' (S k)
  end.

(** [filepath.Ext] *)
Definition pathExt (path : list ascii) : list ascii :=
  match extLen (rev path) 0 with Some k => drop (length path - k) path | None => [] end.

Definition rotatedName (path : string) : string :=
  let p := chars path in
  let ext := pathExt p in
  unchars (take (length p - length ext) p ++ chars "-old" ++ ext)%list.

(** File contents by name; an open handle appends to [path]. *)
Abbreviation disk := (gmap string (list Z)).

Record rotatingWriter := MkRotating {
  w_path : string;
  w_rotated : string;
  w_max : Z;
  w_open : bool;
  w_size : Z;
}.

Definition newRotatingWriter (fs : disk) (path : string) (max : Z) : disk * rotatingWriter :=
  let c := default [] (fs !! path) in
  (<[path := c]> fs, MkRotating path (rotatedName path) max true (zlen c)).

(** The outcomes of the system calls of one write: the rename, the two
    attempts to open, and how many bytes the write takes. *)
Record outcome := MkOutcome { oc_rename : bool; oc_open1 : bool; oc_open2 : bool; oc_wrote : nat }.

Definition rotate (fs : disk) (w : rotatingWriter) (oc : outcome) : disk * rotatingWriter :=
  let fs := if oc_rename oc then
      match fs !! w_path w with Some c => <[w_rotated w := c]> (delete (w_path w) fs) | None => fs end
    else fs in
  if oc_open1 oc || oc_open2 oc
  then (<[w_path w := []]> fs, MkRotating (w_path w) (w_rotated w) (w_max w) true 0)
  else (fs, MkRotating (w_path w) (w_rotated w) (w_max w) false (w_size w)).

Definition Write (fs : disk) (w : rotatingWriter) (p : list Z) (oc : outcome) : disk * rotatingWriter * Z :=
  let '(fs, w) := if (0 <? w_max w) && (w_max w <? w_size w + zlen p) then rotate fs w oc else (fs, w) in
  if w_open w then
    let q := take (oc_wrote oc) p in
    (<[w_path w := (default [] (fs !! w_path w) ++ q)%list]> fs,
     MkRotating (w_path w) (w_rotated w) (w_max w) true (w_size w + zlen q), zlen q)
  else (fs, w, 0).

Definition writeAll (s : disk * rotatingWriter) (rs : list (list Z * outcome)) : disk * rotatingWriter :=
  fold_left (λ s r, (Write s.1 s.2 r.1 r.2).1) rs s.

(** ** Lemmas: counters *)

Definition recvd (name : string) (e : sevent) : Z := match e with EvRecv m _ => if bool_decide (m = name) then 1 else 0 | _ => 0 end.
Definition recvdBytes (name : string) (e : sevent) : Z := match e with EvRecv m n => if bool_decide (m = name) then n else 0 | _ => 0 end.
Definition sent (name : string) (e : sevent) : Z := match e with EvSent m _ => if bool_decide (m = name) then 1 else 0 | _ => 0 end.
Definition sentBytes (name : string) (e : sevent) : Z := match e with EvSent m n => if bool_decide (m = name) then n else 0 | _ => 0 end.
Definition routed (label : string) (e : sevent) : Z := match e with EvRoute l => if bool_decide (l = label) then 1 else 0 | _ => 0 end.
Definition noRoute (e : sevent) : Z := match e with EvNoRoute => 1 | _ => 0 end.
Definition decodeDrop (e : sevent) : Z := match e with EvDecode => 1 | _ => 0 end.

Definition total (f : sevent → Z) (es : list sevent) : Z := foldr (λ e s, f e + s) 0 es.

Lemma add64_wrap a b : add64 (wrap 64 a) (wrap 64 b) = wrap 64 (a + b).
Proof. unfold add64, wrap. by rewrite <- Zplus_mod. Qed.
Lemma add64_wrap_l a b : add64 (wrap 64 a) b = wrap 64 (a + b).
Proof. unfold add64, wrap. by rewrite Zplus_mod_idemp_l. Qed.
Lemma wrap_wrap a : wrap 64 (wrap 64 a) = wrap 64 a.
Proof. unfold wrap. by rewrite Zmod_mod. Qed.

(** The registry holds the totals of what happened, modulo 2^64. *)
Record holds_totals (names labels : list string) (r : Registry) (es : list sevent) : Prop := {
  ht_conns : ∀ name, g_conns r !! name = if bool_decide (name ∈ names) then
    Some (MkConnStat (wrap 64 (total (recvd name) es)) (wrap 64 (total (sent name) es))
      (wrap 64 (total (recvdBytes name) es)) (wrap 64 (total (sentBytes name) es))) else None;
  ht_routes : ∀ l, g_routes r !! l = if bool_decide (l ∈ labels) then Some (wrap 64 (total (routed l) es)) else None;
  ht_noRoute : g_noRouteDrops r = wrap 64 (total noRoute es);
  ht_decode : g_decodeDrops r = wrap 64 (total decodeDrop es);
}.

Lemma total_snoc f es e : total f (es ++ [e])%list = total f es + f e.
Proof. unfold total. induction es as [|x es IH]; cbn [app foldr]; [lia|]. rewrite IH. lia. Qed.

Lemma srun_snoc r es e : srun r (es ++ [e])%list = (let '(r1, o1) := srun r es in let '(r2, o2) := sstep r1 e in (r2, (o1 ++ o2)%list)).
Proof.
  revert r. induction es as [|x es IH]; intros r; cbn [app srun].
  - destruct (sstep r e) as [r2 o2]. by rewrite app_nil_r.
  - destruct (sstep r x) as [r1 o1]. rewrite IH. destruct (srun r1 es) as [r2 o2]. destruct (sstep r2 e) as [r3 o3]. by rewrite app_assoc.
Qed.

Lemma New_conns names now name : g_conns (New names now) !! name = if bool_decide (name ∈ names) then Some (MkConnStat 0 0 0 0) else None.
Proof.
  cbn. induction names as [|x names IH] using rev_ind; [done|]. rewrite fold_left_app. cbn [fold_left].
  destruct (decide (x = name)) as [->|Hne].
  - rewrite lookup_insert_eq, bool_decide_eq_true_2; [done|]. set_solver.
  - rewrite lookup_insert_ne, IH by done. apply (f_equal (λ b : bool, if b then _ else None)), bool_decide_ext. set_solver.
Qed.

Lemma SetRoutes_routes r labels l : g_routes r = ∅ → g_routes (SetRoutes r labels) !! l = if bool_decide (l ∈ labels) then Some 0 else None.
Proof.
  intros Hr. cbn. rewrite Hr. induction labels as [|x labels IH] using rev_ind; [done|]. rewrite fold_left_app. cbn [fold_left].
  set (m := fold_left _ labels ∅) in *. destruct (decide (x = l)) as [->|Hne].
  - rewrite (bool_decide_eq_true_2 (l ∈ labels ++ [l])) by set_solver. destruct (m !! l) as [z|] eqn:Hm; [|by rewrite lookup_insert_eq].
    rewrite Hm. destruct (bool_decide (l ∈ labels)); [done|congruence].
  - assert (bool_decide (l ∈ labels ++ [x]) = bool_decide (l ∈ labels)) as -> by (apply bool_decide_ext; set_solver).
    destruct (m !! x); [done|by rewrite lookup_insert_ne].
Qed.

Lemma insert_if (m : gmap string connStat) (names : list string) (f g : string → connStat) k c :
  (∀ x, m !! x = if bool_decide (x ∈ names) then Some (f x) else None) → m !! k = Some c → (∀ x, x ≠ k → f x = g x) →
  ∀ x, <[k := g k]> m !! x = if bool_decide (x ∈ names) then Some (g x) else None.
Proof.
  intros Hm Hk Hfg x. destruct (decide (x = k)) as [->|Hne].
  - rewrite lookup_insert_eq. rewrite Hm in Hk. by case_bool_decide.
  - rewrite lookup_insert_ne, Hm by done. case_bool_decide; [by rewrite Hfg|done].
Qed.

Definition statOf (es : list sevent) (name : string) : connStat :=
  MkConnStat (wrap 64 (total (recvd name) es)) (wrap 64 (total (sent name) es))
    (wrap 64 (total (recvdBytes name) es)) (wrap 64 (total (sentBytes name) es)).

Lemma statOf_other es e name :
  recvd name e = 0 → sent name e = 0 → recvdBytes name e = 0 → sentBytes name e = 0 → statOf (es ++ [e]) name = statOf es name.
Proof. intros H1 H2 H3 H4. unfold statOf. by rewrite !total_snoc, H1, H2, H3, H4, !Z.add_0_r. Qed.

Lemma conns_step (names : list string) r es e :
  (∀ name, g_conns r !! name = if bool_decide (name ∈ names) then Some (statOf es name) else None) →
  ∀ name, g_conns (sstep r e).1 !! name = if bool_decide (name ∈ names) then Some (statOf (es ++ [e]) name) else None.
Proof.
  intros H. assert (∀ k, g_conns r !! k = None → (∀ x, x ≠ k → statOf (es ++ [e]) x = statOf es x) →
    ∀ x, g_conns r !! x = if bool_decide (x ∈ names) then Some (statOf (es ++ [e]) x) else None) as Hmiss.
  { intros k Hk Hx x. rewrite H. destruct (bool_decide (x ∈ names)) eqn:Hin; [|done]. rewrite Hx; [done|]. intros ->.
    by rewrite H, Hin in Hk. }
  assert ((∀ x, statOf (es ++ [e]) x = statOf es x) →
    ∀ x, g_conns r !! x = if bool_decide (x ∈ names) then Some (statOf (es ++ [e]) x) else None) as Hsame.
  { intros Hx x. by rewrite Hx. }
  destruct e as [k n|k n|l| | |h s g|now h s g]; cbn [sstep fst].
  - assert (∀ x, x ≠ k → statOf (es ++ [EvRecv k n]) x = statOf es x) as Hx.
    { intros x Hne. apply statOf_other; cbn; rewrite ?(bool_decide_eq_false_2 (k = x)) by congruence; done. }
    unfold Recv. destruct (g_conns r !! k) as [c|] eqn:Hk; [|by apply (Hmiss k)]. cbn [setConns g_conns]. intros x.
    pose proof (H k) as Hk'. rewrite Hk in Hk'. case_bool_decide; [|done]. injection Hk' as ->.
    replace (MkConnStat _ _ _ _) with (statOf (es ++ [EvRecv k n]) k); [apply (insert_if _ names (statOf es) (statOf (es ++ [EvRecv k n])) k (statOf es k)); [done..|by intros; symmetry; apply Hx]|].
    unfold statOf. rewrite !total_snoc. cbn. rewrite bool_decide_eq_true_2, add64_wrap, add64_wrap_l, !Z.add_0_r by done. done.
  - assert (∀ x, x ≠ k → statOf (es ++ [EvSent k n]) x = statOf es x) as Hx.
    { intros x Hne. apply statOf_other; cbn; rewrite ?(bool_decide_eq_false_2 (k = x)) by congruence; done. }
    unfold Sent. destruct (g_conns r !! k) as [c|] eqn:Hk; [|by apply (Hmiss k)]. cbn [setConns g_conns]. intros x.
    pose proof (H k) as Hk'. rewrite Hk in Hk'. case_bool_decide; [|done]. injection Hk' as ->.
    replace (MkConnStat _ _ _ _) with (statOf (es ++ [EvSent k n]) k); [apply (insert_if _ names (statOf es) (statOf (es ++ [EvSent k n])) k (statOf es k)); [done..|by intros; symmetry; apply Hx]|].
    unfold statOf. rewrite !total_snoc. cbn. rewrite bool_decide_eq_true_2, add64_wrap, add64_wrap_l, !Z.add_0_r by done. done.
  - unfold Route. destruct (g_routes r !! l); by apply Hsame; intros x; apply statOf_other.
  - by apply Hsame; intros x; apply statOf_other.
  - by apply Hsame; intros x; apply statOf_other.
  - by apply Hsame; intros x; apply statOf_other.
  - by apply Hsame; intros x; apply statOf_other.
Qed.

Lemma routes_step (labels : list string) r es e :
  (∀ l, g_routes r !! l = if bool_decide (l ∈ labels) then Some (wrap 64 (total (routed l) es)) else None) →
  ∀ l, g_routes (sstep r e).1 !! l = if bool_decide (l ∈ labels) then Some (wrap 64 (total (routed l) (es ++ [e]))) else None.
Proof.
  intros H l. assert (routed l e = 0 → g_routes r !! l = if bool_decide (l ∈ labels) then Some (wrap 64 (total (routed l) (es ++ [e]))) else None) as Hsame.
  { intros He. rewrite total_snoc, He, Z.add_0_r. apply H. }
  destruct e as [k n|k n|k| | |h s g|now h s g]; cbn [sstep fst]; try (by apply Hsame).
  - unfold Recv. destruct (g_conns r !! k); by apply Hsame.
  - unfold Sent. destruct (g_conns r !! k); by apply Hsame.
  - unfold Route. destruct (decide (k = l)) as [->|Hne].
    + rewrite total_snoc. cbn [routed]. rewrite (bool_decide_eq_true_2 (l = l)) by done. pose proof (H l) as Hl.
      destruct (g_routes r !! l) as [c|] eqn:Hc; [|rewrite Hc; by case_bool_decide]. cbn. rewrite lookup_insert_eq.
      case_bool_decide; [|done]. injection Hl as ->. by rewrite add64_wrap_l.
    + destruct (g_routes r !! k) as [c|]; [|apply Hsame; cbn; by rewrite bool_decide_eq_false_2].
      cbn. rewrite lookup_insert_ne by done. apply Hsame. cbn. by rewrite bool_decide_eq_false_2.
Qed.

Lemma drops_step r es e :
  g_noRouteDrops r = wrap 64 (total noRoute es) → g_decodeDrops r = wrap 64 (total decodeDrop es) →
  g_noRouteDrops (sstep r e).1 = wrap 64 (total noRoute (es ++ [e])) ∧ g_decodeDrops (sstep r e).1 = wrap 64 (total decodeDrop (es ++ [e])).
Proof.
  intros H1 H2. rewrite !total_snoc. destruct e as [k n|k n|k| | |h s g|now h s g]; cbn [sstep fst noRoute decodeDrop];
    rewrite ?Z.add_0_r; unfold Recv, Sent, Route; try (destruct (_ !! k)); try done; cbn; rewrite ?H1, ?H2, ?add64_wrap_l; done.
Qed.

Lemma srun_totals names labels now es : holds_totals names labels (srun (SetRoutes (New names now) labels) es).1 es.
Proof.
  induction es as [|e es IH] using rev_ind.
  - cbn [srun fst]. split; [intros name; apply New_conns|intros l; by apply SetRoutes_routes|done|done].
  - rewrite srun_snoc. destruct (srun _ es) as [r1 o1]. cbn [fst] in IH. destruct IH as [H1 H2 H3 H4].
    assert ((let '(r2, o2) := sstep r1 e in (r2, (o1 ++ o2)%list)).1 = (sstep r1 e).1) as -> by (by destruct (sstep r1 e)).
    split; [by apply conns_step|by apply routes_step|by apply drops_step..].
Qed.

(** ** Lemmas: interval peaks *)

(** The readings since the last snapshot. *)
Definition window (es : list sevent) : list (Z * Z * Z) :=
  fold_left (λ w e, match e with EvSample h s g => (w ++ [(h, s, g)])%list | EvWrite _ _ _ _ => [] | _ => w end) es [].

Definition peak (l : list Z) : Z := foldr Z.max 0 l.

Lemma peak_snoc l x : peak (l ++ [x]) = Z.max (peak l) x.
Proof. unfold peak. induction l as [|y l IH]; cbn [app foldr]; [lia|]. rewrite IH. lia. Qed.

Definition heapOf (w : Z * Z * Z) : Z := w.1.1.
Definition sysOf (w : Z * Z * Z) : Z := w.1.2.
Definition gorosOf (w : Z * Z * Z) : Z := w.2.

Definition window_ok (r : Registry) (w : list (Z * Z * Z)) : Prop :=
  g_maxHeap r = peak (map heapOf w) ∧ g_maxSys r = peak (map sysOf w) ∧ g_maxGoros r = peak (map gorosOf w).

Lemma sample_window r w h s g : window_ok r w → window_ok (sample r h s g) (w ++ [(h, s, g)]).
Proof.
  intros (H1 & H2 & H3). unfold window_ok. rewrite !map_app. cbn [map]. rewrite !peak_snoc, <- H1, <- H2, <- H3. cbn.
  repeat split; destruct (Z.ltb_spec (g_maxHeap r) h), (Z.ltb_spec (g_maxSys r) s), (Z.ltb_spec (g_maxGoros r) g); cbn; lia.
Qed.

Lemma srun_window names labels now es : window_ok (srun (SetRoutes (New names now) labels) es).1 (window es).
Proof.
  induction es as [|e es IH] using rev_ind; [done|]. rewrite srun_snoc. unfold window. rewrite fold_left_app. cbn [fold_left].
  fold (window es). destruct (srun _ es) as [r1 o1]. cbn [fst] in IH.
  destruct e as [k n|k n|k| | |h s g|t h s g]; cbn [sstep fst]; unfold Recv, Sent, Route; try (destruct (_ !! k)); try exact IH.
  - by apply sample_window.
  - done.
Qed.

(** A snapshot reports exactly what happened: for every connection of
    the node the packets and bytes received and sent, for every rule label its
    matches, and both kinds of drops, each modulo 2^64, whatever the interleaving;
    and the peaks over all readings of the interval, the one taken for it
    included, after which the next interval starts afresh. *)
Theorem snapshot_exact names labels start es now h s g :
  let r := (srun (SetRoutes (New names start) labels) es).1 in
  ∃ r' sn, sstep r (EvWrite now h s g) = (r', [sn]) ∧ holds_totals names labels r' (es ++ [EvWrite now h s g]) ∧
    sn_Conns sn = g_conns r' ∧ sn_Routes sn = g_routes r' ∧ sn_NoRoute sn = g_noRouteDrops r' ∧ sn_Decode sn = g_decodeDrops r' ∧
    sn_MaxHeap sn = float64OfUint64 (peak (map heapOf (window es ++ [(h, s, g)]))) ∧
    sn_MaxSys sn = float64OfUint64 (peak (map sysOf (window es ++ [(h, s, g)]))) ∧
    sn_MaxGoros sn = peak (map gorosOf (window es ++ [(h, s, g)])) ∧
    window_ok r' [].
Proof.
  intros r. pose proof (srun_totals names labels start (es ++ [EvWrite now h s g])) as Ht. rewrite srun_snoc in Ht.
  pose proof (srun_window names labels start es) as Hw. fold r in Hw. destruct (srun _ es) as [r0 o0]. subst r. cbn [fst] in Hw.
  apply (sample_window _ _ h s g) in Hw as (H1 & H2 & H3).
  eexists _, _. split; [reflexivity|]. split; [exact Ht|]. cbn [sn_Conns sn_Routes sn_NoRoute sn_Decode sn_MaxHeap sn_MaxSys sn_MaxGoros].
  rewrite <- H1, <- H2, <- H3. done.
Qed.

(** ** Lemmas: the file *)

Lemma rotatedName_fresh path : rotatedName path ≠ path.
Proof.
  intros H. apply (f_equal (λ s, length (chars s))) in H. unfold rotatedName in H. rewrite chars_unchars, !length_app, length_take in H.
  assert (length (pathExt (chars path)) ≤ length (chars path))%nat as Hl.
  { unfold pathExt. destruct (extLen _ _); [rewrite length_drop; lia|cbn; lia]. }
  change (length (chars "-old")) with 4%nat in H. lia.
Qed.

(** An open handle knows the length of its file, and neither file exceeds the
    bound. *)
Record bounded (b : Z) (s : disk * rotatingWriter) : Prop := {
  bd_size : w_open s.2 = true → w_size s.2 = zlen (default [] (s.1 !! w_path s.2));
  bd_names : w_path s.2 ≠ w_rotated s.2;
  bd_current : zlen (default [] (s.1 !! w_path s.2)) ≤ b;
  bd_rotated : zlen (default [] (s.1 !! w_rotated s.2)) ≤ b;
}.

Lemma rotate_bounded b fs w oc : 0 ≤ b → bounded b (fs, w) → bounded b (rotate fs w oc) ∧ w_max (rotate fs w oc).2 = w_max w ∧
  (w_open (rotate fs w oc).2 = true → w_size (rotate fs w oc).2 = 0).
Proof.
  intros Hb [Hs Hn Hc Hr]. cbn [fst snd] in *. unfold rotate.
  set (fs1 := if oc_rename oc then _ else fs).
  assert (zlen (default [] (fs1 !! w_path w)) ≤ b ∧ zlen (default [] (fs1 !! w_rotated w)) ≤ b) as [H1 H2].
  { subst fs1. destruct (oc_rename oc); [|done]. destruct (fs !! w_path w) as [c|] eqn:Hf; [|by rewrite Hf].
    rewrite lookup_insert_ne, lookup_delete_eq, lookup_insert_eq by done. cbn in *. unfold zlen at 1. cbn. lia. }
  destruct (oc_open1 oc || oc_open2 oc); cbn [fst snd w_max w_open w_size]; (split; [|done]); split; cbn [fst snd w_open w_size w_path w_rotated]; try done.
  - by rewrite lookup_insert_eq.
  - rewrite lookup_insert_eq. cbn. unfold zlen. cbn. lia.
  - by rewrite lookup_insert_ne.
Qed.

Lemma Write_bounded b fs w p oc : 0 < w_max w → w_max w ≤ b → zlen p ≤ b → bounded b (fs, w) →
  bounded b (Write fs w p oc).1 ∧ w_max (Write fs w p oc).1.2 = w_max w.
Proof.
  intros Hm Hmb Hp Hok. unfold Write. rewrite (proj2 (Z.ltb_lt _ _) Hm). cbn [andb].
  assert (0 ≤ b) as Hb by lia.
  assert (∀ fs w, bounded b (fs, w) → (w_open w = true → w_size w + zlen p ≤ b) →
    bounded b (if w_open w then (<[w_path w := (default [] (fs !! w_path w) ++ take (oc_wrote oc) p)%list]> fs,
      MkRotating (w_path w) (w_rotated w) (w_max w) true (w_size w + zlen (take (oc_wrote oc) p)), zlen (take (oc_wrote oc) p)) else (fs, w, 0)).1) as Hwrite.
  { clear fs w Hm Hmb Hok. intros fs w Hok Hfit. destruct (w_open w) eqn:Ho; [|exact Hok]. destruct Hok as [Hs Hn Hc Hr]. cbn [fst snd] in *.
    specialize (Hs Ho). specialize (Hfit eq_refl). assert (zlen (take (oc_wrote oc) p) ≤ zlen p) by len.
    split; cbn [fst snd w_open w_size w_path w_rotated]; rewrite ?lookup_insert_eq, ?lookup_insert_ne by done; cbn [from_option id]; try done.
    - rewrite zlen_app. lia.
    - rewrite zlen_app. lia. }
  destruct (Z.ltb_spec (w_max w) (w_size w + zlen p)).
  - destruct (rotate_bounded b fs w oc Hb Hok) as (H1 & H2 & H3). destruct (rotate fs w oc) as [fs' w']. cbn [fst snd] in *. split.
    + apply Hwrite; [done|]. intros Ho. specialize (H3 Ho). lia.
    + by destruct (w_open w').
  - split; [apply Hwrite; [done|lia]|by destruct (w_open w)].
Qed.

(** The statistics never fill the disk: whatever renames, opens and
    writes fail, the current file and the one rotation kept each stay within the
    configured size (or the file found at the start, or one record, if larger). *)
Theorem stats_disk_bounded fs path max rs b :
  0 < max → max ≤ b → Forall (λ r, zlen r.1 ≤ b) rs →
  zlen (default [] (fs !! path)) ≤ b → zlen (default [] (fs !! rotatedName path)) ≤ b →
  let s := writeAll (newRotatingWriter fs path max) rs in
  zlen (default [] (s.1 !! path)) ≤ b ∧ zlen (default [] (s.1 !! rotatedName path)) ≤ b.
Proof.
  intros Hm Hb Hrs Hp Hr. pose proof (rotatedName_fresh path) as Hne.
  assert (∀ s, bounded b s → w_max s.2 = max → w_path s.2 = path → w_rotated s.2 = rotatedName path →
    let s' := writeAll s rs in bounded b s' ∧ w_path s'.2 = path ∧ w_rotated s'.2 = rotatedName path) as H.
  { clear Hp Hr. induction Hrs as [|[p oc] rs Hlen _ IH]; intros [fs' w] Hok Hmax Hpath Hrot; [done|]. cbn [fst snd] in *.
    destruct (Write_bounded b fs' w p oc) as [H1 H2]; [lia|lia|done|done|]. apply IH; [exact H1|exact (eq_trans H2 Hmax)| |];
      cbn [fst snd]; unfold Write, rotate; repeat (case_match; simplify_eq/=; try done). }
  destruct (H (newRotatingWriter fs path max)) as ([_ _ H1 H2] & H3 & H4); [split; cbn|done..|].
  - by rewrite lookup_insert_eq.
  - done.
  - by rewrite lookup_insert_eq.
  - by rewrite lookup_insert_ne.
  - rewrite H3 in H1. rewrite H4 in H2. done.
Qed.

(** ** Concrete runs *)

Local Open Scope string_scope.
Local Open Scope Z_scope.

Example rotatedName_example : rotatedName "/var/log/x.jsonl" = "/var/log/x-old.jsonl" ∧ rotatedName "/a.b/log" = "/a.b/log-old".
Proof. split; reflexivity. Qed.

Definition fine (k : nat) : outcome := MkOutcome true true true k.

Example rotation_example :
  let s := writeAll (newRotatingWriter ∅ "x" 5) [([1; 2; 3], fine 3); ([4; 5], fine 2); ([6], fine 1)] in
  s.1 !! "x" = Some [6] ∧ s.1 !! "x-old" = Some [1; 2; 3; 4; 5].
Proof. split; vm_compute; reflexivity. Qed.

Lemma stats_disk_bounded_witness :
  let s := writeAll (newRotatingWriter ∅ "x" 5) [([1; 2; 3], fine 3); ([4; 5], fine 2); ([6], MkOutcome false false false 1)] in
  zlen (default [] (s.1 !! "x")) ≤ 5 ∧ zlen (default [] (s.1 !! rotatedName "x")) ≤ 5.
Proof.
  apply (stats_disk_bounded ∅ "x" 5); [lia|lia| |vm_compute; discriminate|vm_compute; discriminate].
  repeat constructor; vm_compute; discriminate.
Defined.

Example snapshot_example :
  let r := SetRoutes (New ["a"; "b"] 0) ["r1"] in
  let '(r', sns) := srun r [EvRecv "a" 100; EvRoute "r1"; EvSent "b" 100; EvSample 7 9 2; EvNoRoute; EvWrite 5000000000 3 8 4] in
  map sn_MaxHeap sns = [7] ∧ map sn_UptimeSec sns = [5] ∧ s_recvBytes <$> g_conns r' !! "a" = Some 100 ∧ g_noRouteDrops r' = 1.
Proof. vm_compute. done. Qed.
