(* ===== verification/Factory.v ===== *)
(** * internal/conn/conn.go and factory.go: kinds of connections and their construction

    [New] chooses the carrier's implementation from the kind and the transport
    and fills it from the specification.  Dialers, devices, flush groups and
    registries are built elsewhere and only passed on; opening the listening
    socket is the argument [listens], the channel id drawn at random is
    [chanID]. *)

From S2P Require Import Prelude GoStrings Cipher Config Http.
Local Open Scope Z_scope.
Local Open Scope string_scope.
Local Open Scope go_scope.

Inductive Kind := KindTun | KindConnectOut | KindConnectIn | KindListenIn | KindListenOut.

#[export] Instance Kind_eq_dec : EqDecision Kind.
Proof. solve_decision. Defined.

Definition KindString (k : Kind) : string :=
  match k with
  | KindTun => "tun"
  | KindConnectOut => "connect-out"
  | KindConnectIn => "connect-in"
  | KindListenIn => "listen-in"
  | KindListenOut => "listen-out"
  end.

(** The kinds whose implementations have [Accepts] and [Send]. *)
Definition sends (k : Kind) : bool :=
  match k with KindTun | KindConnectOut | KindListenOut => true | KindConnectIn | KindListenIn => false end.

(** Where a connect connection's sockets come from. *)
Inductive SocketDialer :=
| SourceDialer (iface source : string)
| WarpDialer.

Record Spec := MkSpec {
  sp_Name : string;
  sp_Kind : Kind;
  sp_Transport : string;
  sp_Cipher : string;
  sp_Key : list Z;
  sp_HTTP : HTTPParams;
  sp_Dialer : option SocketDialer;
  sp_RemoteIP : string;
  sp_Port : Z;
  sp_MaxAge : Z;
  sp_IDSetter : option string;  (** the tun whose [SetID] is called *)
  sp_Listen : string;
  sp_Iface : string;
  sp_Multiple : bool;
  sp_SessionTTL : Z;
  sp_MaxPeers : Z;
  sp_Pending : bool;
}.

(** [strconv.Itoa] and [net.JoinHostPort]. *)
Definition Itoa (n : Z) : string := if (n <? 0)%Z then "-" +:+ unchars (itoa (- n)%Z) else unchars (itoa n).
Definition joinHostPort (host port : string) : string :=
  if bool_decide (":"%char ∈ chars host) || bool_decide ("%"%char ∈ chars host) then "[" +:+ host +:+ "]:" +:+ port else host +:+ ":" +:+ port.
Definition hostPort (ip : string) (port : Z) : string := joinHostPort ip (Itoa port).

Inductive connImpl :=
| TunConn (name : string) (pending : bool)
| httpConnectOut (name host path hostHeader userAgent idHeader : string) (headers : list (string * string)) (chanID : string)
    (cipher : streamCipher) (dialer : option SocketDialer) (maxAge : Z)
| udpConnectOut (name addr : string) (dialer : option SocketDialer) (cipher : packetCipher)
| tcpConnectOut (name addr : string) (dialer : option SocketDialer) (cipher : streamCipher)
| httpConnectIn (name ip : string) (port : Z) (path hostHeader userAgent idHeader : string) (key : list Z)
    (headers : list (string * string)) (cipher : streamCipher) (dialer : option SocketDialer) (idSetter : option string)
| udpConnectIn (name addr : string) (dialer : option SocketDialer) (cipher : packetCipher) (key : list Z) (idSetter : option string)
| tcpConnectIn (name addr : string) (dialer : option SocketDialer) (cipher : streamCipher) (key : list Z) (idSetter : option string)
| httpListenIn (name path idHeader : string) (cipher : streamCipher)
| udpListenIn (name : string) (cipher : packetCipher)
| tcpListenIn (name : string) (cipher : streamCipher)
| httpListenOut (name path idHeader : string) (cipher : streamCipher) (multiple : bool) (key : list Z) (maxPeers : Z)
| udpListenOut (name : string) (cipher : packetCipher) (key : list Z) (multiple : bool) (sessionTTL maxPeers : Z)
| tcpListenOut (name : string) (cipher : streamCipher) (key : list Z) (multiple : bool) (sessionTTL maxPeers : Z).

Definition implKind (c : connImpl) : Kind :=
  match c with
  | TunConn _ _ => KindTun
  | httpConnectOut _ _ _ _ _ _ _ _ _ _ _ | udpConnectOut _ _ _ _ | tcpConnectOut _ _ _ _ => KindConnectOut
  | httpConnectIn _ _ _ _ _ _ _ _ _ _ _ _ | udpConnectIn _ _ _ _ _ _ | tcpConnectIn _ _ _ _ _ _ => KindConnectIn
  | httpListenIn _ _ _ _ | udpListenIn _ _ | tcpListenIn _ _ => KindListenIn
  | httpListenOut _ _ _ _ _ _ _ | udpListenOut _ _ _ _ _ _ | tcpListenOut _ _ _ _ _ _ => KindListenOut
  end.

Definition implName (c : connImpl) : string :=
  match c with
  | TunConn n _ | httpConnectOut n _ _ _ _ _ _ _ _ _ _ | udpConnectOut n _ _ _ | tcpConnectOut n _ _ _
  | httpConnectIn n _ _ _ _ _ _ _ _ _ _ _ | udpConnectIn n _ _ _ _ _ | tcpConnectIn n _ _ _ _ _
  | httpListenIn n _ _ _ | udpListenIn n _ | tcpListenIn n _
  | httpListenOut n _ _ _ _ _ _ | udpListenOut n _ _ _ _ _ | tcpListenOut n _ _ _ _ _ => n
  end.

Definition newStream (s : Spec) : vres streamCipher :=
  match NewStream (sp_Cipher s) (sp_Key s) with Ok c => Ok c | Err _ => Err "cipher" end.
Definition newPacket (s : Spec) : vres packetCipher :=
  match NewPacket (sp_Cipher s) (sp_Key s) with Ok c => Ok c | Err _ => Err "cipher" end.

Definition New (s : Spec) (listens : bool) (chanID : string) : vres connImpl :=
  let name := sp_Name s in
  let addr := hostPort (sp_RemoteIP s) (sp_Port s) in
  let http := sp_Transport s =? "http" in
  let udp := sp_Transport s =? "udp" in
  let tcp := sp_Transport s =? "tcp" in
  match sp_Kind s with
  | KindTun => Ok (TunConn name (sp_Pending s))
  | KindConnectOut =>
      if http then
        let? sc := newStream s in
        let h := withDefaults (sp_HTTP s) addr in
        Ok (httpConnectOut name addr (hp_UploadPath h) (hp_Host h) (hp_UserAgent h) (hp_IDHeader h) (hp_Headers h) chanID sc (sp_Dialer s) (sp_MaxAge s))
      else if udp then let? pc := newPacket s in Ok (udpConnectOut name addr (sp_Dialer s) pc)
      else if tcp then let? sc := newStream s in Ok (tcpConnectOut name addr (sp_Dialer s) sc)
      else Err "unsupported kind/transport"
  | KindConnectIn =>
      if http then
        let? sc := newStream s in
        let h := withDefaults (sp_HTTP s) addr in
        Ok (httpConnectIn name (sp_RemoteIP s) (sp_Port s) (hp_DownloadPath h) (hp_Host h) (hp_UserAgent h) (hp_IDHeader h) (sp_Key s)
              (hp_Headers h) sc (sp_Dialer s) (sp_IDSetter s))
      else if udp then let? pc := newPacket s in Ok (udpConnectIn name addr (sp_Dialer s) pc (sp_Key s) (sp_IDSetter s))
      else if tcp then let? sc := newStream s in Ok (tcpConnectIn name addr (sp_Dialer s) sc (sp_Key s) (sp_IDSetter s))
      else Err "unsupported kind/transport"
  | KindListenIn =>
      if http then
        let? sc := newStream s in
        check? listens else "listen";
        let h := withDefaults (sp_HTTP s) "" in
        Ok (httpListenIn name (hp_UploadPath h) (hp_IDHeader h) sc)
      else if udp then let? pc := newPacket s in check? listens else "listen"; Ok (udpListenIn name pc)
      else if tcp then let? sc := newStream s in check? listens else "listen"; Ok (tcpListenIn name sc)
      else Err "unsupported kind/transport"
  | KindListenOut =>
      if http then
        let? sc := newStream s in
        check? listens else "listen";
        let h := withDefaults (sp_HTTP s) "" in
        Ok (httpListenOut name (hp_DownloadPath h) (hp_IDHeader h) sc (sp_Multiple s) (sp_Key s) (sp_MaxPeers s))
      else if udp then
        let? pc := newPacket s in check? listens else "listen";
        Ok (udpListenOut name pc (sp_Key s) (sp_Multiple s) (sp_SessionTTL s) (sp_MaxPeers s))
      else if tcp then
        let? sc := newStream s in check? listens else "listen";
        Ok (tcpListenOut name sc (sp_Key s) (sp_Multiple s) (sp_SessionTTL s) (sp_MaxPeers s))
      else Err "unsupported kind/transport"
  end.

(** A transport the factory knows. *)
Definition known_transport (t : string) : Prop := t = "http" ∨ t = "udp" ∨ t = "tcp".

(** ** Lemmas *)

Lemma newStream_ok s : is_ok (ParseName (sp_Cipher s)) = true → ∃ sc, newStream s = Ok sc.
Proof. unfold newStream, NewStream. destruct (ParseName (sp_Cipher s)) as [[base head]|]; [|done]. intros _. destruct (base =? "none"); eauto. Qed.
Lemma newPacket_ok s : is_ok (ParseName (sp_Cipher s)) = true → ∃ pc, newPacket s = Ok pc.
Proof. unfold newPacket, NewPacket. destruct (ParseName (sp_Cipher s)) as [[base head]|]; [|done]. intros _. destruct (base =? "none"); eauto. Qed.

Lemma New_built s chanID :
  (sp_Kind s = KindTun ∨ known_transport (sp_Transport s)) → is_ok (ParseName (sp_Cipher s)) = true →
  ∃ c, New s true chanID = Ok c ∧ implKind c = sp_Kind s ∧ implName c = sp_Name s.
Proof.
  intros Ht Hc. destruct (newStream_ok s Hc) as [sc Hs]. destruct (newPacket_ok s Hc) as [pc Hp]. unfold New. rewrite Hs, Hp.
  destruct (sp_Kind s); [eauto| | | |]; (destruct Ht as [Ht|Ht]; [done|]); destruct Ht as [-> | [-> | ->]]; cbn; eauto.
Qed.

Lemma New_kind s listens chanID c : New s listens chanID = Ok c → implKind c = sp_Kind s ∧ implName c = sp_Name s.
Proof.
  unfold New. intros Hx. destruct (sp_Kind s); [by injection Hx as <-| | | |];
    (destruct (sp_Transport s =? "http"); [|destruct (sp_Transport s =? "udp"); [|destruct (sp_Transport s =? "tcp"); [|done]]]);
    apply res_bind_ok in Hx as (cc & _ & Hx); try (apply Config.check_ok in Hx as [_ Hx]); injection Hx as <-; done.
Qed.
