(* ===== verification/Node.v ===== *)
(** * internal/node: a node assembled from its configuration

    [RunWith] as a script over the calls it makes to the system and to the other
    packages: each call either succeeds or fails ([ext]), the trace records it,
    and the undo steps are collected and run in reverse at the end.  The routing
    table is compiled by Router.v over the connections built by Factory.v, with
    the guards and finalizers the loops set up; the statistics recorder is
    Stats.v's registry.  Background goroutines (finalizers, reporter, drivers,
    reload, garbage collection) are started after the last step that can fail
    and are the models of the other files.  Module [Held] follows the devices and
    sockets that no undo step is recorded for: opened by tuns and by building
    connections, closed by a connection's Close. *)

From S2P Require Import Prelude GoBytes GoStrings NetIp Wire Config Http Factory.
From S2P Require Router Stats.
Local Open Scope Z_scope.
Local Open Scope string_scope.
Local Open Scope go_scope.

Abbreviation cfg := Config.Node.
Abbreviation Connection := Config.Connection.

(** ** helpers.go *)

(** [names] with a reconnectable connection, in order. *)
Definition pathLinks (hc : Config.HealthcheckSpec) (byName : gset string) : list string :=
  let names := match Config.hs_Links hc with [] => take 1 (Config.hs_Up hc) | ls => ls end in
  base.filter (λ n, n ∈ byName) names.

Definition kindOf (c : Connection) : Kind :=
  if Config.c_Type c =? "tun" then KindTun
  else if Config.c_Type c =? "connect" then
    if Config.c_Direction c =? "outgoing" then KindConnectOut else KindConnectIn
  else if Config.c_Direction c =? "outgoing" then KindListenOut else KindListenIn.

Definition httpParams (h : option Config.HTTPConfig) : HTTPParams :=
  match h with
  | None => MkHTTPParams "" "" "" "" "" []
  | Some h => MkHTTPParams (Config.hc_UploadPath h) (Config.hc_DownloadPath h) (Config.hc_Host h) (Config.hc_UserAgent h)
      (Config.hc_IDHeader h) (map_to_list (Config.hc_Headers h))
  end.

Definition egressesUsed (c : cfg) : gset string :=
  fold_left (λ used r, if Config.a_Egress (Config.r_Action r) =? "" then used else {[Config.a_Egress (Config.r_Action r)]} ∪ used)
    (Config.n_Routes c) ∅.

Definition pendingTuns (c : cfg) : gset string :=
  fold_left (λ p cn, if Config.c_IDSetter cn =? "" then p else {[Config.c_IDSetter cn]} ∪ p) (Config.n_Connections c) ∅.

Definition isTun (c : Connection) : bool := Config.c_Type c =? "tun".

Definition capturesDefault (c : cfg) : bool := existsb (λ cn, isTun cn && Config.c_CaptureDefault cn) (Config.n_Connections c).

Definition pinRoutes (c : cfg) : list (string * string) :=
  omap (λ cn, if (Config.c_Type cn =? "connect") && negb (Config.c_IP cn =? "") && negb (Config.c_Interface cn =? "")
    then Some (Config.c_IP cn, Config.c_Interface cn) else None) (Config.n_Connections c).

Definition compileRules (c : cfg) : list Router.Rule :=
  map (λ r, Router.MkRule (Config.m_Processed (Config.r_Match r)) (Config.m_Source (Config.r_Match r)) (Config.m_Conditions (Config.r_Match r))
    (Config.a_Egress (Config.r_Action r)) (Config.a_Target (Config.r_Action r))) (Config.n_Routes c).

(** [time.Duration(s) * time.Second], in 64 bits. *)
Definition swrap64 (z : Z) : Z := wrap 64 (z + 2 ^ 63) - 2 ^ 63.
Definition seconds (s : Z) : Z := swrap64 (s * 1000000000).

(** In seconds, before the conversion. *)
Definition timingSeconds (c : cfg) (hc : Config.HealthcheckSpec) : Z * Z * Z :=
  let iv := match Config.n_Healthcheck c with Some h => h | None => 15 end in
  let iv := if (Config.hs_Interval hc =? 0)%Z then iv else Config.hs_Interval hc in
  let t := if (0 <? Config.n_HealthcheckTimeout c)%Z then Config.n_HealthcheckTimeout c else 90 in
  let t := if (0 <? Config.hs_Timeout hc)%Z then Config.hs_Timeout hc else t in
  let ug := if (0 <? Config.hs_UpGrace hc)%Z then Config.hs_UpGrace hc else Config.n_HealthcheckUpGrace c in
  let ug := if (ug <=? 0)%Z then (let d := swrap64 (iv * 2) in if (d <? 1)%Z then 1 else d) else ug in
  (iv, t, ug).

Definition condTiming (c : cfg) (hc : Config.HealthcheckSpec) : Z * Z * Z :=
  let '(iv, t, ug) := timingSeconds c hc in (seconds iv, seconds t, seconds ug).

Definition listenAddr (port : Z) : string := ":" +:+ Itoa port.

(** Addresses as integers of their family's width; [Prefix.Masked] and
    [Addr.Next] of net/netip, [None] for the invalid address. *)
Definition addrBytes (a : netipAddr) : list Z := match a with V4 b => b | V6 b _ => b end.
Definition addrBits (a : netipAddr) : Z := match a with V4 _ => 32 | V6 _ _ => 128 end.
Definition withValue (a : netipAddr) (v : Z) : netipAddr :=
  match a with V4 _ => V4 (be_bytes 4 v) | V6 _ z => V6 (be_bytes 16 v) z end.

Definition maskedAddr (p : netipAddr * Z) : netipAddr :=
  let v := be_val (addrBytes p.1) in
  let a := withValue p.1 (v - v `mod` 2 ^ (addrBits p.1 - p.2)) in
  match a with V6 b _ => V6 b [] | a => a end.

Definition nextAddr (a : netipAddr) : option netipAddr :=
  let v := be_val (addrBytes a) + 1 in
  if (v <? 2 ^ addrBits a)%Z then Some (withValue a v) else None.

Definition derivePeer (prefix : netipAddr * Z) (local : netipAddr) : option netipAddr :=
  let peer := nextAddr (maskedAddr prefix) in
  if bool_decide (peer = Some local) then nextAddr local else peer.

(** ** The calls of [RunWith] *)

Record TunSetup := MkTunSetup {
  ts_Name : string;
  ts_Local : option netipAddr;
  ts_Peer : option netipAddr;
  ts_Bits : Z;
  ts_MTU : Z;
}.

Inductive op :=
| BuildEgress (name : string) (eg : Config.Egress)
| PinIfaceDefault (iface gateway : string) (table : Z)
| ConfigureSourceAddr (addr iface : string)
| PinRoutes (pins : list (string * string))
| OpenTun (iface : string) (mtu : Z)
| ConfigureTun (s : TunSetup)
| ConfigureLANForward (lan tun : string)
| CaptureDefault (dev : string) (peer : option netipAddr)
| WarpDialers
| DialerFor (c : Connection)
| NewConn (s : Spec)
| LoadSet (s : Config.IPSet)
| StartConn (name : string).

Inductive revent :=
| Done (o : op)
| Failed (o : op)
| Undo (o : op).

Record rstate := MkRState { rs_trace : list revent; rs_td : list op }.

(** The script's monad: the trace, the undo steps and an error. *)
Definition M (A : Type) : Type := rstate → rstate * vres A.
Definition ret {A} (a : A) : M A := λ s, (s, Ok a).
Definition fail {A} (e : string) : M A := λ s, (s, Err e).
Definition bind {A B} (m : M A) (k : A → M B) : M B :=
  λ s, match m s with (s', Ok a) => k a s' | (s', Err e) => (s', Err e) end.

#[export] Instance M_bind : MBind M := λ A B k m, bind m k.

Fixpoint mfold {A S} (f : S → A → M S) (s : S) (xs : list A) : M S :=
  match xs with [] => ret s | x :: xs' => bind (f s x) (λ s', mfold f s' xs') end.

Definition emit (e : revent) : M () := λ s, (MkRState (rs_trace s ++ [e]) (rs_td s), Ok tt).

(** [td.add]: registered when the step to undo is done. *)
Definition defer (o : op) : M () := λ s, (MkRState (rs_trace s) (rs_td s ++ [o]), Ok tt).

Definition lift {A} (m : vres A) : M A := λ s, (s, m).

Section run.
Context (ext : op → bool) (devName : string → string) (chanID : string → string).

Definition call (o : op) : M () :=
  if ext o then emit (Done o) else bind (emit (Failed o)) (λ _, fail "call").

(** [if err != nil { _ = dev.Close(); return err }] *)
Definition closing {A} (o : op) (m : M A) : M A :=
  λ s, match m s with (s', Err e) => (MkRState (rs_trace s' ++ [Undo o]) (rs_td s'), Err e) | r => r end.

(** A call whose undo is registered. *)
Definition acquire (o : op) : M () := call o ;; defer o.

Record Options := MkOptions {
  opt_OpenTun : bool;             (** a device seam: no OS configuration *)
  opt_Egress : bool;              (** a shared injected egress *)
  opt_Egresses : gset string;     (** egresses injected by name *)
}.

Definition sessionTTL : Z := 120000000000.
Definition maxPeers : Z := 65536.
Definition UpstreamMaxAge : Z := 300000000000.
Definition ifacePinBaseTable : Z := 220.

Definition zeroEgress : Config.Egress := Config.MkEgress "" "" "" "" "" "" false.
Definition egressOf (c : cfg) (name : string) : Config.Egress := default zeroEgress (Config.n_Egresses c !! name).

Definition buildFinalizers (c : cfg) (opt : Options) (used : list string) : M (list string) :=
  let injected := opt_Egress opt || negb (bool_decide (opt_Egresses opt = ∅)) in
  mfold (λ fins name,
    (if injected then
       if bool_decide (name ∈ opt_Egresses opt) || opt_Egress opt then ret tt else fail "no injected egress"
     else acquire (BuildEgress name (egressOf c name))) ;;
    ret (fins ++ [name])%list) [] used.

Definition pinDirectEgressIfaces (c : cfg) (used : list string) : M () :=
  bind (mfold (λ (st : gset string * Z) name,
    let '(seen, table) := st in
    let eg := egressOf c name in
    if negb (Config.e_Mode eg =? "direct") || (Config.e_ExtIface eg =? "") || bool_decide (Config.e_ExtIface eg ∈ seen) then ret st
    else
      acquire (PinIfaceDefault (Config.e_ExtIface eg) (Config.e_Gateway eg) table) ;;
      ret ({[Config.e_ExtIface eg]} ∪ seen, (table + 1)%Z)) (∅, ifacePinBaseTable) used) (λ _, ret tt).

(** [sourceAddrs], keyed by the pair the code joins with a zero byte. *)
Definition sourceAddrs (c : cfg) : list (string * string) :=
  fold_left (λ out cn,
    if (Config.c_SourceIP cn =? "") || (Config.c_Interface cn =? "") || bool_decide ((Config.c_SourceIP cn, Config.c_Interface cn) ∈ out)
    then out else (out ++ [(Config.c_SourceIP cn, Config.c_Interface cn)])%list) (Config.n_Connections c) [].

(** The tuns opened so far, in order, with their pending flag, and the
    capturer. *)
Record tunState := MkTuns {
  tu_impls : list connImpl;
  tu_capturer : option (string * option netipAddr);
}.

Definition openTunStep (c : cfg) (skipOS : bool) (prefix : netipAddr * Z) (pending : gset string) (st : tunState) (cn : Connection) : M tunState :=
  if negb (isTun cn) then ret st
  else
    call (OpenTun (Config.c_Interface cn) (Config.n_MTU c)) ;;
    let st1 := MkTuns (tu_impls st ++ [TunConn (Config.c_Name cn) (bool_decide (Config.c_Name cn ∈ pending))])%list (tu_capturer st) in
    if skipOS then ret st1
    else
      let dev := devName (Config.c_Interface cn) in
      let opened := OpenTun (Config.c_Interface cn) (Config.n_MTU c) in
      setup ← closing opened (if Config.c_Address cn =? "" then ret (MkTunSetup dev None None prefix.2 (Config.n_MTU c))
        else match ParseAddr (Config.c_Address cn) with
        | Some local => ret (MkTunSetup dev (Some local) (derivePeer prefix local) prefix.2 (Config.n_MTU c))
        | None => fail "bad address"
        end);
      closing opened (call (ConfigureTun setup)) ;;
      defer (ConfigureTun setup) ;;
      if Config.c_CaptureDefault cn then
        defer (CaptureDefault dev (ts_Peer setup)) ;;
        (if Config.c_LANIface cn =? "" then ret tt else acquire (ConfigureLANForward (Config.c_LANIface cn) dev)) ;;
        ret (MkTuns (tu_impls st1) (Some (dev, ts_Peer setup)))
      else ret st1.

Definition specOf (c : cfg) (cn : Connection) (tuns : list string) : Spec :=
  let kind := kindOf cn in
  MkSpec (Config.c_Name cn) kind (Config.c_Transport cn) (Config.c_Cipher cn) (Config.Key cn (Config.n_PSK c)) (httpParams (Config.c_HTTP cn))
    (if bool_decide (kind = KindConnectOut) || bool_decide (kind = KindConnectIn)
     then Some (if Config.c_Warpped cn then WarpDialer else SourceDialer (Config.c_Interface cn) (Config.c_SourceIP cn)) else None)
    (Config.c_IP cn) (Config.c_Port cn) UpstreamMaxAge
    (if bool_decide (kind = KindConnectIn) && negb (Config.c_IDSetter cn =? "") && bool_decide (Config.c_IDSetter cn ∈ tuns) then Some (Config.c_IDSetter cn) else None)
    (listenAddr (Config.c_Port cn)) (Config.c_Interface cn) (Config.c_Multiple cn) sessionTTL maxPeers false.

Definition buildConnStep (c : cfg) (tuns : list string) (order : list connImpl) (cn : Connection) : M (list connImpl) :=
  if isTun cn then ret order
  else
    let spec := specOf c cn tuns in
    (if bool_decide (sp_Dialer spec = None) then ret tt else call (DialerFor cn)) ;;
    match New spec (ext (NewConn spec)) (chanID (Config.c_Name cn)) with
    | Ok impl => emit (Done (NewConn spec));; ret (order ++ [impl])%list
    | Err e => emit (Failed (NewConn spec));; fail e
    end.

Definition buildConns (c : cfg) (tuns : list connImpl) : M (list connImpl) :=
  emit (Done WarpDialers);;
  defer WarpDialers;;
  mfold (buildConnStep c (map implName tuns)) tuns (Config.n_Connections c).

(** *** Conditions *)

Inductive guardSpec :=
| dstGuard (set : Config.IPSet)
| healthGuard (cond : string).

Record driverSpec := MkDriverSpec {
  dr_cond : string;
  dr_interval : Z;
  dr_timeout : Z;
  dr_upGrace : Z;
  dr_via : string;            (** the probe is sent on it *)
  dr_tun : string;            (** stamped with its id; its hooks are the driver's *)
  dr_links : list string;     (** reconnected on silence *)
}.

Record guardState := MkGuards {
  gs_conditions : gmap string guardSpec;
  gs_reloaders : list (string * Config.IPSet);
  gs_drivers : list driverSpec;
}.

Definition isSender (order : list connImpl) (name : string) : bool :=
  existsb (λ c, (implName c =? name) && sends (implKind c)) order.

Definition isTunImpl (c : connImpl) : bool := bool_decide (implKind c = KindTun).

(** Kinds that implement [Reconnecter]: the ones that dial. *)
Definition reconnects (c : connImpl) : bool :=
  bool_decide (implKind c = KindConnectOut) || bool_decide (implKind c = KindConnectIn).

Definition reconnecters (order : list connImpl) : gset string := list_to_set (map implName (base.filter (λ c, reconnects c = true) order)).

Definition guardStep (c : cfg) (order : list connImpl) (st : guardState) (d : Config.Condition) : M guardState :=
  let name := Config.d_Name d in
  match Config.d_DstIn d with
  | Some set =>
      call (LoadSet set);;
      ret (MkGuards (<[name := dstGuard set]> (gs_conditions st))
        (match Config.s_List set with [] => (gs_reloaders st ++ [(name, set)])%list | _ => gs_reloaders st end) (gs_drivers st))
  | None =>
      match Config.d_Healthcheck d with
      | None => fail "nil"
      | Some hc =>
          let tuns := map implName (base.filter (λ i, isTunImpl i = true) order) in
          let tc := if Config.hs_Tun hc =? "" then last tuns else if bool_decide (Config.hs_Tun hc ∈ tuns) then Some (Config.hs_Tun hc) else None in
          match Config.hs_Up hc with
          | [] => fail "nil"
          | up0 :: _ =>
              match (if isSender order up0 then Some up0 else None), tc with
              | Some via, Some tun =>
                  let '(interval, timeout, upGrace) := condTiming c hc in
                  ret (MkGuards (<[name := healthGuard name]> (gs_conditions st)) (gs_reloaders st)
                    (gs_drivers st ++ [MkDriverSpec name interval timeout upGrace via tun (pathLinks hc (reconnecters order))])%list)
              | _, _ => fail "healthcheck up[0] must be a sending connection and tun must exist"
              end
          end
      end
  end.

Definition buildGuards (c : cfg) (order : list connImpl) : M guardState :=
  mfold (guardStep c order) (MkGuards ∅ [] []) (Config.n_Conditions c).

(** *** The router and the start *)

Section world.
Context {W : Type}.
(** What the built objects do: a sending connection, membership in a loaded
    set, the state of a healthcheck, a finalizer's [Submit]. *)
Context (sender : connImpl → Router.Sender W) (inSet : Config.IPSet → Addr → bool)
        (healthy : string → W → bool) (submit : string → Router.FinalizeFunc W).

Definition guardOf (g : guardSpec) : Router.Guard W :=
  match g with
  | dstGuard set => λ _ _ dst ok, ok && inSet set dst
  | healthGuard cond => λ w _ _ _, healthy cond w
  end.

Definition connsOf (order : list connImpl) : gmap string (Router.Conn W) :=
  fold_left (λ m i, <[implName i := Router.MkConn (implName i) (if sends (implKind i) then Some (sender i) else None)]> m) order ∅.

Definition finalizersOf (fins : list string) : gmap string (Router.FinalizeFunc W) :=
  fold_left (λ m name, <[name := submit name]> m) fins ∅.

Definition routerOf (c : cfg) (order : list connImpl) (gs : guardState) (fins : list string) : res Router.compileErr (Router.Router W) :=
  Router.Compile (connsOf order) (guardOf <$> gs_conditions gs) (finalizersOf fins) (compileRules c) (map fst (map_to_list (connsOf order))).

Record running := MkRunning {
  rn_router : Router.Router W;
  rn_order : list connImpl;
  rn_guards : guardState;
  rn_fins : list string;
  rn_reg : option Stats.Registry;
}.

Definition startConns (order : list connImpl) : M () :=
  bind (mfold (λ _ i, acquire (StartConn (implName i))) tt order) (λ _, ret tt).

(** The steps of [RunWith] up to waiting for the context. *)
Definition RunWithBody (c0 : cfg) (opt : Options) (now : Z) : M running :=
  let c := Config.Defaults c0 in
  _ ← lift (Config.Validate c);
  prefix ← lift (match ParsePrefix (Config.n_Subnet c) with Some p => Ok p | None => Err "bad subnet" end);
  let reg := if Config.n_StatsFile c =? "" then None else Some (Stats.New (map Config.c_Name (Config.n_Connections c)) now) in
  let skipOS := opt_OpenTun opt in
  let used := elements (egressesUsed c) in
  fins ← buildFinalizers c opt used;
  (if skipOS then ret tt
   else
     pinDirectEgressIfaces c used;;
     bind (mfold (λ _ '(a, i), acquire (ConfigureSourceAddr a i)) tt (sourceAddrs c)) (λ _, ret tt));;
  (if negb skipOS && capturesDefault c then acquire (PinRoutes (pinRoutes c)) else ret tt);;
  tuns ← mfold (openTunStep c skipOS prefix (pendingTuns c)) (MkTuns [] None) (Config.n_Connections c);
  order ← buildConns c (tu_impls tuns);
  gs ← buildGuards c order;
  rt ← lift (match routerOf c order gs fins with Ok r => Ok r | Err _ => Err "route" end);
  let rt := Router.SetRecorder rt (bool_decide (is_Some reg)) in
  let reg := (λ r, Stats.SetRoutes r (Router.r_labels rt)) <$> reg in
  startConns order;;
  (match tu_capturer tuns with
   | Some (dev, peer) => if ext (CaptureDefault dev peer) then emit (Done (CaptureDefault dev peer)) else emit (Failed (CaptureDefault dev peer))
   | None => ret tt
   end);;
  ret (MkRunning rt order gs fins reg).

(** [RunWith]: the body, then the undo steps in reverse, whether it failed or
    the context was cancelled. *)
Definition RunWith (c : cfg) (opt : Options) (now : Z) : list revent * vres running :=
  let '(s, r) := RunWithBody c opt now (MkRState [] []) in
  ((rs_trace s ++ map Undo (rev (rs_td s)))%list, r).

(** ** boundIngress *)

(** [statsRecorder]: what the router reports, counted. *)
Definition recordEvent (reg : Stats.Registry) (e : Router.recEvent) : Stats.Registry :=
  match e with
  | Router.Routed label => Stats.Route reg label
  | Router.Sent target n => Stats.Sent reg target n
  | Router.Dropped _ => Stats.NoRouteDrop reg
  end.

Definition record (reg : option Stats.Registry) (evs : list Router.recEvent) : option Stats.Registry :=
  (λ r, fold_left recordEvent evs r) <$> reg.

(** A connection's intake: the packet counted, then routed by the source's own
    function if it has rules. *)
Definition boundIngress (rt : Router.Router W) (name src : string) (w : W) (reg : option Stats.Registry) (e : Envelope) (p : list Z)
    : W * option Stats.Registry :=
  match Router.SourceRouter rt name, reg with
  | Some bound, Some r =>
      let '(w', evs) := bound w e p in (w', record (Some (Stats.Recv r name (zlen p))) evs)
  | Some bound, None => let '(w', evs) := bound w e p in (w', record None evs)
  | None, Some r => let '(w', evs) := Router.Route rt w src e p in (w', record (Some (Stats.Recv r src (zlen p))) evs)
  | None, None => let '(w', evs) := Router.Route rt w src e p in (w', record None evs)
  end.
End world.
End run.

(** ** Lemmas: scripts that keep an invariant *)

Definition keeps (P : rstate → Prop) {A} (m : M A) : Prop := ∀ s, P s → P (m s).1.

Section keeps.
Context (P : rstate → Prop).

Lemma keeps_ret {A} (a : A) : keeps P (ret a).
Proof. by intros s Hs. Qed.
Lemma keeps_fail {A} e : keeps P (@fail A e).
Proof. by intros s Hs. Qed.
Lemma keeps_lift {A} (m : vres A) : keeps P (lift m).
Proof. by intros s Hs. Qed.
Lemma keeps_bind {A B} (m : M A) (k : A → M B) : keeps P m → (∀ a, keeps P (k a)) → keeps P (bind m k).
Proof.
  intros Hm Hk s Hs. unfold bind. specialize (Hm s Hs). destruct (m s) as [s' [a|e]]; [|done]. by apply Hk.
Qed.
Lemma keeps_bind2 {A B C} (m : M A) (k : M B) (r : B → M C) :
  keeps P (bind m (λ _, k)) → (∀ b, keeps P (r b)) → keeps P (bind m (λ _, bind k r)).
Proof.
  intros Hm Hr s Hs. specialize (Hm s Hs). unfold bind in *. destruct (m s) as [s' [a|e]]; [|done].
  destruct (k s') as [s2 [b|e]]; [|done]. by apply Hr.
Qed.
Lemma keeps_mfold {A S} (f : S → A → M S) st xs : (∀ st x, keeps P (f st x)) → keeps P (mfold f st xs).
Proof. intros Hf. revert st. induction xs as [|x xs IH]; intros st; cbn [mfold]; [apply keeps_ret|]. by apply keeps_bind. Qed.
Lemma keeps_if {A} (b : bool) (m k : M A) : keeps P m → keeps P k → keeps P (if b then m else k).
Proof. by destruct b. Qed.
End keeps.

(** Calls with an undo step. *)
Definition undoable (o : op) : bool :=
  match o with
  | BuildEgress _ _ | PinIfaceDefault _ _ _ | ConfigureSourceAddr _ _ | PinRoutes _ | ConfigureTun _
  | ConfigureLANForward _ _ | WarpDialers | StartConn _ => true
  | OpenTun _ _ | CaptureDefault _ _ | DialerFor _ | NewConn _ | LoadSet _ => false
  end.

Definition acquired (tr : list revent) : list op :=
  omap (λ e, match e with Done o => if undoable o then Some o else None | _ => None end) tr.

Definition isCapture (o : op) : bool := match o with CaptureDefault _ _ => true | _ => false end.

(** The undo steps collected are the calls made, in order; besides them only
    the capturer's release. *)
Definition balanced (s : rstate) : Prop := base.filter (λ o, isCapture o = false) (rs_td s) = acquired (rs_trace s).

Section balanced.
Context (ext : op → bool) (devName chanID : string → string).

Lemma acquired_app a b : acquired (a ++ b) = (acquired a ++ acquired b)%list.
Proof. apply omap_app. Qed.

Lemma balanced_emit e : acquired [e] = [] → keeps balanced (emit e).
Proof. intros He s Hs. unfold emit, balanced. cbn [fst rs_trace rs_td]. by rewrite acquired_app, He, app_nil_r. Qed.

Lemma balanced_call o : undoable o = false → keeps balanced (call ext o).
Proof.
  intros Ho. unfold call. destruct (ext o); [apply balanced_emit; cbn; by rewrite Ho|].
  apply keeps_bind; [by apply balanced_emit|]. intros _. apply keeps_fail.
Qed.

Lemma balanced_acquire o : undoable o = true → keeps balanced (acquire ext o).
Proof.
  intros Ho s Hs. unfold acquire, call, mbind, M_bind, bind. destruct (ext o).
  - cbn. unfold balanced. cbn [rs_trace rs_td]. rewrite acquired_app. cbn. rewrite Ho, filter_app, filter_cons, filter_nil, decide_True by (by destruct o).
    by rewrite Hs.
  - cbn. unfold balanced. cbn [rs_trace rs_td]. by rewrite acquired_app, app_nil_r.
Qed.

Lemma balanced_release dev peer : keeps balanced (defer (CaptureDefault dev peer)).
Proof.
  intros s Hs. unfold defer, balanced. cbn [fst rs_trace rs_td]. rewrite filter_app, filter_cons, filter_nil, decide_False by done.
  by rewrite app_nil_r.
Qed.

Lemma balanced_finalizers c opt used : keeps balanced (buildFinalizers ext c opt used).
Proof.
  apply keeps_mfold. intros fins name. apply keeps_bind; [|intros; apply keeps_ret].
  apply keeps_if; [apply keeps_if; [apply keeps_ret|apply keeps_fail]|by apply balanced_acquire].
Qed.

Lemma balanced_pin c used : keeps balanced (pinDirectEgressIfaces ext c used).
Proof.
  apply keeps_bind; [|intros; apply keeps_ret]. apply keeps_mfold. intros [seen table] name. apply keeps_if; [apply keeps_ret|].
  apply keeps_bind; [by apply balanced_acquire|intros; apply keeps_ret].
Qed.

Lemma balanced_closing {A} o (m : M A) : keeps balanced m → keeps balanced (closing o m).
Proof.
  intros Hm s Hs. unfold closing. specialize (Hm s Hs). destruct (m s) as [s' [a|e]]; [done|]. unfold balanced in *. cbn [fst rs_trace rs_td] in *.
  by rewrite acquired_app, app_nil_r.
Qed.

(** The call first, its undo registered after a second call. *)
Lemma balanced_closing_acquire o o' : undoable o' = true →
  keeps balanced (bind (closing o (call ext o')) (λ _, defer o')).
Proof.
  intros Ho s Hs. pose proof (balanced_acquire o' Ho s Hs) as H. unfold acquire, mbind, M_bind, bind, closing in *.
  destruct (call ext o' s) as [s' [a|e]] eqn:Hc; [done|]. cbn [fst]. unfold balanced in *. cbn [fst rs_trace rs_td] in *.
  by rewrite acquired_app, app_nil_r.
Qed.

Lemma balanced_openTun c skipOS prefix pending st cn : keeps balanced (openTunStep ext devName c skipOS prefix pending st cn).
Proof.
  unfold openTunStep. apply keeps_if; [apply keeps_ret|]. apply keeps_bind; [by apply balanced_call|]. intros _.
  apply keeps_if; [apply keeps_ret|]. apply keeps_bind.
  { apply balanced_closing, keeps_if; [apply keeps_ret|]. destruct (ParseAddr _); [apply keeps_ret|apply keeps_fail]. }
  intros setup. apply keeps_bind2; [by apply balanced_closing_acquire|]. intros _. apply keeps_if; [|apply keeps_ret].
  apply keeps_bind; [apply balanced_release|]. intros _. apply keeps_bind; [|intros; apply keeps_ret].
  apply keeps_if; [apply keeps_ret|by apply balanced_acquire].
Qed.

Lemma balanced_buildConns c tuns : keeps balanced (buildConns ext chanID c tuns).
Proof.
  unfold buildConns. apply keeps_bind2; [|intros _].
  { intros s Hs. unfold bind, emit, defer, balanced in *. cbn [fst rs_trace rs_td]. by rewrite acquired_app, filter_app, Hs. }
  apply keeps_mfold. intros order cn. unfold buildConnStep. apply keeps_if; [apply keeps_ret|]. apply keeps_bind.
  { apply keeps_if; [apply keeps_ret|by apply balanced_call]. }
  intros _. destruct (New _ _ _); (apply keeps_bind; [by apply balanced_emit|intros _]); [apply keeps_ret|apply keeps_fail].
Qed.

Lemma balanced_buildGuards c order : keeps balanced (buildGuards ext c order).
Proof.
  apply keeps_mfold. intros st d. unfold guardStep. destruct (Config.d_DstIn d) as [set|].
  { apply keeps_bind; [by apply balanced_call|intros; apply keeps_ret]. }
  destruct (Config.d_Healthcheck d) as [hc|]; [|apply keeps_fail]. destruct (Config.hs_Up hc) as [|up0 ups]; [apply keeps_fail|].
  destruct (if isSender order up0 then Some up0 else None); [|apply keeps_fail].
  destruct (if Config.hs_Tun hc =? "" then _ else _); [|apply keeps_fail].
  destruct (condTiming c hc) as [[iv t] ug]. apply keeps_ret.
Qed.

Lemma balanced_start order : keeps balanced (startConns ext order).
Proof.
  apply keeps_bind; [|intros; apply keeps_ret]. apply keeps_mfold. intros _ i. by apply balanced_acquire.
Qed.

Lemma balanced_body {W} (sender : connImpl → Router.Sender W) inSet healthy submit c opt now :
  keeps balanced (RunWithBody ext devName chanID sender inSet healthy submit c opt now).
Proof.
  unfold RunWithBody. repeat (first
    [ apply keeps_lift | apply keeps_ret | apply balanced_finalizers | apply balanced_pin | apply balanced_openTun
    | apply balanced_buildConns | apply balanced_buildGuards | apply balanced_start | by apply balanced_acquire
    | apply keeps_bind; [|intros ?] | apply keeps_if | apply keeps_mfold; intros ? ? ]).
  - match goal with |- keeps _ (let '(_, _) := ?x in _) => destruct x as [ad ifc] end. by apply balanced_acquire.
  - match goal with |- keeps _ (match ?x with _ => _ end) => destruct x as [[dev peer]|] end; [|apply keeps_ret].
    destruct (ext (CaptureDefault dev peer)); by apply balanced_emit.
Qed.
End balanced.

(** ** Lemmas: what is opened and closed *)

Module Held.

(** What the trace says of devices and connections. *)
Definition noisy (e : revent) : bool :=
  match e with
  | Done (OpenTun _ _) | Done (ConfigureTun _) | Done (NewConn _) | Done (StartConn _) | Undo _ => true
  | _ => false
  end.
Definition noise (tr : list revent) : list revent := base.filter (λ e, noisy e = true) tr.

Lemma noise_app a b : noise (a ++ b) = (noise a ++ noise b)%list.
Proof. apply filter_app. Qed.

(** [m] appends to the trace events that [Q] describes, with its result. *)
Definition spec {A} (m : M A) (Q : list revent → vres A → Prop) : Prop :=
  ∀ s, ∃ evs, rs_trace (m s).1 = (rs_trace s ++ evs)%list ∧ Q (noise evs) (m s).2.
Definition calm {A} (m : M A) : Prop := spec m (λ evs _, evs = []).

Lemma spec_mono {A} (m : M A) (Q R : list revent → vres A → Prop) : spec m Q → (∀ evs r, Q evs r → R evs r) → spec m R.
Proof. intros Hm H s. destruct (Hm s) as (evs & Ht & Hq). exists evs. auto. Qed.

Lemma spec_bind {A B} (m : M A) (k : A → M B) (Q : list revent → vres A → Prop) (R : list revent → vres B → Prop) :
  spec m Q → (∀ a e1, Q e1 (Ok a) → spec (k a) (λ e2 r, R (e1 ++ e2)%list r)) → (∀ e1 e, Q e1 (Err e) → R e1 (Err e)) → spec (bind m k) R.
Proof.
  intros Hm Hk He s. unfold bind. destruct (Hm s) as (e1 & Ht & Hq). destruct (m s) as [s1 [a|e]]; cbn [fst snd] in *.
  - destruct (Hk a (noise e1) Hq s1) as (e2 & Ht2 & Hr). exists (e1 ++ e2)%list. rewrite Ht2, Ht, app_assoc, noise_app. done.
  - exists e1. auto.
Qed.

(** Silent steps first. *)
Lemma spec_calm {A B} (m : M A) (k : A → M B) (R : list revent → vres B → Prop) :
  calm m → (∀ a, spec (k a) R) → (∀ e, R [] (Err e)) → spec (bind m k) R.
Proof. intros Hm Hk He. apply (spec_bind _ _ _ _ Hm); [intros a e1 ->; apply Hk|intros e1 e ->; apply He]. Qed.

Lemma spec_lift {A} (m : vres A) : spec (lift m) (λ evs r, evs = [] ∧ r = m).
Proof. intros s. exists []. by rewrite app_nil_r. Qed.

Lemma calm_ret {A} (a : A) : calm (ret a).
Proof. intros s. exists []. by rewrite app_nil_r. Qed.
Lemma calm_fail {A} e : calm (@fail A e).
Proof. intros s. exists []. by rewrite app_nil_r. Qed.
Lemma calm_lift {A} (m : vres A) : calm (lift m).
Proof. intros s. exists []. by rewrite app_nil_r. Qed.
Lemma calm_defer o : calm (defer o).
Proof. intros s. exists []. by rewrite app_nil_r. Qed.
Lemma calm_emit e : noisy e = false → calm (emit e).
Proof. intros He s. exists [e]. split; [done|]. change (noise [e] = []). unfold noise. rewrite filter_cons_False; [done|by rewrite He]. Qed.
Lemma calm_bind {A B} (m : M A) (k : A → M B) : calm m → (∀ a, calm (k a)) → calm (bind m k).
Proof. intros Hm Hk. apply (spec_calm _ _ _ Hm Hk). done. Qed.
Lemma calm_mfold {A S} (f : S → A → M S) st xs : (∀ st x, calm (f st x)) → calm (mfold f st xs).
Proof. intros Hf. revert st. induction xs as [|x xs IH]; intros st; cbn [mfold]; [apply calm_ret|]. by apply calm_bind. Qed.
Lemma calm_if {A} (b : bool) (m k : M A) : calm m → calm k → calm (if b then m else k).
Proof. by destruct b. Qed.

Section opened.
Context (ext : op → bool) (devName chanID : string → string).

Lemma spec_call o : noisy (Done o) = true → spec (call ext o) (λ evs r, match r with Ok _ => evs = [Done o] | Err _ => evs = [] end).
Proof.
  intros Ho s. unfold call. destruct (ext o).
  - exists [Done o]. split; [done|]. change (noise [Done o] = [Done o]). unfold noise. by rewrite filter_cons_True.
  - exists [Failed o]. done.
Qed.
Lemma calm_call o : noisy (Done o) = false → calm (call ext o).
Proof. intros Ho. unfold call. apply calm_if; [by apply calm_emit|]. apply calm_bind; [by apply calm_emit|]. intros _. apply calm_fail. Qed.
Lemma calm_acquire o : noisy (Done o) = false → calm (acquire ext o).
Proof. intros Ho. unfold acquire. apply calm_bind; [by apply calm_call|]. intros _. apply calm_defer. Qed.

Lemma spec_closing {A} o (m : M A) (Q : list revent → vres A → Prop) (R : list revent → vres A → Prop) :
  spec m Q → (∀ evs a, Q evs (Ok a) → R evs (Ok a)) → (∀ evs e, Q evs (Err e) → R (evs ++ [Undo o])%list (Err e)) → spec (closing o m) R.
Proof.
  intros Hm Ho He s. unfold closing. destruct (Hm s) as (evs & Ht & Hq). destruct (m s) as [s1 [a|e]]; cbn [fst snd rs_trace] in *.
  - exists evs. auto.
  - exists (evs ++ [Undo o])%list. rewrite Ht, app_assoc, noise_app. split; [done|]. by apply He.
Qed.

(** The device of a tun connection, and the events of one that is set up. *)
Definition dev (c : cfg) (cn : Connection) : op := OpenTun (Config.c_Interface cn) (Config.n_MTU c).
Definition tunEvents (c : cfg) (skipOS : bool) (x : Connection * TunSetup) : list revent :=
  Done (dev c x.1) :: if skipOS then [] else [Done (ConfigureTun x.2)].
(** One that was opened and closed at once. *)
Definition tailOk (c : cfg) (skipOS : bool) (tl : list revent) : Prop :=
  tl = [] ∨ skipOS = false ∧ ∃ cn, tl = [Done (dev c cn); Undo (dev c cn)].

Definition stepEvents (c : cfg) (skipOS : bool) (cn : Connection) (evs : list revent) (r : vres tunState) (st : tunState) : Prop :=
  (∃ setup, evs = tunEvents c skipOS (cn, setup) ∧ ∀ st', r = Ok st' → map implName (tu_impls st') = (map implName (tu_impls st) ++ [Config.c_Name cn])%list) ∨
  tailOk c skipOS evs ∧ is_ok r = false.

Lemma spec_openTun c skipOS prefix pending st cn : isTun cn = true →
  spec (openTunStep ext devName c skipOS prefix pending st cn) (λ evs r, stepEvents c skipOS cn evs r st).
Proof.
  intros Ht. unfold openTunStep. rewrite Ht. cbn [negb]. fold (dev c cn).
  eapply spec_bind; [by apply spec_call| |intros e1 e ->; right; by split; [left|]]. intros _ e1 ->.
  set (impls := (tu_impls st ++ [TunConn (Config.c_Name cn) (bool_decide (Config.c_Name cn ∈ pending))])%list).
  assert (map implName impls = (map implName (tu_impls st) ++ [Config.c_Name cn])%list) as Hn by (unfold impls; by rewrite map_app).
  destruct skipOS.
  { eapply spec_mono; [apply spec_lift|]. intros evs r [-> ->]. left. exists (MkTunSetup "" None None 0 0). rewrite app_nil_r. split; [done|]. by intros st' [= <-]. }
  eapply (spec_bind _ _ (λ evs r, match r with Ok _ => evs = [] | Err _ => evs = [Undo (dev c cn)] end)).
  { apply (spec_closing _ _ (λ evs _, evs = [])); [|by intros evs a ->|by intros evs e ->].
    apply calm_if; [apply calm_ret|]. destruct (ParseAddr _); [apply calm_ret|apply calm_fail]. }
  2: { intros e1 e ->. right. split; [right; split; [done|by exists cn]|done]. }
  intros setup e1 ->.
  eapply (spec_bind _ _ (λ evs r, match r with Ok _ => evs = [Done (ConfigureTun setup)] | Err _ => evs = [Undo (dev c cn)] end)).
  { apply (spec_closing _ _ (λ evs r, match r with Ok _ => evs = [Done (ConfigureTun setup)] | Err _ => evs = [] end)); [by apply spec_call|done|by intros evs e ->]. }
  2: { intros e1 e ->. right. split; [right; split; [done|by exists cn]|done]. }
  intros _ e1 ->.
  match goal with |- spec ?m _ => assert (spec m (λ evs r, evs = [] ∧ ∀ st', r = Ok st' → tu_impls st' = impls)) as Hrest end.
  2: { eapply spec_mono; [exact Hrest|]. intros evs r [-> Hr]. left. exists setup. split; [done|]. intros st' Hst. by rewrite (Hr st' Hst). }
  apply spec_calm; [apply calm_defer| |done]. intros _. destruct (Config.c_CaptureDefault cn).
  - apply spec_calm; [apply calm_defer| |done]. intros _. apply spec_calm; [apply calm_if; [apply calm_ret|by apply calm_acquire]| |done]. intros _.
    eapply spec_mono; [apply (spec_lift (Ok _))|]. intros evs r [-> ->]. split; [done|]. by intros st' [= <-].
  - eapply spec_mono; [apply (spec_lift (Ok _))|]. intros evs r [-> ->]. split; [done|]. by intros st' [= <-].
Qed.

Definition tunConns (cs : list Connection) : list Connection := base.filter (λ cn, isTun cn = true) cs.
Definition plainConns (cs : list Connection) : list Connection := base.filter (λ cn, isTun cn = false) cs.

Definition tunsEvents (c : cfg) (skipOS : bool) (cs : list Connection) (evs : list revent) (r : vres tunState) (st : tunState) : Prop :=
  ∃ ks tl, evs = (concat (map (tunEvents c skipOS) ks) ++ tl)%list ∧ tailOk c skipOS tl ∧ map fst ks `prefix_of` tunConns cs ∧
    ∀ st', r = Ok st' → tl = [] ∧ map fst ks = tunConns cs ∧ map implName (tu_impls st') = (map implName (tu_impls st) ++ map Config.c_Name (tunConns cs))%list.

Lemma spec_tuns c skipOS prefix pending st cs :
  spec (mfold (openTunStep ext devName c skipOS prefix pending) st cs) (λ evs r, tunsEvents c skipOS cs evs r st).
Proof.
  revert st. induction cs as [|cn cs IH]; intros st; cbn [mfold].
  { eapply spec_mono; [apply (spec_lift (Ok st))|]. intros evs r [-> ->]. exists [], []. split; [done|]. split; [by left|]. split; [done|].
    intros st' [= <-]. by rewrite app_nil_r. }
  destruct (isTun cn) eqn:Ht.
  - assert (tunConns (cn :: cs) = cn :: tunConns cs) as Hc by (unfold tunConns; by rewrite filter_cons_True).
    apply (spec_bind _ _ _ _ (spec_openTun c skipOS prefix pending st cn Ht)).
    + intros st1 e1 [(setup & -> & Hst1)|[_ ?]]; [|done]. specialize (Hst1 st1 eq_refl). eapply spec_mono; [apply IH|].
      intros evs r (ks & tl & -> & Htl & Hpre & Hok). exists ((cn, setup) :: ks), tl. rewrite Hc. cbn [map concat]. rewrite app_assoc. split; [done|]. split; [done|].
      split; [by apply prefix_cons|]. intros st' Hst. destruct (Hok st' Hst) as (-> & Hks & Hn). split; [done|]. cbn [fst]. split; [by rewrite Hks|].
      by rewrite Hn, Hst1, <- app_assoc.
    + intros e1 e [(setup & -> & _)|[Htl _]].
      * exists [(cn, setup)], []. rewrite Hc. cbn [map concat]. rewrite !app_nil_r. split; [done|]. split; [by left|]. split; [|done]. apply prefix_cons, prefix_nil.
      * exists [], e1. split; [done|]. split; [done|]. split; [apply prefix_nil|done].
  - assert (tunConns (cn :: cs) = tunConns cs) as Hc by (unfold tunConns; rewrite filter_cons_False; [done|by rewrite Ht]).
    unfold openTunStep at 1. rewrite Ht. cbn [negb]. intros s. unfold tunsEvents. rewrite Hc. exact (IH st s).
Qed.

(** The connections built so far are those of a list of specifications. *)
Definition connEvents (cs : list Connection) (tuns order : list connImpl) (evs : list revent) (r : vres (list connImpl)) : Prop :=
  ∃ specs, evs = map (λ s, Done (NewConn s)) specs ∧ map sp_Name specs `prefix_of` map Config.c_Name (plainConns cs) ∧
    ∀ order', r = Ok order' → map implName order' = (map implName order ++ map sp_Name specs)%list.

Lemma spec_conns c tuns names order cs :
  spec (mfold (buildConnStep ext chanID c names) order cs) (λ evs r, connEvents cs tuns order evs r).
Proof.
  revert order. induction cs as [|cn cs IH]; intros order; cbn [mfold].
  { eapply spec_mono; [apply (spec_lift (Ok order))|]. intros evs r [-> ->]. exists []. split; [done|]. split; [done|]. intros o [= <-]. by rewrite app_nil_r. }
  destruct (isTun cn) eqn:Ht.
  { assert (plainConns (cn :: cs) = plainConns cs) as Hc by (unfold plainConns; rewrite filter_cons_False; [done|by rewrite Ht]).
    unfold buildConnStep at 1. rewrite Ht. intros s. unfold connEvents. rewrite Hc. exact (IH order s). }
  assert (plainConns (cn :: cs) = cn :: plainConns cs) as Hc by (unfold plainConns; by rewrite filter_cons_True).
  assert (∀ e, connEvents (cn :: cs) tuns order [] (Err e)) as Hnone.
  { intros e. exists []. split; [done|]. split; [apply prefix_nil|done]. }
  set (sp := specOf c cn names).
  apply (spec_bind _ _ (λ evs r, match r with Ok o => evs = [Done (NewConn sp)] ∧ map implName o = (map implName order ++ [Config.c_Name cn])%list | Err _ => evs = [] end)).
  - unfold buildConnStep. rewrite Ht. fold sp. apply spec_calm; [apply calm_if; [apply calm_ret|by apply calm_call]| |done]. intros _.
    destruct (New sp (ext (NewConn sp)) (chanID (Config.c_Name cn))) as [impl|e] eqn:Hn.
    + intros s. exists [Done (NewConn sp)]. split; [done|]. cbn [snd]. split; [done|]. rewrite map_app. cbn. apply New_kind in Hn as [_ ->]. done.
    + intros s. exists [Failed (NewConn sp)]. done.
  - intros o e1 [-> Ho]. eapply spec_mono; [apply IH|]. intros evs r (specs & -> & Hpre & Hok). exists (sp :: specs). rewrite Hc. split; [done|].
    split; [by apply prefix_cons|]. intros order' Hr. by rewrite (Hok order' Hr), Ho, <- app_assoc.
  - intros e1 e ->. apply Hnone.
Qed.

Definition startEvents (names : list string) (evs : list revent) (r : vres ()) : Prop :=
  ∃ started, evs = map (λ n, Done (StartConn n)) started ∧ started `prefix_of` names ∧ ∀ u, r = Ok u → started = names.

Lemma spec_start order : spec (startConns ext order) (λ evs r, startEvents (map implName order) evs r).
Proof.
  unfold startConns. apply (spec_bind _ _ (λ evs r, startEvents (map implName order) evs r)).
  - assert (∀ u, spec (mfold (λ _ i, acquire ext (StartConn (implName i))) u order) (λ evs r, startEvents (map implName order) evs r)) as H; [|apply H].
    induction order as [|i order IH]; intros u; cbn [mfold map].
    { eapply spec_mono; [apply (spec_lift (Ok u))|]. intros evs r [-> _]. by exists []. }
    apply (spec_bind _ _ (λ evs r, match r with Ok _ => evs = [Done (StartConn (implName i))] | Err _ => evs = [] end)).
    + unfold acquire. apply (spec_bind _ _ _ _ (spec_call (StartConn (implName i)) eq_refl)); [|by intros e1 e ->].
      intros _ e1 ->. intros s. exists []. by rewrite app_nil_r.
    + intros u' e1 ->. eapply spec_mono; [apply IH|]. intros evs r (st & -> & Hpre & Hok). exists (implName i :: st). split; [done|].
      split; [by apply prefix_cons|]. intros v Hv. f_equal. by apply (Hok v).
    + intros e1 e ->. exists []. split; [done|]. split; [apply prefix_nil|done].
  - intros [] e1 H. intros s. exists []. split; [by rewrite app_nil_r|].
    change (startEvents (map implName order) (e1 ++ []) (Ok tt)). by rewrite app_nil_r.
  - intros e1 e (st & -> & Hpre & _). by exists st.
Qed.

Lemma calm_guards c order : calm (buildGuards ext c order).
Proof.
  apply calm_mfold. intros st d. unfold guardStep. destruct (Config.d_DstIn d) as [set|].
  { apply calm_bind; [by apply calm_call|]. intros. apply calm_ret. }
  destruct (Config.d_Healthcheck d) as [hc|]; [|apply calm_fail]. destruct (Config.hs_Up hc) as [|up0 ups]; [apply calm_fail|].
  destruct (if isSender order up0 then Some up0 else None); [|apply calm_fail].
  destruct (if Config.hs_Tun hc =? "" then _ else _); [|apply calm_fail].
  destruct (condTiming c hc) as [[iv t] ug]. apply calm_ret.
Qed.

(** The whole start: tuns set up, at most one opened and closed again,
    connections built, connections started. *)
Definition bodyEvents (c : cfg) (skipOS : bool) {A} (evs : list revent) (r : vres A) : Prop :=
  ∃ ks tl specs started,
    evs = (concat (map (tunEvents c skipOS) ks) ++ tl ++ map (λ s, Done (NewConn s)) specs ++ map (λ n, Done (StartConn n)) started)%list ∧
    tailOk c skipOS tl ∧ map fst ks `prefix_of` tunConns (Config.n_Connections c) ∧
    started `prefix_of` (map Config.c_Name (map fst ks) ++ map sp_Name specs)%list ∧
    NoDup (map Config.c_Name (map fst ks) ++ map sp_Name specs) ∧
    (is_ok r = true → tl = [] ∧ started = (map Config.c_Name (map fst ks) ++ map sp_Name specs)%list).

Lemma validated_names c : Config.Validate c = Ok tt → NoDup (map Config.c_Name (Config.n_Connections c)).
Proof.
  intros Hv. destruct (decide (Config.n_Datapath c = "kernel")) as [Hk|Hk]; [|by apply Config.validated_facts in Hv as [? _]].
  unfold Config.Validate in Hv. rewrite !Config.check_ok in Hv. destruct Hv as (_ & _ & Hv). rewrite Hk in Hv. cbn in Hv. unfold Config.validateKernel in Hv.
  apply Config.check_ok in Hv as [Hc%Nat.eqb_eq _]. apply length_zero_iff_nil in Hc. rewrite Hc. constructor.
Qed.

Lemma names_split cs : map Config.c_Name cs ≡ₚ (map Config.c_Name (tunConns cs) ++ map Config.c_Name (plainConns cs))%list.
Proof.
  unfold tunConns, plainConns. induction cs as [|cn cs IH]; [done|]. rewrite !filter_cons. destruct (isTun cn) eqn:Ht.
  - rewrite decide_True, decide_False by done. cbn [map app]. apply perm_skip, IH.
  - rewrite decide_False, decide_True by done. cbn [map app]. rewrite <- Permutation_middle. apply perm_skip, IH.
Qed.

Lemma prefix_NoDup {A} (a b : list A) : a `prefix_of` b → NoDup b → NoDup a.
Proof. intros [k ->] H. by apply NoDup_app in H as [? _]. Qed.

Lemma bodyEvents_nil c skipOS {A} e : bodyEvents c skipOS [] (Err e : vres A).
Proof.
  exists [], [], [], []. split; [done|]. split; [by left|]. split; [apply prefix_nil|]. split; [done|]. split; [constructor|done].
Qed.

(** What follows the tuns' set-up. *)
Lemma bodyEvents_conns c skipOS {A} ks specs st (r : vres A) :
  NoDup (map Config.c_Name (Config.n_Connections c)) → map fst ks = tunConns (Config.n_Connections c) →
  map sp_Name specs `prefix_of` map Config.c_Name (plainConns (Config.n_Connections c)) →
  st `prefix_of` (map Config.c_Name (map fst ks) ++ map sp_Name specs)%list →
  (is_ok r = true → st = (map Config.c_Name (map fst ks) ++ map sp_Name specs)%list) →
  bodyEvents c skipOS (concat (map (tunEvents c skipOS) ks) ++ map (λ s, Done (NewConn s)) specs ++ map (λ n, Done (StartConn n)) st)%list r.
Proof.
  intros Hnd Hks Hsp Hst Hok. exists ks, [], specs, st. split; [done|]. split; [by left|]. split; [by rewrite Hks|]. split; [done|]. split; [|by auto].
  rewrite names_split in Hnd. rewrite Hks. refine (prefix_NoDup _ _ _ Hnd). by apply prefix_app.
Qed.

Lemma spec_body {W} (sender : connImpl → Router.Sender W) inSet healthy submit c0 opt now :
  spec (RunWithBody ext devName chanID sender inSet healthy submit c0 opt now) (λ evs r, bodyEvents (Config.Defaults c0) (opt_OpenTun opt) evs r).
Proof.
  unfold RunWithBody. set (c := Config.Defaults c0). set (skipOS := opt_OpenTun opt).
  apply (spec_bind _ _ _ _ (spec_lift _)); [|intros e1 e [-> _]; apply bodyEvents_nil]. intros [] e1 [-> Hv]. pose proof (validated_names c (eq_sym Hv)) as Hnd. clear Hv.
  cbn [app]. apply spec_calm; [apply calm_lift| |intros e; apply bodyEvents_nil]. intros prefix.
  apply spec_calm; [| |intros e; apply bodyEvents_nil].
  { apply calm_mfold. intros fins name. apply calm_bind; [|intros; apply calm_ret].
    apply calm_if; [apply calm_if; [apply calm_ret|apply calm_fail]|by apply calm_acquire]. }
  intros fins. apply spec_calm; [| |intros e; apply bodyEvents_nil].
  { apply calm_if; [apply calm_ret|]. apply calm_bind; [|intros _; apply calm_bind; [|intros; apply calm_ret]].
    - apply calm_bind; [|intros; apply calm_ret]. apply calm_mfold. intros [seen table] name. apply calm_if; [apply calm_ret|].
      apply calm_bind; [by apply calm_acquire|intros; apply calm_ret].
    - apply calm_mfold. intros _ [a i]. by apply calm_acquire. }
  intros _. apply spec_calm; [apply calm_if; [by apply calm_acquire|apply calm_ret]| |intros e; apply bodyEvents_nil]. intros _.
  apply (spec_bind _ _ _ _ (spec_tuns _ _ _ _ _ _)).
  2: { intros e1 e (ks & tl & -> & Htl & Hpre & _). exists ks, tl, [], []. cbn [map]. rewrite !app_nil_r. split; [done|]. split; [done|]. split; [done|].
    split; [apply prefix_nil|]. split; [|done]. apply (prefix_NoDup _ (map Config.c_Name (tunConns (Config.n_Connections c)))).
    - destruct Hpre as [k ->]. rewrite map_app. by apply prefix_app_r.
    - rewrite names_split in Hnd. by apply NoDup_app in Hnd as [? _]. }
  intros tuns e1 (ks & tl & -> & _ & _ & Hok). destruct (Hok tuns eq_refl) as (-> & Hks & Hn). clear Hok. rewrite app_nil_r. cbn [tu_impls map app] in Hn.
  assert (∀ specs st A (r : vres A), map sp_Name specs `prefix_of` map Config.c_Name (plainConns (Config.n_Connections c)) →
    st `prefix_of` (map Config.c_Name (map fst ks) ++ map sp_Name specs)%list → (is_ok r = true → st = (map Config.c_Name (map fst ks) ++ map sp_Name specs)%list) →
    bodyEvents c skipOS (concat (map (tunEvents c skipOS) ks) ++ map (λ s, Done (NewConn s)) specs ++ map (λ n, Done (StartConn n)) st)%list r) as Hbody
    by (intros specs st A r; by apply bodyEvents_conns).
  apply (spec_bind _ _ (λ evs r, connEvents (Config.n_Connections c) (tu_impls tuns) (tu_impls tuns) evs r)).
  { unfold buildConns. intros s. destruct (spec_conns c (tu_impls tuns) (map implName (tu_impls tuns)) (tu_impls tuns) (Config.n_Connections c)
      (MkRState (rs_trace s ++ [Done WarpDialers]) (rs_td s ++ [WarpDialers])%list)) as (evs & Ht & Hq).
    exists (Done WarpDialers :: evs). cbn [rs_trace] in Ht. rewrite <- app_assoc in Ht. split; [exact Ht|]. unfold noise. rewrite filter_cons_False by done. exact Hq. }
  2: { intros e2 e (specs & -> & Hpre & _). specialize (Hbody specs [] _ (Err e : vres (running (W := W))) Hpre). cbn [map] in Hbody. rewrite app_nil_r in Hbody. apply Hbody; [apply prefix_nil|done]. }
  intros order e2 (specs & -> & Hpre & Hord). specialize (Hord order eq_refl). rewrite Hn in Hord.
  assert (∀ e : string, bodyEvents c skipOS (concat (map (tunEvents c skipOS) ks) ++ map (λ s, Done (NewConn s)) specs ++ [])%list (Err e : vres (running (W := W)))) as Hstop.
  { intros e. apply (Hbody specs [] _ (Err e) Hpre); [apply prefix_nil|done]. }
  apply spec_calm; [apply calm_guards| |exact Hstop]. intros gs.
  apply spec_calm; [apply calm_lift| |exact Hstop]. intros rt.
  assert (map implName order = (map Config.c_Name (map fst ks) ++ map sp_Name specs)%list) as Hnames by (by rewrite Hord, Hks).
  apply (spec_bind _ _ _ _ (spec_start order)).
  2: { intros e3 e (st & -> & Hst & _). rewrite Hnames in Hst. by apply (Hbody specs st _ (Err e)). }
  intros u e3 (st & -> & Hst & Hall). specialize (Hall u eq_refl). rewrite Hnames in Hst, Hall.
  eapply (spec_mono _ (λ evs _, evs = [])).
  - apply calm_bind; [|intros; apply calm_ret]. destruct (tu_capturer tuns) as [[d peer]|]; [|apply calm_ret].
    destruct (ext (CaptureDefault d peer)); by apply calm_emit.
  - intros evs r ->. rewrite app_nil_r. by apply Hbody.
Qed.
End opened.

(** ** What stays open *)

(** The devices opened and connections built, the tuns configured and the
    connections started by a trace. *)
Definition opened (tr : list revent) : list op :=
  omap (λ e, match e with Done (OpenTun i m) => Some (OpenTun i m) | Done (NewConn s) => Some (NewConn s) | _ => None end) tr.
Definition configured (tr : list revent) : list TunSetup := omap (λ e, match e with Done (ConfigureTun s) => Some s | _ => None end) tr.
Definition started (tr : list revent) : list string := omap (λ e, match e with Done (StartConn n) => Some n | _ => None end) tr.
Definition tunsOpened (tr : list revent) : nat := length (omap (λ e, match e with Done (OpenTun i m) => Some (i, m) | _ => None end) tr).

(** What the connections built hold, by name: the device of each tun whose
    configuration succeeded (of each tun opened, without system configuration), and
    what the factory built. *)
Definition built (c : cfg) (skipOS : bool) (tr : list revent) : list (string * op) :=
  (map (λ cn, (Config.c_Name cn, dev c cn)) (take (if skipOS then tunsOpened tr else length (configured tr)) (tunConns (Config.n_Connections c))) ++
   omap (λ e, match e with Done (NewConn s) => Some (sp_Name s, NewConn s) | _ => None end) tr)%list.

(** What a trace closes, after [body] opened it: a device closed at once, or what a
    connection holds when its Close runs. *)
Definition closes (c : cfg) (skipOS : bool) (body tr : list revent) : list op :=
  omap (λ e, match e with
    | Undo (OpenTun i m) => Some (OpenTun i m)
    | Undo (StartConn n) => (list_to_map (built c skipOS body) : gmap string op) !! n
    | _ => None end) tr.

(** Built and never started. *)
Definition leftOpen (c : cfg) (skipOS : bool) (body : list revent) : list op :=
  map snd (base.filter (λ p, p.1 ∉ started body) (built c skipOS body)).

Lemma omap_noise {A} (f : revent → option A) tr : (∀ e, noisy e = false → f e = None) → omap f (noise tr) = omap f tr.
Proof.
  intros Hf. induction tr as [|e tr IH]; [done|]. unfold noise. rewrite filter_cons. fold (noise tr). cbn [omap list_omap].
  destruct (decide (noisy e = true)) as [He|He]; cbn [omap list_omap]; [by rewrite <- IH|]. by rewrite (Hf e (not_true_is_false _ He)).
Qed.

Lemma omap_concat {A B C} (f : B → option C) (g : A → list B) (h : A → list C) l :
  (∀ x, omap f (g x) = h x) → omap f (concat (map g l)) = concat (map h l).
Proof. intros H. induction l as [|x l IH]; [done|]. cbn [map concat]. by rewrite omap_app, H, IH. Qed.
Lemma omap_of_map {A B C} (f : B → option C) (g : A → B) l : omap f (map g l) = omap (λ x, f (g x)) l.
Proof. induction l as [|x l IH]; [done|]. cbn. by rewrite IH. Qed.
Lemma omap_every {A B} (f : A → option B) (g : A → B) l : (∀ x, f x = Some (g x)) → omap f l = map g l.
Proof. intros H. induction l as [|x l IH]; [done|]. cbn. by rewrite H, IH. Qed.
Lemma omap_never {A B} (f : A → option B) l : (∀ x, f x = None) → omap f l = [].
Proof. intros H. induction l as [|x l IH]; [done|]. cbn. by rewrite H. Qed.
Lemma concat_single {A B} (f : A → B) l : concat (map (λ x, [f x]) l) = map f l.
Proof. induction l as [|x l IH]; [done|]. cbn. by rewrite IH. Qed.
Lemma concat_none {A B} (l : list A) : concat (map (λ _, @nil B) l) = [].
Proof. by induction l. Qed.

(** Of the things held, those whose owner is started are closed and the rest
    stay. *)
Lemma split_started (held : list (string * op)) st : NoDup (map fst held) → st `prefix_of` map fst held →
  (omap (λ n, (list_to_map held : gmap string op) !! n) st ++ map snd (base.filter (λ p, p.1 ∉ st) held))%list = map snd held.
Proof.
  intros Hnd [k Hk]. destruct (fmap_app_inv fst _ _ _ Hk) as (h1 & h2 & -> & -> & ->). change (h1.*1) with (map fst h1). rewrite map_app in Hnd. rewrite filter_app, !map_app.
  assert (∀ p, p ∈ h1 → (list_to_map (M := gmap string op) (h1 ++ h2)%list) !! p.1 = Some p.2) as Hl.
  { intros [n o] Hp. apply elem_of_list_to_map; [by rewrite fmap_app|]. apply elem_of_app. by left. }
  assert (omap (λ n, list_to_map (M := gmap string op) (h1 ++ h2)%list !! n : option op) (map fst h1) = map snd h1 :> list op) as ->.
  { rewrite omap_of_map. clear -Hl. revert Hl. generalize (list_to_map (M := gmap string op) (h1 ++ h2)%list) as m. intros m Hl.
    induction h1 as [|p h1 IH]; [done|]. cbn. rewrite (Hl p) by left. f_equal. apply IH. intros q Hq. apply Hl. by right. }
  assert (base.filter (λ p : string * op, p.1 ∉ map fst h1) h1 = []) as ->.
  { assert (∀ l : list (string * op), (∀ p, p ∈ l → p ∈ h1) → base.filter (λ p : string * op, p.1 ∉ map fst h1) l = []) as H; [|by apply H].
    induction l as [|p l IH]; intros Hin; [done|]. rewrite filter_cons_False; [apply IH; intros q Hq; apply Hin; by right|].
    intros Hp. apply Hp, list_elem_of_fmap. exists p. split; [done|]. apply Hin. left. }
  assert (base.filter (λ p : string * op, p.1 ∉ map fst h1) h2 = h2) as ->; [|done].
  assert (∀ l : list (string * op), (∀ p, p ∈ l → p ∈ h2) → base.filter (λ p : string * op, p.1 ∉ map fst h1) l = l) as H; [|by apply H].
  induction l as [|p l IH]; intros Hin; [done|]. rewrite filter_cons_True; [f_equal; apply IH; intros q Hq; apply Hin; by right|].
  apply NoDup_app in Hnd as (_ & Hd & _). intros Hp. apply (Hd p.1 Hp). apply list_elem_of_fmap. exists p. split; [done|]. apply Hin. left.
Qed.

(** The projections of a start. *)
Lemma omap_body {C} c skipOS ks tl specs st (f : revent → option C) (g : Connection * TunSetup → list C) (h : Spec → option C) (k : string → option C) tr :
  noise tr = (concat (map (tunEvents c skipOS) ks) ++ tl ++ map (λ s, Done (NewConn s)) specs ++ map (λ n, Done (StartConn n)) st)%list →
  (∀ e, noisy e = false → f e = None) →
  (∀ x, omap f (tunEvents c skipOS x) = g x) → (∀ s, f (Done (NewConn s)) = h s) → (∀ n, f (Done (StartConn n)) = k n) →
  omap f tr = (concat (map g ks) ++ omap f tl ++ omap h specs ++ omap k st)%list.
Proof.
  intros He Hn Hg Hh Hk.
  assert (∀ {B} (q : B → revent) (l : list B) (p : B → option C), (∀ x, f (q x) = p x) → omap f (map q l) = omap p l) as Hm.
  { intros B q l p Hp. rewrite omap_of_map. induction l as [|x l IH]; [done|]. cbn [omap list_omap]. by rewrite Hp, IH. }
  rewrite <- (omap_noise f tr Hn), He, !omap_app, (omap_concat _ _ g _ Hg). by rewrite (Hm _ _ specs h Hh), (Hm _ _ st k Hk).
Qed.

Definition nothing {B C} (_ : B) : option C := None.
Lemma omap_nothing {B C} (l : list B) : omap (nothing (C := C)) l = [].
Proof. by apply omap_never. Qed.

Lemma built_kept c skipOS tr ks tl specs st :
  noise tr = (concat (map (tunEvents c skipOS) ks) ++ tl ++ map (λ s, Done (NewConn s)) specs ++ map (λ n, Done (StartConn n)) st)%list →
  tailOk c skipOS tl → map fst ks `prefix_of` tunConns (Config.n_Connections c) →
  built c skipOS tr = (map (λ cn, (Config.c_Name cn, dev c cn)) (map fst ks) ++ map (λ s, (sp_Name s, NewConn s)) specs)%list.
Proof.
  intros He Htl [k Hks]. unfold built. f_equal.
  - assert ((if skipOS then tunsOpened tr else length (configured tr)) = length ks) as ->.
    + destruct skipOS.
      * unfold tunsOpened. rewrite (omap_body c true ks tl specs st _ (λ x, [(Config.c_Interface x.1, Config.n_MTU c)]) nothing nothing tr He) by (done || by intros [[]|[]|[]]).
        destruct Htl as [->|[? _]]; [|done]. rewrite concat_single, !omap_nothing. cbn. by rewrite app_nil_r, length_map.
      * unfold configured. rewrite (omap_body c false ks tl specs st _ (λ x, [x.2]) nothing nothing tr He) by (done || by intros [[]|[]|[]]).
        rewrite concat_single, !omap_nothing. destruct Htl as [->|(_ & cn & ->)]; cbn; by rewrite app_nil_r, length_map.
    + rewrite Hks. rewrite <- (length_map fst ks), take_app_length. done.
  - rewrite (omap_body c skipOS ks tl specs st _ (λ _, []) (λ s, Some (sp_Name s, NewConn s)) nothing tr He) by (done || (by intros [[]|[]|[]]) || (intros x; unfold tunEvents; by destruct skipOS)).
    rewrite concat_none, omap_nothing, (omap_every _ (λ s, (sp_Name s, NewConn s))), app_nil_r by done. destruct Htl as [->|(_ & cn & ->)]; done.
Qed.

Lemma body_projections c skipOS {A} tr (r : vres A) : bodyEvents c skipOS (noise tr) r →
  NoDup (map fst (built c skipOS tr)) ∧ started tr `prefix_of` map fst (built c skipOS tr) ∧
  opened tr ≡ₚ (map snd (built c skipOS tr) ++ closes c skipOS tr tr)%list ∧ (is_ok r = true → started tr = map fst (built c skipOS tr)).
Proof.
  intros (ks & tl & specs & st & He & Htl & Hks & Hst & Hnd & Hok). pose proof (built_kept c skipOS tr ks tl specs st He Htl Hks) as Hb.
  assert (started tr = st) as Hs.
  { unfold started. rewrite (omap_body c skipOS ks tl specs st _ (λ _, []) nothing Some tr He) by (done || (by intros [[]|[]|[]]) || (intros x; unfold tunEvents; by destruct skipOS)).
    rewrite concat_none, omap_nothing, (omap_every Some id), map_id by done. destruct Htl as [->|(_ & cn & ->)]; done. }
  assert (map fst (built c skipOS tr) = (map Config.c_Name (map fst ks) ++ map sp_Name specs)%list) as Hf by (rewrite Hb, map_app, !map_map; done).
  rewrite Hf, Hs. split; [done|]. split; [done|]. split; [|intros Hr; by apply Hok].
  rewrite Hb, map_app, !map_map. unfold opened, closes.
  rewrite (omap_body c skipOS ks tl specs st _ (λ x, [dev c x.1]) (λ s, Some (NewConn s)) nothing tr He) by (done || (by intros [[]|[]|[]]) || (intros x; unfold tunEvents; by destruct skipOS)).
  rewrite (omap_body c skipOS ks tl specs st _ (λ _, []) nothing nothing tr He) by (done || (by intros [[]|[]|[]]) || (intros x; unfold tunEvents; by destruct skipOS)).
  rewrite concat_none, concat_single, !omap_nothing, !app_nil_r, app_nil_l, (omap_every _ NewConn) by done. cbn [snd].
  destruct Htl as [->|(_ & cn & ->)]; cbn [omap list_omap app dev]; [by rewrite app_nil_r|]. rewrite <- app_assoc. apply Permutation_app_head, Permutation_cons_append.
Qed.

(** The undo steps registered close what the started connections hold. *)
Lemma closes_undo c skipOS body td : base.filter (λ o, isCapture o = false) td = acquired body →
  closes c skipOS body (map Undo (rev td)) ≡ₚ omap (λ n, (list_to_map (built c skipOS body) : gmap string op) !! n) (started body).
Proof.
  intros Htd. unfold closes. rewrite omap_of_map. generalize (list_to_map (M := gmap string op) (built c skipOS body)) as m. intros m.
  set (f := λ o, match o with OpenTun i m => Some (OpenTun i m) | StartConn n => m !! n | _ => None end).
  change (omap f (rev td) ≡ₚ omap (λ n, m !! n) (started body)). rewrite <- (Permutation_rev td).
  assert (omap f td = omap f (acquired body)) as ->.
  { rewrite <- Htd. clear Htd. induction td as [|o td IH]; [done|]. rewrite filter_cons. cbn [omap list_omap]. destruct (decide (isCapture o = false)) as [Ho|Ho].
    - cbn [omap list_omap]. by rewrite IH.
    - by destruct o. }
  unfold acquired, started. clear Htd. induction body as [|e body IH]; [done|]. cbn [omap list_omap].
  destruct e as [[]|[]|[]]; cbn [undoable omap list_omap]; try exact IH. unfold f at 1. destruct (m !! name); [by apply perm_skip|exact IH].
Qed.

End Held.
Import Held.

(** Claim C26.  Whatever fails, and however far the start got, the node leaves by
    undoing exactly what it did, in reverse: the undo steps run are those of the
    calls that succeeded (egresses, pins, source addresses, tun and forwarding
    setup, the WARP dialer, started connections), each once, besides the release of
    the default route.  Every device opened and connection built is closed, by its
    connection's Close or, when its own configuration fails, at once, except
    those held by connections that were built and never started: a start that
    fails before them leaves exactly these open, and one that succeeds none. *)
Theorem teardown_exact {W} ext devName chanID (sender : connImpl → Router.Sender W) inSet healthy submit c0 opt now tr r :
  let c := Config.Defaults c0 in let skipOS := opt_OpenTun opt in
  RunWith ext devName chanID sender inSet healthy submit c0 opt now = (tr, r) →
  ∃ body td, tr = (body ++ map Undo (rev td))%list ∧ base.filter (λ o, isCapture o = false) td = acquired body ∧
    opened tr ≡ₚ (closes c skipOS body tr ++ leftOpen c skipOS body)%list ∧
    (is_ok r = true → leftOpen c skipOS body = []).
Proof.
  intros c skipOS. unfold RunWith. intros H. pose proof (balanced_body ext devName chanID sender inSet healthy submit c0 opt now (MkRState [] []) eq_refl) as Hb.
  destruct (spec_body ext devName chanID sender inSet healthy submit c0 opt now (MkRState [] [])) as (evs & Htr & Hev). fold c skipOS in Hev.
  destruct (RunWithBody _ _ _ _ _ _ _ _ _ _ _) as [s r']. injection H as <- <-. cbn [fst snd rs_trace app] in *. subst evs.
  exists (rs_trace s), (rs_td s). split; [done|]. split; [exact Hb|]. destruct (body_projections c skipOS (rs_trace s) r' Hev) as (Hnd & Hst & Hop & Hok).
  pose proof (split_started _ _ Hnd Hst) as Hsplit. split.
  - assert (opened (rs_trace s ++ map Undo (rev (rs_td s))) = opened (rs_trace s)) as ->.
    { assert (∀ l, opened (map Undo l) = []) as Hu by (by induction l). unfold opened. rewrite omap_app. fold (opened (map Undo (rev (rs_td s)))). by rewrite Hu, app_nil_r. }
    assert (closes c skipOS (rs_trace s) (rs_trace s ++ map Undo (rev (rs_td s))) =
      closes c skipOS (rs_trace s) (rs_trace s) ++ closes c skipOS (rs_trace s) (map Undo (rev (rs_td s))))%list as -> by apply omap_app.
    rewrite (closes_undo _ _ _ _ Hb), Hop, <- Hsplit. unfold leftOpen. by rewrite Permutation_app_comm, app_assoc.
  - intros Hr. unfold leftOpen. rewrite (Hok Hr). 
    assert (∀ l, (∀ p, p ∈ l → p ∈ built c skipOS (rs_trace s)) → base.filter (λ p : string * op, p.1 ∉ map fst (built c skipOS (rs_trace s))) l = []) as H; [|by rewrite H].
    induction l as [|p l IH]; intros Hin; [done|]. rewrite filter_cons_False; [apply IH; intros q Hq; apply Hin; by right|].
    intros Hp. apply Hp, list_elem_of_fmap. exists p. split; [done|]. apply Hin. left.
Qed.
