(* ===== verification/NodeBoot.v ===== *)
(** * A validated configuration starts

    Node.v's [RunWith] on a configuration that passes the validation of
    Config.v: unless a call to the system fails, every connection is built, every
    guard has what it needs, the routing table compiles and every connection is
    started.  The intake built for each connection is then the router's own
    routing with the packet counted. *)

From S2P Require Import Prelude GoBytes GoStrings NetIp Wire Cipher Config Http Factory Node.
From S2P Require Router Stats Schema Compile Paths.
Local Open Scope Z_scope.
Local Open Scope string_scope.
Local Open Scope go_scope.

(** ** Lemmas: what validation says about conditions *)

Definition condition_fact (n : cfg) (names : gmap string Connection) (d : Config.Condition) : Prop :=
  match Config.d_DstIn d, Config.d_Healthcheck d with
  | Some _, None => True
  | None, Some hc =>
      (∃ up0 ups via, Config.hs_Up hc = up0 :: ups ∧ names !! up0 = Some via ∧ Config.c_Type via ≠ "tun" ∧ Config.c_Direction via = "outgoing") ∧
      (if Config.hs_Tun hc =? "" then ∃ t, t ∈ Config.n_Connections n ∧ Config.c_Type t = "tun"
       else ∃ t, names !! Config.hs_Tun hc = Some t ∧ Config.c_Type t = "tun")
  | _, _ => False
  end.

Lemma soleTun_exists cs only x : Config.soleTun cs only = Ok x → only ≠ "" ∨ ∃ t, t ∈ cs ∧ Config.c_Type t = "tun".
Proof.
  revert only. induction cs as [|c cs IH]; intros only H; cbn [Config.soleTun] in H.
  - apply Config.check_ok in H as [H _]. apply negb_true_iff, String.eqb_neq in H. by left.
  - destruct (String.eqb_spec (Config.c_Type c) "tun") as [Ht|_].
    + right. exists c. split; [left|done].
    + destruct (IH _ H) as [?|(t & Ht & Hty)]; [by left|]. right. exists t. split; [by right|done].
Qed.

Lemma validateCondition_fact n names st d st' :
  Config.validateCondition n names st d = Ok st' → condition_fact n names d ∧ ∃ k, st'.1 = <[Config.d_Name d := k]> st.1.
Proof.
  unfold Config.validateCondition, condition_fact. destruct st as [conds tuns]. rewrite !Config.check_ok. intros (_ & _ & _ & H).
  destruct (Config.d_DstIn d) as [s|], (Config.d_Healthcheck d) as [hc|]; try done.
  - apply res_bind_ok in H as ([] & _ & H). injection H as <-. split; [done|by eexists].
  - destruct (Config.hs_Up hc) as [|up0 ups]; [done|]. destruct (names !! up0) as [via|] eqn:Hv; [|done].
    rewrite !Config.check_ok in H. destruct H as (Hty & Hdir & H). apply res_bind_ok in H as (tun & Ht & H).
    rewrite Config.check_ok in H. destruct H as [_ H]. injection H as <-. split; [|by eexists]. split.
    + exists up0, ups, via. apply negb_true_iff, String.eqb_neq in Hty. by apply String.eqb_eq in Hdir.
    + destruct (Config.hs_Tun hc =? "").
      * apply soleTun_exists in Ht as [?|Ht]; done.
      * destruct (names !! Config.hs_Tun hc) as [t|]; [|done]. apply Config.check_ok in Ht as [Ht%String.eqb_eq _]. by exists t.
Qed.

Lemma validateConditions_facts n names ds st st' :
  Config.rangeM (Config.validateCondition n names) st ds = Ok st' →
  Forall (condition_fact n names) ds ∧ ∀ k, is_Some (st'.1 !! k) → is_Some (st.1 !! k) ∨ ∃ d, d ∈ ds ∧ Config.d_Name d = k.
Proof.
  revert st. induction ds as [|d ds IH]; intros st H; cbn [Config.rangeM] in H.
  { injection H as <-. split; [constructor|by left]. }
  apply res_bind_ok in H as (st1 & Hd & H). apply validateCondition_fact in Hd as [Hf [kd Hk]]. destruct (IH _ H) as [H1 H2].
  split; [by constructor|]. intros k Hkk. destruct (H2 k Hkk) as [Hk1|(d' & Hd' & Hn)].
  - rewrite Hk in Hk1. apply lookup_insert_is_Some in Hk1 as [<-|[_ ?]]; [|by left]. right. exists d. split; [left|done].
  - right. exists d'. split; [by right|done].
Qed.

(** ** Lemmas: scripts that succeed *)

(** The script succeeds from any state with a value of [Q]. *)
Definition runs {A} (m : M A) (Q : A → Prop) : Prop := ∀ s, ∃ s' a, m s = (s', Ok a) ∧ Q a.

Lemma runs_ret {A} (a : A) (Q : A → Prop) : Q a → runs (ret a) Q.
Proof. intros Ha s. by exists s, a. Qed.
Lemma runs_lift {A} (m : vres A) a (Q : A → Prop) : m = Ok a → Q a → runs (lift m) Q.
Proof. intros -> Ha s. by exists s, a. Qed.
Lemma runs_bind {A B} (m : M A) (k : A → M B) (Q : A → Prop) (R : B → Prop) :
  runs m Q → (∀ a, Q a → runs (k a) R) → runs (bind m k) R.
Proof.
  intros Hm Hk s. destruct (Hm s) as (s1 & a & H1 & Ha). destruct (Hk a Ha s1) as (s2 & b & H2 & Hb).
  exists s2, b. unfold bind. by rewrite H1.
Qed.
Lemma runs_mfold {A S} (f : S → A → M S) (I : list A → S → Prop) xs st :
  I [] st → (∀ pre x st, x ∈ xs → I pre st → runs (f st x) (I (pre ++ [x])%list)) → runs (mfold f st xs) (I xs).
Proof.
  intros H0 Hf. assert (∀ pre st, I pre st → (∀ pre x st, x ∈ xs → I pre st → runs (f st x) (I (pre ++ [x])%list)) →
    runs (mfold f st xs) (I (pre ++ xs)%list)) as H; [|by apply (H [])].
  clear H0 Hf st. induction xs as [|x xs IH]; intros pre st Hpre Hf; cbn [mfold].
  - apply runs_ret. by rewrite app_nil_r.
  - eapply runs_bind; [apply Hf; [left|exact Hpre]|]. intros st' Hst'. replace (pre ++ x :: xs)%list with ((pre ++ [x]) ++ xs)%list by (by rewrite <- app_assoc).
    apply IH; [done|]. intros pre' y t Hy. apply Hf. by right.
Qed.

Section boot.
Context (devName chanID : string → string).
Abbreviation okay := (λ _ : op, true).

Lemma runs_emit e : runs (emit e) (λ _, True).
Proof. intros s. by eexists _, tt. Qed.
Lemma runs_defer o : runs (defer o) (λ _, True).
Proof. intros s. by eexists _, tt. Qed.
Lemma runs_call o : runs (call okay o) (λ _, True).
Proof. apply runs_emit. Qed.
Lemma runs_acquire o : runs (acquire okay o) (λ _, True).
Proof. eapply runs_bind; [apply runs_call|]. intros _ _. apply runs_defer. Qed.
Lemma runs_closing {A} o (m : M A) Q : runs m Q → runs (closing o m) Q.
Proof. intros Hm s. destruct (Hm s) as (s' & a & H & Ha). exists s', a. unfold closing. by rewrite H. Qed.

(** The injected egresses cover what is used. *)
Definition covers (opt : Options) (used : list string) : Prop :=
  opt_Egress opt = true ∨ opt_Egresses opt = ∅ ∨ ∀ name, name ∈ used → name ∈ opt_Egresses opt.

Lemma runs_finalizers c opt used : covers opt used → runs (buildFinalizers okay c opt used) (λ fins, fins = used).
Proof.
  intros Hcov. unfold buildFinalizers. apply (runs_mfold _ (λ pre fins, fins = pre)); [done|]. intros pre name fins Hin ->.
  eapply (runs_bind _ _ (λ _, True)); [|intros _ _; by apply runs_ret].
  destruct (opt_Egress opt) eqn:He; cbn [orb].
  - rewrite orb_true_r. by apply runs_ret.
  - destruct (bool_decide (opt_Egresses opt = ∅)) eqn:Hs; cbn [negb]; [apply runs_acquire|].
    destruct Hcov as [?|[Hc|Hc]]; [congruence|by apply bool_decide_eq_false in Hs|]. rewrite bool_decide_eq_true_2 by auto. by apply runs_ret.
Qed.

Lemma runs_pin c used : runs (pinDirectEgressIfaces okay c used) (λ _, True).
Proof.
  eapply (runs_bind _ _ (λ _, True)); [|intros; by apply runs_ret]. apply (runs_mfold _ (λ _ _, True)); [done|]. intros pre name [seen table] _ _.
  cbv beta iota zeta. match goal with |- runs (if ?b then _ else _) _ => destruct b end; [by apply runs_ret|]. eapply runs_bind; [apply runs_acquire|]. intros; by apply runs_ret.
Qed.

(** What a connection is built as. *)
Definition named (i : connImpl) : string * Kind := (implName i, implKind i).
Definition wanted (cn : Connection) : string * Kind := (Config.c_Name cn, kindOf cn).

Lemma isTun_kind cn : isTun cn = true ↔ kindOf cn = KindTun.
Proof.
  unfold isTun, kindOf. destruct (Config.c_Type cn =? "tun"); [done|]. split; [done|].
  by destruct (Config.c_Type cn =? "connect"), (Config.c_Direction cn =? "outgoing").
Qed.

Definition tunsOf (cs : list Connection) : list Connection := base.filter (λ cn, isTun cn = true) cs.
Definition othersOf (cs : list Connection) : list Connection := base.filter (λ cn, isTun cn = false) cs.

Lemma runs_tuns c skipOS prefix pending cs :
  Forall (λ cn, isTun cn = true → Config.c_Address cn = "" ∨ is_Some (ParseAddr (Config.c_Address cn))) cs →
  runs (mfold (openTunStep okay devName c skipOS prefix pending) (MkTuns [] None) cs) (λ st, map named (tu_impls st) = map wanted (tunsOf cs)).
Proof.
  intros Haddr. rewrite Forall_forall in Haddr.
  apply (runs_mfold _ (λ pre st, map named (tu_impls st) = map wanted (tunsOf pre))); [done|]. intros pre cn st Hin Hst.
  unfold openTunStep, tunsOf. rewrite filter_app, filter_cons, filter_nil. fold (tunsOf pre). specialize (Haddr cn Hin).
  destruct (isTun cn) eqn:Ht; cbn [negb].
  2:{ rewrite decide_False, app_nil_r by done. by apply runs_ret. }
  rewrite decide_True by done. specialize (Haddr eq_refl).
  assert (map named (tu_impls st ++ [TunConn (Config.c_Name cn) (bool_decide (Config.c_Name cn ∈ pending))]) = map wanted (tunsOf pre ++ [cn])) as Hnew.
  { rewrite !map_app, Hst. cbn. unfold wanted. by rewrite (proj1 (isTun_kind cn) Ht). }
  eapply runs_bind; [apply runs_call|]. intros _ _. destruct skipOS; [by apply runs_ret|].
  eapply runs_bind.
  { apply runs_closing. instantiate (1 := λ _, True). destruct (String.eqb_spec (Config.c_Address cn) "") as [_|Hne]; [by apply runs_ret|].
    destruct Haddr as [?|[a Ha]]; [done|]. rewrite Ha. by apply runs_ret. }
  intros setup _. eapply runs_bind; [apply runs_closing, runs_call|]. intros _ _. eapply runs_bind; [apply runs_defer|]. intros _ _.
  destruct (Config.c_CaptureDefault cn); [|by apply runs_ret]. eapply runs_bind; [apply runs_defer|]. intros _ _.
  eapply (runs_bind _ _ (λ _, True)); [|intros _ _; by apply runs_ret]. destruct (Config.c_LANIface cn =? ""); [by apply runs_ret|apply runs_acquire].
Qed.

Definition buildable (cn : Connection) : Prop :=
  is_ok (ParseName (Config.c_Cipher cn)) = true ∧ (isTun cn = true ∨ known_transport (Config.c_Transport cn)).

Lemma runs_conns c cs tuns :
  Config.n_Connections c = cs → map named tuns = map wanted (tunsOf cs) → Forall buildable cs →
  runs (buildConns okay chanID c tuns) (λ order, map named order = map wanted (tunsOf cs ++ othersOf cs)).
Proof.
  intros Hcs Htuns Hb. rewrite Forall_forall in Hb. unfold buildConns. eapply runs_bind; [apply runs_emit|]. intros _ _.
  eapply runs_bind; [apply runs_defer|]. intros _ _. rewrite Hcs. clear Hcs.
  apply (runs_mfold _ (λ pre order, map named order = map wanted (tunsOf cs ++ othersOf pre))); [by rewrite app_nil_r|].
  intros pre cn order Hin Ho. unfold buildConnStep, othersOf. rewrite filter_app, filter_cons, filter_nil. fold (othersOf pre).
  destruct (Hb cn Hin) as [Hc Ht]. destruct (isTun cn) eqn:Htun.
  { rewrite decide_False, app_nil_r by done. by apply runs_ret. }
  rewrite decide_True by done. destruct Ht as [?|Ht]; [done|].
  eapply (runs_bind _ _ (λ _, True)); [destruct (bool_decide _); [by apply runs_ret|apply runs_call]|]. intros _ _.
  destruct (New_built (specOf c cn (map implName tuns)) (chanID (Config.c_Name cn))) as (impl & Hn & Hk & Hname); [by right|done|].
  rewrite Hn. eapply runs_bind; [apply runs_emit|]. intros _ _. apply runs_ret. rewrite app_assoc, !(map_app _ _ [_]), Ho. f_equal.
  cbn. unfold named, wanted. by rewrite Hk, Hname.
Qed.

Lemma isSender_named order name k : (name, k) ∈ map named order → sends k = true → isSender order name = true.
Proof.
  intros (i & Hi & Hin)%list_elem_of_fmap Hs. injection Hi as -> ->. unfold isSender. apply existsb_exists. exists i.
  split; [by apply list_elem_of_In|]. by rewrite String.eqb_refl.
Qed.

Lemma tun_named order name : (name, KindTun) ∈ map named order → name ∈ map implName (base.filter (λ i, isTunImpl i = true) order).
Proof.
  intros (i & Hi & Hin)%list_elem_of_fmap. injection Hi as -> Hk. apply list_elem_of_fmap. exists i. split; [done|].
  apply list_elem_of_filter. split; [|done]. unfold isTunImpl. apply bool_decide_eq_true. done.
Qed.

Lemma kind_sends via : Config.c_Type via ≠ "tun" → Config.c_Direction via = "outgoing" → sends (kindOf via) = true.
Proof.
  intros Ht Hd. unfold kindOf. rewrite (proj2 (String.eqb_neq _ _) Ht), Hd. by destruct (Config.c_Type via =? "connect").
Qed.

Lemma runs_guards c order names :
  (∀ x cn, names !! x = Some cn → cn ∈ Config.n_Connections c ∧ Config.c_Name cn = x) →
  (∀ cn, cn ∈ Config.n_Connections c → wanted cn ∈ map named order) →
  Forall (condition_fact c names) (Config.n_Conditions c) →
  runs (buildGuards okay c order) (λ gs, ∀ d, d ∈ Config.n_Conditions c → is_Some (gs_conditions gs !! Config.d_Name d)).
Proof.
  intros Hn Hw Hf. rewrite Forall_forall in Hf. unfold buildGuards.
  apply (runs_mfold _ (λ pre gs, ∀ d, d ∈ pre → is_Some (gs_conditions gs !! Config.d_Name d))); [by intros d ?%elem_of_nil|].
  intros pre d st Hin Hst. specialize (Hf d Hin). unfold condition_fact in Hf. unfold guardStep.
  assert (∀ g, ∀ d', d' ∈ (pre ++ [d])%list → is_Some (<[Config.d_Name d := g]> (gs_conditions st) !! Config.d_Name d')) as Hnew.
  { intros g d' Hd'. apply lookup_insert_is_Some'. apply elem_of_app in Hd' as [Hd'|Hd']; [right; by apply Hst|]. apply list_elem_of_singleton in Hd' as ->. by left. }
  destruct (Config.d_DstIn d) as [set|].
  { eapply runs_bind; [apply runs_call|]. intros _ _. apply runs_ret. apply Hnew. }
  destruct (Config.d_Healthcheck d) as [hc|]; [|done]. destruct Hf as [(up0 & ups & via & Hup & Hvia & Hty & Hdir) Htun]. rewrite Hup.
  apply Hn in Hvia as [Hvin Hvname]. pose proof (isSender_named order up0 (kindOf via)) as Hs. rewrite Hs; [| |by apply kind_sends].
  2:{ rewrite <- Hvname. by apply Hw. }
  assert (∀ t, t ∈ Config.n_Connections c → Config.c_Type t = "tun" → Config.c_Name t ∈ map implName (base.filter (λ i, isTunImpl i = true) order)) as Htn.
  { intros t Ht Htt. apply tun_named. specialize (Hw t Ht). unfold wanted in Hw. rewrite (proj1 (isTun_kind t)) in Hw; [done|].
    unfold isTun. by rewrite Htt. }
  destruct (condTiming c hc) as [[iv tmo] ug]. destruct (Config.hs_Tun hc =? "").
  - destruct Htun as (t & Ht & Htt). specialize (Htn t Ht Htt). destruct (last _) as [tun|] eqn:Hl; [|apply last_None in Hl; rewrite Hl in Htn; by apply elem_of_nil in Htn].
    apply runs_ret. apply Hnew.
  - destruct Htun as (t & Ht & Htt). apply Hn in Ht as [Ht Htname]. specialize (Htn t Ht Htt). rewrite Htname in Htn.
    rewrite bool_decide_eq_true_2 by done. apply runs_ret. apply Hnew.
Qed.

Lemma egress_used c r : r ∈ Config.n_Routes c → Config.a_Egress (Config.r_Action r) ≠ "" → Config.a_Egress (Config.r_Action r) ∈ egressesUsed c.
Proof.
  intros Hr He. unfold egressesUsed. induction (Config.n_Routes c) as [|x rs IH] using rev_ind; [by apply elem_of_nil in Hr|].
  rewrite fold_left_app. cbn [fold_left]. apply elem_of_app in Hr as [Hr|Hr].
  - destruct (_ =? ""); [by apply IH|]. apply elem_of_union. right. by apply IH.
  - apply list_elem_of_singleton in Hr as ->. rewrite (proj2 (String.eqb_neq _ _) He). set_solver.
Qed.

Section world.
Context {W : Type} (sender : connImpl → Router.Sender W) (inSet : Config.IPSet → Addr → bool)
        (healthy : string → W → bool) (submit : string → Router.FinalizeFunc W).

Lemma connsOf_lookup order name : name ∈ map implName order → is_Some (connsOf sender order !! name).
Proof.
  intros Hin. unfold connsOf. induction order as [|i order IH] using rev_ind; [by apply elem_of_nil in Hin|].
  rewrite fold_left_app. cbn [fold_left]. apply lookup_insert_is_Some'. rewrite map_app in Hin. apply elem_of_app in Hin as [Hin|Hin]; [right; by apply IH|].
  left. by apply list_elem_of_singleton in Hin as ->.
Qed.

Lemma finalizersOf_lookup fins name : name ∈ fins → is_Some (finalizersOf submit fins !! name).
Proof.
  intros Hin. unfold finalizersOf. induction fins as [|f fins IH] using rev_ind; [by apply elem_of_nil in Hin|].
  rewrite fold_left_app. cbn [fold_left]. apply lookup_insert_is_Some'. apply elem_of_app in Hin as [Hin|Hin]; [right; by apply IH|].
  left. by apply list_elem_of_singleton in Hin as ->.
Qed.

Lemma routes_compile c order gs names conds :
  (∀ x cn, names !! x = Some cn → cn ∈ Config.n_Connections c ∧ Config.c_Name cn = x) →
  (∀ cn, cn ∈ Config.n_Connections c → wanted cn ∈ map named order) →
  (∀ k, is_Some (conds !! k) → is_Some (gs_conditions gs !! k)) →
  Forall (Config.route_ok c names conds) (Config.n_Routes c) →
  ∃ r, routerOf sender inSet healthy submit c order gs (elements (egressesUsed c)) = Ok r.
Proof.
  intros Hn Hw Hg Hr. unfold routerOf.
  pose proof (Router.Compile_spec (connsOf sender order) (guardOf inSet healthy <$> gs_conditions gs) (finalizersOf submit (elements (egressesUsed c)))
    (compileRules c) (map fst (map_to_list (connsOf sender order)))) as Hspec.
  destruct (Router.Compile _ _ _ _ _) as [r|e]; [by exists r|]. destruct Hspec. unfold compileRules. apply Forall_map.
  assert (∀ x, Config.named names x → is_Some (connsOf sender order !! x)) as Hc.
  { intros x [cn Hcn]. apply Hn in Hcn as [Hin Hx]. apply connsOf_lookup. specialize (Hw cn Hin). apply list_elem_of_fmap in Hw as (i & Hi & Hin').
    injection Hi as Hname _. apply list_elem_of_fmap. exists i. split; [congruence|done]. }
  apply Forall_forall. intros ru Hru. rewrite Forall_forall in Hr. destruct (Hr ru Hru) as [H1 H2 H3 H4]. unfold compose, Router.rowValid. cbn.
  split; [|split; [by apply Hc|split]].
  - intros He. destruct H3 as [?|[_ Hm]]; [done|]. split; [done|]. apply finalizersOf_lookup, elem_of_elements. by apply egress_used.
  - intros Hs. destruct H2 as [?|H2]; [done|]. by apply Hc.
  - apply Forall_forall. intros cond Hcond. destruct (H4 cond Hcond) as (kind & Hk & _). rewrite lookup_fmap, fmap_is_Some. apply Hg. by exists kind.
Qed.

Lemma runs_start order : runs (startConns okay order) (λ _, True).
Proof.
  eapply (runs_bind _ _ (λ _, True)); [|intros; by apply runs_ret]. apply (runs_mfold _ (λ _ _, True)); [done|].
  intros pre i st _ _. apply runs_acquire.
Qed.
End world.
End boot.

Lemma validateTransport_known c : Config.validateTransport c = Ok tt → known_transport (Config.c_Transport c).
Proof.
  unfold Config.validateTransport. intros [H _]%Config.check_ok. unfold known_transport.
  apply orb_true_iff in H as [H|H%String.eqb_eq]; [apply orb_true_iff in H as [H%String.eqb_eq|H%String.eqb_eq]|]; auto.
Qed.

Lemma validateConn_known cn st st' : Config.validateConn cn st = Ok st' →
  (isTun cn = true ∨ known_transport (Config.c_Transport cn)) ∧
  (isTun cn = true → Config.c_Address cn = "" ∨ is_Some (ParseAddr (Config.c_Address cn))).
Proof.
  intros H. unfold Config.validateConn in H. apply res_bind_ok in H as (_ & _ & H). unfold isTun.
  destruct (String.eqb_spec (Config.c_Type cn) "connect") as [->|_].
  { rewrite !Config.check_ok in H. destruct H as (_ & _ & H). apply res_bind_ok in H as ([] & Ht & _). split; [|done]. right. by apply validateTransport_known. }
  destruct (String.eqb_spec (Config.c_Type cn) "listen") as [->|_].
  { rewrite !Config.check_ok in H. destruct H as (_ & H). apply res_bind_ok in H as ([] & Ht & _). split; [|done]. right. by apply validateTransport_known. }
  destruct (Config.c_Type cn =? "tun"); [|done]. split; [by left|]. intros _. rewrite !Config.check_ok in H. destruct H as (_ & _ & H).
  apply res_bind_ok in H as (addrs & Ha & _). destruct (String.eqb_spec (Config.c_Address cn) ""); [by left|].
  destruct (ParseAddr (Config.c_Address cn)); [right; by eexists|done].
Qed.

Lemma boots {W} devName chanID (sender : connImpl → Router.Sender W) inSet healthy submit c0 opt now :
  let c := Config.Defaults c0 in
  Config.Validate c = Ok tt → Config.n_Datapath c ≠ "kernel" → covers opt (elements (egressesUsed c)) →
  ∃ tr rn, RunWith (λ _, true) devName chanID sender inSet healthy submit c0 opt now = (tr, Ok rn) ∧
    map named (rn_order rn) = map wanted (tunsOf (Config.n_Connections c) ++ othersOf (Config.n_Connections c)) ∧
    (∀ d, d ∈ Config.n_Conditions c → is_Some (gs_conditions (rn_guards rn) !! Config.d_Name d)).
Proof.
  intros c Hv Hd Hcov. destruct (Config.validated_facts c Hv Hd) as (_ & Hpre & Heach & Hciph & _ & _ & _ & names & conds & Hnames & Hconds & Hroutes).
  assert (runs (RunWithBody (λ _, true) devName chanID sender inSet healthy submit c0 opt now) (λ rn,
    map named (rn_order rn) = map wanted (tunsOf (Config.n_Connections c) ++ othersOf (Config.n_Connections c)) ∧
    (∀ d, d ∈ Config.n_Conditions c → is_Some (gs_conditions (rn_guards rn) !! Config.d_Name d)))) as Hruns.
  2:{ destruct (Hruns (MkRState [] [])) as (s & rn & Hs & Hrn). unfold RunWith. rewrite Hs. eexists _, rn. split; [reflexivity|done]. }
  unfold RunWithBody. fold c. eapply runs_bind; [by apply (runs_lift _ _ (λ _, True) Hv)|]. intros _ _.
  unfold validPrefix in Hpre. apply bool_decide_eq_true in Hpre as [prefix Hpre]. rewrite Hpre.
  eapply runs_bind; [by apply (runs_lift _ _ (eq prefix) eq_refl)|]. intros p <-.
  eapply runs_bind; [by apply runs_finalizers|]. intros fins ->.
  eapply (runs_bind _ _ (λ _, True)).
  { destruct (opt_OpenTun opt); [by apply runs_ret|]. eapply runs_bind; [apply runs_pin|]. intros _ _.
    eapply (runs_bind _ _ (λ _, True)); [|intros; by apply runs_ret]. apply (runs_mfold _ (λ _ _, True)); [done|]. intros pre [ad ifc] st _ _. apply runs_acquire. }
  intros _ _. eapply (runs_bind _ _ (λ _, True)); [destruct (_ && _); [apply runs_acquire|by apply runs_ret]|]. intros _ _.
  eapply runs_bind.
  { apply runs_tuns. eapply Forall_impl; [exact Heach|]. intros cn (st & st' & H). by apply (validateConn_known cn st st'). }
  intros tuns Htuns. eapply runs_bind.
  { apply (runs_conns chanID c (Config.n_Connections c)); [done|exact Htuns|]. apply Forall_forall. intros cn Hin. rewrite Forall_forall in Heach, Hciph.
    destruct (Heach cn Hin) as (st & st' & H). split; [by apply Hciph|by apply (validateConn_known cn st st')]. }
  intros order Horder.
  assert (∀ cn, cn ∈ Config.n_Connections c → wanted cn ∈ map named order) as Hw.
  { intros cn Hin. rewrite Horder. apply list_elem_of_fmap. exists cn. split; [done|]. apply elem_of_app. unfold tunsOf, othersOf.
    rewrite !list_elem_of_filter. destruct (isTun cn) eqn:Ht; [by left|by right]. }
  assert (∀ x cn, names !! x = Some cn → cn ∈ Config.n_Connections c ∧ Config.c_Name cn = x) as Hn by (by intros x cn H; apply Hnames).
  apply res_bind_ok in Hconds as (st & Hst & Hconds). injection Hconds as <-. apply validateConditions_facts in Hst as [Hfacts Hkeys].
  eapply runs_bind; [by apply (runs_guards c order names)|]. intros gs Hgs.
  destruct (routes_compile sender inSet healthy submit c order gs names st.1 Hn Hw) as [r Hr]; [|done|].
  { intros k Hk. destruct (Hkeys k Hk) as [[? Hk0]|(d & Hdin & <-)]; [done|by apply Hgs]. }
  rewrite Hr. eapply runs_bind; [by apply (runs_lift _ _ (eq r) eq_refl)|]. intros r' <-.
  eapply runs_bind; [apply runs_start|]. intros _ _. eapply (runs_bind _ _ (λ _, True)); [|intros _ _; by apply runs_ret].
  destruct (tu_capturer tuns) as [[dev peer]|]; [apply runs_emit|by apply runs_ret].
Qed.

(** A userspace configuration that passes validation starts unless a
    call to the system fails: every tun and connection is built as the kind its
    type and direction say, every condition gets a guard, every healthcheck a
    sending link and a tun, and the routing table compiles over them. *)
Theorem validated_boots {W} devName chanID (sender : connImpl → Router.Sender W) inSet healthy submit c0 opt now :
  let c := Config.Defaults c0 in
  Config.Validate c = Ok tt → Config.n_Datapath c ≠ "kernel" → covers opt (elements (egressesUsed c)) →
  ∃ tr rn, RunWith (λ _, true) devName chanID sender inSet healthy submit c0 opt now = (tr, Ok rn) ∧
    map named (rn_order rn) = map wanted (tunsOf (Config.n_Connections c) ++ othersOf (Config.n_Connections c)) ∧
    (∀ d, d ∈ Config.n_Conditions c → is_Some (gs_conditions (rn_guards rn) !! Config.d_Name d)).
Proof. apply boots. Qed.

(** Claim C14.  Every userspace node of a compiled network starts on the
    configuration compiled for it, unless a call to the system fails. *)
Theorem compiled_boots {W} devName chanID (sender : connImpl → Router.Sender W) inSet healthy submit n out name cn now :
  Compile.Compile n = Ok out → out !! name = Some cn → Config.n_Datapath cn ≠ "kernel" →
  ∃ tr rn, RunWith (λ _, true) devName chanID sender inSet healthy submit cn (MkOptions false false ∅) now = (tr, Ok rn) ∧
    map named (rn_order rn) = map wanted (tunsOf (Config.n_Connections cn) ++ othersOf (Config.n_Connections cn)).
Proof.
  intros H Hcn Hd. apply Paths.Compile_stages in H as (o1 & n' & o2 & _ & _ & _ & Hout & Hv). pose proof (Hv name cn Hcn) as Hval.
  assert (Config.Defaults cn = cn) as Hdef.
  { rewrite Hout, lookup_fmap in Hcn. destruct (o2 !! name) as [c2|]; [|done]. injection Hcn as <-. apply Config.Defaults_idem. }
  destruct (boots devName chanID sender inSet healthy submit cn (MkOptions false false ∅) now) as (tr & rn & H1 & H2 & _); rewrite ?Hdef; [done|done|right; by left|].
  rewrite Hdef in H2. by exists tr, rn.
Qed.

(** The intake a connection is given routes exactly as the router
    does, whether or not its source has rules of its own, and counts every packet
    received once, and what the router reports of it, against the right names. *)
Theorem ingress_is_route {W} (rt : Router.Router W) name w reg e p :
  boundIngress rt name name w reg e p =
    (let '(w', evs) := Router.Route rt w name e p in (w', record ((λ r, Stats.Recv r name (zlen p)) <$> reg) evs)).
Proof.
  unfold boundIngress, Router.SourceRouter, Router.Route.
  destruct (Router.compiledFor rt false name) eqn:Hu, (Router.compiledFor rt true name) eqn:Hp, reg as [r|]; cbn [fmap option_fmap option_map];
    destruct e as [o q]; cbn [Env_Processed]; destruct q; rewrite ?Hu, ?Hp; done.
Qed.

(** ** A concrete node: A of the network of Paths.v *)

Definition demoA : cfg := default (Config.MkNode "" 0 "" [] ∅ [] [] "" [] [] None 0 0 "" 0 0) (Paths.demoOut !! "A").
Definition demoSender (i : connImpl) : Router.Sender nat := Router.MkSender (λ _ _, true) (λ w _ _, (S w, true)).
Definition demoRun (ext : op → bool) : list revent * vres (running (W := nat)) :=
  RunWith ext id id demoSender (λ _ _, true) (λ _ _, true) (λ _ w _ _ _, w) demoA (MkOptions false false ∅) 0.

Lemma demoA_compiled : Paths.demoOut !! "A" = Some demoA.
Proof.
  assert (bool_decide (is_Some (Paths.demoOut !! "A")) = true) as H by (vm_compute; reflexivity).
  unfold demoA. by destruct (Paths.demoOut !! "A").
Qed.

Lemma compiled_boots_witness : ∃ tr rn, demoRun (λ _, true) = (tr, Ok rn) ∧
  map named (rn_order rn) = [("t", KindTun); ("ab", KindConnectOut); ("g1a", KindConnectIn); ("g2a", KindConnectIn)].
Proof.
  destruct (compiled_boots id id demoSender (λ _ _, true) (λ _ _, true) (λ _ w _ _ _, w) Paths.demoNet Paths.demoOut "A" demoA 0
    Paths.demoOut_ok demoA_compiled) as (tr & rn & H1 & H2); [by vm_compute|]. exists tr, rn. split; [exact H1|]. rewrite H2. by vm_compute.
Defined.

Lemma validated_boots_witness : ∃ tr rn, demoRun (λ _, true) = (tr, Ok rn).
Proof.
  destruct (validated_boots id id demoSender (λ _ _, true) (λ _ _, true) (λ _ w _ _ _, w) demoA (MkOptions false false ∅) 0) as (tr & rn & H & _);
    [by vm_compute|by vm_compute|right; by left|by exists tr, rn].
Defined.

(** The carrier towards B cannot be built: the tun's setup is undone. *)
Definition failConn (o : op) : bool := match o with DialerFor c => negb (Config.c_Name c =? "ab") | _ => true end.

Lemma teardown_exact_witness : ∃ body td, (demoRun failConn).1 = (body ++ map Undo (rev td))%list ∧
  base.filter (λ o, isCapture o = false) td = acquired body ∧ is_ok (demoRun failConn).2 = false ∧
  Held.opened (demoRun failConn).1 ≡ₚ (Held.closes (Config.Defaults demoA) false body (demoRun failConn).1 ++ Held.leftOpen (Config.Defaults demoA) false body)%list.
Proof.
  assert (is_ok (demoRun failConn).2 = false) as Hk by (vm_compute; reflexivity).
  destruct (demoRun failConn) as [tr r] eqn:H.
  destruct (teardown_exact failConn id id demoSender (λ _ _, true) (λ _ _, true) (λ _ w _ _ _, w) demoA (MkOptions false false ∅) 0 tr r H) as (body & td & H1 & H2 & H3 & _).
  exists body, td. split; [exact H1|]. split; [exact H2|]. split; [exact Hk|exact H3].
Defined.

(** ... but the opened device is left open; one whose own configuration fails is
    closed at once. *)
Definition isOpen (e : revent) : bool := match e with Done (OpenTun _ _) => true | _ => false end.
Definition isShut (e : revent) : bool := match e with Undo (OpenTun _ _) => true | _ => false end.
Definition failConfigure (o : op) : bool := match o with ConfigureTun _ => false | _ => true end.
Example device_left_open :
  existsb isOpen (demoRun failConn).1 = true ∧ existsb isShut (demoRun failConn).1 = false ∧
  (length (Held.leftOpen (Config.Defaults demoA) false (demoRun failConn).1) = 1)%nat ∧
  existsb isOpen (demoRun failConfigure).1 = true ∧ existsb isShut (demoRun failConfigure).1 = true ∧
  Held.leftOpen (Config.Defaults demoA) false (demoRun failConfigure).1 = [].
Proof. repeat split; vm_compute; reflexivity. Qed.
