(* ===== verification/NodeEgress.v ===== *)
(** * internal/node/egress.go: building one egress, and the shared WARP dialer

    The script of [buildEgress] over the calls it makes, each of which succeeds
    or fails; the trace holds what was opened and what was closed again on the
    error paths, the result the teardown the caller registers. *)

From S2P Require Import Prelude GoStrings NetIp Config Http Factory Node.
Local Open Scope Z_scope.
Local Open Scope string_scope.

Inductive eop :=
| WarpCredentials (config cache : string) (insecure : bool)
| WarpNewDialer
| NewNetstack (iface : option string) (mtu : Z)   (** dialing through WARP, or bound to a device *)
| TunOpen (name : string) (mtu : Z)
| TunConfigure (s : TunSetup)
| ConfigureNAT (tun : string) (subnet : netipAddr * Z) (ext : string).

Inductive eevent := Opened (o : eop) | Refused (o : eop) | Closed (o : eop).

Inductive egressKind := WarpEgress | DirectEgress | KernelEgress.

Section egress.
Context (ext : eop → bool) (devName : string → string).

Definition buildEgress (c : cfg) (prefix : netipAddr * Z) (eg : Config.Egress) : list eevent * vres (egressKind * list eop) :=
  let mtu := Config.n_MTU c in
  if Config.e_Mode eg =? "warp" then
    let cred := WarpCredentials (Config.e_WARPConfig eg) (Config.e_WARPCache eg) (Config.e_WARPInsecure eg) in
    let ns := NewNetstack None mtu in
    if negb (ext cred) then ([Refused cred], Err "credentials")
    else if negb (ext WarpNewDialer) then ([Opened cred; Refused WarpNewDialer], Err "dialer")
    else if negb (ext ns) then ([Opened cred; Opened WarpNewDialer; Refused ns; Closed WarpNewDialer], Err "netstack")
    else ([Opened cred; Opened WarpNewDialer; Opened ns], Ok (WarpEgress, [ns; WarpNewDialer]))
  else if Config.e_Mode eg =? "direct" then
    let ns := NewNetstack (Some (Config.e_ExtIface eg)) mtu in
    if negb (ext ns) then ([Refused ns], Err "netstack") else ([Opened ns], Ok (DirectEgress, [ns]))
  else
    let dev := TunOpen (if Config.e_TunName eg =? "" then "dualnet0" else Config.e_TunName eg) mtu in
    if negb (ext dev) then ([Refused dev], Err "tun")
    else
      let name := devName (if Config.e_TunName eg =? "" then "dualnet0" else Config.e_TunName eg) in
      let gw := nextAddr (maskedAddr prefix) in
      let setup := TunConfigure (MkTunSetup name gw (match gw with Some g => derivePeer prefix g | None => None end) prefix.2 mtu) in
      if negb (ext setup) then ([Opened dev; Refused setup; Closed dev], Err "configure")
      else
        let nat := ConfigureNAT name (maskedAddr prefix, prefix.2) (Config.e_ExtIface eg) in
        if negb (ext nat) then ([Opened dev; Opened setup; Refused nat; Closed setup; Closed dev], Err "nat")
        else ([Opened dev; Opened setup; Opened nat], Ok (KernelEgress, [nat; setup; dev])).

(** [warpDialers]: the shared dialer, once it exists. *)
Definition dialerFor (shared : bool) (c : Connection) (registers dials : bool) : bool * vres SocketDialer :=
  if negb (Config.c_Warpped c) then
    (shared, if (Config.c_SourceIP c =? "") || is_ok (Config.validateIPToken (Config.c_SourceIP c))
             then Ok (SourceDialer (Config.c_Interface c) (Config.c_SourceIP c)) else Err "bad source")
  else if shared then (true, Ok WarpDialer)
  else if negb registers then (false, Err "register")
  else if negb dials then (false, Err "dialer")
  else (true, Ok WarpDialer).
End egress.

(** Credentials hold nothing open. *)
Definition holds (o : eop) : bool := match o with WarpCredentials _ _ _ => false | _ => true end.
Definition opened (tr : list eevent) : list eop := omap (λ e, match e with Opened o => if holds o then Some o else None | _ => None end) tr.
Definition closed (tr : list eevent) : list eop := omap (λ e, match e with Closed o => Some o | _ => None end) tr.

(** Building an egress leaks nothing: when a step fails, exactly what
    was opened has been closed again, last first; when all succeed nothing was
    closed and the teardown returned releases exactly what was opened, last
    first. *)
Theorem egress_no_leak ext devName c prefix eg :
  match buildEgress ext devName c prefix eg with
  | (tr, Err _) => closed tr = rev (opened tr)
  | (tr, Ok (_, td)) => closed tr = [] ∧ td = rev (opened tr)
  end.
Proof.
  unfold buildEgress. destruct (Config.e_Mode eg =? "warp"); [|destruct (Config.e_Mode eg =? "direct")];
    repeat match goal with |- context [negb (ext ?o)] => destruct (ext o); cbn [negb] end; done.
Qed.

(** A second warpped connection reuses the dialer of the first. *)
Lemma dialerFor_shared c r d shared' res :
  Config.c_Warpped c = true → dialerFor false c r d = (shared', Ok res) → ∀ c' r' d', Config.c_Warpped c' = true → dialerFor shared' c' r' d' = (true, Ok WarpDialer).
Proof.
  unfold dialerFor. intros -> H c' r' d' ->. cbn [negb] in *. destruct r; cbn [negb] in H; [|done]. destruct d; cbn [negb] in H; [|done].
  injection H as <- _. done.
Qed.
