(* ===== verification/NetText.v ===== *)
(** * Addresses and prefixes as text

    [Addr.String], [Prefix.String], [Addr.Unmap] and [PrefixFrom] of net/netip,
    and the one-prefix grammar the two readers of prefix files share. *)

From S2P Require Import Prelude GoBytes GoStrings NetIp Config Http Factory Node.
Local Open Scope Z_scope.
Local Open Scope string_scope.
Local Open Scope go_scope.

Definition hexDigitChar (d : Z) : ascii := ascii_of_N (Z.to_N (if d <? 10 then d + 48 else d + 87)%Z).

(** [appendHex]: a 16-bit group without leading zeros. *)
Definition hex16 (x : Z) : list ascii :=
  ((if (0x1000 <=? x)%Z then [hexDigitChar (x / 0x1000)] else []) ++
   (if (0x100 <=? x)%Z then [hexDigitChar (x / 0x100 mod 16)] else []) ++
   (if (0x10 <=? x)%Z then [hexDigitChar (x / 0x10 mod 16)] else []) ++ [hexDigitChar (x mod 16)])%list.

Fixpoint groups (b : list Z) : list Z :=
  match b with x :: y :: b' => (x * 256 + y)%Z :: groups b' | _ => [] end.

Fixpoint zeroRun (g : list Z) : nat := match g with 0%Z :: g' => S (zeroRun g') | _ => O end.

(** The first longest run of at least two zero groups: where it starts and its
    length. *)
Fixpoint longestRun (i : nat) (g : list Z) (best : option (nat * nat)) : option (nat * nat) :=
  match g with
  | [] => best
  | _ :: g' =>
      let l := zeroRun g in
      longestRun (S i) g' (if (2 <=? l)%nat && (match best with Some (_, b) => b | None => O end <? l)%nat then Some (i, l) else best)
  end.

Fixpoint joinColon (l : list (list ascii)) : list ascii :=
  match l with [] => [] | [a] => a | a :: l' => (a ++ ":"%char :: joinColon l')%list end.

Definition string6 (b : list Z) : list ascii :=
  let g := groups b in
  match longestRun 0 g None with
  | None => joinColon (map hex16 g)
  | Some (i, l) => (joinColon (map hex16 (take i g)) ++ [":"; ":"]%char ++ joinColon (map hex16 (drop (i + l) g)))%list
  end.

Definition string4 (b : list Z) : list ascii :=
  match map itoa b with
  | [w; x; y; z] => (w ++ "."%char :: x ++ "."%char :: y ++ "."%char :: z)%list
  | _ => []
  end.

Definition is4In6 (b : list Z) : bool := bool_decide (take 12 b = (replicate 10 0%Z ++ [255; 255]%Z)%list).

Definition addrString (a : netipAddr) : string :=
  match a with
  | V4 b => unchars (string4 b)
  | V6 b zone =>
      let z := match zone with [] => [] | _ => "%"%char :: zone end in
      if is4In6 b then unchars (chars "::ffff:" ++ string4 (drop 12 b) ++ z) else unchars (string6 b ++ z)
  end.

Definition prefixString (p : netipAddr * Z) : string := addrString p.1 +:+ "/" +:+ Itoa p.2.

(** [Addr.Unmap], and [PrefixFrom], which drops a zone. *)
Definition unmapAddr (a : netipAddr) : netipAddr :=
  match a with V6 b _ => if is4In6 b then V4 (drop 12 b) else a | V4 _ => a end.
Definition withoutZone (a : netipAddr) : netipAddr := match a with V6 b _ => V6 b [] | V4 _ => a end.


(** A prefix of a file or list, masked; a bare address is a host prefix. *)
Definition parsePrefix (tok : string) : option (netipAddr * Z) :=
  if Config.containsSlash tok then p ← ParsePrefix tok; Some (maskedAddr p, p.2)
  else a ← ParseAddr tok; let a := unmapAddr a in Some (withoutZone a, addrBits a).
