(* ===== verification/KernelNode.v ===== *)
(** * internal/kernelnode: a kernel-datapath node's policy routing

    [lower] turns a configuration into command lines, [apply] runs them and
    [loadGeo] fills the tables of destination sets.  Running a command is the
    argument [ext]; reading a file is [readFile]; resolving next hops and
    bringing up WireGuard devices happen outside.  KernelPolicy.v interprets the
    emitted `ip rule` and `ip route` command lines as the kernel would;
    KernelApply.v follows what is installed. *)

From S2P Require Import Prelude GoBytes GoStrings NetIp Config Http Factory Node NetText.
Local Open Scope Z_scope.
Local Open Scope string_scope.
Local Open Scope go_scope.

Definition tableEgressBase : Z := 300.
Definition tableGeoBase : Z := 350.
Definition prioMain : Z := 10000.
Definition prioSrcBase : Z := 11000.
Definition prioDstBase : Z := 12000.
Definition prioDefault : Z := 13000.

Abbreviation argv := (list string).

Definition withVerb (a : argv) (verb : string) : argv :=
  match a with x :: y :: _ :: rest => x :: y :: verb :: rest | _ => a end.

Definition flipAppendToDelete (rule : argv) : argv :=
  map (λ a, if (a =? "-A") || (a =? "-I") then "-D" else a) rule.

Record underlayRoute := MkUnderlay { u_ip : string; u_dev : string; u_gw : string }.
#[export] Instance underlay_eq_dec : EqDecision underlayRoute.
Proof. solve_decision. Defined.

Record wan := MkWan { wn_dev : string; wn_gw : string; wn_ep : option underlayRoute }.
Definition zeroWan : wan := MkWan "" "" None.

Record geoBinding := MkGeo { gb_cond : string; gb_set : Config.IPSet; gb_table : Z; gb_wan : wan }.

Record plan := MkPlan {
  p_tables : list Z;
  p_tableRoutes : list argv;
  p_mainRoutes : list argv;
  p_rules : list argv;
  p_iptables : list argv;
  p_geo : list geoBinding;
}.

(** ** Command lines *)

Definition via (gw : string) : argv := if gw =? "" then [] else ["via"; gw].

Definition defaultRoute (w : wan) (table : Z) : argv :=
  (["ip"; "route"; "add"; "default"] ++ via (wn_gw w) ++ ["dev"; wn_dev w; "table"; Itoa table])%list.
Definition geoRoute (prefix : string) (w : wan) (table : Z) : argv :=
  (["ip"; "route"; "add"; prefix] ++ via (wn_gw w) ++ ["dev"; wn_dev w; "table"; Itoa table])%list.
Definition onLinkRoute (cidr lan : string) : argv := ["ip"; "route"; "add"; cidr; "dev"; lan].
Definition hostRoute (u : underlayRoute) : argv :=
  (["ip"; "route"; "add"; (u_ip u +:+ "/32")] ++ via (u_gw u) ++ ["dev"; u_dev u])%list.
Definition ruleMainSuppress (prio : Z) : argv :=
  ["ip"; "rule"; "add"; "priority"; Itoa prio; "from"; "all"; "lookup"; "main"; "suppress_prefixlength"; "0"].
Definition ruleFrom (prio : Z) (cidr : string) (table : Z) : argv :=
  ["ip"; "rule"; "add"; "priority"; Itoa prio; "from"; cidr; "lookup"; Itoa table].
Definition ruleLookup (prio : Z) (from : string) (table : Z) : argv :=
  (["ip"; "rule"; "add"; "priority"; Itoa prio] ++ (if from =? "" then [] else ["from"; from]) ++ ["lookup"; Itoa table])%list.

Definition masqRules (wanDev : string) (lans : list string) : list argv :=
  ([["-t"; "nat"; "-A"; "POSTROUTING"; "-o"; wanDev; "-j"; "MASQUERADE"]] ++
   concat (map (λ lan,
     [["-A"; "FORWARD"; "-i"; lan; "-o"; wanDev; "-j"; "ACCEPT"];
      ["-A"; "FORWARD"; "-i"; wanDev; "-o"; lan; "-m"; "conntrack"; "--ctstate"; "RELATED,ESTABLISHED"; "-j"; "ACCEPT"]]) lans) ++
   [["-t"; "mangle"; "-A"; "FORWARD"; "-o"; wanDev; "-p"; "tcp"; "--tcp-flags"; "SYN,RST"; "SYN"; "-j"; "TCPMSS"; "--clamp-mss-to-pmtu"]])%list.

Definition normalizePrefix (tok : string) : vres string :=
  if Config.containsSlash tok then
    match ParsePrefix tok with Some p => Ok (prefixString (maskedAddr p, p.2)) | None => Err "bad prefix" end
  else
    match ParseAddr tok with
    | Some a => let a := unmapAddr a in Ok (prefixString (withoutZone a, addrBits a))
    | None => Err "bad address"
    end.

Example normalize_example :
  normalizePrefix "10.1.2.3/8" = Ok "10.0.0.0/8" ∧ normalizePrefix "192.0.2.1" = Ok "192.0.2.1/32" ∧
  normalizePrefix "2001:db8::1:0:0:1" = Ok "2001:db8::1:0:0:1/128" ∧ normalizePrefix "::ffff:1.2.3.4" = Ok "1.2.3.4/32" ∧
  normalizePrefix "2001:db8:ffff::/33" = Ok "2001:db8:8000::/33" ∧ normalizePrefix "::/0" = Ok "::/0" ∧ is_ok (normalizePrefix "x") = false.
Proof. vm_compute. repeat split. Qed.

Section files.
Context (readFile : string → option string).

(** One line of a set's file: the comment cut, blanks dropped. *)
Definition setLine (line : list ascii) : list string :=
  let line := match indexChar "#"%char line with Some i => take i line | None => line end in
  match trimSpace line with [] => [] | l => [unchars l] end.

Definition mapM_res {A B} (f : A → vres B) (l : list A) : vres (list B) :=
  foldr (λ x acc, let? y := f x in let? ys := acc in Ok (y :: ys)) (Ok []) l.

Definition readPrefixes (s : Config.IPSet) : vres (list string) :=
  let? raw := (match Config.s_List s with
    | [] => match readFile (Config.s_File s) with
            | None => Err "read"
            | Some b => Ok (concat (map setLine (splitOn (ascii_of_nat 10) (chars b))))
            end
    | l => Ok l
    end) in
  mapM_res normalizePrefix raw.

(** ** lower *)

Definition egressNames (c : cfg) : list string := Config.sortStrings (map fst (map_to_list (Config.n_Egresses c))).

(** The loop over the egresses: index, tables by name, pinned endpoints. *)
Record egressState := MkEgressState {
  es_index : Z;
  es_table : gmap string Z;
  es_pinned : gmap string underlayRoute;
  es_plan : plan;
}.

Definition egressStep (lans : list string) (wans : gmap string wan) (s : egressState) (name : string) : vres egressState :=
  let t := (tableEgressBase + es_index s)%Z in
  let w := default zeroWan (wans !! name) in
  let p := es_plan s in
  let p := MkPlan (p_tables p ++ [t]) (p_tableRoutes p ++ [defaultRoute w t]) (p_mainRoutes p) (p_rules p)
             (p_iptables p ++ masqRules (wn_dev w) lans) (p_geo p) in
  let next pinned p := Ok (MkEgressState (es_index s + 1) (<[name := t]> (es_table s)) pinned p) in
  match wn_ep w with
  | None => next (es_pinned s) p
  | Some ep =>
      match es_pinned s !! u_ip ep with
      | Some prev => check? bool_decide (prev = ep) else "warp endpoint pinned to two different underlays"; next (es_pinned s) p
      | None => next (<[u_ip ep := ep]> (es_pinned s))
          (MkPlan (p_tables p) (p_tableRoutes p) (p_mainRoutes p ++ [hostRoute ep]) (p_rules p) (p_iptables p) (p_geo p))
      end
  end%list.

Definition zeroCondition : Config.Condition := Config.MkCondition "" None None None.
Definition condByName (c : cfg) : gmap string Config.Condition := fold_left (λ m d, <[Config.d_Name d := d]> m) (Config.n_Conditions c) ∅.

(** The loop over the forwarding branches. *)
Record lowerState := MkLower {
  lo_plan : plan;
  lo_srcPrio : Z;
  lo_dstIdx : Z;
  lo_seenLeg : gset string;
}.

Definition addRules (p : plan) (rs : list argv) : plan :=
  MkPlan (p_tables p) (p_tableRoutes p) (p_mainRoutes p) (p_rules p ++ rs) (p_iptables p) (p_geo p).
Definition addMain (p : plan) (rs : list argv) : plan :=
  MkPlan (p_tables p) (p_tableRoutes p) (p_mainRoutes p ++ rs) (p_rules p) (p_iptables p) (p_geo p).

Definition srcStep (lan : string) (table : Z) (s : lowerState) (ip : string) : lowerState :=
  let p := addRules (lo_plan s) [ruleFrom (lo_srcPrio s) ip table] in
  if negb (lan =? "") && negb (bool_decide (ip ∈ lo_seenLeg s))
  then MkLower (addMain p [onLinkRoute ip lan]) (lo_srcPrio s + 1) (lo_dstIdx s) ({[ip]} ∪ lo_seenLeg s)
  else MkLower p (lo_srcPrio s + 1) (lo_dstIdx s) (lo_seenLeg s).

Definition forwardStep (conds : gmap string Config.Condition) (lan : string) (egTable : gmap string Z) (wans : gmap string wan)
    (s : lowerState) (f : Config.Forward) : vres lowerState :=
  let table := default 0 (egTable !! Config.f_Egress f) in
  match Config.f_When f with
  | [] => Ok (MkLower (addRules (lo_plan s) [ruleLookup prioDefault "" table]) (lo_srcPrio s) (lo_dstIdx s) (lo_seenLeg s))
  | w :: _ =>
      let cond := default zeroCondition (conds !! w) in
      match Config.d_SrcIn cond, Config.d_DstIn cond with
      | Some set, _ =>
          let? ips := readPrefixes set in Ok (fold_left (srcStep lan table) ips s)
      | None, Some set =>
          let t := (tableGeoBase + lo_dstIdx s)%Z in
          let p := addRules (lo_plan s) [ruleLookup (prioDstBase + lo_dstIdx s) "" t] in
          Ok (MkLower (MkPlan (p_tables p ++ [t]) (p_tableRoutes p) (p_mainRoutes p) (p_rules p) (p_iptables p)
                (p_geo p ++ [MkGeo w set t (default zeroWan (wans !! Config.f_Egress f))])%list)
              (lo_srcPrio s) (lo_dstIdx s + 1) (lo_seenLeg s))
      | None, None => Err "forward branch condition is neither src_in nor dst_in"
      end
  end.

Definition emptyPlan : plan := MkPlan [] [] [] [] [] [].

Definition lower (c : cfg) (wans : gmap string wan) : vres plan :=
  let? es := Config.rangeM (egressStep (Config.n_LANIfaces c) wans) (MkEgressState 0 ∅ ∅ emptyPlan) (egressNames c) in
  let p := addRules (es_plan es) [ruleMainSuppress prioMain] in
  let lan := match Config.n_LANIfaces c with l :: _ => l | [] => "" end in
  let? s := Config.rangeM (forwardStep (condByName c) lan (es_table es) wans) (MkLower p prioSrcBase 0 ∅) (Config.n_Forward c) in
  Ok (lo_plan s).
End files.
