(* ===== verification/KernelPolicy.v ===== *)
(** * The kernel implements the forwarding policy

    KernelNode.v's [lower] emits `ip rule` and `ip route` command lines.  Here
    they are read back as the kernel reads them: rules in order of priority, each
    consulting a routing table.  For a validated node the packet's next hop is that
    of the egress the configured policy names. *)

From stdpp Require Import sorting.
From S2P Require Import Prelude GoBytes GoStrings NetIp Config Http Factory Node NetText KernelNode.
Local Open Scope Z_scope.
Local Open Scope string_scope.
Local Open Scope go_scope.

(** ** Reading the command lines *)

(** A routing rule: its priority, the source prefix it selects (all without one),
    the table it consults, and whether that table's default route counts. *)
Record ipRule := MkRule { k_prio : Z; k_from : option string; k_table : string; k_suppress : bool }.

Definition parseSelector (rest : argv) : option (option string * string * bool) :=
  match rest with
  | [l; t] => if l =? "lookup" then Some (None, t, false) else None
  | [f; c; l; t] => if (f =? "from") && (l =? "lookup") then Some (if c =? "all" then None else Some c, t, false) else None
  | [f; c; l; t; s; z] =>
      if (f =? "from") && (l =? "lookup") && (s =? "suppress_prefixlength") && (z =? "0")
      then Some (if c =? "all" then None else Some c, t, true) else None
  | _ => None
  end.

Definition parseRule (a : argv) : option ipRule :=
  match a with
  | ip :: rule :: add :: priority :: p :: rest =>
      if (ip =? "ip") && (rule =? "rule") && (add =? "add") && (priority =? "priority") then
        p ← atoi p; '(f, t, s) ← parseSelector rest; Some (MkRule p f t s)
      else None
  | _ => None
  end.

(** A route of a numbered table: destination, gateway ("" for none), device. *)
Record ipRoute := MkIpRoute { rt_dst : string; rt_gw : string; rt_dev : string; rt_table : string }.

Definition parseHop (rest : argv) : option (string * string * string) :=
  match rest with
  | [d; dev; t; table] => if (d =? "dev") && (t =? "table") then Some ("", dev, table) else None
  | [v; gw; d; dev; t; table] => if (v =? "via") && (d =? "dev") && (t =? "table") then Some (gw, dev, table) else None
  | _ => None
  end.

Definition parseRoute (a : argv) : option ipRoute :=
  match a with
  | ip :: route :: add :: dst :: rest =>
      if (ip =? "ip") && (route =? "route") && (add =? "add") then
        '(gw, dev, table) ← parseHop rest; Some (MkIpRoute dst gw dev table)
      else None
  | _ => None
  end.

(** The kernel keeps the rules by priority, a new one after its equals. *)
Fixpoint insertRule (r : ipRule) (l : list ipRule) : list ipRule :=
  match l with [] => [r] | x :: l' => if (k_prio r <? k_prio x)%Z then r :: l else x :: insertRule r l' end.
Definition kernelOrder (l : list ipRule) : list ipRule := fold_left (λ acc r, insertRule r acc) l [].

Inductive verdict := ViaMain | Hop (gw dev : string).

Section kernel.
Context (readFile : string → option string).
(** Addresses and whether the textual prefix [p] contains one; [best] is the
    route the kernel picks among those that cover a destination. *)
Context {A : Type} (covers : string → A → bool).
Context (best : list ipRoute → option ipRoute).
(** [best] picks one of the routes offered, when there is one. *)
Hypothesis best_in : ∀ l r, best l = Some r → r ∈ l.
Hypothesis best_some : ∀ l, l ≠ [] → is_Some (best l).

Definition routeCovers (dst : A) (r : ipRoute) : bool := (rt_dst r =? "default") || covers (rt_dst r) dst.
Definition tableRoute (routes : list ipRoute) (t : string) (dst : A) : option ipRoute :=
  best (base.filter (λ r, (rt_table r =? t) && routeCovers dst r = true) routes).

Definition selects (src : A) (r : ipRule) : bool := match k_from r with None => true | Some c => covers c src end.

(** [mainHit]: a route of the main table other than its default covers [dst]. *)
Fixpoint walkRules (routes : list ipRoute) (mainHit : bool) (src dst : A) (rules : list ipRule) : option verdict :=
  match rules with
  | [] => None
  | r :: rules' =>
      if selects src r then
        if k_table r =? "main" then if mainHit then Some ViaMain else walkRules routes mainHit src dst rules'
        else match tableRoute routes (k_table r) dst with
             | Some x => Some (Hop (rt_gw x) (rt_dev x))
             | None => walkRules routes mainHit src dst rules'
             end
      else walkRules routes mainHit src dst rules'
  end.

(** The routes [loadGeo] adds for one destination set. *)
Definition geoRoutes (g : geoBinding) : list argv :=
  match readPrefixes readFile (gb_set g) with
  | Ok l => map (λ p, geoRoute p (gb_wan g) (gb_table g)) l
  | Err _ => []
  end.

Definition planRoutes (p : plan) : list ipRoute := omap parseRoute (p_tableRoutes p ++ concat (map geoRoutes (p_geo p)))%list.
Definition forwards (p : plan) (mainHit : bool) (src dst : A) : option verdict :=
  walkRules (planRoutes p) mainHit src dst (kernelOrder (omap parseRule (p_rules p))).

(** ** The policy, as the configuration states it: the first branch whose
    condition holds selects the egress *)

Definition inSet (s : Config.IPSet) (a : A) : bool :=
  match readPrefixes readFile s with Ok l => existsb (λ p, covers p a) l | Err _ => false end.

Definition condHolds (d : Config.Condition) (src dst : A) : bool :=
  match Config.d_SrcIn d, Config.d_DstIn d with
  | Some s, _ => inSet s src
  | None, Some s => inSet s dst
  | None, None => false
  end.

Fixpoint policyEgress (conds : gmap string Config.Condition) (src dst : A) (fs : list Config.Forward) : option string :=
  match fs with
  | [] => None
  | f :: fs' =>
      match Config.f_When f with
      | [] => Some (Config.f_Egress f)
      | w :: _ => if condHolds (default zeroCondition (conds !! w)) src dst then Some (Config.f_Egress f) else policyEgress conds src dst fs'
      end
  end.

(** ** Lemmas: reading back what was emitted *)

Lemma atoi_Itoa n : (0 ≤ n < 2 ^ 63)%Z → atoi (Itoa n) = Some n.
Proof. intros. unfold Itoa. destruct (n <? 0)%Z eqn:E; [apply Z.ltb_lt in E; lia|]. by apply atoi_itoa. Qed.

Lemma Itoa_inj a b : (0 ≤ a < 2 ^ 63)%Z → (0 ≤ b < 2 ^ 63)%Z → Itoa a = Itoa b → a = b.
Proof. intros Ha Hb H. apply atoi_Itoa in Ha, Hb. congruence. Qed.

Lemma Itoa_not_main n : (0 ≤ n < 2 ^ 63)%Z → (Itoa n =? "main") = false.
Proof. intros Hn%atoi_Itoa. apply String.eqb_neq. intros H. rewrite H in Hn. vm_compute in Hn. done. Qed.

Lemma parseRule_from prio c t :
  (0 ≤ prio < 2 ^ 63)%Z → c ≠ "all" → parseRule (ruleFrom prio c t) = Some (MkRule prio (Some c) (Itoa t) false).
Proof. intros Hp Hc. cbn -[Itoa atoi]. rewrite atoi_Itoa by done. cbn -[Itoa]. apply String.eqb_neq in Hc. by rewrite Hc. Qed.

Lemma parseRule_lookup prio t :
  (0 ≤ prio < 2 ^ 63)%Z → parseRule (ruleLookup prio "" t) = Some (MkRule prio None (Itoa t) false).
Proof. intros Hp. cbn -[Itoa atoi]. by rewrite atoi_Itoa. Qed.

Lemma parseRoute_default w t : parseRoute (defaultRoute w t) = Some (MkIpRoute "default" (wn_gw w) (wn_dev w) (Itoa t)).
Proof. unfold defaultRoute, via. destruct (String.eqb_spec (wn_gw w) "") as [->|_]; reflexivity. Qed.

Lemma parseRoute_geo p w t : parseRoute (geoRoute p w t) = Some (MkIpRoute p (wn_gw w) (wn_dev w) (Itoa t)).
Proof. unfold geoRoute, via. destruct (String.eqb_spec (wn_gw w) "") as [->|_]; reflexivity. Qed.

Lemma elem_of_append (a b : string) c : c ∈ chars b → c ∈ chars (a +:+ b).
Proof. intros H. rewrite chars_app. apply elem_of_app. by right. Qed.

(** Every prefix a set is read into has a slash. *)
Lemma readPrefixes_slash s l : readPrefixes readFile s = Ok l → Forall (λ p, "/"%char ∈ chars p) l.
Proof.
  unfold readPrefixes. intros (raw & _ & H)%res_bind_ok. revert l H. induction raw as [|x raw IH]; intros l H; cbn in H; [simplify_eq; constructor|].
  apply res_bind_ok in H as (y & Hy & H). apply res_bind_ok in H as (ys & Hys & H). injection H as <-. constructor; [|by apply IH].
  assert (∀ p, "/"%char ∈ chars (prefixString p)) as Hp. { intros p. apply elem_of_append. cbn. left. }
  unfold normalizePrefix in Hy. destruct (Config.containsSlash x).
  - destruct (ParsePrefix x); [|done]. injection Hy as <-. apply Hp.
  - destruct (ParseAddr x); [|done]. injection Hy as <-. apply Hp.
Qed.

Lemma insertRule_last r l : Forall (λ x, k_prio x ≤ k_prio r)%Z l → insertRule r l = (l ++ [r])%list.
Proof.
  induction 1 as [|x l Hx _ IH]; [done|]. cbn [insertRule app]. destruct (k_prio r <? k_prio x)%Z eqn:E; [apply Z.ltb_lt in E; lia|]. by rewrite IH.
Qed.

Lemma kernelOrder_sorted l : StronglySorted (λ a b, k_prio a ≤ k_prio b)%Z l → kernelOrder l = l.
Proof.
  enough (∀ acc, StronglySorted (λ a b, k_prio a ≤ k_prio b)%Z (acc ++ l)%list → fold_left (λ acc r, insertRule r acc) l acc = (acc ++ l)%list) as H
    by exact (H []).
  induction l as [|r l IH]; intros acc Hs; [by rewrite app_nil_r|].
  cbn [fold_left]. rewrite insertRule_last.
  - rewrite IH; [by rewrite <- app_assoc|by rewrite <- app_assoc].
  - apply Forall_forall. intros x Hx.
    refine (StronglySorted_app_1_elem_of (λ a b, k_prio a ≤ k_prio b)%Z acc (r :: l) x r Hs Hx _). left.
Qed.


(** ** Lemmas: what the loops emit *)

Definition wanOf (wans : gmap string wan) (name : string) : wan := default zeroWan (wans !! name).

Record egress_inv (wans : gmap string wan) (seen : list string) (s : egressState) : Prop := {
  ei_index : es_index s = zlen seen;
  ei_routes : p_tableRoutes (es_plan s) = imap (λ i name, defaultRoute (wanOf wans name) (tableEgressBase + Z.of_nat i)) seen;
  ei_rules : p_rules (es_plan s) = [];
  ei_geo : p_geo (es_plan s) = [];
  ei_table : ∀ name, name ∈ seen → ∃ i, seen !! i = Some name ∧ es_table s !! name = Some (tableEgressBase + Z.of_nat i)%Z;
}.

Lemma egressStep_inv lans wans seen s name s' :
  egress_inv wans seen s → egressStep lans wans s name = Ok s' → egress_inv wans (seen ++ [name])%list s'.
Proof.
  intros [Hi Hr Hru Hg Ht] H.
  assert (∃ pinned main ipt tabs, s' = MkEgressState (es_index s + 1) (<[name := (tableEgressBase + es_index s)%Z]> (es_table s)) pinned
    (MkPlan tabs (p_tableRoutes (es_plan s) ++ [defaultRoute (wanOf wans name) (tableEgressBase + es_index s)])%list main (p_rules (es_plan s)) ipt (p_geo (es_plan s))))
    as (pinned & main & ipt & tabs & ->).
  { unfold egressStep in H. fold (wanOf wans name) in H. destruct (wn_ep (wanOf wans name)) as [ep|]; [|injection H as <-; by eexists _, _, _, _].
    destruct (es_pinned s !! u_ip ep); [rewrite Config.check_ok in H; destruct H as [_ H]|]; injection H as <-; by eexists _, _, _, _. }
  split; cbn; [rewrite Hi, zlen_app; unfold zlen; cbn; lia| |done|done|].
  - rewrite Hr, imap_app, Hi. cbn. unfold zlen. by rewrite Nat.add_0_r.
  - intros x [Hx|Hx%list_elem_of_singleton]%elem_of_app.
    + destruct (decide (x = name)) as [->|Hne].
      * exists (length seen). rewrite lookup_app_r, Nat.sub_diag by done. split; [done|]. rewrite lookup_insert_eq, Hi. done.
      * destruct (Ht x Hx) as (i & Hl & Hm). exists i. split; [by apply lookup_app_l_Some|]. by rewrite lookup_insert_ne.
    + subst x. exists (length seen). rewrite lookup_app_r, Nat.sub_diag by done. split; [done|]. rewrite lookup_insert_eq, Hi. done.
Qed.

(** The prefixes of a source branch, as [lower] read them. *)
Definition branchCond (conds : gmap string Config.Condition) (f : Config.Forward) : Config.Condition :=
  match Config.f_When f with [] => zeroCondition | w :: _ => default zeroCondition (conds !! w) end.
Definition branchIps (conds : gmap string Config.Condition) (f : Config.Forward) : list string :=
  match Config.d_SrcIn (branchCond conds f) with
  | Some set => match readPrefixes readFile set with Ok l => l | Err _ => [] end
  | None => []
  end.
Definition tableOf (egTable : gmap string Z) (f : Config.Forward) : Z := default 0 (egTable !! Config.f_Egress f).

(** The source rules: one per prefix of each branch, numbered in order. *)
Definition srcEntries (conds : gmap string Config.Condition) (egTable : gmap string Z) (fs : list Config.Forward) : list (string * Z) :=
  concat (map (λ f, map (λ ip, (ip, tableOf egTable f)) (branchIps conds f)) fs).
Definition srcRules (prio : Z) (ents : list (string * Z)) : list argv := imap (λ i '(ip, t), ruleFrom (prio + Z.of_nat i) ip t) ents.

Lemma srcRules_app prio a b : srcRules prio (a ++ b) = (srcRules prio a ++ srcRules (prio + zlen a) b)%list.
Proof. unfold srcRules. rewrite imap_app. f_equal. apply imap_ext. intros i [ip t] _. cbn. f_equal. unfold zlen. lia. Qed.

(** The plan of [lo] with more rules and bindings and other routes of main. *)
Definition extends (lo lo' : lowerState) (rules : list argv) (geo : list geoBinding) (src dst : Z) : Prop :=
  p_tableRoutes (lo_plan lo') = p_tableRoutes (lo_plan lo) ∧
  p_rules (lo_plan lo') = (p_rules (lo_plan lo) ++ rules)%list ∧
  p_geo (lo_plan lo') = (p_geo (lo_plan lo) ++ geo)%list ∧
  lo_srcPrio lo' = (lo_srcPrio lo + src)%Z ∧ lo_dstIdx lo' = (lo_dstIdx lo + dst)%Z.

Lemma srcStep_extends lan table lo ip : extends lo (srcStep lan table lo ip) [ruleFrom (lo_srcPrio lo) ip table] [] 1 0.
Proof. unfold srcStep, extends. destruct (negb _ && _); cbn; rewrite app_nil_r; repeat split; lia. Qed.

Lemma srcSteps_extends lan table ips lo :
  extends lo (fold_left (srcStep lan table) ips lo) (srcRules (lo_srcPrio lo) (map (λ ip, (ip, table)) ips)) [] (zlen ips) 0.
Proof.
  revert lo. induction ips as [|ip ips IH]; intros lo; cbn [fold_left].
  - unfold extends, zlen. cbn. rewrite !app_nil_r. repeat split; lia.
  - destruct (srcStep_extends lan table lo ip) as (H1 & H2 & H3 & H4 & H5).
    destruct (IH (srcStep lan table lo ip)) as (I1 & I2 & I3 & I4 & I5). unfold extends.
    change (map _ (ip :: ips)) with ([(ip, table)] ++ map (λ ip, (ip, table)) ips)%list. rewrite srcRules_app.
    rewrite I1, I2, I3, I4, I5, H1, H2, H3, H4, H5, !app_nil_r, <- app_assoc. unfold zlen. cbn [length map srcRules imap app]. rewrite Z.add_0_r.
    repeat split; lia.
Qed.

Lemma extends_trans a b c r1 r2 g1 g2 s1 s2 d1 d2 :
  extends a b r1 g1 s1 d1 → extends b c r2 g2 s2 d2 → extends a c (r1 ++ r2)%list (g1 ++ g2)%list (s1 + s2) (d1 + d2).
Proof.
  intros (H1 & H2 & H3 & H4 & H5) (I1 & I2 & I3 & I4 & I5). unfold extends. rewrite I1, I2, I3, I4, I5, H1, H2, H3, H4, H5, <- !app_assoc.
  repeat split; lia.
Qed.

Definition srcBranch (conds : gmap string Config.Condition) (f : Config.Forward) : Prop :=
  f.(Config.f_When) ≠ [] ∧ is_Some (Config.d_SrcIn (branchCond conds f)).
Definition dstBranch (conds : gmap string Config.Condition) (f : Config.Forward) : Prop :=
  f.(Config.f_When) ≠ [] ∧ Config.d_SrcIn (branchCond conds f) = None ∧ is_Some (Config.d_DstIn (branchCond conds f)).

Definition dstSet (conds : gmap string Config.Condition) (f : Config.Forward) : Config.IPSet :=
  default (Config.MkIPSet "" [] 0) (Config.d_DstIn (branchCond conds f)).
Definition dstRules (from : Z) (fs : list Config.Forward) : list argv :=
  imap (λ i _, ruleLookup (prioDstBase + from + Z.of_nat i) "" (tableGeoBase + from + Z.of_nat i)) fs.
Definition dstGeo (conds : gmap string Config.Condition) (wans : gmap string wan) (from : Z) (fs : list Config.Forward) : list geoBinding :=
  imap (λ i f, MkGeo (List.hd "" (Config.f_When f)) (dstSet conds f) (tableGeoBase + from + Z.of_nat i) (wanOf wans (Config.f_Egress f))) fs.

Lemma srcs_run conds lan egTable wans fs lo lo' :
  Forall (srcBranch conds) fs → Config.rangeM (forwardStep readFile conds lan egTable wans) lo fs = Ok lo' →
  extends lo lo' (srcRules (lo_srcPrio lo) (srcEntries conds egTable fs)) [] (zlen (srcEntries conds egTable fs)) 0.
Proof.
  intros Hf. revert lo. induction Hf as [|f fs [Hw [set Hs]] _ IH]; intros lo H; cbn [Config.rangeM] in H.
  { injection H as <-. unfold extends. cbn. rewrite !app_nil_r. unfold zlen. cbn. repeat split; lia. }
  apply res_bind_ok in H as (lo1 & H1 & H). apply IH in H. unfold forwardStep in H1. unfold branchCond in Hs.
  destruct (Config.f_When f) as [|w ws] eqn:Hfw; [done|]. rewrite Hs in H1. apply res_bind_ok in H1 as (ips & Hips & H1). injection H1 as <-.
  assert (srcEntries conds egTable (f :: fs) = (map (λ ip, (ip, tableOf egTable f)) ips ++ srcEntries conds egTable fs)%list) as ->.
  { unfold srcEntries. cbn [map concat]. unfold branchIps, branchCond. by rewrite Hfw, Hs, Hips. }
  pose proof (srcSteps_extends lan (tableOf egTable f) ips lo) as H1. pose proof (extends_trans _ _ _ _ _ _ _ _ _ _ _ H1 H) as H2.
  rewrite srcRules_app, zlen_app. destruct H1 as (_ & _ & _ & Hp & _). unfold tableOf in *. rewrite Hp in H2. unfold zlen in *. rewrite length_map. exact H2.
Qed.

Lemma dsts_run conds lan egTable wans fs lo lo' :
  Forall (dstBranch conds) fs → Config.rangeM (forwardStep readFile conds lan egTable wans) lo fs = Ok lo' →
  extends lo lo' (dstRules (lo_dstIdx lo) fs) (dstGeo conds wans (lo_dstIdx lo) fs) 0 (zlen fs).
Proof.
  intros Hf. revert lo. induction Hf as [|f fs (Hw & Hs & [set Hd]) _ IH]; intros lo H; cbn [Config.rangeM] in H.
  { injection H as <-. unfold extends. cbn. rewrite !app_nil_r. unfold zlen. cbn. repeat split; lia. }
  apply res_bind_ok in H as (lo1 & H1 & H). apply IH in H. unfold forwardStep in H1. unfold branchCond in Hs, Hd.
  destruct (Config.f_When f) as [|w ws] eqn:Hfw; [done|]. rewrite Hs, Hd in H1. injection H1 as <-. cbn [lo_dstIdx] in H.
  match type of H with extends ?l _ _ _ _ _ => assert (extends lo l (dstRules (lo_dstIdx lo) [f]) (dstGeo conds wans (lo_dstIdx lo) [f]) 0 1) as H1 end.
  2: { pose proof (extends_trans _ _ _ _ _ _ _ _ _ _ _ H1 H) as H2. clear -H2. unfold zlen in *. cbn [length]. 
    replace (Z.of_nat (S (length fs))) with (1 + Z.of_nat (length fs))%Z by lia.
    assert (dstRules (lo_dstIdx lo) (f :: fs) = (dstRules (lo_dstIdx lo) [f] ++ dstRules (lo_dstIdx lo + 1) fs)%list) as ->.
    { unfold dstRules. cbn [imap app]. f_equal. apply imap_ext. intros i x _. unfold compose. rewrite Nat2Z.inj_succ. f_equal; lia. }
    assert (dstGeo conds wans (lo_dstIdx lo) (f :: fs) = (dstGeo conds wans (lo_dstIdx lo) [f] ++ dstGeo conds wans (lo_dstIdx lo + 1) fs)%list) as ->.
    { unfold dstGeo. cbn [imap app]. f_equal. apply imap_ext. intros i x _. unfold compose. rewrite Nat2Z.inj_succ. f_equal; lia. }
    exact H2. }
  unfold extends, dstRules, dstGeo, dstSet, branchCond. cbn [imap lo_plan lo_srcPrio lo_dstIdx p_tableRoutes p_rules p_geo addRules]. rewrite Hfw, Hd. cbn [default List.hd].
  rewrite !Z.add_0_r. repeat split; lia.
Qed.

Definition dstIpRules (k : Z) (fs : list Config.Forward) : list ipRule :=
  imap (λ i _, MkRule (prioDstBase + k + Z.of_nat i) None (Itoa (tableGeoBase + k + Z.of_nat i)) false) fs.

Lemma dstIpRules_cons k f fs :
  dstIpRules k (f :: fs) = MkRule (prioDstBase + k) None (Itoa (tableGeoBase + k)) false :: dstIpRules (k + 1) fs.
Proof.
  unfold dstIpRules. cbn [imap]. rewrite !Z.add_0_r. f_equal. apply imap_ext. intros i x _. unfold compose. rewrite Nat2Z.inj_succ.
  f_equal; [lia|]. f_equal. lia.
Qed.

(** ** Lemmas: the routing tables *)

Section tables.
Context (wans : gmap string wan) (conds : gmap string Config.Condition).
(** The plan's egresses and destination branches, with few enough egresses that
    the two ranges of table numbers do not meet. *)
Context (p : plan) (names : list string) (dsts : list Config.Forward).
Hypothesis few_egresses : (length names ≤ 50)%nat.
Hypothesis few_dsts : (length dsts ≤ 1000)%nat.
Hypothesis plan_routes : p_tableRoutes p = imap (λ i name, defaultRoute (wanOf wans name) (tableEgressBase + Z.of_nat i)) names.
Hypothesis plan_geo : p_geo p = dstGeo conds wans 0 dsts.

Lemma planRoutes_elem r :
  r ∈ planRoutes p ↔
  (∃ i e, names !! i = Some e ∧ r = MkIpRoute "default" (wn_gw (wanOf wans e)) (wn_dev (wanOf wans e)) (Itoa (tableEgressBase + Z.of_nat i))) ∨
  (∃ j f l pfx, dsts !! j = Some f ∧ readPrefixes readFile (dstSet conds f) = Ok l ∧ pfx ∈ l ∧
     r = MkIpRoute pfx (wn_gw (wanOf wans (Config.f_Egress f))) (wn_dev (wanOf wans (Config.f_Egress f))) (Itoa (tableGeoBase + Z.of_nat j))).
Proof.
  unfold planRoutes. rewrite list_elem_of_omap. rewrite plan_routes, plan_geo. split.
  - intros (a & [Ha|Ha]%elem_of_app & Hr).
    + apply elem_of_lookup_imap in Ha as (i & e & -> & Hi). rewrite parseRoute_default in Hr. injection Hr as <-. left. by exists i, e.
    + apply list_elem_of_In, in_concat in Ha as (l & Hl & Ha). apply in_map_iff in Hl as (g & <- & Hg). apply list_elem_of_In in Hg, Ha.
      apply elem_of_lookup_imap in Hg as (j & f & -> & Hj). unfold geoRoutes in Ha. cbn [gb_set gb_wan gb_table] in Ha.
      destruct (readPrefixes readFile (dstSet conds f)) as [l|] eqn:Hl; [|by apply elem_of_nil in Ha].
      apply list_elem_of_fmap in Ha as (pfx & -> & Hp). rewrite parseRoute_geo in Hr. injection Hr as <-. right. exists j, f, l, pfx.
      by rewrite Z.add_0_r.
  - intros [(i & e & Hi & ->)|(j & f & l & pfx & Hj & Hl & Hp & ->)].
    + eexists. split; [|apply parseRoute_default]. apply elem_of_app. left. apply elem_of_lookup_imap. by exists i, e.
    + eexists. split; [|apply parseRoute_geo]. apply elem_of_app. right. apply list_elem_of_In, in_concat. eexists. split.
      * apply in_map_iff. eexists. split; [reflexivity|]. apply list_elem_of_In, elem_of_lookup_imap. by exists j, f.
      * apply list_elem_of_In. unfold geoRoutes. cbn [gb_set gb_wan gb_table]. rewrite Hl. apply list_elem_of_fmap. exists pfx. by rewrite Z.add_0_r.
Qed.

(** The route the kernel finds in a table is one of that table's covering
    routes, and it finds one if there is one. *)
Lemma tableRoute_spec t dst :
  match tableRoute (planRoutes p) t dst with
  | Some r => r ∈ planRoutes p ∧ rt_table r = t ∧ routeCovers dst r = true
  | None => ∀ r, r ∈ planRoutes p → rt_table r = t → routeCovers dst r = false
  end.
Proof.
  unfold tableRoute. destruct (best _) as [r|] eqn:Hb.
  - apply best_in, list_elem_of_filter in Hb as [Hb Hin]. apply andb_true_iff in Hb as [Hb Hc]. by apply String.eqb_eq in Hb.
  - intros r Hr Ht. destruct (routeCovers dst r) eqn:Hc; [|done]. destruct (best_some (base.filter (λ r, (rt_table r =? t) && routeCovers dst r = true) (planRoutes p))) as [x Hx]; [|congruence].
    assert (r ∈ base.filter (λ r, (rt_table r =? t) && routeCovers dst r = true) (planRoutes p)) as Hin.
    { apply list_elem_of_filter. split; [|done]. by rewrite Ht, String.eqb_refl, Hc. }
    intros Hn. rewrite Hn in Hin. by apply elem_of_nil in Hin.
Qed.

Definition hopOf (e : string) : verdict := Hop (wn_gw (wanOf wans e)) (wn_dev (wanOf wans e)).
Definition tableHop (t : string) (dst : A) : option verdict := (λ r, Hop (rt_gw r) (rt_dev r)) <$> tableRoute (planRoutes p) t dst.

Lemma tableHop_egress i e dst : names !! i = Some e → tableHop (Itoa (tableEgressBase + Z.of_nat i)) dst = Some (hopOf e).
Proof.
  intros Hi. pose proof (lookup_lt_Some _ _ _ Hi) as Hlt. unfold tableHop. pose proof (tableRoute_spec (Itoa (tableEgressBase + Z.of_nat i)) dst) as H.
  unfold tableEgressBase, tableGeoBase in *. destruct (tableRoute _ _ dst) as [r|].
  - destruct H as (Hr & Ht & _). apply planRoutes_elem in Hr as [(k & x & Hk & ->)|(j & f & l & pfx & Hj & _ & _ & ->)]; cbn in Ht.
    + pose proof (lookup_lt_Some _ _ _ Hk). apply Itoa_inj in Ht; [|unfold tableEgressBase; lia..]. unfold tableEgressBase in Ht. assert (k = i) as -> by lia. rewrite Hi in Hk. by injection Hk as ->.
    + pose proof (lookup_lt_Some _ _ _ Hj). apply Itoa_inj in Ht; unfold tableGeoBase in *; lia.
  - specialize (H (MkIpRoute "default" (wn_gw (wanOf wans e)) (wn_dev (wanOf wans e)) (Itoa (300 + Z.of_nat i)))).
    discriminate H; [|done]. apply planRoutes_elem. left. by exists i, e.
Qed.

Lemma tableHop_geo j f dst : dsts !! j = Some f →
  tableHop (Itoa (tableGeoBase + Z.of_nat j)) dst = if inSet (dstSet conds f) dst then Some (hopOf (Config.f_Egress f)) else None.
Proof.
  intros Hj. pose proof (lookup_lt_Some _ _ _ Hj) as Hlt. unfold tableHop. pose proof (tableRoute_spec (Itoa (tableGeoBase + Z.of_nat j)) dst) as H.
  destruct (tableRoute _ _ dst) as [r|].
  - destruct H as (Hr & Ht & Hc). apply planRoutes_elem in Hr as [(k & x & Hk & ->)|(i & g & l & pfx & Hi & Hl & Hp & ->)]; cbn in Ht.
    + pose proof (lookup_lt_Some _ _ _ Hk). apply Itoa_inj in Ht; unfold tableEgressBase, tableGeoBase in *; lia.
    + pose proof (lookup_lt_Some _ _ _ Hi). apply Itoa_inj in Ht; [|unfold tableGeoBase; lia..]. assert (i = j) as -> by lia.
      rewrite Hj in Hi. injection Hi as <-. pose proof (readPrefixes_slash _ _ Hl) as Hs. rewrite Forall_forall in Hs. specialize (Hs _ Hp).
      unfold routeCovers in Hc. cbn [rt_dst] in Hc. destruct (String.eqb_spec pfx "default") as [->|_]; [vm_compute in Hs; set_solver|].
      unfold inSet. rewrite Hl. assert (existsb (λ p, covers p dst) l = true) as -> by (apply existsb_exists; exists pfx; split; [by apply list_elem_of_In|done]). done.
  - unfold inSet. destruct (readPrefixes readFile (dstSet conds f)) as [l|] eqn:Hl; [|done].
    destruct (existsb (λ p, covers p dst) l) eqn:He; [|done]. apply existsb_exists in He as (pfx & Hp & Hc). apply list_elem_of_In in Hp.
    exfalso. specialize (H (MkIpRoute pfx (wn_gw (wanOf wans (Config.f_Egress f))) (wn_dev (wanOf wans (Config.f_Egress f))) (Itoa (tableGeoBase + Z.of_nat j)))).
    unfold routeCovers in H. cbn [rt_dst rt_table] in H. rewrite Hc, orb_true_r in H. discriminate H; [|done]. apply planRoutes_elem. right. by exists j, f, l, pfx.
Qed.

(** ** Lemmas: the walk over the rules *)

Local Abbreviation walk := (walkRules (planRoutes p) false).

Lemma walk_rule r rs src dst t : k_table r = Itoa t → (0 ≤ t < 2 ^ 63)%Z →
  walk src dst (r :: rs) = if selects src r then match tableHop (k_table r) dst with Some v => Some v | None => walk src dst rs end else walk src dst rs.
Proof.
  intros Ht Hr. cbn [walkRules]. rewrite Ht, (Itoa_not_main t Hr). destruct (selects src r); [|done]. unfold tableHop.
  by destruct (tableRoute _ _ dst).
Qed.

(** The rules of one source branch. *)
Lemma walk_branch t ips rs rest src dst v :
  Forall2 (λ r ip, k_from r = Some ip ∧ k_table r = Itoa t) rs ips → (0 ≤ t < 2 ^ 63)%Z → tableHop (Itoa t) dst = Some v →
  walk src dst (rs ++ rest)%list = if existsb (λ ip, covers ip src) ips then Some v else walk src dst rest.
Proof.
  intros H Ht Hv. induction H as [|r ip rs ips [Hf Hk] _ IH]; [done|]. cbn [app existsb]. rewrite (walk_rule r _ _ _ t) by done.
  unfold selects. rewrite Hf, Hk, Hv. by destruct (covers ip src).
Qed.

Lemma walk_srcs egTable srcs rs rest tl src dst :
  Forall (srcBranch conds) srcs →
  (∀ f, f ∈ srcs → tableHop (Itoa (tableOf egTable f)) dst = Some (hopOf (Config.f_Egress f)) ∧ (0 ≤ tableOf egTable f < 2 ^ 63)%Z) →
  Forall2 (λ r e, k_from r = Some e.1 ∧ k_table r = Itoa e.2) rs (srcEntries conds egTable srcs) →
  walk src dst rest = hopOf <$> policyEgress conds src dst tl →
  walk src dst (rs ++ rest)%list = hopOf <$> policyEgress conds src dst (srcs ++ tl)%list.
Proof.
  intros Hs. revert rs. induction Hs as [|f srcs [Hw [set Hset]] _ IH]; intros rs Ht Hrs Hrest.
  { apply Forall2_nil_inv_r in Hrs as ->. done. }
  unfold srcEntries in Hrs. cbn [map concat] in Hrs. apply Forall2_app_inv_r in Hrs as (rs1 & rs2 & H1 & H2 & ->). rewrite <- app_assoc.
  destruct (Ht f ltac:(left)) as [Hv Hr]. rewrite (walk_branch (tableOf egTable f) (branchIps conds f) _ _ _ _ _ ltac:(by apply Forall2_fmap_r in H1) Hr Hv).
  cbn [app policyEgress]. unfold branchIps, branchCond in *. destruct (Config.f_When f) as [|w ws]; [done|]. unfold condHolds. rewrite Hset. unfold inSet.
  rewrite (IH rs2 ltac:(intros g Hg; apply Ht; by right) H2 Hrest). destruct (readPrefixes readFile set); [|done]. by destruct (existsb _ _).
Qed.

Lemma walk_dsts pre fs rest tl src dst :
  dsts = (pre ++ fs)%list → Forall (dstBranch conds) fs →
  walk src dst rest = hopOf <$> policyEgress conds src dst tl →
  walk src dst (dstIpRules (zlen pre) fs ++ rest)%list = hopOf <$> policyEgress conds src dst (fs ++ tl)%list.
Proof.
  intros He Hd. revert pre He. induction Hd as [|f fs (Hw & Hs & [set Hset]) _ IH]; intros pre He Hrest; [done|].
  assert (dsts !! length pre = Some f) as Hj by (rewrite He, lookup_app_r, Nat.sub_diag by done; done).
  pose proof (lookup_lt_Some _ _ _ Hj). rewrite dstIpRules_cons. cbn [app].
  rewrite (walk_rule _ _ _ _ (tableGeoBase + zlen pre)) by (try done; unfold tableGeoBase, zlen; lia). cbn [selects k_from k_table].
  unfold zlen at 1. rewrite (tableHop_geo _ f _ Hj). specialize (IH (pre ++ [f])%list). rewrite zlen_app in IH. change (zlen [f]) with 1%Z in IH.
  rewrite IH; [|by rewrite <- app_assoc|done]. cbn [policyEgress]. unfold dstSet, branchCond in *.
  destruct (Config.f_When f) as [|w ws] eqn:Hfw; [by destruct Hw|]. unfold condHolds. rewrite Hs, Hset. cbn [default from_option]; unfold id. by destruct (inSet set dst).
Qed.
End tables.

(** ** Lemmas: a validated node's plan *)

(** The condition a branch of each kind names. *)
Definition kinds_of (conds : gmap string string) (by_name : gmap string Config.Condition) : Prop :=
  ∀ w k, conds !! w = Some k → ∃ d, by_name !! w = Some d ∧ (k = "src" → is_Some (Config.d_SrcIn d)) ∧
    (k = "dst" → Config.d_SrcIn d = None ∧ is_Some (Config.d_DstIn d)).

Lemma conditions_kinds cs conds :
  Config.rangeM Config.validateKernelCondition ∅ cs = Ok conds → kinds_of conds (fold_left (λ m d, <[Config.d_Name d := d]> m) cs ∅).
Proof.
  apply (Config.rangeM_prefix _ (λ seen conds, kinds_of conds (fold_left (λ m d, <[Config.d_Name d := d]> m) seen ∅))).
  2: { intros w k H. by rewrite lookup_empty in H. }
  intros seen m d m' IH H. rewrite fold_left_app. cbn [fold_left]. unfold Config.validateKernelCondition in H. rewrite !Config.check_ok in H.
  destruct H as (_ & _ & _ & H).
  assert (∃ k, m' = <[Config.d_Name d := k]> m ∧ (k = "src" → is_Some (Config.d_SrcIn d)) ∧ (k = "dst" → Config.d_SrcIn d = None ∧ is_Some (Config.d_DstIn d)))
    as (k & -> & Hk).
  { destruct (Config.d_DstIn d), (Config.d_SrcIn d); try done; apply res_bind_ok in H as (? & _ & H); injection H as <-; eexists; by repeat split. }
  intros w k' Hw. apply lookup_insert_Some in Hw as [[<- <-]|[Hne Hw]].
  - exists d. by rewrite lookup_insert_eq.
  - destruct (IH w k' Hw) as (d' & Hd & Hd'). exists d'. by rewrite lookup_insert_ne.
Qed.

Lemma policy_branches n conds fs :
  Config.rangeM Config.validateKernelCondition ∅ (Config.n_Conditions n) = Ok conds →
  Forall (Config.branch_on conds "src") fs → Forall (srcBranch (condByName n)) fs.
Proof.
  intros Hc Hf. eapply Forall_impl; [exact Hf|]. intros f (w & Hw & Hk). destruct (conditions_kinds _ _ Hc _ _ Hk) as (d & Hd & Hs & _).
  unfold srcBranch, branchCond. fold (condByName n) in Hd. rewrite Hw, Hd. split; [done|]. by apply Hs.
Qed.

Lemma policy_dst_branches n conds fs :
  Config.rangeM Config.validateKernelCondition ∅ (Config.n_Conditions n) = Ok conds →
  Forall (Config.branch_on conds "dst") fs → Forall (dstBranch (condByName n)) fs.
Proof.
  intros Hc Hf. eapply Forall_impl; [exact Hf|]. intros f (w & Hw & Hk). destruct (conditions_kinds _ _ Hc _ _ Hk) as (d & Hd & _ & Hs).
  unfold dstBranch, branchCond. fold (condByName n) in Hd. rewrite Hw, Hd. split; [done|]. by apply Hs.
Qed.

(** [validateKernel]'s guards, as [lower] uses them. *)
Lemma validated_kernel n : Config.Validate n = Ok tt → Config.n_Datapath n = "kernel" →
  ∃ conds srcs dsts d, Config.rangeM Config.validateKernelCondition ∅ (Config.n_Conditions n) = Ok conds ∧
    Config.n_Forward n = (srcs ++ dsts ++ [d])%list ∧ Forall (srcBranch (condByName n)) srcs ∧ Forall (dstBranch (condByName n)) dsts ∧
    Config.f_When d = [] ∧ Forall (λ f, Config.f_Egress f ∈ egressNames n) (Config.n_Forward n).
Proof.
  intros Hv Hk. unfold Config.Validate in Hv. rewrite Hk, !Config.check_ok in Hv. destruct Hv as (_ & _ & Hv). cbn in Hv.
  unfold Config.validateKernel in Hv. rewrite !Config.check_ok in Hv. destruct Hv as (_ & _ & _ & Hv).
  apply res_bind_ok in Hv as (_ & _ & Hv). apply res_bind_ok in Hv as (conds & Hc & Hv).
  apply (Config.policy_exact n conds Hc) in Hv as (Hall & srcs & dsts & d & He & Hs & Hd & Hw).
  exists conds, srcs, dsts, d. repeat split; try done; [by eapply policy_branches|by eapply policy_dst_branches|].
  eapply Forall_impl; [exact Hall|]. intros f [_ [eg Heg]]. unfold egressNames. rewrite Config.sortStrings_perm.
  apply list_elem_of_In, in_map_iff. exists (Config.f_Egress f, eg). split; [done|]. by apply list_elem_of_In, elem_of_map_to_list.
Qed.

Definition srcIpRules (k : Z) (ents : list (string * Z)) : list ipRule :=
  imap (λ i e, MkRule (k + Z.of_nat i) (Some e.1) (Itoa e.2) false) ents.

Lemma srcEntries_slash conds egTable fs : Forall (λ e, "/"%char ∈ chars e.1) (srcEntries conds egTable fs).
Proof.
  unfold srcEntries. apply Forall_concat. rewrite Forall_map. apply Forall_true. intros f. cbn. rewrite Forall_map.
  unfold branchIps. destruct (Config.d_SrcIn _) as [set|]; [|constructor]. destruct (readPrefixes readFile set) as [l|] eqn:Hl; [|constructor].
  by apply readPrefixes_slash in Hl.
Qed.

Lemma parse_src prio ents : (0 ≤ prio)%Z → (prio + zlen ents < 2 ^ 63)%Z → Forall (λ e, "/"%char ∈ chars e.1) ents →
  omap parseRule (srcRules prio ents) = srcIpRules prio ents.
Proof.
  intros H0 Hb Hs. revert prio H0 Hb. induction Hs as [|[ip t] ents Hip _ IH]; intros prio H0 Hb; [done|].
  change ((ip, t) :: ents) with ([(ip, t)] ++ ents)%list in *. rewrite srcRules_app, zlen_app in *. unfold zlen in *. cbn [length] in Hb.
  rewrite omap_app, IH by (cbn [length]; lia). unfold srcRules, srcIpRules. cbn [imap app omap list_omap]. rewrite parseRule_from.
  - cbn [app]. f_equal. apply imap_ext. intros i e _. unfold compose. rewrite Nat2Z.inj_succ. f_equal. cbn [length]. lia.
  - lia.
  - intros ->. cbn in Hip. set_solver.
Qed.

Lemma parse_dst k fs : (0 ≤ k)%Z → (k + zlen fs < 2 ^ 62)%Z → omap parseRule (dstRules k fs) = dstIpRules k fs.
Proof.
  revert k. induction fs as [|f fs IH]; intros k H0 Hb; [done|]. rewrite dstIpRules_cons, <- IH by (unfold zlen in *; cbn [length] in *; lia).
  unfold dstRules. cbn [imap]. cbn [omap list_omap]. rewrite !Z.add_0_r, parseRule_lookup by (unfold prioDstBase, zlen in *; lia). f_equal.
  apply (f_equal (omap parseRule)). apply imap_ext. intros i x _. unfold compose. rewrite Nat2Z.inj_succ. f_equal; lia.
Qed.

Local Abbreviation by_prio := (StronglySorted (λ a b, k_prio a ≤ k_prio b)%Z).

Lemma imap_sorted {B} base (f : nat → B → ipRule) l : (∀ i x, k_prio (f i x) = base + Z.of_nat i)%Z →
  by_prio (imap f l) ∧ Forall (λ r, base ≤ k_prio r < base + zlen l)%Z (imap f l).
Proof.
  revert base f. induction l as [|x l IH]; intros base f Hf; [split; constructor|]. cbn [imap].
  destruct (IH (base + 1)%Z (f ∘ S)) as [H1 H2]; [intros i y; cbn; rewrite Hf; lia|]. unfold zlen in *. cbn [length].
  assert (Forall (λ r, base ≤ k_prio r < base + Z.of_nat (S (length l)))%Z (imap (f ∘ S) l)) as H3.
  { eapply Forall_impl; [exact H2|]. cbn. lia. }
  split; apply Forall_cons || constructor; [done| |].
  - eapply Forall_impl; [exact H3|]. cbn. intros r. rewrite Hf. lia.
  - split; [rewrite Hf; lia|done].
Qed.

(** The rules of a plan, in the order the kernel keeps them: the emitted order. *)
Lemma rules_sorted ents (dsts : list Config.Forward) t : (zlen ents ≤ 1000)%Z → (zlen dsts ≤ 1000)%Z →
  by_prio (MkRule prioMain None "main" true :: srcIpRules prioSrcBase ents ++ dstIpRules 0 dsts ++ [MkRule prioDefault None t false])%list.
Proof.
  intros He Hd. destruct (imap_sorted prioSrcBase (λ i e, MkRule (prioSrcBase + Z.of_nat i) (Some e.1) (Itoa e.2) false) ents) as [S1 B1]; [done|].
  destruct (imap_sorted (prioDstBase + 0) (λ i (_ : Config.Forward), MkRule (prioDstBase + 0 + Z.of_nat i) None (Itoa (tableGeoBase + 0 + Z.of_nat i)) false) dsts) as [S2 B2]; [done|].
  fold (srcIpRules prioSrcBase ents) in S1, B1. fold (dstIpRules 0 dsts) in S2, B2. unfold prioMain, prioSrcBase, prioDstBase, prioDefault in *.
  rewrite Forall_forall in B1, B2. constructor.
  - apply StronglySorted_app_2; [|done|apply StronglySorted_app_2; [|done|by repeat constructor]].
    + intros a b Ha [Hb|Hb%list_elem_of_singleton]%elem_of_app; apply B1 in Ha; [apply B2 in Hb; lia|subst b; cbn; lia].
    + intros a b Ha Hb%list_elem_of_singleton. apply B2 in Ha. subst b. cbn. lia.
  - apply Forall_forall. intros b [Hb|[Hb|Hb%list_elem_of_singleton]%elem_of_app]%elem_of_app; [apply B1 in Hb|apply B2 in Hb|subst b]; cbn; lia.
Qed.

Lemma lower_shape n wans p srcs dsts d :
  lower readFile n wans = Ok p → Config.n_Forward n = (srcs ++ dsts ++ [d])%list → Forall (srcBranch (condByName n)) srcs →
  Forall (dstBranch (condByName n)) dsts → Config.f_When d = [] →
  ∃ egTable, let ents := srcEntries (condByName n) egTable srcs in
    p_tableRoutes p = imap (λ i name, defaultRoute (wanOf wans name) (tableEgressBase + Z.of_nat i)) (egressNames n) ∧
    p_geo p = dstGeo (condByName n) wans 0 dsts ∧
    p_rules p = (ruleMainSuppress prioMain :: srcRules prioSrcBase ents ++ dstRules 0 dsts ++ [ruleLookup prioDefault "" (tableOf egTable d)])%list ∧
    ∀ f, Config.f_Egress f ∈ egressNames n → ∃ i, egressNames n !! i = Some (Config.f_Egress f) ∧ tableOf egTable f = (tableEgressBase + Z.of_nat i)%Z.
Proof.
  intros H He Hs Hd Hw. unfold lower in H. apply res_bind_ok in H as (es & Hes & H). apply res_bind_ok in H as (s & Hr & H). injection H as <-.
  apply (Config.rangeM_prefix _ (egress_inv wans) _ _ _ (egressStep_inv _ _)) in Hes as [_ Hroutes Hrules Hgeo Htab].
  2: { split; try done. intros name Hn. by apply elem_of_nil in Hn. }
  rewrite He in Hr. apply Config.rangeM_split in Hr as (s1 & H1 & Hr). apply Config.rangeM_split in Hr as (s2 & H2 & Hr).
  apply srcs_run in H1; [|done]. apply dsts_run in H2; [|done].
  cbn [Config.rangeM] in Hr. unfold forwardStep in Hr. rewrite Hw in Hr. cbn [res_bind] in Hr. injection Hr as <-.
  exists (es_table es). intros ents. destruct H1 as (A1 & A2 & A3 & A4 & A5), H2 as (B1 & B2 & B3 & B4 & B5). rewrite Z.add_0_r in A5.
  cbn [lo_plan lo_dstIdx lo_srcPrio p_tableRoutes p_rules p_geo addRules] in *. rewrite A5 in B2, B3. split; [|split; [|split]].
  - by rewrite B1, A1.
  - by rewrite B3, A3, Hgeo.
  - rewrite B2, A2, Hrules. cbn [app]. by rewrite <- app_assoc.
  - intros f Hf. destruct (Htab _ Hf) as (i & Hi & Ht). exists i. split; [done|]. unfold tableOf. by rewrite Ht.
Qed.

(** The source prefixes a node's policy names. *)
Definition srcPrefixes (n : cfg) : list string := concat (map (branchIps (condByName n)) (Config.n_Forward n)).

Lemma srcEntries_length conds egTable fs : length (srcEntries conds egTable fs) = length (concat (map (branchIps conds) fs)).
Proof.
  unfold srcEntries. induction fs as [|f fs IH]; [done|]. cbn [map concat]. by rewrite !length_app, length_map, IH.
Qed.

(** What the kernel makes of the rules of a plan of this shape. *)
Lemma parsed_rules ents (dsts : list Config.Forward) t :
  (zlen ents ≤ 1000)%Z → (zlen dsts ≤ 1000)%Z → Forall (λ e, "/"%char ∈ chars e.1) ents →
  kernelOrder (omap parseRule (ruleMainSuppress prioMain :: srcRules prioSrcBase ents ++ dstRules 0 dsts ++ [ruleLookup prioDefault "" t])%list) =
  (MkRule prioMain None "main" true :: srcIpRules prioSrcBase ents ++ dstIpRules 0 dsts ++ [MkRule prioDefault None (Itoa t) false])%list.
Proof.
  intros He Hd Hs. rewrite <- (kernelOrder_sorted _ (rules_sorted ents dsts (Itoa t) He Hd)). f_equal. cbn [omap list_omap].
  assert (parseRule (ruleMainSuppress prioMain) = Some (MkRule prioMain None "main" true)) as -> by (vm_compute; reflexivity).
  f_equal. rewrite !omap_app, parse_src, parse_dst by (done || unfold prioSrcBase; lia).
  reflexivity.
Qed.

(** Claim C4.  A kernel node's policy routing implements its forwarding policy.
    For a validated kernel node whose configuration [lower] accepts, with at most
    50 egresses, 1000 branches and 1000 source prefixes, the `ip rule` and
    `ip route` commands it emits, read as the kernel reads them, send every packet
    that no specific route of the main table takes out of the egress that the
    first branch whose condition holds names (the default branch when none does),
    through that egress's gateway and device; a packet such a route does take
    follows the main table. *)
Theorem kernel_implements_policy n wans p src dst :
  Config.Validate n = Ok tt → Config.n_Datapath n = "kernel" → lower readFile n wans = Ok p →
  (length (egressNames n) ≤ 50)%nat → (length (Config.n_Forward n) ≤ 1000)%nat → (length (srcPrefixes n) ≤ 1000)%nat →
  forwards p true src dst = Some ViaMain ∧
  ∃ e, policyEgress (condByName n) src dst (Config.n_Forward n) = Some e ∧ forwards p false src dst = Some (hopOf wans e).
Proof.
  intros Hv Hk Hl Hne Hnf Hns. destruct (validated_kernel n Hv Hk) as (conds & srcs & dsts & d & Hc & He & Hs & Hd & Hw & Heg).
  destruct (lower_shape n wans p srcs dsts d Hl He Hs Hd Hw) as (egTable & Hroutes & Hgeo & Hrules & Htab).
  unfold srcPrefixes in Hns. rewrite He in Hnf, Hns, Heg. rewrite map_app, concat_app, !length_app in *. cbn [length] in Hnf.
  assert (zlen (srcEntries (condByName n) egTable srcs) ≤ 1000)%Z as Hents by (unfold zlen; rewrite srcEntries_length; lia).
  assert (zlen dsts ≤ 1000)%Z as Hdsts by (unfold zlen; lia).
  assert (∀ f, f ∈ (srcs ++ dsts ++ [d])%list → tableHop p (Itoa (tableOf egTable f)) dst = Some (hopOf wans (Config.f_Egress f)) ∧ (0 ≤ tableOf egTable f < 2 ^ 63)%Z) as Hhop.
  { intros f Hf. rewrite Forall_forall in Heg. destruct (Htab f (Heg f Hf)) as (i & Hi & ->). pose proof (lookup_lt_Some _ _ _ Hi). split.
    - apply (tableHop_egress wans (condByName n) p (egressNames n) dsts); (done || lia).
    - unfold tableEgressBase. lia. }
  unfold forwards. rewrite Hrules, (parsed_rules _ _ _ Hents Hdsts (srcEntries_slash _ _ _)). split; [reflexivity|].
  destruct (policyEgress (condByName n) src dst (Config.n_Forward n)) as [e|] eqn:Hp.
  2: { exfalso. rewrite He in Hp. clear -Hp Hw. induction srcs as [|f fs IH].
    - cbn [app] in Hp. induction dsts as [|f fs IH]; cbn [app policyEgress] in Hp; [by rewrite Hw in Hp|].
      destruct (Config.f_When f); [done|]. destruct (condHolds _ src dst); [done|by apply IH].
    - cbn [app policyEgress] in Hp. destruct (Config.f_When f); [done|]. destruct (condHolds _ src dst); [done|by apply IH]. }
  exists e. split; [done|]. change (Some (hopOf wans e)) with (hopOf wans <$> Some e). rewrite <- Hp, He.
  cbn [walkRules selects k_from k_table String.eqb Ascii.eqb Bool.eqb].
  apply (walk_srcs wans (condByName n) p) with (egTable := egTable); [done|intros f Hf; apply Hhop; by apply elem_of_app; left| |].
  { unfold srcIpRules. apply Forall2_same_length_lookup_2; [by rewrite length_imap|]. intros i r x Hr Hx. rewrite list_lookup_imap, Hx in Hr. by injection Hr as <-. }
  apply (walk_dsts wans (condByName n) p (egressNames n) dsts) with (pre := []); try done; [unfold zlen in Hdsts; lia|].
  assert (d ∈ (srcs ++ dsts ++ [d])%list) as Hin by (rewrite !elem_of_app, list_elem_of_singleton; auto).
  destruct (Hhop d Hin) as [Hh Hb]. etransitivity; [exact (walk_rule p (MkRule prioDefault None (Itoa (tableOf egTable d)) false) [] src dst (tableOf egTable d) eq_refl Hb)|]. cbn [selects k_from k_table policyEgress].
  by rewrite Hh, Hw.
Qed.

End kernel.

(** ** A concrete node *)

(** Membership of an address in a textual prefix, and the kernel's choice when
    all candidates are equally specific. *)
Definition prefixHas (p : string) (a : netipAddr) : bool :=
  match ParsePrefix p with Some (net, bits) => bool_decide (maskedAddr (a, bits) = net) | None => false end.

Definition policyDemo : Config.Node :=
  Config.MkNode "" 1360 "10.9.0.0/24" []
    {["dsl" := Config.demoEgress; "sat" := Config.MkEgress "kernel" "sat0" "" "" "" "" false]}
    [Config.MkCondition "lan" (Some (Config.MkIPSet "" ["10.0.0.0/8"; "192.0.2.7"] 0)) None None;
     Config.MkCondition "vip" None (Some (Config.MkIPSet "" ["10.1.2.3"] 0)) None] []
    "kernel" [Config.MkForward ["vip"] "sat"; Config.MkForward ["lan"] "dsl"; Config.MkForward [] "sat"] ["br0"] None 0 0 "" 10 10.
Definition demoWans : gmap string wan := {["dsl" := MkWan "eth0" "192.0.2.1" None; "sat" := MkWan "sat0" "" None]}.
Definition noFiles : string → option string := λ _, None.
Definition demoPlan : plan := match lower noFiles policyDemo demoWans with Ok p => p | Err _ => emptyPlan end.
Definition ip4 (a b c d : Z) : netipAddr := V4 [a; b; c; d].

(** The address 10.1.2.3 goes out of [sat] wherever it sends, another host's
    packet to 10.4.4.4 out of [dsl], and its packet to the rest out of [sat]. *)
Lemma kernel_implements_policy_witness :
  forwards noFiles prefixHas head demoPlan false (ip4 10 1 2 3) (ip4 10 4 4 4) = Some (Hop "" "sat0") ∧
  forwards noFiles prefixHas head demoPlan false (ip4 10 1 2 4) (ip4 10 4 4 4) = Some (Hop "192.0.2.1" "eth0") ∧
  ∃ e, policyEgress noFiles prefixHas (condByName policyDemo) (ip4 10 1 2 4) (ip4 10 9 9 9) (Config.n_Forward policyDemo) = Some e ∧
    forwards noFiles prefixHas head demoPlan false (ip4 10 1 2 4) (ip4 10 9 9 9) = Some (hopOf demoWans e).
Proof.
  split; [vm_compute; reflexivity|]. split; [vm_compute; reflexivity|].
  assert (∀ (l : list ipRoute) r, head l = Some r → r ∈ l) as Hin by (intros [|x l] r; [done|]; intros [= ->]; left).
  assert (∀ l : list ipRoute, l ≠ [] → is_Some (head l)) as Hsome by (intros [|x l]; [done|]; by eexists).
  apply (kernel_implements_policy noFiles prefixHas head Hin Hsome policyDemo demoWans demoPlan); try (vm_compute; reflexivity).
  all: apply Nat.leb_le; vm_compute; reflexivity.
Defined.
