(* ===== verification/KernelApply.v ===== *)
(** * Installing and removing a kernel node's plan

    run_linux.go's [apply], [loadGeo], the teardown chain and the reload of the
    destination sets, over any machine: an instance of [Machine] says what it
    holds, and [MachineLaws] is what iproute2, iptables and the ip_forward file
    promise ([RouteLaws]: what they promise of tables and forwarding).  The theorems
    follow what is installed: [apply] leaves every rule and route of the plan in place
    exactly once, the plan's tables with exactly its routes and forwarding on, its
    teardown removes them all and nothing else, and a failed [apply] leaves none of
    them behind. *)

From S2P Require Import Prelude GoBytes GoStrings NetIp Config Http Factory Node NetText KernelNode KernelPolicy.
Local Open Scope Z_scope.
Local Open Scope string_scope.
Local Open Scope go_scope.

(** ** Commands *)

(** What [apply] asks the machine to do: write the ip_forward file, run a
    command, feed `ip -batch -` one command line per element (the text is
    [batchText]). *)
Inductive op :=
| SetForward (v : string)
| Run (a : argv)
| Batch (lines : list argv).

Definition batchText (lines : list argv) : string := foldr (λ l acc, String.concat " " l +:+ String (ascii_of_nat 10) "" +:+ acc) "" lines.

(** What a command does, with an installed rule or route named by the command
    that deletes it. *)
Inductive effect :=
| EForward (v : string)
| EAdd (key : argv)
| EDel (key : argv)
| EFlush (table : string)
| EFill (tables : list string)
| ENone.

#[export] Instance op_eq_dec : EqDecision op.
Proof. solve_decision. Defined.
#[export] Instance effect_eq_dec : EqDecision effect.
Proof. solve_decision. Defined.

Definition hasFlag (a : argv) : bool := existsb (λ x, (x =? "-A") || (x =? "-I")) a.

(** An iptables command without its lock-wait option. *)
Definition unwait (a : argv) : argv :=
  match a with prog :: w :: rest => if w =? "-w" then prog :: rest else a | _ => a end.

Definition runEffect (a : argv) : effect :=
  match parseRoute a with
  | Some r => EFill [rt_table r]
  | None =>
      match a with
      | [] => ENone
      | prog :: rest =>
          if prog =? "ip" then
            match rest with
            | _ :: verb :: rest' =>
                if verb =? "flush" then match rest' with [_; t] => EFlush t | _ => ENone end
                else if verb =? "add" then EAdd (withVerb a "del")
                else if verb =? "del" then EDel a else ENone
            | _ => ENone
            end
          else if hasFlag (unwait a) then EAdd (flipAppendToDelete (unwait a))
          else if bool_decide ("-D" ∈ unwait a) then EDel (unwait a) else ENone
      end
  end.

Definition effectOf (o : op) : effect :=
  match o with
  | SetForward v => EForward v
  | Run a => runEffect a
  | Batch lines => EFill (omap (λ l, rt_table <$> parseRoute ("ip" :: l)) lines)
  end.

(** ** The machine *)

Class Machine (K : Type) := {
  exec : op → K → bool * K;
  (** The ip_forward file ("" when it cannot be read). *)
  forwarding : K → string;
  (** How many copies of the rule or route that [key] deletes are installed. *)
  copies : K → argv → nat;
  (** The routes of a numbered table. *)
  table : K → string → list argv;
}.

Class MachineLaws (K : Type) `{Machine K} := {
  exec_add o key k : effectOf o = EAdd key →
    let '(ok, k') := exec o k in
    copies k' key = (if ok : bool then S (copies k key) else copies k key) ∧ ∀ x, x ≠ key → copies k' x = copies k x;
  exec_del o key k : effectOf o = EDel key →
    copies (exec o k).2 key = pred (copies k key) ∧ ∀ x, x ≠ key → copies (exec o k).2 x = copies k x;
  exec_other o k : (∀ key, effectOf o ≠ EAdd key ∧ effectOf o ≠ EDel key) → ∀ x, copies (exec o k).2 x = copies k x;
  exec_flush o t k : effectOf o = EFlush t → table (exec o k).2 t = [];
  exec_batch lines k t : (exec (Batch lines) k).1 = true →
    table (exec (Batch lines) k).2 t = (table k t ++ base.filter (λ a, rt_table <$> parseRoute a = Some t) (map (cons "ip") lines))%list;
  exec_table o k t : effectOf o ≠ EFlush t → (∀ ts, effectOf o = EFill ts → t ∉ ts) → table (exec o k).2 t = table k t;
}.

(** The value of the ip_forward file, without the newline. *)
Definition forwardValue (text : string) : string := unchars (trimSpace (chars text)).

(** More of the same commands: `ip route add` appends its route to the table it
    names, what is written to the ip_forward file is read back, and no other
    command writes the file. *)
Class RouteLaws (K : Type) `{Machine K} := {
  exec_route a r k t : parseRoute a = Some r → (exec (Run a) k).1 = true →
    table (exec (Run a) k).2 t = (table k t ++ if decide (rt_table r = t) then [a] else [])%list;
  exec_forward v k : let '(ok, k') := exec (SetForward v) k in
    if ok : bool then forwardValue (forwarding k') = forwardValue v else forwarding k' = forwarding k;
  exec_unforward o k : (∀ v, effectOf o ≠ EForward v) → forwarding (exec o k).2 = forwarding k;
}.

(** ** run_linux.go *)

Section apply.
Context (readFile : string → option string).
Context {K : Type} `{MK : Machine K}.

(** The machine, what the probe for `iptables -w` answered once it ran, and the
    teardown chain. *)
Record world := MkWorld { w_k : K; w_wait : option bool; w_chain : list op }.

Definition run (o : op) (w : world) : bool * world :=
  let '(ok, k) := exec o (w_k w) in (ok, MkWorld k (w_wait w) (w_chain w)).
Definition addUndo (o : op) (w : world) : world := MkWorld (w_k w) (w_wait w) (w_chain w ++ [o]).

(** [chain.teardown]: the steps in reverse, past failures; whether none failed. *)
Definition undoAll (ops : list op) (k : K) : bool * K :=
  fold_left (λ '(ok, k) o, let '(ok', k') := exec o k in (ok && ok', k')) (rev ops) (true, k).
Definition teardown (w : world) : bool * world :=
  let '(ok, k) := undoAll (w_chain w) (w_k w) in (ok, MkWorld k (w_wait w) (w_chain w)).

Definition iptablesSupportsWait (w : world) : bool * world :=
  match w_wait w with
  | Some b => (b, w)
  | None => let '(ok, w) := run (Run ["iptables"; "-w"; "-t"; "filter"; "-S"]) w in (ok, MkWorld (w_k w) (Some ok) (w_chain w))
  end.
Definition iptablesCmd (rule : argv) (w : world) : argv * world :=
  let '(wait, w) := iptablesSupportsWait w in ((if wait : bool then "iptables" :: "-w" :: rule else "iptables" :: rule), w).

(** A loop whose body may fail. *)
Fixpoint loop {A} (body : A → world → bool * world) (l : list A) (w : world) : bool * world :=
  match l with
  | [] => (true, w)
  | x :: l' => let '(ok, w) := body x w in if ok : bool then loop body l' w else (false, w)
  end.

Definition enableForward (w : world) : bool * world :=
  let prev := forwardValue (forwarding (w_k w)) in
  if prev =? "1" then (true, w)
  else let '(ok, w) := run (SetForward "1") w in
       if ok then (true, if prev =? "" then w else addUndo (SetForward prev) w) else (false, w).

Definition flushTable (t : Z) (w : world) : bool * world :=
  let flush := Run ["ip"; "route"; "flush"; "table"; Itoa t] in (true, addUndo flush (run flush w).2).

(** Delete a leaked copy, add, and remember the deletion. *)
Definition replace (add del : argv) (w : world) : bool * world :=
  let w := (run (Run del) w).2 in
  let '(ok, w) := run (Run add) w in
  if ok then (true, addUndo (Run del) w) else (false, w).
Definition installIp (a : argv) : world → bool * world := replace a (withVerb a "del").
Definition installIptables (rule : argv) (w : world) : bool * world :=
  let '(del, w) := iptablesCmd (flipAppendToDelete rule) w in
  let '(add, w) := iptablesCmd rule w in replace add del w.

Definition loadGeo (g : geoBinding) (w : world) : bool * world :=
  let w := (run (Run ["ip"; "route"; "flush"; "table"; Itoa (gb_table g)]) w).2 in
  match readPrefixes readFile (gb_set g) with
  | Err _ => (false, w)
  | Ok [] => (true, w)
  | Ok l => run (Batch (map (λ p, List.tl (geoRoute p (gb_wan g) (gb_table g))) l)) w
  end.

Definition andThen (m n : world → bool * world) (w : world) : bool * world :=
  let '(ok, w) := m w in if ok then n w else (false, w).

Definition applySteps (p : plan) : world → bool * world :=
  andThen enableForward (andThen (loop flushTable (p_tables p)) (andThen (loop (λ a, run (Run a)) (p_tableRoutes p))
    (andThen (loop installIp (p_mainRoutes p)) (andThen (loop installIp (p_rules p))
    (andThen (loop installIptables (p_iptables p)) (loop loadGeo (p_geo p))))))).

(** On failure what was installed is torn down (nothing yet when the first step
    fails); on success the chain is the teardown [Run] defers. *)
Definition apply (p : plan) (w : world) : bool * world :=
  let '(ok, w) := applySteps p w in if ok then (true, w) else (false, (teardown w).2).

(** [watchReload]'s [reloadAll]: every set, past failures. *)
Definition reloadAll (p : plan) (w : world) : world := fold_left (λ w g, (loadGeo g w).2) (p_geo p) w.
(** ** Lemmas: what a plan's commands do *)

Definition ipAdd (a : argv) : Prop := parseRoute a = None ∧ ∃ obj rest, a = "ip" :: obj :: "add" :: rest ∧ obj ≠ "link".
Definition iptRule (r : argv) : Prop := hasFlag r = true ∧ List.hd "" r ≠ "-w".

Record installable (p : plan) : Prop := {
  in_main : Forall ipAdd (p_mainRoutes p);
  in_rules : Forall ipAdd (p_rules p);
  in_iptables : Forall iptRule (p_iptables p);
  in_routes : Forall (λ a, is_Some (parseRoute a)) (p_tableRoutes p);
}.

Lemma ipAdd_effect a : ipAdd a → effectOf (Run a) = EAdd (withVerb a "del") ∧ effectOf (Run (withVerb a "del")) = EDel (withVerb a "del").
Proof.
  intros [Hp (obj & rest & -> & _)]. split; cbn [effectOf]; unfold runEffect; [by rewrite Hp|]. cbn [withVerb parseRoute].
  destruct rest as [|dst rest]; [done|]. by rewrite andb_false_r.
Qed.

Lemma flip_noflag r : hasFlag (flipAppendToDelete r) = false.
Proof. unfold hasFlag, flipAppendToDelete. induction r as [|x r IH]; [done|]. cbn [map existsb]. rewrite IH, orb_false_r. destruct ((x =? "-A") || (x =? "-I")) eqn:E; [done|exact E]. Qed.

Lemma flip_delete r : hasFlag r = true → "-D" ∈ flipAppendToDelete r.
Proof.
  unfold hasFlag, flipAppendToDelete. induction r as [|x r IH]; [done|]. cbn [map existsb]. destruct ((x =? "-A") || (x =? "-I")); [left|]. intros H. right. by apply IH.
Qed.

Definition iptKey (r : argv) : argv := "iptables" :: flipAppendToDelete r.

Lemma unwait_cmd (b : bool) r : List.hd "" r ≠ "-w" → unwait (if b then "iptables" :: "-w" :: r else "iptables" :: r) = "iptables" :: r.
Proof. intros H. destruct b; [done|]. cbn. destruct r as [|x r]; [done|]. apply String.eqb_neq in H. cbn in H. by rewrite H. Qed.

Lemma ipt_effect (b : bool) r : iptRule r →
  effectOf (Run (if b then "iptables" :: "-w" :: r else "iptables" :: r)) = EAdd (iptKey r) ∧
  effectOf (Run (if b then "iptables" :: "-w" :: flipAppendToDelete r else "iptables" :: flipAppendToDelete r)) = EDel (iptKey r).
Proof.
  intros [Hf Hw]. assert (∀ x l, runEffect ("iptables" :: x :: l) = if hasFlag (unwait ("iptables" :: x :: l)) then EAdd (flipAppendToDelete (unwait ("iptables" :: x :: l)))
    else if bool_decide ("-D" ∈ unwait ("iptables" :: x :: l)) then EDel (unwait ("iptables" :: x :: l)) else ENone) as Hr.
  { intros x l. unfold runEffect. cbn [parseRoute]. by destruct l as [|? [|? ?]]. }
  assert (List.hd "" (flipAppendToDelete r) ≠ "-w") as Hw'.
  { destruct r as [|x r]; [done|]. cbn in *. by destruct ((x =? "-A") || (x =? "-I")). }
  cbn [effectOf]. destruct r as [|x r]; [done|].
  pose proof (unwait_cmd b (x :: r) Hw) as H1. pose proof (unwait_cmd b (flipAppendToDelete (x :: r)) Hw') as H2. split.
  - assert (∀ y l, unwait ("iptables" :: y :: l) = "iptables" :: x :: r → runEffect ("iptables" :: y :: l) = EAdd (iptKey (x :: r))) as Hx.
    { intros y l Ha. rewrite Hr, Ha. change (hasFlag ("iptables" :: x :: r)) with (hasFlag (x :: r)). by rewrite Hf. }
    destruct b; apply Hx; exact H1.
  - assert (∀ y l, unwait ("iptables" :: y :: l) = "iptables" :: flipAppendToDelete (x :: r) → runEffect ("iptables" :: y :: l) = EDel (iptKey (x :: r))) as Hx.
    { intros y l Ha. rewrite Hr, Ha. change (hasFlag ("iptables" :: flipAppendToDelete (x :: r))) with (hasFlag (flipAppendToDelete (x :: r))).
      rewrite flip_noflag, bool_decide_true; [done|]. right. by apply flip_delete. }
    destruct b; apply Hx; exact H2.
Qed.
(** ** Lemmas: the steps and what they leave installed *)

Context `{!MachineLaws K}.
(** The machine at the start, and the deletions of everything the plan adds. *)
Context (k0 : K) (all : list argv).
Hypothesis leaked_once : ∀ x, x ∈ all → (copies k0 x ≤ 1)%nat.

Definition delKey (o : op) : option argv := match effectOf o with EDel key => Some key | _ => None end.
Definition undo (o : op) : Prop := match effectOf o with EDel _ | EFlush _ | EForward _ => True | _ => False end.

(** The objects [keys] are installed once, everything else is as it was, and the
    chain deletes exactly [keys]; [must] are steps of the chain. *)
Record good (keys : list argv) (must : list op) (w : world) : Prop := {
  gd_chain : omap delKey (w_chain w) = keys;
  gd_undo : Forall undo (w_chain w);
  gd_must : ∀ o, o ∈ must → o ∈ w_chain w;
  gd_copies : ∀ x, copies (w_k w) x = if decide (x ∈ keys) then 1%nat else copies k0 x;
}.

(** What a failed step leaves: the chain still deletes what was installed. *)
Record bad (w : world) : Prop := {
  bd_undo : Forall undo (w_chain w);
  bd_keys : ∀ x, x ∈ omap delKey (w_chain w) → x ∈ all ∧ (copies (w_k w) x ≤ 1)%nat;
  bd_rest : ∀ x, x ∉ omap delKey (w_chain w) → copies (w_k w) x = copies k0 x ∨ x ∈ all ∧ copies (w_k w) x = 0%nat;
}.

Definition does (m : world → bool * world) (keys : list argv) (must : list op) : Prop :=
  ∀ before ms w, good before ms w → (∀ x, x ∈ before → x ∈ all) →
    if (m w).1 then good (before ++ keys) (ms ++ must) (m w).2 else bad (m w).2.

Lemma good_bad keys must w : good keys must w → (∀ x, x ∈ keys → x ∈ all) → bad w.
Proof.
  intros [Hc Hu _ Hk] Ha. split; [done| |]; intros x; rewrite Hc, Hk; destruct (decide (x ∈ keys)); [by auto|done|done|auto].
Qed.

Lemma does_andThen m n k1 k2 m1 m2 :
  does m k1 m1 → does n k2 m2 → (∀ x, x ∈ k1 → x ∈ all) → does (andThen m n) (k1 ++ k2) (m1 ++ m2).
Proof.
  intros Hm Hn Ha before ms w Hg Hb. unfold andThen. specialize (Hm before ms w Hg Hb). destruct (m w) as [[] w1]; cbn [fst snd] in *; [|done].
  rewrite !app_assoc. apply Hn; [done|]. intros x [?|?]%elem_of_app; auto.
Qed.

Lemma does_loop {A} (body : A → world → bool * world) (fk : A → list argv) (fm : A → list op) l :
  (∀ x, x ∈ l → does (body x) (fk x) (fm x) ∧ ∀ y, y ∈ fk x → y ∈ all) → does (loop body l) (concat (map fk l)) (concat (map fm l)).
Proof.
  induction l as [|x l IH]; intros Hl before ms w Hg Hb; cbn [loop map concat]; [cbn; by rewrite !app_nil_r|].
  destruct (Hl x ltac:(left)) as [Hx Hk]. specialize (Hx before ms w Hg Hb). destruct (body x w) as [[] w1]; cbn [fst snd] in *; [|done].
  rewrite !app_assoc. apply IH; [intros y Hy; apply Hl; by right|done|]. intros y [?|?]%elem_of_app; auto.
Qed.

(** A command that adds and deletes nothing. *)
Lemma run_other o w : (∀ key, effectOf o ≠ EAdd key ∧ effectOf o ≠ EDel key) →
  (∀ x, copies (w_k (run o w).2) x = copies (w_k w) x) ∧ w_chain (run o w).2 = w_chain w.
Proof. intros Ho. unfold run. pose proof (exec_other o (w_k w) Ho) as H. destruct (exec o (w_k w)) as [ok k]. done. Qed.

Lemma good_other keys must w w' : good keys must w → (∀ x, copies (w_k w') x = copies (w_k w) x) → w_chain w' = w_chain w → good keys must w'.
Proof. intros [H1 H2 H3 H4] Hk Hc. split; rewrite ?Hc; [done..|]. intros x. by rewrite Hk. Qed.

Lemma does_run o : (∀ key, effectOf o ≠ EAdd key ∧ effectOf o ≠ EDel key) → does (run o) [] [].
Proof.
  intros Ho before ms w Hg Hb. rewrite !app_nil_r. destruct (run_other o w Ho) as [Hk Hc].
  pose proof (good_other _ _ _ _ Hg Hk Hc). destruct (run o w).1; [done|by eapply good_bad].
Qed.

Lemma good_undo keys must w o : good keys must w → delKey o = None → undo o → good keys (must ++ [o]) (addUndo o w).
Proof.
  intros [H1 H2 H3 H4] Hd Hu. split; cbn; [|by apply Forall_app_2; [|constructor]| |done].
  - rewrite omap_app. cbn. by rewrite Hd, app_nil_r.
  - intros x [Hx|Hx]%elem_of_app; apply elem_of_app; [left; auto|by right].
Qed.

Lemma does_replace add del key : effectOf (Run add) = EAdd key → effectOf (Run del) = EDel key → key ∈ all →
  does (replace add del) [key] [].
Proof.
  intros Ha Hd Hin before ms w [Hc Hu Hm Hk] Hb. rewrite app_nil_r. unfold replace, run.
  destruct (exec_del (Run del) key (w_k w) Hd) as [D1 D2]. destruct (exec (Run del) (w_k w)) as [okd kd]. cbn [fst snd w_k] in *.
  pose proof (exec_add (Run add) key kd Ha) as A. destruct (exec (Run add) kd) as [ok k1]. destruct A as [A1 A2].
  assert (pred (copies (w_k w) key) = 0%nat) as Hz.
  { rewrite Hk. destruct (decide (key ∈ before)); [done|]. specialize (leaked_once key Hin). lia. }
  rewrite Hz in D1. rewrite D1 in A1. unfold addUndo. destruct ok; cbn [fst snd w_k w_chain w_wait].
  - split; cbn [w_chain w_k].
    + rewrite omap_app, Hc. cbn [omap list_omap]. unfold delKey at 1. by rewrite Hd.
    + apply Forall_app_2; [done|]. constructor; [|constructor]. unfold undo. by rewrite Hd.
    + intros o Ho. apply elem_of_app. left. auto.
    + intros x. destruct (decide (x = key)) as [->|Hne]; [rewrite decide_True; [done|set_solver]|].
      rewrite A2, D2, Hk by done. destruct (decide (x ∈ before)); [rewrite decide_True; [done|set_solver]|rewrite decide_False; [done|set_solver]].
  - split; cbn [w_chain w_k]; [done| |]; intros x; rewrite Hc; intros Hx.
    + split; [auto|]. destruct (decide (x = key)) as [->|Hne]; [lia|]. rewrite A2, D2, Hk, decide_True by done. done.
    + destruct (decide (x = key)) as [->|Hne]; [by right|]. left. by rewrite A2, D2, Hk, decide_False.
Qed.
Lemma does_enableForward : does enableForward [] [].
Proof.
  intros before ms w Hg Hb. rewrite !app_nil_r. unfold enableForward. destruct (_ =? "1"); [done|].
  destruct (run_other (SetForward "1") w ltac:(done)) as [Hk Hc]. pose proof (good_other _ _ _ _ Hg Hk Hc) as Hg1.
  destruct (run (SetForward "1") w) as [[] w1]; cbn [fst snd] in *; [|by eapply good_bad]. destruct (_ =? ""); [done|].
  pose proof (good_undo _ _ _ (SetForward (forwardValue (forwarding (w_k w)))) Hg1 eq_refl I) as [H1 H2 H3 H4].
  split; [done|done| |done]. intros o Ho. apply H3, elem_of_app. by left.
Qed.

Definition flushOp (t : Z) : op := Run ["ip"; "route"; "flush"; "table"; Itoa t].

Lemma flushOp_effect t : effectOf (flushOp t) = EFlush (Itoa t).
Proof. reflexivity. Qed.

Lemma does_flush t : does (flushTable t) [] [flushOp t].
Proof.
  intros before ms w Hg Hb. rewrite app_nil_r. unfold flushTable. fold (flushOp t). cbn [fst snd].
  destruct (run_other (flushOp t) w) as [Hk Hc]; [by rewrite flushOp_effect|].
  apply good_undo; [by eapply good_other|unfold delKey|unfold undo]; by rewrite flushOp_effect.
Qed.

Lemma does_installIptables r : iptRule r → iptKey r ∈ all → does (installIptables r) [iptKey r] [].
Proof.
  intros Hr Hin before ms w Hg Hb. unfold installIptables.
  assert (∃ b w1, good before ms w1 ∧ ∀ a, iptablesCmd a w = ((if b : bool then "iptables" :: "-w" :: a else "iptables" :: a), w1) ∧
    iptablesCmd a w1 = ((if b then "iptables" :: "-w" :: a else "iptables" :: a), w1)) as (b & w1 & Hg1 & Hcmd).
  { unfold iptablesCmd, iptablesSupportsWait. destruct (w_wait w) as [b|] eqn:Hw; [exists b, w; by rewrite Hw|].
    set (probe := Run ["iptables"; "-w"; "-t"; "filter"; "-S"]). assert (effectOf probe = ENone) as He by (vm_compute; reflexivity).
    destruct (run_other probe w) as [Hk Hc]; [by rewrite He|]. destruct (run probe w) as [b w1]. cbn [snd] in *.
    exists b, (MkWorld (w_k w1) (Some b) (w_chain w1)). split; [by eapply good_other|]. done. }
  rewrite (proj1 (Hcmd _)), (proj2 (Hcmd _)). destruct (ipt_effect b r Hr) as [Ha Hd]. by apply (does_replace _ _ _ Ha Hd Hin).
Qed.

Lemma does_loadGeo g : does (loadGeo g) [] [].
Proof.
  intros before ms w Hg Hb. unfold loadGeo. fold (flushOp (gb_table g)).
  destruct (run_other (flushOp (gb_table g)) w) as [Hk Hc]; [by rewrite flushOp_effect|]. pose proof (good_other _ _ _ _ Hg Hk Hc) as Hg1.
  destruct (readPrefixes readFile (gb_set g)) as [[|x l]|]; cbn [fst snd]; [by rewrite !app_nil_r| |by eapply good_bad].
  by apply does_run.
Qed.

(** The deletions of everything a plan adds. *)
Definition planKeys (p : plan) : list argv :=
  (map (λ a, withVerb a "del") (p_mainRoutes p) ++ map (λ a, withVerb a "del") (p_rules p) ++ map iptKey (p_iptables p))%list.

Lemma filter_none {A} (P : A → Prop) `{∀ x, Decision (P x)} l : Forall (λ x, ¬ P x) l → base.filter P l = [].
Proof. induction 1 as [|x l Hx _ IH]; [done|]. by rewrite filter_cons_False, IH. Qed.
Lemma filter_every {A} (P : A → Prop) `{∀ x, Decision (P x)} l : Forall P l → base.filter P l = l.
Proof. induction 1 as [|x l Hx _ IH]; [done|]. by rewrite filter_cons_True, IH. Qed.
Lemma concat_map_nil {A B} (l : list A) : concat (map (λ _, @nil B) l) = [].
Proof. by induction l. Qed.
Lemma concat_map_one {A B} (f : A → B) (l : list A) : concat (map (λ x, [f x]) l) = map f l.
Proof. induction l as [|x l IH]; [done|]. cbn. by rewrite IH. Qed.

Lemma does_adds (l : list argv) : Forall ipAdd l → (∀ x, x ∈ map (λ a, withVerb a "del") l → x ∈ all) →
  does (loop installIp l) (map (λ a, withVerb a "del") l) [].
Proof.
  intros Hl Ha. rewrite <- (concat_map_one (λ a, withVerb a "del")), <- (concat_map_nil (B := op) l). rewrite Forall_forall in Hl.
  apply (does_loop _ (λ a, [withVerb a "del"]) (λ _, [])). intros a Hin.
  assert (withVerb a "del" ∈ all) as Hk by (apply Ha, list_elem_of_fmap; by exists a). split; [|by intros y ->%list_elem_of_singleton].
  destruct (ipAdd_effect a (Hl a Hin)) as [H1 H2]. by apply does_replace.
Qed.

Lemma does_applySteps p : installable p → (∀ x, x ∈ planKeys p → x ∈ all) →
  does (applySteps p) (planKeys p) (map flushOp (p_tables p)).
Proof.
  intros [Hm Hr Hi Ht] Ha. unfold planKeys in *.
  assert (∀ x, x ∈ map (λ a, withVerb a "del") (p_mainRoutes p) → x ∈ all) as A1 by (intros x Hx; apply Ha, elem_of_app; by left).
  assert (∀ x, x ∈ map (λ a, withVerb a "del") (p_rules p) → x ∈ all) as A2 by (intros x Hx; apply Ha; rewrite !elem_of_app; auto).
  assert (∀ x, x ∈ map iptKey (p_iptables p) → x ∈ all) as A3 by (intros x Hx; apply Ha; rewrite !elem_of_app; auto).
  assert (does (loop flushTable (p_tables p)) [] (map flushOp (p_tables p))) as D1.
  { rewrite <- (concat_map_one flushOp), <- (concat_map_nil (B := argv) (p_tables p)). apply (does_loop _ (λ _, []) (λ t, [flushOp t])).
    intros t _. split; [apply does_flush|by intros y ?%elem_of_nil]. }
  assert (does (loop (λ a, run (Run a)) (p_tableRoutes p)) [] []) as D2.
  { rewrite <- (concat_map_nil (B := argv) (p_tableRoutes p)). rewrite <- (concat_map_nil (B := op) (p_tableRoutes p)). apply (does_loop _ (λ _, []) (λ _, [])).
    intros a Hin. rewrite Forall_forall in Ht. destruct (Ht a Hin) as [r Hp]. split; [|by intros y ?%elem_of_nil]. apply does_run. cbn [effectOf]. unfold runEffect. by rewrite Hp. }
  assert (does (loop installIptables (p_iptables p)) (map iptKey (p_iptables p)) []) as D3.
  { rewrite <- (concat_map_one iptKey), <- (concat_map_nil (B := op) (p_iptables p)). apply (does_loop _ (λ r, [iptKey r]) (λ _, [])).
    intros r Hin. rewrite Forall_forall in Hi. assert (iptKey r ∈ all) as Hk by (apply A3, list_elem_of_fmap; by exists r).
    split; [by apply does_installIptables; [apply Hi|]|by intros y ->%list_elem_of_singleton]. }
  assert (does (loop loadGeo (p_geo p)) [] []) as D4.
  { rewrite <- (concat_map_nil (B := argv) (p_geo p)). rewrite <- (concat_map_nil (B := op) (p_geo p)). apply (does_loop _ (λ _, []) (λ _, [])).
    intros g _. split; [apply does_loadGeo|by intros y ?%elem_of_nil]. }
  assert (∀ x : argv, x ∈ [] → x ∈ all) as A0 by (by intros x ?%elem_of_nil).
  pose proof (does_andThen _ _ _ _ _ _ D3 D4 A3) as E. rewrite !app_nil_r in E.
  pose proof (does_andThen _ _ _ _ _ _ (does_adds _ Hr A2) E A2) as E1.
  pose proof (does_andThen _ _ _ _ _ _ (does_adds _ Hm A1) E1 A1) as E2.
  pose proof (does_andThen _ _ _ _ _ _ D1 (does_andThen _ _ _ _ _ _ D2 E2 A0) A0) as E3.
  pose proof (does_andThen _ _ _ _ _ _ does_enableForward E3 A0) as E4. rewrite !app_nil_r in E4. exact E4.
Qed.

(** ** Lemmas: the teardown chain *)

Lemma undo_list ops acc : Forall undo ops → (∀ x, x ∈ omap delKey ops → (copies acc.2 x ≤ 1)%nat) →
  let k' := (fold_left (λ '(ok, k) o, let '(ok', k') := exec o k in (ok && ok', k')) ops acc).2 in
  (∀ x, copies k' x = if decide (x ∈ omap delKey ops) then 0%nat else copies acc.2 x) ∧
  ∀ t, flushOp t ∈ ops ∨ table acc.2 (Itoa t) = [] → table k' (Itoa t) = [].
Proof.
  intros Hu. revert acc. induction Hu as [|o ops Ho _ IH]; intros [ok k] Hc; cbn [fold_left snd] in *.
  { split; [intros x; by rewrite decide_False by apply not_elem_of_nil|]. intros t [?%elem_of_nil|?]; done. }
  destruct (exec o k) as [ok' k'] eqn:He. specialize (IH (ok && ok', k')). cbn [snd] in IH.
  assert (∀ x, copies k' x = if decide (delKey o = Some x) then pred (copies k x) else copies k x) as Hk.
  { intros x. unfold undo in Ho. unfold delKey. destruct (effectOf o) eqn:Heff; try done.
    - pose proof (exec_other o k ltac:(by rewrite Heff) x) as H. rewrite He in H. done.
    - destruct (exec_del o key k Heff) as [H1 H2]. rewrite He in H1, H2. cbn [snd] in *. destruct (decide (Some key = Some x)) as [[= ->]|Hne]; [done|]. apply H2. congruence.
    - pose proof (exec_other o k ltac:(by rewrite Heff) x) as H. rewrite He in H. done. }
  destruct IH as [I1 I2].
  { intros x Hx. rewrite Hk. specialize (Hc x). cbn [omap list_omap] in Hc. destruct (delKey o); [|destruct (decide _); [done|auto]].
    destruct (decide _); [assert (copies k x ≤ 1)%nat by (apply Hc; by right); lia|apply Hc; by right]. }
  split.
  - intros x. rewrite I1, Hk. cbn [omap list_omap]. destruct (delKey o) as [key|] eqn:Hd; [|by destruct (decide (None = Some x))].
    destruct (decide (x ∈ omap delKey ops)) as [Hx|Hx]; [by rewrite decide_True by (by right)|].
    destruct (decide (Some key = Some x)) as [[= ->]|Hne].
    + rewrite decide_True by left. specialize (Hc x). cbn [omap list_omap] in Hc. rewrite Hd in Hc. specialize (Hc ltac:(left)). lia.
    + rewrite decide_False; [done|]. intros [->|?]%elem_of_cons; congruence.
  - intros t Ht. apply I2. destruct (decide (effectOf o = EFlush (Itoa t))) as [Hf|Hf].
    { right. pose proof (exec_flush o (Itoa t) k Hf) as H. by rewrite He in H. }
    destruct Ht as [Hin|Hempty]; [apply elem_of_cons in Hin as [<-|Hin]; [done|by left]|]. right.
    pose proof (exec_table o k (Itoa t) Hf) as H. rewrite He in H. cbn [snd] in H. rewrite H; [done|].
    intros ts Hts. unfold undo in Ho. by rewrite Hts in Ho.
Qed.

Lemma undoAll_spec ops k : Forall undo ops → (∀ x, x ∈ omap delKey ops → (copies k x ≤ 1)%nat) →
  (∀ x, copies (undoAll ops k).2 x = if decide (x ∈ omap delKey ops) then 0%nat else copies k x) ∧
  ∀ t, flushOp t ∈ ops → table (undoAll ops k).2 (Itoa t) = [].
Proof.
  intros Hu Hc. assert (∀ x, x ∈ omap delKey (rev ops) ↔ x ∈ omap delKey ops) as Hrev.
  { intros x. rewrite !list_elem_of_omap. split; intros (o & Ho & Hd); exists o; (split; [|done]); [by apply list_elem_of_In, in_rev, list_elem_of_In|].
    by apply list_elem_of_In, in_rev; rewrite rev_involutive; apply list_elem_of_In. }
  destruct (undo_list (rev ops) (true, k)) as [H1 H2]; [by apply List.Forall_rev|intros x Hx; by apply Hc, Hrev|]. unfold undoAll. split.
  - intros x. rewrite H1. cbn [snd]. destruct (decide (x ∈ omap delKey (rev ops))) as [Hx|Hx].
    + by rewrite decide_True by by apply Hrev.
    + rewrite decide_False; [done|]. by rewrite <- Hrev.
  - intros t Ht. apply H2. left. by apply list_elem_of_In, in_rev; rewrite rev_involutive; apply list_elem_of_In.
Qed.
End apply.

(** ** Lemmas: the numbered tables and ip_forward *)

Section tables.
Context (readFile : string → option string).
Context {K : Type} `{MK : Machine K} `{ML : !MachineLaws K}.

(** The routes the set of [g] gives, and what the plan means table [t] to hold:
    the default routes it adds there, or the last set it loads there. *)
Definition geoRoutes (g : geoBinding) : list argv :=
  match readPrefixes readFile (gb_set g) with Ok l => map (λ p, geoRoute p (gb_wan g) (gb_table g)) l | Err _ => [] end.
Definition tagged (t : string) (a : argv) : Prop := rt_table <$> parseRoute a = Some t.
#[local] Instance tagged_dec t a : Decision (tagged t a).
Proof. unfold tagged. apply _. Defined.
Definition planTable (p : plan) (t : string) : list argv :=
  fold_left (λ l g, if decide (Itoa (gb_table g) = t) then geoRoutes g else l) (p_geo p) (base.filter (tagged t) (p_tableRoutes p)).
Definition isTable (p : plan) (t : string) : Prop := t ∈ map Itoa (p_tables p).
#[export] Instance isTable_dec p t : Decision (isTable p t).
Proof. unfold isTable. apply _. Defined.

Lemma loadGeo_spec g (w : world (K := K)) :
  let '(ok, w') := loadGeo readFile g w in
  match readPrefixes readFile (gb_set g) with
  | Err _ => ok = false ∧ table (w_k w') (Itoa (gb_table g)) = []
  | Ok l => ok = true → table (w_k w') (Itoa (gb_table g)) = map (λ p, geoRoute p (gb_wan g) (gb_table g)) l
  end ∧ (∀ t, t ≠ Itoa (gb_table g) → table (w_k w') t = table (w_k w) t) ∧ ∀ x, copies (w_k w') x = copies (w_k w) x.
Proof.
  unfold loadGeo. fold (flushOp (gb_table g)). set (o := flushOp (gb_table g)).
  assert (effectOf o = EFlush (Itoa (gb_table g))) as Ho by reflexivity.
  destruct (run_other o w) as [Hk _]; [by rewrite Ho|].
  assert (table (w_k (run o w).2) (Itoa (gb_table g)) = []) as He.
  { unfold run. pose proof (exec_flush o _ (w_k w) Ho) as H1. by destruct (exec o (w_k w)). }
  assert (∀ t, t ≠ Itoa (gb_table g) → table (w_k (run o w).2) t = table (w_k w) t) as Hn.
  { intros t Ht. unfold run. pose proof (exec_table o (w_k w) t ltac:(rewrite Ho; congruence) ltac:(by rewrite Ho)) as H1. by destruct (exec o (w_k w)). }
  destruct (run o w) as [ok0 w0]. cbn [snd] in *. destruct (readPrefixes readFile (gb_set g)) as [[|x l]|]; [done| |done].
  set (lines := map (λ p, List.tl (geoRoute p (gb_wan g) (gb_table g))) (x :: l)).
  assert (map (cons "ip") lines = map (λ p, geoRoute p (gb_wan g) (gb_table g)) (x :: l)) as Hl by (unfold lines; rewrite map_map; reflexivity).
  destruct (run_other (Batch lines) w0) as [Hk2 _]; [done|]. pose proof (exec_batch lines (w_k w0)) as Hb.
  assert (∀ ts, effectOf (Batch lines) = EFill ts → ∀ t, t ∈ ts → t = Itoa (gb_table g)) as Hts.
  { intros ts He2 t Hin. assert (ts = omap (λ l, rt_table <$> parseRoute ("ip" :: l)) lines) as -> by (cbn [effectOf] in He2; congruence).
    apply list_elem_of_omap in Hin as (a & Ha & Hp). apply list_elem_of_fmap in Ha as (p & -> & _).
    change ("ip" :: List.tl (geoRoute p (gb_wan g) (gb_table g))) with (geoRoute p (gb_wan g) (gb_table g)) in Hp. rewrite parseRoute_geo in Hp. by injection Hp as <-. }
  assert (∀ t, t ≠ Itoa (gb_table g) → table (exec (Batch lines) (w_k w0)).2 t = table (w_k w0) t) as Hn2.
  { intros t Ht. apply exec_table; [done|]. intros ts He2 Hin. by apply Ht, (Hts ts He2). }
  unfold run in *. destruct (exec (Batch lines) (w_k w0)) as [ok k1]. cbn [fst snd w_k] in *.
  split; [|split; [intros t Ht; by rewrite Hn2, Hn|intros y; by rewrite Hk2]].
  intros Hok. rewrite (Hb (Itoa (gb_table g)) Hok), He, Hl. cbn [app]. apply filter_every, Forall_forall. intros a Ha.
  apply list_elem_of_fmap in Ha as (p & -> & _). by rewrite parseRoute_geo.
Qed.

Context `{RL : !RouteLaws K}.
(** The plan's tables. *)
Context (T : list string).

Definition isDel (o : op) : Prop := ∃ key, effectOf o = EDel key.

(** A step after the flushes: what it makes of each table when it succeeds; it
    leaves the other tables and ip_forward alone and its undo steps only delete. *)
Record later (m : world → bool * world) (F : string → list argv → list argv) : Prop := {
  lt_table w : (m w).1 = true → ∀ t, table (w_k (m w).2) t = F t (table (w_k w) t);
  lt_outside w t : t ∉ T → table (w_k (m w).2) t = table (w_k w) t;
  lt_forward w : forwarding (w_k (m w).2) = forwarding (w_k w);
  lt_chain w : ∃ l, w_chain (m w).2 = (w_chain w ++ l)%list ∧ Forall isDel l;
}.

Lemma later_ext m F G : (∀ t l, F t l = G t l) → later m F → later m G.
Proof. intros He [H1 H2 H3 H4]. split; [|done..]. intros w Hok t. rewrite <- He. by apply H1. Qed.

Lemma later_andThen m n F G : later m F → later n G → later (andThen m n) (λ t l, G t (F t l)).
Proof.
  intros [M1 M2 M3 M4] [N1 N2 N3 N4]. split; intros w; unfold andThen;
    [specialize (M1 w)|specialize (M2 w)|specialize (M3 w)|specialize (M4 w)]; destruct (m w) as [[] w1]; cbn [fst snd] in *; try done.
  - intros Hok t. rewrite N1 by done. by rewrite M1.
  - intros t Ht. rewrite N2 by done. by apply M2.
  - by rewrite N3.
  - destruct M4 as (l1 & H1 & F1), (N4 w1) as (l2 & H2 & F2). exists (l1 ++ l2)%list. rewrite H2, H1, app_assoc. split; [done|by apply Forall_app_2].
Qed.

Lemma later_loop {A} (body : A → world → bool * world) (f : A → string → list argv → list argv) l :
  (∀ x, x ∈ l → later (body x) (f x)) → later (loop body l) (λ t acc, fold_left (λ acc x, f x t acc) l acc).
Proof.
  induction l as [|x l IH]; intros Hl.
  - split; intros w; try done. exists []. by rewrite app_nil_r.
  - destruct (later_andThen _ _ _ _ (Hl x ltac:(left)) (IH (λ y Hy, Hl y ltac:(by right)))) as [H1 H2 H3 H4]. by split.
Qed.

Lemma fold_same {A B} (l : list A) (b : B) : fold_left (λ acc _, acc) l b = b.
Proof. by induction l. Qed.

(** A command that neither routes, flushes nor forwards. *)
Definition aside (o : op) : Prop := match effectOf o with EAdd _ | EDel _ | ENone => True | _ => False end.

Lemma run_aside o w : aside o →
  (∀ t, table (w_k (run o w).2) t = table (w_k w) t) ∧ forwarding (w_k (run o w).2) = forwarding (w_k w) ∧ w_chain (run o w).2 = w_chain w.
Proof.
  intros Ho. unfold aside in Ho. unfold run.
  assert (∀ t, table (exec o (w_k w)).2 t = table (w_k w) t) as Ht by (intros t; apply exec_table; [|intros ts]; intros He; by rewrite He in Ho).
  assert (forwarding (exec o (w_k w)).2 = forwarding (w_k w)) as Hf by (apply exec_unforward; intros v He; by rewrite He in Ho).
  by destruct (exec o (w_k w)).
Qed.

Lemma later_replace add del key : effectOf (Run add) = EAdd key → effectOf (Run del) = EDel key → later (replace add del) (λ _ l, l).
Proof.
  intros Ha Hd.
  assert (∀ w, (∀ t, table (w_k (replace add del w).2) t = table (w_k w) t) ∧ forwarding (w_k (replace add del w).2) = forwarding (w_k w) ∧
    ∃ l, w_chain (replace add del w).2 = (w_chain w ++ l)%list ∧ Forall isDel l) as Hw.
  { intros w. unfold replace. destruct (run_aside (Run del) w) as (D1 & D2 & D3); [unfold aside; by rewrite Hd|].
    destruct (run_aside (Run add) (run (Run del) w).2) as (A1 & A2 & A3); [unfold aside; by rewrite Ha|].
    destruct (run (Run add) (run (Run del) w).2) as [[] w2]; cbn [fst snd addUndo w_k w_chain] in *; (split; [intros t; by rewrite A1|split; [by rewrite A2|]]); rewrite A3, D3.
    - exists [Run del]. split; [done|]. constructor; [by exists key|constructor].
    - exists []. by rewrite app_nil_r. }
  split; intros w; [intros _|intros t _|..]; apply (Hw w).
Qed.

Lemma later_adds l : Forall ipAdd l → later (loop installIp l) (λ _ l, l).
Proof.
  intros Hl. rewrite Forall_forall in Hl. eapply later_ext; [|apply (later_loop _ (λ _ _ l, l))]; [intros t acc; apply fold_same|].
  intros a Ha. destruct (ipAdd_effect a (Hl a Ha)) as [H1 H2]. by apply (later_replace _ _ _ H1 H2).
Qed.

Lemma later_iptables l : Forall iptRule l → later (loop installIptables l) (λ _ l, l).
Proof.
  intros Hl. rewrite Forall_forall in Hl. eapply later_ext; [|apply (later_loop _ (λ _ _ l, l))]; [intros t acc; apply fold_same|]. intros r Hr.
  assert (∀ w, ∃ b w1, (∀ t, table (w_k w1) t = table (w_k w) t) ∧ forwarding (w_k w1) = forwarding (w_k w) ∧ w_chain w1 = w_chain w ∧
    installIptables r w = replace (if b : bool then "iptables" :: "-w" :: r else "iptables" :: r)
      (if b then "iptables" :: "-w" :: flipAppendToDelete r else "iptables" :: flipAppendToDelete r) w1) as Hi.
  { intros w. unfold installIptables, iptablesCmd, iptablesSupportsWait. destruct (w_wait w) as [b|] eqn:Hw; [exists b, w; by rewrite Hw|].
    set (probe := Run ["iptables"; "-w"; "-t"; "filter"; "-S"]). assert (aside probe) as He by (vm_compute; done).
    destruct (run_aside probe w He) as (P1 & P2 & P3). destruct (run probe w) as [b w1]. cbn [snd] in *. by exists b, (MkWorld (w_k w1) (Some b) (w_chain w1)). }
  assert (∀ b : bool, later (replace (if b then "iptables" :: "-w" :: r else "iptables" :: r)
    (if b then "iptables" :: "-w" :: flipAppendToDelete r else "iptables" :: flipAppendToDelete r)) (λ _ l, l)) as Hb.
  { intros b. destruct (ipt_effect b r (Hl r Hr)) as [H1 H2]. by apply (later_replace _ _ _ H1 H2). }
  split; intros w; destruct (Hi w) as (b & w1 & I1 & I2 & I3 & ->); destruct (Hb b) as [B1 B2 B3 B4];
    [intros Hok t; by rewrite B1|intros t Ht; by rewrite B2|by rewrite B3|by rewrite <- I3].
Qed.

Lemma later_routes l : Forall (λ a, ∃ r, parseRoute a = Some r ∧ rt_table r ∈ T) l →
  later (loop (λ a, run (Run a)) l) (λ t acc, acc ++ base.filter (tagged t) l)%list.
Proof.
  intros Hl. rewrite Forall_forall in Hl. eapply later_ext; [|apply (later_loop _ (λ a t acc, acc ++ base.filter (tagged t) [a])%list)].
  - intros t. clear Hl. induction l as [|a l IH]; intros acc; [by rewrite app_nil_r|]. cbn [fold_left]. rewrite IH, <- app_assoc. f_equal. by rewrite !filter_cons; destruct (decide (tagged t a)).
  - intros a Ha. destruct (Hl a Ha) as (r & Hp & Hin). assert (effectOf (Run a) = EFill [rt_table r]) as He by (cbn [effectOf]; unfold runEffect; by rewrite Hp).
    split; intros w; unfold run.
    + pose proof (exec_route a r (w_k w)) as Hr. destruct (exec (Run a) (w_k w)) as [ok k1]. cbn [fst snd w_k] in *. intros Hok t. rewrite (Hr t Hp Hok), filter_cons.
      f_equal. destruct (decide (rt_table r = t)) as [Ht|Ht]; [rewrite decide_True; [done|unfold tagged; rewrite Hp; cbn; by rewrite Ht]|].
      rewrite decide_False; [done|]. unfold tagged. rewrite Hp. cbn. congruence.
    + intros t Ht. pose proof (exec_table (Run a) (w_k w) t) as H. destruct (exec (Run a) (w_k w)). cbn [snd w_k] in *. apply H; rewrite He; [done|].
      intros ts [= <-] [->|?%elem_of_nil]%elem_of_cons; done.
    + pose proof (exec_unforward (Run a) (w_k w)) as H. destruct (exec (Run a) (w_k w)). cbn [snd w_k] in *. apply H. by rewrite He.
    + exists []. rewrite app_nil_r. by destruct (exec (Run a) (w_k w)).
Qed.

Lemma later_geo l : Forall (λ g, Itoa (gb_table g) ∈ T) l →
  later (loop (loadGeo readFile) l) (λ t acc, fold_left (λ acc g, if decide (Itoa (gb_table g) = t) then geoRoutes g else acc) l acc).
Proof.
  intros Hl. rewrite Forall_forall in Hl. apply (later_loop _ (λ g t acc, if decide (Itoa (gb_table g) = t) then geoRoutes g else acc)).
  intros g Hg. specialize (Hl g Hg). split; intros w.
  - intros Hok t. pose proof (loadGeo_spec g w) as H. unfold geoRoutes. destruct (loadGeo readFile g w) as [ok w']. cbn [fst snd] in *. destruct H as (H1 & H2 & _).
    destruct (decide (Itoa (gb_table g) = t)) as [<-|Ht]; [|apply H2; congruence].
    destruct (readPrefixes readFile (gb_set g)) as [ps|]; [by apply H1|]. by destruct H1 as [-> _].
  - intros t Ht. pose proof (loadGeo_spec g w) as H. destruct (loadGeo readFile g w) as [ok w']. cbn [fst snd] in *. apply H. congruence.
  - unfold loadGeo, run. fold (flushOp (gb_table g)). pose proof (exec_unforward (flushOp (gb_table g)) (w_k w) ltac:(by rewrite flushOp_effect)) as H.
    destruct (exec (flushOp (gb_table g)) (w_k w)) as [ok k1]. cbn [fst snd w_k] in *. destruct (readPrefixes readFile (gb_set g)) as [[|x ps]|]; [done| |done].
    match goal with |- context [exec ?b k1] => pose proof (exec_unforward b k1 ltac:(done)) as Hb; destruct (exec b k1) end. cbn [snd w_k] in *. congruence.
  - exists []. rewrite app_nil_r. split; [|constructor]. unfold loadGeo, run. destruct (exec _ (w_k w)) as [ok k1]. cbn [snd w_k w_chain w_wait].
    destruct (readPrefixes readFile (gb_set g)) as [[|x ps]|]; [done| |done]. by destruct (exec _ k1).
Qed.
End tables.

(** ** Lemmas: the plans [lower] makes *)

Lemma ipAdd_host u : ipAdd (hostRoute u).
Proof. split; [|by eexists _, _]. unfold hostRoute, via. destruct (u_gw u =? ""); reflexivity. Qed.
Lemma ipAdd_onLink cidr lan : ipAdd (onLinkRoute cidr lan).
Proof. split; [reflexivity|by eexists _, _]. Qed.
Lemma ipAdd_from prio cidr t : ipAdd (ruleFrom prio cidr t).
Proof. split; [reflexivity|by eexists _, _]. Qed.
Lemma ipAdd_lookup prio t : ipAdd (ruleLookup prio "" t).
Proof. split; [reflexivity|by eexists _, _]. Qed.

Lemma masqRules_ok dev lans : Forall iptRule (masqRules dev lans).
Proof.
  unfold masqRules. repeat apply Forall_app_2; [repeat constructor; done| |repeat constructor; try done].
  induction lans as [|l lans IH]; [constructor|]. cbn [map concat]. apply Forall_app_2; [repeat constructor; done|done].
Qed.

Lemma addRules_installable p rs : installable p → Forall ipAdd rs → installable (addRules p rs).
Proof. intros [H1 H2 H3 H4] Hr. split; try done. by apply Forall_app_2. Qed.
Lemma addMain_installable p rs : installable p → Forall ipAdd rs → installable (addMain p rs).
Proof. intros [H1 H2 H3 H4] Hr. split; try done. by apply Forall_app_2. Qed.

Lemma lower_installable readFile n wans p : lower readFile n wans = Ok p → installable p.
Proof.
  unfold lower. intros (es & Hes & H)%res_bind_ok. apply res_bind_ok in H as (s & Hs & H). injection H as <-.
  assert (installable (es_plan es)) as He.
  { eapply (Config.rangeM_inv _ (λ es, installable (es_plan es)) _ _ _ _ _ Hes). Unshelve. 2: { split; constructor. }
    intros s1 name s2 _ [H1 H2 H3 H4] H. unfold egressStep in H. fold (wanOf wans name) in H.
    assert (installable (MkPlan (p_tables (es_plan s1) ++ [(tableEgressBase + es_index s1)%Z]) (p_tableRoutes (es_plan s1) ++ [defaultRoute (wanOf wans name) (tableEgressBase + es_index s1)])
      (p_mainRoutes (es_plan s1)) (p_rules (es_plan s1)) (p_iptables (es_plan s1) ++ masqRules (wn_dev (wanOf wans name)) (Config.n_LANIfaces n)) (p_geo (es_plan s1)))%list) as Hp.
    { split; cbn [p_mainRoutes p_rules p_iptables p_tableRoutes]; [done|done|by apply Forall_app_2, masqRules_ok|]. apply Forall_app_2; [done|]. constructor; [|constructor]. rewrite parseRoute_default. by eexists. }
    destruct (wn_ep (wanOf wans name)) as [ep|]; [|by injection H as <-].
    destruct (es_pinned s1 !! u_ip ep); [rewrite Config.check_ok in H; destruct H as [_ H]; by injection H as <-|]. injection H as <-. cbn [es_plan].
    apply (addMain_installable _ [hostRoute ep] Hp). constructor; [apply ipAdd_host|constructor]. }
  eapply (Config.rangeM_inv _ (λ s, installable (lo_plan s)) _ _ _ _ _ Hs). Unshelve.
  2: { apply addRules_installable; [done|]. constructor; [|constructor]. split; [reflexivity|by eexists _, _]. }
  intros s1 f s2 _ Hp H. unfold forwardStep in H. destruct (Config.f_When f) as [|w ws].
  - injection H as <-. apply addRules_installable; [done|]. constructor; [apply ipAdd_lookup|constructor].
  - destruct (Config.d_SrcIn _) as [set|]; [|destruct (Config.d_DstIn _) as [set|]; [|done]].
    + apply res_bind_ok in H as (ips & _ & H). injection H as <-. generalize dependent s1. induction ips as [|ip ips IH]; intros s1 Hp; [done|]. cbn [fold_left]. apply IH.
      assert (installable (addRules (lo_plan s1) [ruleFrom (lo_srcPrio s1) ip (default 0%Z (es_table es !! Config.f_Egress f))])) as Hp1.
      { apply addRules_installable; [done|]. constructor; [apply ipAdd_from|constructor]. }
      unfold srcStep. destruct (_ && _); cbn [lo_plan]; [|done]. apply addMain_installable; [done|]. constructor; [apply ipAdd_onLink|constructor].
    + injection H as <-. assert (installable (addRules (lo_plan s1) [ruleLookup (prioDstBase + lo_dstIdx s1) "" (tableGeoBase + lo_dstIdx s1)])) as [H1 H2 H3 H4].
      { apply addRules_installable; [done|]. constructor; [apply ipAdd_lookup|constructor]. }
      by split.
Qed.

(** Every route of the plan is for one of its tables. *)
Record tabled (p : plan) : Prop := {
  tb_routes : Forall (λ a, ∃ r, parseRoute a = Some r ∧ isTable p (rt_table r)) (p_tableRoutes p);
  tb_geo : Forall (λ g, isTable p (Itoa (gb_table g))) (p_geo p);
}.

Lemma tabled_more p tables routes geo main rules ipt :
  tabled p → Forall (λ a, ∃ t r, t ∈ tables ∧ parseRoute a = Some r ∧ rt_table r = Itoa t) routes → Forall (λ g, gb_table g ∈ tables) geo →
  tabled (MkPlan (p_tables p ++ tables) (p_tableRoutes p ++ routes) main rules ipt (p_geo p ++ geo)).
Proof.
  intros [Ht Hg] Hr Hn. unfold isTable in *. rewrite Forall_forall in Ht. rewrite Forall_forall in Hg. rewrite Forall_forall in Hr. rewrite Forall_forall in Hn.
  split; apply Forall_forall; cbn [p_tableRoutes p_geo]; unfold isTable; cbn [p_tables]; intros a [Ha|Ha]%elem_of_app.
  - destruct (Ht a Ha) as (r & Hp & Hin). exists r. split; [done|]. rewrite map_app. apply elem_of_app. by left.
  - destruct (Hr a Ha) as (t & r & Hin & Hp & Htab). exists r. split; [done|]. rewrite Htab. apply list_elem_of_fmap. exists t. split; [done|]. apply elem_of_app. by right.
  - rewrite map_app. apply elem_of_app. left. by apply Hg.
  - apply list_elem_of_fmap. exists (gb_table a). split; [done|]. apply elem_of_app. right. by apply Hn.
Qed.

Lemma tabled_same p main rules ipt : tabled p → tabled (MkPlan (p_tables p) (p_tableRoutes p) main rules ipt (p_geo p)).
Proof. intros [Ht Hg]. by split. Qed.

Lemma lower_tabled readFile n wans p : lower readFile n wans = Ok p → tabled p.
Proof.
  unfold lower. intros (es & Hes & H)%res_bind_ok. apply res_bind_ok in H as (s & Hs & H). injection H as <-.
  assert (tabled (es_plan es)) as He.
  { eapply (Config.rangeM_inv _ (λ es, tabled (es_plan es)) _ _ _ _ _ Hes). Unshelve. 2: { split; constructor. }
    intros s1 name s2 _ Hp H. unfold egressStep in H. fold (wanOf wans name) in H. set (t := (tableEgressBase + es_index s1)%Z) in *.
    assert (∀ main ipt, tabled (MkPlan (p_tables (es_plan s1) ++ [t]) (p_tableRoutes (es_plan s1) ++ [defaultRoute (wanOf wans name) t]) main
      (p_rules (es_plan s1)) ipt (p_geo (es_plan s1)))%list) as Hn.
    { intros main ipt. pose proof (tabled_more (es_plan s1) [t] [defaultRoute (wanOf wans name) t] [] main (p_rules (es_plan s1)) ipt Hp) as Hm.
      rewrite (app_nil_r (p_geo (es_plan s1))) in Hm. apply Hm; [|constructor]. constructor; [|constructor]. eexists t, _. split; [left|]. split; [apply parseRoute_default|done]. }
    destruct (wn_ep (wanOf wans name)) as [ep|]; [|injection H as <-; apply Hn].
    destruct (es_pinned s1 !! u_ip ep); [rewrite Config.check_ok in H; destruct H as [_ H]|]; injection H as <-; apply Hn. }
  eapply (Config.rangeM_inv _ (λ s, tabled (lo_plan s)) _ _ _ _ _ Hs). Unshelve.
  2: { cbn [lo_plan]. by apply tabled_same. }
  intros s1 f s2 _ Hp H. unfold forwardStep in H. destruct (Config.f_When f) as [|w ws]; [injection H as <-; by apply tabled_same|].
  destruct (Config.d_SrcIn _) as [set|]; [|destruct (Config.d_DstIn _) as [set|]; [|done]].
  - apply res_bind_ok in H as (ips & _ & H). injection H as <-. generalize dependent s1. induction ips as [|ip ips IH]; intros s1 Hp; [done|]. cbn [fold_left]. apply IH.
    unfold srcStep. destruct (_ && _); cbn [lo_plan]; by repeat apply tabled_same.
  - injection H as <-. cbn [lo_plan]. set (t := (tableGeoBase + lo_dstIdx s1)%Z). set (g := MkGeo w set t _).
    pose proof (tabled_more (lo_plan s1) [t] [] [g] (p_mainRoutes (lo_plan s1)) (p_rules (addRules (lo_plan s1) [ruleLookup (prioDstBase + lo_dstIdx s1) "" t]))
      (p_iptables (lo_plan s1)) Hp) as Hm. rewrite (app_nil_r (p_tableRoutes (lo_plan s1))) in Hm. apply Hm; [constructor|]. constructor; [left|constructor].
Qed.

Section routed.
Context (readFile : string → option string).
Context {K : Type} `{MK : Machine K} `{ML : !MachineLaws K} `{RL : !RouteLaws K}.

(** The ip_forward file said something, and writing that back succeeds. *)
Definition restorable (k : K) : Prop :=
  let prev := forwardValue (forwarding k) in prev ≠ "" ∧ ∀ k', (exec (SetForward prev) k').1 = true.

(** The flushes: every one of the plan's tables is emptied, in the chain and now. *)
Lemma flush_loop ts (w : world (K := K)) :
  ∃ w', loop flushTable ts w = (true, w') ∧ w_chain w' = (w_chain w ++ map flushOp ts)%list ∧ forwarding (w_k w') = forwarding (w_k w) ∧
  ∀ t, table (w_k w') t = if decide (t ∈ map Itoa ts) then [] else table (w_k w) t.
Proof.
  revert w. induction ts as [|t0 ts IH]; intros w; cbn [loop map].
  { exists w. by rewrite app_nil_r. }
  unfold flushTable at 1. fold (flushOp t0). unfold run, addUndo.
  pose proof (exec_flush (flushOp t0) (Itoa t0) (w_k w) (flushOp_effect t0)) as Hf.
  pose proof (exec_unforward (flushOp t0) (w_k w) ltac:(by rewrite flushOp_effect)) as Hn.
  assert (∀ t, t ≠ Itoa t0 → table (exec (flushOp t0) (w_k w)).2 t = table (w_k w) t) as Ho by (intros t Ht; apply exec_table; rewrite flushOp_effect; [congruence|done]).
  destruct (exec (flushOp t0) (w_k w)) as [ok k1]. cbn [snd w_k w_wait w_chain] in *.
  destruct (IH (MkWorld k1 (w_wait w) (w_chain w ++ [flushOp t0])%list)) as (w' & -> & Hc & Hfw & Ht). cbn [w_k w_chain] in *. exists w'. split; [done|].
  split; [by rewrite Hc, <- app_assoc|]. split; [congruence|]. intros t. rewrite Ht.
  destruct (decide (t ∈ map Itoa ts)) as [Hin|Hin]; [by rewrite decide_True by by right|].
  destruct (decide (t = Itoa t0)) as [->|Hne]; [by rewrite decide_True by left|]. rewrite decide_False; [by apply Ho|]. by intros [?|?]%elem_of_cons.
Qed.

(** The undo of ip_forward that [enableForward] leaves, and what it does. *)
Definition forwardUndo (k : K) : list op :=
  let prev := forwardValue (forwarding k) in if (prev =? "1") || (prev =? "") then [] else [SetForward prev].

Lemma enableForward_spec (k : K) wait :
  let '(ok, w) := enableForward (MkWorld k wait []) in
  (∀ t, table (w_k w) t = table k t) ∧ if ok then forwardValue (forwarding (w_k w)) = "1" ∧ w_chain w = forwardUndo k else forwarding (w_k w) = forwarding k ∧ w_chain w = [].
Proof.
  unfold enableForward, forwardUndo. cbn [w_k]. destruct (forwardValue (forwarding k) =? "1") eqn:H1; [apply String.eqb_eq in H1; done|].
  unfold run. cbn [w_k w_wait w_chain orb]. pose proof (exec_forward "1" k) as Hf. pose proof (λ t, exec_table (SetForward "1") k t ltac:(done) ltac:(done)) as Ht.
  destruct (exec (SetForward "1") k) as [[] k1]; cbn [snd] in *; [|done]. by destruct (forwardValue (forwarding k) =? "").
Qed.

(** What the installation does to the tables and to ip_forward, and the chain it
    leaves: ip_forward's undo, the flushes, deletions. *)
Lemma applySteps_routed (p : plan) (k : K) wait : installable p → tabled p →
  let '(ok, w) := applySteps readFile p (MkWorld k wait []) in
  (ok = false ∧ w_chain w = [] ∧ forwarding (w_k w) = forwarding k ∧ ∀ t, table (w_k w) t = table k t) ∨
  (∃ dels, w_chain w = (forwardUndo k ++ map flushOp (p_tables p) ++ dels)%list ∧ Forall isDel dels) ∧ forwardValue (forwarding (w_k w)) = "1" ∧
  (ok = true → ∀ t, isTable p t → table (w_k w) t = planTable readFile p t) ∧ ∀ t, ¬ isTable p t → table (w_k w) t = table k t.
Proof.
  intros [Im Ir Ii _] [Tr Tg]. unfold applySteps, andThen at 1. pose proof (enableForward_spec k wait) as He.
  destruct (enableForward (MkWorld k wait [])) as [[] w1]; [|left; destruct He as (H1 & H2 & H3); done]. destruct He as (E1 & E2 & E3).
  unfold andThen at 1. destruct (flush_loop (p_tables p) w1) as (w2 & -> & F1 & F2 & F3). 
  pose proof (later_geo readFile (map Itoa (p_tables p)) (p_geo p) Tg) as L. pose proof (later_andThen _ _ _ _ _ (later_iptables (map Itoa (p_tables p)) _ Ii) L) as L1.
  pose proof (later_andThen _ _ _ _ _ (later_adds (map Itoa (p_tables p)) _ Ir) L1) as L2. pose proof (later_andThen _ _ _ _ _ (later_adds (map Itoa (p_tables p)) _ Im) L2) as L3.
  pose proof (later_andThen _ _ _ _ _ (later_routes (map Itoa (p_tables p)) _ Tr) L3) as [A1 A2 A3 A4]. clear L L1 L2 L3.
  specialize (A1 w2). specialize (A2 w2). specialize (A3 w2). specialize (A4 w2). destruct (andThen _ _ w2) as [ok w]. cbn [fst snd] in *. right.
  destruct A4 as (dels & A4 & Hd). split; [exists dels; split; [by rewrite A4, F1, E3, <- app_assoc|done]|]. split; [by rewrite A3, F2|]. unfold isTable. split.
  - intros Hok t Ht. rewrite (A1 Hok t), F3, decide_True by done. done.
  - intros t Ht. rewrite (A2 t Ht), F3, decide_False by done. apply E1.
Qed.

(** Undoing deletions and flushes: tables flushed are empty, others and
    ip_forward stay. *)
Lemma undo_quiet ops acc : Forall (λ o, isDel o ∨ ∃ t, o = flushOp t) ops →
  let k' := (fold_left (λ '(ok, k) o, let '(ok', k') := exec o k in (ok && ok', k')) ops acc).2 in
  forwarding k' = forwarding acc.2 ∧ (∀ t, flushOp t ∈ ops ∨ table acc.2 (Itoa t) = [] → table k' (Itoa t) = []) ∧
  ∀ t, (∀ z, flushOp z ∈ ops → Itoa z ≠ t) → table k' t = table acc.2 t.
Proof.
  intros Hq. revert acc. induction Hq as [|o ops Ho Hq IH]; intros [ok k]; cbn [fold_left snd]; [split; [done|split; [intros t [?%elem_of_nil|?]; done|done]]|].
  assert (forwarding (exec o k).2 = forwarding k) as Hf.
  { apply exec_unforward. intros v He. destruct Ho as [[key Hd]|[t ->]]; [congruence|by rewrite flushOp_effect in He]. }
  assert (∀ t, (∀ z, o = flushOp z → Itoa z ≠ t) → table (exec o k).2 t = table k t) as Ht.
  { intros t Hz. apply exec_table; destruct Ho as [[key Hd]|[z ->]]; rewrite ?Hd, ?flushOp_effect; try done. intros [= He]. by apply (Hz z). }
  assert (∀ z, o = flushOp z → table (exec o k).2 (Itoa z) = []) as He by (intros z ->; apply exec_flush, flushOp_effect).
  destruct (exec o k) as [ok' k']. cbn [snd] in *. destruct (IH (ok && ok', k')) as (I1 & I2 & I3). cbn [snd] in *. split; [congruence|]. split.
  - intros t Hin. apply I2. destruct (decide (flushOp t ∈ ops)) as [|Hno]; [by left|]. right.
    destruct Hin as [[Ht0|?]%elem_of_cons|Hem]; [by apply He|done|].
    destruct Ho as [[key Hd]|[z ->]]; [rewrite Ht; [done|intros z ->; by rewrite flushOp_effect in Hd]|].
    destruct (decide (Itoa z = Itoa t)) as [<-|Hzt]; [by apply He|]. rewrite Ht; [done|]. intros z' [= Hz']. congruence.
  - intros t Hz. rewrite I3; [|intros z Hin; apply Hz; by right]. apply Ht. intros z ->. apply Hz. left.
Qed.
(** The destination sets were readable when the installation succeeded; it
    succeeds when they are and no command that adds is refused. *)
Definition readable (g : geoBinding) : Prop := ∃ l, readPrefixes readFile (gb_set g) = Ok l.
Definition adding (o : op) : Prop := match effectOf o with EForward _ | EAdd _ | EFill _ => True | _ => False end.

Lemma loop_ok {A} (body : A → world (K := K) → bool * world (K := K)) l w :
  (loop body l w).1 = true → ∀ x, x ∈ l → ∃ w1, (body x w1).1 = true.
Proof.
  revert w. induction l as [|y l IH]; intros w Hok x Hx; [by apply elem_of_nil in Hx|]. cbn [loop] in Hok.
  destruct (body y w) as [[] w1] eqn:Hb; [|done]. apply elem_of_cons in Hx as [->|Hx]; [exists w; by rewrite Hb|by apply (IH w1)].
Qed.

Lemma loadGeo_ok g w : (loadGeo readFile g w).1 = true → readable g.
Proof. unfold loadGeo, readable. destruct (readPrefixes readFile (gb_set g)) as [l|]; [by eexists|done]. Qed.

Lemma andThen_ok m n (w : world (K := K)) : (andThen m n w).1 = true → (m w).1 = true ∧ (n (m w).2).1 = true.
Proof. unfold andThen. by destruct (m w) as [[] w1]. Qed.

Lemma applySteps_readable p w : (applySteps readFile p w).1 = true → Forall readable (p_geo p).
Proof.
  unfold applySteps. intros H. repeat (apply andThen_ok in H as [_ H]). apply Forall_forall. intros g Hg.
  destruct (loop_ok _ _ _ H g Hg) as [w1 H1]. by apply loadGeo_ok in H1.
Qed.

(** However it is driven from [k], the machine refuses no command that adds. *)
Definition unrefusing (k : K) : Prop :=
  ∃ I : K → Prop, I k ∧ (∀ o k', I k' → I (exec o k').2) ∧ ∀ o k', I k' → adding o → (exec o k').1 = true.

Context (I : K → Prop) (I_exec : ∀ o k, I k → I (exec o k).2) (unrefused : ∀ o k, I k → adding o → (exec o k).1 = true).

(** A step that cannot fail. *)
Definition sure (m : world (K := K) → bool * world (K := K)) : Prop := ∀ w, I (w_k w) → (m w).1 = true ∧ I (w_k (m w).2).

Lemma sure_andThen m n : sure m → sure n → sure (andThen m n).
Proof. intros Hm Hn w Hw. unfold andThen. destruct (Hm w Hw) as [H1 H2]. destruct (m w) as [[] w1]; [by apply Hn|done]. Qed.

Lemma sure_loop {A} (body : A → world (K := K) → bool * world (K := K)) l : Forall (λ x, sure (body x)) l → sure (loop body l).
Proof. induction 1 as [|x l Hx _ IH]; intros w Hw; [done|]. cbn [loop]. destruct (Hx w Hw) as [H1 H2]. destruct (body x w) as [[] w1]; [by apply IH|done]. Qed.

Lemma run_kept o w : I (w_k w) → I (w_k (run o w).2).
Proof. intros Hw. unfold run. pose proof (I_exec o (w_k w) Hw) as H. by destruct (exec o (w_k w)). Qed.

Lemma sure_run o : adding o → sure (run o).
Proof. intros Ho w Hw. split; [|by apply run_kept]. unfold run. pose proof (unrefused o (w_k w) Hw Ho) as H. by destruct (exec o (w_k w)). Qed.

Lemma sure_replace add del key : effectOf (Run add) = EAdd key → sure (replace add del).
Proof.
  intros Ha w Hw. unfold replace. destruct (sure_run (Run add) ltac:(unfold adding; by rewrite Ha) (run (Run del) w).2 (run_kept _ w Hw)) as [H1 H2].
  by destruct (run (Run add) _) as [[] w2].
Qed.

Lemma wait_kept w : I (w_k w) → I (w_k (iptablesSupportsWait w).2).
Proof.
  intros Hw. unfold iptablesSupportsWait. destruct (w_wait w); [done|]. set (o := Run _). pose proof (run_kept o w Hw) as H. by destruct (run o w).
Qed.

Lemma sure_iptables r : iptRule r → sure (installIptables r).
Proof.
  intros Hr w Hw. unfold installIptables, iptablesCmd. pose proof (wait_kept w Hw) as H1. destruct (iptablesSupportsWait w) as [b w1]. cbn [snd] in H1.
  pose proof (wait_kept w1 H1) as H2. destruct (iptablesSupportsWait w1) as [b' w2]. destruct (ipt_effect b' r Hr) as [Ha _]. by apply (sure_replace _ _ _ Ha).
Qed.

Lemma sure_geo g : readable g → sure (loadGeo readFile g).
Proof.
  intros [l Hl] w Hw. unfold loadGeo. rewrite Hl. set (o := Run _). pose proof (run_kept o w Hw) as H. destruct l; [done|]. by apply sure_run.
Qed.

Lemma applySteps_sure p : installable p → Forall readable (p_geo p) → sure (applySteps readFile p).
Proof.
  intros [Im Ir Ii It] Hg. unfold applySteps.
  assert (∀ l, Forall ipAdd l → Forall (λ a, sure (installIp a)) l) as Hadd.
  { intros l Hl. eapply Forall_impl; [exact Hl|]. intros a Ha. destruct (ipAdd_effect a Ha) as [H1 _]. by apply (sure_replace _ _ _ H1). }
  repeat apply sure_andThen; try apply sure_loop; auto.
  - intros w Hw. unfold enableForward. destruct (_ =? "1"); [done|]. destruct (sure_run (SetForward "1") Logic.I w Hw) as [H1 H2].
    destruct (run (SetForward "1") w) as [[] w1]; [|done]. by destruct (_ =? "").
  - apply Forall_forall. intros t _ w Hw. split; [done|]. by apply run_kept.
  - eapply Forall_impl; [exact It|]. intros a [r Hr]. apply sure_run. unfold adding. cbn [effectOf]. unfold runEffect. by rewrite Hr.
  - eapply Forall_impl; [exact Ii|]. intros r. apply sure_iptables.
  - eapply Forall_impl; [exact Hg|]. intros g. apply sure_geo.
Qed.
End routed.

(** The rules and routes of main, installed and torn down. *)
Lemma apply_objects {K} `{MachineLaws K} readFile p (k : K) wait : installable p → (∀ x, x ∈ planKeys p → (copies k x ≤ 1)%nat) →
  let '(ok, w) := applySteps readFile p (MkWorld k wait []) in
  let down := w_k (teardown w).2 in
  if ok then (∀ x, copies (w_k w) x = if decide (x ∈ planKeys p) then 1%nat else copies k x) ∧
    (∀ x, copies down x = if decide (x ∈ planKeys p) then 0%nat else copies k x)
  else ∀ x, copies down x = copies k x ∨ x ∈ planKeys p ∧ copies down x = 0%nat.
Proof.
  intros Hi Hk.
  assert (good k [] [] (MkWorld k wait [])) as Hg.
  { split; cbn; [done|constructor|by intros o ?%elem_of_nil|]. intros x. by rewrite decide_False by apply not_elem_of_nil. }
  assert (∀ x : argv, x ∈ [] → x ∈ planKeys p) as Hnil by by intros x ?%elem_of_nil.
  pose proof (does_applySteps readFile k (planKeys p) Hk p Hi (λ x Hx, Hx) [] [] (MkWorld k wait []) Hg Hnil) as Hd. clear Hg Hnil.
  destruct (applySteps readFile p (MkWorld k wait [])) as [ok w]. cbn [fst snd app] in Hd.
  assert (∀ w : world (K := K), w_k (teardown w).2 = (undoAll (w_chain w) (w_k w)).2) as Ht by (intros [k1 b c]; unfold teardown; cbn [w_chain w_k w_wait]; by destruct (undoAll c k1)).
  cbv zeta. rewrite Ht. destruct ok.
  - destruct Hd as [Hc Hu Hm Hcp]. split; [exact Hcp|]. destruct (undoAll_spec (w_chain w) (w_k w) Hu) as [U1 _].
    { intros x. rewrite Hc, Hcp. intros Hx. by rewrite decide_True. }
    rewrite Hc in U1. intros x. rewrite U1, Hcp. by destruct (decide (x ∈ planKeys p)).
  - destruct Hd as [Hu Hx Hr]. intros x. destruct (undoAll_spec (w_chain w) (w_k w) Hu (λ x Hin, proj2 (Hx x Hin))) as [U1 _]. rewrite U1.
    destruct (decide (x ∈ omap delKey (w_chain w))) as [Hin|Hin]; [right; split; [by apply Hx|done]|by apply Hr].
Qed.

(** The tables and ip_forward, torn down. *)
Lemma undoAll_routed {K} `{MachineLaws K} `{!RouteLaws K} p (k : K) (w : world (K := K)) dels :
  w_chain w = (forwardUndo k ++ map flushOp (p_tables p) ++ dels)%list → Forall isDel dels →
  let down := (undoAll (w_chain w) (w_k w)).2 in
  (∀ t, isTable p t → table down t = []) ∧ (∀ t, ¬ isTable p t → table down t = table (w_k w) t) ∧
  (forwardValue (forwarding (w_k w)) = "1" → restorable k → forwardValue (forwarding down) = forwardValue (forwarding k)).
Proof.
  intros Hc Hd down. subst down. unfold undoAll. rewrite Hc, rev_app_distr, fold_left_app. set (quiet := rev (map flushOp (p_tables p) ++ dels)).
  assert (∀ o, o ∈ quiet ↔ o ∈ (map flushOp (p_tables p) ++ dels)%list) as Hq.
  { intros o. unfold quiet. rewrite !list_elem_of_In, <- in_rev. done. }
  assert (Forall (λ o, isDel o ∨ ∃ t, o = flushOp t) quiet) as Hall.
  { apply Forall_forall. intros o Ho. apply Hq, elem_of_app in Ho as [(t & -> & _)%list_elem_of_fmap|Ho]; [right; by exists t|left]. by apply (proj1 (Forall_forall _ _) Hd). }
  destruct (undo_quiet quiet (true, w_k w) Hall) as (Q1 & Q2 & Q3). cbn [snd] in *. destruct (fold_left _ quiet (true, w_k w)) as [okq kq]. cbn [snd] in *.
  assert (∀ t, table (fold_left (λ '(ok, k) o, let '(ok', k') := exec o k in (ok && ok', k')) (rev (forwardUndo k)) (okq, kq)).2 t = table kq t) as Hfin.
  { intros t. unfold forwardUndo. destruct (_ || _); [done|]. cbn [rev app fold_left]. pose proof (exec_table (SetForward (forwardValue (forwarding k))) kq t ltac:(done) ltac:(done)) as H1.
    by destruct (exec _ kq). }
  split; [|split].
  - intros t Ht. rewrite Hfin. unfold isTable in Ht. apply list_elem_of_fmap in Ht as (z & -> & Hz). apply Q2. left. apply Hq, elem_of_app. left. apply list_elem_of_fmap. by exists z.
  - intros t Ht. rewrite Hfin. apply Q3. intros z Hz <-. apply Ht. unfold isTable. apply list_elem_of_fmap.
    apply Hq, elem_of_app in Hz as [(z' & Hz & Hin)%list_elem_of_fmap|Hz]; [exists z'; split; [|done]; unfold flushOp in Hz; congruence|].
    destruct (proj1 (Forall_forall _ _) Hd _ Hz) as [key Hkey]. by rewrite flushOp_effect in Hkey.
  - intros Hone (Hne & Hok). unfold forwardUndo. apply String.eqb_neq in Hne. rewrite Hne, orb_false_r.
    destruct (forwardValue (forwarding k) =? "1") eqn:H1; [apply String.eqb_eq in H1; cbn [rev fold_left snd]; by rewrite Q1, H1|].
    cbn [rev app fold_left]. pose proof (exec_forward (forwardValue (forwarding k)) kq) as Hf. specialize (Hok kq). destruct (exec _ kq) as [ok2 k2]. cbn [fst snd] in *. subst ok2. rewrite Hf.
    unfold forwardValue. by rewrite chars_unchars, trim_idempotent.
Qed.

(** ** Theorems *)

(** Claim C12.  Installing a kernel node's plan is idempotent and reversible, on
    any machine that behaves as iproute2, iptables and the ip_forward file do.
    Over a machine that holds at most one leaked copy of each rule and route of the
    plan, [apply] succeeds when the destination sets can be read and no command
    that adds is refused.  When it succeeds, every rule and route of the plan is
    installed exactly once, each of the plan's tables holds exactly its default
    routes or the routes of its destination set, forwarding is on and nothing else
    changed; its teardown removes all of them, empties the plan's tables, writes the
    previous ip_forward value back and touches nothing else.  When it fails, at
    whatever command, nothing that was not there before is left: of the rules and
    routes at most a leaked copy is gone, the plan's tables are empty or untouched
    and the ip_forward value is the previous one (when the file could be read and
    accepts the write). *)
Theorem apply_reversible {K} `{MachineLaws K} `{!RouteLaws K} readFile n wans p (k : K) wait :
  lower readFile n wans = Ok p → (∀ x, x ∈ planKeys p → (copies k x ≤ 1)%nat) →
  let '(ok, w) := apply readFile p (MkWorld k wait []) in
  let down := w_k (teardown w).2 in
  (Forall (readable readFile) (p_geo p) → unrefusing k → ok = true) ∧
  (ok = true →
    Forall (readable readFile) (p_geo p) ∧
    (∀ x, copies (w_k w) x = if decide (x ∈ planKeys p) then 1%nat else copies k x) ∧
    (∀ t, table (w_k w) t = if decide (isTable p t) then planTable readFile p t else table k t) ∧
    forwardValue (forwarding (w_k w)) = "1" ∧
    (∀ x, copies down x = if decide (x ∈ planKeys p) then 0%nat else copies k x) ∧
    (∀ t, table down t = if decide (isTable p t) then [] else table k t) ∧
    (restorable k → forwardValue (forwarding down) = forwardValue (forwarding k))) ∧
  (ok = false →
    (∀ x, copies (w_k w) x = copies k x ∨ x ∈ planKeys p ∧ copies (w_k w) x = 0%nat) ∧
    (∀ t, table (w_k w) t = table k t ∨ isTable p t ∧ table (w_k w) t = []) ∧
    (restorable k → forwardValue (forwarding (w_k w)) = forwardValue (forwarding k))).
Proof.
  intros Hl Hk. pose proof (lower_installable _ _ _ _ Hl) as Hi. pose proof (lower_tabled _ _ _ _ Hl) as Htb. unfold apply.
  pose proof (apply_objects readFile p k wait Hi Hk) as Ho. pose proof (applySteps_routed readFile p k wait Hi Htb) as Hr.
  pose proof (applySteps_readable readFile p (MkWorld k wait [])) as Hrd. 
  assert (Forall (readable readFile) (p_geo p) → unrefusing k → (applySteps readFile p (MkWorld k wait [])).1 = true) as Hs.
  { intros Hg (I & H1 & H2 & H3). by apply (applySteps_sure readFile I H2 H3 p Hi Hg (MkWorld k wait [])). }
  destruct (applySteps readFile p (MkWorld k wait [])) as [ok w]. cbn [fst snd] in *.
  assert (∀ w : world (K := K), w_k (teardown w).2 = (undoAll (w_chain w) (w_k w)).2) as Ht by (intros [k1 b c]; unfold teardown; cbn [w_chain w_k w_wait]; by destruct (undoAll c k1)).
  destruct Hr as [(-> & Hc & Hf & Htab)|((dels & Hc & Hd) & Hf & Htab & Hout)].
  - split; [intros H1 H2; by apply Hs|]. split; [done|]. intros _. cbv zeta in Ho. rewrite Ht, Hc in Ho. rewrite Ht, Hc. change (undoAll [] (w_k w)).2 with (w_k w) in *. split; [exact Ho|]. split; [left; apply Htab|intros _; by rewrite Hf].
  - pose proof (undoAll_routed p k w dels Hc Hd) as (U1 & U2 & U3). destruct ok.
    + split; [done|]. split; [|done]. intros _. destruct Ho as [O1 O2]. rewrite Ht in *. split; [by apply Hrd|]. split; [exact O1|]. split.
      { intros t. destruct (decide (isTable p t)); auto. } split; [exact Hf|]. split; [exact O2|]. split; [|exact (U3 Hf)].
      intros t. destruct (decide (isTable p t)) as [Hin|Hin]; [by apply U1|]. rewrite U2 by done. by apply Hout.
    + split; [intros H1 H2; by apply Hs|]. split; [done|]. intros _. rewrite Ht in *. split; [exact Ho|]. split; [|exact (U3 Hf)].
      intros t. destruct (decide (isTable p t)) as [Hin|Hin]; [right; split; [done|by apply U1]|left]. rewrite U2 by done. by apply Hout.
Qed.

(** Claim C40.  Loading a destination set replaces its table: when the commands
    succeed the table holds one route per prefix of the set as it reads now,
    through the branch's egress, in order and nothing of what it held before; a set
    that cannot be read leaves the table empty and is an error.  No other table,
    rule or route changes. *)
Theorem geo_reload_exact {K} `{MachineLaws K} readFile g (w : world (K := K)) :
  let '(ok, w') := loadGeo readFile g w in
  match readPrefixes readFile (gb_set g) with
  | Err _ => ok = false ∧ table (w_k w') (Itoa (gb_table g)) = []
  | Ok l => ok = true → table (w_k w') (Itoa (gb_table g)) = map (λ p, geoRoute p (gb_wan g) (gb_table g)) l
  end ∧ (∀ t, t ≠ Itoa (gb_table g) → table (w_k w') t = table (w_k w) t) ∧ ∀ x, copies (w_k w') x = copies (w_k w) x.
Proof. exact (loadGeo_spec readFile g w). Qed.

(** ** A concrete machine *)

(** It holds the ip_forward value, the rules and routes by their deletions, and
    the routes of numbered tables; [km_refuses] makes commands that add fail. *)
Record machine := MkMachine { km_forward : string; km_objects : list argv; km_tables : list (string * argv); km_refuses : op → bool }.

Fixpoint removeOne (x : argv) (l : list argv) : list argv :=
  match l with [] => [] | y :: l' => if decide (y = x) then l' else y :: removeOne x l' end.

Definition machineExec (o : op) (k : machine) : bool * machine :=
  match effectOf o with
  | EForward v => (true, MkMachine v (km_objects k) (km_tables k) (km_refuses k))
  | EAdd key => if km_refuses k o then (false, k) else (true, MkMachine (km_forward k) (key :: km_objects k) (km_tables k) (km_refuses k))
  | EDel key => (bool_decide (key ∈ km_objects k), MkMachine (km_forward k) (removeOne key (km_objects k)) (km_tables k) (km_refuses k))
  | EFlush t => (true, MkMachine (km_forward k) (km_objects k) (base.filter (λ e, e.1 ≠ t) (km_tables k)) (km_refuses k))
  | EFill ts =>
      let added := match o with
        | Run a => omap (λ a, (λ r, (rt_table r, a)) <$> parseRoute a) [a]
        | Batch lines => omap (λ a, (λ r, (rt_table r, a)) <$> parseRoute a) (map (cons "ip") lines)
        | SetForward _ => []
        end in
      if km_refuses k o then (false, k) else (true, MkMachine (km_forward k) (km_objects k) (km_tables k ++ added)%list (km_refuses k))
  | ENone => (true, k)
  end.

#[export] Instance machine_Machine : Machine machine := {
  exec := machineExec;
  forwarding := km_forward;
  copies k x := length (base.filter (λ y, y = x) (km_objects k));
  table k t := map snd (base.filter (λ e, e.1 = t) (km_tables k));
}.

Lemma removeOne_copies x l y :
  length (base.filter (λ z, z = y) (removeOne x l)) =
  if decide (y = x) then pred (length (base.filter (λ z, z = y) l)) else length (base.filter (λ z, z = y) l).
Proof.
  induction l as [|z l IH]; [by destruct (decide (y = x))|]. cbn [removeOne]. rewrite filter_cons. destruct (decide (z = x)) as [->|Hz].
  - destruct (decide (x = y)) as [->|Hne]; [by rewrite decide_True|]. by rewrite (decide_False (P := y = x)).
  - rewrite filter_cons. destruct (decide (z = y)) as [->|Hy]; [by rewrite decide_False in * by done; cbn; rewrite IH|done].
Qed.

Lemma machineExec_objects o (k : machine) : (∀ key, effectOf o ≠ EAdd key ∧ effectOf o ≠ EDel key) → km_objects (machineExec o k).2 = km_objects k.
Proof.
  intros H. unfold machineExec. destruct (effectOf o) as [v|key|key|t|ts|] eqn:He; try done; [by destruct (H key)|by destruct (H key)|].
  by destruct (km_refuses k o).
Qed.

Lemma filter_tagged t (l : list argv) :
  map snd (base.filter (λ e : string * argv, e.1 = t) (omap (λ a, (λ r, (rt_table r, a)) <$> parseRoute a) l)) =
  base.filter (λ a, rt_table <$> parseRoute a = Some t) l.
Proof.
  induction l as [|a l IH]; [done|]. rewrite filter_cons. cbn [omap list_omap]. fold (omap (λ a, (λ r, (rt_table r, a)) <$> parseRoute a) l).
  destruct (parseRoute a) as [r|] eqn:Hp; cbn [fmap option_fmap option_map]; [|by rewrite decide_False by done].
  rewrite filter_cons. cbn [fst]. destruct (decide (rt_table r = t)) as [->|Hne].
  - rewrite decide_True by done. cbn [map snd]. by rewrite IH.
  - rewrite decide_False by congruence. exact IH.
Qed.

#[export] Instance machine_laws : MachineLaws machine.
Proof.
  split.
  - intros o key k He. unfold exec, copies, machine_Machine, machineExec. rewrite He. destruct (km_refuses k o); [done|]. cbn [km_objects].
    rewrite filter_cons_True by done. split; [done|]. intros x Hx. by rewrite filter_cons_False.
  - intros o key k He. unfold exec, copies, machine_Machine, machineExec. rewrite He. cbn [snd km_objects]. rewrite !removeOne_copies, decide_True by done.
    split; [done|]. intros x Hx. by rewrite removeOne_copies, decide_False.
  - intros o k Ho x. cbn. by rewrite machineExec_objects.
  - intros o t k He. cbn. unfold machineExec. rewrite He. cbn [snd km_tables]. rewrite list_filter_filter.
    assert (base.filter (λ x : string * argv, x.1 = t ∧ x.1 ≠ t) (km_tables k) = []) as ->; [|done].
    apply filter_none, Forall_forall. tauto.
  - intros lines k t. cbn. unfold machineExec. cbn [effectOf]. destruct (km_refuses k (Batch lines)); [done|]. intros _. cbn [snd km_tables].
    by rewrite filter_app, map_app, filter_tagged.
  - intros o k t Hf Ht. cbn. unfold machineExec. destruct (effectOf o) as [v|key|key|t'|ts|] eqn:He; try done.
    + by destruct (km_refuses k o).
    + cbn [snd km_tables]. rewrite list_filter_filter. f_equal. apply list_filter_iff. intros e. cbn. split; [tauto|]. intros <-. split; [done|congruence].
    + destruct (km_refuses k o); [done|]. cbn [snd km_tables]. specialize (Ht ts eq_refl). rewrite filter_app, map_app. 
      match goal with |- (?a ++ ?b)%list = _ => assert (b = []) as ->; [|by rewrite app_nil_r] end.
      destruct o as [v|a|lines]; [done| |].
      * rewrite filter_tagged. cbn [effectOf] in He. unfold runEffect in He. rewrite filter_cons. destruct (parseRoute a) as [r|].
        { injection He as <-. rewrite decide_False; [done|]. intros Hx. apply Ht. assert (rt_table r = t) as -> by (cbn in Hx; congruence). left. }
        by rewrite decide_False.
      * rewrite filter_tagged. apply filter_none, Forall_forall. intros a (l & -> & Hl)%list_elem_of_fmap Hp. apply Ht.
        cbn [effectOf] in He. injection He as <-. apply list_elem_of_omap. by exists l.
Qed.

#[export] Instance machine_routes : RouteLaws machine.
Proof.
  split.
  - intros a r k t Hp. cbn. unfold machineExec. cbn [effectOf]. unfold runEffect. rewrite Hp. destruct (km_refuses k (Run a)); [done|]. intros _. cbn [snd km_tables omap list_omap].
    rewrite Hp. cbn [fmap option_fmap option_map]. rewrite filter_app, map_app, filter_cons. cbn [fst]. by destruct (decide (rt_table r = t)).
  - intros v k. by cbn.
  - intros o k Ho. cbn. unfold machineExec. destruct (effectOf o) as [v|key|key|t|ts|] eqn:He; try done; [by destruct (Ho v)|by destruct (km_refuses k o)..].
Qed.

(** A machine left with one of the plan's rules by a crash, and the same machine
    refusing the masquerading rule of the second egress. *)
Definition leaky : machine :=
  MkMachine "0" [withVerb (ruleLookup prioDefault "" 301) "del"; ["ip"; "rule"; "del"; "foreign"]] [("300", ["stale"]); ("777", ["foreign"])] (λ _, false).
Definition refusing : machine :=
  MkMachine "0" (km_objects leaky) (km_tables leaky) (λ o, bool_decide (o = Run ["iptables"; "-w"; "-t"; "nat"; "-A"; "POSTROUTING"; "-o"; "sat0"; "-j"; "MASQUERADE"])).

Lemma demo_leaks (k : machine) : km_objects k = km_objects leaky → ∀ x, x ∈ planKeys demoPlan → (copies k x ≤ 1)%nat.
Proof.
  intros Hk x Hx. cbn. rewrite Hk. 
  assert (forallb (λ x, (length (base.filter (λ y, y = x) (km_objects leaky)) <=? 1)%nat) (planKeys demoPlan) = true) as H by (vm_compute; reflexivity).
  rewrite List.forallb_forall in H. apply Nat.leb_le, H. by apply list_elem_of_In.
Qed.

Lemma leaky_unrefusing : unrefusing leaky.
Proof.
  exists (λ k, km_refuses k = λ _, false). split; [done|]. split; intros o k Hk; cbn; unfold machineExec.
  - destruct (effectOf o); rewrite ?Hk; cbn; done.
  - unfold adding. destruct (effectOf o); rewrite ?Hk; done.
Qed.

Lemma demo_restorable (k : machine) : km_forward k = "0" → restorable k.
Proof. intros Hk. unfold restorable. cbn [forwarding machine_Machine]. rewrite Hk. split; [done|]. intros k'. reflexivity. Qed.

Lemma demo_readable : Forall (readable noFiles) (p_geo demoPlan).
Proof.
  assert (forallb (λ g, match readPrefixes noFiles (gb_set g) with Ok _ => true | Err _ => false end) (p_geo demoPlan) = true) as H by (vm_compute; reflexivity).
  rewrite List.forallb_forall in H. apply Forall_forall. intros g Hg. specialize (H g (proj1 (list_elem_of_In _ _) Hg)). unfold readable.
  destruct (readPrefixes noFiles (gb_set g)) as [l|]; [by exists l|done].
Qed.

Definition demoTable (t : string) : list argv := if decide (isTable demoPlan t) then planTable noFiles demoPlan t else table leaky t.
Lemma demo_tables :
  demoTable "350" = [["ip"; "route"; "add"; "10.0.0.0/8"; "via"; "192.0.2.1"; "dev"; "eth0"; "table"; "350"];
    ["ip"; "route"; "add"; "192.0.2.7/32"; "via"; "192.0.2.1"; "dev"; "eth0"; "table"; "350"]] ∧
  demoTable "301" = [["ip"; "route"; "add"; "default"; "dev"; "sat0"; "table"; "301"]] ∧ demoTable "777" = [["foreign"]].
Proof. vm_compute. done. Qed.

(** From the leaked rule, the plan is installed with that rule once and its
    tables filled, and removed with it; refused halfway, nothing of it stays and
    the foreign rule and table do. *)
Lemma apply_reversible_witness :
  let up := apply noFiles demoPlan (MkWorld leaky None []) in
  let failed := apply noFiles demoPlan (MkWorld refusing None []) in
  up.1 = true ∧ (∀ x, copies (w_k up.2) x = if decide (x ∈ planKeys demoPlan) then 1%nat else copies leaky x) ∧
  table (w_k up.2) "350" = [["ip"; "route"; "add"; "10.0.0.0/8"; "via"; "192.0.2.1"; "dev"; "eth0"; "table"; "350"];
    ["ip"; "route"; "add"; "192.0.2.7/32"; "via"; "192.0.2.1"; "dev"; "eth0"; "table"; "350"]] ∧
  table (w_k up.2) "301" = [["ip"; "route"; "add"; "default"; "dev"; "sat0"; "table"; "301"]] ∧ table (w_k up.2) "777" = [["foreign"]] ∧
  (∀ x, copies (w_k (teardown up.2).2) x = if decide (x ∈ planKeys demoPlan) then 0%nat else copies leaky x) ∧
  forwardValue (forwarding (w_k (teardown up.2).2)) = "0" ∧
  failed.1 = false ∧ km_objects (w_k failed.2) = [["ip"; "rule"; "del"; "foreign"]] ∧
  (∀ x, copies (w_k failed.2) x = copies refusing x ∨ x ∈ planKeys demoPlan ∧ copies (w_k failed.2) x = 0%nat) ∧
  forwardValue (forwarding (w_k failed.2)) = "0".
Proof.
  pose proof (apply_reversible noFiles policyDemo demoWans demoPlan leaky None ltac:(vm_compute; reflexivity) (demo_leaks leaky eq_refl)) as Hu.
  pose proof (apply_reversible noFiles policyDemo demoWans demoPlan refusing None ltac:(vm_compute; reflexivity) (demo_leaks refusing eq_refl)) as Hf.
  cbv zeta. destruct demo_tables as (T1 & T2 & T3).
  pose proof (demo_restorable leaky eq_refl) as R1. pose proof (demo_restorable refusing eq_refl) as R2.
  assert ((apply noFiles demoPlan (MkWorld refusing None [])).1 = false) as Hno by (vm_compute; reflexivity).
  assert (km_objects (w_k (apply noFiles demoPlan (MkWorld refusing None [])).2) = [["ip"; "rule"; "del"; "foreign"]]) as Hfor by (vm_compute; reflexivity).
  destruct (apply noFiles demoPlan (MkWorld leaky None [])) as [ok w], (apply noFiles demoPlan (MkWorld refusing None [])) as [ok' w'].
  cbn [fst snd] in *. destruct Hu as (Hok & Hu & _), Hf as (_ & _ & Hf). specialize (Hok demo_readable leaky_unrefusing).
  destruct (Hu Hok) as (_ & H1 & H2 & _ & H3 & _ & H4), (Hf Hno) as (H5 & _ & H6). clear Hu Hf.
  split; [done|]. split; [done|]. split; [by rewrite H2|]. split; [by rewrite H2|]. split; [by rewrite H2|].
  split; [done|]. split; [by rewrite H4|]. split; [done|]. split; [done|]. split; [done|]. by rewrite H6.
Defined.

Definition demoGeo : geoBinding := MkGeo "lan" (Config.MkIPSet "" ["10.0.0.0/8"; "192.0.2.7"] 0) 350 (MkWan "eth0" "192.0.2.1" None).

Lemma geo_reload_exact_witness :
  let w : world (K := machine) := MkWorld (MkMachine "1" [] [("350", ["old"]); ("300", ["kept"])] (λ _, false)) None [] in
  table (w_k (loadGeo noFiles demoGeo w).2) "350" =
    [["ip"; "route"; "add"; "10.0.0.0/8"; "via"; "192.0.2.1"; "dev"; "eth0"; "table"; "350"];
     ["ip"; "route"; "add"; "192.0.2.7/32"; "via"; "192.0.2.1"; "dev"; "eth0"; "table"; "350"]] ∧
  table (w_k (loadGeo noFiles demoGeo w).2) "300" = [["kept"]].
Proof.
  intros w. pose proof (geo_reload_exact noFiles demoGeo w) as H.
  assert ((loadGeo noFiles demoGeo w).1 = true) as Hok by (vm_compute; reflexivity). destruct (loadGeo noFiles demoGeo w) as [ok w']. cbn [fst snd] in *.
  destruct H as (H1 & H2 & _). split.
  - transitivity (table (w_k w') (Itoa (gb_table demoGeo))); [reflexivity|]. 
    assert (readPrefixes noFiles (gb_set demoGeo) = Ok ["10.0.0.0/8"; "192.0.2.7/32"]) as Hr by (vm_compute; reflexivity). rewrite Hr in H1. exact (H1 Hok).
  - rewrite H2; [reflexivity|discriminate].
Defined.
