(* ===== verification/PrefixFile.v ===== *)
(** * internal/ipmatch: prefix files and reloadable sets

    Loading a set of prefixes from a file or a list, and the matcher whose set
    is swapped on a reload.  The lookup table (github.com/gaissmai/bart) is the
    interface [PrefixTable], the cache in front of it is IpMatch.v's. *)

From S2P Require Import Prelude GoBytes GoStrings Wire NetIp Config Http Factory Node NetText KernelNode.
From S2P Require IpMatch.
Local Open Scope Z_scope.
Local Open Scope string_scope.
Local Open Scope go_scope.

Abbreviation prefix := (netipAddr * Z)%type.

(** [Prefix.Contains]: same family, equal leading bits. *)
Definition number (a : netipAddr) : Addr := match a with V4 b => Addr4 (be_val b) | V6 b _ => Addr6 (be_val b) end.
Definition prefixContains (p : prefix) (a : Addr) : bool :=
  match number p.1, a with
  | Addr4 n, Addr4 x => (Z.shiftr n (32 - p.2) =? Z.shiftr x (32 - p.2))%Z
  | Addr6 n, Addr6 x => (Z.shiftr n (128 - p.2) =? Z.shiftr x (128 - p.2))%Z
  | _, _ => false
  end.

(** What bart promises: a table contains an address iff one of the prefixes
    inserted does. *)
Class PrefixTable (T : Type) := { tb_empty : T; tb_insert : T → prefix → T; tb_contains : T → Addr → bool }.
Class PrefixTableLaws (T : Type) `{PrefixTable T} := {
  tb_contains_spec ps a : tb_contains (fold_left tb_insert ps tb_empty) a = existsb (λ p, prefixContains p a) ps;
}.

(** ** bufio.Scanner: lines without their end, up to 64 KiB *)

Definition lf : ascii := ascii_of_nat 10.
Definition cr : ascii := ascii_of_nat 13.
Definition MaxScanTokenSize : Z := 65536.

Definition dropCR (l : list ascii) : list ascii :=
  match rev l with c :: r => if bool_decide (c = cr) then rev r else l | [] => l end.

(** The lines delivered, and whether the scan ended without a line too long. *)
Fixpoint scan (lines : list (list ascii)) : list (list ascii) * bool :=
  match lines with
  | [] => ([], true)
  | l :: rest =>
      if (MaxScanTokenSize <=? zlen l)%Z then ([], false)
      else match l, rest with
           | [], [] => ([], true)
           | _, _ => let '(r, ok) := scan rest in (dropCR l :: r, ok)
           end
  end.

Definition cutComment (s : list ascii) : list ascii := match indexChar "#"%char s with Some i => take i s | None => s end.

Section sets.
Context {T : Type} `{PrefixTable T}.

(** A loaded set with its cache's slots. *)
Record set := MkSet { st_tbl : T; st_slots : list Z; st_size : Z }.

Definition newSet (tbl : T) (n : Z) : set := MkSet tbl IpMatch.newCache n.

Definition Contains (s : set) (ip : Addr) : set * bool :=
  let '(slots, r) := IpMatch.contains (tb_contains (st_tbl s)) (st_slots s) ip in (MkSet (st_tbl s) slots (st_size s), r).

Definition lineStep (acc : T * Z) (line : list ascii) : vres (T * Z) :=
  let s := trimSpace line in
  let s := match indexChar "#"%char s with Some i => trimSpace (take i s) | None => s end in
  match s with
  | [] => Ok acc
  | _ => match parsePrefix (unchars s) with
         | Some p => Ok (tb_insert acc.1 p, (acc.2 + 1)%Z)
         | None => Err "ipmatch: bad line"
         end
  end.

Definition LoadReader (data : list ascii) : vres set :=
  let '(lines, ok) := scan (splitOn lf data) in
  let? st := Config.rangeM lineStep (tb_empty, 0%Z) lines in
  check? ok else "bufio.Scanner: token too long";
  Ok (newSet st.1 st.2).

Definition joinLines (entries : list string) : list ascii :=
  match entries with
  | [] => []
  | e :: es => (chars e ++ concat (map (λ x, lf :: chars x) es))%list
  end.
Definition LoadList (entries : list string) : vres set := LoadReader (joinLines entries).

(** [None]: the file cannot be opened. *)
Definition Load (file : option (list ascii)) : vres set :=
  match file with None => Err "open" | Some data => LoadReader data end.

(** ** Reloadable *)

Definition Open (file : option (list ascii)) : vres set := Load file.

(** Reload: the current set, and whether it succeeded. *)
Definition Reload (cur : set) (file : option (list ascii)) : set * bool :=
  match Load file with Ok s => (s, true) | Err _ => (cur, false) end.

Inductive event :=
| Lookup (ip : Addr)
| ReloadFrom (file : option (list ascii)).

(** Lookups and reloads one after the other, with what each returned. *)
Definition step (acc : set * list bool) (e : event) : set * list bool :=
  let '(s, out) := match e with Lookup ip => Contains acc.1 ip | ReloadFrom file => Reload acc.1 file end in
  (s, acc.2 ++ [out])%list.
Definition run (s : set) (es : list event) : set * list bool := fold_left step es (s, []).
End sets.

(** ** Specification: the prefixes a text holds, and which text is current *)

Definition lineText (line : list ascii) : list ascii := trimSpace (cutComment line).
Definition linePrefixes (line : list ascii) : option (list prefix) :=
  match lineText line with [] => Some [] | t => p ← parsePrefix (unchars t); Some [p] end.

(** All lines parse and none is too long. *)
Definition filePrefixes (data : list ascii) : option (list prefix) :=
  if forallb (λ l, (zlen l <? MaxScanTokenSize)%Z) (splitOn lf data)
  then (λ l, concat l) <$> mapM linePrefixes (splitOn lf data) else None.

Definition specStep (acc : list prefix * list bool) (e : event) : list prefix * list bool :=
  match e with
  | Lookup ip => (acc.1, (acc.2 ++ [existsb (λ p, prefixContains p (IpMatch.Unmap ip)) acc.1])%list)
  | ReloadFrom file => match file ≫= filePrefixes with Some ps => (ps, (acc.2 ++ [true])%list) | None => (acc.1, (acc.2 ++ [false])%list) end
  end.

(** ** Lemmas: white space and comments *)

Lemma spaces_nohash a : spaces a → "#"%char ∉ a.
Proof. intros Ha Hin. rewrite Forall_forall in Ha. specialize (Ha _ Hin). vm_compute in Ha. done. Qed.

Lemma indexChar_append c a l : c ∉ a → indexChar c (a ++ l)%list = Nat.add (length a) <$> indexChar c l.
Proof.
  induction a as [|d a IH]; intros Hc; [cbn; by destruct (indexChar c l)|]. apply not_elem_of_cons in Hc as [Hd Hc]. cbn.
  rewrite bool_decide_eq_false_2 by congruence. rewrite IH by done. by destruct (indexChar c l).
Qed.

Lemma indexChar_left c a l i : indexChar c a = Some i → indexChar c (a ++ l)%list = Some i ∧ (i < length a)%nat.
Proof.
  revert i. induction a as [|d a IH]; intros i Hi; [done|]. cbn in *. destruct (bool_decide (d = c)); [injection Hi as <-; split; [done|lia]|].
  destruct (indexChar c a) as [j|]; [|done]. injection Hi as <-. destruct (IH j eq_refl) as [-> Hj]. split; [done|lia].
Qed.

Lemma indexChar_none c a : indexChar c a = None → c ∉ a.
Proof.
  induction a as [|d a IH]; intros Hi; [by apply not_elem_of_nil|]. cbn in Hi. destruct (bool_decide (d = c)) eqn:Hd; [done|].
  apply bool_decide_eq_false in Hd. destruct (indexChar c a); [done|]. apply not_elem_of_cons. split; [congruence|by apply IH].
Qed.

(** Blanks around a line do not matter, before the comment is cut or after. *)
Lemma lineText_pad a m b : spaces a → spaces b → lineText (a ++ m ++ b)%list = lineText m.
Proof.
  intros Ha Hb. unfold lineText, cutComment. rewrite indexChar_append by by apply spaces_nohash.
  destruct (indexChar "#"%char m) as [i|] eqn:Hi.
  - destruct (indexChar_left _ _ b _ Hi) as [-> Hlt]. cbn [fmap option_fmap option_map]. rewrite take_app_add, take_app_le by lia. by apply trim_left.
  - rewrite indexChar_append by by apply indexChar_none.
    assert (indexChar "#"%char b = None) as ->. { pose proof (spaces_nohash b Hb) as Hn. clear -Hn. induction b as [|c b IH]; [done|]. apply not_elem_of_cons in Hn as [Hc Hn].
      cbn. rewrite bool_decide_eq_false_2 by congruence. by rewrite IH. }
    cbn [fmap option_fmap option_map]. by rewrite trim_left, trim_right.
Qed.

Lemma lineText_trimmed l : match indexChar "#"%char (trimSpace l) with Some i => trimSpace (take i (trimSpace l)) | None => trimSpace l end = lineText l.
Proof.
  destruct (trim_split l) as (a & b & Ha & Hb & He). assert (lineText l = lineText (trimSpace l)) as -> by (rewrite He at 1; by apply lineText_pad).
  unfold lineText, cutComment. destruct (indexChar "#"%char (trimSpace l)); [done|]. rewrite He at 1. by rewrite trim_left, trim_right.
Qed.

Lemma lineText_dropCR l : lineText (dropCR l) = lineText l.
Proof.
  unfold dropCR. destruct (rev l) as [|c r] eqn:Hr; [done|]. destruct (bool_decide (c = cr)) eqn:Hc; [|done]. apply bool_decide_eq_true in Hc as ->.
  assert (l = ([] ++ rev r ++ [cr])%list) as -> by (apply (f_equal (@rev _)) in Hr; rewrite rev_involutive in Hr; exact Hr).
  rewrite lineText_pad; [done|constructor|]. by repeat constructor.
Qed.

(** ** Lemmas: loading *)

Abbreviation short := (λ l : list ascii, (zlen l <? MaxScanTokenSize)%Z).
Definition linesPrefixes (lines : list (list ascii)) : option (list prefix) :=
  if forallb short lines then (λ l, concat l) <$> mapM linePrefixes lines else None.

Section loading.
Context {T : Type} `{PT : PrefixTable T} `{!PrefixTableLaws T}.

Lemma lineStep_spec (acc : T * Z) line :
  match linePrefixes line with
  | Some ps => lineStep acc line = Ok (fold_left tb_insert ps acc.1, (acc.2 + zlen ps)%Z)
  | None => is_ok (lineStep acc line) = false
  end.
Proof.
  unfold linePrefixes, lineStep. rewrite lineText_trimmed. destruct (lineText line) as [|c t].
  - cbn. unfold zlen. cbn. rewrite Z.add_0_r. by destruct acc.
  - destruct (parsePrefix _); [|done]. cbn. done.
Qed.

Lemma linesPrefixes_cons l rest : linesPrefixes (l :: rest) =
  if short l then ps ← linePrefixes l; qs ← linesPrefixes rest; Some (ps ++ qs)%list else None.
Proof.
  unfold linesPrefixes. cbn [forallb]. destruct (short l); cbn [andb]; [|done].
  cbn [mapM]. destruct (forallb short rest); cbn; destruct (linePrefixes l); cbn; try done. by destruct (mapM linePrefixes rest).
Qed.

(** The loop over the scanner's lines. *)
Lemma scan_spec lines (acc : T * Z) :
  let '(ls, ok) := scan lines in
  match linesPrefixes lines with
  | Some ps => ok = true ∧ Config.rangeM lineStep acc ls = Ok (fold_left tb_insert ps acc.1, (acc.2 + zlen ps)%Z)
  | None => ok = false ∨ is_ok (Config.rangeM lineStep acc ls) = false
  end.
Proof.
  revert acc. induction lines as [|l rest IH]; intros acc; [cbn; split; [done|]; unfold zlen; cbn; rewrite Z.add_0_r; by destruct acc|].
  rewrite linesPrefixes_cons. cbn [scan]. rewrite Z.leb_antisym. destruct (short l); cbn [negb]; [|by left].
  assert (linePrefixes (dropCR l) = linePrefixes l) as Hcr by (unfold linePrefixes; by rewrite lineText_dropCR).
  assert (let '(ls, ok) := (let '(r, ok) := scan rest in (dropCR l :: r, ok)) in
    match (ps ← linePrefixes l; qs ← linesPrefixes rest; Some (ps ++ qs)%list) with
    | Some ps => ok = true ∧ Config.rangeM lineStep acc ls = Ok (fold_left tb_insert ps acc.1, (acc.2 + zlen ps)%Z)
    | None => ok = false ∨ is_ok (Config.rangeM lineStep acc ls) = false
    end) as Hstep.
  { pose proof (lineStep_spec acc (dropCR l)) as Hl. rewrite Hcr in Hl. destruct (linePrefixes l) as [ps|].
    - specialize (IH (fold_left tb_insert ps acc.1, (acc.2 + zlen ps)%Z)). destruct (scan rest) as [ls ok]. cbn [Config.rangeM mbind option_bind].
      rewrite Hl. cbn [res_bind fst snd] in *. destruct (linesPrefixes rest) as [qs|]; [|done]. cbn [mbind option_bind] in *.
      by rewrite fold_left_app, zlen_app, Z.add_assoc.
    - destruct (scan rest) as [ls ok]. cbn [mbind option_bind Config.rangeM]. right. by destruct (lineStep acc (dropCR l)). }
  destruct l as [|c l], rest as [|r rest]; try exact Hstep.
Qed.

(** [LoadReader] accepts exactly the texts whose every line parses, and holds
    their prefixes. *)
Lemma LoadReader_spec data :
  match filePrefixes data with
  | Some ps => LoadReader data = Ok (newSet (T := T) (fold_left tb_insert ps tb_empty) (zlen ps))
  | None => is_ok (LoadReader (T := T) data) = false
  end.
Proof.
  unfold LoadReader, filePrefixes. fold (linesPrefixes (splitOn lf data)). pose proof (scan_spec (splitOn lf data) (tb_empty, 0%Z)) as H.
  destruct (scan (splitOn lf data)) as [ls ok]. destruct (linesPrefixes (splitOn lf data)) as [ps|].
  - destruct H as [-> ->]. done.
  - destruct H as [-> |H]; [by destruct (Config.rangeM lineStep _ ls)|]. by destruct (Config.rangeM lineStep _ ls).
Qed.

Lemma contains_ok miss slots ip : IpMatch.slots_ok miss slots → IpMatch.addr_ok ip →
  IpMatch.slots_ok miss (IpMatch.contains miss slots ip).1 ∧ (IpMatch.contains miss slots ip).2 = miss (IpMatch.Unmap ip).
Proof.
  intros Hs Ha. apply IpMatch.Unmap_ok in Ha. unfold IpMatch.contains. destruct (IpMatch.Unmap ip) as [|key|a]; [done| |done].
  destruct (IpMatch.slotHit _ key) as [r|] eqn:Hh; cbn [fst snd].
  - split; [done|]. by eapply IpMatch.slotHit_ok; [apply IpMatch.nth_slot|..].
  - split; [|done]. apply IpMatch.slots_ok_insert; [done|]. right. by exists key.
Qed.

(** A set in use: its table holds [ps], its cache what the table answers. *)
Record holds (s : set (T := T)) (ps : list prefix) : Prop := {
  ho_table : st_tbl s = fold_left tb_insert ps tb_empty;
  ho_slots : IpMatch.slots_ok (tb_contains (st_tbl s)) (st_slots s);
  ho_size : st_size s = zlen ps;
}.

Lemma loaded_holds file s : Load file = Ok s → ∃ ps, file ≫= filePrefixes = Some ps ∧ holds s ps.
Proof.
  destruct file as [data|]; [|done]. cbn [Load mbind option_bind]. intros Hl. pose proof (LoadReader_spec data) as H.
  destruct (filePrefixes data) as [ps|]; [|by rewrite Hl in H]. exists ps. rewrite Hl in H. injection H as ->. split; [done|].
  split; [done|apply IpMatch.newCache_ok|done].
Qed.

Lemma step_spec acc sp e : (∀ ip, e = Lookup ip → IpMatch.addr_ok ip) → holds acc.1 sp.1 → acc.2 = sp.2 →
  holds (step acc e).1 (specStep sp e).1 ∧ (step acc e).2 = (specStep sp e).2.
Proof.
  intros He Hh Ho. destruct acc as [s out], sp as [ps out']. cbn [fst snd] in *. subst out'. destruct e as [ip|file]; unfold step, specStep; cbn [fst snd].
  - unfold Contains. destruct Hh as [Ht Hs Hn]. destruct (contains_ok _ _ ip Hs (He ip eq_refl)) as [H1 H2].
    destruct (IpMatch.contains _ _ ip) as [slots r]. cbn [fst snd] in *. split; [by split|]. by rewrite H2, Ht, tb_contains_spec.
  - unfold Reload. destruct (Load file) as [s'|e] eqn:Hl.
    + destruct (loaded_holds file s' Hl) as (ps' & -> & Hh'). done.
    + assert (file ≫= filePrefixes = None) as ->; [|done]. destruct file as [data|]; [|done]. cbn [Load mbind option_bind] in *.
      pose proof (LoadReader_spec data) as H. destruct (filePrefixes data); [by rewrite Hl in H|done].
Qed.

(** Step by step, from states that hold the same prefixes. *)
Lemma run_spec es : (∀ ip, Lookup ip ∈ es → IpMatch.addr_ok ip) → ∀ acc sp, holds acc.1 sp.1 → acc.2 = sp.2 →
  holds (fold_left step es acc).1 (fold_left specStep es sp).1 ∧ (fold_left step es acc).2 = (fold_left specStep es sp).2.
Proof.
  induction es as [|e es IH]; intros He acc sp Hh Ho; [done|]. cbn [fold_left].
  destruct (step_spec acc sp e) as [H1 H2]; [intros ip ->; apply He; left|done|done|].
  apply IH; [intros ip Hin; apply He; by right|done|done].
Qed.

(** Claim C25.  A reloadable set answers from the last file that loaded.  Opened
    on a file, it answers through any sequence of lookups and reloads exactly as a
    matcher that scans the current list of prefixes: a reload of a readable,
    well-formed file replaces the list at once, whatever the cache held; a reload
    of a missing or malformed one fails and keeps the previous list.  Its size is
    the number of prefixes of that list. *)
Theorem reloadable_exact file (s : set (T := T)) es :
  Open file = Ok s → (∀ ip, Lookup ip ∈ es → IpMatch.addr_ok ip) →
  ∃ ps, file ≫= filePrefixes = Some ps ∧
    (run s es).2 = (fold_left specStep es (ps, [])).2 ∧ st_size (run s es).1 = zlen (fold_left specStep es (ps, [])).1.
Proof.
  intros Hl He. destruct (loaded_holds file s Hl) as (ps & Hps & Hh). exists ps. split; [done|].
  destruct (run_spec es He (s, []) (ps, []) Hh eq_refl) as [[_ _ Hn] Ho]. done.
Qed.
End loading.

(** ** The kernel node reads the same files *)

Lemma normalizePrefix_text tok : match parsePrefix tok with
  | Some p => normalizePrefix tok = Ok (prefixString p) | None => is_ok (normalizePrefix tok) = false end.
Proof.
  unfold parsePrefix, normalizePrefix. destruct (Config.containsSlash tok).
  - by destruct (ParsePrefix tok).
  - by destruct (ParseAddr tok).
Qed.

(** The two datapaths agree on prefix files: for a text without a
    line of 64 KiB, the kernel node's [readPrefixes] accepts it exactly when the
    userspace matcher loads it, and lists, normalised, the prefixes the matcher
    holds. *)
Theorem same_grammar readFile file reload text :
  readFile file = Some text → forallb (λ l, (zlen l <? MaxScanTokenSize)%Z) (splitOn lf (chars text)) = true →
  match filePrefixes (chars text) with
  | Some ps => readPrefixes readFile (Config.MkIPSet file [] reload) = Ok (map prefixString ps)
  | None => is_ok (readPrefixes readFile (Config.MkIPSet file [] reload)) = false
  end.
Proof.
  intros Hf Hs. unfold filePrefixes. rewrite Hs. unfold readPrefixes. cbn [Config.s_List Config.s_File]. rewrite Hf. cbn [res_bind].
  change (ascii_of_nat 10) with lf. generalize (splitOn lf (chars text)). clear Hs. intros lines.
  enough (match (λ l, concat l) <$> mapM linePrefixes lines with
    | Some ps => mapM_res normalizePrefix (concat (map setLine lines)) = Ok (map prefixString ps)
    | None => is_ok (mapM_res normalizePrefix (concat (map setLine lines))) = false end) as H by done.
  induction lines as [|l lines IH]; [done|]. cbn [map concat mapM].
  assert (setLine l = match lineText l with [] => [] | t => [unchars t] end) as -> by done.
  assert (linePrefixes l = match lineText l with [] => Some [] | t => p ← parsePrefix (unchars t); Some [p] end) as -> by done.
  destruct (lineText l) as [|c t].
  - cbn [app mbind option_bind]. destruct (mapM linePrefixes lines) as [pss|]; [|exact IH]. exact IH.
  - cbn [app]. unfold mapM_res in *. cbn [foldr]. pose proof (normalizePrefix_text (unchars (c :: t))) as Hn.
    destruct (parsePrefix (unchars (c :: t))) as [p|]; cbn [mbind option_bind].
    + rewrite Hn. cbn [res_bind]. destruct (mapM linePrefixes lines) as [pss|]; cbn [fmap option_fmap option_map mbind option_bind] in *.
      * rewrite IH. done.
      * by destruct (foldr _ _ _).
    + by destruct (normalizePrefix (unchars (c :: t))).
Qed.

(** ** Concrete instances *)

(** The plain list as a table. *)
#[export] Instance listTable : PrefixTable (list prefix) :=
  { tb_empty := []; tb_insert l p := (l ++ [p])%list; tb_contains l a := existsb (λ p, prefixContains p a) l }.
#[export] Instance listTable_laws : PrefixTableLaws (list prefix).
Proof.
  split. intros ps a. cbn. f_equal. enough (∀ acc, fold_left (λ l (p : prefix), (l ++ [p])%list) ps acc = (acc ++ ps)%list) as H by exact (H []).
  induction ps as [|p ps IH]; intros acc; cbn; [by rewrite app_nil_r|]. rewrite IH. by rewrite <- app_assoc.
Qed.

Definition lineEnd : string := String lf "".
Definition demoFile : string :=
  "# lan" +:+ lineEnd +:+ "10.0.0.0/8   # private" +:+ String cr lineEnd +:+ lineEnd +:+ "  192.0.2.7" +:+ lineEnd.
Definition demoEvents : list event :=
  [Lookup (Addr4 0x0a010203); Lookup (Addr6 (0xffff * 2 ^ 32 + 0xc0000207)); Lookup (Addr4 0x08080808);
   ReloadFrom None; Lookup (Addr4 0x0a010203); ReloadFrom (Some (chars "10.0.0.0/40")); Lookup (Addr4 0x0a010203);
   ReloadFrom (Some (chars "8.8.8.8")); Lookup (Addr4 0x0a010203); Lookup (Addr4 0x08080808)].

Lemma reloadable_exact_witness :
  match Open (T := list prefix) (Some (chars demoFile)) with
  | Ok s => (run s demoEvents).2 = [true; true; false; false; true; false; true; true; false; true] ∧
      ∃ ps, filePrefixes (chars demoFile) = Some ps ∧ (run s demoEvents).2 = (fold_left specStep demoEvents (ps, [])).2
  | Err _ => False
  end.
Proof.
  assert (is_ok (Open (T := list prefix) (Some (chars demoFile))) = true) as Hok by (vm_compute; reflexivity).
  assert (match Open (T := list prefix) (Some (chars demoFile)) with Ok s => (run s demoEvents).2 | Err _ => [] end =
    [true; true; false; false; true; false; true; true; false; true]) as Hrun by (vm_compute; reflexivity).
  destruct (Open (Some (chars demoFile))) as [s|] eqn:Hs; [|discriminate]. split; [exact Hrun|].
  destruct (reloadable_exact (Some (chars demoFile)) s demoEvents Hs) as (ps & Hps & Hr & _).
  - intros ip Hin. unfold demoEvents in Hin.
    repeat (apply elem_of_cons in Hin as [Hin|Hin]; [try discriminate Hin; injection Hin as ->; cbn; lia|]). by apply elem_of_nil in Hin.
  - exists ps. split; [exact Hps|exact Hr].
Defined.

Lemma same_grammar_witness :
  let rf := λ f, if f =? "set" then Some demoFile else None in
  readPrefixes rf (Config.MkIPSet "set" [] 0) = Ok ["10.0.0.0/8"; "192.0.2.7/32"] ∧
  match filePrefixes (chars demoFile) with
  | Some ps => readPrefixes rf (Config.MkIPSet "set" [] 0) = Ok (map prefixString ps)
  | None => is_ok (readPrefixes rf (Config.MkIPSet "set" [] 0)) = false
  end.
Proof.
  intros rf. split; [vm_compute; reflexivity|]. apply (same_grammar rf "set" 0 demoFile); [reflexivity|vm_compute; reflexivity].
Defined.
