(* ===== verification/NodeLoops.v ===== *)
(** * internal/node: what runs while a node is up

    The loops [RunWith] starts last: the reload of the prefix sets on SIGHUP and
    on their tickers, the collection of idle flows and peers, and the draw of a
    node's own identity. *)

From S2P Require Import Prelude GoStrings Wire Node.
From S2P Require PrefixFile Finalizer Peers IpMatch.
Local Open Scope Z_scope.

(** ** [randomOwner] *)

(** [draws] are what rand.Read fills in, one after the other. *)
Fixpoint randomOwner (fuel i : nat) (draws : nat → Owner) : option Owner :=
  match fuel with
  | O => None
  | S fuel' => if IsZero (draws i) then randomOwner fuel' (S i) draws else Some (draws i)
  end.

(** ** [gcLoop]: one tick *)

Section gc.
Context {F E Tgt S : Type}.

Record collectables := MkCollectables { co_fins : list (Finalizer.Finalizer F E Tgt); co_regs : list (Peers.Registry S) }.

(** The orders in which each collector's map is ranged over are given. *)
Definition gcTick (now : Z) (fo : list (list (Addr * Finalizer.entry Tgt))) (ro : list (list (Owner * nat))) (c : collectables) : collectables :=
  MkCollectables (zip_with (λ f o, (Finalizer.GC f now o).1) (co_fins c) fo) (zip_with (λ r o, (Peers.GC r now o).1) (co_regs c) ro).
End gc.

(** ** [startSetReload] *)

Section reload.
Context {T : Type} `{PrefixFile.PrefixTable T}.

Record setReloader := MkSetReloader { sr_file : string; sr_every : Z }.

(** SIGHUP, the ticker of set [i], and a lookup in set [i]; [files] is what each
    file reads as at that moment ([None] where it cannot be opened). *)
Inductive levent :=
| Hup (files : string → option (list ascii))
| Tick (i : nat) (files : string → option (list ascii))
| Look (i : nat) (ip : Addr).

(** A set, with what its lookups and reloads returned. *)
Abbreviation sets := (list (PrefixFile.set (T := T) * list bool)).

Definition fires (r : setReloader) : bool := negb (sr_every r <=? 0).

Definition reloadStep (rs : list setReloader) (st : sets) (e : levent) : sets :=
  match e with
  | Hup files => zip_with (λ r s, PrefixFile.step s (PrefixFile.ReloadFrom (files (sr_file r)))) rs st
  | Tick i files =>
      match rs !! i with
      | Some r => if fires r then alter (λ s, PrefixFile.step s (PrefixFile.ReloadFrom (files (sr_file r)))) i st else st
      | None => st
      end
  | Look i ip => alter (λ s, PrefixFile.step s (PrefixFile.Lookup ip)) i st
  end.
Definition startSetReload (rs : list setReloader) (st : sets) (es : list levent) : sets := fold_left (reloadStep rs) es st.
End reload.

(** ** Lemmas *)

(** What happens to set [i], with its file and interval. *)
Definition project (i : nat) (r : setReloader) (e : levent) : list PrefixFile.event :=
  match e with
  | Hup files => [PrefixFile.ReloadFrom (files (sr_file r))]
  | Tick j files => if bool_decide (j = i) && fires r then [PrefixFile.ReloadFrom (files (sr_file r))] else []
  | Look j ip => if bool_decide (j = i) then [PrefixFile.Lookup ip] else []
  end.

Section facts.
Context {T : Type} `{HP : PrefixFile.PrefixTable T} `{HL : !PrefixFile.PrefixTableLaws T}.
Abbreviation sets := (list (PrefixFile.set (T := T) * list bool)).

Lemma reloadStep_length rs (st : sets) e : length rs = length st → length (reloadStep rs st e) = length st.
Proof.
  intros Hl. destruct e as [files|i files|i ip]; cbn; [rewrite length_zip_with; lia| |by rewrite length_alter].
  destruct (rs !! i) as [r|]; [|done]. destruct (fires r); [by rewrite length_alter|done].
Qed.

Lemma reloadStep_lookup rs (st : sets) e i r s : length rs = length st → rs !! i = Some r → st !! i = Some s →
  reloadStep rs st e !! i = Some (fold_left PrefixFile.step (project i r e) s).
Proof.
  intros Hl Hr Hs. destruct e as [files|j files|j ip]; cbn.
  - by rewrite lookup_zip_with, Hr, Hs.
  - case_bool_decide as Hj; cbn [andb].
    + subst j. rewrite Hr. destruct (fires r); [|done]. rewrite list_lookup_alter_eq, Hs; reflexivity.
    + destruct (rs !! j) as [r'|]; [|done]. destruct (fires r'); [|done]. by rewrite list_lookup_alter_ne.
  - case_bool_decide as Hj; [subst j; rewrite list_lookup_alter_eq, Hs; reflexivity|by rewrite list_lookup_alter_ne].
Qed.

Lemma startSetReload_lookup rs es : ∀ (st : sets) i r s, length rs = length st → rs !! i = Some r → st !! i = Some s →
  startSetReload rs st es !! i = Some (fold_left PrefixFile.step (concat (map (project i r) es)) s).
Proof.
  induction es as [|e es IH]; intros st i r s Hl Hr Hs; [done|]. cbn [map concat]. rewrite fold_left_app.
  apply IH; [by rewrite reloadStep_length|done|by apply reloadStep_lookup].
Qed.

(** ** Theorems *)

(** Every prefix set of a running node answers from the last version of its own
    file that loaded, through any sequence of SIGHUPs, ticks and lookups: another
    set's reload, or its failure, does not change it, and a set without an
    interval changes on a SIGHUP only. *)
Theorem sets_follow_files rs (st : sets) es i r s file :
  length rs = length st → rs !! i = Some r → st !! i = Some (s, []) → PrefixFile.Open file = Ok s →
  (∀ ip, Look i ip ∈ es → IpMatch.addr_ok ip) →
  ∃ ps s' outs, file ≫= PrefixFile.filePrefixes = Some ps ∧ startSetReload rs st es !! i = Some (s', outs) ∧
    outs = (fold_left PrefixFile.specStep (concat (map (project i r) es)) (ps, [])).2.
Proof.
  intros Hl Hr Hs Ho Hip. destruct (PrefixFile.loaded_holds file s Ho) as (ps & Hps & Hh).
  assert (∀ ip, PrefixFile.Lookup ip ∈ concat (map (project i r) es) → IpMatch.addr_ok ip) as Hip'.
  { intros ip Hin. apply list_elem_of_In, in_concat in Hin as (l & Hl1 & Hl2). apply in_map_iff in Hl1 as (e & <- & He).
    destruct e as [files|j files|j ip']; cbn in Hl2.
    - by destruct Hl2 as [?|[]].
    - destruct (_ && _); [by destruct Hl2 as [?|[]]|done].
    - case_bool_decide as Hj; [|done]. destruct Hl2 as [[= ->]|[]]. subst j. apply Hip. by apply list_elem_of_In. }
  destruct (PrefixFile.run_spec _ Hip' (s, []) (ps, []) Hh eq_refl) as [_ Hout].
  exists ps. rewrite (startSetReload_lookup rs es st i r (s, []) Hl Hr Hs).
  destruct (fold_left PrefixFile.step (concat (map (project i r) es)) (s, [])) as [s' outs] eqn:E. exists s', outs.
  split; [done|]. split; [done|]. by rewrite <- Hout.
Qed.
End facts.

(** A node's identity is never the zero owner, and is the first draw that is not. *)
Theorem randomOwner_nonzero draws n : draws n ≠ zeroOwner → ∃ i, (i ≤ n)%nat ∧ randomOwner (S n) 0 draws = Some (draws i) ∧ draws i ≠ zeroOwner ∧ ∀ j, (j < i)%nat → draws j = zeroOwner.
Proof.
  intros Hn. assert (∀ m k, (k + m = n)%nat → (∀ j, (j < k)%nat → draws j = zeroOwner) →
    ∃ i, (i ≤ n)%nat ∧ randomOwner (S m) k draws = Some (draws i) ∧ draws i ≠ zeroOwner ∧ ∀ j, (j < i)%nat → draws j = zeroOwner) as H.
  { induction m as [|m IH]; intros k Hk Hz; cbn [randomOwner]; unfold IsZero; case_bool_decide as Hd.
    - exfalso. apply Hn. rewrite <- Hd. f_equal. lia.
    - exists k. split; [lia|done].
    - apply (IH (S k)); [lia|]. intros j Hj. destruct (decide (j = k)) as [->|]; [done|]. apply Hz. lia.
    - exists k. split; [lia|done]. }
  apply (H n 0%nat); [done|intros; lia].
Qed.
