(* ===== verification/Startup.v ===== *)
(** * Taking over, and waiting for the links

    internal/singleton and internal/netwait: what a node does before it touches
    the network.  The processes, the clock and the interfaces change as they
    like between two rounds of a loop: a run is given by what each round sees, and a
    process is its pid (as for the code, one that reuses a pid counts as alive).
    The theorems say that the take-over ends, which processes it signals and
    when, and exactly when the wait for the interfaces ends and what it logs. *)

From S2P Require Import Prelude GoBytes GoStrings NetIp Config PrefixFile NetText.
Local Open Scope Z_scope.
Local Open Scope string_scope.
Local Open Scope go_scope.

Abbreviation addrUnmap := unmapAddr.

(** ** singleton: processes of the same executable *)

Section paths.
(** filepath.EvalSymlinks and filepath.Abs. *)
Context (EvalSymlinks Abs : string → option string).

Definition deletedMark : list ascii := chars " (deleted)".
Definition trimDeleted (l : list ascii) : list ascii :=
  let n := (length l - length deletedMark)%nat in
  if bool_decide (drop n l = deletedMark) then take n l else l.

Definition resolvePath (path : string) : string :=
  let path := unchars (trimDeleted (chars path)) in
  match EvalSymlinks path with
  | Some r => r
  | None => match Abs path with Some a => a | None => path end
  end.

(** Linux: the entries of /proc, and the executable each names. *)
Definition sameBinaryPIDs (entries : list string) (readlink : string → option string) (me : Z) (self : string) : list Z :=
  omap (λ e,
    pid ← atoi e;
    if (pid =? me)%Z then None
    else exe ← readlink ("/proc/" +:+ e +:+ "/exe"); if resolvePath exe =? self then Some pid else None) entries.

(** macOS: the lines of `ps`, a pid and an executable. *)
Definition sameBinaryPIDsDarwin (out : string) (me : Z) (self : string) : list Z :=
  omap (λ l,
    let line := trimSpace l in
    sp ← indexChar " "%char line;
    pid ← atoi (unchars (take sp line));
    if (pid =? me)%Z then None
    else if resolvePath (unchars (trimSpace (drop (S sp) line))) =? self then Some pid else None) (splitOn lf (chars out)).

(** The executable's own path; [None] where it cannot be resolved or the
    processes cannot be listed. *)
Definition others (executable : option string) (scan : string → option (list Z)) : option (string * list Z) :=
  exe ← executable; pids ← scan (resolvePath exe); Some (resolvePath exe, pids).
Definition Others (executable : option string) (scan : string → option (list Z)) : option (list Z) :=
  snd <$> others executable scan.
End paths.

(** ** singleton: terminating them *)

Definition forceGrace : Z := 3000000000.
Definition pollTick : Z := 100000000.

(** What round [i] of the loop sees: who is alive, the clock, and whether the
    context is done when the round waits. *)
Record round := MkRound { rd_alive : Z → bool; rd_now : Z; rd_done : bool }.

Inductive signal := SIGTERM | SIGKILL.
Record sent := MkSent { sg_pid : Z; sg_sig : signal; sg_at : Z }.
Inductive outcome := Gone | Survived | Cancelled.

Definition live (r : round) (pids : list Z) : list Z := List.filter (rd_alive r) pids.

Section wait.
Context (rounds : nat → round).

(** [None]: no verdict within [fuel] rounds.  [kill] is the deadline once the
    survivors were killed. *)
Fixpoint waitGone (fuel i : nat) (pids : list Z) (term : Z) (kill : option Z) (log : list sent) : option (outcome * list sent) :=
  match fuel with
  | O => None
  | S fuel' =>
      let r := rounds i in
      let alive := live r pids in
      match alive with
      | [] => Some (Gone, log)
      | _ =>
          let next kill log := if rd_done r then Some (Cancelled, log) else waitGone fuel' (S i) pids term kill log in
          match kill with
          | None =>
              if (term <? rd_now r)%Z
              then next (Some (rd_now r + forceGrace)) (log ++ map (λ p, MkSent p SIGKILL (rd_now r)) alive)%list
              else next None log
          | Some k => if (k <? rd_now r)%Z then Some (Survived, log) else next kill log
          end
      end
  end.

(** The pids found, [start] the time of the signals; [None]: still waiting after
    [fuel] rounds. *)
Definition TakeExclusive (fuel : nat) (start grace : Z) (found : option (string * list Z)) : option (option outcome * list sent) :=
  match found with
  | None => Some (None, [])
  | Some (_, []) => Some (Some Gone, [])
  | Some (_, pids) =>
      '(o, log) ← waitGone fuel 0 pids (start + grace) None (map (λ p, MkSent p SIGTERM start) pids); Some (Some o, log)
  end.
End wait.

(** ** netwait: interfaces *)

(** An interface: whether it is up, and its addresses ([None] where they cannot
    be read), each the bytes of an IPNet or something else. *)
Record iface := MkIface { if_up : bool; if_addrs : option (list (option (list Z))) }.

(** [netip.AddrFromSlice]. *)
Definition addrFromSlice (b : list Z) : option netipAddr :=
  if (length b =? 4)%nat then Some (V4 b) else if (length b =? 16)%nat then Some (V6 b []) else None.

Definition usable (a : option (list Z)) : bool :=
  match a ≫= addrFromSlice with
  | None => false
  | Some ip => match addrUnmap ip with
      | V4 b => negb (nth 0 b 0 =? 127)%Z && negb ((nth 0 b 0 =? 169)%Z && (nth 1 b 0 =? 254)%Z)
      | V6 _ _ => false
      end
  end.

Definition Ready (byName : string → option iface) (name : string) : bool :=
  match byName name with
  | None => false
  | Some i => if_up i && match if_addrs i with None => false | Some l => existsb usable l end
  end.

Definition notReady (byName : string → option iface) (names : list string) : list string :=
  List.filter (λ n, negb (Ready byName n)) names.

Fixpoint dedupFrom (seen : gset string) (names : list string) : list string :=
  match names with
  | [] => []
  | n :: names' => if (n =? "") || bool_decide (n ∈ seen) then dedupFrom seen names' else n :: dedupFrom ({[n]} ∪ seen) names'
  end.
Definition dedup (names : list string) : list string := Config.sortStrings (dedupFrom ∅ names).

Definition heartbeat : Z := 15000000000.

(** What round [i] sees: the interfaces, the clock, and whether the context is
    done when it waits. *)
Record look := MkLook { lk_ifaces : string → option iface; lk_now : Z; lk_done : bool }.
Inductive note := Waiting (missing : string) (at_ : Z) | AllUp (names : string).

Section netwait.
Context (looks : nat → look).

(** [lastMissing] is what was last reported missing, at [lastLog]. *)
Fixpoint waitLoop (fuel i : nat) (want : list string) (lastMissing : string) (lastLog : Z) (log : list note) : option (bool * list note) :=
  match fuel with
  | O => None
  | S fuel' =>
      let l := looks i in
      let missing := notReady (lk_ifaces l) want in
      match missing with
      | [] => Some (true, if lastMissing =? "" then log else (log ++ [AllUp (String.concat ", " want)])%list)
      | _ =>
          let cur := String.concat ", " missing in
          let now := lk_now l in
          let next m t log := if lk_done l then Some (false, log) else waitLoop fuel' (S i) want m t log in
          if negb (cur =? lastMissing) || (heartbeat <=? now - lastLog)%Z
          then next cur now (log ++ [Waiting cur now])%list
          else next lastMissing lastLog log
      end
  end.

Definition Wait (fuel : nat) (names : list string) : option (bool * list note) :=
  match dedup names with
  | [] => Some (true, [])
  | want => waitLoop fuel 0 want "" 0 []
  end.
End netwait.

Local Open Scope Z_scope.

(** ** Lemmas: the take-over *)

Section wait_facts.
Context (rounds : nat → round) (pids : list Z).
(** The ticker: at most one tick is pending when a round is late. *)
Definition ticking : Prop := ∀ i j, rd_now (rounds i) + pollTick * (Z.of_nat j - 2) ≤ rd_now (rounds (i + j)%nat).

(** What was sent after the first signals, and how the wait ended. *)
Definition kills (term : Z) (log : list sent) : Prop :=
  log = [] ∨ ∃ i, term < rd_now (rounds i) ∧ log = map (λ p, MkSent p SIGKILL (rd_now (rounds i))) (live (rounds i) pids).
Definition ended (term : Z) (o : outcome) (log : list sent) : Prop :=
  match o with
  | Gone => ∃ i, live (rounds i) pids = []
  | Cancelled => ∃ i, rd_done (rounds i) = true
  | Survived => ∃ i k, log = map (λ p, MkSent p SIGKILL (rd_now (rounds i))) (live (rounds i) pids) ∧ term < rd_now (rounds i) ∧
      rd_now (rounds i) + forceGrace < rd_now (rounds k) ∧ live (rounds k) pids ≠ []
  end.

Lemma waitGone_killed term fuel : ∀ i k log0 log,
  term < rd_now (rounds k) → log = map (λ p, MkSent p SIGKILL (rd_now (rounds k))) (live (rounds k) pids) →
  match waitGone rounds fuel i pids term (Some (rd_now (rounds k) + forceGrace)) (log0 ++ log) with
  | Some (o, log') => log' = (log0 ++ log)%list ∧ ended term o log
  | None => ∀ j, (j < fuel)%nat → rd_now (rounds (i + j)) ≤ rd_now (rounds k) + forceGrace
  end.
Proof.
  induction fuel as [|fuel IH]; intros i k log0 log Ht Hl; cbn [waitGone]; [intros j; lia|].
  destruct (live (rounds i) pids) eqn:Ha; [split; [done|by exists i]|]. rewrite <- ?Ha.
  destruct (rd_now (rounds k) + forceGrace <? rd_now (rounds i)) eqn:Hk.
  - split; [done|]. exists k, i. apply Z.ltb_lt in Hk. by rewrite Ha.
  - destruct (rd_done (rounds i)) eqn:Hd; [split; [done|by exists i]|]. specialize (IH (S i) k log0 log Ht Hl).
    destruct (waitGone _ fuel _ _ _ _ _) as [[o log']|]; [done|]. apply Z.ltb_ge in Hk. intros [|j] Hj; [by rewrite Nat.add_0_r|].
    rewrite Nat.add_succ_r. apply (IH j). lia.
Qed.

Lemma waitGone_spec term fuel : ∀ i log0,
  match waitGone rounds fuel i pids term None log0 with
  | Some (o, log') => ∃ log, log' = (log0 ++ log)%list ∧ kills term log ∧ ended term o log
  | None => ∃ n, (n ≤ fuel)%nat ∧ (∀ j, (j < n)%nat → rd_now (rounds (i + j)) ≤ term) ∧
      ∀ j, (n + j < fuel)%nat → rd_now (rounds (i + n + j)) ≤ rd_now (rounds (i + n)) + forceGrace
  end.
Proof.
  induction fuel as [|fuel IH]; intros i log0; cbn [waitGone]; [exists 0%nat; split; [done|split; intros; lia]|].
  destruct (live (rounds i) pids) eqn:Ha; [exists []; rewrite app_nil_r; split; [done|split; [by left|by exists i]]|]. rewrite <- ?Ha.
  destruct (term <? rd_now (rounds i)) eqn:Ht.
  - apply Z.ltb_lt in Ht. set (log := map (λ p, MkSent p SIGKILL (rd_now (rounds i))) (live (rounds i) pids)).
    assert (kills term log) as Hk by (right; by exists i).
    destruct (rd_done (rounds i)) eqn:Hd; [exists log; split; [done|split; [done|by exists i]]|].
    pose proof (waitGone_killed term fuel (S i) i log0 log Ht eq_refl) as H. destruct (waitGone _ fuel _ _ _ _ _) as [[o log']|].
    + destruct H as [-> H]. by exists log.
    + exists 0%nat. split; [lia|]. split; [intros; lia|]. intros [|j] Hj; [rewrite !Nat.add_0_r; unfold forceGrace; lia|].
      rewrite Nat.add_0_r, Nat.add_succ_r. apply (H j). lia.
  - apply Z.ltb_ge in Ht. destruct (rd_done (rounds i)) eqn:Hd; [exists []; rewrite app_nil_r; split; [done|split; [by left|by exists i]]|].
    specialize (IH (S i) log0). destruct (waitGone _ fuel _ _ _ _ _) as [[o log']|]; [done|]. destruct IH as (n & Hn & H1 & H2).
    exists (S n). split; [lia|]. split.
    + intros [|j] Hj; [by rewrite Nat.add_0_r|]. rewrite Nat.add_succ_r. apply (H1 j). lia.
    + intros j Hj. rewrite Nat.add_succ_r. apply (H2 j). lia.
Qed.

(** With the ticker, enough rounds give a verdict. *)
Lemma waitGone_ends start grace fuel log0 : ticking → start ≤ rd_now (rounds 0) → 0 ≤ grace → grace / pollTick + 38 ≤ Z.of_nat fuel →
  waitGone rounds fuel 0 pids (start + grace) None log0 ≠ None.
Proof.
  intros Htick Hs Hg Hf E. pose proof (waitGone_spec (start + grace) fuel 0 log0) as H. rewrite E in H. destruct H as (n & Hn & H1 & H2).
  set (m := Z.to_nat (grace / pollTick + 3)). assert (0 ≤ grace / pollTick) as Hq by (apply Z.div_pos; [done|by vm_compute]).
  assert (grace < pollTick * (grace / pollTick + 1)) as Hlt by (pose proof (Z.mul_succ_div_gt grace pollTick eq_refl); lia).
  assert (n ≤ m)%nat as Hnm.
  { destruct (decide (n ≤ m)%nat) as [|Hc]; [done|]. specialize (H1 m ltac:(lia)). specialize (Htick 0%nat m). cbn [Nat.add] in *.
    assert (Z.of_nat m - 2 = grace / pollTick + 1) as Hm by (unfold m; lia). rewrite Hm in Htick. lia. }
  specialize (H2 33%nat ltac:(lia)). specialize (Htick (0 + n)%nat 33%nat). unfold forceGrace, pollTick in *. cbn [Nat.add] in *. lia.
Qed.
End wait_facts.

Lemma sameBinary_spec es ab entries readlink me self p : p ∈ sameBinaryPIDs es ab entries readlink me self ↔
  ∃ e exe, e ∈ entries ∧ atoi e = Some p ∧ p ≠ me ∧ readlink ("/proc/" +:+ e +:+ "/exe") = Some exe ∧ resolvePath es ab exe = self.
Proof.
  unfold sameBinaryPIDs. rewrite list_elem_of_omap. split.
  - intros (e & Hin & H). destruct (atoi e) as [pid|] eqn:Ha; [|done]. cbn in H. destruct (pid =? me)%Z eqn:Hm; [done|].
    destruct (readlink _) as [exe|] eqn:Hr; [|done]. cbn in H. destruct (String.eqb_spec (resolvePath es ab exe) self) as [He|]; [|done].
    injection H as ->. exists e, exe. by apply Z.eqb_neq in Hm.
  - intros (e & exe & Hin & Ha & Hm & Hr & He). exists e. split; [done|]. rewrite Ha. cbn. apply Z.eqb_neq in Hm. rewrite Hm, Hr. cbn.
    by rewrite (proj2 (String.eqb_eq _ _) He).
Qed.

(** ** Lemmas: waiting for the interfaces *)

Lemma dedupFrom_spec seen names : NoDup (dedupFrom seen names) ∧ ∀ n, n ∈ dedupFrom seen names ↔ n ∈ names ∧ n ≠ "" ∧ n ∉ seen.
Proof.
  revert seen. induction names as [|x names IH]; intros seen; cbn [dedupFrom]; [split; [constructor|set_solver]|].
  destruct (String.eqb_spec x "") as [->|Hx]; cbn [orb].
  - destruct (IH seen) as [H1 H2]. split; [done|]. intros n. rewrite H2. set_solver.
  - case_bool_decide as Hs.
    + destruct (IH seen) as [H1 H2]. split; [done|]. intros n. rewrite H2. set_solver.
    + destruct (IH ({[x]} ∪ seen)) as [H1 H2]. split; [constructor; [rewrite H2; set_solver|done]|].
      intros n. rewrite elem_of_cons, H2. destruct (decide (n = x)) as [->|]; set_solver.
Qed.

Section netwait_facts.
Context (looks : nat → look).

(** Round [i] goes on: something is missing and the context is not done. *)
Definition blocked (want : list string) (i : nat) : Prop := notReady (lk_ifaces (looks i)) want ≠ [] ∧ lk_done (looks i) = false.

(** A note never repeats the one before within the heartbeat. *)
Definition paced (log : list note) : Prop :=
  ∀ l1 l2 a s b t, log = (l1 ++ Waiting a s :: Waiting b t :: l2)%list → a ≠ b ∨ s + heartbeat ≤ t.

Lemma paced_snoc log x : paced log → (∀ a s b t, last log = Some (Waiting a s) → x = Waiting b t → a ≠ b ∨ s + heartbeat ≤ t) → paced (log ++ [x])%list.
Proof.
  intros Hp Hx l1 l2 a s b t E. destruct l2 as [|y l2 _] using rev_ind.
  - assert (log ++ [x] = (l1 ++ [Waiting a s]) ++ [Waiting b t])%list as E' by (by rewrite <- app_assoc). apply app_inj_tail in E' as [-> ->].
    apply (Hx a s b t); [apply last_snoc|done].
  - assert (log ++ [x] = (l1 ++ Waiting a s :: Waiting b t :: l2) ++ [y])%list as E' by (by rewrite <- app_assoc). apply app_inj_tail in E' as [-> ->].
    by eapply Hp.
Qed.

Definition noted (m : string) (t : Z) (log : list note) : Prop := paced log ∧ (log = [] ∧ m = "" ∨ m ≠ "" ∧ last log = Some (Waiting m t)).

Lemma noted_snoc m t log cur now : noted m t log → cur ≠ "" → negb (cur =? m)%string || (heartbeat <=? now - t) = true →
  noted cur now (log ++ [Waiting cur now]).
Proof.
  intros [Hp Hl] Hc Hs. split; [|right; split; [done|apply last_snoc]]. apply paced_snoc; [done|]. intros a s b t' Hlast [= <- <-].
  destruct Hl as [[-> ->]|[Hm Hl]]; [done|]. rewrite Hl in Hlast. injection Hlast as <- <-.
  apply orb_true_iff in Hs as [H%negb_true_iff%String.eqb_neq|H%Z.leb_le]; [left; congruence|right; lia].
Qed.

Lemma concat_nonempty sep (n : string) l : n ≠ "" → String.concat sep (n :: l) ≠ "".
Proof. intros Hn. cbn. destruct l; [done|]. by destruct n. Qed.

Lemma waitLoop_spec want fuel : Forall (λ n, n ≠ "") want → ∀ i m t log, noted m t log →
  match waitLoop looks fuel i want m t log with
  | None => ∀ j, (j < fuel)%nat → blocked want (i + j)
  | Some (b, log') =>
      (∃ j, (j < fuel)%nat ∧ (∀ j', (j' < j)%nat → blocked want (i + j')) ∧
        if b then notReady (lk_ifaces (looks (i + j)%nat)) want = []
        else notReady (lk_ifaces (looks (i + j)%nat)) want ≠ [] ∧ lk_done (looks (i + j)%nat) = true) ∧
      paced log' ∧ (b = true → log' = [] ∨ last log' = Some (AllUp (String.concat ", " want)))
  end.
Proof.
  intros Hw. induction fuel as [|fuel IH]; intros i m t log Hn; cbn [waitLoop]; [intros j; lia|].
  destruct (notReady (lk_ifaces (looks i)) want) as [|x miss] eqn:Hm.
  { split; [exists 0%nat; rewrite Nat.add_0_r; split; [lia|split; [intros; lia|done]]|]. destruct Hn as [Hp Hl].
    destruct (String.eqb_spec m "") as [->|Hne]; [split; [done|intros _; left; by destruct Hl as [[? _]|[? _]]]|].
    split; [by apply paced_snoc|]. intros _. right. apply last_snoc. }
  assert (String.concat ", " (x :: miss) ≠ "") as Hcur.
  { apply concat_nonempty. rewrite Forall_forall in Hw. apply Hw. assert (x ∈ notReady (lk_ifaces (looks i)) want) as Hx by (rewrite Hm; left).
    apply list_elem_of_In, filter_In in Hx as [Hx _]. by apply list_elem_of_In. }
  set (cur := String.concat ", " (x :: miss)) in *.
  assert (∀ m' t' log', noted m' t' log' → match (if lk_done (looks i) then Some (false, log') else waitLoop looks fuel (S i) want m' t' log') with
    | None => ∀ j, (j < S fuel)%nat → blocked want (i + j)
    | Some (b, log'') => (∃ j, (j < S fuel)%nat ∧ (∀ j', (j' < j)%nat → blocked want (i + j')) ∧
        if b then notReady (lk_ifaces (looks (i + j)%nat)) want = []
        else notReady (lk_ifaces (looks (i + j)%nat)) want ≠ [] ∧ lk_done (looks (i + j)%nat) = true) ∧
      paced log'' ∧ (b = true → log'' = [] ∨ last log'' = Some (AllUp (String.concat ", " want)))
    end) as Hnext.
  { intros m' t' log' Hn'. destruct (lk_done (looks i)) eqn:Hd.
    - split; [|split; [apply Hn'|done]]. exists 0%nat. rewrite Nat.add_0_r, Hm. split; [lia|split; [intros; lia|done]].
    - assert (blocked want i) as Hb by (split; [by rewrite Hm|done]).
      assert (∀ n, (∀ j, (j < n)%nat → blocked want (S i + j)) → ∀ j, (j < S n)%nat → blocked want (i + j)) as Hshift.
      { intros n H [|j] Hj; [by rewrite Nat.add_0_r|]. rewrite Nat.add_succ_r. apply (H j). lia. }
      specialize (IH (S i) m' t' log' Hn'). destruct (waitLoop looks fuel (S i) want m' t' log') as [[b log'']|]; [|by apply Hshift].
      destruct IH as ((j & Hj & H1 & H2) & H3). split; [|done]. exists (S j). rewrite Nat.add_succ_r. split; [lia|]. split; [by apply Hshift|done]. }
  destruct (negb (cur =? m)%string || _) eqn:Hsay; [|by apply Hnext]. apply Hnext. by eapply noted_snoc.
Qed.
End netwait_facts.

(** ** Theorems *)

(** Claim C32.  Taking over ends, whatever the other processes do: with a ticker of 100 ms and
    a grace period, within so many rounds.  It signals only processes of the same
    executable other than itself: each gets SIGTERM at the start, and those still
    alive after the grace period SIGKILL, once and no sooner.  It reports the
    others gone only when none is left, and gives up on survivors only three
    seconds after killing them. *)
Theorem takeover_exact es ab rounds entries readlink me self start grace fuel :
  let pids := sameBinaryPIDs es ab entries readlink me self in
  ticking rounds → start ≤ rd_now (rounds 0%nat) → 0 ≤ grace → grace / pollTick + 38 ≤ Z.of_nat fuel →
  ∃ o log, TakeExclusive rounds fuel start grace (Some (self, pids)) = Some (Some o, log) ∧
    (∀ p, p ∈ map sg_pid log → p ≠ me ∧ ∃ e exe, e ∈ entries ∧ atoi e = Some p ∧ readlink ("/proc/" +:+ e +:+ "/exe") = Some exe ∧ resolvePath es ab exe = self) ∧
    ∃ log', log = (map (λ p, MkSent p SIGTERM start) pids ++ log')%list ∧ kills rounds pids (start + grace) log' ∧
      (pids = [] ∧ o = Gone ∨ ended rounds pids (start + grace) o log').
Proof.
  cbn zeta. set (pids := sameBinaryPIDs es ab entries readlink me self). intros Ht Hs Hg Hf.
  assert (∀ log', kills rounds pids (start + grace) log' → ∀ p, p ∈ map sg_pid (map (λ p, MkSent p SIGTERM start) pids ++ log') →
    p ≠ me ∧ ∃ e exe, e ∈ entries ∧ atoi e = Some p ∧ readlink ("/proc/" +:+ e +:+ "/exe") = Some exe ∧ resolvePath es ab exe = self) as Hpid.
  { intros log' Hk p Hp. assert (p ∈ pids) as Hin.
    { rewrite map_app, map_map, map_id in Hp. apply elem_of_app in Hp as [Hp|Hp]; [done|]. destruct Hk as [->|(i & _ & ->)]; [by apply elem_of_nil in Hp|].
      rewrite map_map, map_id in Hp. apply list_elem_of_In, filter_In in Hp as [Hp _]. by apply list_elem_of_In. }
    apply sameBinary_spec in Hin as (e & exe & H1 & H2 & H3 & H4 & H5). split; [done|]. by exists e, exe. }
  unfold TakeExclusive. destruct pids as [|p0 ps] eqn:Hpids.
  - exists Gone, []. split; [done|]. split; [by intros p ?%elem_of_nil|]. exists []. split; [done|]. split; [by left|by left].
  - rewrite <- Hpids in *. set (log0 := map (λ p, MkSent p SIGTERM start) pids).
    pose proof (waitGone_spec rounds pids (start + grace) fuel 0 log0) as Hw. pose proof (waitGone_ends rounds pids start grace fuel log0 Ht Hs Hg Hf) as He.
    destruct (waitGone rounds fuel 0 pids (start + grace) None log0) as [[o log]|]; [|done]. destruct Hw as (log' & -> & Hk & Hend).
    exists o, (log0 ++ log')%list. split; [done|]. split; [by apply Hpid|]. exists log'. split; [done|]. split; [done|by right].
Qed.

(** Waiting for the interfaces ends exactly when it should, whatever comes up and
    goes down meanwhile: with success at the first round that finds every named
    interface ready (up, with a usable IPv4 address), cancelled at the first round
    whose context is done before that, and not otherwise; empty and repeated names
    do not count.  What is missing is reported when it changes and else at most
    once per heartbeat, and the end is reported if anything was. *)
Theorem wait_exact looks names fuel : (0 < fuel)%nat →
  let ready i := ∀ n, n ∈ names → n ≠ "" → Ready (lk_ifaces (looks i)) n = true in
  let goesOn i := ¬ ready i ∧ lk_done (looks i) = false in
  match Wait looks fuel names with
  | None => ∀ i, (i < fuel)%nat → goesOn i
  | Some (true, log) => (∃ i, (i < fuel)%nat ∧ ready i ∧ ∀ j, (j < i)%nat → goesOn j) ∧
      paced log ∧ (log = [] ∨ last log = Some (AllUp (String.concat ", " (dedup names))))
  | Some (false, log) => (∃ i, (i < fuel)%nat ∧ ¬ ready i ∧ lk_done (looks i) = true ∧ ∀ j, (j < i)%nat → goesOn j) ∧ paced log
  end.
Proof.
  intros Hf. cbn zeta.
  assert (∀ n, n ∈ dedup names ↔ n ∈ names ∧ n ≠ "") as Hin.
  { intros n. unfold dedup. rewrite (Config.sortStrings_perm (dedupFrom ∅ names)). rewrite (proj2 (dedupFrom_spec ∅ names)). set_solver. }
  assert (∀ i, notReady (lk_ifaces (looks i)) (dedup names) = [] ↔ ∀ n, n ∈ names → n ≠ "" → Ready (lk_ifaces (looks i)) n = true) as Hr.
  { intros i. unfold notReady. split.
    - intros E n H1 H2. destruct (Ready _ n) eqn:Hn; [done|]. assert (n ∈ List.filter (λ n, negb (Ready (lk_ifaces (looks i)) n)) (dedup names)) as Hx.
      { apply list_elem_of_In, filter_In. split; [by apply list_elem_of_In, Hin|by rewrite Hn]. }
      rewrite E in Hx. by apply elem_of_nil in Hx.
    - intros H. destruct (List.filter _ _) as [|x l] eqn:E; [done|]. assert (x ∈ x :: l) as Hx by left. rewrite <- E in Hx.
      apply list_elem_of_In, filter_In in Hx as [Hx%list_elem_of_In%Hin Hneg]. destruct Hx as [H1 H2]. by rewrite (H x H1 H2) in Hneg. }
  assert (∀ i, blocked looks (dedup names) i ↔ ¬ (∀ n, n ∈ names → n ≠ "" → Ready (lk_ifaces (looks i)) n = true) ∧ lk_done (looks i) = false) as Hb.
  { intros i. unfold blocked. by rewrite Hr. }
  unfold Wait. destruct (dedup names) as [|w0 ws] eqn:Hd.
  - split; [|split; [by intros [|? l1]|by left]]. exists 0%nat. split; [done|]. split; [apply Hr; reflexivity|intros; lia].
  - rewrite <- Hd in *. assert (Forall (λ n, n ≠ "") (dedup names)) as Hne by (apply Forall_forall; intros n Hn; by apply Hin).
    pose proof (waitLoop_spec looks (dedup names) fuel Hne 0 "" 0 []) as H. destruct (waitLoop looks fuel 0 (dedup names) "" 0 []) as [[[] log]|].
    + destruct H as ((i & Hi & H1 & H2) & H3 & H4); [split; [by intros [|? l1]|by left]|]. cbn [Nat.add] in *.
      split; [|split; [done|by apply H4]]. exists i. split; [done|]. split; [by apply Hr|]. intros j Hj. by apply Hb, H1.
    + destruct H as ((i & Hi & H1 & H2) & H3 & H4); [split; [by intros [|? l1]|by left]|]. cbn [Nat.add] in *.
      split; [|done]. exists i. split; [done|]. split; [rewrite <- Hr; apply H2|]. split; [apply H2|]. intros j Hj. by apply Hb, H1.
    + intros i Hi. apply Hb, H; [split; [by intros [|? l1]|by left]|done].
Qed.

(** ** Witnesses *)

(** A stubborn process that dies four seconds in, after it was killed. *)
Definition demoRounds (i : nat) : round := MkRound (λ p, bool_decide (p = 42) && (i <? 40)%nat) (pollTick * Z.of_nat i) false.

Lemma takeover_exact_witness :
  let readlink e := if (e =? "/proc/42/exe")%string then Some "/opt/dualnet (deleted)" else if (e =? "/proc/7/exe")%string then Some "/opt/dualnet" else Some "/bin/sh" in
  ∃ o log, TakeExclusive demoRounds 58 0 2000000000 (Some ("/opt/dualnet", sameBinaryPIDs Some Some ["1"; "7"; "42"; "net"] readlink 7 "/opt/dualnet")) = Some (Some o, log) ∧
    o = Gone ∧ log = [MkSent 42 SIGTERM 0; MkSent 42 SIGKILL 2100000000].
Proof.
  cbn zeta. set (readlink := λ e, if (e =? _)%string then _ else _).
  assert (ticking demoRounds) as Ht by (intros i j; cbn; unfold pollTick; lia).
  destruct (takeover_exact Some Some demoRounds ["1"; "7"; "42"; "net"] readlink 7 "/opt/dualnet" 0 2000000000 58 Ht ltac:(vm_compute; done) ltac:(done) ltac:(vm_compute; done))
    as (o & log & H & _).
  assert (TakeExclusive demoRounds 58 0 2000000000 (Some ("/opt/dualnet", sameBinaryPIDs Some Some ["1"; "7"; "42"; "net"] readlink 7 "/opt/dualnet")) =
    Some (Some Gone, [MkSent 42 SIGTERM 0; MkSent 42 SIGKILL 2100000000])) as E by (vm_compute; reflexivity).
  exists o, log. split; [exact H|]. rewrite E in H. injection H as <- <-. done.
Defined.

(** A PPPoE link that gets its address in the third round. *)
Definition demoLooks (i : nat) : look :=
  MkLook (λ n, if (n =? "eth0")%string then Some (MkIface true (Some [Some [192; 0; 2; 1]]))
          else if (2 <=? i)%nat then Some (MkIface true (Some [Some [169; 254; 0; 1]; None; Some [198; 51; 100; 7]])) else Some (MkIface true (Some [Some [169; 254; 0; 1]])))
    (1000 * Z.of_nat i) false.

Lemma wait_exact_witness :
  match Wait demoLooks 5 ["ppp1"; ""; "eth0"; "ppp1"] with
  | Some (true, log) => (∃ i, (i < 5)%nat ∧ (∀ n, n ∈ ["ppp1"; ""; "eth0"; "ppp1"] → n ≠ "" → Ready (lk_ifaces (demoLooks i)) n = true)) ∧
      paced log ∧ log = [Waiting "ppp1" 0; AllUp "eth0, ppp1"]
  | _ => False
  end.
Proof.
  pose proof (wait_exact demoLooks ["ppp1"; ""; "eth0"; "ppp1"] 5 ltac:(lia)) as H. cbn zeta in H.
  assert (Wait demoLooks 5 ["ppp1"; ""; "eth0"; "ppp1"] = Some (true, [Waiting "ppp1" 0; AllUp "eth0, ppp1"])) as E by (vm_compute; reflexivity).
  rewrite E in *. destruct H as ((i & Hi & Hr & _) & Hp & _). split; [by exists i|done].
Defined.
