(* ===== verification/NetCfg.v ===== *)
(** * internal/netcfg: the host's network configuration

    The Configure functions of netcfg.go and netcfg_linux.go run commands and
    collect the steps that undo them in a [chain].  They are written over any
    [Host], an interface for what iproute2, iptables and /proc hold; [HostLaws]
    states what each command does to it, by the change [changeOf] reads off its
    arguments.  The theorems follow what is installed: a Configure that fails
    leaves nothing, the teardown of one that succeeds restores the host, and a
    Capturer holds exactly its two routes while captured.  NetCfgDarwin.v has
    the macOS side over the same interface. *)

From Stdlib Require Import Morphisms.
From S2P Require Import Prelude GoStrings NetIp Http Factory NetText Node.
Local Open Scope Z_scope.
Local Open Scope string_scope.
Local Open Scope go_scope.

Abbreviation argv := (list string).

Record IfaceRoute := MkIfaceRoute { ir_Iface : string; ir_Gateway : string; ir_Table : Z; ir_Prio : Z }.
Record LANForward := MkLANForward { lf_LANIface : string; lf_TunName : string }.
Record NATSetup := MkNATSetup { ns_TunName : string; ns_Subnet : netipAddr * Z; ns_ExtIface : string }.
Record SourceAddr := MkSourceAddr { sa_Addr : string; sa_Iface : string }.

(** ** What commands change

    An installed rule, route, address or link is named by the command that
    deletes it. *)

Inductive change :=
| Adds (key : argv)          (* one more copy *)
| Puts (key : argv)          (* one copy, in the place of its rivals *)
| Deletes (key : argv)
| DeletesOne (sel : argv)    (* one object whose deletion extends [sel] *)
| Flushes (t : string)
| Fills (t : string)         (* a default route of table [t] *)
| Neutral.

Definition starts (p a : argv) : bool := bool_decide (take (length p) a = p).
Definition unwait (a : argv) : argv :=
  match a with prog :: w :: rest => if w =? "-w" then prog :: rest else a | _ => a end.
Definition flipA (a : argv) : argv := map (λ x, if x =? "-A" then "-D" else x) a.

Definition ipTables (a : argv) : change :=
  if bool_decide ("-A" ∈ a) then Adds (flipA a) else if bool_decide ("-D" ∈ a) then Deletes a else Neutral.

Definition changeOf (a : argv) : change :=
  if starts ["ip"; "addr"; "add"] a then Adds (["ip"; "addr"; "del"] ++ drop 3 a)
  else if starts ["ip"; "addr"; "replace"] a then Puts (["ip"; "addr"; "del"] ++ drop 3 a)
  else if starts ["ip"; "link"; "add"; "dev"] a then Adds (["ip"; "link"; "del"; "dev"] ++ take 1 (drop 4 a))
  else if starts ["ip"; "route"; "flush"; "table"] a then Flushes (default "" (a !! 4%nat))
  else if starts ["ip"; "route"; "replace"; "default"] a then Fills (default "" (last a))
  else if starts ["ip"; "route"; "replace"] a then Puts (["ip"; "route"; "del"] ++ drop 3 a)
  else if starts ["ip"; "rule"; "add"] a then Adds (["ip"; "rule"; "del"] ++ drop 3 a)
  else if starts ["ip"; "rule"; "del"] a then DeletesOne a
  else if starts ["ip"; "addr"; "del"] a || starts ["ip"; "link"; "del"] a || starts ["ip"; "route"; "del"] a then Deletes a
  else if starts ["iptables"] a then ipTables (unwait a)
  else if starts ["route"; "-n"; "add"; "-net"] a then Adds (["route"; "-n"; "delete"; "-net"] ++ drop 4 a)
  else if starts ["route"; "-n"; "add"; "-host"] a then
    Adds (["route"; "-n"; "delete"; "-host"] ++ take 1 (drop 4 a) ++ drop 6 a)
  else if starts ["route"; "-n"; "delete"] a then Deletes a
  else if starts ["ifconfig"] a then
    match drop 1 a with
    | i :: verb :: ip :: _ =>
        if verb =? "alias" then Puts ["ifconfig"; i; "-alias"; ip] else if verb =? "-alias" then Deletes a else Neutral
    | _ => Neutral
    end
  else Neutral.

(** Routes to one destination stand in each other's place; an address or an
    alias has no rival. *)
Definition rival (key x : argv) : bool :=
  starts ["ip"; "route"; "del"] key && bool_decide (take 4 x = take 4 key).

(** ** The host *)

Record view := MkView { v_objs : argv → nat; v_routes : string → list argv; v_fwd : string }.

Definition sameObjs (v v' : view) : Prop := ∀ x, v_objs v' x = v_objs v x.
Definition sameRoutes (v v' : view) : Prop := ∀ t, v_routes v' t = v_routes v t.

Record sameView (v v' : view) : Prop := { sv_objs : sameObjs v v'; sv_routes : sameRoutes v v'; sv_fwd : v_fwd v' = v_fwd v }.

(** What a command with the given change leaves, where it succeeds and where it
    fails.  A deletion of what is installed succeeds; deleting a link may take
    objects that name it along. *)
Definition after (a : argv) (ok : bool) (v v' : view) : Prop :=
  v_fwd v' = v_fwd v ∧
  match changeOf a with
  | Adds key => sameRoutes v v' ∧ ∀ x, v_objs v' x = if ok && bool_decide (x = key) then S (v_objs v x) else v_objs v x
  | Puts key => sameRoutes v v' ∧
      if ok then ∀ x, v_objs v' x = if bool_decide (x = key) then 1%nat else if rival key x then 0%nat else v_objs v x else sameObjs v v'
  | Deletes key => sameRoutes v v' ∧ v_objs v' key = pred (v_objs v key) ∧
      ∀ x, x ≠ key → v_objs v' x = v_objs v x ∨ starts ["ip"; "link"; "del"] key = true ∧ (∃ dev, last key = Some dev ∧ dev ∈ x) ∧ v_objs v' x = 0%nat
  | DeletesOne sel => sameRoutes v v' ∧
      if ok then ∃ key, starts sel key = true ∧ v_objs v key = S (v_objs v' key) ∧ ∀ x, x ≠ key → v_objs v' x = v_objs v x
      else sameObjs v v' ∧ ∀ x, starts sel x = true → v_objs v x = 0%nat
  | Flushes t => sameObjs v v' ∧ v_routes v' t = [] ∧ ∀ t', t' ≠ t → v_routes v' t' = v_routes v t'
  | Fills t => sameObjs v v' ∧
      if ok then v_routes v' t = (base.filter (λ r, take 4 r ≠ take 4 a) (v_routes v t) ++ [a])%list ∧ ∀ t', t' ≠ t → v_routes v' t' = v_routes v t'
      else sameRoutes v v'
  | Neutral => sameObjs v v' ∧ sameRoutes v v'
  end.

Class Host (K : Type) := {
  (** A command, and whether it exits with status 0. *)
  hostRun : argv → K → bool * K;
  (** The output of a query, [None] where it fails. *)
  hostOutput : argv → K → option string;
  (** /proc/sys/net/ipv4/ip_forward, read ([None] where it cannot be) and written. *)
  readForward : K → option string;
  setForward : string → K → bool * K;
  installed : K → argv → nat;
  routes : K → string → list argv;
}.

Definition trimmed (s : string) : string := unchars (trimSpace (chars s)).
Definition forwarding {K} `{Host K} (k : K) : string := trimmed (default "" (readForward k)).
Definition viewOf {K} `{Host K} (k : K) : view := MkView (installed k) (routes k) (forwarding k).

Class HostLaws (K : Type) `{Host K} := {
  run_after a k : after a (hostRun a k).1 (viewOf k) (viewOf (hostRun a k).2);
  forward_after v k : let '(ok, k') := setForward v k in
    sameObjs (viewOf k) (viewOf k') ∧ sameRoutes (viewOf k) (viewOf k') ∧ forwarding k' = if ok : bool then trimmed v else forwarding k;
  (** Where the file can be written, a value it held can be written back. *)
  forward_back k k' : (setForward "1" k).1 = true → forwarding k ≠ "" → (setForward (forwarding k) k').1 = true;
}.

(** ** netcfg.go *)

(** A step of a teardown chain: a command whose error counts, one whose error is
    dropped, a write of the ip_forward file. *)
Inductive undo := UndoRun (a : argv) | UndoQuiet (a : argv) | UndoForward (v : string).
Abbreviation chain := (list undo).

Section netcfg.
Context {K : Type} `{HK : Host K}.

(** The host, and what the probe for `iptables -w` answered once it ran. *)
Record world := MkWorld { w_k : K; w_wait : option bool }.

Definition run (a : argv) (w : world) : bool * world :=
  let '(ok, k) := hostRun a (w_k w) in (ok, MkWorld k (w_wait w)).
(** [output]: trimmed. *)
Definition output (a : argv) (w : world) : option string := trimmed <$> hostOutput a (w_k w).
Definition setIPForward (v : string) (w : world) : bool * world :=
  let '(ok, k) := setForward v (w_k w) in (ok, MkWorld k (w_wait w)).

Definition undoStep (u : undo) (w : world) : bool * world :=
  match u with
  | UndoRun a => run a w
  | UndoQuiet a => (true, (run a w).2)
  | UndoForward v => setIPForward v w
  end.

(** The steps in reverse, past failures; whether none failed. *)
Definition teardown (c : chain) (w : world) : bool * world :=
  fold_left (λ '(ok, w) u, let '(ok', w') := undoStep u w in (ok && ok', w')) (rev c) (true, w).

(** A configuration: its teardown chain, [None] on an error. *)
Abbreviation conf := (world → option chain * world).

(** Run [body] for each element, extending the chain; tear it down on a failure. *)
Fixpoint confLoop {A} (body : A → world → option chain * world) (c : chain) (l : list A) (w : world) : option chain * world :=
  match l with
  | [] => (Some c, w)
  | x :: l' =>
      match body x w with
      | (Some c', w') => confLoop body (c ++ c') l' w'
      | (None, w') => (None, (teardown c w').2)
      end
  end.

(** [Capturer], over the platform's [captureDefault]. *)
Section capturer.
Context (captureDefault : string → option netipAddr → conf).

Record Capturer := MkCapturer { cp_dev : string; cp_peer : option netipAddr; cp_ch : option chain }.
Definition NewCapturer (dev : string) (peer : option netipAddr) : Capturer := MkCapturer dev peer None.

Definition Capture (c : Capturer) (w : world) : bool * (Capturer * world) :=
  match cp_ch c with
  | Some _ => (true, (c, w))
  | None =>
      match captureDefault (cp_dev c) (cp_peer c) w with
      | (Some ch, w') => (true, (MkCapturer (cp_dev c) (cp_peer c) (Some ch), w'))
      | (None, w') => (false, (c, w'))
      end
  end.

Definition Release (c : Capturer) (w : world) : bool * (Capturer * world) :=
  match cp_ch c with
  | None => (true, (c, w))
  | Some ch => let '(ok, w') := teardown ch w in (ok, (MkCapturer (cp_dev c) (cp_peer c) None, w'))
  end.
End capturer.

(** ** netcfg_linux.go *)

Definition iptablesSupportsWait (w : world) : bool * world :=
  match w_wait w with
  | Some b => (b, w)
  | None => let '(ok, w) := run ["iptables"; "-w"; "-t"; "filter"; "-S"] w in (ok, MkWorld (w_k w) (Some ok))
  end.
Definition iptablesCmd (rule : argv) (w : world) : argv * world :=
  let '(wait, w) := iptablesSupportsWait w in (if wait : bool then "iptables" :: "-w" :: rule else "iptables" :: rule, w).

Definition ConfigureTun (t : TunSetup) : conf := λ w,
  let '(ok, w) := match ts_Local t with
    | Some a => run ["ip"; "addr"; "add"; (addrString a +:+ "/" +:+ Itoa (ts_Bits t)); "dev"; ts_Name t] w
    | None => (true, w)
    end in
  if ok : bool then
    let '(ok, w) := run ["ip"; "link"; "set"; ts_Name t; "mtu"; Itoa (ts_MTU t); "up"] w in
    (if ok : bool then Some [] else None, w)
  else (None, w).

Definition EnsureWireGuardLink (name : string) : conf := λ w,
  let w := (run ["modprobe"; "wireguard"] w).2 in
  let w := (run ["ip"; "link"; "del"; "dev"; name] w).2 in
  let '(ok, w) := run ["ip"; "link"; "add"; "dev"; name; "type"; "wireguard"] w in
  (if ok : bool then Some [UndoRun ["ip"; "link"; "del"; "dev"; name]] else None, w).

Definition captureRoute (cidr dev : string) : argv := ["ip"; "route"; "del"; cidr; "dev"; dev].
Definition captureCidrs : list string := ["0.0.0.0/1"; "128.0.0.0/1"].
Definition captureDefault (dev : string) (_ : option netipAddr) : conf :=
  confLoop (λ cidr w, let '(ok, w) := run ["ip"; "route"; "replace"; cidr; "dev"; dev] w in
    (if ok : bool then Some [UndoQuiet (captureRoute cidr dev)] else None, w)) [] captureCidrs.

Definition PinRoutes (_ : list (string * string)) : conf := λ w, (Some [], w).

Fixpoint viaOf (fs : list string) : string :=
  match fs with
  | f :: ((g :: _) as fs') => if f =? "via" then g else viaOf fs'
  | _ => ""
  end.
Definition DefaultGatewayVia (iface : string) (w : world) : option string :=
  match output ["ip"; "-o"; "-4"; "route"; "show"; "default"; "dev"; iface] w with
  | None => None
  | Some out => if trimmed out =? "" then None else Some (viaOf (map unchars (fields (chars out))))
  end.

Definition nextHop (r : IfaceRoute) (w : world) : string :=
  if ir_Gateway r =? "" then default "" (DefaultGatewayVia (ir_Iface r) w) else ir_Gateway r.
Definition pinRoute (gw iface tbl : string) : argv :=
  (["ip"; "route"; "replace"; "default"] ++ (if gw =? "" then [] else ["via"; gw]) ++ ["dev"; iface; "table"; tbl])%list.
Definition pinRule (verb prio iface tbl : string) : argv :=
  ["ip"; "rule"; verb; "priority"; prio; "oif"; iface; "lookup"; tbl].

Definition PinIfaceDefault (r : IfaceRoute) : conf := λ w,
  let tbl := Itoa (ir_Table r) in
  let prio := Itoa (ir_Prio r) in
  let flush := ["ip"; "route"; "flush"; "table"; tbl] in
  let w := (run flush w).2 in
  let '(ok, w) := run (pinRoute (nextHop r w) (ir_Iface r) tbl) w in
  if ok : bool then
    let w := (run ["ip"; "rule"; "del"; "priority"; prio] w).2 in
    let '(ok, w) := run (pinRule "add" prio (ir_Iface r) tbl) w in
    if ok : bool then (Some [UndoRun flush; UndoRun (pinRule "del" prio (ir_Iface r) tbl)], w)
    else (None, (teardown [UndoRun flush] w).2)
  else (None, w).

Definition clamp (flag tun : string) : argv :=
  ["-t"; "mangle"; "-A"; "FORWARD"; flag; tun; "-p"; "tcp"; "--tcp-flags"; "SYN,RST"; "SYN"; "-j"; "TCPMSS"; "--clamp-mss-to-pmtu"].
Definition lanForwardRules (l : LANForward) : list argv := [
  ["-A"; "FORWARD"; "-i"; lf_LANIface l; "-o"; lf_TunName l; "-j"; "ACCEPT"];
  ["-A"; "FORWARD"; "-i"; lf_TunName l; "-o"; lf_LANIface l; "-j"; "ACCEPT"];
  ["-t"; "nat"; "-A"; "POSTROUTING"; "-o"; lf_TunName l; "-j"; "MASQUERADE"];
  clamp "-o" (lf_TunName l); clamp "-i" (lf_TunName l)].
Definition natRules (n : NATSetup) : list argv := [
  ["-t"; "nat"; "-A"; "POSTROUTING"; "-s"; prefixString (ns_Subnet n); "-o"; ns_ExtIface n; "-j"; "MASQUERADE"];
  ["-A"; "FORWARD"; "-i"; ns_TunName n; "-o"; ns_ExtIface n; "-j"; "ACCEPT"];
  ["-A"; "FORWARD"; "-i"; ns_ExtIface n; "-o"; ns_TunName n; "-m"; "conntrack"; "--ctstate"; "RELATED,ESTABLISHED"; "-j"; "ACCEPT"];
  clamp "-o" (ns_TunName n); clamp "-i" (ns_TunName n)].

Definition enableForward : conf := λ w,
  let prev := forwarding (w_k w) in
  if prev =? "1" then (Some [], w)
  else let '(ok, w) := setIPForward "1" w in
       (if ok : bool then Some (if prev =? "" then [] else [UndoForward prev]) else None, w).

Definition addRule (rule : argv) : conf := λ w,
  let '(cmd, w) := iptablesCmd rule w in
  let '(ok, w) := run cmd w in
  if ok : bool then let '(del, w) := iptablesCmd rule w in (Some [UndoRun (flipA del)], w) else (None, w).

Definition withRules (rules : list argv) : conf := λ w,
  match enableForward w with
  | (Some c, w) => confLoop addRule c rules w
  | (None, w) => (None, w)
  end.
Definition ConfigureLANForward (l : LANForward) : conf := withRules (lanForwardRules l).
Definition ConfigureNAT (n : NATSetup) : conf := withRules (natRules n).

Definition ConfigureSourceAddr (s : SourceAddr) : conf := λ w,
  let cidr := if bool_decide ("/"%char ∈ chars (sa_Addr s)) then sa_Addr s else sa_Addr s +:+ "/32" in
  let '(ok, w) := run ["ip"; "addr"; "replace"; cidr; "dev"; sa_Iface s] w in
  (if ok : bool then Some [UndoRun ["ip"; "addr"; "del"; cidr; "dev"; sa_Iface s]] else None, w).
End netcfg.

(** ** Lemmas: hosts that hold the same *)

Section facts.
Context {K : Type} `{HK : Host K} `{HL : !HostLaws K}.
Abbreviation world := (world (K := K)).
Abbreviation conf := (world → option chain * world).

Definition same (k k' : K) : Prop := sameView (viewOf k) (viewOf k').

#[global] Instance same_equiv : Equivalence same.
Proof.
  split; [by intros k|intros k k' [H1 H2 H3]|intros k1 k2 k3 [H1 H2 H3] [G1 G2 G3]]; (split; [intros x|intros t|]); unfold sameObjs, sameRoutes in *; cbn in *; rewrite ?H1, ?G1, ?H2, ?G2; congruence.
Qed.

Lemma same_intro k k' : sameObjs (viewOf k) (viewOf k') → sameRoutes (viewOf k) (viewOf k') → forwarding k' = forwarding k → same k k'.
Proof. by split. Qed.

Lemma trimmed_idempotent s : trimmed (trimmed s) = trimmed s.
Proof. unfold trimmed, chars, unchars. by rewrite String.list_ascii_of_string_of_list_ascii, trim_idempotent. Qed.

Lemma run_law a (w : world) : after a (run a w).1 (viewOf (w_k w)) (viewOf (w_k (run a w).2)).
Proof. unfold run. pose proof (run_after a (w_k w)) as H. by destruct (hostRun a (w_k w)). Qed.

Lemma run_neutral a (w : world) : changeOf a = Neutral → same (w_k w) (w_k (run a w).2).
Proof. intros Hc. destruct (run_law a w) as [Hf H]. rewrite Hc in H. destruct H as [Ho Hr]. by apply same_intro. Qed.

(** A failed addition changes nothing. *)
Lemma run_adds_fails a key (w : world) : changeOf a = Adds key → (run a w).1 = false → same (w_k w) (w_k (run a w).2).
Proof.
  intros Hc Ho. destruct (run_law a w) as [Hf H]. rewrite Hc, Ho in H. destruct H as [Hr Hx]. by apply same_intro.
Qed.

Definition link (key : argv) : bool := starts ["ip"; "link"; "del"] key.

(** An addition and, on a host that holds the same, its deletion. *)
Lemma run_adds_deletes a d key (w w' : world) : changeOf a = Adds key → changeOf d = Deletes key → link key = false →
  (run a w).1 = true → same (w_k (run a w).2) (w_k w') → same (w_k w) (w_k (run d w').2).
Proof.
  intros Ha Hd Hl Ho [S1 S2 S3]. destruct (run_law a w) as [F1 H1]. rewrite Ha, Ho in H1. destruct H1 as [R1 O1].
  destruct (run_law d w') as [F2 H2]. rewrite Hd in H2. destruct H2 as (R2 & D2 & O2).
  apply same_intro; [|intros t; by rewrite R2, S2, R1|cbn in *; congruence]. intros x. destruct (decide (x = key)) as [->|Hx].
  - rewrite D2, S1, O1. by rewrite bool_decide_true.
  - destruct (O2 x Hx) as [E|[E _]]; [|unfold link in Hl; congruence]. rewrite E, S1, O1. by rewrite bool_decide_false.
Qed.

(** ** Lemmas: teardown chains *)

Definition stepAll (c : chain) (acc : bool * world) : bool * world :=
  fold_left (λ '(ok, w) u, let '(ok', w') := undoStep u w in (ok && ok', w')) c acc.

Lemma stepAll_world c ok1 ok2 w : (stepAll c (ok1, w)).2 = (stepAll c (ok2, w)).2.
Proof. revert ok1 ok2 w. induction c as [|u c IH]; intros ok1 ok2 w; [done|]. cbn. destruct (undoStep u w). apply IH. Qed.

Lemma teardown_app c c' (w : world) : (teardown (c ++ c')%list w).2 = (teardown c (teardown c' w).2).2.
Proof.
  transitivity (stepAll (rev c) (stepAll (rev c') (true, w))).2.
  { unfold teardown, stepAll. by rewrite rev_app_distr, fold_left_app. }
  change (teardown c' w) with (stepAll (rev c') (true, w)). destruct (stepAll (rev c') (true, w)) as [ok w1]. apply stepAll_world.
Qed.

Lemma teardown_one u (w : world) : (teardown [u] w).2 = (undoStep u w).2.
Proof. unfold teardown. cbn. by destruct (undoStep u w). Qed.

(** From a host that holds what [k] does, the chain leads to what [k0] holds. *)
Definition undoes (c : chain) (k k0 : K) : Prop := ∀ w : world, same k (w_k w) → same k0 (w_k (teardown c w).2).

Lemma undoes_nil k k0 : same k0 k → undoes [] k k0.
Proof. intros H w Hw. cbn. by transitivity k. Qed.

Lemma undoes_app c c' k0 k1 k2 : undoes c k1 k0 → undoes c' k2 k1 → undoes (c ++ c') k2 k0.
Proof. intros H H' w Hw. rewrite teardown_app. by apply H, H'. Qed.

#[global] Instance undoes_proper c : Proper (same ==> same ==> iff) (undoes c).
Proof.
  intros k1 k2 Hk k3 k4 Hk'. split; intros H w Hw.
  - rewrite <- Hk'. apply H. by rewrite Hk.
  - rewrite Hk'. apply H. by rewrite <- Hk.
Qed.

Definition countOf (x : argv) (l : list argv) : nat := length (base.filter (λ y, y = x) l).

Lemma countOf_app x l l' : countOf x (l ++ l') = (countOf x l + countOf x l')%nat.
Proof. unfold countOf. by rewrite filter_app, length_app. Qed.

Definition gains (keys : list argv) (k k' : K) : Prop :=
  (∀ x, installed k' x = (installed k x + countOf x keys)%nat) ∧ sameRoutes (viewOf k) (viewOf k').

(** A configuration that adds [keys] or fails with no effect, and whose chain
    undoes it. *)
Definition reversible (m : conf) (keys : list argv) : Prop := ∀ w,
  match m w with
  | (Some c, w') => undoes c (w_k w') (w_k w) ∧ gains keys (w_k w) (w_k w') ∧ forwarding (w_k w') = forwarding (w_k w)
  | (None, w') => same (w_k w) (w_k w')
  end.

Lemma gains_trans k1 k2 a b c : gains k1 a b → gains k2 b c → gains (k1 ++ k2) a c.
Proof. intros [H1 H2] [G1 G2]. split; [intros x; rewrite G1, H1, countOf_app; lia|intros t; by rewrite G2, H2]. Qed.

Lemma confLoop_reversible {A} (body : A → conf) (key : A → argv) l : (∀ x, x ∈ l → reversible (body x) [key x]) →
  ∀ c k0 (w : world), undoes c (w_k w) k0 →
  match confLoop body c l w with
  | (Some c', w') => undoes c' (w_k w') k0 ∧ gains (map key l) (w_k w) (w_k w') ∧ forwarding (w_k w') = forwarding (w_k w)
  | (None, w') => same k0 (w_k w')
  end.
Proof.
  induction l as [|x l IH]; intros Hl c k0 w Hu; cbn [confLoop map].
  { split; [done|]. split; [|done]. split; [intros y; cbn; lia|done]. }
  specialize (Hl x ltac:(left)) as Hx. specialize (Hx w). destruct (body x w) as [[c'|] w1].
  - destruct Hx as (U & G & F). specialize (IH (λ y Hy, Hl y ltac:(by right)) (c ++ c')%list k0 w1 (undoes_app _ _ _ _ _ Hu U)).
    destruct (confLoop body (c ++ c') l w1) as [[c2|] w2]; [|done]. destruct IH as (U2 & G2 & F2).
    split; [done|]. split; [exact (gains_trans [key x] (map key l) _ _ _ G G2)|congruence].
  - by apply Hu.
Qed.

(** ** Lemmas: iptables rules *)

Definition rule (r : argv) : Prop := "-A" ∈ r ∧ List.hd "" r ≠ "-w".
Definition ruleKey (r : argv) : argv := "iptables" :: flipA r.
Definition withWait (b : bool) (r : argv) : argv := if b then "iptables" :: "-w" :: r else "iptables" :: r.

Lemma changeOf_iptables a : changeOf ("iptables" :: a) = ipTables (unwait ("iptables" :: a)).
Proof. reflexivity. Qed.

Lemma unwait_with b r : List.hd "" r ≠ "-w" → unwait (withWait b r) = "iptables" :: r.
Proof. intros H. destruct b; [done|]. destruct r as [|x r]; [done|]. cbn in *. by apply String.eqb_neq in H as ->. Qed.

Lemma flipA_nothing r : "-A" ∉ flipA r.
Proof. intros (x & Hx & _)%list_elem_of_fmap. destruct (x =? "-A") eqn:E; [done|]. apply String.eqb_neq in E. congruence. Qed.
Lemma flipA_delete r : "-A" ∈ r → "-D" ∈ flipA r.
Proof. intros H. apply list_elem_of_fmap. by exists "-A". Qed.
Lemma flipA_hd r : List.hd "" r ≠ "-w" → List.hd "" (flipA r) ≠ "-w".
Proof. destruct r as [|x r]; [done|]. cbn. by destruct (x =? "-A"). Qed.
Lemma flipA_with b r : flipA (withWait b r) = withWait b (flipA r).
Proof. by destruct b. Qed.

Lemma withWait_change b r : List.hd "" r ≠ "-w" → changeOf (withWait b r) = ipTables ("iptables" :: r).
Proof.
  intros H. rewrite <- (unwait_with b r H). by destruct b.
Qed.

Lemma rule_adds b r : rule r → changeOf (withWait b r) = Adds (ruleKey r).
Proof.
  intros [Ha Hw]. rewrite withWait_change by done. unfold ipTables. rewrite bool_decide_true by (by right). done.
Qed.
Lemma rule_deletes b r : rule r → changeOf (flipA (withWait b r)) = Deletes (ruleKey r).
Proof.
  intros [Ha Hw]. rewrite flipA_with, withWait_change by by apply flipA_hd. unfold ipTables.
  rewrite bool_decide_false, bool_decide_true; [done|right; by apply flipA_delete|]. intros [?|H]%elem_of_cons; [done|]. by apply flipA_nothing in H.
Qed.

(** What the probe answers, now and later. *)
Lemma iptablesCmd_law r (w : world) : ∃ b w1, same (w_k w) (w_k w1) ∧ w_wait w1 = Some b ∧ iptablesCmd r w = (withWait b r, w1).
Proof.
  unfold iptablesCmd, iptablesSupportsWait. destruct (w_wait w) as [b|] eqn:Hw; [by exists b, w|].
  pose proof (run_neutral ["iptables"; "-w"; "-t"; "filter"; "-S"] w ltac:(vm_compute; reflexivity)) as Hs.
  destruct (run _ w) as [b w1]. by exists b, (MkWorld (w_k w1) (Some b)).
Qed.
Lemma iptablesCmd_known b r (w : world) : w_wait w = Some b → iptablesCmd r w = (withWait b r, w).
Proof. unfold iptablesCmd, iptablesSupportsWait. by intros ->. Qed.
Lemma run_wait a (w : world) : w_wait (run a w).2 = w_wait w.
Proof. unfold run. by destruct (hostRun a (w_k w)). Qed.

Lemma run_adds a key (w : world) : changeOf a = Adds key → (run a w).1 = true → gains [key] (w_k w) (w_k (run a w).2).
Proof.
  intros Hc Ho. destruct (run_law a w) as [_ H]. rewrite Hc, Ho in H. destruct H as [Hr Hx]. split; [|done]. intros x.
  specialize (Hx x). cbn in Hx. rewrite Hx. unfold countOf. destruct (decide (x = key)) as [->|Hn].
  - rewrite bool_decide_true, filter_cons_True by done. cbn. lia.
  - rewrite bool_decide_false, filter_cons_False by congruence. cbn. lia.
Qed.

Lemma gains_same a k1 k2 k3 : same k1 k2 → gains a k2 k3 → gains a k1 k3.
Proof. intros [S1 S2 _] [G1 G2]. split; [intros x; specialize (S1 x); cbn in S1; rewrite G1; lia|intros t; by rewrite G2, S2]. Qed.

Lemma addRule_reversible r : rule r → reversible (addRule r) [ruleKey r].
Proof.
  intros Hr w. unfold addRule. destruct (iptablesCmd_law r w) as (b & w1 & Hs & Hb & ->).
  pose proof (run_adds_deletes (withWait b r) (flipA (withWait b r)) (ruleKey r) w1) as Hd.
  pose proof (run_adds _ _ w1 (rule_adds b r Hr)) as Hg. pose proof (run_adds_fails _ _ w1 (rule_adds b r Hr)) as Hf.
  pose proof (run_wait (withWait b r) w1) as Hw. destruct (run_law (withWait b r) w1) as [Hfw _]. cbn in Hfw.
  destruct (run (withWait b r) w1) as [[] w2]; cbn [fst snd] in *; [|by transitivity (w_k w1); [|apply Hf]].
  rewrite (iptablesCmd_known b) by congruence. split; [|split; [by eapply gains_same, Hg|destruct Hs as [_ _ E]; cbn in E; congruence]].
  intros w' Hw'. rewrite teardown_one. cbn [undoStep]. transitivity (w_k w1); [done|].
  by apply Hd; [apply rule_adds|apply rule_deletes| | |].
Qed.

(** ** Lemmas: the ip_forward file *)

Lemma setIPForward_law v (w : world) : let '(ok, w') := setIPForward v w in
  sameObjs (viewOf (w_k w)) (viewOf (w_k w')) ∧ sameRoutes (viewOf (w_k w)) (viewOf (w_k w')) ∧
  forwarding (w_k w') = if ok : bool then trimmed v else forwarding (w_k w).
Proof. unfold setIPForward. pose proof (forward_after v (w_k w)) as H. by destruct (setForward v (w_k w)). Qed.

Lemma forwarding_trimmed (k : K) : trimmed (forwarding k) = forwarding k.
Proof. unfold forwarding. apply trimmed_idempotent. Qed.

Lemma enableForward_law (w : world) : forwarding (w_k w) ≠ "" →
  match enableForward w with
  | (Some c, w') => undoes c (w_k w') (w_k w) ∧ gains [] (w_k w) (w_k w') ∧ forwarding (w_k w') = "1"
  | (None, w') => same (w_k w) (w_k w')
  end.
Proof.
  intros Hne. unfold enableForward. destruct (String.eqb_spec (forwarding (w_k w)) "1") as [H1|H1].
  { split; [by apply undoes_nil|]. split; [split; [intros x; cbn; lia|done]|done]. }
  pose proof (setIPForward_law "1" w) as Hl. pose proof (forward_back (w_k w)) as Hb. unfold setIPForward in *.
  destruct (setForward "1" (w_k w)) as [[] k1]; destruct Hl as (Ho & Hr & Hf); cbn [w_k] in *; [|by apply same_intro].
  apply String.eqb_neq in Hne as He. rewrite He. split; [|split; [split; [intros x; specialize (Ho x); cbn in *; lia|done]|exact Hf]].
  intros w' [S1 S2 S3]. rewrite teardown_one. cbn [undoStep]. pose proof (setIPForward_law (forwarding (w_k w)) w') as Hl.
  specialize (Hb (w_k w') eq_refl Hne). unfold setIPForward in *. destruct (setForward (forwarding (w_k w)) (w_k w')) as [ok k2].
  cbn [fst] in Hb. subst ok. destruct Hl as (Ho2 & Hr2 & Hf2). cbn [snd w_k] in *.
  apply same_intro; [intros x; by rewrite Ho2, S1, Ho|intros t; by rewrite Hr2, S2, Hr|by rewrite Hf2, forwarding_trimmed].
Qed.

Lemma withRules_law rules (w : world) : Forall rule rules → forwarding (w_k w) ≠ "" →
  match withRules rules w with
  | (Some c, w') => undoes c (w_k w') (w_k w) ∧ gains (map ruleKey rules) (w_k w) (w_k w') ∧ forwarding (w_k w') = "1"
  | (None, w') => same (w_k w) (w_k w')
  end.
Proof.
  intros Hr Hf. unfold withRules. pose proof (enableForward_law w Hf) as He. destruct (enableForward w) as [[c|] w1]; [|done].
  destruct He as (U & G & F). rewrite Forall_forall in Hr.
  pose proof (confLoop_reversible addRule ruleKey rules (λ x Hx, addRule_reversible x (Hr x Hx)) c _ w1 U) as H.
  destruct (confLoop addRule c rules w1) as [[c'|] w2]; [|done]. destruct H as (U2 & G2 & F2).
  split; [done|]. split; [exact (gains_trans [] _ _ _ _ G G2)|congruence].
Qed.

Lemma natRules_ok n : Forall rule (natRules n).
Proof. repeat constructor; try done; cbn; set_solver. Qed.
Lemma lanForwardRules_ok l : Forall rule (lanForwardRules l).
Proof. repeat constructor; try done; cbn; set_solver. Qed.

(** ** Lemmas: the capture routes *)

Lemma capture_puts cidr dev : cidr ∈ captureCidrs → changeOf ["ip"; "route"; "replace"; cidr; "dev"; dev] = Puts (captureRoute cidr dev).
Proof. intros [->|[->|?%elem_of_nil]%elem_of_cons]%elem_of_cons; done. Qed.
Lemma capture_deletes cidr dev : changeOf (captureRoute cidr dev) = Deletes (captureRoute cidr dev).
Proof. reflexivity. Qed.
Lemma capture_rival cidr dev x : rival (captureRoute cidr dev) x = bool_decide (take 4 x = ["ip"; "route"; "del"; cidr]).
Proof. reflexivity. Qed.

Definition captureKeys (dev : string) : list argv := map (λ c, captureRoute c dev) captureCidrs.

(** No route of another device to the two destinations. *)
Definition noRival (dev : string) (k : K) : Prop :=
  ∀ x cidr, cidr ∈ captureCidrs → take 4 x = ["ip"; "route"; "del"; cidr] → x ≠ captureRoute cidr dev → installed k x = 0%nat.

(** The host but for the two routes. *)
Definition sameBut (dev : string) (k k' : K) : Prop :=
  (∀ x, x ∉ captureKeys dev → installed k' x = installed k x) ∧ sameRoutes (viewOf k) (viewOf k') ∧ forwarding k' = forwarding k.

#[global] Instance sameBut_pre dev : PreOrder (sameBut dev).
Proof.
  split; [by intros k|]. intros k1 k2 k3 (H1 & H2 & H3) (G1 & G2 & G3).
  split; [intros x Hx; by rewrite G1, H1|]. split; [intros t; by rewrite G2, H2|congruence].
Qed.

Lemma noRival_but dev k k' : noRival dev k → sameBut dev k k' → noRival dev k'.
Proof.
  intros Hn (Ho & _) x cidr Hc Ht Hx. rewrite Ho; [by eapply Hn|]. intros (c & -> & Hin)%list_elem_of_fmap.
  cbn in Ht. injection Ht as ->. done.
Qed.

(** One route put in place: its key once, its rivals were not there. *)
Lemma capture_put cidr dev (w : world) : cidr ∈ captureCidrs → noRival dev (w_k w) →
  let '(ok, w') := run ["ip"; "route"; "replace"; cidr; "dev"; dev] w in
  (∀ x, installed (w_k w') x = if ok && bool_decide (x = captureRoute cidr dev) then 1%nat else installed (w_k w) x) ∧
  sameRoutes (viewOf (w_k w)) (viewOf (w_k w')) ∧ forwarding (w_k w') = forwarding (w_k w).
Proof.
  intros Hc Hn. pose proof (run_law ["ip"; "route"; "replace"; cidr; "dev"; dev] w) as [Hf H]. rewrite (capture_puts _ _ Hc) in H.
  destruct (run _ w) as [ok w']. cbn [fst snd] in *. destruct H as [Hr H]. split; [|done]. intros x. destruct ok; [|exact (H x)].
  specialize (H x). cbn in H. rewrite H. cbn [andb]. case_bool_decide as Hx; [done|].
  fold (captureRoute cidr dev). rewrite capture_rival. case_bool_decide as Ht; [|done]. symmetry. by eapply Hn.
Qed.

Lemma capture_del cidr dev (w : world) :
  let w' := (run (captureRoute cidr dev) w).2 in
  (∀ x, installed (w_k w') x = if bool_decide (x = captureRoute cidr dev) then pred (installed (w_k w) x) else installed (w_k w) x) ∧
  sameRoutes (viewOf (w_k w)) (viewOf (w_k w')) ∧ forwarding (w_k w') = forwarding (w_k w).
Proof.
  cbn. destruct (run_law (captureRoute cidr dev) w) as [Hf H]. rewrite capture_deletes in H. destruct H as (Hr & Hd & Ho).
  split; [|done]. intros x. case_bool_decide as Hx; [by subst|]. destruct (Ho x Hx) as [E|[E _]]; [exact E|discriminate E].
Qed.

Lemma captureKeys_in cidr dev : cidr ∈ captureCidrs → captureRoute cidr dev ∈ captureKeys dev.
Proof. intros H. apply list_elem_of_fmap. by exists cidr. Qed.

Definition key1 (dev : string) : argv := captureRoute "0.0.0.0/1" dev.
Definition key2 (dev : string) : argv := captureRoute "128.0.0.0/1" dev.
Definition captureChain (dev : string) : chain := [UndoQuiet (key1 dev); UndoQuiet (key2 dev)].

Lemma key_in dev x : x ∈ captureKeys dev ↔ x = key1 dev ∨ x = key2 dev.
Proof.
  unfold captureKeys. cbn [captureCidrs map]. fold (key1 dev) (key2 dev). rewrite !elem_of_cons. split; [intros [?|[?|[]%elem_of_nil]]|intros [?|?]]; auto.
Qed.

(** A change of one of the two keys only. *)
Lemma but_intro dev (k k' : K) f cidr : cidr ∈ captureCidrs →
  (∀ x, installed k' x = if f x && bool_decide (x = captureRoute cidr dev) then 1%nat else installed k x) ∧
  sameRoutes (viewOf k) (viewOf k') ∧ forwarding k' = forwarding k → sameBut dev k k'.
Proof.
  intros Hc (Ho & Hr & Hf). split; [|done]. intros x Hx. rewrite Ho. rewrite (bool_decide_false (x = _)), andb_false_r; [done|].
  intros ->. by apply Hx, captureKeys_in.
Qed.

Lemma captureDefault_law dev peer (w : world) : noRival dev (w_k w) →
  match captureDefault dev peer w with
  | (Some c, w') => c = captureChain dev ∧ sameBut dev (w_k w) (w_k w') ∧ installed (w_k w') (key1 dev) = 1%nat ∧ installed (w_k w') (key2 dev) = 1%nat
  | (None, w') => sameBut dev (w_k w) (w_k w') ∧ installed (w_k w') (key1 dev) ≤ installed (w_k w) (key1 dev) ∧
      installed (w_k w') (key2 dev) ≤ installed (w_k w) (key2 dev)
  end%nat.
Proof.
  intros Hn. unfold captureDefault, captureCidrs. cbn [confLoop].
  pose proof (capture_put "0.0.0.0/1" dev w ltac:(left) Hn) as H1. destruct (run _ w) as [[] w1].
  2: { destruct H1 as (O1 & R1). split; [by apply (but_intro _ _ _ (λ _, false) "0.0.0.0/1"); [left|]|]. rewrite !O1. done. }
  pose proof (but_intro dev _ _ (λ _, true) "0.0.0.0/1" ltac:(left) H1) as B1. destruct H1 as (O1 & _).
  pose proof (capture_put "128.0.0.0/1" dev w1 ltac:(right; left) (noRival_but _ _ _ Hn B1)) as H2. destruct (run _ w1) as [[] w2].
  - pose proof (but_intro dev _ _ (λ _, true) "128.0.0.0/1" ltac:(right; left) H2) as B2. destruct H2 as (O2 & _).
    split; [done|]. split; [by transitivity (w_k w1)|]. rewrite !O2, !O1. cbn [andb].
    by repeat (case_bool_decide; try discriminate).
  - cbn [app]. rewrite teardown_one. cbn [undoStep snd]. pose proof (capture_del "0.0.0.0/1" dev w2) as (O3 & R3 & F3). destruct H2 as (O2 & R2 & F2). cbn [andb] in O2.
    split; [|rewrite !O3, !O2, !O1; cbn [andb]; repeat (case_bool_decide; try discriminate); lia].
    destruct B1 as (B1 & R1 & F1). split; [|split; [intros t; by rewrite R3, R2, R1|congruence]]. intros x Hx. rewrite O3, O2, bool_decide_false; [by apply B1|].
    intros ->. exact (Hx (captureKeys_in "0.0.0.0/1" dev ltac:(left))).
Qed.

Lemma captureChain_law dev (w : world) :
  let w' := (teardown (captureChain dev) w).2 in
  sameBut dev (w_k w) (w_k w') ∧ installed (w_k w') (key1 dev) = pred (installed (w_k w) (key1 dev)) ∧
  installed (w_k w') (key2 dev) = pred (installed (w_k w) (key2 dev)).
Proof.
  cbn zeta. unfold captureChain. rewrite (teardown_app [UndoQuiet (key1 dev)] [UndoQuiet (key2 dev)]), !teardown_one. cbn [undoStep snd].
  pose proof (capture_del "128.0.0.0/1" dev w) as (O1 & R1 & F1). fold (key2 dev) in *. set (w1 := (run (key2 dev) w).2) in *.
  pose proof (capture_del "0.0.0.0/1" dev w1) as (O2 & R2 & F2). fold (key1 dev) in *.
  split; [|rewrite !O2, !O1; by repeat (case_bool_decide; try discriminate)].
  split; [|split; [intros t; by rewrite R2, R1|congruence]]. intros x Hx%not_elem_of_cons. rewrite O2, O1.
  destruct Hx as [H1 H2%not_elem_of_cons]. rewrite !bool_decide_false; [done|by apply H2|done].
Qed.

(** ** Capturing and releasing, any number of times *)

Inductive toggle := DoCapture | DoRelease.
Definition toggleStep (s : Capturer * world) (t : toggle) : Capturer * world :=
  match t with DoCapture => (Capture captureDefault s.1 s.2).2 | DoRelease => (Release s.1 s.2).2 end.
Definition toggles (l : list toggle) (s : Capturer * world) : Capturer * world := fold_left toggleStep l s.

Record captureInv (dev : string) (k0 : K) (s : Capturer * world) : Prop := {
  ci_dev : cp_dev s.1 = dev;
  ci_but : sameBut dev k0 (w_k s.2);
  ci_keys : match cp_ch s.1 with
    | Some c => c = captureChain dev ∧ installed (w_k s.2) (key1 dev) = 1%nat ∧ installed (w_k s.2) (key2 dev) = 1%nat
    | None => installed (w_k s.2) (key1 dev) ≤ installed k0 (key1 dev) ∧ installed (w_k s.2) (key2 dev) ≤ installed k0 (key2 dev)
    end%nat;
}.

Lemma toggleStep_inv dev k0 s t : noRival dev k0 → captureInv dev k0 s → captureInv dev k0 (toggleStep s t).
Proof.
  intros Hn [Hd Hb Hk]. destruct s as [c w], t; cbn [toggleStep fst snd] in *; unfold Capture, Release.
  - destruct (cp_ch c) as [ch|] eqn:Hch; [split; cbn [fst snd]; rewrite ?Hch; done|]. rewrite Hd.
    pose proof (captureDefault_law dev (cp_peer c) w (noRival_but _ _ _ Hn Hb)) as H.
    destruct (captureDefault dev (cp_peer c) w) as [[ch|] w'].
    + destruct H as (Hc & B & Hkeys). split; cbn [fst snd cp_dev cp_ch]; [done|by transitivity (w_k w)|done].
    + destruct H as (B & H1 & H2), Hk. split; cbn [fst snd]; [done|by transitivity (w_k w)|]. rewrite Hch. lia.
  - destruct (cp_ch c) as [ch|] eqn:Hch; [|split; cbn [fst snd]; rewrite ?Hch; done]. destruct Hk as (-> & K1 & K2).
    pose proof (captureChain_law dev w) as (B & D1 & D2). destruct (teardown (captureChain dev) w) as [ok w']. cbn [fst snd] in *.
    split; cbn [fst snd cp_dev cp_ch]; [done|by transitivity (w_k w)|lia].
Qed.

Lemma toggles_inv dev k0 l s : noRival dev k0 → captureInv dev k0 s → captureInv dev k0 (toggles l s).
Proof. intros Hn. revert s. induction l as [|t l IH]; intros s Hs; [done|]. by apply IH, toggleStep_inv. Qed.

(** ** Lemmas: an interface's own table *)

Definition pinSel (prio : string) : argv := ["ip"; "rule"; "del"; "priority"; prio].

(** At most one rule of the priority. *)
Definition oneRule (prio : string) (k : K) : Prop :=
  ∃ key0, (installed k key0 ≤ 1)%nat ∧ ∀ x, starts (pinSel prio) x = true → x ≠ key0 → installed k x = 0%nat.

Lemma flush_law t (w : world) :
  let w' := (run ["ip"; "route"; "flush"; "table"; t] w).2 in
  (∀ x, installed (w_k w') x = installed (w_k w) x) ∧ routes (w_k w') t = [] ∧
  (∀ t', t' ≠ t → routes (w_k w') t' = routes (w_k w) t') ∧ forwarding (w_k w') = forwarding (w_k w).
Proof.
  cbn. destruct (run_law ["ip"; "route"; "flush"; "table"; t] w) as [Hf H].
  replace (changeOf _) with (Flushes t) in H by reflexivity. destruct H as (Ho & Hr & Hn). done.
Qed.

Lemma pinRoute_change gw iface tbl : changeOf (pinRoute gw iface tbl) = Fills tbl.
Proof. unfold pinRoute. by destruct (gw =? ""). Qed.

Lemma pinRoute_law gw iface tbl (w : world) : routes (w_k w) tbl = [] →
  let '(ok, w') := run (pinRoute gw iface tbl) w in
  (∀ x, installed (w_k w') x = installed (w_k w) x) ∧ routes (w_k w') tbl = (if ok then [pinRoute gw iface tbl] else []) ∧
  (∀ t, t ≠ tbl → routes (w_k w') t = routes (w_k w) t) ∧ forwarding (w_k w') = forwarding (w_k w).
Proof.
  intros He. destruct (run_law (pinRoute gw iface tbl) w) as [Hf H]. rewrite pinRoute_change in H.
  destruct (run (pinRoute gw iface tbl) w) as [[] w']; cbn [fst snd] in *; destruct H as (Ho & Hr).
  - destruct Hr as [Hr Hn]. cbn in *. rewrite He in Hr. done.
  - split; [done|]. split; [rewrite <- He; apply Hr|]. split; [|done]. intros t _. apply Hr.
Qed.

Lemma ruleSel_law prio (w : world) : oneRule prio (w_k w) →
  let w' := (run (pinSel prio) w).2 in
  (∀ x, installed (w_k w') x = if starts (pinSel prio) x then 0%nat else installed (w_k w) x) ∧
  sameRoutes (viewOf (w_k w)) (viewOf (w_k w')) ∧ forwarding (w_k w') = forwarding (w_k w).
Proof.
  intros (key0 & H1 & Hz). cbn zeta. destruct (run_law (pinSel prio) w) as [Hf H].
  replace (changeOf _) with (DeletesOne (pinSel prio)) in H by reflexivity. destruct H as [Hr H].
  split; [|done]. intros x. destruct (run (pinSel prio) w).1.
  - destruct H as (key & Hs & Hv & Ho). cbn in Hv, Ho. destruct (decide (x = key)) as [->|Hx].
    + rewrite Hs. destruct (decide (key = key0)) as [->|Hn]; [lia|]. rewrite (Hz key Hs Hn) in Hv. lia.
    + rewrite Ho by done. destruct (starts (pinSel prio) x) eqn:Hsx; [|done]. destruct (decide (x = key0)) as [->|Hn]; [|by apply Hz].
      assert (installed (w_k w) key = 0%nat) by (apply Hz; congruence). lia.
  - destruct H as [Ho Hn]. specialize (Ho x). specialize (Hn x). cbn in *. rewrite Ho. destruct (starts (pinSel prio) x); [by apply Hn|done].
Qed.

Lemma pinRule_adds prio iface tbl : changeOf (pinRule "add" prio iface tbl) = Adds (pinRule "del" prio iface tbl).
Proof. reflexivity. Qed.
Lemma pinRule_sel prio iface tbl : starts (pinSel prio) (pinRule "del" prio iface tbl) = true.
Proof. unfold starts. cbn [pinSel length take pinRule]. by apply bool_decide_true. Qed.

Lemma pinRule_law prio iface tbl (w : world) : (∀ x, starts (pinSel prio) x = true → installed (w_k w) x = 0%nat) →
  let '(ok, w') := run (pinRule "add" prio iface tbl) w in
  (∀ x, installed (w_k w') x = if ok && bool_decide (x = pinRule "del" prio iface tbl) then 1%nat else installed (w_k w) x) ∧
  sameRoutes (viewOf (w_k w)) (viewOf (w_k w')) ∧ forwarding (w_k w') = forwarding (w_k w).
Proof.
  intros Hz. destruct (run_law (pinRule "add" prio iface tbl) w) as [Hf H]. rewrite pinRule_adds in H.
  destruct (run _ w) as [ok w']. cbn [fst snd] in *. destruct H as [Hr Ho]. split; [|done]. intros x. specialize (Ho x). cbn in Ho. rewrite Ho.
  destruct (ok && _) eqn:E; [|done]. apply andb_prop in E as [_ ->%bool_decide_eq_true]. f_equal. apply Hz, pinRule_sel.
Qed.

(** Deleting the rule by its full selector: the one there is. *)
Lemma pinRule_del_law prio iface tbl (w : world) : let key := pinRule "del" prio iface tbl in
  (∀ x, starts (pinSel prio) x = true → installed (w_k w) x = if bool_decide (x = key) then 1%nat else 0%nat) →
  let w' := (run key w).2 in
  (∀ x, installed (w_k w') x = if starts (pinSel prio) x then 0%nat else installed (w_k w) x) ∧
  sameRoutes (viewOf (w_k w)) (viewOf (w_k w')) ∧ forwarding (w_k w') = forwarding (w_k w).
Proof.
  cbn zeta. intros Hk. destruct (run_law (pinRule "del" prio iface tbl) w) as [Hf H].
  replace (changeOf _) with (DeletesOne (pinRule "del" prio iface tbl)) in H by reflexivity. destruct H as [Hr H].
  split; [|done]. pose proof (Hk _ (pinRule_sel prio iface tbl)) as H1. rewrite bool_decide_true in H1 by done.
  assert (∀ x, starts (pinRule "del" prio iface tbl) x = true → starts (pinSel prio) x = true) as Hsel.
  { intros x. unfold starts. intros E%bool_decide_eq_true. apply bool_decide_eq_true. cbn [pinRule pinSel length] in *.
    apply (f_equal (take 5)) in E. rewrite take_take in E. exact E. }
  intros x. destruct (run _ w).1.
  - destruct H as (key & Hs & Hv & Ho). cbn in Hv, Ho. pose proof (Hk key (Hsel _ Hs)) as Hkey. case_bool_decide as E; [|lia]. subst key.
    destruct (decide (x = pinRule "del" prio iface tbl)) as [->|Hx]; [rewrite pinRule_sel; lia|]. rewrite Ho by done.
    destruct (starts (pinSel prio) x) eqn:Hsx; [|done]. rewrite (Hk x Hsx). by rewrite bool_decide_false.
  - destruct H as [_ H]. specialize (H (pinRule "del" prio iface tbl)). cbn in H. rewrite H in H1; [done|].
    unfold starts. apply bool_decide_eq_true. apply take_ge. done.
Qed.

(** ** Theorems *)

(** Claim C31.  The host's NAT and LAN forwarding are reversible, whatever the host's rules
    are and whichever command fails: on an error nothing is left changed; on
    success every rule is installed once more than before and forwarding is on,
    and the teardown, run on any host that holds the same, puts back exactly what
    was there, the value of ip_forward included. *)
Theorem forwarding_reversible (w : world) (m : conf) (rules : list argv) :
  forwarding (w_k w) ≠ "" → (∃ n, m = ConfigureNAT n ∧ rules = natRules n) ∨ (∃ l, m = ConfigureLANForward l ∧ rules = lanForwardRules l) →
  match m w with
  | (Some c, w') => forwarding (w_k w') = "1" ∧ (∀ x, installed (w_k w') x = (installed (w_k w) x + countOf x (map ruleKey rules))%nat) ∧
      ∀ w'' : world, same (w_k w') (w_k w'') → same (w_k w) (w_k (teardown c w'').2)
  | (None, w') => same (w_k w) (w_k w')
  end.
Proof.
  intros Hf Hm. assert (m w = withRules rules w ∧ Forall rule rules) as [-> Hr].
  { destruct Hm as [(n & -> & ->)|(l & -> & ->)]; (split; [done|]); [apply natRules_ok|apply lanForwardRules_ok]. }
  pose proof (withRules_law rules w Hr Hf) as H. destruct (withRules rules w) as [[c|] w']; [|done].
  destruct H as (U & [G _] & F). done.
Qed.

(** A Capturer holds its two routes exactly while it is captured: after any
    sequence of captures and releases, whichever commands failed and even if a
    crash leaked the routes, nothing but the two routes has changed; captured, each
    is installed once; released, none is installed that was not at the start.  A
    Capture reports success exactly when it ends captured, a second one changes
    nothing, and a Release ends released, with the routes of a captured one gone. *)
Theorem capture_exact dev peer (w0 : world) l : noRival dev (w_k w0) →
  let '(c, w) := toggles l (NewCapturer dev peer, w0) in
  let '(ok, (c1, w1)) := Capture captureDefault c w in
  let '(_, (c2, w2)) := Release c w in
  sameBut dev (w_k w0) (w_k w) ∧
  (∀ x, x ∈ captureKeys dev → if decide (cp_ch c = None) then (installed (w_k w) x ≤ installed (w_k w0) x)%nat else installed (w_k w) x = 1%nat) ∧
  (ok = true ↔ cp_ch c1 ≠ None) ∧ (ok = true → Capture captureDefault c1 w1 = (true, (c1, w1))) ∧
  cp_ch c2 = None ∧ (cp_ch c ≠ None → ∀ x, x ∈ captureKeys dev → installed (w_k w2) x = 0%nat).
Proof.
  intros Hn. assert (captureInv dev (w_k w0) (NewCapturer dev peer, w0)) as H0 by by split.
  pose proof (toggles_inv dev (w_k w0) l _ Hn H0) as [Hd Hb Hk]. destruct (toggles l _) as [c w]. cbn [fst snd] in *.
  unfold Capture, Release. destruct (cp_ch c) as [ch|] eqn:Hch.
  - destruct Hk as (-> & K1 & K2). pose proof (captureChain_law dev w) as (B & D1 & D2).
    destruct (teardown (captureChain dev) w) as [ok w2]. rewrite Hch. cbn [snd] in *. split; [done|].
    (split; [by intros x [->| ->]%key_in|]); repeat split; try done. intros _ x [->| ->]%key_in; lia.
  - assert (∀ x, x ∈ captureKeys dev → (installed (w_k w) x ≤ installed (w_k w0) x)%nat) as Hle by (by intros x [->| ->]%key_in; destruct Hk).
    destruct (captureDefault (cp_dev c) (cp_peer c) w) as [[ch|] w1]; cbn [cp_ch]; rewrite ?Hch; cbn [cp_ch] in *;
      (split; [done|split; [exact Hle|]]); repeat split; try done; try (intros ?; congruence).
Qed.

(** Pinning an interface to its own table leaves, where it succeeds, exactly the
    interface's default route in that table, through the configured gateway or the
    one of the main table's default, and exactly its rule at its priority, whatever
    a crash leaked there; its teardown removes both; where it fails, nothing of it
    is left.  No other table, rule or route is touched. *)
Theorem pin_iface_exact r (w : world) : oneRule (Itoa (ir_Prio r)) (w_k w) →
  let tbl := Itoa (ir_Table r) in
  let key := pinRule "del" (Itoa (ir_Prio r)) (ir_Iface r) tbl in
  let flushed := (run ["ip"; "route"; "flush"; "table"; tbl] w).2 in
  let clean (k : K) := routes k tbl = [] ∧ (∀ t, t ≠ tbl → routes k t = routes (w_k w) t) ∧ forwarding k = forwarding (w_k w) in
  let cleared (k : K) := ∀ x, installed k x = if starts (pinSel (Itoa (ir_Prio r))) x then 0%nat else installed (w_k w) x in
  match PinIfaceDefault r w with
  | (Some c, w') =>
      routes (w_k w') tbl = [pinRoute (nextHop r flushed) (ir_Iface r) tbl] ∧
      (∀ t, t ≠ tbl → routes (w_k w') t = routes (w_k w) t) ∧ forwarding (w_k w') = forwarding (w_k w) ∧
      (∀ x, installed (w_k w') x = if bool_decide (x = key) then 1%nat else if starts (pinSel (Itoa (ir_Prio r))) x then 0%nat else installed (w_k w) x) ∧
      let k'' := w_k (teardown c w').2 in clean k'' ∧ cleared k''
  | (None, w') => clean (w_k w') ∧ (cleared (w_k w') ∨ ∀ x, installed (w_k w') x = installed (w_k w) x)
  end.
Proof.
  intros H1. cbn zeta. unfold PinIfaceDefault. set (tbl := Itoa (ir_Table r)). set (prio := Itoa (ir_Prio r)) in *.
  pose proof (flush_law tbl w) as (O0 & R0 & N0 & F0). set (w0 := (run _ w).2) in *.
  pose proof (pinRoute_law (nextHop r w0) (ir_Iface r) tbl w0 R0) as Hr. destruct (run _ w0) as [[] w1]; destruct Hr as (O1 & R1 & N1 & F1).
  2: { split; [|right; intros x; by rewrite O1]. split; [done|]. split; [intros t Ht; by rewrite N1, N0|congruence]. }
  assert (oneRule prio (w_k w1)) as H1'.
  { destruct H1 as (key0 & Hle & Hz). exists key0. rewrite O1, O0. split; [done|]. intros x. rewrite O1, O0. apply Hz. }
  pose proof (ruleSel_law prio w1 H1') as (O2 & R2 & F2). fold (pinSel prio). set (w2 := (run (pinSel prio) w1).2) in *.
  assert (∀ x, starts (pinSel prio) x = true → installed (w_k w2) x = 0%nat) as Hz by (intros x Hx; by rewrite O2, Hx).
  pose proof (pinRule_law prio (ir_Iface r) tbl w2 Hz) as Ha. destruct (run _ w2) as [[] w3]; destruct Ha as (O3 & R3 & F3); cbn [andb] in O3;
    unfold sameRoutes in R2, R3; cbn [v_routes viewOf] in R2, R3.
  - split; [by rewrite R3, R2|]. split; [intros t Ht; by rewrite R3, R2, N1, N0|].
    split; [congruence|]. split; [intros x; by rewrite O3, O2, O1, O0|].
    rewrite (teardown_app [UndoRun ["ip"; "route"; "flush"; "table"; tbl]] [UndoRun (pinRule "del" prio (ir_Iface r) tbl)]), !teardown_one. cbn [undoStep].
    pose proof (pinRule_del_law prio (ir_Iface r) tbl w3) as Hdel. cbn zeta in Hdel. destruct Hdel as (O4 & R4 & F4).
    { intros x Hx. rewrite O3, (Hz x Hx). done. }
    unfold sameRoutes in R4; cbn [v_routes viewOf] in R4.
    set (w4 := (run _ w3).2) in *. pose proof (flush_law tbl w4) as (O5 & R5 & N5 & F5).
    split; [split; [done|split; [intros t Ht; rewrite N5 by done; by rewrite R4, R3, R2, N1, N0|congruence]]|].
    intros x. rewrite O5, O4. destruct (starts (pinSel prio) x) eqn:Hx; [done|]. rewrite O3, bool_decide_false; [by rewrite O2, Hx, O1, O0|].
    intros ->. by rewrite pinRule_sel in Hx.
  - rewrite teardown_one. cbn [undoStep]. pose proof (flush_law tbl w3) as (O5 & R5 & N5 & F5).
    split; [split; [done|split; [intros t Ht; rewrite N5 by done; by rewrite R3, R2, N1, N0|congruence]]|].
    left. intros x. by rewrite O5, O3, O2, O1, O0.
Qed.
End facts.

(** ** A concrete host *)

(** It refuses the additions [bx_refuses] names and answers queries by
    [bx_out]. *)
Record box := MkBox { bx_objs : list argv; bx_routes : list (string * argv); bx_fwd : string; bx_refuses : argv → bool; bx_out : argv → option string }.

Fixpoint removeOne (x : argv) (l : list argv) : list argv :=
  match l with [] => [] | y :: l' => if decide (y = x) then l' else y :: removeOne x l' end.

Definition withObjs (b : box) (l : list argv) : box := MkBox l (bx_routes b) (bx_fwd b) (bx_refuses b) (bx_out b).
Definition withRoutes (b : box) (l : list (string * argv)) : box := MkBox (bx_objs b) l (bx_fwd b) (bx_refuses b) (bx_out b).

Definition boxRun (a : argv) (b : box) : bool * box :=
  match changeOf a with
  | Adds key => if bx_refuses b a then (false, b) else (true, withObjs b (key :: bx_objs b))
  | Puts key => if bx_refuses b a then (false, b)
      else (true, withObjs b (key :: base.filter (λ x, x ≠ key ∧ rival key x = false) (bx_objs b)))
  | Deletes key => (bool_decide (key ∈ bx_objs b), withObjs b (removeOne key (bx_objs b)))
  | DeletesOne sel => match base.filter (λ x, starts sel x = true) (bx_objs b) with
      | key :: _ => (true, withObjs b (removeOne key (bx_objs b)))
      | [] => (false, b)
      end
  | Flushes t => (true, withRoutes b (base.filter (λ e, e.1 ≠ t) (bx_routes b)))
  | Fills t => if bx_refuses b a then (false, b)
      else (true, withRoutes b (base.filter (λ e, e.1 ≠ t ∨ take 4 e.2 ≠ take 4 a) (bx_routes b) ++ [(t, a)])%list)
  | Neutral => (negb (bx_refuses b a), b)
  end.

Definition boxRoutes (b : box) (t : string) : list argv := map snd (base.filter (λ e, e.1 = t) (bx_routes b)).

#[export] Instance box_Host : Host box := {
  hostRun := boxRun;
  hostOutput a b := bx_out b a;
  readForward b := Some (bx_fwd b);
  setForward v b := (true, MkBox (bx_objs b) (bx_routes b) v (bx_refuses b) (bx_out b));
  installed b x := countOf x (bx_objs b);
  routes := boxRoutes;
}.

Lemma countOf_cons x y l : countOf x (y :: l) = if bool_decide (x = y) then S (countOf x l) else countOf x l.
Proof. unfold countOf. case_bool_decide as H; [rewrite filter_cons_True|rewrite filter_cons_False]; done. Qed.

Lemma countOf_removeOne x key l : countOf x (removeOne key l) = if bool_decide (x = key) then pred (countOf x l) else countOf x l.
Proof.
  induction l as [|y l IH]; [by case_bool_decide|]. cbn [removeOne]. rewrite countOf_cons. destruct (decide (y = key)) as [->|Hy].
  - by case_bool_decide.
  - rewrite countOf_cons, IH. repeat case_bool_decide; congruence || lia.
Qed.

Lemma countOf_filter x (P : argv → Prop) `{∀ y, Decision (P y)} l : countOf x (base.filter P l) = if decide (P x) then countOf x l else 0%nat.
Proof.
  induction l as [|y l IH]; [by destruct (decide (P x))|]. destruct (decide (P y)) as [Hy|Hy].
  - rewrite filter_cons_True, !countOf_cons, IH by done. case_bool_decide as E; [subst; by rewrite !decide_True|done].
  - rewrite filter_cons_False, countOf_cons, IH by done. case_bool_decide as E; [subst; by rewrite !decide_False|done].
Qed.

Lemma countOf_in x l : x ∈ l → countOf x l ≠ 0%nat.
Proof. induction 1; rewrite countOf_cons; [by rewrite bool_decide_true|by case_bool_decide]. Qed.

Lemma boxRoutes_filter b (P : string * argv → Prop) `{∀ e, Decision (P e)} (Q : argv → Prop) `{∀ r, Decision (Q r)} t :
  (∀ e, e.1 = t → P e ↔ Q e.2) → boxRoutes (withRoutes b (base.filter P (bx_routes b))) t = base.filter Q (boxRoutes b t).
Proof.
  intros HP. unfold boxRoutes. cbn. induction (bx_routes b) as [|e l IH]; [done|].
  destruct (decide (e.1 = t)) as [Ht|Ht], (decide (P e)) as [Hp|Hp]; pose proof (HP e) as HPe.
  - rewrite (filter_cons_True P), !filter_cons_True by done. cbn [map]. rewrite filter_cons_True by tauto. by rewrite IH.
  - rewrite (filter_cons_False P) by done. rewrite filter_cons_True by done. cbn [map]. rewrite filter_cons_False by tauto. apply IH.
  - rewrite (filter_cons_True P) by done. rewrite !filter_cons_False by done. apply IH.
  - rewrite (filter_cons_False P) by done. rewrite filter_cons_False by done. apply IH.
Qed.

Lemma filter_id {A} (P : A → Prop) `{∀ x, Decision (P x)} (l : list A) : (∀ x, P x) → base.filter P l = l.
Proof. intros HP. induction l as [|x l IH]; [done|]. by rewrite filter_cons_True, IH. Qed.
Lemma filter_nil {A} (P : A → Prop) `{∀ x, Decision (P x)} (l : list A) : (∀ x, ¬ P x) → base.filter P l = [].
Proof. intros HP. induction l as [|x l IH]; [done|]. by rewrite filter_cons_False. Qed.

Lemma boxRun_flush a t b : changeOf a = Flushes t → after a (boxRun a b).1 (viewOf b) (viewOf (boxRun a b).2).
Proof.
  intros Hc. unfold after, boxRun. rewrite Hc. split; [done|]. split; [done|]. split.
  - refine (eq_trans (boxRoutes_filter b (λ e, e.1 ≠ t) (λ _, False) t _) _); [tauto|apply filter_nil; tauto].
  - intros t' Ht. refine (eq_trans (boxRoutes_filter b (λ e, e.1 ≠ t) (λ _, True) t' _) _); [intros e <-; tauto|by apply filter_id].
Qed.

Lemma boxRun_fill a t b : changeOf a = Fills t → after a (boxRun a b).1 (viewOf b) (viewOf (boxRun a b).2).
Proof.
  intros Hc. unfold after, boxRun. rewrite Hc. destruct (bx_refuses b a); [done|]. split; [done|]. split; [done|].
  assert (∀ l t', boxRoutes (withRoutes b (l ++ [(t, a)])%list) t' = (boxRoutes (withRoutes b l) t' ++ if decide (t = t') then [a] else [])%list) as Happ.
  { intros l t'. unfold boxRoutes. cbn. rewrite filter_app, map_app. f_equal. destruct (decide (t = t')); [by rewrite filter_cons_True|by rewrite filter_cons_False]. }
  set (P := λ e : string * argv, e.1 ≠ t ∨ take 4 e.2 ≠ take 4 a). split.
  - refine (eq_trans (Happ (base.filter P (bx_routes b)) t) _). rewrite decide_True by done. f_equal.
    apply (boxRoutes_filter b P (λ r, take 4 r ≠ take 4 a)). unfold P. tauto.
  - intros t' Ht. refine (eq_trans (Happ (base.filter P (bx_routes b)) t') _). rewrite decide_False, app_nil_r by done.
    refine (eq_trans (boxRoutes_filter b P (λ _, True) t' _) _); [unfold P; intros e <-; tauto|by apply filter_id].
Qed.

#[local] Arguments countOf : simpl never.
#[export] Instance box_HostLaws : HostLaws box.
Proof.
  split; [|done|done]. intros a b. destruct (changeOf a) as [key|key|key|sel|t|t|] eqn:Hc.
  5: by eapply boxRun_flush. 5: by eapply boxRun_fill.
  all: change (hostRun a b) with (boxRun a b); unfold after, boxRun; rewrite Hc.
  - destruct (bx_refuses b a); (split; [done|]); (split; [done|]); intros x; cbn; [done|]. apply countOf_cons.
  - destruct (bx_refuses b a); (split; [done|]); (split; [done|]); [done|]. intros x. cbn. rewrite countOf_cons, countOf_filter.
    case_bool_decide as Hx; [subst; by rewrite decide_False by tauto|]. destruct (rival key x); [by rewrite decide_False by (intros [_ [=]])|by rewrite decide_True].
  - split; [done|]. split; [done|]. cbn. rewrite countOf_removeOne, bool_decide_true by done. split; [done|].
    intros x Hx. left. by rewrite countOf_removeOne, bool_decide_false.
  - destruct (base.filter (λ x, starts sel x = true) (bx_objs b)) as [|key l] eqn:Hf; (split; [done|]); (split; [done|]).
    + split; [done|]. intros x Hx. cbn. pose proof (countOf_filter x (λ x, starts sel x = true) (bx_objs b)) as E. rewrite Hf, decide_True in E by done. done.
    + assert (key ∈ base.filter (λ x, starts sel x = true) (bx_objs b)) as Hin by (rewrite Hf; left).
      apply list_elem_of_filter in Hin as [Hs Hin]. exists key. split; [done|]. cbn. split.
      * rewrite countOf_removeOne, bool_decide_true by done. apply countOf_in in Hin. lia.
      * intros x Hx. by rewrite countOf_removeOne, bool_decide_false.
  - done.
Qed.

(** ** Witnesses *)

(** A gateway with a leaked copy of one NAT rule, forwarding off, whose iptables
    may refuse the mangle table. *)
Definition demoNAT : NATSetup := MkNATSetup "dualnet0" (V4 [10; 9; 0; 0], 24) "eth0".
Definition demoBox (refuses : argv → bool) : box :=
  MkBox [ruleKey (List.hd [] (natRules demoNAT))] [] "0" refuses
    (λ a, if bool_decide (last a = Some "eth0") then Some "default via 192.0.2.1 dev eth0 proto dhcp" else None).
Definition noMangle (a : argv) : bool := bool_decide ("mangle" ∈ a).
Definition willing (a : argv) : bool := false.

Lemma forwarding_reversible_witness :
  let w := MkWorld (demoBox willing) None in
  let w' := MkWorld (demoBox noMangle) None in
  match ConfigureNAT demoNAT w with
  | (Some c, w1) => forwarding (w_k w1) = "1" ∧ installed (w_k w1) (ruleKey (List.hd [] (natRules demoNAT))) = 2%nat ∧
      same (w_k w) (w_k (teardown c w1).2)
  | (None, _) => False
  end ∧
  match ConfigureNAT demoNAT w' with (Some _, _) => False | (None, w1) => same (w_k w') (w_k w1) end.
Proof.
  assert (∀ f, forwarding (demoBox f) ≠ "") as Hf by (intros f; vm_compute; discriminate). cbn zeta. split.
  - pose proof (forwarding_reversible (MkWorld (demoBox willing) None) (ConfigureNAT demoNAT) (natRules demoNAT) (Hf _) ltac:(left; by exists demoNAT)) as H.
    assert (match (ConfigureNAT demoNAT (MkWorld (demoBox willing) None)).1 with Some _ => true | None => false end = true) as E by (vm_compute; reflexivity).
    destruct (ConfigureNAT demoNAT _) as [[c|] w1]; [|discriminate E]. destruct H as (H1 & H2 & H3). split; [exact H1|].
    split; [rewrite H2; vm_compute; reflexivity|]. apply H3. reflexivity.
  - pose proof (forwarding_reversible (MkWorld (demoBox noMangle) None) (ConfigureNAT demoNAT) (natRules demoNAT) (Hf _) ltac:(left; by exists demoNAT)) as H.
    assert (match (ConfigureNAT demoNAT (MkWorld (demoBox noMangle) None)).1 with Some _ => true | None => false end = false) as E by (vm_compute; reflexivity).
    destruct (ConfigureNAT demoNAT _) as [[c|] w1]; [discriminate E|exact H].
Defined.

(** Captured and released over a leaked route. *)
Lemma capture_exact_witness :
  let b := MkBox [key1 "dualnet0"; ["iptables"; "-D"; "INPUT"]] [] "1" willing (λ _, None) in
  let '(c, w) := toggles [DoCapture; DoCapture; DoRelease; DoCapture] (NewCapturer "dualnet0" None, MkWorld b None) in
  cp_ch c ≠ None ∧ installed (w_k w) (key1 "dualnet0") = 1%nat ∧ sameBut "dualnet0" b (w_k w).
Proof.
  set (b := MkBox [key1 "dualnet0"; ["iptables"; "-D"; "INPUT"]] [] "1" willing (λ _, None)). cbn zeta.
  assert (noRival "dualnet0" b) as Hn.
  { intros x cidr Hc Ht Hx. cbn. rewrite !countOf_cons. rewrite !bool_decide_false; [done| |].
    - intros ->. discriminate Ht.
    - intros ->. cbn in Ht. injection Ht as <-. done. }
  pose proof (capture_exact "dualnet0" None (MkWorld b None) [DoCapture; DoCapture; DoRelease; DoCapture] Hn) as H.
  assert (match cp_ch (toggles [DoCapture; DoCapture; DoRelease; DoCapture] (NewCapturer "dualnet0" None, MkWorld b None)).1 with Some _ => true | None => false end = true) as E
    by (vm_compute; reflexivity).
  destruct (toggles _ _) as [c w]. cbn [fst] in E. destruct (Capture captureDefault c w) as [ok [c1 w1]]. destruct (Release c w) as [ok2 [c2 w2]].
  destruct H as (H1 & H2 & _). destruct (cp_ch c) as [ch|] eqn:Hch; [|discriminate E]. split; [done|]. split; [|exact H1].
  specialize (H2 (key1 "dualnet0") ltac:(left)). by rewrite decide_False in H2.
Defined.

(** A pin through the gateway of the main default route, over a leaked rule. *)
Lemma pin_iface_exact_witness :
  let r := MkIfaceRoute "eth0" "" 200 9000 in
  let stale := pinRule "del" "9000" "ppp0" "200" in
  let b := MkBox [stale] [("200", ["stale"]); ("main", ["kept"])] "1" willing (bx_out (demoBox willing)) in
  match PinIfaceDefault r (MkWorld b None) with
  | (Some c, w') => routes (w_k w') "200" = [pinRoute "192.0.2.1" "eth0" "200"] ∧
      installed (w_k w') stale = 0%nat ∧ installed (w_k w') (pinRule "del" "9000" "eth0" "200") = 1%nat ∧
      routes (w_k (teardown c w').2) "200" = []
  | (None, _) => False
  end.
Proof.
  cbn zeta. set (b := MkBox _ _ _ _ _). set (r := MkIfaceRoute "eth0" "" 200 9000).
  assert (oneRule (Itoa (ir_Prio r)) b) as H1.
  { exists (pinRule "del" "9000" "ppp0" "200"). split; [vm_compute; lia|]. intros x _ Hx. cbn. by rewrite countOf_cons, bool_decide_false. }
  pose proof (pin_iface_exact r (MkWorld b None) H1) as H. cbn zeta in H.
  assert (match (PinIfaceDefault r (MkWorld b None)).1 with Some _ => true | None => false end = true) as E by (vm_compute; reflexivity).
  assert (nextHop r (run ["ip"; "route"; "flush"; "table"; Itoa (ir_Table r)] (MkWorld b None)).2 = "192.0.2.1") as Hg by (vm_compute; reflexivity).
  rewrite Hg in H. clear Hg. destruct (PinIfaceDefault r (MkWorld b None)) as [[c|] w']; [|discriminate E].
  destruct H as (R & _ & _ & O & (C & _) & _). split; [exact R|]. split; [rewrite O; vm_compute; reflexivity|].
  split; [rewrite O; vm_compute; reflexivity|exact C].
Defined.
