(* ===== verification/NetCfgDarwin.v ===== *)
(** * internal/netcfg on macOS

    netcfg_darwin.go over the same [Host] as NetCfg.v: the point-to-point tun,
    the capture routes, and the scoped host routes that keep a node's pinned
    sockets on their link once a tun captures the default.  The theorem says
    which routes [PinRoutes] installs and that it is reversible. *)

From Stdlib Require Import Morphisms.
From S2P Require Import Prelude GoStrings NetIp Http Factory NetText Node PrefixFile NetCfg.
Local Open Scope Z_scope.
Local Open Scope string_scope.
Local Open Scope go_scope.

(** [strconv.ParseUint(s, 16, 32)]. *)
Fixpoint hexVal (acc : Z) (l : list ascii) : option Z :=
  match l with
  | [] => Some acc
  | c :: l' => match hexDigitOf c with Some d => hexVal (acc * 16 + d) l' | None => None end
  end.
Definition parseHex32 (l : list ascii) : option Z :=
  match l with [] => None | _ => match hexVal 0 l with Some v => if (v <? 2 ^ 32)%Z then Some v else None | None => None end end.

Definition onesCount32 (v : Z) : Z := zlen (base.filter (λ i, Z.testbit v (Z.of_nat i) = true) (seq 0 32)).

Definition maskBits (mask : string) : Z :=
  match chars mask with
  | z :: x :: digits =>
      if bool_decide (z = "0"%char) && bool_decide (x = "x"%char)
      then match parseHex32 digits with Some v => onesCount32 v | None => -1 end else -1
  | _ => -1
  end.

Example maskBits_ex : maskBits "0xffffff00" = 24 ∧ maskBits "0xFFFFFFFF" = 32 ∧ maskBits "255.0.0.0" = -1 ∧
  maskBits "0x" = -1 ∧ maskBits "0x1ffffffff" = -1 ∧ maskBits "0xff00ff00" = 16.
Proof. vm_compute. done. Qed.

(** [Prefix.Contains] of a parsed address: never one with a zone. *)
Definition covers (p : netipAddr * Z) (a : netipAddr) : bool :=
  match a with V6 _ (_ :: _) => false | _ => prefixContains p (number a) end.

(** A line of ifconfig: whether one of its [inet a netmask m] covers [d]. *)
Fixpoint inetCovers (d : netipAddr) (f : list string) : bool :=
  match f with
  | [] => false
  | inet :: rest =>
      match rest with
      | ip :: netmask :: mask :: _ =>
          (inet =? "inet") && (netmask =? "netmask") &&
          match ParseAddr ip with
          | Some a => (0 <=? maskBits mask)%Z && covers (maskedAddr (a, maskBits mask), maskBits mask) d
          | None => false
          end
      | _ => false
      end || inetCovers d rest
  end.

Definition textLines (s : string) : list (list ascii) := splitOn lf (chars s).

(** [out] answers the queries. *)
Definition onLink (out : argv → option string) (iface dst : string) : bool :=
  match ParseAddr dst with
  | None => false
  | Some d => match out ["ifconfig"; iface] with
      | None => false
      | Some o => existsb (λ line, inetCovers d (map unchars (fields line))) (textLines o)
      end
  end.

Definition cutGateway (line : list ascii) : option string :=
  let line := trimSpace line in
  let p := chars "gateway:" in
  if bool_decide (take (length p) line = p) then
    match trimSpace (drop (length p) line) with [] => None | gw => Some (unchars gw) end
  else None.

Definition interfaceGateway (out : argv → option string) (iface : string) : option string :=
  let viaRoute := match out ["route"; "-n"; "get"; "-ifscope"; iface; "default"] with
    | None => None
    | Some o => head (omap cutGateway (textLines o))
    end in
  match out ["ipconfig"; "getoption"; iface; "router"] with
  | Some gw => if gw =? "" then viaRoute else Some gw
  | None => viaRoute
  end.

Definition peerString (a : option netipAddr) : string := match a with Some a => addrString a | None => "invalid IP" end.

Section darwin.
Context {K : Type} `{HK : Host K}.
Abbreviation world := (world (K := K)).
Abbreviation conf := (world → option chain * world).

Definition ConfigureTun (t : TunSetup) : conf := λ w,
  let cmd := match ts_Local t with
    | Some a => ["ifconfig"; ts_Name t; "inet"; addrString a; peerString (ts_Peer t); "mtu"; Itoa (ts_MTU t); "up"]
    | None => ["ifconfig"; ts_Name t; "mtu"; Itoa (ts_MTU t); "up"]
    end in
  let '(ok, w) := run cmd w in (if ok : bool then Some [] else None, w).

Definition captureDefault (_ : string) (peer : option netipAddr) : conf :=
  let gw := peerString peer in
  confLoop (λ cidr w, let '(ok, w) := run ["route"; "-n"; "add"; "-net"; cidr; gw] w in
    (if ok : bool then Some [UndoQuiet ["route"; "-n"; "delete"; "-net"; cidr; gw]] else None, w)) [] captureCidrs.

Definition PinIfaceDefault (_ : IfaceRoute) : conf := λ w, (None, w).
Definition ConfigureLANForward (_ : LANForward) : conf := λ w, (None, w).
Definition ConfigureNAT (_ : NATSetup) : conf := λ w, (None, w).
Definition DefaultGatewayVia (_ : string) (_ : world) : option string := None.

Definition ConfigureSourceAddr (s : SourceAddr) : conf := λ w,
  let ip := (cut "/"%char (sa_Addr s)).1.1 in
  let '(ok, w) := run ["ifconfig"; sa_Iface s; "alias"; ip; "255.255.255.255"] w in
  (if ok : bool then Some [UndoRun ["ifconfig"; sa_Iface s; "-alias"; ip]] else None, w).

Definition hostAdd (dst gw ifn : string) : argv := ["route"; "-n"; "add"; "-host"; dst; gw; "-ifscope"; ifn].
Definition hostDel (dst ifn : string) : argv := ["route"; "-n"; "delete"; "-host"; dst; "-ifscope"; ifn].

(** The map's key of a pin: destination, NUL, interface. *)
Definition pinKey (p : string * string) : string := p.1 +:+ String (ascii_of_nat 0) "" +:+ p.2.

Fixpoint pinLoop (seen : gset string) (c : chain) (pins : list (string * string)) (w : world) : option chain * world :=
  match pins with
  | [] => (Some c, w)
  | p :: rest =>
      if (p.2 =? "") || bool_decide (pinKey p ∈ seen) then pinLoop seen c rest w
      else
        let seen := {[pinKey p]} ∪ seen in
        let out := λ a, output a w in
        if onLink out p.2 p.1 then pinLoop seen c rest w
        else match interfaceGateway out p.2 with
          | None => (None, (teardown c w).2)
          | Some gw =>
              let '(ok, w) := run (hostAdd p.1 gw p.2) w in
              if ok : bool then pinLoop seen (c ++ [UndoQuiet (hostDel p.1 p.2)]) rest w
              else (None, (teardown c w).2)
          end
  end.
Definition PinRoutes (pins : list (string * string)) : conf := pinLoop ∅ [] pins.
End darwin.

(** ** Lemmas: the host routes *)

Section facts.
Context {K : Type} `{HK : Host K} `{HL : !HostLaws K}.
Abbreviation world := (world (K := K)).

(** Host routes do not change what the queries answer. *)
Context (q : argv → option string).
Definition answers (k : K) : Prop := ∀ a, trimmed <$> hostOutput a k = q a.
Hypothesis routes_unseen : ∀ dst gw ifn k, answers k → answers (hostRun (hostAdd dst gw ifn) k).2.

(** The pins that get a route: the first of each destination and interface, when
    the destination is not on the link. *)
Fixpoint pinned (seen : gset string) (pins : list (string * string)) : list (string * string) :=
  match pins with
  | [] => []
  | p :: rest =>
      if (p.2 =? "") || bool_decide (pinKey p ∈ seen) then pinned seen rest
      else if onLink q p.2 p.1 then pinned ({[pinKey p]} ∪ seen) rest
      else p :: pinned ({[pinKey p]} ∪ seen) rest
  end.

Lemma hostAdd_adds dst gw ifn : changeOf (hostAdd dst gw ifn) = Adds (hostDel dst ifn).
Proof. reflexivity. Qed.
Lemma hostDel_deletes dst ifn : changeOf (hostDel dst ifn) = Deletes (hostDel dst ifn).
Proof. reflexivity. Qed.

Lemma out_ext o1 o2 iface dst : (∀ a, o1 a = o2 a) → onLink o1 iface dst = onLink o2 iface dst ∧ interfaceGateway o1 iface = interfaceGateway o2 iface.
Proof. intros H. unfold onLink, interfaceGateway. by rewrite !H. Qed.

Lemma pinLoop_law pins : ∀ seen c k0 (w : world), answers (w_k w) → undoes c (w_k w) k0 →
  match pinLoop seen c pins w with
  | (Some c', w') => undoes c' (w_k w') k0 ∧ forwarding (w_k w') = forwarding (w_k w) ∧
      gains (map (λ p, hostDel p.1 p.2) (pinned seen pins)) (w_k w) (w_k w') ∧
      Forall (λ p, is_Some (interfaceGateway q p.2)) (pinned seen pins)
  | (None, w') => same k0 (w_k w')
  end.
Proof.
  induction pins as [|p pins IH]; intros seen c k0 w Hq Hu; cbn [pinLoop pinned].
  { split; [done|]. split; [done|]. split; [split; [intros x; cbn; lia|done]|constructor]. }
  destruct ((p.2 =? "") || _); [by apply IH|].
  destruct (out_ext (λ a, output a w) q p.2 p.1 Hq) as [-> ->]. destruct (onLink q p.2 p.1); [by apply IH|].
  destruct (interfaceGateway q p.2) as [gw|] eqn:Hgw; [|by apply Hu].
  pose proof (run_adds_fails _ _ w (hostAdd_adds p.1 gw p.2)) as Hf. pose proof (run_adds _ _ w (hostAdd_adds p.1 gw p.2)) as Hg.
  pose proof (λ w', run_adds_deletes _ _ _ w w' (hostAdd_adds p.1 gw p.2) (hostDel_deletes p.1 p.2) eq_refl) as Hd.
  destruct (run_law (hostAdd p.1 gw p.2) w) as [Hfw _]. cbn in Hfw. pose proof (routes_unseen p.1 gw p.2 (w_k w) Hq) as Hq1.
  assert ((hostRun (hostAdd p.1 gw p.2) (w_k w)).2 = w_k (run (hostAdd p.1 gw p.2) w).2) as Hk by (unfold run; by destruct (hostRun _ (w_k w))).
  rewrite Hk in Hq1. destruct (run (hostAdd p.1 gw p.2) w) as [[] w1]; cbn [fst snd] in *; [|by apply Hu, Hf].
  assert (undoes [UndoQuiet (hostDel p.1 p.2)] (w_k w1) (w_k w)) as Hu1.
  { intros w' Hw'. rewrite teardown_one. cbn [undoStep snd]. by apply Hd. }
  specialize (IH ({[pinKey p]} ∪ seen) (c ++ [UndoQuiet (hostDel p.1 p.2)])%list k0 w1 Hq1 (undoes_app _ _ _ _ _ Hu Hu1)).
  destruct (pinLoop _ _ pins w1) as [[c'|] w2]; [|done]. destruct IH as (U & F & G & A). split; [done|]. split; [congruence|].
  split; [exact (gains_trans [hostDel p.1 p.2] _ _ _ _ (Hg eq_refl) G)|]. constructor; [by eexists|done].
Qed.

(** ** Theorem *)

(** On macOS, pinning routes gives one scoped host route to each distinct remote
    that is not on its link, and only to those, whatever the host holds; an
    interface without a gateway or a command that fails leaves no route behind,
    and the teardown of a success restores what was there. *)
Theorem pin_routes_exact pins (w : world) : answers (w_k w) →
  match PinRoutes pins w with
  | (Some c, w') =>
      (∀ x, installed (w_k w') x = (installed (w_k w) x + countOf x (map (λ p, hostDel p.1 p.2) (pinned ∅ pins)))%nat) ∧
      ∀ w'' : world, same (w_k w') (w_k w'') → same (w_k w) (w_k (teardown c w'').2)
  | (None, w') => same (w_k w) (w_k w')
  end.
Proof.
  intros Hq. pose proof (pinLoop_law pins ∅ [] (w_k w) w Hq (undoes_nil _ _ (reflexivity _))) as H. unfold PinRoutes.
  destruct (pinLoop ∅ [] pins w) as [[c|] w']; [|done]. destruct H as (U & F & [G _] & _). done.
Qed.
End facts.

(** ** Witness *)

(** A Mac whose en0 has 192.168.1.0/24 behind 192.168.1.1. *)
Definition macOut (a : argv) : option string :=
  if bool_decide (a = ["ifconfig"; "en0"]) then Some ("en0: flags=8863" +:+ String lf "" +:+ "inet 192.168.1.2 netmask 0xffffff00 broadcast 192.168.1.255")
  else if bool_decide (a = ["route"; "-n"; "get"; "-ifscope"; "en0"; "default"]) then Some ("   route to: default" +:+ String lf "" +:+ "    gateway: 192.168.1.1")
  else None.

Lemma pin_routes_exact_witness :
  let pins := [("203.0.113.7", "en0"); ("192.168.1.9", "en0"); ("203.0.113.7", "en0"); ("198.51.100.1", "")] in
  let b := MkBox [] [] "0" willing macOut in
  match PinRoutes pins (MkWorld b None) with
  | (Some c, w') => installed (w_k w') (hostDel "203.0.113.7" "en0") = 1%nat ∧ installed (w_k w') (hostDel "192.168.1.9" "en0") = 0%nat ∧
      same b (w_k (teardown c w').2)
  | (None, _) => False
  end.
Proof.
  cbn zeta. set (b := MkBox _ _ _ _ _). set (pins := [_; _; _; _]).
  set (q := λ a, trimmed <$> macOut a).
  assert (∀ dst gw ifn k, answers q k → answers q (hostRun (hostAdd dst gw ifn) k).2) as Hu.
  { intros dst gw ifn k Hk a. rewrite <- (Hk a). cbn [hostRun box_Host]. unfold boxRun. rewrite hostAdd_adds. by destruct (bx_refuses k _). }
  pose proof (pin_routes_exact q Hu pins (MkWorld b None) (λ a, eq_refl)) as H.
  assert (match (PinRoutes pins (MkWorld b None)).1 with Some _ => true | None => false end = true) as E by (vm_compute; reflexivity).
  destruct (PinRoutes pins (MkWorld b None)) as [[c|] w']; [|discriminate E]. destruct H as (O & T).
  split; [rewrite O; vm_compute; reflexivity|]. split; [rewrite O; vm_compute; reflexivity|]. apply T. reflexivity.
Defined.
