(* ===== verification/Release.v ===== *)
(** * internal/release: the deployment plan

    [BuildPlan] derives from a schema and its compiled configurations what to
    build and what to ship where; [Render] turns it into files.  Marshalling a
    configuration and executing the templates are arguments. *)

From S2P Require Import Prelude GoBytes GoStrings NetIp Config Http Factory Dsl Schema Compile.
From S2P Require Paths.
Local Open Scope Z_scope.
Local Open Scope string_scope.
Local Open Scope go_scope.

(** ** Data *)

Record Artifact := MkArtifact { ar_Name : string; ar_Mode : Z; ar_Data : string }.
Record FileCopy := MkFileCopy { fc_Node : string; fc_Local : string; fc_Remote : string }.
Record GoBuild := MkGoBuild { gb_Name : string; gb_GOARCH : string; gb_GOARM : string; gb_Upx : bool; gb_Out : string }.
Record DockerBuild := MkDocker { dk_Image : string; dk_Platform : string; dk_Bin : string }.

Record SSHPlan := MkSSH {
  sp_Node : string;
  sp_Host : string;
  sp_SSHOpts : string;
  sp_Bin : string;
  sp_BinPath : string;
  sp_ConfigPath : string;
  sp_ConfigFile : string;
  sp_Daemonize : string;
  sp_Unit : string;
  sp_RestartB64 : string;
}.

Record Port := MkPort { po_Port : Z; po_Protocol : string }.

Record K8sPlan := MkK8s {
  kp_Node : string;
  kp_Context : string;
  kp_Namespace : string;
  kp_Image : string;
  kp_Method : string;
  kp_ImportHost : string;
  kp_Manifest : string;
  kp_Deployment : string;
  kp_Variant : string;
  kp_Privileged : bool;
  kp_PullPolicy : string;
  kp_Ports : list Port;
  kp_ConfigYAML : string;
}.

Record Plan := MkPlan {
  pl_RepoRoot : string;
  pl_Network : string;
  pl_StatsFile : string;
  pl_GoBuilds : list GoBuild;
  pl_Docker : list DockerBuild;
  pl_SSHNodes : list SSHPlan;
  pl_K8sNodes : list K8sPlan;
  pl_SSHFiles : list FileCopy;
}.

(** ** Helpers *)

Definition orDefault (v def : string) : string := if v =? "" then def else v.

Definition HasDeploy (n : Network) : bool := existsb (λ kv, bool_decide (is_Some (nd_Deploy kv.2))) (map_to_list (w_Nodes n)).

(** base64, standard alphabet with padding. *)
Definition b64Char (d : N) : ascii :=
  ascii_of_N (if (d <? 26)%N then d + 65 else if (d <? 52)%N then d + 71 else if (d <? 62)%N then d - 4 else if (d =? 62)%N then 43 else 47)%N.
Fixpoint base64 (l : list ascii) : list ascii :=
  match l with
  | a :: b :: c :: l' =>
      let '(a, b, c) := (N_of_ascii a, N_of_ascii b, N_of_ascii c) in
      b64Char (a / 4) :: b64Char (a mod 4 * 16 + b / 16) :: b64Char (b mod 16 * 4 + c / 64) :: b64Char (c mod 64) :: base64 l'
  | [a; b] =>
      let '(a, b) := (N_of_ascii a, N_of_ascii b) in
      [b64Char (a / 4); b64Char (a mod 4 * 16 + b / 16); b64Char (b mod 16 * 4); "="%char]
  | [a] => let a := N_of_ascii a in [b64Char (a / 4); b64Char (a mod 4 * 16); "="%char; "="%char]
  | [] => []
  end%N.
Definition base64Std (s : string) : string := unchars (base64 (chars s)).

Example base64_examples : base64Std "" = "" ∧ base64Std "f" = "Zg==" ∧ base64Std "fo" = "Zm8=" ∧ base64Std "systemctl restart x" = "c3lzdGVtY3RsIHJlc3RhcnQgeA==".
Proof. vm_compute. done. Qed.

(** [indent]: pad the lines that are not empty. *)
Definition trimRight (c : ascii) (l : list ascii) : list ascii :=
  rev ((fix go l := match l with d :: l' => if bool_decide (d = c) then go l' else l | [] => [] end) (rev l)).
Definition joinWith (sep : ascii) (l : list (list ascii)) : list ascii :=
  match l with [] => [] | x :: l' => (x ++ concat (map (cons sep) l'))%list end.
Definition indent (n : nat) (s : string) : string :=
  let lf := ascii_of_nat 10 in
  unchars (joinWith lf (map (λ l, match l with [] => [] | _ => (replicate n " "%char ++ l)%list end) (splitOn lf (trimRight lf (chars s))))).

(** ** Per-node plans *)

Definition containsAt (s : string) : bool := bool_decide ("@"%char ∈ chars s).

Definition sshPlan (node : string) (d : DeploySpec) (bin : string) : SSHPlan :=
  let host := orDefault (dp_Host d) node in
  let opts := ((if (dp_Port d =? 0)%Z then [] else ["-o Port=" +:+ Itoa (dp_Port d)]) ++
    (if dp_Key d =? "" then [] else ["-o IdentityFile=" +:+ dp_Key d]))%list in
  let host := if negb (dp_User d =? "") && negb (containsAt host) then dp_User d +:+ "@" +:+ host else host in
  MkSSH node host (String.concat " " opts) bin (orDefault (dp_BinPath d) "/usr/local/bin/dualnet")
    (orDefault (dp_ConfigPath d) "/etc/dualnet/node.yaml") (node +:+ ".yaml") (orDefault (dp_Daemonize d) "none")
    (orDefault (dp_Unit d) "dualnet") (if dp_RestartCmd d =? "" then "" else base64Std (dp_RestartCmd d)).

Definition listenPorts (cn : cfg) : list Port :=
  map (λ c, MkPort (Config.c_Port c) (if Config.c_Transport c =? "udp" then "UDP" else "TCP"))
    (base.filter (λ c, (Config.c_Type c =? "listen") && negb (Config.c_Port c =? 0)%Z = true) (Config.n_Connections cn)).

Definition needsPrivilege (cn : cfg) : bool :=
  (Config.n_Datapath cn =? "kernel") ||
  existsb (λ kv, (Config.e_Mode kv.2 =? "kernel") || (Config.e_Mode kv.2 =? "direct")) (map_to_list (Config.n_Egresses cn)) ||
  existsb (λ c, Config.c_Type c =? "tun") (Config.n_Connections cn).

Definition setFile (s : option Config.IPSet) : string := match s with Some s => Config.s_File s | None => "" end.

Definition conditionFiles (n : Network) (node : string) (cn : cfg) : list FileCopy :=
  concat (map (λ c,
    match w_Conditions n !! Config.d_Name c with
    | None => []
    | Some sc =>
        ((match cs_DstIn sc with
          | Some s => if negb (setFile (Config.d_DstIn c) =? "") then [MkFileCopy node (Config.s_File s) (setFile (Config.d_DstIn c))] else []
          | None => []
          end) ++
         (match cs_SrcIn sc with
          | Some s => if negb (setFile (Config.d_SrcIn c) =? "") then [MkFileCopy node (Config.s_File s) (setFile (Config.d_SrcIn c))] else []
          | None => []
          end))%list
    end) (Config.n_Conditions cn)).

Section plan.
(** yaml.Marshal; [None] for an error. *)
Context (marshal : cfg → option string).

Definition k8sPlan (node : string) (d : DeploySpec) (arch : string) (cn : cfg) : vres (K8sPlan * DockerBuild) :=
  match ArchBuild arch with
  | None => Err "build arch unsupported"
  | Some (_, _, platform) =>
      let method := orDefault (dp_Method d) "registry" in
      let ports := listenPorts cn in
      check? negb (length ports =? 0)%nat else "k8s node has no listen connections to expose";
      match marshal (Config.ForArtifact cn) with
      | None => Err "marshal config"
      | Some yaml =>
          let pull := if method =? "ctr" then "IfNotPresent" else "Always" in
          Ok (MkK8s node (dp_Context d) (orDefault (dp_Namespace d) "default") (dp_Image d) method (orDefault (dp_ImportHost d) node)
                (node +:+ ".k8s.yaml") (orDefault (dp_DeploymentName d) ("dualnet-" +:+ node)) (orDefault (dp_Manifest d) "hostNetwork")
                (needsPrivilege cn) pull ports yaml,
              MkDocker (dp_Image d) platform ("dualnet-" +:+ dp_Build d))
      end
  end.

(** The loop over the recipes. *)
Definition buildStep (acc : list GoBuild) (kv : string * BuildSpec) : vres (list GoBuild) :=
  match ArchBuild (bd_Arch kv.2) with
  | None => Err "build has unsupported arch"
  | Some (goarch, goarm, _) => Ok (acc ++ [MkGoBuild kv.1 goarch goarm (bd_Upx kv.2) ("dualnet-" +:+ kv.1)])%list
  end.

(** The loop over the nodes. *)
Record planState := MkPlanState {
  ps_ssh : list SSHPlan;
  ps_files : list FileCopy;
  ps_k8s : list K8sPlan;
  ps_docker : gmap string DockerBuild;
}.

Definition nodeStep (n : Network) (nodes : gmap string cfg) (s : planState) (name : string) : vres planState :=
  match nd_Deploy (node n name) with
  | None => Ok s
  | Some d =>
      match nodes !! name with
      | None => Err "node has a deploy block but no compiled config"
      | Some cn =>
          if dp_Mode d =? "ssh" then
            Ok (MkPlanState (ps_ssh s ++ [sshPlan name d ("dualnet-" +:+ dp_Build d)]) (ps_files s ++ conditionFiles n name cn) (ps_k8s s) (ps_docker s))%list
          else if dp_Mode d =? "k8s" then
            check? forallb (λ c, setFile (Config.d_DstIn c) =? "") (Config.n_Conditions cn) else "k8s node references dst_in file";
            check? forallb (λ c, setFile (Config.d_SrcIn c) =? "") (Config.n_Conditions cn) else "k8s node references src_in file";
            let? kd := k8sPlan name d (bd_Arch (default (MkBuild "" false) (w_Builds n !! dp_Build d))) cn in
            let '(k, db) := kd in
            check? match ps_docker s !! dk_Image db with
                   | Some prev => (dk_Platform prev =? dk_Platform db) && (dk_Bin prev =? dk_Bin db)
                   | None => true end else "image is built two incompatible ways";
            Ok (MkPlanState (ps_ssh s) (ps_files s) (ps_k8s s ++ [k])%list (<[dk_Image db := db]> (ps_docker s)))
          else Err "unknown deploy mode"
      end
  end.

Definition BuildPlan (n : Network) (nodes : gmap string cfg) (repoRoot network : string) : vres Plan :=
  let? builds := rangeM buildStep [] (map (λ k, (k, default (MkBuild "" false) (w_Builds n !! k))) (sortedKeys (w_Builds n))) in
  let? s := rangeM (nodeStep n nodes) (MkPlanState [] [] [] ∅) (sortedKeys (w_Nodes n)) in
  Ok (MkPlan repoRoot network (w_StatsFile n) builds (omap (λ k, ps_docker s !! k) (sortedKeys (ps_docker s))) (ps_ssh s) (ps_k8s s) (ps_files s)).

(** ** Render *)

(** The templates: build.sh and deploy.sh over the plan, the manifest over a
    k8s node, and the Dockerfile's text. *)
Context (execPlan : string → Plan → option string) (execK8s : K8sPlan → option string) (dockerfile : string).

Definition render (o : option string) : vres string := match o with Some d => Ok d | None => Err "render" end.

Definition Render (p : Plan) : vres (list Artifact) :=
  let? arts := rangeM (λ arts name, let? data := render (execPlan name p) in Ok (arts ++ [MkArtifact name 493 data])%list) [] ["build.sh"; "deploy.sh"] in
  let arts := (arts ++ if (length (pl_Docker p) =? 0)%nat then [] else [MkArtifact "Dockerfile.release" 420 dockerfile])%list in
  rangeM (λ arts k, let? m := render (execK8s k) in Ok (arts ++ [MkArtifact (kp_Manifest k) 420 m])%list) arts (pl_K8sNodes p).
End plan.
