(* ===== verification/ReleaseFacts.v ===== *)
(** * What a release ships

    Release.v's plan over the output of the compiler: the files a node reads are
    the files copied to it, every node's binary is built, and the artifacts do not
    depend on the key. *)

From S2P Require Import Prelude GoBytes GoStrings NetIp Config Http Factory Dsl Schema Compile Release.
From S2P Require Paths.
Local Open Scope Z_scope.
Local Open Scope string_scope.
Local Open Scope go_scope.

(** ** Lemmas: the conditions of compiled configurations *)

(** Every condition of a configuration is the one compiled for its node. *)
Definition conds_from (n : Network) (out : routes) : Prop :=
  ∀ name cn d, out !! name = Some cn → d ∈ Config.n_Conditions cn → compiledCondition n name (Config.d_Name d) = Ok d.

Lemma conds_atNode n out name f out' :
  conds_from n out → (∀ cn d, d ∈ Config.n_Conditions (f cn) → d ∈ Config.n_Conditions cn ∨ compiledCondition n name (Config.d_Name d) = Ok d) →
  atNode out name f = Ok out' → conds_from n out'.
Proof.
  intros Hc Hf (cn & Hcn & ->)%atNode_some nm c d Hl Hd. destruct (decide (name = nm)) as [<-|Hne].
  - rewrite lookup_insert_eq in Hl. injection Hl as <-. destruct (Hf cn d Hd) as [Hd'|]; [by eapply Hc|done].
  - rewrite lookup_insert_ne in Hl by done. by eapply Hc.
Qed.

Lemma conds_links n o out l out' : conds_from o out → addLinkConnections n out l = Ok out' → conds_from o out'.
Proof.
  intros Hc H. unfold addLinkConnections in H. apply res_bind_ok in H as (dialer & _ & H). apply res_bind_ok in H as (acceptor & _ & H).
  destruct (resolveSource dialer _) as [di dip]. apply res_bind_ok in H as (setter & _ & H). apply res_bind_ok in H as (o1 & H1 & H).
  destruct (resolveSource acceptor _) as [ai aip]. refine (conds_atNode _ _ _ _ _ (conds_atNode _ _ _ _ _ Hc _ H1) _ H); by intros ?? ?; left.
Qed.

Lemma compiledCondition_name n name c d : compiledCondition n name c = Ok d → Config.d_Name d = c.
Proof.
  unfold compiledCondition. destruct (w_Conditions n !! c) as [spec|]; [|done].
  destruct (cs_DstIn spec), (cs_SrcIn spec), (cs_Healthcheck spec); try done; try (by intros [= <-]).
  intros (bt & _ & H)%res_bind_ok. destruct bt as [br tunNode]. apply Config.check_ok in H as [_ H]. by injection H as <-.
Qed.

Lemma conds_emit n st nc st' : conds_from n st.1 → emitCondition n st nc = Ok st' → conds_from n st'.1.
Proof.
  intros Hc. unfold emitCondition. case_bool_decide; [by intros [= <-]|]. intros (d & Hd & He)%res_bind_ok.
  apply res_bind_ok in He as (out & Hout & He). injection He as <-. cbn [fst]. refine (conds_atNode _ _ _ _ _ Hc _ Hout).
  intros cn d' [Hin| ->%list_elem_of_singleton]%elem_of_app; [by left|right]. by rewrite (compiledCondition_name _ _ _ _ Hd).
Qed.

Lemma conds_derive n out links out' : conds_from n out → deriveRoutes n out links = Ok out' → conds_from n out'.
Proof.
  intros Hc H. unfold deriveRoutes in H. apply res_bind_ok in H as (d & Hd & H). apply res_bind_ok in H as (q & _ & H).
  apply res_bind_ok in H as (o1 & Ho1 & H). apply res_bind_ok in H as (o2 & Ho2 & H). injection H as <-.
  assert (conds_from n (dv_out d)) as H1.
  { refine (Config.rangeM_inv (pathStep n links) (λ d, conds_from n (dv_out d)) _ _ _ _ _ Hd); [|exact Hc].
    intros s p s' _ Hs Hx. unfold pathStep in Hx. apply res_bind_ok in Hx as (nd & _ & Hx). destruct (nd_Datapath nd =? "kernel").
    - apply res_bind_ok in Hx as (o & Ho & Hx). injection Hx as <-. cbn [dv_out].
      refine (Config.rangeM_inv _ (conds_from n) _ _ _ _ Hs Ho). intros t br t' _ Ht Hb. refine (conds_atNode _ _ _ _ _ Ht _ Hb); by intros ?? ?; left.
    - apply res_bind_ok in Hx as (pend & _ & Hx). by injection Hx as <-. }
  assert (conds_from n o1) as H2.
  { apply res_bind_ok in Ho1 as (s & Hs & He). injection He as <-.
    refine (Config.rangeM_inv emitStep (λ s, conds_from n (em_out s)) _ _ _ _ _ Hs); [|exact H1].
    intros t pr t' _ Ht Hx. unfold emitStep in Hx. apply res_bind_ok in Hx as (fin & _ & Hx). case_bool_decide; [by injection Hx as <-|].
    apply res_bind_ok in Hx as (o & Ho & Hx). injection Hx as <-. refine (conds_atNode _ _ _ _ _ Ht _ Ho); by intros ?? ?; left. }
  assert (conds_from n o2) as H3.
  { unfold emitConditions in Ho2. apply res_bind_ok in Ho2 as (st & Hst & Ho2). apply res_bind_ok in Ho2 as (st' & Hst' & Ho2). injection Ho2 as <-.
    refine (Config.rangeM_inv _ (λ st, conds_from n st.1) _ _ _ _ _ Hst').
    - intros s [c spec] s' _ Hs Hx. destruct (cs_Healthcheck spec); [|by injection Hx as <-]. apply res_bind_ok in Hx as (bt & _ & Hx). by eapply conds_emit.
    - refine (Config.rangeM_inv _ (λ st, conds_from n st.1) _ _ _ _ _ Hst); [|exact H2].
      intros s nc s' _ Hs Hx. apply res_bind_ok in Hx as (u & _ & Hx). by eapply conds_emit. }
  intros name cn c Hcn Hin. unfold sortRoutes in Hcn. rewrite map_lookup_imap in Hcn. destruct (o2 !! name) as [cn2|] eqn:H4; [|done].
  cbn in Hcn. injection Hcn as <-. eapply H3; [exact H4|]. by destruct (originTun (node n name)).
Qed.

(** Of a set of addresses: it comes from the schema's condition, its file moved
    to where the node reads it. *)
Lemma compiled_conditions n out name cn d : Compile n = Ok out → out !! name = Some cn → d ∈ Config.n_Conditions cn →
  ∃ spec, w_Conditions n !! Config.d_Name d = Some spec ∧
    (∀ s, Config.d_DstIn d = Some s → ∃ local, cs_DstIn spec = Some local ∧ s = relocateSet n name local) ∧
    (∀ s, Config.d_SrcIn d = Some s → ∃ local, cs_SrcIn spec = Some local ∧ s = relocateSet n name local).
Proof.
  intros H Hcn Hd. destruct (Paths.Compile_stages _ _ H) as (o1 & n' & o2 & H1 & H2 & H3 & -> & _).
  unfold inferGateways in H2. apply res_bind_ok in H2 as (ps & _ & H2). injection H2 as <-.
  assert (conds_from (setPaths n ps) o1) as Hc1.
  { refine (Config.rangeM_inv _ (conds_from _) _ _ _ _ _ H1); [intros; by eapply conds_links|].
    intros nm c x Hl. rewrite lookup_fmap in Hl. destruct (w_Nodes n !! nm); [|done]. cbn in Hl. injection Hl as <-. by intros ?%elem_of_nil. }
  rewrite lookup_fmap in Hcn. destruct (o2 !! name) as [cn2|] eqn:Hl; [|done]. cbn in Hcn. injection Hcn as <-.
  pose proof (conds_derive _ _ _ _ Hc1 H3 name cn2 d Hl Hd) as Hk. unfold compiledCondition in Hk. cbn [w_Conditions setPaths] in Hk.
  destruct (w_Conditions n !! Config.d_Name d) as [spec|]; [|done]. exists spec. split; [done|].
  destruct (cs_DstIn spec) as [ds|]; [|destruct (cs_SrcIn spec) as [ss|]]; [..|destruct (cs_Healthcheck spec); [|done]].
  - injection Hk as Hk. rewrite <- Hk. split; [intros s [= <-]; by exists ds|done].
  - injection Hk as Hk. rewrite <- Hk. split; [done|intros s [= <-]; by exists ss].
  - apply res_bind_ok in Hk as ([br tn] & _ & Hk). apply Config.check_ok in Hk as [_ Hk]. injection Hk as Hk. rewrite <- Hk. done.
Qed.

(** ** Lemmas: the loops of the plan *)

Section plans.
Context (marshal : cfg → option string).

Lemma sortedKeys_in {V} (m : gmap string V) k : k ∈ sortedKeys m ↔ is_Some (m !! k).
Proof.
  unfold sortedKeys. rewrite Config.sortStrings_perm. split.
  - intros Hk. apply list_elem_of_In, in_map_iff in Hk as ([x v] & <- & Hin). apply list_elem_of_In, elem_of_map_to_list in Hin. by eexists.
  - intros [v Hv]. apply list_elem_of_In, in_map_iff. exists (k, v). split; [done|]. by apply list_elem_of_In, elem_of_map_to_list.
Qed.

Lemma deployed_in n name d : nd_Deploy (node n name) = Some d → name ∈ sortedKeys (w_Nodes n).
Proof. intros H. apply sortedKeys_in. unfold node in H. destruct (w_Nodes n !! name); [by eexists|done]. Qed.

(** What a step adds stays. *)
Lemma nodeStep_grows n nodes s name s' : nodeStep marshal n nodes s name = Ok s' →
  (∀ x, x ∈ ps_ssh s → x ∈ ps_ssh s') ∧ (∀ x, x ∈ ps_files s → x ∈ ps_files s') ∧ (∀ x, x ∈ ps_k8s s → x ∈ ps_k8s s').
Proof.
  unfold nodeStep. destruct (nd_Deploy (node n name)) as [d|]; [|by intros [= <-]]. destruct (nodes !! name) as [cn|]; [|done].
  destruct (dp_Mode d =? "ssh"); [intros [= <-]; cbn; repeat split; intros x Hx; try apply elem_of_app; auto|].
  destruct (dp_Mode d =? "k8s"); [|done]. rewrite !Config.check_ok. intros (_ & _ & H). apply res_bind_ok in H as ([k db] & _ & H).
  rewrite Config.check_ok in H. destruct H as [_ H]. injection H as <-. cbn. repeat split; intros x Hx; try apply elem_of_app; auto.
Qed.

(** An ssh node's step and its files are in the final state. *)
Lemma ssh_planned n nodes s0 s name d cn : rangeM (nodeStep marshal n nodes) s0 (sortedKeys (w_Nodes n)) = Ok s →
  nd_Deploy (node n name) = Some d → dp_Mode d = "ssh" → nodes !! name = Some cn →
  sshPlan name d ("dualnet-" +:+ dp_Build d) ∈ ps_ssh s ∧ ∀ x, x ∈ conditionFiles n name cn → x ∈ ps_files s.
Proof.
  intros H Hd Hm Hcn.
  pose (Q := λ nm (s : planState), nm = name → sshPlan name d ("dualnet-" +:+ dp_Build d) ∈ ps_ssh s ∧ ∀ x, x ∈ conditionFiles n name cn → x ∈ ps_files s).
  refine (Config.rangeM_reaches (nodeStep marshal n nodes) Q _ _ _ _ _ H name (deployed_in _ _ _ Hd) eq_refl).
  - intros t nm t' _ Ht ->. unfold nodeStep in Ht. rewrite Hd, Hcn, Hm in Ht. cbn [String.eqb Ascii.eqb Bool.eqb] in Ht. injection Ht as <-. cbn [ps_ssh ps_files].
    split; [apply elem_of_app; right; left|intros x Hx; apply elem_of_app; by right].
  - intros t nm t' y _ Ht Hq Hy. destruct (Hq Hy) as [H1 H2]. apply nodeStep_grows in Ht as (G1 & G2 & _). split; [auto|]. intros x Hx. auto.
Qed.

(** The images built so far fit the manifests planned so far. *)
Record docker_ok (n : Network) (s : planState) : Prop := {
  do_keys : ∀ img db, ps_docker s !! img = Some db → dk_Image db = img;
  do_ssh : ∀ sp, sp ∈ ps_ssh s → ∃ d, nd_Deploy (node n (sp_Node sp)) = Some d ∧ sp_Bin sp = "dualnet-" +:+ dp_Build d;
  do_k8s : ∀ k, k ∈ ps_k8s s → ∃ d db, nd_Deploy (node n (kp_Node k)) = Some d ∧ ps_docker s !! kp_Image k = Some db ∧
    dk_Bin db = "dualnet-" +:+ dp_Build d ∧ (λ t, t.2) <$> ArchBuild (bd_Arch (default (MkBuild "" false) (w_Builds n !! dp_Build d))) = Some (dk_Platform db);
}.

Lemma k8sPlan_ok name d arch cn k db : k8sPlan marshal name d arch cn = Ok (k, db) →
  kp_Node k = name ∧ kp_Image k = dk_Image db ∧ dk_Bin db = "dualnet-" +:+ dp_Build d ∧ (λ t, t.2) <$> ArchBuild arch = Some (dk_Platform db).
Proof.
  unfold k8sPlan. destruct (ArchBuild arch) as [[[g a] p]|]; [|done]. rewrite Config.check_ok. intros [_ H].
  destruct (marshal _); [|done]. injection H as <- <-. done.
Qed.

Lemma nodeStep_docker n nodes s name s' : docker_ok n s → nodeStep marshal n nodes s name = Ok s' → docker_ok n s'.
Proof.
  intros [Hk Hs H8] H. unfold nodeStep in H. destruct (nd_Deploy (node n name)) as [d|] eqn:Hd; [|by injection H as <-].
  destruct (nodes !! name) as [cn|]; [|done]. destruct (dp_Mode d =? "ssh").
  { injection H as <-. split; [done| |done]. intros sp [Hin| ->%list_elem_of_singleton]%elem_of_app; [by apply Hs|]. by exists d. }
  destruct (dp_Mode d =? "k8s"); [|done]. rewrite !Config.check_ok in H. destruct H as (_ & _ & H). apply res_bind_ok in H as ([k db] & Hkd & H).
  rewrite Config.check_ok in H. destruct H as [Hprev H]. injection H as <-. destruct (k8sPlan_ok _ _ _ _ _ _ Hkd) as (K1 & K2 & K3 & K4).
  split; cbn [ps_docker ps_ssh ps_k8s]; [|done|].
  - intros img x [[<- <-]|[_ Hx]]%lookup_insert_Some; [done|by apply Hk].
  - intros k' [Hin| ->%list_elem_of_singleton]%elem_of_app.
    + destruct (H8 k' Hin) as (d' & db' & D1 & D2 & D3 & D4). exists d'. destruct (decide (dk_Image db = kp_Image k')) as [He|Hne].
      * rewrite He, D2 in Hprev. apply andb_true_iff in Hprev as [P1%String.eqb_eq P2%String.eqb_eq].
        exists db. rewrite He, lookup_insert_eq. by rewrite <- P1, <- P2.
      * exists db'. by rewrite lookup_insert_ne.
    + exists d, db. rewrite K1, K2, lookup_insert_eq. done.
Qed.

Lemma builds_in bs acc gs : rangeM buildStep acc bs = Ok gs →
  ∀ k b, (k, b) ∈ bs → ∃ g p, g ∈ gs ∧ gb_Name g = k ∧ gb_Out g = "dualnet-" +:+ k ∧ ArchBuild (bd_Arch b) = Some (gb_GOARCH g, gb_GOARM g, p).
Proof.
  intros H k b Hin.
  pose (Q := λ kv (gs : list GoBuild), ∃ g p, g ∈ gs ∧ gb_Name g = fst kv ∧ gb_Out g = "dualnet-" +:+ fst kv ∧ ArchBuild (bd_Arch (snd kv)) = Some (gb_GOARCH g, gb_GOARM g, p)).
  refine (Config.rangeM_reaches buildStep Q _ _ _ _ _ H (k, b) Hin).
  - intros t [k' b'] t' _ Ht. unfold buildStep in Ht. cbn [fst snd] in Ht. destruct (ArchBuild (bd_Arch b')) as [[[g a] p]|] eqn:Ha; [|done]. injection Ht as <-.
    unfold Q. cbn [fst snd]. eexists (MkGoBuild k' g a (bd_Upx b') ("dualnet-" +:+ k')), p. split; [apply elem_of_app; right; left|]. rewrite Ha. done.
  - intros t [k' b'] t' y _ Ht (g & p & Hg & Hr). exists g, p. split; [|done]. unfold buildStep in Ht.
    destruct (ArchBuild _) as [[[? ?] ?]|]; [|done]. injection Ht as <-. apply elem_of_app. by left.
Qed.

(** The two loops of a plan that succeeds. *)
Lemma BuildPlan_inv n nodes root net p : BuildPlan marshal n nodes root net = Ok p → ∃ s,
  rangeM buildStep [] (map (λ k, (k, default (MkBuild "" false) (w_Builds n !! k))) (sortedKeys (w_Builds n))) = Ok (pl_GoBuilds p) ∧
  rangeM (nodeStep marshal n nodes) (MkPlanState [] [] [] ∅) (sortedKeys (w_Nodes n)) = Ok s ∧
  pl_SSHNodes p = ps_ssh s ∧ pl_K8sNodes p = ps_k8s s ∧ pl_SSHFiles p = ps_files s ∧
  pl_Docker p = omap (λ k, ps_docker s !! k) (sortedKeys (ps_docker s)).
Proof.
  unfold BuildPlan. intros (gs & Hg & H)%res_bind_ok. apply res_bind_ok in H as (s & Hs & H). injection H as <-. by exists s.
Qed.

(** ** Theorems *)

(** Every file a deployed node reads is shipped to it.  In a release
    of a compiled network, for every set of addresses that the configuration of a
    node deployed over ssh reads from a file, the schema has the condition, and the
    file it names is copied to exactly the path the node reads. *)
Theorem files_shipped n out root net p name dep cn d s :
  Compile n = Ok out → BuildPlan marshal n out root net = Ok p →
  nd_Deploy (node n name) = Some dep → dp_Mode dep = "ssh" →
  out !! name = Some cn → d ∈ Config.n_Conditions cn →
  Config.d_DstIn d = Some s ∨ Config.d_SrcIn d = Some s → Config.s_File s ≠ "" →
  ∃ spec local, w_Conditions n !! Config.d_Name d = Some spec ∧
    (cs_DstIn spec = Some local ∨ cs_SrcIn spec = Some local) ∧ s = relocateSet n name local ∧
    MkFileCopy name (Config.s_File local) (Config.s_File s) ∈ pl_SSHFiles p.
Proof.
  intros Hc Hp Hd Hm Hcn Hin Hset Hf. destruct (BuildPlan_inv _ _ _ _ _ Hp) as (st & _ & Hs & _ & _ & -> & _).
  destruct (ssh_planned _ _ _ _ _ _ _ Hs Hd Hm Hcn) as [_ Hfiles].
  destruct (compiled_conditions n out name cn d Hc Hcn Hin) as (spec & Hspec & Hdst & Hsrc). exists spec.
  apply String.eqb_neq in Hf.
  destruct Hset as [Hset|Hset]; [destruct (Hdst s Hset) as (local & Hl & Hs')|destruct (Hsrc s Hset) as (local & Hl & Hs')];
    exists local; (split; [done|]); (split; [by (left + right)|]); (split; [done|]); apply Hfiles;
    unfold conditionFiles; apply list_elem_of_In, in_concat; eexists; (split; [apply in_map_iff; exists d; split; [reflexivity|by apply list_elem_of_In]|]);
    rewrite Hspec, Hl, Hset; cbn [setFile]; rewrite Hf; cbn [negb]; apply list_elem_of_In, elem_of_app; [left|right]; left.
Qed.

(** A release builds what it ships.  For a validated schema, the
    binary of every node deployed over ssh is one of the builds, the one the node
    names; the image of every k8s node is built exactly once, from the binary of
    the build the node names and for that build's platform. *)
Theorem plan_builds_shipped n0 n nodes root net p :
  Schema.validate n0 = Ok n → BuildPlan marshal n nodes root net = Ok p →
  (∀ sp, sp ∈ pl_SSHNodes p → ∃ d g, nd_Deploy (node n (sp_Node sp)) = Some d ∧ g ∈ pl_GoBuilds p ∧ gb_Name g = dp_Build d ∧ gb_Out g = sp_Bin sp) ∧
  (∀ k, k ∈ pl_K8sNodes p → ∃ d g db, nd_Deploy (node n (kp_Node k)) = Some d ∧ g ∈ pl_GoBuilds p ∧ gb_Name g = dp_Build d ∧
     db ∈ pl_Docker p ∧ dk_Image db = kp_Image k ∧ (∀ db', db' ∈ pl_Docker p → dk_Image db' = kp_Image k → db' = db) ∧
     dk_Bin db = gb_Out g ∧
     ∃ b, w_Builds n !! dp_Build d = Some b ∧ ArchBuild (bd_Arch b) = Some (gb_GOARCH g, gb_GOARM g, dk_Platform db)).
Proof.
  intros Hv Hp. destruct (BuildPlan_inv _ _ _ _ _ Hp) as (st & Hb & Hs & -> & -> & _ & ->).
  assert (∀ name d, nd_Deploy (node n name) = Some d → is_Some (w_Builds n !! dp_Build d)) as Hbuild.
  { intros name d Hd. unfold Schema.validate in Hv. rewrite Config.check_ok in Hv. destruct Hv as [_ Hv].
    apply res_bind_ok in Hv as (_ & _ & Hv). apply res_bind_ok in Hv as (_ & _ & Hv). apply res_bind_ok in Hv as (links & _ & Hv).
    apply res_bind_ok in Hv as (n1 & _ & Hv). apply res_bind_ok in Hv as (st1 & _ & Hv). apply res_bind_ok in Hv as (ck & _ & Hv).
    apply res_bind_ok in Hv as (_ & _ & Hv). apply res_bind_ok in Hv as (_ & _ & Hv). apply res_bind_ok in Hv as ([] & Hdep & Hv). injection Hv as <-.
    apply (Config.rangeM_each _ (λ kv, match nd_Deploy kv.2 with Some d => validateDeploy d (w_Builds n1) = Ok tt | None => True end)) in Hdep.
    2: { intros [k nd]. cbn. by destruct (nd_Deploy nd). }
    unfold node in Hd. destruct (w_Nodes n1 !! name) as [nd|] eqn:Hn; [|done]. rewrite Forall_forall in Hdep.
    specialize (Hdep (name, nd) ltac:(by apply elem_of_map_to_list)). cbn [snd] in Hdep. cbn [default from_option] in Hd. unfold id in Hd. rewrite Hd in Hdep.
    unfold validateDeploy in Hdep. rewrite !Config.check_ok in Hdep. destruct Hdep as (_ & Hb' & _). by apply bool_decide_eq_true in Hb'. }
  assert (docker_ok n st) as [Hk Hssh H8].
  { refine (Config.rangeM_inv _ (docker_ok n) _ _ _ _ _ Hs); [intros t nm t' _ Ht Hx; by eapply nodeStep_docker|]. split; cbn; intros ?; [by rewrite lookup_empty|by intros ?%elem_of_nil..]. }
  assert (∀ b, is_Some (w_Builds n !! b) → ∃ g pf bs, w_Builds n !! b = Some bs ∧ g ∈ pl_GoBuilds p ∧ gb_Name g = b ∧ gb_Out g = "dualnet-" +:+ b ∧
    ArchBuild (bd_Arch bs) = Some (gb_GOARCH g, gb_GOARM g, pf)) as Hg.
  { intros b [bs Hbs]. destruct (builds_in _ _ _ Hb b bs) as (g & pf & G1 & G2 & G3 & G4).
    - apply list_elem_of_fmap. exists b. rewrite Hbs. split; [done|]. apply sortedKeys_in. by eexists.
    - by exists g, pf, bs. }
  split.
  - intros sp Hin. destruct (Hssh sp Hin) as (d & Hd & Hbin). destruct (Hg (dp_Build d) (Hbuild _ _ Hd)) as (g & pf & bs & _ & G1 & G2 & G3 & _).
    exists d, g. by rewrite Hbin.
  - intros k Hin. destruct (H8 k Hin) as (d & db & Hd & Hdb & Hbin & Hplat). destruct (Hg (dp_Build d) (Hbuild _ _ Hd)) as (g & pf & bs & Hbs & G1 & G2 & G3 & G4).
    rewrite Hbs in Hplat. cbn [default from_option] in Hplat. unfold id in Hplat. rewrite G4 in Hplat. cbn in Hplat. assert (pf = dk_Platform db) as Hpf by congruence. rewrite Hpf in G4.
    exists d, g, db. repeat split; try done.
    + apply list_elem_of_omap. exists (kp_Image k). split; [|done]. apply sortedKeys_in. by eexists.
    + by apply Hk.
    + intros db' (img & _ & Hx)%list_elem_of_omap Himg. pose proof (Hk _ _ Hx). congruence.
    + congruence.
    + exists bs. split; [done|]. done.
Qed.

(** Schemas that differ in nothing but their keys, as far as a release goes. *)
Definition same_but_keys (n n' : Network) : Prop :=
  w_StatsFile n = w_StatsFile n' ∧ w_Builds n = w_Builds n' ∧ w_Conditions n = w_Conditions n' ∧ (nd_Deploy <$> w_Nodes n) = (nd_Deploy <$> w_Nodes n').

Lemma sortedKeys_fmap {V W} (f : V → W) (m : gmap string V) : sortedKeys (f <$> m) = sortedKeys m.
Proof.
  unfold sortedKeys. f_equal. rewrite map_to_list_fmap. change (map fst (prod_map id f <$> map_to_list m)) with (map fst (map (prod_map id f) (map_to_list m))).
  rewrite map_map. apply map_ext. by intros [k v].
Qed.

Lemma deploy_same n n' name : same_but_keys n n' → nd_Deploy (node n name) = nd_Deploy (node n' name).
Proof.
  intros (_ & _ & _ & H). apply (f_equal (lookup name)) in H. rewrite !lookup_fmap in H. unfold node.
  destruct (w_Nodes n !! name), (w_Nodes n' !! name); cbn in *; congruence.
Qed.

Lemma ForArtifact_same cn cn' : Config.ForArtifact cn = Config.ForArtifact cn' →
  Config.n_Conditions cn = Config.n_Conditions cn' ∧ listenPorts cn = listenPorts cn' ∧ needsPrivilege cn = needsPrivilege cn'.
Proof.
  intros H. pose proof (f_equal Config.n_Conditions H) as H1. pose proof (f_equal Config.n_Connections H) as H2.
  pose proof (f_equal Config.n_Datapath H) as H3. pose proof (f_equal Config.n_Egresses H) as H4. cbn in H1, H2, H3, H4.
  unfold listenPorts, needsPrivilege. by rewrite H1, H2, H3, H4.
Qed.

Lemma nodeStep_same n n' nodes nodes' s name : same_but_keys n n' → Config.ForArtifact <$> nodes = Config.ForArtifact <$> nodes' →
  nodeStep marshal n nodes s name = nodeStep marshal n' nodes' s name.
Proof.
  intros Hn Hc. unfold nodeStep. rewrite (deploy_same n n' name Hn). destruct (nd_Deploy (node n' name)) as [d|]; [|done].
  apply (f_equal (lookup name)) in Hc. rewrite !lookup_fmap in Hc. destruct Hn as (_ & Hb & Hcond & _).
  destruct (nodes !! name) as [cn|], (nodes' !! name) as [cn'|]; cbn in Hc; try done. assert (Config.ForArtifact cn = Config.ForArtifact cn') as He by (exact (f_equal (from_option id (Config.ForArtifact cn)) Hc)).
  destruct (ForArtifact_same _ _ He) as (H1 & H2 & H3). unfold conditionFiles, k8sPlan. by rewrite H1, H2, H3, He, Hb, Hcond.
Qed.

(** No artifact depends on the network's or a node's key.  Two
    releases from schemas and compiled configurations that differ in these keys
    only plan the same and render the same files, for any templates and any
    marshalling: the key appears in none of them (a connection's own key, part of
    its configuration, is not covered). *)
Theorem artifacts_keyless n n' nodes nodes' root net execPlan execK8s dockerfile :
  same_but_keys n n' → Config.ForArtifact <$> nodes = Config.ForArtifact <$> nodes' →
  BuildPlan marshal n nodes root net = BuildPlan marshal n' nodes' root net ∧
  (let? p := BuildPlan marshal n nodes root net in Render execPlan execK8s dockerfile p) =
  (let? p := BuildPlan marshal n' nodes' root net in Render execPlan execK8s dockerfile p).
Proof.
  intros Hn Hc. enough (BuildPlan marshal n nodes root net = BuildPlan marshal n' nodes' root net) as H by (by rewrite H).
  unfold BuildPlan. assert (sortedKeys (w_Nodes n) = sortedKeys (w_Nodes n')) as ->.
  { destruct Hn as (_ & _ & _ & H). rewrite <- (sortedKeys_fmap nd_Deploy (w_Nodes n)), H. apply sortedKeys_fmap. }
  assert (∀ s xs, rangeM (nodeStep marshal n nodes) s xs = rangeM (nodeStep marshal n' nodes') s xs) as Hr.
  { intros s xs. revert s. induction xs as [|x xs IH]; intros s; [done|]. cbn [rangeM]. rewrite (nodeStep_same n n' nodes nodes' s x Hn Hc).
    destruct (nodeStep marshal n' nodes' s x); [|done]. cbn [res_bind]. apply IH. }
  destruct Hn as (H1 & H2 & _). by rewrite Hr, H1, H2.
Qed.
End plans.

(** ** A concrete release *)

Definition sshDeploy : DeploySpec := MkDeploy "ssh" "arm" "" "root" 2222 "" "" "" "" "systemd" "" "systemctl restart dualnet" "" "" "" "" "" "" "".
Definition k8sDeploy : DeploySpec := MkDeploy "k8s" "amd" "" "" 0 "" "" "" "" "" "" "" "ctx" "" "reg/dualnet:1" "ctr" "" "" "".

Definition deployed (nd : Node) (d : DeploySpec) : Node :=
  MkNode (nd_IP nd) (nd_Datapath nd) (nd_Connections nd) (nd_Egresses nd) (nd_PSK nd) (Some d).

(** Paths.v's network with two conditions read from files, the origin deployed
    over ssh and one gateway on Kubernetes. *)
Definition shipNet (psk : string) : Network :=
  let n := Paths.demoNet in
  MkNetwork psk 1400 "10.9.0.0/24" None 0 0 "/var/log/dualnet" 0 0 (w_Protocols n)
    {["ir" := MkCond (Some (Config.MkIPSet "lists/ir/prefixes.txt" [] 60)) None None;
      "us" := MkCond (Some (Config.MkIPSet "lists/us/prefixes.txt" [] 60)) None None]}
    (<["A" := deployed (node n "A") sshDeploy]> (<["G1" := deployed (node n "G1") k8sDeploy]> (w_Nodes n)))
    (w_Links n)
    [MkPath "main" "A" [MkBranch ["ir"] "net" ["ab"; "bg1"] ["g1a"] ""; MkBranch ["us"] "net" ["ab"; "bg2"] ["g2a"] "";
                        MkBranch [] "net" ["ab"; "bg2"] ["g2a"] ""]]
    {["arm" := MkBuild "arm/v7" true; "amd" := MkBuild "amd64" false]}.

Definition shipOut (psk : string) : routes := match Compile (shipNet psk) with Ok out => out | Err _ => ∅ end.
Definition demoMarshal (cn : cfg) : option string := Some (Config.n_PSK cn +:+ Config.n_Subnet cn).
Definition shipPlan (psk : string) : Plan :=
  match BuildPlan demoMarshal (shipNet psk) (shipOut psk) "/src" "demo" with Ok p => p | Err _ => MkPlan "" "" "" [] [] [] [] [] end.

Lemma shipOut_ok psk : psk = "one" ∨ psk = "two" → Compile (shipNet psk) = Ok (shipOut psk).
Proof.
  intros H. assert (is_ok (Compile (shipNet psk)) = true) as Hok by (destruct H as [-> | ->]; vm_compute; reflexivity).
  unfold shipOut. by destruct (Compile (shipNet psk)).
Qed.

Lemma shipPlan_ok psk : psk = "one" ∨ psk = "two" → BuildPlan demoMarshal (shipNet psk) (shipOut psk) "/src" "demo" = Ok (shipPlan psk).
Proof.
  intros H. assert (is_ok (BuildPlan demoMarshal (shipNet psk) (shipOut psk) "/src" "demo") = true) as Hok by (destruct H as [-> | ->]; vm_compute; reflexivity).
  unfold shipPlan. by destruct (BuildPlan demoMarshal (shipNet psk) (shipOut psk) "/src" "demo").
Qed.

(** Two files of one name in different directories are copied to one path: the
    second overwrites the first, and both conditions then read the same set. *)
Example same_basename_overwritten :
  map fc_Local (pl_SSHFiles (shipPlan "one")) = ["lists/ir/prefixes.txt"; "lists/us/prefixes.txt"] ∧
  map fc_Remote (pl_SSHFiles (shipPlan "one")) = ["/etc/dualnet/prefixes.txt"; "/etc/dualnet/prefixes.txt"].
Proof. vm_compute. done. Qed.

Definition shippedSet : Config.IPSet := Config.MkIPSet "/etc/dualnet/prefixes.txt" [] 60.
Definition shippedCond : Config.Condition := Config.MkCondition "ir" (Some shippedSet) None None.

Lemma files_shipped_witness :
  ∃ spec local, w_Conditions (shipNet "one") !! "ir" = Some spec ∧ (cs_DstIn spec = Some local ∨ cs_SrcIn spec = Some local) ∧
    shippedSet = relocateSet (shipNet "one") "A" local ∧ MkFileCopy "A" (Config.s_File local) "/etc/dualnet/prefixes.txt" ∈ pl_SSHFiles (shipPlan "one").
Proof.
  assert (bool_decide (is_Some (shipOut "one" !! "A")) = true) as HA by (vm_compute; reflexivity). apply bool_decide_eq_true in HA as [cn Hcn].
  assert (match shipOut "one" !! "A" with Some cn => head (Config.n_Conditions cn) | None => None end = Some shippedCond) as Hd by (vm_compute; reflexivity).
  rewrite Hcn in Hd.
  apply (files_shipped demoMarshal (shipNet "one") (shipOut "one") "/src" "demo" (shipPlan "one") "A" sshDeploy cn shippedCond shippedSet).
  - apply shipOut_ok. by left.
  - apply shipPlan_ok. by left.
  - vm_compute. reflexivity.
  - reflexivity.
  - exact Hcn.
  - destruct (Config.n_Conditions cn); [done|]. injection Hd as ->. left.
  - by left.
  - discriminate.
Defined.

(** The schema as validation returns it, and its plan. *)
Definition shipValid : Network := match Schema.validate (shipNet "one") with Ok n => n | Err _ => shipNet "one" end.
Definition validPlan : Plan :=
  match BuildPlan demoMarshal shipValid (shipOut "one") "/src" "demo" with Ok p => p | Err _ => MkPlan "" "" "" [] [] [] [] [] end.

Lemma shipValid_ok : Schema.validate (shipNet "one") = Ok shipValid.
Proof.
  assert (is_ok (Schema.validate (shipNet "one")) = true) as H by (vm_compute; reflexivity). unfold shipValid. by destruct (Schema.validate (shipNet "one")).
Qed.

Lemma validPlan_ok : BuildPlan demoMarshal shipValid (shipOut "one") "/src" "demo" = Ok validPlan.
Proof.
  assert (is_ok (BuildPlan demoMarshal shipValid (shipOut "one") "/src" "demo") = true) as H by (vm_compute; reflexivity).
  unfold validPlan. by destruct (BuildPlan demoMarshal shipValid (shipOut "one") "/src" "demo").
Qed.

Lemma plan_builds_shipped_witness :
  (∀ sp, sp ∈ pl_SSHNodes validPlan → ∃ d g, nd_Deploy (node shipValid (sp_Node sp)) = Some d ∧ g ∈ pl_GoBuilds validPlan ∧
    gb_Name g = dp_Build d ∧ gb_Out g = sp_Bin sp) ∧ (length (pl_SSHNodes validPlan), length (pl_K8sNodes validPlan)) = (1, 1)%nat.
Proof.
  split; [|vm_compute; reflexivity].
  exact (proj1 (plan_builds_shipped demoMarshal (shipNet "one") shipValid (shipOut "one") "/src" "demo" validPlan shipValid_ok validPlan_ok)).
Defined.

Lemma artifacts_keyless_witness :
  BuildPlan demoMarshal (shipNet "one") (shipOut "one") "/src" "demo" = BuildPlan demoMarshal (shipNet "two") (shipOut "two") "/src" "demo" ∧
  shipNet "one" ≠ shipNet "two".
Proof.
  split; [|discriminate].
  refine (proj1 (artifacts_keyless demoMarshal (shipNet "one") (shipNet "two") (shipOut "one") (shipOut "two") "/src" "demo" (λ _ _, None) (λ _, None) "" _ _)).
  - repeat split; vm_compute; reflexivity.
  - vm_compute. reflexivity.
Defined.
