(* ===== verification/Warp.v ===== *)
(** * internal/warp: WARP accounts and devices

    The account: a cached or registered one, or a wgcf profile; its reserved
    bytes and endpoint.  The devices made from it: the userspace dialer's
    configuration text, the kernel device's configuration and its set-up over
    NetCfg.v's host, and the bind that stamps the reserved bytes.  Cloudflare's
    answer, key agreement, name resolution, WireGuard and the JSON of the cache
    file are arguments.  WarpFacts.v has the round trip with the simulator's
    profiles. *)

From S2P Require Import Prelude GoBytes GoStrings NetIp Config Http Factory NetText Node PrefixFile Release NetCfg.
Local Open Scope Z_scope.
Local Open Scope string_scope.
Local Open Scope go_scope.

Abbreviation scanLines := PrefixFile.scan.
Abbreviation octets := (list Z).

(** ** encoding/base64, standard alphabet: line breaks are skipped *)

Definition b64Value (c : ascii) : option N :=
  let v := N_of_ascii c in
  if ((65 <=? v) && (v <=? 90))%N then Some (v - 65)%N
  else if ((97 <=? v) && (v <=? 122))%N then Some (v - 71)%N
  else if ((48 <=? v) && (v <=? 57))%N then Some (v + 4)%N
  else if (v =? 43)%N then Some 62%N else if (v =? 47)%N then Some 63%N else None.

Definition b64Break (c : ascii) : bool := bool_decide (c = lf) || bool_decide (c = cr).
Definition pad : ascii := "="%char.

Fixpoint b64Quanta (l : list ascii) : option (list N) :=
  match l with
  | [] => Some []
  | a :: b :: c :: d :: rest =>
      x ← b64Value a; y ← b64Value b;
      match rest, bool_decide (c = pad), bool_decide (d = pad) with
      | [], true, true => Some [x * 4 + y / 16]%N
      | [], false, true => z ← b64Value c; Some [x * 4 + y / 16; y mod 16 * 16 + z / 4]%N
      | _, _, _ =>
          z ← b64Value c; t ← b64Value d; r ← b64Quanta rest;
          Some (x * 4 + y / 16 :: y mod 16 * 16 + z / 4 :: z mod 4 * 64 + t :: r)%N
      end
  | _ => None
  end.
Definition b64Decode (s : string) : option octets :=
  map Z.of_N <$> b64Quanta (base.filter (λ c, b64Break c = false) (chars s)).

Definition octetChar (z : Z) : ascii := ascii_of_nat (Z.to_nat z).
Definition b64Encode (l : octets) : string := base64Std (unchars (map octetChar l)).

Example b64_ex : b64Decode "3q0A" = Some [222; 173; 0] ∧ b64Decode "3q0=" = Some [222; 173] ∧ b64Decode "3q==" = Some [222] ∧
  b64Decode "3q" = None ∧ b64Decode "=q0A" = None ∧ b64Decode "3q==3q0A" = None ∧ b64Decode "" = Some [].
Proof. vm_compute. done. Qed.

(** ** warp.go *)

Definition defaultEndpoint : string := "engage.cloudflareclient.com:2408".

Record Account := MkAccount {
  ac_PrivateKey : string;
  ac_PublicKey : string;
  ac_PeerPublicKey : string;
  ac_EndpointHost : string;
  ac_EndpointV4 : string;
  ac_V4 : string;
  ac_V6 : string;
  ac_ClientID : string;
  ac_DeviceID : string;
  ac_Token : string;
  ac_License : string;
}.

Definition Reserved (a : Account) : octets :=
  match b64Decode (ac_ClientID a) with Some (x :: y :: z :: _) => [x; y; z] | _ => [0; 0; 0] end.

Definition endpoint (a : Account) : string :=
  if negb (ac_EndpointHost a =? "") then ac_EndpointHost a
  else if negb (ac_EndpointV4 a =? "") then ac_EndpointV4 a else defaultEndpoint.

(** What Cloudflare answers to a registration. *)
Record regPeer := MkRegPeer { rp_PublicKey : string; rp_V4 : string; rp_Host : string }.
Record registration := MkRegistration {
  rg_ID : string;
  rg_Token : string;
  rg_License : string;
  rg_ClientID : string;
  rg_Peers : list regPeer;
  rg_V4 : string;
  rg_V6 : string;
}.

Section register.
(** Random bytes, the Curve25519 public key of a scalar, the registration call
    (status and body), the JSON parsers and printer, and which files can be
    written. *)
Context (rand : option octets) (X25519 : octets → option octets).
Context (post : bool → string → option (Z * string)) (parseReg : string → option registration).
Context (marshal : Account → string) (unmarshal : string → option Account) (writable : string → bool).

Definition clampKey (p : octets) : octets :=
  let p := <[0%nat := Z.land (nth 0 p 0) 248]> p in
  let p := <[31%nat := Z.land (nth 31 p 0) 127]> p in
  <[31%nat := Z.lor (nth 31 p 0) 64]> p.

Definition genKeyPair : option (string * string) :=
  p ← rand; pub ← X25519 (clampKey p); Some (b64Encode (clampKey p), b64Encode pub).

Definition Register (insecure : bool) : vres Account :=
  match genKeyPair with
  | None => Err "key pair"
  | Some (priv, pub) =>
      match post insecure pub with
      | None => Err "registration request"
      | Some (status, body) =>
          if negb (status =? 200)%Z then Err "registration failed"
          else match parseReg body with
            | None => Err "parse registration"
            | Some r => match rg_Peers r with
                | [] => Err "registration returned no peers"
                | p :: _ => Ok (MkAccount priv pub (rp_PublicKey p) (rp_Host p) (rp_V4 p) (rg_V4 r) (rg_V6 r) (rg_ClientID r)
                    (rg_ID r) (rg_Token r) (rg_License r))
                end
            end
      end
  end.

Definition cached (cachePath : string) (fs : gmap string string) : option Account :=
  if cachePath =? "" then None
  else
    b ← fs !! cachePath; a ← unmarshal b;
    if negb (ac_PrivateKey a =? "") && negb (ac_V4 a =? "") then Some a else None.

Definition LoadOrRegister (cachePath : string) (insecure : bool) (fs : gmap string string) : vres Account * gmap string string :=
  match cached cachePath fs with
  | Some a => (Ok a, fs)
  | None =>
      match Register insecure with
      | Err e => (Err e, fs)
      | Ok a => (Ok a, if negb (cachePath =? "") && writable cachePath then <[cachePath := marshal a]> fs else fs)
      end
  end.

(** *** Profiles *)

Definition lowerChar (c : ascii) : ascii :=
  let v := N_of_ascii c in if ((65 <=? v) && (v <=? 90))%N then ascii_of_N (v + 32)%N else c.
Definition toLower (s : string) : string := unchars (map lowerChar (chars s)).

(** [fmt.Sscanf(s, "%d", &n)]: a sign and the digits that follow. *)
Fixpoint leadingDigits (l : list ascii) : list ascii :=
  match l with c :: l' => match digitOf c with Some _ => c :: leadingDigits l' | None => [] end | [] => [] end.
Definition scanInt (s : string) : option Z :=
  match chars s with
  | c :: l => if bool_decide (c = "-"%char) || bool_decide (c = "+"%char)
              then atoi (unchars (c :: leadingDigits l)) else atoi (unchars (leadingDigits (c :: l)))
  | [] => None
  end.

Definition splitCommas (v : string) : list string := map unchars (splitOn ","%char (chars v)).
Definition hasChar (c : ascii) (s : string) : bool := bool_decide (c ∈ chars s).

Definition parseReservedToClientID (v : string) : string :=
  if hasChar ","%char v
  then b64Encode (omap (λ p, (λ n, n `mod` 256)%Z <$> scanInt (trimmed p)) (splitCommas v))
  else v.

(** The fields a profile sets. *)
Record profile := MkProfile { pf_Private : string; pf_Peer : string; pf_Endpoint : string; pf_V4 : string; pf_V6 : string; pf_ClientID : string }.

Definition addAddress (a : profile) (part : string) : profile :=
  let ip := (cut "/"%char (trimmed part)).1.1 in
  if hasChar ":"%char ip then MkProfile (pf_Private a) (pf_Peer a) (pf_Endpoint a) (pf_V4 a) ip (pf_ClientID a)
  else if negb (ip =? "") then MkProfile (pf_Private a) (pf_Peer a) (pf_Endpoint a) ip (pf_V6 a) (pf_ClientID a)
  else a.

Definition profileField (a : profile) (k v : string) : profile :=
  if k =? "privatekey" then MkProfile v (pf_Peer a) (pf_Endpoint a) (pf_V4 a) (pf_V6 a) (pf_ClientID a)
  else if k =? "publickey" then MkProfile (pf_Private a) v (pf_Endpoint a) (pf_V4 a) (pf_V6 a) (pf_ClientID a)
  else if k =? "endpoint" then MkProfile (pf_Private a) (pf_Peer a) v (pf_V4 a) (pf_V6 a) (pf_ClientID a)
  else if k =? "address" then fold_left addAddress (splitCommas v) a
  else if k =? "reserved" then MkProfile (pf_Private a) (pf_Peer a) (pf_Endpoint a) (pf_V4 a) (pf_V6 a) (parseReservedToClientID v)
  else a.

Definition profileLine (a : profile) (l : list ascii) : profile :=
  let line := trimSpace l in
  match line with
  | [] => a
  | c :: _ =>
      if bool_decide (c = "#"%char) || bool_decide (c = "["%char) then a
      else
        let '(k, v, ok) := cut "="%char (unchars line) in
        if ok : bool then profileField a (toLower (trimmed k)) (trimmed v) else a
  end.

Definition profileOf (data : string) : profile :=
  fold_left profileLine (scanLines (splitOn lf (chars data))).1 (MkProfile "" "" "" "" "" "").

Definition LoadConfig (file : option string) : vres Account :=
  match file with
  | None => Err "open"
  | Some data =>
      let a := profileOf data in
      if (pf_Private a =? "") || (pf_Peer a =? "") || (pf_V4 a =? "") then Err "missing PrivateKey/PublicKey/Address"
      else Ok (MkAccount (pf_Private a) "" (pf_Peer a) (if pf_Endpoint a =? "" then defaultEndpoint else pf_Endpoint a) ""
             (pf_V4 a) (pf_V6 a) (pf_ClientID a) "" "" "")
  end.

Definition Credentials (configPath cachePath : string) (insecure : bool) (fs : gmap string string) : vres Account * gmap string string :=
  if negb (configPath =? "") then (LoadConfig (fs !! configPath), fs) else LoadOrRegister cachePath insecure fs.
End register.

Definition b64ToHex (s : string) : option (list Z) := hexEncode <$> b64Decode s.

(** ** Endpoints *)

Record UDPAddr := MkUDPAddr { ua_IP : option netipAddr; ua_Port : Z }.

(** [strconv.ParseUint(s, 10, 16)] *)
Definition parsePort (l : list ascii) : option Z :=
  match l with [] => None | _ => match digitsVal 0 l with Some v => if (v <? 65536)%Z then Some v else None | None => None end end.

(** [netip.ParseAddrPort]: an IPv6 address in brackets, an IPv4 one without. *)
Definition ParseAddrPort (s : string) : option (netipAddr * Z) :=
  let l := chars s in
  i ← lastIndexChar ":"%char l;
  let ip := take i l in
  port ← parsePort (drop (S i) l);
  match ip with
  | [] => None
  | c :: _ =>
      if bool_decide (c = "["%char) then
        if (length ip <? 2)%nat || negb (bool_decide (last ip = Some "]"%char)) then None
        else match ParseAddr (unchars (take (length ip - 2) (drop 1 ip))) with Some (V6 b z) => Some (V6 b z, port) | _ => None end
      else match ParseAddr (unchars ip) with Some (V4 b) => Some (V4 b, port) | _ => None end
  end.

Example ParseAddrPort_ex : ParseAddrPort "192.0.2.1:2408" = Some (V4 [192; 0; 2; 1], 2408) ∧ ParseAddrPort "[::1]:80" = Some (V6 (replicate 15 0 ++ [1]) [], 80) ∧
  ParseAddrPort "::1:80" = None ∧ ParseAddrPort "[192.0.2.1]:80" = None ∧ ParseAddrPort "192.0.2.1:65536" = None ∧ ParseAddrPort "host:1" = None ∧
  ParseAddrPort "192.0.2.1:" = None ∧ ParseAddrPort ":1" = None.
Proof. vm_compute. done. Qed.

(** [net.UDPAddr.String]: a mapped address prints as the IPv4 it holds. *)
Definition udpString (a : UDPAddr) : string :=
  match ua_IP a with
  | None => ":" +:+ Itoa (ua_Port a)
  | Some ip => match unmapAddr ip with
      | V4 b => addrString (V4 b) +:+ ":" +:+ Itoa (ua_Port a)
      | V6 b z => "[" +:+ addrString (V6 b z) +:+ "]:" +:+ Itoa (ua_Port a)
      end
  end.

(** [IP.To4() != nil] *)
Definition isIPv4 (ip : option netipAddr) : bool :=
  match unmapAddr <$> ip with Some (V4 _) => true | _ => false end.

Definition MTU : Z := 1280.
Definition keepaliveSeconds : Z := 25.
Definition deviceMTU (requested : Z) : Z := if (requested <=? 0)%Z || (MTU <? requested)%Z then MTU else requested.

(** The configuration of a kernel device: its key, and its one peer. *)
Record wgConfig := MkWgConfig { wg_PrivateKey : octets; wg_PeerKey : octets; wg_Endpoint : UDPAddr; wg_Keepalive : Z; wg_AllowedIPs : list string; wg_Replace : bool }.

Section device.
(** Name resolution, and wgtypes' parser of keys. *)
Context (ResolveUDPAddr : string → option UDPAddr) (ParseKey : string → option octets).

Definition resolveEndpoint (hostPort : string) : option UDPAddr :=
  match ParseAddrPort hostPort with Some (a, p) => Some (MkUDPAddr (Some a) p) | None => ResolveUDPAddr hostPort end.

Definition DeviceConfig (a : Account) : option wgConfig :=
  priv ← ParseKey (ac_PrivateKey a);
  peer ← ParseKey (ac_PeerPublicKey a);
  ep ← resolveEndpoint (endpoint a);
  ep ← (if negb (isIPv4 (ua_IP ep)) && negb (ac_EndpointV4 a =? "") then resolveEndpoint (ac_EndpointV4 a) else Some ep);
  Some (MkWgConfig priv peer ep keepaliveSeconds ["0.0.0.0/0"] true).

(** *** The userspace dialer: the calls it makes, in order *)

Inductive dialCall :=
| CreateNetTUN (addrs : list netipAddr) (mtu : Z)
| NewDevice (reserved : octets)
| IpcSet (uapi : string)
| DeviceUp
| CloseDevice.

Definition nl : string := String lf "".
Definition uapiText (privHex peerHex : list Z) (ep : UDPAddr) : string :=
  "private_key=" +:+ unchars (map octetChar privHex) +:+ nl +:+ "public_key=" +:+ unchars (map octetChar peerHex) +:+ nl +:+
  "endpoint=" +:+ udpString ep +:+ nl +:+ "persistent_keepalive_interval=" +:+ Itoa keepaliveSeconds +:+ nl +:+
  "allowed_ip=0.0.0.0/0" +:+ nl +:+ "allowed_ip=::/0" +:+ nl.

(** Which calls succeed. *)
Context (callOk : dialCall → bool).

Definition NewDialer (a : Account) : bool * list dialCall :=
  match ParseAddr (ac_V4 a) with
  | None => (false, [])
  | Some v4 =>
      let addrs := v4 :: (if ac_V6 a =? "" then [] else match ParseAddr (ac_V6 a) with Some v6 => [v6] | None => [] end) in
      let create := CreateNetTUN addrs MTU in
      if negb (callOk create) then (false, [create])
      else
        let calls := [create; NewDevice (Reserved a)] in
        match b64ToHex (ac_PrivateKey a), b64ToHex (ac_PeerPublicKey a), resolveEndpoint (endpoint a) with
        | Some priv, Some peer, Some ep =>
            let ipc := IpcSet (uapiText priv peer ep) in
            if negb (callOk ipc) then (false, calls ++ [ipc; CloseDevice])
            else if negb (callOk DeviceUp) then (false, calls ++ [ipc; DeviceUp; CloseDevice])
            else (true, calls ++ [ipc; DeviceUp])
        | _, _, _ => (false, calls ++ [CloseDevice])
        end
  end%list.

(** *** The kernel device, over the host *)

Context {K : Type} `{HK : Host K}.
(** wgctrl's client: opening it, and programming a device. *)
Context (wgctrlNew : bool) (configureDevice : string → wgConfig → K → bool * K).
Abbreviation world := (world (K := K)).

Definition program (name : string) (cfg : wgConfig) (w : world) : bool * world :=
  let '(ok, k) := configureDevice name cfg (w_k w) in (ok, MkWorld k (w_wait w)).

(** The endpoint and the teardown chain, [None] on an error. *)
Definition SetupKernelDevice (name : string) (a : Account) (mtu : Z) (w : world) : option (netipAddr * chain) * world :=
  match DeviceConfig a, ParseAddr (ac_V4 a) with
  | Some cfg, Some v4 =>
      match EnsureWireGuardLink name w with
      | (None, w) => (None, w)
      | (Some linkTd, w) =>
          let fail (w : world) := (None, (teardown linkTd w).2) in
          if negb wgctrlNew then fail w
          else
            let '(ok, w) := program name cfg w in
            if negb ok then fail w
            else match ConfigureTun (MkTunSetup name (Some v4) None 32 (deviceMTU mtu)) w with
              | (None, w) => fail w
              | (Some _, w) =>
                  match ua_IP (wg_Endpoint cfg) with
                  | None => fail w
                  | Some ip => (Some (unmapAddr ip, linkTd), w)
                  end
              end
      end
  | _, _ => (None, w)
  end.
End device.

(** ** bind.go: the reserved bytes *)

Definition stamp (r : octets) (p : octets) : octets :=
  if (4 <=? length p)%nat then <[3%nat := nth 2 r 0]> (<[2%nat := nth 1 r 0]> (<[1%nat := nth 0 r 0]> p)) else p.

(** What [Send] hands to the inner bind. *)
Definition bindSend (reserved : octets) (bufs : list octets) : list octets :=
  if bool_decide (reserved = [0; 0; 0]) then bufs else map (stamp reserved) bufs.

(** What a wrapped receive function makes of the first [n] packets; [sizes] are
    the lengths received into the buffers. *)
Fixpoint bindReceive (n : nat) (sizes : list Z) (packets : list octets) : list octets :=
  match n, sizes, packets with
  | S n', s :: sizes', p :: packets' => (if (4 <=? s)%Z then <[3%nat := 0]> (<[2%nat := 0]> (<[1%nat := 0]> p)) else p) :: bindReceive n' sizes' packets'
  | _, _, _ => packets
  end.

(** ** Lemmas: base64 *)

Definition octet (z : Z) : Prop := (0 <= z < 256)%Z.

Lemma octetChar_val z : octet z → N_of_ascii (octetChar z) = Z.to_N z.
Proof. intros Hz. unfold octetChar, ascii_of_nat. rewrite Ascii.N_ascii_embedding; unfold octet in *; lia. Qed.

Lemma b64Value_char d : (d < 64)%N → b64Value (b64Char d) = Some d.
Proof.
  intros H. assert (Forall (λ n, b64Value (b64Char (N.of_nat n)) = Some (N.of_nat n)) (seq 0 64)) as Ha.
  { repeat (constructor; [vm_compute; reflexivity|]). constructor. }
  rewrite Forall_forall in Ha. specialize (Ha (N.to_nat d)). rewrite N2Nat.id in Ha. apply Ha, elem_of_seq. lia.
Qed.

Lemma b64Char_plain d : (d < 64)%N → b64Break (b64Char d) = false ∧ bool_decide (b64Char d = pad) = false.
Proof.
  intros H. assert (Forall (λ n, b64Break (b64Char (N.of_nat n)) = false ∧ bool_decide (b64Char (N.of_nat n) = pad) = false) (seq 0 64)) as Ha.
  { repeat (constructor; [vm_compute; split; reflexivity|]). constructor. }
  rewrite Forall_forall in Ha. specialize (Ha (N.to_nat d)). rewrite N2Nat.id in Ha. apply Ha, elem_of_seq. lia.
Qed.

Local Ltac divlia := zify; Z.to_euclidean_division_equations; lia.

Lemma b64Char_pad d : (d < 64)%N → bool_decide (b64Char d = pad) = false.
Proof. apply b64Char_plain. Qed.

(** Induction by three elements. *)
Lemma list_ind3 {A} (P : list A → Prop) : P [] → (∀ a, P [a]) → (∀ a b, P [a; b]) → (∀ a b c l, P l → P (a :: b :: c :: l)) → ∀ l, P l.
Proof.
  intros H0 H1 H2 H3. fix IH 1. intros [|a [|b [|c l]]]; [exact H0|exact (H1 a)|exact (H2 a b)|]. exact (H3 a b c l (IH l)).
Qed.

Lemma base64_plain l : Forall (λ c, b64Break c = false) (base64 l).
Proof.
  induction l as [|a|a b|a b c l IH] using list_ind3; [constructor| | |].
  all: cbn [base64]; pose proof (Ascii.N_ascii_bounded a); try pose proof (Ascii.N_ascii_bounded b); try pose proof (Ascii.N_ascii_bounded c).
  all: repeat (constructor; [first [done|apply b64Char_plain; divlia]|]); first [exact IH|constructor].
Qed.

Lemma b64Quanta_base64 l : b64Quanta (base64 l) = Some (map N_of_ascii l).
Proof.
  induction l as [|a|a b|a b c l IH] using list_ind3; [done| | |].
  all: cbn [base64 b64Quanta map]; pose proof (Ascii.N_ascii_bounded a); try pose proof (Ascii.N_ascii_bounded b); try pose proof (Ascii.N_ascii_bounded c).
  all: repeat first [rewrite b64Value_char by (divlia)|rewrite b64Char_pad by divlia|rewrite IH].
  all: change (bool_decide ("="%char = pad)) with true; cbn [mbind option_bind]; try destruct (base64 l).
  all: repeat f_equal; divlia.
Qed.

Lemma filter_all {A} (P : A → Prop) `{∀ x, Decision (P x)} (l : list A) : Forall P l → base.filter P l = l.
Proof. induction 1 as [|x l Hx _ IH]; [done|]. by rewrite filter_cons_True, IH. Qed.

Lemma b64_roundtrip l : Forall octet l → b64Decode (b64Encode l) = Some l.
Proof.
  intros Hl. unfold b64Decode, b64Encode, base64Std. rewrite !chars_unchars, filter_all by apply base64_plain.
  rewrite b64Quanta_base64. cbn. f_equal. induction Hl as [|z l Hz _ IH]; [done|]. cbn. rewrite octetChar_val, IH by done. f_equal. unfold octet in Hz. lia.
Qed.

(** ** Lemmas: the kernel device *)

Section link_facts.
Context {K : Type} `{HK : Host K} `{HL : !HostLaws K}.
Abbreviation world := (world (K := K)).

Definition linkKey (name : string) : argv := ["ip"; "link"; "del"; "dev"; name].
Definition addrKey (name : string) (v4 : netipAddr) : argv :=
  ["ip"; "addr"; "del"; (addrString v4 +:+ "/" +:+ Itoa 32); "dev"; name].

(** Nothing that does not name the device has changed. *)
Definition elsewhere (name : string) (k k' : K) : Prop :=
  (∀ x, name ∉ x → installed k' x = installed k x) ∧ sameRoutes (viewOf k) (viewOf k') ∧ forwarding k' = forwarding k.

#[global] Instance elsewhere_pre name : PreOrder (elsewhere name).
Proof.
  split; [by intros k|]. intros k1 k2 k3 (H1 & H2 & H3) (G1 & G2 & G3).
  split; [intros x Hx; by rewrite G1, H1|]. split; [intros t; by rewrite G2, H2|congruence].
Qed.

Lemma same_elsewhere name k k' : same k k' → elsewhere name k k'.
Proof. intros [H1 H2 H3]. split; [intros x _; apply H1|done]. Qed.

Lemma linkDel_law name (w : world) : let w' := (run (linkKey name) w).2 in
  elsewhere name (w_k w) (w_k w') ∧ installed (w_k w') (linkKey name) = pred (installed (w_k w) (linkKey name)).
Proof.
  cbn zeta. destruct (run_law (linkKey name) w) as [Hf H]. replace (changeOf _) with (Deletes (linkKey name)) in H by reflexivity.
  destruct H as (Hr & Hd & Ho). split; [|exact Hd]. split; [|done]. intros x Hx.
  destruct (Ho x) as [E|(_ & (dev & Hl & Hin) & _)]; [intros ->; apply Hx; unfold linkKey; set_solver|exact E|].
  cbn in Hl. injection Hl as <-. done.
Qed.

(** An addition of an object that names the device. *)
Lemma adds_elsewhere a key name (w : world) : changeOf a = Adds key → name ∈ key →
  elsewhere name (w_k w) (w_k (run a w).2) ∧
  ∀ x, installed (w_k (run a w).2) x = if (run a w).1 && bool_decide (x = key) then S (installed (w_k w) x) else installed (w_k w) x.
Proof.
  intros Hc Hn. destruct (run_law a w) as [Hf H]. rewrite Hc in H. destruct H as [Hr Ho]. split; [|exact Ho]. split; [|done].
  intros x Hx. specialize (Ho x). cbn in Ho. rewrite Ho. rewrite (bool_decide_false (x = key)), andb_false_r; [done|]. by intros ->.
Qed.

Lemma linkAdd_change name : changeOf ["ip"; "link"; "add"; "dev"; name; "type"; "wireguard"] = Adds (linkKey name).
Proof. reflexivity. Qed.

(** The link is (re)created once, whatever a crash leaked. *)
Lemma EnsureWireGuardLink_law name (w : world) : (installed (w_k w) (linkKey name) ≤ 1)%nat →
  match EnsureWireGuardLink name w with
  | (Some td, w') => td = [UndoRun (linkKey name)] ∧ elsewhere name (w_k w) (w_k w') ∧ installed (w_k w') (linkKey name) = 1%nat
  | (None, w') => elsewhere name (w_k w) (w_k w') ∧ installed (w_k w') (linkKey name) = 0%nat
  end.
Proof.
  intros H1. unfold EnsureWireGuardLink. fold (linkKey name).
  pose proof (run_neutral ["modprobe"; "wireguard"] w eq_refl) as Hm. set (w0 := (run ["modprobe"; "wireguard"] w).2) in *.
  pose proof (linkDel_law name w0) as [E1 D1]. set (w1 := (run (linkKey name) w0).2) in *.
  assert (installed (w_k w0) (linkKey name) = installed (w_k w) (linkKey name)) as H0 by (destruct Hm as [Hm _ _]; exact (Hm _)).
  assert (elsewhere name (w_k w) (w_k w1)) as E01 by (transitivity (w_k w0); [by apply same_elsewhere|done]).
  destruct (adds_elsewhere _ _ name w1 (linkAdd_change name) ltac:(unfold linkKey; set_solver)) as [E2 O2].
  destruct (run _ w1) as [[] w2]; cbn [fst snd] in *; rewrite O2; cbn [andb].
  - split; [done|]. split; [by transitivity (w_k w1)|]. rewrite bool_decide_true by done. lia.
  - split; [by transitivity (w_k w1)|lia].
Qed.

Lemma ConfigureTun_law name v4 mtu (w : world) :
  let '(r, w') := ConfigureTun (MkTunSetup name (Some v4) None 32 mtu) w in
  elsewhere name (w_k w) (w_k w') ∧ installed (w_k w') (linkKey name) = installed (w_k w) (linkKey name) ∧
  (r ≠ None → installed (w_k w') (addrKey name v4) = S (installed (w_k w) (addrKey name v4))).
Proof.
  unfold ConfigureTun. cbn [ts_Local ts_Name ts_Bits ts_MTU].
  destruct (adds_elsewhere ["ip"; "addr"; "add"; (addrString v4 +:+ "/" +:+ Itoa 32); "dev"; name] (addrKey name v4) name w eq_refl ltac:(unfold addrKey; set_solver)) as [E1 O1].
  destruct (run _ w) as [[] w1]; cbn [fst snd] in *.
  - pose proof (run_neutral ["ip"; "link"; "set"; name; "mtu"; Itoa mtu; "up"] w1 eq_refl) as Hs. destruct (run _ w1) as [ok w2]. cbn [snd] in Hs.
    split; [transitivity (w_k w1); [done|by apply same_elsewhere]|]. destruct Hs as [So _ _]. pose proof (So (linkKey name)) as S1. pose proof (So (addrKey name v4)) as S2.
    cbn in S1, S2. split; [rewrite S1, O1; by rewrite bool_decide_false|]. intros _. rewrite S2, O1. by rewrite bool_decide_true.
  - split; [done|]. split; [by rewrite O1|done].
Qed.

Lemma linkTeardown name (w : world) :
  elsewhere name (w_k w) (w_k (teardown [UndoRun (linkKey name)] w).2) ∧
  installed (w_k (teardown [UndoRun (linkKey name)] w).2) (linkKey name) = pred (installed (w_k w) (linkKey name)).
Proof. rewrite teardown_one. apply linkDel_law. Qed.

End link_facts.

Section device_facts.
Context (ResolveUDPAddr : string → option UDPAddr) (ParseKey : string → option octets).
Context {K : Type} `{HK : Host K} `{HL : !HostLaws K}.
Context (wgctrlNew : bool) (configureDevice : string → wgConfig → K → bool * K).
Abbreviation world := (world (K := K)).

(** Programming a device changes no route, address or link. *)
Hypothesis configure_same : ∀ name cfg k, same k (configureDevice name cfg k).2.

Lemma program_same name cfg (w : world) : same (w_k w) (w_k (program configureDevice name cfg w).2).
Proof. unfold program. pose proof (configure_same name cfg (w_k w)) as H. by destruct (configureDevice name cfg (w_k w)). Qed.

Lemma SetupKernelDevice_law name a mtu (w : world) : (installed (w_k w) (linkKey name) ≤ 1)%nat →
  match SetupKernelDevice ResolveUDPAddr ParseKey wgctrlNew configureDevice name a mtu w with
  | (Some (ep, td), w') => td = [UndoRun (linkKey name)] ∧
      elsewhere name (w_k w) (w_k w') ∧ installed (w_k w') (linkKey name) = 1%nat ∧
      (∃ v4, ParseAddr (ac_V4 a) = Some v4 ∧ (0 < installed (w_k w') (addrKey name v4))%nat) ∧
      (∃ cfg ip, DeviceConfig ResolveUDPAddr ParseKey a = Some cfg ∧ ua_IP (wg_Endpoint cfg) = Some ip ∧ ep = unmapAddr ip) ∧
      elsewhere name (w_k w) (w_k (teardown td w').2) ∧ installed (w_k (teardown td w').2) (linkKey name) = 0%nat
  | (None, w') => elsewhere name (w_k w) (w_k w') ∧
      (DeviceConfig ResolveUDPAddr ParseKey a = None ∨ ParseAddr (ac_V4 a) = None ∨ installed (w_k w') (linkKey name) = 0%nat)
  end.
Proof.
  intros H1. unfold SetupKernelDevice. destruct (DeviceConfig _ _ a) as [cfg|] eqn:Hc; [|by split; [|left]].
  destruct (ParseAddr (ac_V4 a)) as [v4|] eqn:Hv; [|by split; [|right; left]].
  pose proof (EnsureWireGuardLink_law name w H1) as He. destruct (EnsureWireGuardLink name w) as [[td|] w1].
  2: { destruct He as [E L]. split; [done|]. by right; right. }
  destruct He as (-> & E1 & L1).
  assert (∀ w2 : world, elsewhere name (w_k w) (w_k w2) → installed (w_k w2) (linkKey name) = 1%nat →
    elsewhere name (w_k w) (w_k (teardown [UndoRun (linkKey name)] w2).2) ∧ installed (w_k (teardown [UndoRun (linkKey name)] w2).2) (linkKey name) = 0%nat) as Hfail.
  { intros w2 E2 L2. destruct (linkTeardown name w2) as [E3 L3]. split; [by transitivity (w_k w2)|lia]. }
  assert (∀ w2 : world, elsewhere name (w_k w) (w_k w2) → installed (w_k w2) (linkKey name) = 1%nat →
    elsewhere name (w_k w) (w_k (teardown [UndoRun (linkKey name)] w2).2) ∧
    (Some cfg = None ∨ Some v4 = None ∨ installed (w_k (teardown [UndoRun (linkKey name)] w2).2) (linkKey name) = 0%nat)) as Hfail'.
  { intros w2 E2 L2. destruct (Hfail w2 E2 L2). auto. }
  destruct wgctrlNew; cbn [negb]; [|by apply Hfail'].
  pose proof (program_same name cfg w1) as Hp. destruct (program configureDevice name cfg w1) as [ok w2]. cbn [snd] in Hp.
  assert (elsewhere name (w_k w) (w_k w2)) as E2 by (transitivity (w_k w1); [done|by apply same_elsewhere]).
  assert (installed (w_k w2) (linkKey name) = 1%nat) as L2 by (rewrite <- L1; destruct Hp as [Hp _ _]; exact (Hp _)).
  destruct ok; cbn [negb]; [|by apply Hfail'].
  pose proof (ConfigureTun_law name v4 (deviceMTU mtu) w2) as Ht. destruct (ConfigureTun _ w2) as [[c|] w3]; destruct Ht as (E3 & L3 & A3).
  2: apply Hfail'; [by transitivity (w_k w2)|congruence].
  assert (elsewhere name (w_k w) (w_k w3)) as E13 by by transitivity (w_k w2). rewrite L2 in L3.
  destruct (ua_IP (wg_Endpoint cfg)) as [ip|] eqn:Hip; [|by apply Hfail'].
  split; [done|]. split; [done|]. split; [done|]. split; [exists v4; split; [done|]; rewrite A3 by done; lia|]. split; [by exists cfg, ip|]. by apply Hfail.
Qed.

(** A set-up that fails adds no link. *)
Lemma SetupKernelDevice_none name a mtu (w w' : world) : (installed (w_k w) (linkKey name) ≤ 1)%nat →
  SetupKernelDevice ResolveUDPAddr ParseKey wgctrlNew configureDevice name a mtu w = (None, w') →
  elsewhere name (w_k w) (w_k w') ∧ (installed (w_k w') (linkKey name) ≤ installed (w_k w) (linkKey name))%nat.
Proof.
  intros H1 E. pose proof (SetupKernelDevice_law name a mtu w H1) as H. rewrite E in H. destruct H as (He & H). split; [done|].
  destruct H as [Hc|[Hv|Hz]]; [| |lia]; unfold SetupKernelDevice in E.
  - rewrite Hc in E. by injection E as <-.
  - rewrite Hv in E. destruct (DeviceConfig _ _ a); by injection E as <-.
Qed.

(** ** Theorems *)

(** Setting up a kernel WARP device leaves, where it succeeds, exactly one link of
    the name with the account's address on it, whatever a crash leaked, and
    returns the chain that deletes it; where it fails, at whatever step once the
    account is usable, no link of the name is left.  Nothing that does not name
    the device is touched, neither by the set-up nor by the teardown. *)
Theorem kernel_device_exact name a mtu (w : world) : (installed (w_k w) (linkKey name) ≤ 1)%nat →
  match SetupKernelDevice ResolveUDPAddr ParseKey wgctrlNew configureDevice name a mtu w with
  | (Some (ep, td), w') =>
      elsewhere name (w_k w) (w_k w') ∧ installed (w_k w') (linkKey name) = 1%nat ∧
      (∃ v4, ParseAddr (ac_V4 a) = Some v4 ∧ (0 < installed (w_k w') (addrKey name v4))%nat) ∧
      (∃ cfg ip, DeviceConfig ResolveUDPAddr ParseKey a = Some cfg ∧ ua_IP (wg_Endpoint cfg) = Some ip ∧ ep = unmapAddr ip) ∧
      elsewhere name (w_k w) (w_k (teardown td w').2) ∧ installed (w_k (teardown td w').2) (linkKey name) = 0%nat
  | (None, w') => elsewhere name (w_k w) (w_k w') ∧
      (DeviceConfig ResolveUDPAddr ParseKey a = None ∨ ParseAddr (ac_V4 a) = None ∨ installed (w_k w') (linkKey name) = 0%nat)
  end.
Proof.
  intros H1. pose proof (SetupKernelDevice_law name a mtu w H1) as H. destruct (SetupKernelDevice _ _ _ _ name a mtu w) as [[[ep td]|] w']; [by destruct H|done].
Qed.
End device_facts.

(** Reserved bytes given as decimals in a profile are the ones stamped. *)
Lemma reserved_decimals x y z : octet x → octet y → octet z →
  Reserved (MkAccount "" "" "" "" "" "" "" (b64Encode [x; y; z]) "" "" "") = [x; y; z].
Proof. intros Hx Hy Hz. unfold Reserved. cbn [ac_ClientID]. rewrite b64_roundtrip; [done|]. by rewrite !Forall_cons. Qed.

Example parseReserved_ex : parseReservedToClientID "16, 32,300x" = b64Encode [16; 32; 44] ∧ parseReservedToClientID "EC+x" = "EC+x".
Proof. vm_compute. done. Qed.

(** The bind stamps the account's bytes on every packet it sends and clears them
    on every packet it receives, so that two WireGuard devices, which leave them
    zero, exchange their packets unchanged. *)
Theorem bind_transparent reserved bufs :
  length reserved = 3%nat → Forall (λ p : octets, (4 ≤ length p)%nat ∧ nth 1 p 1 = 0 ∧ nth 2 p 1 = 0 ∧ nth 3 p 1 = 0) bufs →
  Forall (λ p, take 3 (drop 1 p) = reserved) (bindSend reserved bufs) ∧
  bindReceive (length bufs) (map zlen (bindSend reserved bufs)) (bindSend reserved bufs) = bufs.
Proof.
  intros Hr Hb. destruct reserved as [|r1 [|r2 [|r3 [|]]]]; try discriminate Hr. unfold bindSend.
  assert (∀ p : octets, (4 ≤ length p)%nat → ∃ a b c d l, p = a :: b :: c :: d :: l) as Hp.
  { intros [|a [|b [|c [|d l]]]] H; cbn in H; try lia. by exists a, b, c, d, l. }
  case_bool_decide as H0; [injection H0 as -> -> ->|].
  - induction Hb as [|p bufs (Hl & H1 & H2 & H3) _ [IH1 IH2]]; [done|]. destruct (Hp p Hl) as (a & b & c & d & l & ->). cbn in H1, H2, H3. subst.
    split; [by constructor|]. cbn [map length bindReceive]. rewrite IH2. case_match; done.
  - clear H0. induction Hb as [|p bufs (Hl & H1 & H2 & H3) _ [IH1 IH2]]; [done|]. destruct (Hp p Hl) as (a & b & c & d & l & ->). cbn in H1, H2, H3. subst.
    split; [by constructor|]. cbn [map length bindReceive]. rewrite IH2. unfold stamp. cbn [length Nat.leb nth]. f_equal.
    destruct (4 <=? _)%Z eqn:E; [done|]. apply Z.leb_gt in E. unfold zlen in E. cbn in E. lia.
Qed.

Section cache.
Context (rand : option octets) (X25519 : octets → option octets) (post : bool → string → option (Z * string)).
Context (parseReg : string → option registration) (marshal : Account → string) (unmarshal : string → option Account) (writable : string → bool).

(** A registered account with an address, cached in a file that can be written
    and reads back as the account, is used ever after: a second start makes no registration call, whatever the
    network or the random source then do. *)
Theorem account_cached path insecure fs a fs' rand' X25519' post' parseReg' insecure' :
  path ≠ "" → writable path = true → unmarshal (marshal a) = Some a →
  LoadOrRegister rand X25519 post parseReg marshal unmarshal writable path insecure fs = (Ok a, fs') →
  ac_PrivateKey a ≠ "" → ac_V4 a ≠ "" →
  LoadOrRegister rand' X25519' post' parseReg' marshal unmarshal writable path insecure' fs' = (Ok a, fs').
Proof.
  intros Hp Hw Hm H Hk Hv. apply String.eqb_neq in Hp as Hp'. apply String.eqb_neq in Hk, Hv.
  assert (cached unmarshal path fs' = Some a) as Hc; [|by unfold LoadOrRegister; rewrite Hc].
  unfold LoadOrRegister in H. destruct (cached unmarshal path fs) as [a0|] eqn:Hc0; [by injection H as -> ->|].
  destruct (Register _ _ _ _ insecure) as [a0|e]; [|discriminate H]. rewrite Hp', Hw in H. injection H as -> <-.
  unfold cached. rewrite Hp', lookup_insert_eq. cbn [mbind option_bind]. rewrite Hm. cbn [mbind option_bind]. by rewrite Hk, Hv.
Qed.
End cache.

(** ** Witnesses *)

Definition demoAccount : Account := MkAccount "priv" "" "peer" "192.0.2.7:2408" "" "172.16.0.2" "" "" "" "" "".

Lemma kernel_device_exact_witness :
  let b := MkBox [linkKey "warp-a"; ["ip"; "link"; "del"; "dev"; "eth0"]] [] "1" willing (λ _, None) in
  match SetupKernelDevice (λ _, None) (λ s, Some (map (λ c, Z.of_N (N_of_ascii c)) (chars s))) true (λ _ _ k, (true, k)) "warp-a" demoAccount 0 (MkWorld b None) with
  | (Some (ep, td), w') => ep = V4 [192; 0; 2; 7] ∧ installed (w_k w') (linkKey "warp-a") = 1%nat ∧
      installed (w_k (teardown td w').2) (linkKey "warp-a") = 0%nat
  | (None, _) => False
  end.
Proof.
  cbn zeta. set (b := MkBox _ _ _ _ _). set (pk := λ s, Some (map (λ c, Z.of_N (N_of_ascii c)) (chars s))). set (cd := λ (_ : string) (_ : wgConfig) (k : box), (true, k)).
  assert (installed b (linkKey "warp-a") ≤ 1)%nat as H1 by (vm_compute; lia).
  pose proof (kernel_device_exact (λ _, None) pk true cd (λ _ _ k, reflexivity k) "warp-a" demoAccount 0 (MkWorld b None) H1) as H.
  assert (match (SetupKernelDevice (λ _, None) pk true cd "warp-a" demoAccount 0 (MkWorld b None)).1 with Some (ep, _) => bool_decide (ep = V4 [192; 0; 2; 7]) | None => false end = true) as E
    by (vm_compute; reflexivity).
  destruct (SetupKernelDevice _ pk true cd "warp-a" demoAccount 0 _) as [[[ep td]|] w']; [|discriminate E]. cbn [fst] in E. apply bool_decide_eq_true in E.
  destruct H as (_ & L & _ & _ & _ & T). done.
Defined.

Lemma bind_transparent_witness :
  let bufs := [[1; 0; 0; 0; 9]; [4; 0; 0; 0; 7; 7]] in
  bindReceive 2 (map zlen (bindSend [16; 32; 48] bufs)) (bindSend [16; 32; 48] bufs) = bufs.
Proof. apply (bind_transparent [16; 32; 48] [[1; 0; 0; 0; 9]; [4; 0; 0; 0; 7; 7]]); [done|]. repeat constructor; cbn; lia. Defined.

Lemma account_cached_witness :
  let zero32 := Some (replicate 32 0%Z) in
  let answer := MkRegistration "id" "token" "" "EC+x" [MkRegPeer "peer" "192.0.2.7:0" "engage:2408"] "172.16.0.2" "" in
  let a := MkAccount (b64Encode (clampKey (replicate 32 0))) (b64Encode [1; 2]) "peer" "engage:2408" "192.0.2.7:0" "172.16.0.2" "" "EC+x" "id" "token" "" in
  let load rand post := LoadOrRegister rand (λ _, Some [1; 2]) post (λ _, Some answer) (λ _, "json") (λ _, Some a) (λ _, true) "/w.json" false in
  let '(r, fs) := load zero32 (λ _ _, Some (200, "body")) ∅ in
  r = Ok a ∧ load None (λ _ _, None) fs = (Ok a, fs).
Proof.
  cbn zeta. set (answer := MkRegistration _ _ _ _ _ _ _). set (a := MkAccount _ _ _ _ _ _ _ _ _ _ _).
  set (load := λ rand post, LoadOrRegister rand (λ _, Some [1; 2]) post (λ _, Some answer) (λ _, "json") (λ _, Some a) (λ _, true) "/w.json" false).
  assert (load (Some (replicate 32 0%Z)) (λ _ _, Some (200, "body")) ∅ = (Ok a, {["/w.json" := "json"]})) as H by (vm_compute; reflexivity).
  change (let '(r, fs) := load (Some (replicate 32 0%Z)) (λ _ _, Some (200, "body")) ∅ in r = Ok a ∧ load None (λ _ _, None) fs = (Ok a, fs)).
  rewrite H. split; [done|].
  refine (account_cached _ _ _ _ (λ _, "json") (λ _, Some a) (λ _, true) "/w.json" false ∅ a _ None (λ _, Some [1; 2]) (λ _ _, None) (λ _, Some answer) false _ _ _ H _ _); done.
Defined.
