(* ===== verification/KernelRun.v ===== *)
(** * internal/kernelnode: a kernel node's life

    run_linux.go's [Run]: the WARP devices of Warp.v over NetCfg.v's host, the next
    hops, the plan of KernelNode.v, its installation by KernelApply.v, the reloads
    while it is up, and the teardowns in reverse.  The machine is both a [Host],
    which holds the links, and a [Machine], which holds rules, routes and tables.
    The theorem follows the WARP devices through all of it. *)

From S2P Require Import Prelude GoStrings NetIp Config Http Factory NetText Node KernelNode NetCfg Warp.
From S2P Require KernelApply KernelPolicy.
Local Open Scope Z_scope.
Local Open Scope string_scope.
Local Open Scope go_scope.

Abbreviation Machine := KernelApply.Machine.
Abbreviation exec := KernelApply.exec.

Section run.
Context (rand : option octets) (X25519 : octets → option octets).
Context (post : bool → string → option (Z * string)) (parseReg : string → option registration).
Context (marshal : Account → string) (unmarshal : string → option Account) (writable : string → bool).
Context (ResolveUDPAddr : string → option UDPAddr) (ParseKey : string → option octets).
Context (readFile : string → option string).
Context {K : Type} `{HK : Host K} `{MK : Machine K}.
Context (wgctrlNew : bool) (configureDevice : string → wgConfig → K → bool * K).
Abbreviation world := (NetCfg.world (K := K)).
Abbreviation kworld := (KernelApply.world (K := K)).

Definition egressOf (n : cfg) (name : string) : Config.Egress := default (Config.MkEgress "" "" "" "" "" "" false) (Config.n_Egresses n !! name).

(** One device after the other; a failure takes down those already up. *)
Fixpoint setupLoop (n : cfg) (names : list string) (eps : gmap string netipAddr) (ch : chain) (fs : gmap string string) (w : world)
    : option (gmap string netipAddr * chain) * (gmap string string * world) :=
  match names with
  | [] => (Some (eps, ch), (fs, w))
  | name :: names' =>
      let eg := egressOf n name in
      if negb (Config.e_Mode eg =? "warp") then setupLoop n names' eps ch fs w
      else
        let '(acct, fs) := Credentials rand X25519 post parseReg marshal unmarshal writable
          (Config.e_WARPConfig eg) (Config.e_WARPCache eg) (Config.e_WARPInsecure eg) fs in
        match acct with
        | Err _ => (None, (fs, (teardown ch w).2))
        | Ok acct =>
            match SetupKernelDevice ResolveUDPAddr ParseKey wgctrlNew configureDevice (Config.e_TunName eg) acct (Config.n_MTU n) w with
            | (None, w) => (None, (fs, (teardown ch w).2))
            | (Some (ep, td), w) => setupLoop n names' (<[name := ep]> eps) (ch ++ td) fs w
            end
        end
  end.
Definition setupWarpDevices (n : cfg) (fs : gmap string string) (w : world) :=
  setupLoop n (egressNames n) ∅ [] fs w.

Definition resolveWAN (eps : gmap string netipAddr) (w : world) (name : string) (eg : Config.Egress) : wan :=
  let gw := if Config.e_Gateway eg =? "" then default "" (DefaultGatewayVia (Config.e_ExtIface eg) w) else Config.e_Gateway eg in
  if Config.e_Mode eg =? "warp"
  then MkWan (Config.e_TunName eg) "" (Some (MkUnderlay (match eps !! name with Some a => addrString a | None => "invalid IP" end) (Config.e_ExtIface eg) gw))
  else MkWan (Config.e_ExtIface eg) gw None.
Definition resolveWANs (n : cfg) (eps : gmap string netipAddr) (w : world) : gmap string wan :=
  map_imap (λ name eg, Some (resolveWAN eps w name eg)) (Config.n_Egresses n).

(** While it is up: a SIGHUP, or the ticker of the plan's [i]-th set, where it has
    an interval. *)
Inductive kevent := Hup | Tick (i : nat).
Definition watchReload (p : plan) (w : kworld) (e : kevent) : kworld :=
  match e with
  | Hup => KernelApply.reloadAll readFile p w
  | Tick i => match p_geo p !! i with
      | Some g => if (0 <? Config.s_Reload (gb_set g))%Z then (KernelApply.loadGeo readFile g w).2 else w
      | None => w
      end
  end.

(** The machine when the context is done, if the node came up, and the machine
    after [Run] has returned. *)
Definition Run (n : cfg) (events : list kevent) (fs : gmap string string) (w : world) : option K * K :=
  match setupWarpDevices n fs w with
  | (None, (_, w)) => (None, w_k w)
  | (Some (eps, devTd), (_, w)) =>
      let down k := w_k (teardown devTd (MkWorld k (w_wait w))).2 in
      match lower readFile n (resolveWANs n eps w) with
      | Err _ => (None, down (w_k w))
      | Ok p =>
          let '(ok, a) := KernelApply.apply readFile p (KernelApply.MkWorld (w_k w) None []) in
          if ok : bool then
            let a := fold_left (watchReload p) events a in
            (Some (KernelApply.w_k a), down (KernelApply.w_k (KernelApply.teardown a).2))
          else (None, down (KernelApply.w_k a))
      end
  end.
End run.

(** ** Lemmas: what KernelApply.v's commands keep *)

Section keeps.
Context (readFile : string → option string).
Context {K : Type} `{MK : Machine K}.
Abbreviation kworld := (KernelApply.world (K := K)).

(** A command that is not about links. *)
Definition plain (o : KernelApply.op) : Prop := match o with KernelApply.Run a => starts ["ip"; "link"] a = false | _ => True end.

(** A property of the machine that such commands keep. *)
Context (I : K → Prop).
Hypothesis I_exec : ∀ o k, plain o → I k → I (exec o k).2.

Definition kept (w : kworld) : Prop := I (KernelApply.w_k w) ∧ Forall plain (KernelApply.w_chain w).
Definition keeps (m : kworld → bool * kworld) : Prop := ∀ w, kept w → kept (m w).2.

Lemma keeps_run o : plain o → keeps (KernelApply.run o).
Proof. intros Ho w [H1 H2]. unfold KernelApply.run. pose proof (I_exec o (KernelApply.w_k w) Ho H1) as H. by destruct (exec o (KernelApply.w_k w)). Qed.

Lemma kept_addUndo o w : plain o → kept w → kept (KernelApply.addUndo o w).
Proof. intros Ho [H1 H2]. split; [done|]. by apply Forall_app_2; [|constructor]. Qed.

Lemma keeps_andThen m n : keeps m → keeps n → keeps (KernelApply.andThen m n).
Proof. intros Hm Hn w Hw. unfold KernelApply.andThen. specialize (Hm w Hw). destruct (m w) as [[] w1]; [by apply Hn|done]. Qed.

Lemma keeps_loop {A} (body : A → kworld → bool * kworld) l : Forall (λ x, keeps (body x)) l → keeps (KernelApply.loop body l).
Proof.
  induction 1 as [|x l Hx _ IH]; intros w Hw; [done|]. cbn [KernelApply.loop]. specialize (Hx w Hw). destruct (body x w) as [[] w1]; [by apply IH|done].
Qed.

Lemma keeps_replace add del : plain (KernelApply.Run add) → plain (KernelApply.Run del) → keeps (KernelApply.replace add del).
Proof.
  intros Ha Hd w Hw. unfold KernelApply.replace. pose proof (keeps_run _ Hd w Hw) as H1.
  pose proof (keeps_run _ Ha _ H1) as H2. destruct (KernelApply.run (KernelApply.Run add) _) as [[] w2]; [by apply kept_addUndo|done].
Qed.

Lemma keeps_iptablesCmd r w : kept w → kept (KernelApply.iptablesCmd r w).2 ∧ plain (KernelApply.Run (KernelApply.iptablesCmd r w).1).
Proof.
  intros Hw. unfold KernelApply.iptablesCmd, KernelApply.iptablesSupportsWait. destruct (KernelApply.w_wait w) as [b|]; [by destruct b|].
  pose proof (keeps_run (KernelApply.Run ["iptables"; "-w"; "-t"; "filter"; "-S"]) eq_refl w Hw) as [H1 H2].
  destruct (KernelApply.run _ w) as [b w1]. cbn [fst snd] in *. split; [done|]. by destruct b.
Qed.

Lemma keeps_installIptables r : keeps (KernelApply.installIptables r).
Proof.
  intros w Hw. unfold KernelApply.installIptables. pose proof (keeps_iptablesCmd (flipAppendToDelete r) w Hw) as [H1 P1].
  destruct (KernelApply.iptablesCmd (flipAppendToDelete r) w) as [del w1]. cbn [fst snd] in *.
  pose proof (keeps_iptablesCmd r w1 H1) as [H2 P2]. destruct (KernelApply.iptablesCmd r w1) as [add w2]. cbn [fst snd] in *. by apply keeps_replace.
Qed.

Lemma keeps_installIp a : KernelApply.ipAdd a → keeps (KernelApply.installIp a).
Proof.
  intros [_ (obj & rest & -> & Hobj)]. assert (∀ verb, plain (KernelApply.Run ("ip" :: obj :: verb :: rest))) as Hp.
  { intros verb. cbn. unfold starts. cbn [length take]. apply bool_decide_eq_false. intros [= ->]. done. }
  exact (keeps_replace _ _ (Hp "add") (Hp "del")).
Qed.

Lemma keeps_loadGeo g : keeps (KernelApply.loadGeo readFile g).
Proof.
  intros w Hw. unfold KernelApply.loadGeo. pose proof (keeps_run (KernelApply.Run ["ip"; "route"; "flush"; "table"; Itoa (gb_table g)]) eq_refl w Hw) as H1.
  destruct (KernelNode.readPrefixes readFile (gb_set g)) as [[|x l]|]; [done| |done]. by apply keeps_run.
Qed.

Lemma keeps_enableForward : keeps KernelApply.enableForward.
Proof.
  intros w Hw. unfold KernelApply.enableForward. destruct (_ =? "1"); [done|].
  pose proof (keeps_run (KernelApply.SetForward "1") Logic.I w Hw) as H1. destruct (KernelApply.run _ w) as [[] w1]; [|done].
  cbn [snd] in *. destruct (_ =? ""); [done|by apply kept_addUndo].
Qed.

Lemma keeps_flushTable t : keeps (KernelApply.flushTable t).
Proof. intros w Hw. apply kept_addUndo; [done|]. by apply (keeps_run (KernelApply.Run _)). Qed.

Lemma keeps_undo ops : Forall plain ops → ∀ acc, I acc.2 →
  I (fold_left (λ '(ok, k) o, let '(ok', k') := exec o k in (ok && ok', k')) ops acc).2.
Proof.
  induction 1 as [|o ops Ho _ IH]; intros [ok k] Hk; [done|]. cbn [fold_left]. apply IH. pose proof (I_exec o k Ho Hk) as H. by destruct (exec o k).
Qed.

Lemma keeps_teardown w : kept w → kept (KernelApply.teardown w).2.
Proof.
  intros [H1 H2]. unfold KernelApply.teardown, KernelApply.undoAll. pose proof (keeps_undo (rev (KernelApply.w_chain w)) (List.Forall_rev H2) (true, KernelApply.w_k w) H1) as H.
  destruct (fold_left _ _ _) as [ok k]. by split.
Qed.

Lemma route_plain a : is_Some (KernelPolicy.parseRoute a) → plain (KernelApply.Run a).
Proof.
  intros [r Hr]. destruct a as [|ip [|route l]]; try discriminate Hr. cbn. unfold starts. cbn [length take]. apply bool_decide_eq_false. intros [= -> ->].
  destruct l as [|add [|dst rest]]; discriminate Hr.
Qed.

Lemma keeps_apply p : KernelApply.installable p → keeps (KernelApply.apply readFile p).
Proof.
  intros [Hm Hr Hi Ht]. assert (keeps (KernelApply.applySteps readFile p)) as Hs.
  { unfold KernelApply.applySteps. repeat apply keeps_andThen; try apply keeps_loop.
    - apply keeps_enableForward.
    - apply Forall_true, keeps_flushTable.
    - eapply Forall_impl; [exact Ht|]. intros a Ha. by apply keeps_run, route_plain.
    - eapply Forall_impl; [exact Hm|]. apply keeps_installIp.
    - eapply Forall_impl; [exact Hr|]. apply keeps_installIp.
    - apply Forall_true, keeps_installIptables.
    - apply Forall_true, keeps_loadGeo. }
  intros w Hw. unfold KernelApply.apply. specialize (Hs w Hw). destruct (KernelApply.applySteps readFile p w) as [[] w1]; [done|]. by apply keeps_teardown.
Qed.

Lemma keeps_reload p w e : kept w → kept (watchReload readFile p w e).
Proof.
  intros Hw. destruct e as [|i]; cbn.
  - unfold KernelApply.reloadAll. revert w Hw. induction (p_geo p) as [|g l IH]; intros w Hw; [done|]. cbn [fold_left]. by apply IH, keeps_loadGeo.
  - destruct (p_geo p !! i); [|done]. destruct (_ <? _)%Z; [by apply keeps_loadGeo|done].
Qed.
End keeps.

(** ** Lemmas: the WARP links *)

Section facts.
Context (rand : option octets) (X25519 : octets → option octets).
Context (post : bool → string → option (Z * string)) (parseReg : string → option registration).
Context (marshal : Account → string) (unmarshal : string → option Account) (writable : string → bool).
Context (ResolveUDPAddr : string → option UDPAddr) (ParseKey : string → option octets).
Context (readFile : string → option string).
Context {K : Type} `{HK : Host K} `{HL : !HostLaws K} `{MK : Machine K}.
Context (wgctrlNew : bool) (configureDevice : string → wgConfig → K → bool * K).
Hypothesis configure_same : ∀ name cfg k, same k (configureDevice name cfg k).2.
(** Links are changed by link commands only. *)
Hypothesis exec_links : ∀ o k name, plain o → installed (exec o k).2 (linkKey name) = installed k (linkKey name).
Abbreviation world := (NetCfg.world (K := K)).
Abbreviation setUp := (setupLoop rand X25519 post parseReg marshal unmarshal writable ResolveUDPAddr ParseKey wgctrlNew configureDevice).
Abbreviation runNode := (Run rand X25519 post parseReg marshal unmarshal writable ResolveUDPAddr ParseKey readFile wgctrlNew configureDevice).

Definition warpTuns (n : cfg) (names : list string) : list string :=
  omap (λ name, if Config.e_Mode (egressOf n name) =? "warp" then Some (Config.e_TunName (egressOf n name)) else None) names.

(** A device name that is no word of the command that deletes it. *)
Definition proper (t : string) : Prop := t ∉ ["ip"; "link"; "del"; "dev"].

Lemma proper_other t t' : proper t → t ≠ t' → t ∉ linkKey t'.
Proof. unfold proper, linkKey. rewrite !elem_of_cons, elem_of_nil. tauto. Qed.

Lemma elsewhere_link t t' (k k' : K) : elsewhere t' k k' → t ≠ t' → proper t' → installed k' (linkKey t) = installed k (linkKey t).
Proof. intros (H & _) Hne Hp. apply H, proper_other; [done|congruence]. Qed.

Definition linkUndo (t : string) : undo := UndoRun (linkKey t).

Lemma teardown_links ts (w : world) t : NoDup ts → Forall proper ts →
  installed (w_k (teardown (map linkUndo ts) w).2) (linkKey t) =
  if bool_decide (t ∈ ts) then pred (installed (w_k w) (linkKey t)) else installed (w_k w) (linkKey t).
Proof.
  intros Hn Hp. revert w. induction ts as [|t0 ts IH] using rev_ind; intros w; [done|].
  apply NoDup_app in Hn as (Hn & Hni & _). apply Forall_app in Hp as [Hp Hp0]. apply Forall_cons in Hp0 as [Hp0 _].
  rewrite map_app, teardown_app, IH by done. cbn [map]. rewrite teardown_one. cbn [undoStep linkUndo].
  destruct (linkDel_law t0 w) as [E D]. destruct (decide (t = t0)) as [->|Hne].
  - rewrite D, bool_decide_false, bool_decide_true; [done|apply elem_of_app; right; left|]. intros H. apply (Hni t0 H). left.
  - rewrite (elsewhere_link t t0 _ _ E Hne Hp0). assert (t ∈ (ts ++ [t0])%list ↔ t ∈ ts) as Hin by (rewrite elem_of_app, list_elem_of_singleton; tauto).
    rewrite (bool_decide_ext (t ∈ (ts ++ [t0])%list) (t ∈ ts)); done.
Qed.

Lemma setupLoop_law n names : ∀ eps ups fs (w : world),
  NoDup (ups ++ warpTuns n names) → Forall proper (ups ++ warpTuns n names) →
  (∀ t, t ∈ ups → installed (w_k w) (linkKey t) = 1%nat) → (∀ t, t ∈ warpTuns n names → (installed (w_k w) (linkKey t) ≤ 1)%nat) →
  match setUp n names eps (map linkUndo ups) fs w with
  | (Some (_, ch), (_, w')) => ch = map linkUndo (ups ++ warpTuns n names) ∧ ∀ t, t ∈ ups ++ warpTuns n names → installed (w_k w') (linkKey t) = 1%nat
  | (None, (_, w')) => ∀ t, t ∈ ups ++ warpTuns n names →
      (installed (w_k w') (linkKey t) ≤ if bool_decide (t ∈ ups) then 0 else installed (w_k w) (linkKey t))%nat
  end%list.
Proof.
  assert (∀ ups rest (w0 w : world), NoDup ups → Forall proper ups → (∀ t, t ∈ ups → installed (w_k w) (linkKey t) = 1%nat) →
    (∀ t, t ∉ ups → t ∈ rest → (installed (w_k w) (linkKey t) ≤ installed (w_k w0) (linkKey t))%nat) →
    ∀ t, t ∈ ups ++ rest → (installed (w_k (teardown (map linkUndo ups) w).2) (linkKey t) ≤ if bool_decide (t ∈ ups) then 0 else installed (w_k w0) (linkKey t))%nat)%list as Hfail.
  { intros ups rest w0 w Hn Hp H1 Hle t Ht. rewrite teardown_links by done. case_bool_decide as Hin; [rewrite H1 by done; lia|].
    apply elem_of_app in Ht as [?|?]; [done|]. by apply Hle. }
  induction names as [|name names IH]; intros eps ups fs w Hn Hp H1 Hle.
  { cbn [setupLoop]. change (warpTuns n []) with (@nil string). rewrite !app_nil_r. done. }
  cbn [setupLoop]. unfold warpTuns in *. cbn [omap list_omap] in *. set (eg := egressOf n name) in *.
  destruct (Config.e_Mode eg =? "warp"); cbn [negb]; [|by apply IH].
  fold (warpTuns n names) in *. set (tun := Config.e_TunName eg) in *. cbn [app] in *.
  pose proof Hn as (Hnu & Hnt & Hnr)%NoDup_app. apply NoDup_cons in Hnr as [Htr Hnr]. pose proof Hp as [Hpu Hpr]%Forall_app. apply Forall_cons in Hpr as [Hpt Hpr].
  destruct (Credentials _ _ _ _ _ _ _ _ _ _ fs) as [[acct|e] fs']; [|by apply Hfail].
  pose proof (SetupKernelDevice_law ResolveUDPAddr ParseKey wgctrlNew configureDevice configure_same tun acct (Config.n_MTU n) w (Hle tun ltac:(left))) as Hs.
  pose proof (λ w', SetupKernelDevice_none ResolveUDPAddr ParseKey wgctrlNew configureDevice configure_same tun acct (Config.n_MTU n) w w' (Hle tun ltac:(left))) as Hnone.
  destruct (SetupKernelDevice _ _ _ _ tun acct _ w) as [[[ep td]|] w1].
  - destruct Hs as (-> & E & L & _).
    assert (∀ t, t ≠ tun → installed (w_k w1) (linkKey t) = installed (w_k w) (linkKey t)) as Ho by (intros t Ht; by apply (elsewhere_link t tun)).
    assert ((ups ++ [tun]) ++ warpTuns n names = ups ++ tun :: warpTuns n names)%list as El by by rewrite <- app_assoc.
    specialize (IH (<[name := ep]> eps) (ups ++ [tun])%list fs' w1). rewrite El, map_app in IH. cbn [map linkUndo] in IH.
    assert (∀ t, t ∈ (ups ++ [tun])%list → installed (w_k w1) (linkKey t) = 1%nat) as H1'.
    { intros t [Ht| ->%list_elem_of_singleton]%elem_of_app; [|done]. rewrite Ho; [by apply H1|]. intros ->. apply (Hnt tun Ht). left. }
    assert (∀ t, t ∈ warpTuns n names → (installed (w_k w1) (linkKey t) ≤ 1)%nat) as Hle'.
    { intros t Ht. rewrite Ho; [apply Hle; by right|]. by intros ->. }
    specialize (IH Hn Hp H1' Hle'). unfold linkUndo in IH at 1. destruct (setupLoop _ _ _ _ _ _ _ _ _ _ _ n names _ _ fs' w1) as [[[eps' ch]|] [fs2 w2]]; [done|].
    intros t Ht. specialize (IH t Ht). case_bool_decide as Hu; case_bool_decide as Hu2; try lia.
    + exfalso. apply Hu, elem_of_app. by left.
    + assert (t ≠ tun) as Hne by (intros ->; apply Hu, elem_of_app; right; left). rewrite Ho in IH by done. lia.
  - destruct (Hnone w1 eq_refl) as (E & Hz). assert (∀ t, t ≠ tun → installed (w_k w1) (linkKey t) = installed (w_k w) (linkKey t)) as Ho by (intros t Ht; by apply (elsewhere_link t tun)).
    apply Hfail; [done|done| |].
    + intros t Ht. rewrite Ho; [by apply H1|]. intros ->. apply (Hnt tun Ht). left.
    + intros t Hu Ht. destruct (decide (t = tun)) as [->|Hne]; [done|by rewrite Ho].
Qed.

(** ** Theorem *)

(** Claim C30.  Whatever a kernel node's configuration, its command's failures and the reloads
    while it is up: while it runs every WARP egress has its device, exactly once,
    and when it has returned none of them is left; when it fails to start, at
    whatever step, it leaves no device that was not there before. *)
Theorem run_leaves_no_device n events fs (w : world) :
  let tuns := warpTuns n (egressNames n) in
  NoDup tuns → Forall proper tuns → (∀ t, t ∈ tuns → (installed (w_k w) (linkKey t) ≤ 1)%nat) →
  let '(up, k) := runNode n events fs w in
  match up with
  | Some k1 => ∀ t, t ∈ tuns → installed k1 (linkKey t) = 1%nat ∧ installed k (linkKey t) = 0%nat
  | None => ∀ t, t ∈ tuns → (installed k (linkKey t) ≤ installed (w_k w) (linkKey t))%nat
  end.
Proof.
  cbn zeta. set (tuns := warpTuns n (egressNames n)). intros Hn Hp Hle. unfold Run, setupWarpDevices.
  pose proof (setupLoop_law n (egressNames n) ∅ [] fs w Hn Hp ltac:(by intros t ?%elem_of_nil) Hle) as Hs.
  cbn [map] in Hs. destruct (setupLoop _ _ _ _ _ _ _ _ _ _ _ n (egressNames n) ∅ [] fs w) as [[[eps devTd]|] [fs1 w1]]; [|exact Hs].
  destruct Hs as (-> & Hup). cbn [app] in *. fold tuns in Hup |- *.
  set (I := λ k : K, ∀ t, t ∈ tuns → installed k (linkKey t) = 1%nat).
  assert (∀ o k, plain o → I k → I (exec o k).2) as HI by (intros o k Ho Hk t Ht; rewrite exec_links by done; by apply Hk).
  assert (∀ k, I k → ∀ t, t ∈ tuns → installed (w_k (teardown (map linkUndo tuns) (MkWorld k (w_wait w1))).2) (linkKey t) = 0%nat) as Hdown.
  { intros k Hk t Ht. rewrite teardown_links, bool_decide_true by done. cbn [w_k]. by rewrite Hk. }
  assert (∀ k, I k → ∀ t, t ∈ tuns → (installed (w_k (teardown (map linkUndo tuns) (MkWorld k (w_wait w1))).2) (linkKey t) ≤ installed (w_k w) (linkKey t))%nat) as Hdown'
    by (intros k Hk t Ht; rewrite Hdown by done; lia).
  destruct (lower readFile n (resolveWANs n eps w1)) as [p|e] eqn:Hl; [|by apply Hdown'].
  pose proof (KernelApply.lower_installable _ _ _ _ Hl) as Hi.
  assert (kept I (KernelApply.MkWorld (w_k w1) None [])) as H0 by (split; [exact Hup|constructor]).
  pose proof (keeps_apply readFile I HI p Hi _ H0) as Ha. destruct (KernelApply.apply readFile p _) as [[] a]; [|apply Hdown', Ha].
  assert (kept I (fold_left (watchReload readFile p) events a)) as Hev.
  { cbn [snd] in Ha. clear -Ha HI. revert a Ha. induction events as [|e events IH]; intros a Ha; [done|]. cbn [fold_left]. by apply IH, keeps_reload. }
  intros t Ht. split; [by apply Hev|]. apply Hdown; [|done]. apply (keeps_teardown I HI _ Hev).
Qed.
End facts.

(** ** Witness *)

(** Links in a [box], rules and routes in KernelApply.v's machine. *)
#[local] Instance both_Host : Host (box * KernelApply.machine) := {
  hostRun a k := let '(ok, b) := hostRun a k.1 in (ok, (b, k.2));
  hostOutput a k := hostOutput a k.1;
  readForward k := readForward k.1;
  setForward v k := let '(ok, b) := setForward v k.1 in (ok, (b, k.2));
  installed k := installed k.1;
  routes k := routes k.1;
}.
#[local] Instance both_HostLaws : HostLaws (box * KernelApply.machine).
Proof.
  split.
  - intros a [b m]. pose proof (run_after a b) as H. cbn [hostRun both_Host fst snd]. by destruct (hostRun a b).
  - intros v [b m]. pose proof (forward_after v b) as H. cbn [setForward both_Host fst snd]. by destruct (setForward v b).
  - intros [b m] [b' m'] H1 H2. done.
Qed.
#[local] Existing Instance KernelApply.machine_Machine.
#[local] Instance both_Machine : Machine (box * KernelApply.machine) := {
  KernelApply.exec o k := let '(ok, m) := exec o k.2 in (ok, (k.1, m));
  KernelApply.forwarding k := KernelApply.forwarding k.2;
  KernelApply.copies k := KernelApply.copies k.2;
  KernelApply.table k := KernelApply.table k.2;
}.

(** A WAN and a WARP egress through it, whose profile is a file; a crash leaked
    the device. *)
Definition runDemo : Config.Node :=
  Config.MkNode "" 1360 "10.9.0.0/24" []
    {["dsl" := Config.MkEgress "kernel" "eth0" "" "" "" "" false; "cf" := Config.MkEgress "warp" "eth0" "" "warp-cf" "/cf.conf" "" false]}
    [Config.MkCondition "lan" (Some (Config.MkIPSet "" ["10.0.0.0/8"] 0)) None None;
     Config.MkCondition "vip" None (Some (Config.MkIPSet "" ["10.1.2.3"] 0)) None] []
    "kernel" [Config.MkForward ["vip"] "cf"; Config.MkForward ["lan"] "dsl"; Config.MkForward [] "cf"] ["br0"] None 0 0 "" 10 10.
Definition runProfile : string :=
  "[Interface]" +:+ Warp.nl +:+ "PrivateKey = abc=" +:+ Warp.nl +:+ "Address = 172.16.0.2/32, fd00::2/128" +:+ Warp.nl +:+
  "# peer" +:+ Warp.nl +:+ "publickey=def=" +:+ Warp.nl +:+ "Endpoint = 192.0.2.7:2408" +:+ Warp.nl.
Definition runBox : box := MkBox [linkKey "warp-cf"] [] "0" willing
  (λ a, if bool_decide (last a = Some "eth0") then Some "default via 192.0.2.1 dev eth0" else None).
Definition runMachine : KernelApply.machine := KernelApply.MkMachine "0" [] [] (λ _, false).
Definition runIt (events : list kevent) : option (box * KernelApply.machine) * (box * KernelApply.machine) :=
  Run None (λ _, None) (λ _ _, None) (λ _, None) (λ _, "") (λ _, None) (λ _, false) (λ _, None) (λ s, Some (map (λ c, Z.of_N (N_of_ascii c)) (chars s)))
    (λ _, None) true (λ _ _ k, (true, k)) runDemo events {["/cf.conf" := runProfile]} (MkWorld (runBox, runMachine) None).

Lemma run_leaves_no_device_witness :
  let '(up, k) := runIt [Hup; Tick 0] in
  match up with
  | Some k1 => installed k1 (linkKey "warp-cf") = 1%nat ∧ installed k (linkKey "warp-cf") = 0%nat
  | None => False
  end.
Proof.
  assert (∀ (o : KernelApply.op) (k : box * KernelApply.machine) name, plain o → installed (exec o k).2 (linkKey name) = installed k (linkKey name)) as Hx
    by (intros o [b m] name _; cbn; by destruct (KernelApply.machineExec o m)).
  assert (warpTuns runDemo (egressNames runDemo) = ["warp-cf"]) as Ht by (vm_compute; reflexivity).
  pose proof (run_leaves_no_device None (λ _, None) (λ _ _, None) (λ _, None) (λ _, "") (λ _, None) (λ _, false) (λ _, None)
    (λ s, Some (map (λ c, Z.of_N (N_of_ascii c)) (chars s))) (λ _, None) true (λ _ _ k, (true, k))
    (λ _ _ k, reflexivity k) Hx
    runDemo [Hup; Tick 0] {["/cf.conf" := runProfile]} (MkWorld (runBox, runMachine) None)) as H.
  cbn zeta in H. rewrite Ht in H. fold (runIt [Hup; Tick 0]) in H.
  assert (match (runIt [Hup; Tick 0]).1 with Some _ => true | None => false end = true) as E by (vm_compute; reflexivity).
  destruct (runIt [Hup; Tick 0]) as [[k1|] k]; [|discriminate E]. apply H; [apply NoDup_singleton| | |left].
  - clear. repeat constructor. unfold proper. rewrite !elem_of_cons, elem_of_nil. intros Hin. by decompose [or] Hin.
  - clear. intros t [->|?%elem_of_nil]%elem_of_cons; [apply Nat.leb_le; vm_compute; reflexivity|done].
Defined.
