(* ===== verification/Steering.v ===== *)
(** * A compiled network steers packets along the path's branches

    What the rules of Compile.v do to a packet when the nodes' routers evaluate
    them.  [decision] is the first rule of a node that applies; [steered] shows
    that a packet from the origin's tun follows, from node to node, the up-links of
    the first branch whose conditions hold and is finalized onto its egress, provided
    no earlier branch over the same links is in the way; [guard_lost] is a network
    where one is. *)

From S2P Require Import Prelude GoStrings Wire Config Dsl Schema Compile Paths.
From S2P Require Router Checked Node.
Local Open Scope Z_scope.
Local Open Scope string_scope.
Local Open Scope go_scope.

(** ** The rule a packet meets *)

(** The rule applies to a packet, processed or not, from [src], when [ev] says
    which conditions hold. *)
Definition takes (ev : string → bool) (processed : bool) (src : string) (r : Config.Route) : bool :=
  match Config.m_Processed (Config.r_Match r) with None => true | Some b => Bool.eqb b processed end &&
  ((Config.m_Source (Config.r_Match r) =? "") || (Config.m_Source (Config.r_Match r) =? src)) &&
  forallb ev (Config.m_Conditions (Config.r_Match r)).

Definition decision (ev : string → bool) (processed : bool) (src : string) (rs : list Config.Route) : option Config.Action :=
  Config.r_Action <$> List.find (takes ev processed src) rs.

(** ** Lemmas: first matches *)

Lemma find_app {A} (f : A → bool) l k : List.find f (l ++ k) = match List.find f l with Some x => Some x | None => List.find f k end.
Proof. induction l as [|x l IH]; cbn; [done|]. by destruct (f x). Qed.

Lemma find_none_in {A} (f : A → bool) l : (∀ x, x ∈ l → f x = false) → List.find f l = None.
Proof. induction l as [|x l IH]; intros H; cbn; [done|]. rewrite (H x) by left. apply IH. intros y Hy. apply H. by right. Qed.

(** Everything up to the segment that surely has a match agrees. *)
Lemma find_segment {A B} (f : A → bool) (act : A → B) l m k a :
  (∀ x, x ∈ l → f x = true → act x = a) → (∀ x, x ∈ m → f x = true → act x = a) → (∃ x, x ∈ m ∧ f x = true) →
  act <$> List.find f (l ++ m ++ k)%list = Some a.
Proof.
  intros Hl Hm (x & Hx & Hf). rewrite !find_app. destruct (List.find f l) as [y|] eqn:Hy.
  - apply find_some in Hy as [Hy Hfy]. cbn. f_equal. apply Hl; [by apply list_elem_of_In|done].
  - destruct (List.find f m) as [y|] eqn:Hy'; [apply find_some in Hy' as [Hy' Hfy]; cbn; f_equal; apply Hm; [by apply list_elem_of_In|done]|].
    apply list_elem_of_In in Hx. by rewrite (find_none _ _ Hy' x Hx) in Hf.
Qed.

(** Dropping repeated rules does not change the first match. *)
Lemma find_dedup f seen rs :
  Forall rule_clean rs → (∀ r, r ∈ rs → ruleKey r ∈ seen → f r = false) → List.find f (dedup seen rs) = List.find f rs.
Proof.
  intros Hc. revert seen. induction Hc as [|r rs Hr Hc IH]; intros seen Hs; cbn [dedup]; [done|].
  case_bool_decide as Hin.
  - cbn. rewrite (Hs r) by (by left || done). apply IH. intros q Hq. apply Hs. by right.
  - cbn. destruct (f r) eqn:Hf; [done|]. apply IH. intros q Hq [Hk|Hk]%elem_of_union.
    + apply elem_of_singleton in Hk. rewrite Forall_forall in Hc. by rewrite (ruleKey_inj q r (Hc q Hq) Hr Hk).
    + apply Hs; [by right|done].
Qed.

(** Moving the processed rules to the front does not change the first match of
    an unprocessed packet. *)
Lemma find_tunFirst ev src tun rs : List.find (takes ev false src) (tunFirst tun rs) = List.find (takes ev false src) rs.
Proof.
  assert (∀ r, isProcessedTun tun r = true → takes ev false src r = false) as Hp.
  { intros r [Hm _]%andb_true_iff. apply bool_decide_eq_true in Hm. unfold takes. by rewrite Hm. }
  unfold tunFirst. rewrite find_app. rewrite find_none_in.
  2: { intros r [Hr _]%list_elem_of_filter. by apply Hp. }
  induction rs as [|r rs IH]; [done|]. rewrite filter_cons. destruct (isProcessedTun tun r) eqn:Ht.
  - rewrite decide_False by done. cbn. by rewrite (Hp r Ht).
  - rewrite decide_True by done. cbn. by destruct (takes ev false src r).
Qed.

Lemma find_rulesOf f name pend :
  Config.r_Action <$> List.find f (rulesOf name pend) =
  (λ pr, Config.r_Action (pr_route pr)) <$> List.find (λ pr, bool_decide (pr_node pr = name) && f (pr_route pr)) pend.
Proof.
  unfold rulesOf. induction pend as [|pr pend IH]; [done|]. rewrite filter_cons. cbn [List.find]. destruct (decide (pr_node pr = name)) as [Hn|Hn].
  - rewrite bool_decide_eq_true_2 by done. cbn. destruct (f (pr_route pr)); [done|]. exact IH.
  - rewrite bool_decide_eq_false_2 by done. exact IH.
Qed.

(** ** Lemmas: the rules of a branch *)

(** The action at the [i]th up-link of a branch: the next link, or the egress. *)
Definition hopAction (br : Branch) (gwTarget : string) (next : option Link) : Config.Action :=
  match next with Some l => Config.MkAction "" (l_Name l) | None => Config.MkAction (b_Egress br) gwTarget end.
Definition hopRule (p : Path) (br : Branch) (gwTarget : string) (next : option Link) (l : Link) : pendingRule :=
  addBranchRule (targetOf l) (Config.MkRoute (Config.MkMatch (Some false) (l_Name l) []) (hopAction br gwTarget next)) p br.
Definition hopRules (p : Path) (br : Branch) (gwTarget : string) (up : list Link) : list pendingRule :=
  imap (λ i l, hopRule p br gwTarget (up !! S i) l) up.

Lemma upRelays_shape p br gwTarget up rs lastUp : upRelays p br up = Ok rs → last up = Some lastUp →
  (rs ++ [addBranchRule (targetOf lastUp) (route false (l_Name lastUp) [] (b_Egress br) gwTarget) p br])%list = hopRules p br gwTarget up.
Proof.
  revert rs. induction up as [|a up IH]; intros rs H Hl; [done|]. destruct up as [|b up].
  - cbn in *. injection H as <-. injection Hl as <-. done.
  - cbn [upRelays] in H. apply res_bind_ok in H as (mid & Hmid & H). apply res_bind_ok in H as (rs' & Hrs & H). injection H as <-.
    unfold relayNode in Hmid. apply Config.check_ok in Hmid as [_ Hmid]. injection Hmid as <-.
    change (last (a :: b :: up)) with (last (b :: up)) in Hl. specialize (IH rs' Hrs Hl). cbn [app]. rewrite IH. reflexivity.
Qed.

(** What a branch sends from its origin, and where its gateway's replies go. *)
Definition gwTargetOf (links : gmap string Link) (p : Path) (tun : string) (br : Branch) : string :=
  match linksOf links (b_Down br) with d :: _ => l_Name d | [] => tun end.
Definition originAction (links : gmap string Link) (tun : string) (br : Branch) : Config.Action :=
  match linksOf links (b_Up br) with l :: _ => Config.MkAction "" (l_Name l) | [] => Config.MkAction (b_Egress br) tun end.
Definition originRule (links : gmap string Link) (p : Path) (tun : string) (br : Branch) : pendingRule :=
  addRule (OriginNode p) (Config.MkRoute (Config.MkMatch (Some false) tun (b_When br)) (originAction links tun br)).

(** A rule of the way back. *)
Definition isProcessed (pr : pendingRule) : Prop := Config.m_Processed (Config.r_Match (pr_route pr)) = Some true ∧ pr_relay pr = false.

Lemma downRelays_processed down rs : downRelays down = Ok rs → Forall isProcessed rs.
Proof.
  revert rs. induction down as [|a down IH]; intros rs H; [injection H as <-; constructor|]. destruct down as [|b down]; [injection H as <-; constructor|].
  cbn [downRelays] in H. apply res_bind_ok in H as (mid & _ & H). apply res_bind_ok in H as (rs' & Hrs & H). injection H as <-.
  constructor; [done|by apply IH].
Qed.

(** The rules of a branch with a named gateway, when it has up-links. *)
Lemma branch_shape links p tun br rs : Checked.gateway_ok links br → (b_Up br ≠ [] → b_Gateway br ≠ "") → branchRules links p tun br = Ok rs →
  ∃ ds, Forall isProcessed ds ∧
    rs = (originRule links p tun br :: hopRules p br (gwTargetOf links p tun br) (linksOf links (b_Up br)) ++ ds)%list.
Proof.
  intros Hg Hne H. unfold branchRules in H. fold (linksOf links (b_Up br)) (linksOf links (b_Down br)) in H. unfold Checked.gateway_ok in Hg.
  destruct (b_Up br) as [|u us] eqn:Hu.
  { destruct Hg as [_ Hgw]. rewrite Hgw in H. injection H as <-. exists []. split; [constructor|]. unfold originRule, originAction. by rewrite Hu. }
  specialize (Hne ltac:(done)). apply String.eqb_neq in Hne. rewrite Hne in H. rewrite <- Hu in *.
  destruct (linksOf links (b_Up br)) as [|up0 ups] eqn:Hup; [done|]. destruct (last (up0 :: ups)) as [lastUp|] eqn:Hlast; [|done].
  apply Config.check_ok in H as [_ H]. apply res_bind_ok in H as (relay & Hrel & H).
  assert (b_Gateway br = targetOf lastUp) as Hgw.
  { rewrite <- Hup in Hlast. unfold linksOf in Hlast. rewrite (fmap_last (λ ln, default zeroLink (links !! ln)) (b_Up br)) in Hlast.
    destruct (last (b_Up br)) as [lu|]; [|done]. destruct Hg as (l & Hll & Hgw & _). rewrite Hgw. f_equal. cbn in Hlast. rewrite Hll in Hlast. by injection Hlast. }
  rewrite Hgw in H. fold (gwTargetOf links p tun br) in H.
  pose proof (upRelays_shape p br (gwTargetOf links p tun br) _ _ _ Hrel Hlast) as Hhops.
  assert (originRule links p tun br = addRule (OriginNode p) (route false tun (b_When br) "" (l_Name up0))) as Ho by (unfold originRule, originAction; by rewrite Hup).
  destruct (last (linksOf links (b_Down br))) as [lastDown|] eqn:Hld.
  - apply res_bind_ok in H as (downs & Hdowns & H). apply Config.check_ok in H as [_ H]. injection H as <-.
    exists (downs ++ [addRule (OriginNode p) (route true (l_Name lastDown) [] "" tun)])%list.
    split; [apply Forall_app_2; [by eapply downRelays_processed|by repeat constructor]|]. rewrite Ho, <- Hhops. cbn [app]. by rewrite <- !app_assoc.
  - injection H as <-. exists []. split; [constructor|]. by rewrite Ho, <- Hhops, app_nil_r.
Qed.

(** ** Lemmas: the order of derivation *)

(** The rule is derived from one of the branches. *)
Definition from (links : gmap string Link) (p : Path) (tun : string) (brs : list Branch) (pr : pendingRule) : Prop :=
  ∃ b rs, b ∈ brs ∧ branchRules links p tun b = Ok rs ∧ pr ∈ rs.

Lemma branches_app links p tun brs acc pend :
  rangeM (λ acc br, let? rs := branchRules links p tun br in Ok (acc ++ rs)%list) acc brs = Ok pend →
  ∃ R, pend = (acc ++ R)%list ∧ ∀ x, x ∈ R → from links p tun brs x.
Proof.
  revert acc. induction brs as [|b brs IH]; intros acc H; cbn [rangeM] in H.
  - injection H as <-. exists []. split; [by rewrite app_nil_r|by intros x ?%elem_of_nil].
  - apply res_bind_ok in H as (acc' & Ha & H). apply res_bind_ok in Ha as (rs & Hrs & Ha). injection Ha as <-.
    destruct (IH _ H) as (R & -> & HR). exists (rs ++ R)%list. split; [by rewrite app_assoc|].
    intros x [Hx|Hx]%elem_of_app; [exists b, rs; split; [left|done]|]. destruct (HR x Hx) as (b' & rs' & ? & ?). exists b', rs'. split; [by right|done].
Qed.

Lemma pathStep_app n links d p d' : pathStep n links d p = Ok d' →
  ∃ R, dv_pend d' = (dv_pend d ++ R)%list ∧ ∀ x, x ∈ R → kernelPath n p = false ∧ from links p (pathTun n p) (pt_Routes p) x.
Proof.
  unfold pathStep, kernelPath. intros H. apply res_bind_ok in H as (nd & [_ ->]%nodeAt_ok & H). destruct (nd_Datapath (node n (OriginNode p)) =? "kernel").
  - apply res_bind_ok in H as (out & _ & H). injection H as <-. exists []. split; [by rewrite app_nil_r|by intros x ?%elem_of_nil].
  - apply res_bind_ok in H as (pend & Hp & H). injection H as <-. apply branches_app in Hp as (R & -> & HR). exists R. split; [done|]. auto.
Qed.

Lemma paths_app n links ps d d' : rangeM (pathStep n links) d ps = Ok d' →
  ∃ R, dv_pend d' = (dv_pend d ++ R)%list ∧
    ∀ x, x ∈ R → ∃ p, p ∈ ps ∧ kernelPath n p = false ∧ from links p (pathTun n p) (pt_Routes p) x.
Proof.
  revert d. induction ps as [|p ps IH]; intros d H; cbn [rangeM] in H.
  - injection H as <-. exists []. split; [by rewrite app_nil_r|by intros x ?%elem_of_nil].
  - apply res_bind_ok in H as (d1 & H1 & H). apply pathStep_app in H1 as (R1 & E1 & HR1). destruct (IH _ H) as (R & E & HR).
    exists (R1 ++ R)%list. split; [by rewrite E, E1, app_assoc|].
    intros x [Hx|Hx]%elem_of_app; [exists p; split; [left|by apply HR1]|]. destruct (HR x Hx) as (q & ? & ?). exists q. split; [by right|done].
Qed.

(** The branches whose rules are derived before those of [br]. *)
Definition earlier (ps : list Path) (p : Path) (pre : list Branch) (q : Path) (b : Branch) : Prop :=
  (q ∈ ps ∧ b ∈ pt_Routes q) ∨ (q = p ∧ b ∈ pre).

Lemma derivation_split n links d d' ps p ps' pre br post :
  rangeM (pathStep n links) d (ps ++ p :: ps')%list = Ok d' → dv_pend d = [] → kernelPath n p = false → pt_Routes p = (pre ++ br :: post)%list →
  ∃ A rs B, dv_pend d' = (A ++ rs ++ B)%list ∧ branchRules links p (pathTun n p) br = Ok rs ∧
    ∀ x, x ∈ A → ∃ q b rb, earlier ps p pre q b ∧ kernelPath n q = false ∧ branchRules links q (pathTun n q) b = Ok rb ∧ x ∈ rb.
Proof.
  intros H Hd Hk Hr. apply Config.rangeM_split in H as (d1 & H1 & H). cbn [rangeM] in H. apply res_bind_ok in H as (d2 & H2 & H).
  apply paths_app in H1 as (R1 & E1 & HR1). apply paths_app in H as (R3 & E3 & _). rewrite Hd in E1. cbn [app] in E1.
  unfold pathStep in H2. apply res_bind_ok in H2 as (nd & [_ ->]%nodeAt_ok & H2). unfold kernelPath in Hk. rewrite Hk in H2.
  apply res_bind_ok in H2 as (pend & Hp & H2). injection H2 as <-. rewrite Hr in Hp. apply Config.rangeM_split in Hp as (acc & Ha & Hp).
  cbn [rangeM] in Hp. apply res_bind_ok in Hp as (acc2 & Hb & Hp). apply res_bind_ok in Hb as (rs & Hrs & Hb). injection Hb as <-.
  apply branches_app in Ha as (R2 & -> & HR2). apply branches_app in Hp as (R4 & -> & _). cbn [dv_pend] in E3.
  exists (R1 ++ R2)%list, rs, (R4 ++ R3)%list. split; [rewrite E3, E1; by rewrite <- !app_assoc|]. split; [done|].
  intros x [Hx|Hx]%elem_of_app.
  - destruct (HR1 x Hx) as (q & Hq & Hkq & b & rb & Hb & Hrb & Hin). exists q, b, rb. split; [by left|done].
  - destruct (HR2 x Hx) as (b & rb & Hb & Hrb & Hin). exists p, b, rb. split; [by right|done].
Qed.

(** ** Lemmas: what restating does *)

(** A rule that parts where it arrives restates its branch's dst_in conditions,
    any other stays as it is. *)
Definition qualified (n : Network) (all : list pendingRule) (pr pr' : pendingRule) : Prop :=
  (¬ diverges all pr ∧ pr' = pr) ∨
  (diverges all pr ∧ pr' = withConditions pr (base.filter (λ c, isDstIn n c = true) (pr_when pr))).

Lemma withConditions_id pr : withConditions pr (conds pr) = pr.
Proof. by destruct pr as [nm [[? ? ?] ?] ? ? ?]. Qed.

Lemma qualifyFrom_exact n all catchAll pend r :
  qualifyFrom n all catchAll pend = Ok r → Forall (λ pr, pr_relay pr = true → conds pr = []) pend → Forall2 (qualified n all) pend r.1.
Proof.
  revert catchAll r. induction pend as [|pr pend IH]; intros catchAll r H Hc; cbn [qualifyFrom] in H; [injection H as <-; constructor|].
  apply Forall_cons_1 in Hc as [Hpr Hc]. destruct (negb (pr_relay pr) || _) eqn:Hg.
  - apply res_bind_ok in H as (q & Hq & H). injection H as <-. constructor; [left|by eapply IH]. split; [|done].
    intros [Hr Hs]. rewrite Hr in Hg. change (negb true) with false in Hg. rewrite orb_false_l in Hg. apply Nat.ltb_lt in Hg. lia.
  - apply orb_false_elim in Hg as [Hrel%negb_false_iff Hsz%Nat.ltb_ge].
    destruct (base.filter (λ c, isDstIn n c = true) (pr_when pr)) as [|c cs] eqn:Hf.
    + apply Config.check_ok in H as [_ H]. apply res_bind_ok in H as (q & Hq & H). injection H as <-. constructor; [right|by eapply IH].
      split; [done|]. rewrite Hf, <- (Hpr Hrel). symmetry. apply withConditions_id.
    + apply Config.check_ok in H as [_ H]. apply res_bind_ok in H as (q & Hq & H). injection H as <-. constructor; [right; by rewrite Hf|by eapply IH].
Qed.

(** Restating touches only the conditions. *)
Lemma qualified_same n all pr pr' : qualified n all pr pr' →
  pr_node pr' = pr_node pr ∧ Config.r_Action (pr_route pr') = Config.r_Action (pr_route pr) ∧
  Config.m_Source (Config.r_Match (pr_route pr')) = Config.m_Source (Config.r_Match (pr_route pr)) ∧
  Config.m_Processed (Config.r_Match (pr_route pr')) = Config.m_Processed (Config.r_Match (pr_route pr)).
Proof. by intros [[_ ->]|[_ ->]]. Qed.

Lemma Forall2_in_r {A B} (R : A → B → Prop) l k y : Forall2 R l k → y ∈ k → ∃ x, x ∈ l ∧ R x y.
Proof. intros H [i Hi]%list_elem_of_lookup_1. destruct (Forall2_lookup_r _ _ _ _ _ H Hi) as (x & Hx & Hr). exists x. split; [by eapply list_elem_of_lookup_2|done]. Qed.
Lemma Forall2_in_l {A B} (R : A → B → Prop) l k x : Forall2 R l k → x ∈ l → ∃ y, y ∈ k ∧ R x y.
Proof. intros H [i Hi]%list_elem_of_lookup_1. destruct (Forall2_lookup_l _ _ _ _ _ H Hi) as (y & Hy & Hr). exists y. split; [by eapply list_elem_of_lookup_2|done]. Qed.

(** Names in which the arrow of [actionKey] cannot occur. *)
Definition arrowless (s : string) : Prop := ascii_of_nat 226 ∉ chars s.
#[export] Instance arrowless_dec s : Decision (arrowless s).
Proof. unfold arrowless. apply _. Defined.

Lemma arrowless_nil : arrowless "".
Proof. apply not_elem_of_nil. Qed.

Lemma actionKey_inj a b : arrowless (Config.a_Egress a) → arrowless (Config.a_Egress b) → actionKey a = actionKey b → a = b.
Proof.
  destruct a as [e t], b as [e' t']. cbn. intros He He' H. apply (f_equal chars) in H. unfold actionKey in H. rewrite !chars_app, !chars_unchars in H.
  cbn [map app Config.a_Egress Config.a_Target] in H. apply cut_inj in H as [H1 H2]; [|done..]. injection H2 as H2. apply chars_inj in H1, H2. by subst.
Qed.

(** Relay rules that arrive together and do not part act alike. *)
Lemma together_alike all x y : ¬ diverges all x → x ∈ all → y ∈ all → pr_relay x = true → pr_relay y = true → arrival x = arrival y →
  arrowless (Config.a_Egress (Config.r_Action (pr_route x))) → arrowless (Config.a_Egress (Config.r_Action (pr_route y))) →
  Config.r_Action (pr_route x) = Config.r_Action (pr_route y).
Proof.
  intros Hd Hx Hy Hrx Hry Harr Hax Hay. apply actionKey_inj; [done..|].
  assert (∀ z, z ∈ all → pr_relay z = true → arrival z = arrival x → actionKey (Config.r_Action (pr_route z)) ∈ actionsAt all (arrival x)) as Hin.
  { intros z Hz Hr Ha. unfold actionsAt. apply elem_of_list_to_set, list_elem_of_fmap. exists z. split; [done|]. by apply list_elem_of_filter. }
  assert (size (actionsAt all (arrival x)) ≤ 1)%nat as Hs.
  { destruct (decide (2 ≤ size (actionsAt all (arrival x)))%nat); [|lia]. by destruct Hd. }
  destruct (decide (actionKey (Config.r_Action (pr_route x)) = actionKey (Config.r_Action (pr_route y)))) as [|Hne]; [done|].
  enough (2 ≤ size (actionsAt all (arrival x)))%nat by lia.
  transitivity (size ({[actionKey (Config.r_Action (pr_route x)); actionKey (Config.r_Action (pr_route y))]} : gset string)).
  - rewrite size_union, !size_singleton by set_solver. done.
  - apply subseteq_size. pose proof (Hin x Hx Hrx eq_refl). pose proof (Hin y Hy Hry (eq_sym Harr)). set_solver.
Qed.

(** ** Lemmas: the rules a node ends up with *)

Definition ruleTables (out : routes) : gmap string (list Config.Route) := Config.n_Routes <$> out.

Lemma tables_atNode out name f out' : (∀ cn, Config.n_Routes (f cn) = Config.n_Routes cn) → atNode out name f = Ok out' → ruleTables out' = ruleTables out.
Proof.
  intros Hf (cn & Hcn & ->)%atNode_some. unfold ruleTables. rewrite fmap_insert, Hf. apply insert_id. by rewrite lookup_fmap, Hcn.
Qed.

Lemma tables_pathStep n links d p d' : pathStep n links d p = Ok d' → ruleTables (dv_out d') = ruleTables (dv_out d).
Proof.
  unfold pathStep. intros H. apply res_bind_ok in H as (nd & _ & H). destruct (nd_Datapath nd =? "kernel").
  - apply res_bind_ok in H as (out & Ho & H). injection H as <-. cbn [dv_out].
    refine (Config.rangeM_inv _ (λ o, ruleTables o = ruleTables (dv_out d)) _ _ _ _ _ Ho); [|done].
    intros o b o' _ <- Hx. by eapply tables_atNode; [|exact Hx].
  - apply res_bind_ok in H as (pend & _ & H). by injection H as <-.
Qed.

Lemma tables_emitConditions n out refs out' : emitConditions n out refs = Ok out' → ruleTables out' = ruleTables out.
Proof.
  assert (∀ st nc st', emitCondition n st nc = Ok st' → ruleTables st'.1 = ruleTables st.1) as Hone.
  { intros st nc st'. unfold emitCondition. case_bool_decide; [by intros [= ->]|]. intros (d & _ & He)%res_bind_ok.
    apply res_bind_ok in He as (o & Ho & He). injection He as <-. cbn [fst]. by eapply tables_atNode; [|exact Ho]. }
  intros H. unfold emitConditions in H. apply res_bind_ok in H as (st & Hst & H). apply res_bind_ok in H as (st' & Hst' & H).
  injection H as <-. refine (Config.rangeM_inv _ (λ st, ruleTables st.1 = ruleTables out) _ _ _ _ _ Hst').
  - intros s [c spec] s' _ Hs Hx. rewrite <- Hs. destruct (cs_Healthcheck spec); [|by injection Hx as ->].
    apply res_bind_ok in Hx as (bt & _ & Hx). by eapply Hone.
  - refine (Config.rangeM_inv _ (λ st, ruleTables st.1 = ruleTables out) _ _ _ _ _ Hst); [|done].
    intros s nc s' _ <- Hx. apply res_bind_ok in Hx as (u & _ & Hx). by eapply Hone.
Qed.

Lemma tables_addLink n out l out' : addLinkConnections n out l = Ok out' → ruleTables out' = ruleTables out.
Proof.
  intros H. unfold addLinkConnections in H. apply res_bind_ok in H as (dl & [_ ->]%nodeAt_ok & H).
  apply res_bind_ok in H as (ac & [_ ->]%nodeAt_ok & H).
  destruct (resolveSource (node n (l_Dialer l)) (l_DialerSource l)) as [dif dip].
  destruct (resolveSource (node n (l_Acceptor l)) (l_AcceptorSource l)) as [aif aip].
  apply res_bind_ok in H as (setter & Hset & H). apply res_bind_ok in H as (o1 & H1 & H2).
  transitivity (ruleTables o1); by eapply tables_atNode; [|eassumption].
Qed.

(** The rules of a compiled network: those derived for the node, restated,
    repetitions dropped, the ones that deliver to the tun first. *)
Lemma compiled_tables n out : Compile n = Ok out → ∃ n' d q,
  inferGateways n (linkMap n) = Ok n' ∧
  (∃ out0, rangeM (pathStep n' (linkMap n)) (MkDerivation out0 [] []) (w_Paths n') = Ok d) ∧
  qualifyRules n' (dv_pend d) = Ok q ∧
  (∀ pr, pr ∈ q.1 → is_Some (ruleTables out !! pr_node pr)) ∧
  ∀ name rs, ruleTables out !! name = Some rs →
    rs = match originTun (node n' name) with Some tun => tunFirst tun (dedup ∅ (rulesOf name q.1)) | None => dedup ∅ (rulesOf name q.1) end.
Proof.
  intros H. apply Compile_stages in H as (o1 & n' & o2 & H1 & Hn' & Hd & -> & _).
  assert (∀ name rs, ruleTables o1 !! name = Some rs → rs = []) as H0.
  { enough (ruleTables o1 = ruleTables (baseNode n <$> w_Nodes n)) as E.
    { intros name rs. rewrite E. unfold ruleTables. rewrite !lookup_fmap. destruct (w_Nodes n !! name); [|done]. by intros [= <-]. }
    refine (Config.rangeM_inv _ (λ o, ruleTables o = ruleTables (baseNode n <$> w_Nodes n)) _ _ _ _ _ H1); [|done].
    intros o l o' _ <- Hx. by eapply tables_addLink. }
  unfold deriveRoutes in Hd. apply res_bind_ok in Hd as (d & Hps & Hd). apply res_bind_ok in Hd as (q & Hq & Hd).
  apply res_bind_ok in Hd as (o3 & Ho3 & Hd). apply res_bind_ok in Hd as (o4 & Ho4 & Hd). injection Hd as <-.
  exists n', d, q. split; [done|]. split; [by exists o1|]. split; [done|]. split.
  { intros pr Hpr. apply emitRules_ok in Ho3 as (s & Hs & [_ _ Hh _ _]). destruct (Hh pr Hpr) as [c3 H3]. rewrite Hs in H3.
    apply tables_emitConditions in Ho4. apply (f_equal (λ m, m !! pr_node pr)) in Ho4. unfold ruleTables in *. rewrite !lookup_fmap, H3 in Ho4.
    rewrite !lookup_fmap. unfold sortRoutes. rewrite map_lookup_imap. destruct (o4 !! pr_node pr); [|done]. cbn. by eexists. }
  intros name rs Hrs.
  assert (ruleTables (dv_out d) = ruleTables o1) as Ed.
  { refine (Config.rangeM_inv _ (λ d, ruleTables (dv_out d) = ruleTables o1) _ _ _ _ _ Hps); [|done].
    intros s p s' _ <- Hx. by eapply tables_pathStep. }
  unfold ruleTables in Hrs. rewrite !lookup_fmap in Hrs. unfold sortRoutes in Hrs. rewrite map_lookup_imap in Hrs.
  destruct (o4 !! name) as [c4|] eqn:H4; [|done]. cbn in Hrs.
  assert (Config.n_Routes c4 = dedup ∅ (rulesOf name q.1)) as E4.
  { apply tables_emitConditions in Ho4. apply (f_equal (λ m, m !! name)) in Ho4. unfold ruleTables in Ho4. rewrite !lookup_fmap, H4 in Ho4.
    apply emitRules_ok in Ho3 as (s & Hs & [Hr _ _ _ _]). destruct (o3 !! name) as [c3|] eqn:H3; [|done]. cbn in Ho4. injection Ho4 as Ho4.
    rewrite <- Hs in H3. destruct (Hr name c3 H3) as (c0 & Hc0 & E3). rewrite Ho4, E3. cbn [setRoutes Config.n_Routes].
    apply (f_equal (λ m, m !! name)) in Ed. unfold ruleTables in Ed. rewrite !lookup_fmap, Hc0 in Ed. cbn in Ed.
    specialize (H0 name (Config.n_Routes c0)). unfold ruleTables in H0. rewrite lookup_fmap in H0. by rewrite H0 by congruence. }
  rewrite <- E4. injection Hrs as <-. by destruct (originTun (node n' name)).
Qed.

(** ** The router takes the decision *)

Section router.
Context {W : Type} (conns : gmap string (Router.Conn W)) (conditions : gmap string (Router.Guard W)) (finalizers : gmap string (Router.FinalizeFunc W)).

(** What an action does to the world: hand the packet to the egress, with where
    replies go, or send it on. *)
Definition perform (w : W) (e : Envelope) (payload : list Z) (a : Config.Action) : W :=
  match conns !! Config.a_Target a ≫= Router.c_sender with
  | None => w
  | Some s =>
      match (if Config.a_Egress a =? "" then None else finalizers !! Config.a_Egress a) with
      | Some fin => fin w (Env_Owner e) s payload
      | None => (Router.snd_Send s w e payload).1
      end
  end.

(** A target that takes the packet. *)
Definition ready (w : W) (e : Envelope) (payload : list Z) (a : Config.Action) : Prop :=
  ∃ c s, conns !! Config.a_Target a = Some c ∧ Router.c_sender c = Some s ∧
    Router.snd_Accepts s w (Env_Owner e) = true ∧ (Router.snd_Send s w e payload).2 = true.

(** Where every target takes the packet, a node's table does to it what [decision]
    says. *)
Theorem router_decides rec src w e payload c :
  (∀ r, r ∈ Config.n_Routes c → ready w e payload (Config.r_Action r)) →
  (Router.evalTable conns conditions finalizers rec src w (Node.compileRules c) e payload).1 =
    from_option (perform w e payload) w
      (decision (Router.conditionHolds conditions w (Env_Owner e) payload) (Env_Processed e) src (Config.n_Routes c)).
Proof.
  unfold Node.compileRules, decision. induction (Config.n_Routes c) as [|r rs IH]; intros Hr; [done|].
  destruct (Hr r ltac:(left)) as (cn & s & Hc & Hs & Ha & Hd). cbn [map Router.evalTable List.find].
  unfold Router.rowTakes, Router.rowFor, Router.matches, takes. cbn [Router.MatchProcessed Router.Source Router.Conditions Router.Egress Router.Target].
  rewrite Hc, Hs, Ha. cbn [andb].
  destruct (_ && (_ || _)) eqn:Hrow; cbn [negb andb]; [|by apply IH; intros q Hq; apply Hr; right].
  destruct (forallb _ _); [|by apply IH; intros q Hq; apply Hr; right].
  cbn [fmap option_fmap option_map from_option]. unfold perform. rewrite Hc. cbn [mbind option_bind]. rewrite Hs.
  change (Config.a_Egress (Config.r_Action r) =? "") with (String.eqb (Config.a_Egress (Config.r_Action r)) "").
  destruct (if String.eqb _ _ then _ else _); [done|]. destruct (Router.snd_Send s w e payload) as [w' b]. cbn in Hd |- *. by rewrite Hd.
Qed.
End router.

(** ** Specification: a packet's way through the network *)

Definition rulesAt (out : routes) (name : string) : list Config.Route := default [] (ruleTables out !! name).

(** From a node and the connection the packet came from: the links it takes, the
    node that finalizes it and what that node does.  [ev] tells which conditions
    hold at a node. *)
Fixpoint travel (fuel : nat) (links : gmap string Link) (out : routes) (ev : string → string → bool) (name src : string)
    : option (list string * string * Config.Action) :=
  match fuel with
  | O => None
  | S fuel' =>
      a ← decision (ev name) false src (rulesAt out name);
      if Config.a_Egress a =? "" then
        l ← links !! Config.a_Target a;
        '(trail, gw, fin) ← travel fuel' links out ev (targetOf l) (l_Name l);
        Some (l_Name l :: trail, gw, fin)
      else Some ([], name, a)
  end.

(** Names that the rules of one path cannot confuse with another's: links and tuns
    apart, no empty names, no arrow in an egress. *)
Record apart (n : Network) (links : gmap string Link) : Prop := {
  ap_links : ∀ ln l, links !! ln = Some l → ln ≠ "";
  ap_tuns : ∀ q, q ∈ w_Paths n → kernelPath n q = false → pathTun n q ≠ "" ∧ links !! pathTun n q = None;
  ap_gateways : ∀ q b, q ∈ w_Paths n → b ∈ pt_Routes q → b_Up b ≠ [] → b_Gateway b ≠ "";
  ap_egresses : ∀ q b, q ∈ w_Paths n → b ∈ pt_Routes q → arrowless (b_Egress b);
}.

Definition apartb (n : Network) (links : gmap string Link) : bool :=
  bool_decide (map_Forall (λ ln _, ln ≠ "") links) &&
  forallb (λ q, (kernelPath n q || bool_decide (pathTun n q ≠ "" ∧ links !! pathTun n q = None)) &&
    forallb (λ b, (bool_decide (b_Up b = []) || bool_decide (b_Gateway b ≠ "")) && bool_decide (arrowless (b_Egress b))) (pt_Routes q)) (w_Paths n).

Lemma apartb_sound n links : apartb n links = true → apart n links.
Proof.
  unfold apartb. rewrite andb_true_iff, bool_decide_eq_true, forallb_forall. intros [Hl Hp].
  assert (∀ q, q ∈ w_Paths n → (kernelPath n q || bool_decide (pathTun n q ≠ "" ∧ links !! pathTun n q = None)) = true ∧
    ∀ b, b ∈ pt_Routes q → (b_Up b = [] ∨ b_Gateway b ≠ "") ∧ arrowless (b_Egress b)) as H.
  { intros q Hin%list_elem_of_In. specialize (Hp q Hin). rewrite andb_true_iff, forallb_forall in Hp. destruct Hp as [Ht Hb]. split; [done|].
    intros b Hbr%list_elem_of_In. specialize (Hb b Hbr). by rewrite andb_true_iff, orb_true_iff, !bool_decide_eq_true in Hb. }
  split.
  - exact Hl.
  - intros q Hq Hk. destruct (H q Hq) as [Ht _]. rewrite Hk in Ht. by apply bool_decide_eq_true in Ht.
  - intros q b Hq Hb Hu. destruct (H q Hq) as [_ Hbr]. by destruct (Hbr b Hb) as [[?|?] _].
  - intros q b Hq Hb. destruct (H q Hq) as [_ Hbr]. by destruct (Hbr b Hb) as [_ ?].
Qed.

(** A branch that does not get in the way of [br]: it shares none of its up-links,
    or one of its dst_in conditions fails. *)
Definition out_of_way (n : Network) (ev : string → string → bool) (br b : Branch) : Prop :=
  (∀ u, u ∈ b_Up br → u ∉ b_Up b) ∨
  ∃ c, c ∈ b_When b ∧ isDstIn n c = true ∧ ∀ name, ev name c = false.

(** ** Lemmas: which rule a node takes *)

Lemma takes_source ev src r : takes ev false src r = true → Config.m_Source (Config.r_Match r) ≠ "" → Config.m_Source (Config.r_Match r) = src.
Proof.
  unfold takes. intros [[_ H]%andb_true_iff _]%andb_true_iff Hne. apply orb_true_iff in H as [H|H]; apply String.eqb_eq in H; [by destruct Hne|done].
Qed.

Lemma takes_conditions ev p src r c : takes ev p src r = true → c ∈ Config.m_Conditions (Config.r_Match r) → ev c = true.
Proof. unfold takes. intros [_ H]%andb_true_iff Hc. rewrite forallb_forall in H. by apply H, list_elem_of_In. Qed.

Lemma takes_processed ev src r : Config.m_Processed (Config.r_Match r) = Some true → takes ev false src r = false.
Proof. unfold takes. by intros ->. Qed.

Lemma takes_intro ev src r : Config.m_Processed (Config.r_Match r) = Some false → Config.m_Source (Config.r_Match r) = src →
  (∀ c, c ∈ Config.m_Conditions (Config.r_Match r) → ev c = true) → takes ev false src r = true.
Proof.
  unfold takes. intros -> -> H. rewrite String.eqb_refl, orb_true_r. cbn. apply forallb_forall. intros c Hc%list_elem_of_In. by apply H.
Qed.

(** The rules of a branch that match unprocessed packets: the origin's, then one per up-link. *)
Lemma branch_cases links p tun br rs x : Checked.gateway_ok links br → (b_Up br ≠ [] → b_Gateway br ≠ "") → branchRules links p tun br = Ok rs →
  x ∈ rs → x = originRule links p tun br ∨ isProcessed x ∨
    ∃ j l, linksOf links (b_Up br) !! j = Some l ∧ x = hopRule p br (gwTargetOf links p tun br) (linksOf links (b_Up br) !! S j) l.
Proof.
  intros Hg Hne H Hx. destruct (branch_shape _ _ _ _ _ Hg Hne H) as (ds & Hds & ->).
  apply elem_of_cons in Hx as [->|[Hx|Hx]%elem_of_app]; [by left| |].
  - right. right. apply elem_of_lookup_imap in Hx as (j & l & -> & Hl). by exists j, l.
  - right. left. by eapply (Forall_forall isProcessed ds).
Qed.

Lemma branch_origin links p tun br rs : Checked.gateway_ok links br → (b_Up br ≠ [] → b_Gateway br ≠ "") → branchRules links p tun br = Ok rs →
  originRule links p tun br ∈ rs.
Proof. intros Hg Hne H. destruct (branch_shape _ _ _ _ _ Hg Hne H) as (ds & _ & ->). left. Qed.

Lemma branch_hop links p tun br rs j l : Checked.gateway_ok links br → (b_Up br ≠ [] → b_Gateway br ≠ "") → branchRules links p tun br = Ok rs →
  linksOf links (b_Up br) !! j = Some l → hopRule p br (gwTargetOf links p tun br) (linksOf links (b_Up br) !! S j) l ∈ rs.
Proof.
  intros Hg Hne H Hl. destruct (branch_shape _ _ _ _ _ Hg Hne H) as (ds & _ & ->). right. apply elem_of_app. left.
  apply elem_of_lookup_imap. by exists j, l.
Qed.

Lemma decision_pending n out d q name ev src A rs B a :
  (∀ nm t, ruleTables out !! nm = Some t →
    t = match originTun (node n nm) with Some tun => tunFirst tun (dedup ∅ (rulesOf nm q)) | None => dedup ∅ (rulesOf nm q) end) →
  is_Some (ruleTables out !! name) →
  Forall2 (qualified n (dv_pend d)) (dv_pend d) q → Forall pending_clean q → dv_pend d = (A ++ rs ++ B)%list →
  (∀ x x', (x ∈ A ∨ x ∈ rs) → qualified n (dv_pend d) x x' → pr_node x = name → takes ev false src (pr_route x') = true → Config.r_Action (pr_route x) = a) →
  (∃ x, x ∈ rs ∧ pr_node x = name ∧ ∀ x', qualified n (dv_pend d) x x' → takes ev false src (pr_route x') = true) →
  decision ev false src (rulesAt out name) = Some a.
Proof.
  intros Ht [t Hname] Hq Hc Hd Hall (x & Hx & Hxn & Hxt). unfold decision, rulesAt. rewrite Hname. cbn [default from_option id]. unfold id.
  assert (List.find (takes ev false src) t = List.find (takes ev false src) (rulesOf name q)) as ->.
  { assert (List.find (takes ev false src) (dedup ∅ (rulesOf name q)) = List.find (takes ev false src) (rulesOf name q)) as Hdd.
    { apply find_dedup; [|by intros r _ ?%elem_of_empty]. apply Forall_forall. intros r Hr. unfold rulesOf in Hr.
      apply list_elem_of_fmap in Hr as (pr & -> & [_ Hpr]%list_elem_of_filter). rewrite Forall_forall in Hc. by apply Hc. }
    rewrite (Ht name t Hname). destruct (originTun (node n name)); [by rewrite find_tunFirst|done]. }
  rewrite find_rulesOf. rewrite Hd in Hq at 2. apply Forall2_app_inv_l in Hq as (A' & q2 & HA & Hq2 & ->).
  apply Forall2_app_inv_l in Hq2 as (rs' & B' & Hrs & _ & ->).
  assert (∀ y, y ∈ A' ∨ y ∈ rs' → bool_decide (pr_node y = name) && takes ev false src (pr_route y) = true → Config.r_Action (pr_route y) = a) as Hin.
  { intros y Hy [Hn%bool_decide_eq_true Hf]%andb_true_iff.
    assert (∃ z, (z ∈ A ∨ z ∈ rs) ∧ qualified n (dv_pend d) z y) as (z & Hz & Hzy).
    { destruct Hy as [Hy|Hy]; eapply Forall2_in_r in Hy as (z & ? & ?); [|done| |done]; exists z; auto. }
    destruct (qualified_same _ _ _ _ Hzy) as (En & Ea & _). rewrite Ea. eapply Hall; [done..| |done]. congruence. }
  apply find_segment.
  - intros y Hy. apply Hin. by left.
  - intros y Hy. apply Hin. by right.
  - destruct (Forall2_in_l _ _ _ _ Hrs Hx) as (x' & Hx' & Hqx). exists x'. split; [done|].
    destruct (qualified_same _ _ _ _ Hqx) as (En & _). rewrite bool_decide_eq_true_2 by congruence. cbn. by apply Hxt.
Qed.

Lemma linksOf_lookup n links br j l : Checked.linked n links → (∀ ln, ln ∈ b_Up br → is_Some (links !! ln)) →
  linksOf links (b_Up br) !! j = Some l → b_Up br !! j = Some (l_Name l) ∧ links !! l_Name l = Some l.
Proof.
  intros Hl Hk H. unfold linksOf in H. rewrite list_lookup_fmap in H. destruct (b_Up br !! j) as [ln|] eqn:Hj; [|done]. cbn in H. injection H as <-.
  destruct (Hk ln) as [l Hll]; [by eapply list_elem_of_lookup_2|]. rewrite Hll. cbn. destruct (Hl ln l Hll) as (-> & _). done.
Qed.

(** ** One branch of a compiled network *)

Section branch.
Context (n : Network) (out : routes) (ev : string → string → bool).
Context (ps ps' : list Path) (p : Path) (pre post : list Branch) (br : Branch).
Local Notation links := (linkMap n).
Local Notation tun := (pathTun n p).
Hypothesis Hck : Checked.checked n links.
Hypothesis Hclean : clean_names n links.
Hypothesis Hap : apart n links.
Hypothesis Hps : w_Paths n = (ps ++ p :: ps')%list.
Hypothesis Hkernel : kernelPath n p = false.
Hypothesis Hrt : pt_Routes p = (pre ++ br :: post)%list.
Hypothesis Hloop : NoDup (b_Up br).
Hypothesis Hwhen : ∀ c, c ∈ b_When br → ev (OriginNode p) c = true ∧ (isDstIn n c = true → ∀ name, ev name c = true).
Hypothesis Hpre : ∀ b, b ∈ pre → ∃ c, c ∈ b_When b ∧ ev (OriginNode p) c = false.
Hypothesis Hway : ∀ q b, earlier ps p pre q b → out_of_way n ev br b.

Lemma in_paths q b : earlier ps p pre q b → q ∈ w_Paths n ∧ b ∈ pt_Routes q.
Proof. rewrite Hps. intros [[Hq Hb]|[-> Hb]].
  - split; [|done]. apply elem_of_app. by left.
  - rewrite Hrt. split; apply elem_of_app; [right; left|by left].
Qed.

Lemma br_in : p ∈ w_Paths n ∧ br ∈ pt_Routes p.
Proof. rewrite Hps, Hrt. split; apply elem_of_app; right; left. Qed.

Lemma gateway_facts q b : q ∈ w_Paths n → b ∈ pt_Routes q → Checked.gateway_ok links b ∧ (b_Up b ≠ [] → b_Gateway b ≠ "").
Proof. intros Hq Hb. split; [by apply (Checked.ck_branches n links Hck q b)|exact (ap_gateways n links Hap q b Hq Hb)]. Qed.

Lemma up_link q b j l : q ∈ w_Paths n → b ∈ pt_Routes q → linksOf links (b_Up b) !! j = Some l →
  b_Up b !! j = Some (l_Name l) ∧ links !! l_Name l = Some l ∧ l_Name l ≠ "".
Proof.
  intros Hq Hb Hl. destruct (Checked.ck_branches n links Hck q b Hq Hb) as [[_ Hk _] _].
  destruct (linksOf_lookup n links b j l (Checked.ck_links n links Hck)) as [H1 H2]; [|done|].
  - intros ln Hln. apply Hk, elem_of_app. by left.
  - split; [done|]. split; [done|]. by eapply (ap_links n links Hap).
Qed.

(** The rule of another branch's up-link applies to a packet of this branch only if
    it does the same with it. *)
Lemma other_hop all q b j l l' i x' x :
  earlier ps p pre q b → linksOf links (b_Up b) !! j = Some l → linksOf links (b_Up br) !! i = Some l' → l_Name l = l_Name l' →
  x = hopRule q b (gwTargetOf links q (pathTun n q) b) (linksOf links (b_Up b) !! S j) l →
  x ∈ all → hopRule p br (gwTargetOf links p tun br) (linksOf links (b_Up br) !! S i) l' ∈ all →
  qualified n all x x' → takes (ev (targetOf l')) false (l_Name l') (pr_route x') = true →
  Config.r_Action (pr_route x) = hopAction br (gwTargetOf links p tun br) (linksOf links (b_Up br) !! S i).
Proof.
  intros He Hl Hl' Hn -> Hx Hy Hq Ht. destruct (in_paths q b He) as [Hqp Hb]. destruct br_in as [Hp Hbr].
  destruct (up_link q b j l Hqp Hb Hl) as (Hj & Hll & _). destruct (up_link p br i l' Hp Hbr Hl') as (Hi & Hll' & _).
  assert (l = l') as -> by congruence.
  destruct (Hway q b He) as [Hno|(c & Hc & Hd & Hf)].
  { destruct (Hno (l_Name l')); by eapply list_elem_of_lookup_2. }
  destruct Hq as [[Hnd _]|[_ ->]].
  - change (hopAction br (gwTargetOf links p tun br) (linksOf links (b_Up br) !! S i)) with
      (Config.r_Action (pr_route (hopRule p br (gwTargetOf links p tun br) (linksOf links (b_Up br) !! S i) l'))).
    eapply together_alike; [exact Hnd|exact Hx|exact Hy|done|done|done| |]; cbn; unfold hopAction.
    + destruct (linksOf links (b_Up b) !! S j); [apply arrowless_nil|exact (ap_egresses n links Hap q b Hqp Hb)].
    + destruct (linksOf links (b_Up br) !! S i); [apply arrowless_nil|exact (ap_egresses n links Hap p br Hp Hbr)].
  - exfalso. assert (ev (targetOf l') c = true) as Ht'; [|by rewrite Hf in Ht'].
    eapply takes_conditions; [exact Ht|]. cbn. apply list_elem_of_filter. by split.
Qed.

Lemma clean_pending d o q : rangeM (pathStep n links) (MkDerivation o [] []) (w_Paths n) = Ok d → qualifyRules n (dv_pend d) = Ok q →
  Forall2 (qualified n (dv_pend d)) (dv_pend d) q.1 ∧ Forall pending_clean q.1.
Proof.
  intros Hd Hq. pose proof (paths_clean n links d o Hclean Hd) as Hc. split; [|eapply restated_clean; [by eapply qualifyFrom_rel|done]].
  eapply qualifyFrom_exact; [exact Hq|]. apply paths_app in Hd as (R & E & HR). apply Forall_forall. intros x Hx Hrel.
  rewrite E in Hx. destruct (HR x Hx) as (r & Hr & _ & b & rs & Hb & Hrs & Hin). destruct (gateway_facts r b Hr Hb) as [Hg Hne].
  destruct (branch_shape _ _ _ _ _ Hg Hne Hrs) as (ds & Hds & ->). apply elem_of_cons in Hin as [->|[Hin|Hin]%elem_of_app]; [done| |].
  - by apply elem_of_lookup_imap in Hin as (j & l & -> & _).
  - rewrite Forall_forall in Hds. destruct (Hds x Hin) as [_ Hr']. congruence.
Qed.

Lemma tun_apart q : q ∈ w_Paths n → kernelPath n q = false → ∀ l, links !! l_Name l = Some l → pathTun n q ≠ "" ∧ pathTun n q ≠ l_Name l.
Proof. intros Hq Hk l Hl. destruct (ap_tuns n links Hap q Hq Hk) as [H1 H2]. split; [done|]. intros He. by rewrite He, Hl in H2. Qed.

Lemma same_origin r q : r ∈ w_Paths n → q ∈ w_Paths n → OriginNode r = OriginNode q → r = q.
Proof.
  intros [i Hi]%list_elem_of_lookup_1 [j Hj]%list_elem_of_lookup_1 He. pose proof (Checked.ck_paths n links Hck) as Hnd.
  assert (i = j) as ->; [|congruence]. apply (NoDup_lookup _ _ _ (OriginNode r) Hnd); rewrite list_lookup_fmap; [by rewrite Hi|by rewrite Hj, He].
Qed.

Lemma origins_apart : p ∉ ps.
Proof.
  intros Hin. pose proof (Checked.ck_paths n links Hck) as Hnd. rewrite Hps, map_app in Hnd. apply NoDup_app in Hnd as (_ & Hnd & _).
  apply (Hnd (pt_Node p)); [by apply (list_elem_of_fmap_2 pt_Node)|left].
Qed.

(** Where the rules up to the branch's come from. *)
Lemma rule_source (A rs : list pendingRule) x :
  (∀ x, x ∈ A → ∃ q b rb, earlier ps p pre q b ∧ kernelPath n q = false ∧ branchRules links q (pathTun n q) b = Ok rb ∧ x ∈ rb) →
  branchRules links p tun br = Ok rs → x ∈ A ∨ x ∈ rs →
  ∃ r b rb, r ∈ w_Paths n ∧ b ∈ pt_Routes r ∧ (earlier ps p pre r b ∨ (r = p ∧ b = br)) ∧ kernelPath n r = false ∧
    branchRules links r (pathTun n r) b = Ok rb ∧ x ∈ rb.
Proof.
  intros HA Hrs [Hx|Hx].
  - destruct (HA x Hx) as (r & b & rb & He & ? & ? & ?). exists r, b, rb. destruct (in_paths r b He). by split_and!; [..|left| | |].
  - exists p, br, rs. destruct br_in. by split_and!; [..|right| | |].
Qed.

(** The decision at an up-link's node. *)
Lemma hop_decides i l : Compile n = Ok out → inferGateways n links = Ok n → linksOf links (b_Up br) !! i = Some l →
  decision (ev (targetOf l)) false (l_Name l) (rulesAt out (targetOf l)) = Some (hopAction br (gwTargetOf links p tun br) (linksOf links (b_Up br) !! S i)).
Proof.
  intros Hc Hinf Hl. apply compiled_tables in Hc as (n' & d & q & Hn' & (o & Hd) & Hq & Hat & Ht). rewrite Hinf in Hn'. injection Hn' as <-.
  destruct (clean_pending d o q Hd Hq) as [Hqual Hcl]. destruct br_in as [Hp Hbr]. destruct (gateway_facts p br Hp Hbr) as [Hg Hne].
  rewrite Hps in Hd. apply (derivation_split n links _ d ps p ps' pre br post) in Hd as (A & rs & B & Hpend & Hrs & HA); [|done..].
  destruct (up_link p br i l Hp Hbr Hl) as (Hi & Hll & Hlne).
  pose proof (branch_hop _ _ _ _ _ _ _ Hg Hne Hrs Hl) as Hhop.
  assert (∀ x, x ∈ A ∨ x ∈ rs → x ∈ dv_pend d) as Hsub by (intros x Hx; rewrite Hpend; set_solver).
  eapply (decision_pending n out d q.1 _ _ _ A rs B); [exact Ht| |exact Hqual|exact Hcl|exact Hpend| |].
  - destruct (Forall2_in_l _ _ _ _ Hqual (Hsub _ (or_intror Hhop))) as (x' & Hx' & Hq'). destruct (qualified_same _ _ _ _ Hq') as (En & _).
    apply Hat in Hx'. by rewrite En in Hx'.
  - intros x x' Hx Hq' Hnode Htk. destruct (qualified_same _ _ _ _ Hq') as (En & Ea & Es & Ep).
    destruct (rule_source A rs x HA Hrs Hx) as (r & b & rb & Hr & Hb & Hrb & Hkr & Hbr' & Hin).
    destruct (gateway_facts r b Hr Hb) as [Hgb Hneb]. destruct (branch_cases _ _ _ _ _ _ Hgb Hneb Hbr' Hin) as [->|[[Hp' _]|(j & lj & Hlj & ->)]].
    + destruct (tun_apart r Hr Hkr l Hll) as [Ht1 Ht2]. destruct Ht2. rewrite <- (takes_source _ _ _ Htk); [by rewrite Es|by rewrite Es].
    + rewrite takes_processed in Htk by (by rewrite Ep). done.
    + destruct (up_link r b j lj Hr Hb Hlj) as (Hj & Hllj & Hnej).
      assert (l_Name lj = l_Name l) as Hn by (rewrite <- (takes_source _ _ _ Htk); rewrite Es; done).
      destruct Hrb as [He|[-> ->]].
      * eapply (other_hop (dv_pend d) r b j lj l i); [done..|by apply Hsub|apply Hsub; by right|done|done].
      * assert (j = i) as ->; [|cbn; congruence]. eapply NoDup_lookup; [exact Hloop|exact Hj|]. by rewrite Hn.
  - eexists. split; [exact Hhop|]. split; [done|]. intros x' Hq'. destruct (qualified_same _ _ _ _ Hq') as (En & Ea & Es & Ep).
    apply takes_intro; [by rewrite Ep|by rewrite Es|]. destruct Hq' as [[_ ->]|[_ ->]]; [by intros c ?%elem_of_nil|].
    intros c [Hd' Hc']%list_elem_of_filter. by apply (Hwhen c Hc').
Qed.

(** The decision at the origin. *)
Lemma origin_decides : Compile n = Ok out → inferGateways n links = Ok n →
  decision (ev (OriginNode p)) false tun (rulesAt out (OriginNode p)) = Some (originAction links tun br).
Proof.
  intros Hc Hinf. apply compiled_tables in Hc as (n' & d & q & Hn' & (o & Hd) & Hq & Hat & Ht). rewrite Hinf in Hn'. injection Hn' as <-.
  destruct (clean_pending d o q Hd Hq) as [Hqual Hcl]. destruct br_in as [Hp Hbr]. destruct (gateway_facts p br Hp Hbr) as [Hg Hne].
  rewrite Hps in Hd. apply (derivation_split n links _ d ps p ps' pre br post) in Hd as (A & rs & B & Hpend & Hrs & HA); [|done..].
  pose proof (branch_origin _ _ _ _ _ Hg Hne Hrs) as Ho.
  assert (∀ x, x ∈ A ∨ x ∈ rs → x ∈ dv_pend d) as Hsub by (intros x Hx; rewrite Hpend; set_solver).
  eapply (decision_pending n out d q.1 _ _ _ A rs B); [exact Ht| |exact Hqual|exact Hcl|exact Hpend| |].
  - destruct (Forall2_in_l _ _ _ _ Hqual (Hsub _ (or_intror Ho))) as (x' & Hx' & Hq'). destruct (qualified_same _ _ _ _ Hq') as (En & _).
    apply Hat in Hx'. by rewrite En in Hx'.
  - intros x x' Hx Hq' Hnode Htk. destruct (qualified_same _ _ _ _ Hq') as (En & Ea & Es & Ep).
    destruct (rule_source A rs x HA Hrs Hx) as (r & b & rb & Hr & Hb & Hrb & Hkr & Hbr' & Hin).
    destruct (gateway_facts r b Hr Hb) as [Hgb Hneb]. destruct (branch_cases _ _ _ _ _ _ Hgb Hneb Hbr' Hin) as [->|[[Hp' _]|(j & lj & Hlj & ->)]].
    + assert (r = p) as -> by (by apply (same_origin r p)).
      destruct Hrb as [[[Hq1 _]|[_ Hpb]]|[_ ->]]; [by destruct (origins_apart Hq1)| |done].
      exfalso. destruct (Hpre b Hpb) as (c & Hcb & Hf). assert (ev (OriginNode p) c = true) as Ht'; [|by rewrite Hf in Ht'].
      eapply takes_conditions; [exact Htk|]. destruct Hq' as [[_ ->]|[[Hrel _] _]]; [exact Hcb|done].
    + rewrite takes_processed in Htk by (by rewrite Ep). done.
    + destruct (up_link r b j lj Hr Hb Hlj) as (Hj & Hllj & Hnej). destruct (tun_apart p Hp Hkernel lj Hllj) as [_ Ht2].
      destruct Ht2. symmetry. rewrite <- (takes_source _ _ _ Htk); rewrite Es; done.
  - eexists. split; [exact Ho|]. split; [done|]. intros x' Hq'. destruct (qualified_same _ _ _ _ Hq') as (En & Ea & Es & Ep).
    apply takes_intro; [by rewrite Ep|by rewrite Es|]. destruct Hq' as [[_ ->]|[[Hrel _] _]]; [|done].
    intros c Hc'. by destruct (Hwhen c Hc') as [? _].
Qed.

(** From one up-link's node on. *)
Lemma travel_links i ls : Compile n = Ok out → inferGateways n links = Ok n → drop i (linksOf links (b_Up br)) = ls →
  ∀ l ls', ls = l :: ls' →
  travel (length ls) links out ev (targetOf l) (l_Name l) =
    Some (map l_Name ls', b_Gateway br, Config.MkAction (b_Egress br) (gwTargetOf links p tun br)).
Proof.
  intros Hc Hinf. revert i. destruct br_in as [Hp Hbr].
  assert (b_Egress br ≠ "") as He by (destruct (Checked.ck_branches n links Hck p br Hp Hbr) as [[_ _ H] _]; done).
  induction ls as [|a ls IH]; intros i Hd l ls' Hls; [done|]. injection Hls as -> ->.
  assert (linksOf links (b_Up br) !! i = Some l) as Hl by (rewrite <- (Nat.add_0_r i), <- lookup_drop, Hd; done).
  assert (∀ k, linksOf links (b_Up br) !! (S i + k)%nat = ls' !! k) as Hnext.
  { intros k. replace (S i + k)%nat with (i + S k)%nat by lia. by rewrite <- lookup_drop, Hd. }
  cbn [length travel]. rewrite (hop_decides i l Hc Hinf Hl). specialize (Hnext 0%nat) as Hn0. rewrite Nat.add_0_r in Hn0. rewrite Hn0. cbn [mbind option_bind].
  destruct ls' as [|l1 ls1]; cbn [lookup list_lookup hopAction Config.a_Egress Config.a_Target].
  - apply String.eqb_neq in He. rewrite He. cbn. do 3 f_equal.
    destruct (gateway_facts p br Hp Hbr) as [Hg _]. unfold Checked.gateway_ok in Hg.
    assert (last (b_Up br) = Some (l_Name l)) as Hlast.
    { rewrite last_lookup. destruct (up_link p br i l Hp Hbr Hl) as (Hi & _). assert (length (b_Up br) = S i) as ->; [|done].
      apply (f_equal length) in Hd. rewrite length_drop in Hd. unfold linksOf in Hd. rewrite length_fmap in Hd. cbn in Hd. lia. }
    rewrite Hlast in Hg. destruct Hg as (l' & Hl' & -> & _). destruct (up_link p br i l Hp Hbr Hl) as (_ & Hll & _). congruence.
  - change ("" =? "") with true. cbn [mbind option_bind].
    destruct (up_link p br (S i) l1 Hp Hbr Hn0) as (_ & Hll & _).  rewrite Hll. cbn [mbind option_bind].
    rewrite (IH (S i) ltac:(by rewrite <- (Nat.add_1_r i), <- drop_drop, Hd) l1 ls1 eq_refl). done.
Qed.
End branch.

(** ** Theorems *)

(** Claim C3.  A compiled network steers packets along its paths, as long as the
    branches that come earlier keep out of the way.  For a schema that validates and
    compiles, whose names are [clean_names] and [apart] (tuns are no link names, no
    name holds the separators of rule keys), take a packet that enters at the tun of a
    userspace path, and the first of the path's branches all of whose conditions hold
    at the origin, those on the destination holding at every node; the branch uses no
    up-link twice.  Suppose every branch whose rules come before its own, of this path
    and of the paths listed earlier, either shares no up-link with it or has a
    condition on the destination that fails at every node ([out_of_way]).  Then the
    packet travels exactly the branch's up-links, node by node, is finalized at the
    branch's gateway (at the origin, when there are no up-links) onto the branch's
    egress, and replies are aimed at the branch's first down-link, or the tun.
    The last condition is needed: an earlier branch that fails at the origin only by
    its healthcheck, and shares the first link, still takes the packet at the relay
    ([guard_lost]), since rules restated there keep the dst_in conditions alone. *)
Theorem steered n0 n out ev ps p ps' pre br post :
  Schema.validate n0 = Ok n → Compile n = Ok out →
  clean_names n (linkMap n) → apart n (linkMap n) →
  w_Paths n = (ps ++ p :: ps')%list → kernelPath n p = false → pt_Routes p = (pre ++ br :: post)%list → NoDup (b_Up br) →
  (∀ c, c ∈ b_When br → ev (OriginNode p) c = true ∧ (isDstIn n c = true → ∀ name, ev name c = true)) →
  (∀ b, b ∈ pre → ∃ c, c ∈ b_When b ∧ ev (OriginNode p) c = false) →
  (∀ q b, earlier ps p pre q b → out_of_way n ev br b) →
  travel (S (length (b_Up br))) (linkMap n) out ev (OriginNode p) (pathTun n p) =
    Some (b_Up br, if b_Gateway br =? "" then OriginNode p else b_Gateway br,
      Config.MkAction (b_Egress br) (gwTargetOf (linkMap n) p (pathTun n p) br)).
Proof.
  intros Hv Hc Hclean Hap Hps Hk Hrt Hloop Hwhen Hpre Hway. destruct (Checked.validate_inferred _ _ Hv) as [Hinf Hck].
  pose proof (origin_decides n out ev ps ps' p pre post br Hck Hclean Hap Hps Hk Hrt Hloop Hwhen Hpre Hway Hc Hinf) as Ho.
  pose proof (travel_links n out ev ps ps' p pre post br Hck Hclean Hap Hps Hk Hrt Hloop Hwhen Hpre Hway 0%nat _ Hc Hinf eq_refl) as Ht.
  pose proof (up_link n Hck Hap p br) as Hup. destruct (br_in n ps ps' p pre post br Hps Hrt) as [Hp Hbr].
  destruct (Checked.ck_branches n _ Hck p br Hp Hbr) as [[_ _ He%String.eqb_neq] Hg]. pose proof (ap_gateways n _ Hap p br Hp Hbr) as Hgw.
  cbn [travel]. rewrite Ho. cbn [mbind option_bind]. unfold originAction. rewrite drop_0 in Ht.
  assert (map l_Name (linksOf (linkMap n) (b_Up br)) = b_Up br) as Hnames.
  { apply list_eq. intros i. rewrite list_lookup_fmap. destruct (linksOf (linkMap n) (b_Up br) !! i) as [l|] eqn:Hi.
    - destruct (Hup i l) as (H1 & _); [done..|]. cbn. by rewrite H1.
    - unfold linksOf in Hi. rewrite list_lookup_fmap in Hi. by destruct (b_Up br !! i). }
  destruct (b_Up br) as [|u us] eqn:Hu; cbn [linksOf map] in *.
  - cbn [Config.a_Egress]. rewrite He. unfold Checked.gateway_ok in Hg. rewrite Hu in Hg. destruct Hg as [Hd ->]. unfold gwTargetOf. by rewrite Hd.
  - specialize (Hgw ltac:(done)). apply String.eqb_neq in Hgw. rewrite Hgw. fold (linksOf (linkMap n) us) in *.
    cbn [Config.a_Egress Config.a_Target]. change ("" =? "") with true. cbn [mbind option_bind].
    destruct (Hup 0%nat (default zeroLink (linkMap n !! u))) as (_ & Hll & _); [done..|]. rewrite Hll. cbn [mbind option_bind].
    assert (length (default zeroLink (linkMap n !! u) :: linksOf (linkMap n) us) = length (u :: us)) as Hlen by (unfold linksOf; cbn; by rewrite length_map).
    specialize (Ht _ _ eq_refl). rewrite Hlen in Ht. rewrite Ht. cbn [mbind option_bind]. do 3 f_equal. exact Hnames.
Qed.

(** Paths.v's network: its first branch's condition fails, so the packet goes by the
    second, and the relay B, where both arrive on one link, tells them apart. *)
Definition steerOut : routes := match Compile demoInferred with Ok out => out | Err _ => ∅ end.
Definition steerBranch : Branch := default (MkBranch [] "" [] [] "") (pt_Routes demoPath !! 1%nat).

Lemma steered_witness :
  travel 3 (linkMap demoInferred) steerOut (λ _ _, false) "A" "t" = Some (["ab"; "bg2"], "G2", Config.MkAction "net" "g2a") ∧
  decision (λ _, true) false "ab" (rulesAt steerOut "B") = Some (Config.MkAction "" "bg1").
Proof.
  split; [|vm_compute; reflexivity].
  refine (steered demoNet demoInferred steerOut (λ _ _, false) [] demoPath [] [demoBranch] steerBranch [] _ _ _ _ _ _ _ _ _ _ _).
  - vm_compute. reflexivity.
  - unfold steerOut. assert (is_ok (Compile demoInferred) = true) as H by (vm_compute; reflexivity). by destruct (Compile demoInferred).
  - apply clean_namesb_sound. vm_compute. reflexivity.
  - apply apartb_sound. vm_compute. reflexivity.
  - vm_compute. reflexivity.
  - vm_compute. reflexivity.
  - vm_compute. reflexivity.
  - apply (bool_decide_eq_true_1 (NoDup (b_Up steerBranch))). vm_compute. reflexivity.
  - intros c Hc. by apply elem_of_nil in Hc.
  - intros b ->%list_elem_of_singleton. exists "ir". split; [left|done].
  - intros q b [[Hq _]|[_ ->%list_elem_of_singleton]]; [by apply elem_of_nil in Hq|]. right. exists "ir". split; [left|]. split; [vm_compute; reflexivity|done].
Defined.

(** The first branch is guarded by a healthcheck too, and the healthcheck is down: at
    the origin A the packet takes the second branch, but the relay B reads the first
    branch's rule, without the guard, and sends the packet to G1. *)
Definition guardedNet : Network :=
  MkNetwork "secret" 1400 "10.9.0.0/24" None 0 0 "" 0 0
    (w_Protocols demoNet)
    (<["alive" := MkCond None None (Some (MkHealth "main" "G1" "" 0 0 0))]> (w_Conditions demoNet))
    demoNodes (w_Links demoNet)
    [MkPath "main" "A" [MkBranch ["ir"; "alive"] "net" ["ab"; "bg1"] ["g1a"] ""; MkBranch [] "net" ["ab"; "bg2"] ["g2a"] ""]]
    ∅.
Definition guardedTravel : option (list string * string * Config.Action) :=
  match Schema.validate guardedNet with
  | Ok n => match Compile n with
            | Ok out => travel 3 (linkMap n) out (λ _ c, c =? "ir") "A" "t"
            | Err _ => None
            end
  | Err _ => None
  end.

Example guard_lost : guardedTravel = Some (["ab"; "bg1"], "G1", Config.MkAction "net" "g1a").
Proof. vm_compute. reflexivity. Qed.
