(* ===== verification/UnionFind.v ===== *)
(** * internal/netsim/plan.go: the union-find behind the fabrics

    A simulated network puts two NICs on one fabric when a link joins them.  The
    parent map is a map of endpoints; [find] halves the path it walks, so every
    lookup changes the map.  [None] is a walk that does not end within its fuel,
    which [find_total] shows never happens. *)

From S2P Require Import Prelude GoStrings.
Local Open Scope string_scope.

(** One NIC: a node and a device key. *)
Record endpoint := MkEndpoint { ep_node : string; ep_key : string }.
#[export] Instance endpoint_eq_dec : EqDecision endpoint.
Proof. solve_decision. Defined.
#[export] Instance endpoint_countable : Countable endpoint.
Proof. refine (inj_countable' (λ e, (ep_node e, ep_key e)) (λ p, MkEndpoint p.1 p.2) _). by intros []. Defined.

Definition epKey (dev link side : string) : string :=
  if negb (dev =? "") then "dev:" +:+ dev else "auto:" +:+ link +:+ ":" +:+ side.

(** [unionFind]: its parent map. *)
Notation unionFind := (gmap endpoint endpoint).
Definition newUF : unionFind := ∅.

(** [u.parent[e]], the zero value when the key is missing. *)
Definition parentOf (u : unionFind) (e : endpoint) : endpoint := default (MkEndpoint "" "") (u !! e).

Definition add (u : unionFind) (e : endpoint) : unionFind :=
  match u !! e with Some _ => u | None => <[e := e]> u end.

Fixpoint findLoop (fuel : nat) (u : unionFind) (e : endpoint) : option (unionFind * endpoint) :=
  match fuel with
  | O => None
  | S fuel' =>
      if decide (parentOf u e = e) then Some (u, e)
      else
        let u := <[e := parentOf u (parentOf u e)]> u in
        findLoop fuel' u (parentOf u e)
  end.

Definition find (u : unionFind) (e : endpoint) : option (unionFind * endpoint) :=
  let u := add u e in findLoop (size u) u e.

Definition union (u : unionFind) (a b : endpoint) : option unionFind :=
  '(u, ra) ← find u a;
  '(u, rb) ← find u b;
  Some (if decide (ra = rb) then u else <[ra := rb]> u).

(** The keys are visited in any order; a visit halves paths but adds no key. *)
Fixpoint collect (u : unionFind) (keys : list endpoint) (out : gmap endpoint (list endpoint))
    : option (gmap endpoint (list endpoint)) :=
  match keys with
  | [] => Some out
  | e :: keys' =>
      '(u, r) ← find u e;
      collect u keys' (<[r := (default [] (out !! r) ++ [e])%list]> out)
  end.
Definition components (order : list endpoint) (u : unionFind) : option (gmap endpoint (list endpoint)) := collect u order ∅.

(** ** Forests *)

(** [x]'s representative is the root [r]. *)
Inductive rep (u : unionFind) : endpoint → endpoint → Prop :=
| rep_root r : u !! r = Some r → rep u r r
| rep_step x p r : u !! x = Some p → p ≠ x → rep u p r → rep u x r.

(** Parents are keys, and a rank falls along them. *)
Definition ranked (rank : endpoint → nat) (u : unionFind) : Prop :=
  ∀ x p, u !! x = Some p → is_Some (u !! p) ∧ (p ≠ x → rank p < rank x)%nat.
Definition forest (u : unionFind) : Prop := ∃ rank, ranked rank u.

Definition same (u : unionFind) (x y : endpoint) : Prop := ∃ r, rep u x r ∧ rep u y r.

(** ** Lemmas: representatives *)

Lemma rep_end u x r : rep u x r → u !! r = Some r.
Proof. by induction 1. Qed.

Lemma rep_dom u x r : rep u x r → is_Some (u !! x).
Proof. destruct 1; by eexists. Qed.

Lemma rep_fun u x r r' : rep u x r → rep u x r' → r = r'.
Proof.
  intros H. revert r'. induction H as [r Hr|x p r Hx Hp H IH]; intros r' H'; inversion H' as [r1 H1|x1 p1 r1 H1 Hp1 H1']; subst; try congruence.
  apply IH. assert (p1 = p) as -> by congruence. done.
Qed.

Lemma rep_exists u x : forest u → is_Some (u !! x) → ∃ r, rep u x r.
Proof.
  intros [rank Hr]. remember (rank x) as k eqn:Hk. revert x Hk. induction (lt_wf k) as [k _ IH]. intros x -> [p Hp].
  destruct (decide (p = x)) as [->|Hne]; [exists x; by constructor|]. destruct (Hr x p Hp) as [Hs Hlt].
  destruct (IH (rank p) (Hlt Hne) p eq_refl Hs) as [r Hrep]. exists r. by eapply rep_step.
Qed.

(** A map that agrees on roots and sends the others to some node of their tree
    has the same representatives. *)
Lemma rep_halve u e p g x r : u !! e = Some p → p ≠ e → u !! p = Some g → forest u → rep (<[e := g]> u) x r ↔ rep u x r.
Proof.
  intros He Hne Hp [rank Hrank]. assert (g ≠ e) as Hge.
  { intros ->. destruct (Hrank e p He) as [_ H1]. destruct (decide (e = p)) as [->|Hn]; [done|]. destruct (Hrank p e Hp) as [_ H2].
    specialize (H1 Hne). specialize (H2 Hn). lia. }
  assert (∀ r, rep u e r ↔ rep u g r) as Heg.
  { intros r'. split.
    - intros H. inversion H as [|? p' ? H1 _ H2]; subst; [congruence|]. assert (p' = p) as -> by congruence.
      inversion H2 as [|? g' ? H3 _ H4]; subst; [assert (g = r') as -> by congruence; by constructor|]. by assert (g' = g) as -> by congruence.
    - intros H. eapply rep_step; [exact He|done|]. destruct (decide (g = p)) as [->|Hgp]; [done|]. by eapply rep_step. }
  split.
  - induction 1 as [r Hr|x q r Hx Hq _ IH].
    + destruct (decide (r = e)) as [->|]; [rewrite lookup_insert_eq in Hr; congruence|]. rewrite lookup_insert_ne in Hr by done. by constructor.
    + destruct (decide (x = e)) as [->|]; [rewrite lookup_insert_eq in Hx; assert (q = g) as -> by congruence; by apply Heg|].
      rewrite lookup_insert_ne in Hx by done. by eapply rep_step.
  - intros H. remember (rank x) as k eqn:Hk. revert x Hk H. induction (lt_wf k) as [k _ IH]. intros x -> H.
    destruct (decide (x = e)) as [->|Hxe].
    + apply Heg in H. eapply rep_step; [by rewrite lookup_insert_eq|done|]. destruct (Hrank e p He) as [_ H1]. specialize (H1 Hne).
      assert (rank g ≤ rank p)%nat by (destruct (decide (g = p)) as [->|Hn]; [done|]; destruct (Hrank p g Hp) as [_ H2]; specialize (H2 Hn); lia).
      eapply (IH (rank g)); [lia|done|done].
    + inversion H as [r0 H0|x0 q r0 H0 Hq H1]; subst; [constructor; by rewrite lookup_insert_ne|].
      eapply rep_step; [by rewrite lookup_insert_ne|done|]. destruct (Hrank x q H0) as [_ H2]. by eapply (IH (rank q)); [apply H2|..].
Qed.

Lemma ranked_halve rank u e p g : ranked rank u → u !! e = Some p → p ≠ e → u !! p = Some g → ranked rank (<[e := g]> u).
Proof.
  intros Hr He Hne Hp x q. rewrite lookup_insert_Some. intros [[<- <-]|[Hx Hq]].
  - destruct (Hr e p He) as [_ H1]. specialize (H1 Hne). destruct (Hr p g Hp) as [Hg H2]. split; [by apply lookup_insert_is_Some'; right|].
    intros _. destruct (decide (g = p)) as [->|Hn]; [done|]. specialize (H2 Hn). lia.
  - destruct (Hr x q Hq) as [Hs Hlt]. split; [by apply lookup_insert_is_Some'; right|done].
Qed.

(** ** Lemmas: find *)

Lemma parentOf_some u e p : u !! e = Some p → parentOf u e = p.
Proof. unfold parentOf. by intros ->. Qed.

(** The nodes of lower rank: what a walk from [e] can still visit. *)
Definition below (rank : endpoint → nat) (u : unionFind) (e : endpoint) : gset endpoint :=
  base.filter (λ x, (rank x < rank e)%nat) (dom u).

Lemma below_lt rank u e g : is_Some (u !! g) → (rank g < rank e)%nat → (size (below rank u g) < size (below rank u e))%nat.
Proof.
  intros Hg Hlt. apply subset_size. split.
  - intros x. unfold below. rewrite !elem_of_filter. intros [? ?]. split; [lia|done].
  - intros Hs. specialize (Hs g). unfold below in Hs. rewrite !elem_of_filter in Hs. destruct Hs as [? _]; [|lia].
    split; [done|]. by apply elem_of_dom.
Qed.

Lemma below_size rank u e : is_Some (u !! e) → (size (below rank u e) < size u)%nat.
Proof.
  intros He. rewrite <- size_dom. apply subset_size. split; [unfold below; set_solver|].
  intros Hs. specialize (Hs e (proj2 (elem_of_dom u e) He)). unfold below in Hs. apply elem_of_filter in Hs. lia.
Qed.

(** A walk that has enough fuel ends at the representative and changes nothing else. *)
Lemma findLoop_spec rank fuel u e : ranked rank u → is_Some (u !! e) → (size (below rank u e) < fuel)%nat →
  ∃ u' r, findLoop fuel u e = Some (u', r) ∧ rep u e r ∧ ranked rank u' ∧ dom u' = dom u ∧ ∀ x r, rep u' x r ↔ rep u x r.
Proof.
  revert u e. induction fuel as [|fuel IH]; intros u e Hr [p Hp] Hf; [lia|]. cbn [findLoop]. rewrite (parentOf_some u e p Hp).
  destruct (decide (p = e)) as [->|Hne]; [by exists u, e; split_and!; [|constructor|..]|].
  destruct (Hr e p Hp) as [[g Hg] Hlt]. specialize (Hlt Hne). rewrite (parentOf_some u p g Hg).
  unfold parentOf. rewrite lookup_insert_eq. cbn [default].
  pose proof (ranked_halve rank u e p g Hr Hp Hne Hg) as Hr'.
  assert (rank g < rank e)%nat as Hge by (destruct (decide (g = p)) as [->|Hn]; [done|]; destruct (Hr p g Hg) as [_ H]; specialize (H Hn); lia).
  assert (dom (<[e:=g]> u) = dom u) as Hd by (rewrite dom_insert_L; apply elem_of_dom_2 in Hp; set_solver).
  destruct (IH (<[e:=g]> u) g) as (u' & r & Hfind & Hrep & Hrk & Hdom & Hiff); [done| | |].
  - apply lookup_insert_is_Some'. right. by apply (Hr p g Hg).
  - unfold below. rewrite Hd. fold (below rank u g). pose proof (below_lt rank u e g (proj1 (Hr p g Hg)) Hge). lia.
  - exists u', r. split; [done|]. assert (∀ x r, rep (<[e:=g]> u) x r ↔ rep u x r) as Hh by (intros; eapply rep_halve; [done..|by exists rank]).
    split; [|split; [done|split; [by rewrite Hdom|intros x r'; by rewrite Hiff, Hh]]].
    apply Hh in Hrep. eapply rep_step; [exact Hp|done|]. destruct (decide (g = p)) as [->|Hn]; [done|]. by eapply rep_step.
Qed.

Lemma add_dom u e : dom (add u e) = {[e]} ∪ dom u.
Proof. unfold add. destruct (u !! e) eqn:He; [apply elem_of_dom_2 in He; set_solver|by rewrite dom_insert_L]. Qed.

Lemma add_ranked rank u e : ranked rank u → ranked rank (add u e).
Proof.
  unfold add. intros Hr. destruct (u !! e) eqn:He; [done|]. intros x p. rewrite lookup_insert_Some. intros [[<- <-]|[Hx Hp]].
  - rewrite lookup_insert_eq. by split; [eexists|].
  - destruct (Hr x p Hp). split; [by apply lookup_insert_is_Some'; right|done].
Qed.

Lemma add_rep u e x r : forest u → rep (add u e) x r ↔ rep u x r ∨ (u !! e = None ∧ x = e ∧ r = e).
Proof.
  unfold add. intros Hf. destruct (u !! e) as [q|] eqn:He; [naive_solver|]. split.
  - induction 1 as [r Hr|x p r Hx Hp H IH].
    + apply lookup_insert_Some in Hr as [[-> _]|[_ Hr]]; [by right|left; by constructor].
    + apply lookup_insert_Some in Hx as [[-> ->]|[Hne Hx]]; [done|]. destruct IH as [IH|(_ & -> & ->)]; [left; by eapply rep_step|].
      destruct Hf as [rank Hf]. destruct (Hf x e Hx) as [[q Hq] _]. congruence.
  - intros [H|(_ & -> & ->)]; [|constructor; by rewrite lookup_insert_eq].
    induction H as [r Hr|x p r Hx Hp H IH]; [constructor; rewrite lookup_insert_ne; [done|by intros ->; congruence]|].
    eapply rep_step; [|exact Hp|exact IH]. rewrite lookup_insert_ne; [done|by intros ->; congruence].
Qed.

(** [find] always returns, the representative it returns is the one of the element,
    added when new, and nobody's representative changes. *)
Lemma find_spec u e : forest u →
  ∃ u' r, find u e = Some (u', r) ∧ rep (add u e) e r ∧ forest u' ∧ dom u' = {[e]} ∪ dom u ∧ ∀ x r, rep u' x r ↔ rep (add u e) x r.
Proof.
  intros [rank Hr]. assert (is_Some (add u e !! e)) as He by (apply elem_of_dom; rewrite add_dom; set_solver).
  destruct (findLoop_spec rank (size (add u e)) (add u e) e) as (u' & r & H1 & H2 & H3 & H4 & H5); [by apply add_ranked|done|by apply below_size|].
  exists u', r. split; [done|]. split; [done|]. split; [by exists rank|]. split; [|done]. by rewrite H4, add_dom.
Qed.

(** ** Lemmas: union *)

(** Hanging one tree under another's root. *)
Lemma link_rep u ra rb x r : forest u → u !! ra = Some ra → u !! rb = Some rb → ra ≠ rb →
  rep (<[ra := rb]> u) x r ↔ (rep u x r ∧ r ≠ ra) ∨ (rep u x ra ∧ r = rb).
Proof.
  intros Hf Ha Hb Hne.
  assert (rep (<[ra := rb]> u) rb rb) as Hrb by (constructor; by rewrite lookup_insert_ne).
  split.
  - induction 1 as [r Hr|x p r Hx Hp H IH].
    + apply lookup_insert_Some in Hr as [[-> <-]|[Hn Hr]]; [done|]. left. split; [by constructor|done].
    + apply lookup_insert_Some in Hx as [[<- <-]|[Hn Hx]].
      * right. split; [by constructor|]. by eapply rep_fun.
      * destruct IH as [[IH Hr]|[IH ->]]; [left|right]; (split; [by eapply rep_step|done]).
  - assert (∀ x r, rep u x r → r = ra → rep (<[ra := rb]> u) x rb) as H1.
    { induction 1 as [r' Hr|y p r' Hx Hp H IH]; intros ->; [eapply rep_step; [by rewrite lookup_insert_eq|done|done]|].
      eapply rep_step; [|exact Hp|by apply IH]. rewrite lookup_insert_ne; [done|intros ->; congruence]. }
    intros [[H Hr]|[H ->]]; [|by eapply H1].
    induction H as [r Hr'|y p r Hx Hp H IH]; [constructor; by rewrite lookup_insert_ne|].
    eapply rep_step; [|exact Hp|by apply IH]. rewrite lookup_insert_ne; [done|intros ->; congruence].
Qed.

Lemma link_forest u ra rb : forest u → u !! ra = Some ra → u !! rb = Some rb → ra ≠ rb → forest (<[ra := rb]> u).
Proof.
  intros Hf Ha Hb Hne. destruct Hf as [rank Hr].
  (* the tree of [ra] moves above the rank of [rb] *)
  pose (rt x := (findLoop (size u) u x) ≫= (λ ur, Some ur.2)).
  assert (∀ x, is_Some (u !! x) → ∃ r, rt x = Some r ∧ rep u x r) as Hrt.
  { intros x Hx. destruct (findLoop_spec rank (size u) u x Hr Hx (below_size rank u x Hx)) as (u' & r & H1 & H2 & _).
    exists r. unfold rt. by rewrite H1. }
  exists (λ x, if decide (rt x = Some ra) then rank x + S (rank rb) else rank x)%nat. intros x p. rewrite lookup_insert_Some.
  assert (∀ y z, rep u y z → rt y = Some z) as Hrep.
  { intros y z Hy. destruct (Hrt y (rep_dom _ _ _ Hy)) as (r & H1 & H2). by rewrite H1, (rep_fun _ _ _ _ H2 Hy). }
  intros [[<- <-]|[Hn Hx]].
  - split; [rewrite lookup_insert_ne by done; by eexists|]. intros _. rewrite (Hrep ra ra) by (by constructor).
    rewrite (Hrep rb rb) by (by constructor). repeat case_decide; simplify_eq; lia.
  - destruct (Hr x p Hx) as [Hs Hlt]. split; [by apply lookup_insert_is_Some'; right|]. intros Hp. specialize (Hlt Hp).
    destruct (Hrt p Hs) as (r & H1 & H2). rewrite (Hrep x r), H1 by (by eapply rep_step). case_decide; lia.
Qed.

#[export] Instance same_sym u : Symmetric (same u).
Proof. intros x y (r & ? & ?). by exists r. Qed.
#[export] Instance same_trans u : Transitive (same u).
Proof. intros x y z (r & ? & H1) (r' & H2 & ?). rewrite (rep_fun _ _ _ _ H2 H1) in *. by exists r. Qed.

Lemma same_refl u x : forest u → is_Some (u !! x) → same u x x.
Proof. intros Hf Hx. destruct (rep_exists u x Hf Hx) as [r H]. by exists r. Qed.

Lemma same_dom u x y : same u x y → is_Some (u !! x) ∧ is_Some (u !! y).
Proof. intros (r & H1 & H2). split; by eapply rep_dom. Qed.

Lemma rep_same u u' x y : (∀ x r, rep u' x r ↔ rep u x r) → same u' x y ↔ same u x y.
Proof. intros H. unfold same. by setoid_rewrite H. Qed.

Lemma add_same u e x y : forest u → same (add u e) x y ↔ same u x y ∨ (u !! e = None ∧ x = e ∧ y = e).
Proof.
  intros Hf. unfold same. split.
  - intros (r & [H1|(? & -> & ->)]%add_rep & [H2|(? & -> & He)]%add_rep); try done; [by left; exists r| | |by right].
    + subst. apply rep_end in H1. congruence.
    + apply rep_end in H2. congruence.
  - intros [(r & ? & ?)|(? & -> & ->)]; [exists r|exists e]; split; apply add_rep; auto.
Qed.

(** What a join makes of a partition. *)
Definition joined (P : endpoint → endpoint → Prop) (a b x y : endpoint) : Prop :=
  P x y ∨ (P x a ∧ P b y) ∨ (P x b ∧ P a y).

Lemma union_spec u a b : forest u → ∃ u', union u a b = Some u' ∧ forest u' ∧ dom u' = {[a; b]} ∪ dom u ∧
  ∀ x y, same u' x y ↔ joined (same (add (add u a) b)) a b x y.
Proof.
  intros Hf. assert (forest (add u a)) as Hfa by (destruct Hf as [rank Hf]; exists rank; by apply add_ranked).
  destruct (find_spec u a Hf) as (u1 & ra & H1 & Ha & Hf1 & Hd1 & Hr1). destruct (find_spec u1 b Hf1) as (u2 & rb & H2 & Hb & Hf2 & Hd2 & Hr2).
  assert (∀ x r, rep u2 x r ↔ rep (add (add u a) b) x r) as Hr.
  { intros x r. rewrite Hr2, (add_rep u1 b), (add_rep (add u a) b), Hr1 by done.
    assert (u1 !! b = None ↔ add u a !! b = None) as ->; [|done]. by rewrite <- !not_elem_of_dom, Hd1, add_dom. }
  assert (rep u2 a ra) as Ha2 by (apply Hr, add_rep; [done|by left]).
  assert (rep u2 b rb) as Hb2 by (apply Hr2; exact Hb).
  assert (∀ x y, same u2 x y ↔ same (add (add u a) b) x y) as Hs by (intros; by apply rep_same).
  unfold union. rewrite H1. cbn [mbind option_bind]. rewrite H2. cbn [mbind option_bind]. eexists. split; [done|].
  assert (dom u2 = {[a; b]} ∪ dom u) as Hd by (rewrite Hd2, Hd1; set_solver).
  destruct (decide (ra = rb)) as [->|Hne].
  - split; [done|]. split; [done|]. intros x y. rewrite Hs. unfold joined.
    assert (same (add (add u a) b) a b) as Hab by (apply Hs; by exists rb).
    split; [by left|]. intros [?|[[? ?]|[? ?]]]; [done| |]; (etrans; [done|]); (etrans; [|done]); [done|by symmetry].
  - pose proof (rep_end _ _ _ Ha2) as Hra. pose proof (rep_end _ _ _ Hb2) as Hrb.
    split; [by apply link_forest|]. split; [rewrite dom_insert_L, Hd; apply elem_of_dom_2 in Hra; set_solver|].
    intros x y. unfold joined. rewrite <- !Hs. unfold same.
    pose proof (λ x r, link_rep u2 ra rb x r Hf2 Hra Hrb Hne) as Hl. split.
    + intros (r & [[Hx Hxr]|[Hx ->]]%Hl & [[Hy Hyr]|[Hy Hy']]%Hl); subst.
      * left. by exists r.
      * right. right. split; [by exists rb|by exists ra].
      * right. left. split; [by exists ra|by exists rb].
      * left. by exists ra.
    + intros [(r & Hx & Hy)|[[(r & Hx & Ha') (r' & Hb' & Hy)]|[(r & Hx & Hb') (r' & Ha' & Hy)]]].
      * destruct (decide (r = ra)) as [->|]; [exists rb|exists r]; split; apply Hl; auto.
      * rewrite (rep_fun _ _ _ _ Ha' Ha2) in Hx. rewrite (rep_fun _ _ _ _ Hb' Hb2) in Hy. exists rb. split; apply Hl; auto.
      * rewrite (rep_fun _ _ _ _ Ha' Ha2) in Hy. rewrite (rep_fun _ _ _ _ Hb' Hb2) in Hx. exists rb. split; apply Hl; auto.
Qed.

(** ** Sequences of operations *)

Inductive op := Add (e : endpoint) | Union (a b : endpoint).

Definition doOp (u : unionFind) (o : op) : option unionFind :=
  match o with Add e => Some (add u e) | Union a b => union u a b end.
Fixpoint doOps (u : unionFind) (os : list op) : option unionFind :=
  match os with [] => Some u | o :: os' => u ← doOp u o; doOps u os' end.

(** The endpoints mentioned, and the pairs joined. *)
Definition mentions (os : list op) (e : endpoint) : Prop := ∃ o, o ∈ os ∧ match o with Add x => e = x | Union a b => e = a ∨ e = b end.
Definition linked (os : list op) (x y : endpoint) : Prop := Union x y ∈ os.

(** Connected by joins: the partition the structure stands for. *)
Definition connected (os : list op) (x y : endpoint) : Prop := mentions os x ∧ rtsc (linked os) x y.

(** ** Lemmas: sequences *)

Lemma mentions_snoc os o e : mentions (os ++ [o]) e ↔ mentions os e ∨ match o with Add x => e = x | Union a b => e = a ∨ e = b end.
Proof.
  unfold mentions. split.
  - intros (o' & [Hin| ->%list_elem_of_singleton]%elem_of_app & H); [left; by exists o'|by right].
  - intros [(o' & Hin & H)|H]; [exists o'|exists o]; (split; [apply elem_of_app|done]); [by left|right; left].
Qed.

Lemma linked_mentions os x y : linked os x y → mentions os x ∧ mentions os y.
Proof. intros H. split; exists (Union x y); auto. Qed.

Lemma rtsc_mentions os x y : rtsc (linked os) x y → mentions os x → mentions os y.
Proof. induction 1 as [x|x z y [H|H] _ IH]; intros Hx; [done|apply IH..]; by apply linked_mentions in H as [? ?]. Qed.

#[export] Instance connected_sym os : Symmetric (connected os).
Proof. intros x y [Hx H]. split; [by eapply rtsc_mentions|]. by symmetry. Qed.

Lemma rtsc_snoc_add os e x y : rtsc (linked (os ++ [Add e])) x y ↔ rtsc (linked os) x y.
Proof.
  assert (∀ a b, linked (os ++ [Add e]) a b ↔ linked os a b) as H.
  { intros a b. unfold linked. rewrite elem_of_app, list_elem_of_singleton. naive_solver. }
  split; apply rtc_subrel; intros a b [Hab|Hab]; apply H in Hab; first [by left|by right].
Qed.

Lemma rtsc_mono (R S : relation endpoint) x y : (∀ a b, R a b → S a b) → rtsc R x y → rtsc S x y.
Proof. intros H. apply rtc_subrel. intros a b [?|?]; [left|right]; auto. Qed.

Lemma rtsc_snoc_union os a b x y :
  rtsc (linked (os ++ [Union a b])) x y ↔
    rtsc (linked os) x y ∨ (rtsc (linked os) x a ∧ rtsc (linked os) b y) ∨ (rtsc (linked os) x b ∧ rtsc (linked os) a y).
Proof.
  assert (∀ c d, linked (os ++ [Union a b]) c d ↔ linked os c d ∨ (c = a ∧ d = b)) as H.
  { intros c d. unfold linked. rewrite elem_of_app, list_elem_of_singleton. naive_solver. }
  assert (∀ x y, rtsc (linked os) x y → rtsc (linked (os ++ [Union a b])) x y) as Hm by (intros; eapply rtsc_mono; [|done]; intros; apply H; by left).
  assert (rtsc (linked (os ++ [Union a b])) a b) as Hab by (apply rtc_once; left; apply H; by right).
  split.
  - induction 1 as [x|x z y Hxz _ IH]; [left; reflexivity|].
    assert (rtsc (linked os) x z ∨ (x = a ∧ z = b) ∨ (x = b ∧ z = a)) as Hs.
    { destruct Hxz as [Hxz|Hxz]; apply H in Hxz as [Hxz|[-> ->]]; auto; left; apply rtc_once; first [by left|by right]. }
    destruct Hs as [Hs|[[-> ->]|[-> ->]]].
    + destruct IH as [?|[[? ?]|[? ?]]]; [left|right; left; split; [|done]|right; right; split; [|done]]; by etrans.
    + destruct IH as [?|[[? ?]|[_ ?]]]; [right; left|right; left|left]; done.
    + destruct IH as [?|[[_ ?]|[? ?]]]; [right; right|left|right; right]; done.
  - intros [?|[[? ?]|[? ?]]]; [by apply Hm|etrans; [by apply Hm|etrans; [exact Hab|by apply Hm]]|].
    etrans; [by apply Hm|]. etrans; [symmetry; exact Hab|by apply Hm].
Qed.

Lemma rtsc_cases os x y : rtsc (linked os) x y → x = y ∨ mentions os x.
Proof. destruct 1 as [|x z y [H|H] _]; [by left|right..]; by apply linked_mentions in H as [? ?]. Qed.

(** The structure stands for the partition of the operations so far. *)
Record represents (os : list op) (u : unionFind) : Prop := {
  rp_forest : forest u;
  rp_dom : ∀ e, e ∈ dom u ↔ mentions os e;
  rp_same : ∀ x y, same u x y ↔ connected os x y;
}.

Lemma represents_nil : represents [] newUF.
Proof.
  split.
  - exists (λ _, 0%nat). intros x p Hx. unfold newUF in Hx. by rewrite lookup_empty in Hx.
  - intros e. unfold newUF. rewrite dom_empty_L. split; [set_solver|]. by intros (o & ?%elem_of_nil & _).
  - intros x y. split; [intros (r & [? H]%rep_dom & _); unfold newUF in H; by rewrite lookup_empty in H|]. by intros [(o & ?%elem_of_nil & _) _].
Qed.

Lemma represents_add os u e : represents os u → represents (os ++ [Add e]) (add u e).
Proof.
  intros [[rank Hf] Hd Hs]. split; [exists rank; by apply add_ranked|intros x; rewrite add_dom, mentions_snoc, <- Hd; set_solver|].
  intros x y. rewrite add_same, Hs by (by exists rank). unfold connected. rewrite mentions_snoc, rtsc_snoc_add. split.
  - intros [[? ?]|(_ & -> & ->)]; [split; [by left|done]|split; [by right|reflexivity]].
  - intros [[Hx| ->] H]; [by left|]. destruct (u !! e) as [p|] eqn:He.
    + left. split; [|done]. apply Hd. by apply elem_of_dom_2 in He.
    + destruct (rtsc_cases _ _ _ H) as [<-|Hm]; [by right|]. by left.
Qed.

Lemma represents_union os u a b : represents os u → ∃ u', union u a b = Some u' ∧ represents (os ++ [Union a b]) u'.
Proof.
  intros Hrep. destruct (union_spec u a b (rp_forest _ _ Hrep)) as (u' & Hu & Hf & Hd & Hs). exists u'. split; [done|].
  pose proof (represents_add _ _ b (represents_add _ _ a Hrep)) as [_ _ Hs2]. split; [done| |].
  { intros e. rewrite Hd, mentions_snoc, <- (rp_dom _ _ Hrep). set_solver. }
  intros x y. rewrite Hs. unfold joined. setoid_rewrite Hs2. unfold connected. setoid_rewrite mentions_snoc. setoid_rewrite mentions_snoc.
  setoid_rewrite rtsc_snoc_add. setoid_rewrite rtsc_snoc_add. rewrite rtsc_snoc_union. split.
  - intros [[Hx H]|[[[Hx H] [_ H']]|[[Hx H] [_ H']]]]; (split; [tauto|auto]).
  - intros [Hx [H|[[H H']|[H H']]]]; [left|right; left|right; right]; (split; [tauto|done]) || (split; (split; [tauto|done])).
Qed.

Lemma doOps_snoc u os o : doOps u (os ++ [o]) = u ← doOps u os; doOp u o.
Proof. revert u. induction os as [|p os IH]; intros u; cbn [app doOps]; [cbn [mbind option_bind]; by destruct (doOp u o)|]. destruct (doOp u p) as [v|]; [exact (IH v)|done]. Qed.

Lemma doOps_represents os : ∃ u, doOps newUF os = Some u ∧ represents os u.
Proof.
  induction os as [|o os IH] using rev_ind; [exists newUF; split; [done|apply represents_nil]|].
  destruct IH as (u & Hu & Hr). rewrite doOps_snoc, Hu. cbn [mbind option_bind]. destruct o as [e|a b]; cbn [doOp].
  - exists (add u e). split; [done|by apply represents_add].
  - by apply represents_union.
Qed.

(** ** Lemmas: components *)

Lemma forest_find u e : forest u → is_Some (u !! e) → ∃ u' r, find u e = Some (u', r) ∧ rep u e r ∧ forest u' ∧ dom u' = dom u ∧ ∀ x r, rep u' x r ↔ rep u x r.
Proof.
  intros Hf He. destruct (find_spec u e Hf) as (u' & r & H1 & H2 & H3 & H4 & H5). assert (add u e = u) as Ha by (unfold add; by destruct He as [? ->]).
  rewrite Ha in *. exists u', r. split_and!; [done..| |done]. rewrite H4. apply elem_of_dom in He. set_solver.
Qed.

(** One list per root visited, holding exactly the visited keys of its tree in
    order of visit. *)
Lemma collect_spec u keys out done : forest u → Forall (λ e, is_Some (u !! e)) keys →
  (∀ r l, out !! r = Some l → l ≠ []) →
  (∀ e r, rep u e r → e ∈ done ↔ ∃ l, out !! r = Some l ∧ e ∈ l) → (∀ r l e, out !! r = Some l → e ∈ l → rep u e r) →
  ∃ out', collect u keys out = Some out' ∧ (∀ r l, out' !! r = Some l → l ≠ []) ∧
    (∀ e r, rep u e r → e ∈ (done ++ keys)%list ↔ ∃ l, out' !! r = Some l ∧ e ∈ l) ∧ (∀ r l e, out' !! r = Some l → e ∈ l → rep u e r).
Proof.
  intros Hf Hk. revert u Hf out done Hk. induction keys as [|k keys IH]; intros u Hf out dn Hk Hne Hout Hrep; cbn [collect].
  { exists out. split; [done|]. split; [done|]. rewrite app_nil_r. by split. }
  apply Forall_cons_1 in Hk as [Hk0 Hk]. destruct (forest_find u k Hf Hk0) as (u' & r & H1 & H2 & H3 & H4 & H5). rewrite H1. cbn [mbind option_bind].
  destruct (IH u' H3 (<[r := (default [] (out !! r) ++ [k])%list]> out) (dn ++ [k])%list) as (out' & Hc & Hne' & Ho & Hr').
  - apply Forall_forall. intros x Hx. rewrite Forall_forall in Hk. apply elem_of_dom. rewrite H4. apply elem_of_dom. by apply Hk.
  - intros r' l [[_ <-]|[_ Hl]]%lookup_insert_Some; [by destruct (default [] _)|by eapply Hne].
  - intros e r'. rewrite H5. intros He. rewrite elem_of_app, list_elem_of_singleton. destruct (decide (r = r')) as [<-|Hnr].
    + rewrite lookup_insert_eq. rewrite (Hout e r He). split.
      * intros [(l & Hl & Hin)| ->]; eexists; (split; [done|]); apply elem_of_app; [left; by rewrite Hl|right; left].
      * intros (l & [= <-] & Hin). apply elem_of_app in Hin as [Hin| ->%list_elem_of_singleton]; [left|by right].
        destruct (out !! r) as [l|]; [|by apply elem_of_nil in Hin]. by exists l.
    + rewrite lookup_insert_ne by done. rewrite <- (Hout e r' He). split; [|by left]. intros [?| ->]; [done|].
      by rewrite (rep_fun _ _ _ _ H2 He) in Hnr.
  - intros r' l e. rewrite lookup_insert_Some. intros [[<- <-]|[_ Hl]] Hin; apply H5; [|by eapply Hrep].
    apply elem_of_app in Hin as [Hin| ->%list_elem_of_singleton]; [|done]. destruct (out !! r) as [l|] eqn:Hl; [by eapply Hrep|by apply elem_of_nil in Hin].
  - exists out'. split; [done|]. split; [done|]. split; [|intros r' l e Hl Hin; apply H5; by eapply Hr'].
    intros e r' He. rewrite <- (Ho e r') by (by apply H5). by rewrite <- app_assoc.
Qed.

(** [components], visiting every key, gives the classes of what [u] stands for. *)
Record classes (os : list op) (out : gmap endpoint (list endpoint)) : Prop := {
  cl_mentioned : ∀ e, mentions os e ↔ ∃ r l, out !! r = Some l ∧ e ∈ l;
  cl_class : ∀ r l, out !! r = Some l → l ≠ [] ∧ ∀ e, e ∈ l → ∀ x, x ∈ l ↔ connected os e x;
  cl_unique : ∀ r r' l l' e, out !! r = Some l → out !! r' = Some l' → e ∈ l → e ∈ l' → r = r';
  cl_root : ∀ r l, out !! r = Some l → r ∈ l;
}.

Lemma components_classes os u order : represents os u → (∀ e, e ∈ order ↔ e ∈ dom u) →
  ∃ out, components order u = Some out ∧ classes os out.
Proof.
  intros [Hf Hd Hs] Hord. destruct (collect_spec u order ∅ [] Hf) as (out & Hc & Hne & Ho & Hr).
  - apply Forall_forall. intros e He. apply elem_of_dom. by apply Hord.
  - intros r l Hl. by rewrite lookup_empty in Hl.
  - intros e r _. split; [by intros ?%elem_of_nil|]. intros (l & Hl & _). by rewrite lookup_empty in Hl.
  - intros r l e Hl. by rewrite lookup_empty in Hl.
  - cbn [app] in Ho. exists out. split; [done|]. split.
    + intros e. rewrite <- Hd. split.
      * intros He. destruct (rep_exists u e Hf) as [r Hre]; [by apply elem_of_dom|]. exists r. apply Ho; [done|]. by apply Hord.
      * intros (r & l & Hl & Hin). apply elem_of_dom. eapply rep_dom. by eapply Hr.
    + intros r l Hl. split; [by eapply Hne|]. intros e He x. rewrite <- Hs. pose proof (Hr r l e Hl He) as Hre. split.
      * intros Hx. exists r. split; [done|by eapply Hr].
      * intros (r' & He' & Hx). rewrite (rep_fun _ _ _ _ He' Hre) in Hx.
        assert (x ∈ order) as Hxo by (apply Hord, elem_of_dom; by eapply rep_dom).
        apply (Ho x r Hx) in Hxo as (l' & Hl' & Hin). congruence.
    + intros r r' l l' e Hl Hl' He He'. eapply rep_fun; [exact (Hr r l e Hl He)|exact (Hr r' l' e Hl' He')].
    + intros r l Hl. destruct l as [|e l]; [by destruct (Hne r [] Hl)|]. pose proof (rep_end _ _ _ (Hr r _ e Hl ltac:(left))) as Hroot.
      assert (r ∈ order) as Hro by (apply Hord, elem_of_dom; by eexists). by apply (Ho r r (rep_root _ _ Hroot)) in Hro as (l' & [= <-]%(eq_trans (eq_sym Hl)) & Hin).
Qed.

(** ** Theorems *)

(** Claim C36.  The union-find computes connected components.  Whatever sequence of
    additions and unions built it, every operation returns, and [components],
    visiting the keys in any order, returns lists such that every endpoint mentioned
    is in exactly one of them and two endpoints are in the same one exactly when
    they are connected by the unions. *)
Theorem components_partition os :
  ∃ u, doOps newUF os = Some u ∧ ∀ order, (∀ e, e ∈ order ↔ e ∈ dom u) →
  ∃ out, components order u = Some out ∧
    (∀ e, mentions os e ↔ ∃ r l, out !! r = Some l ∧ e ∈ l) ∧
    (∀ r l, out !! r = Some l → l ≠ [] ∧ ∀ e, e ∈ l → ∀ x, x ∈ l ↔ connected os e x) ∧
    (∀ r r' l l' e, out !! r = Some l → out !! r' = Some l' → e ∈ l → e ∈ l' → r = r').
Proof.
  destruct (doOps_represents os) as (u & Hu & Hrep). exists u. split; [done|]. intros order Hord.
  destruct (components_classes os u order Hrep Hord) as (out & Hc & []). by exists out.
Qed.

(** ** A concrete use *)

Example components_example :
  let a := MkEndpoint "A" "dev:eth0" in let b := MkEndpoint "B" "auto:ab:a" in let c := MkEndpoint "C" "dev:eth1" in
  (u ← doOps newUF [Union a b; Add c]; components [a; b; c] u) = Some {[b := [a; b]; c := [c]]}.
Proof. vm_compute. reflexivity. Qed.

Lemma components_partition_witness :
  let os := [Union (MkEndpoint "A" "dev:eth0") (MkEndpoint "B" "auto:ab:a"); Add (MkEndpoint "C" "dev:eth1")] in
  ∃ u out, doOps newUF os = Some u ∧ components (elements (dom u)) u = Some out ∧
    ∃ r l, out !! r = Some l ∧ MkEndpoint "C" "dev:eth1" ∈ l.
Proof.
  intros os. destruct (components_partition os) as (u & Hu & H). destruct (H (elements (dom u))) as (out & Hc & Hm & _).
  { intros e. apply elem_of_elements. }
  exists u, out. split; [exact Hu|]. split; [exact Hc|]. apply Hm. exists (Add (MkEndpoint "C" "dev:eth1")). split; [right; left|done].
Defined.
