(* ===== verification/SimPlan.v ===== *)
(** * internal/netsim: the simulation derived from a schema

    [Plan] turns a schema and its compiled configurations into docker networks
    (fabrics) and containers.  Marshalling to YAML and JSON and the WireGuard public
    key of a private one are arguments, as is the order in which Go visits the keys
    of the union-find's map; other maps are visited in the order of [map_to_list],
    where the order does not matter.  A nil dereference is the error "nil". *)

From S2P Require Import Prelude GoBytes GoStrings Sha256 Config Factory Dsl Schema Compile Release UnionFind.
Local Open Scope Z_scope.
Local Open Scope string_scope.
Local Open Scope go_scope.

(** ** siminit: how a container shapes its network *)

Record Rename := MkRename { rn_Subnet : string; rn_Name : string }.
Record Route := MkSimRoute { rt_Dst : string; rt_Via : string; rt_Dev : string }.
Record WGPeer := MkWGPeer { wp_PublicKey : string; wp_AllowedIPs : list string }.
Record WGDevice := MkWGDevice { wd_Name : string; wd_PrivateKey : string; wd_ListenPort : Z; wd_Addrs : list string; wd_Peers : list WGPeer }.
Record Spec := MkSpec { sc_Renames : list Rename; sc_Routes : list Route; sc_LoAddrs : list string; sc_WGDevices : list WGDevice }.

(** ** The plan *)

Inductive Role := RoleNode | RoleHub | RoleClient.

Record Fabric := MkFabric { fb_Name : string; fb_Subnet : string; fb_IPs : gmap string string }.
Record Attachment := MkAttach { at_Fabric : string; at_IP : string }.

Record Container := MkContainer {
  ct_Name : string;
  ct_Role : Role;
  ct_Image : string;
  ct_Node : string;
  ct_Cmd : list string;
  ct_Attach : list Attachment;
  ct_CapAdd : list string;
  ct_Devices : list string;
  ct_Sysctls : list (string * string);
  ct_Env : list (string * string);
  ct_Files : gmap string string;
  ct_Privileged : bool;
}.

Record SimPlan := MkSimPlan {
  sm_Image : string;
  sm_Fabrics : list Fabric;
  sm_Containers : list Container;
  sm_EchoNet : string;
  sm_WorldDst : string;
  sm_IranDst : string;
  sm_egressIP : gmap string (gmap string string);
  sm_nodeContainer : gmap string string;
  sm_lanClient : gmap string string;
  sm_selfCapture : gmap string bool;
  sm_conditionFile : gmap string (gmap string string);
  sm_debugTun : gmap string bool;
  sm_NeedsWireGuard : bool;
}.

Definition echoNet : string := "10.200.0.0/24".
Definition worldDst : string := "10.200.0.10".
Definition iranDst : string := "10.200.0.20".
Definition hubName : string := "internet".
Definition hubOctet : Z := 254.
Definition statsPath : string := "/var/log/dualnet-stats.jsonl".
Definition configDir : string := "/etc/dualnet".
Definition specPath : string := "/etc/sim/init.json".
Definition warpHubIP : string := "100.64.0.1".
Definition warpPort : Z := 51820.
Definition warpHubDev : string := "wg-sim".

Record PlanOptions := MkPlanOptions {
  po_Image : string;
  po_PSK : string;
  po_PSKOverride : gmap string string;
  po_HealthcheckInterval : Z;
  po_HealthcheckTimeout : Z;
  po_HealthcheckUpGrace : Z;
  po_StatsInterval : Z;
  po_NetBase : string;
}.

Definition applyDefaults (o : PlanOptions) : PlanOptions :=
  let s v d := if v =? "" then d else v in
  let z v d := if (v =? 0)%Z then d else v in
  MkPlanOptions (s (po_Image o) "dualnet-sim:test") (s (po_PSK o) "netsim") (po_PSKOverride o)
    (z (po_HealthcheckInterval o) 1%Z) (z (po_HealthcheckTimeout o) 3%Z) (z (po_HealthcheckUpGrace o) 1%Z) (z (po_StatsInterval o) 1%Z)
    (s (po_NetBase o) "172.30").

(** ** Helpers *)

Definition clientName (node : string) : string := "client-" +:+ node.

(** [x[:strings.IndexByte(x, '/')]], all of it without a slash. *)
Definition cutSlash (s : string) : string :=
  match indexChar "/"%char (chars s) with Some i => unchars (take i (chars s)) | None => s end.

Definition legSourceHost (nd : Node) (alias : string) : string :=
  if alias =? "" then ""
  else match nd_Connections nd !! alias with
  | None => ""
  | Some c => if k_IP c =? "" then "" else cutSlash (k_IP c) +:+ "/32"
  end.

(** The simulator's copy of the schema's unexported helper. *)
Definition resolveIface (nd : Node) (alias : string) : string :=
  if alias =? "" then ""
  else match nd_Connections nd !! alias with Some s => k_Iface s | None => alias end.

Definition firstConn (f : Conn → bool) (nd : Node) : option (string * Conn) :=
  head (omap (λ name, match nd_Connections nd !! name with
    | Some c => if f c then Some (name, c) else None | None => None end) (sortedKeys (nd_Connections nd))).
Definition captureTun (nd : Node) : option (string * Conn) := firstConn (λ c, (k_Type c =? "tun") && k_CaptureDefault c) nd.
Definition anyTun (nd : Node) : option (string * Conn) := firstConn (λ c, k_Type c =? "tun") nd.
Definition hasTun (nd : Node) : bool := match anyTun nd with Some _ => true | None => false end.

Definition isDebugTun (nd : Node) : bool :=
  let tuns := base.filter (λ kv, (k_Type kv.2 =? "tun") = true) (map_to_list (nd_Connections nd)) in
  if existsb (λ kv, k_CaptureDefault kv.2 || negb (k_LAN kv.2 =? "")) tuns then false
  else match tuns with [] => false | _ => true end.

Definition legSourceIPs (cn : cfg) : list string :=
  if negb (Config.n_Datapath cn =? "kernel") then []
  else concat (map (λ c, match Config.d_SrcIn c with
    | None => []
    | Some s => map (λ tok, if Config.containsSlash tok then tok else tok +:+ "/32") (Config.s_List s)
    end) (Config.n_Conditions cn)).

Definition nodeNeedsTun (nd : Node) (cn : cfg) (debugTun : bool) : bool :=
  if Config.n_Datapath cn =? "kernel" then false
  else if hasTun nd && negb debugTun then true
  else existsb (λ kv, (Config.e_Mode kv.2 =? "") || (Config.e_Mode kv.2 =? "kernel")) (map_to_list (Config.n_Egresses cn)).

Definition sortedSet (m : gset string) : list string := Config.sortStrings (elements m).

(** [sort.Slice] by a string key, as insertion. *)
Fixpoint insertBy {A} (key : A → string) (x : A) (l : list A) : list A :=
  match l with
  | [] => [x]
  | y :: l' => if strLe (chars (key x)) (chars (key y)) then x :: y :: l' else y :: insertBy key x l'
  end.
Definition sortBy {A} (key : A → string) (l : list A) : list A := foldr (insertBy key) [] l.

(** ** Fabrics *)

Definition dialerEP (n : Network) (l : Link) : endpoint :=
  MkEndpoint (l_Dialer l) (epKey (resolveIface (node n (l_Dialer l)) (l_DialerSource l)) (l_Name l) "d").
Definition acceptorEP (n : Network) (l : Link) : endpoint :=
  MkEndpoint (l_Acceptor l) (epKey (resolveIface (node n (l_Acceptor l)) (l_AcceptorSource l)) (l_Name l) "a").
Definition devEP (name dev : string) : endpoint := MkEndpoint name ("dev:" +:+ dev).

(** The NICs that are no link ends: the operations on the union-find, which of them
    reach the internet and which a LAN. *)
Record nics := MkNics {
  ni_uf : unionFind;
  ni_egress : gset endpoint;
  ni_capture : gmap endpoint string;
}.

Definition cfgAt (nodes : routes) (name : string) : vres cfg :=
  match nodes !! name with Some cn => Ok cn | None => Err "nil" end.

Definition nicEgress (name : string) (s : nics) (eg : Config.Egress) : nics :=
  let ep := devEP name (Config.e_ExtIface eg) in
  MkNics (add (ni_uf s) ep) ({[ep]} ∪ ni_egress s) (ni_capture s).
Definition nicCapture (name dev : string) (s : nics) : nics :=
  let ep := devEP name dev in
  MkNics (add (ni_uf s) ep) (ni_egress s) (<[ep := name]> (ni_capture s)).

(** The devices whose LAN is simulated: a capturing tun's, a kernel node's first. *)
Definition tunLAN (nd : Node) : option string :=
  match captureTun nd with
  | Some (_, tc) => if negb (k_LAN tc =? "") then Some (resolveIface nd (k_LAN tc)) else None
  | None => None
  end.
Definition kernelLAN (cn : cfg) : option string :=
  if Config.n_Datapath cn =? "kernel" then head (Config.n_LANIfaces cn) else None.

Definition nodeNics (n : Network) (nodes : routes) (s : nics) (name : string) : vres nics :=
  let nd := node n name in
  let? cn := cfgAt nodes name in
  let s := fold_left (λ s kv, nicEgress name s kv.2) (map_to_list (Config.n_Egresses cn)) s in
  let s := from_option (λ dev, nicCapture name dev s) s (tunLAN nd) in
  let s := from_option (λ dev, nicCapture name dev s) s (kernelLAN cn) in
  Ok s.

Definition linkUnions (n : Network) : option unionFind :=
  foldl (λ u l, u ← u; union u (dialerEP n l) (acceptorEP n l)) (Some newUF) (w_Links n).

Definition allNics (n : Network) (nodes : routes) : vres nics :=
  match linkUnions n with
  | None => Err "find does not end"
  | Some u => rangeM (nodeNics n nodes) (MkNics u ∅ ∅) (sortedKeys (w_Nodes n))
  end.

Record comp := MkComp {
  cp_sig : string;
  cp_root : endpoint;
  cp_nodes : list string;
  cp_egress : bool;
  cp_lanFor : string;
  cp_endpoints : list endpoint;
}.

Definition compOf (s : nics) (kv : endpoint * list endpoint) : comp :=
  let eps := kv.2 in
  MkComp (String.concat "," (Config.sortStrings (map (λ e, ep_node e +:+ "|" +:+ ep_key e) eps)))
    kv.1 (sortedSet (list_to_set (map ep_node eps)))
    (existsb (λ e, bool_decide (e ∈ ni_egress s)) eps)
    (fold_left (λ acc e, match ni_capture s !! e with Some c => c | None => acc end) eps "")
    eps.

Definition host (base : string) (i : Z) (octet : Z) : string := base +:+ "." +:+ Itoa (i + 1) +:+ "." +:+ Itoa octet.

(** One node's address, and the next octet. *)
Definition addressNode (base : string) (i : Z) (st : gmap string string * Z) (nm : string) : gmap string string * Z :=
  (<[nm := host base i st.2]> st.1, st.2 + 1).

Definition fabricOfComp (base : string) (i : Z) (c : comp) : Fabric :=
  let '(ips, octet) := fold_left (addressNode base i) (cp_nodes c) (∅, 2) in
  let ips := if cp_egress c then <[hubName := host base i hubOctet]> ips else ips in
  let ips := if negb (cp_lanFor c =? "") then <[clientName (cp_lanFor c) := host base i octet]> ips else ips in
  MkFabric ("net" +:+ Itoa i) (base +:+ "." +:+ Itoa (i + 1) +:+ ".0/24") ips.

Definition fabricsOf (base : string) (cs : list comp) : list Fabric := imap (λ i c, fabricOfComp base (Z.of_nat i) c) cs.

Definition fabricOf (cs : list comp) : gmap endpoint string :=
  fold_left (λ m ic, fold_left (λ m e, <[e := "net" +:+ Itoa (Z.of_nat ic.1)]> m) (cp_endpoints ic.2) m) (imap pair cs) ∅.

Definition fabricByName (fs : list Fabric) : gmap string Fabric := fold_left (λ m f, <[fb_Name f := f]> m) fs ∅.

(** [fabricByName[name]], dereferenced. *)
Definition fabricAt (fm : gmap string Fabric) (name : string) : vres Fabric :=
  match fm !! name with Some f => Ok f | None => Err "nil" end.

(** A missing key is the empty string. *)
Definition at_ {K} `{Countable K} (m : gmap K string) (k : K) : string := default "" (m !! k).

(** ** Device names *)

Record devs := MkDevs {
  dv_dev : gmap string (gmap string string);
  dv_renames : gmap string (list Rename);
}.

Definition devAt (d : devs) (name fab : string) : string := at_ (default ∅ (dv_dev d !! name)) fab.

Definition assignDev (fm : gmap string Fabric) (name : string) (d : devs) (fab : string) : vres devs :=
  let m := default ∅ (dv_dev d !! name) in
  match m !! fab with
  | Some _ => Ok d
  | None =>
      let dn := "dn" +:+ Itoa (Z.of_nat (size m)) in
      let? f := fabricAt fm fab in
      Ok (MkDevs (<[name := <[fab := dn]> m]> (dv_dev d))
        (<[name := (default [] (dv_renames d !! name) ++ [MkRename (fb_Subnet f) dn])%list]> (dv_renames d)))
  end.

(** The fabrics of a node that its configuration binds to. *)
Definition zeroL : Link := zeroLink.
Definition connRefs (n : Network) (links : gmap string Link) (fo : gmap endpoint string) (name : string) (c : Config.Connection) : list string :=
  if Config.c_Type c =? "connect" then
    let l := default zeroL (links !! Config.c_Name c) in
    if negb (l_DialerSource l =? "") then [at_ fo (MkEndpoint name (epKey (resolveIface (node n name) (l_DialerSource l)) (l_Name l) "d"))] else []
  else if Config.c_Type c =? "listen" then
    let l := default zeroL (links !! Config.c_Name c) in
    if negb (l_AcceptorSource l =? "") then [at_ fo (devEP name (resolveIface (node n name) (l_AcceptorSource l)))] else []
  else if Config.c_Type c =? "tun" then
    if negb (Config.c_LANIface c =? "") then [at_ fo (devEP name (Config.c_LANIface c))] else []
  else [].

Definition nodeRefs (n : Network) (links : gmap string Link) (fo : gmap endpoint string) (name : string) (cn : cfg) : gset string :=
  list_to_set (concat (map (connRefs n links fo name) (Config.n_Connections cn)) ++
    map (λ kv, at_ fo (devEP name (Config.e_ExtIface kv.2))) (map_to_list (Config.n_Egresses cn)) ++
    from_option (λ dev, [at_ fo (devEP name dev)]) [] (kernelLAN cn))%list.

Definition assignAll (n : Network) (links : gmap string Link) (fo : gmap endpoint string) (fm : gmap string Fabric) (nodes : routes) : vres devs :=
  rangeM (λ d name,
    let? cn := cfgAt nodes name in
    rangeM (assignDev fm name) d (sortedSet (nodeRefs n links fo name cn)))
    (MkDevs ∅ ∅) (sortedKeys nodes).

(** ** Leg-return routes *)

Definition legRoute (n : Network) (fo : gmap endpoint string) (fm : gmap string Fabric) (m : gmap string (list Route)) (l : Link)
    : vres (gmap string (list Route)) :=
  let dst := legSourceHost (node n (l_Dialer l)) (l_DialerSource l) in
  if dst =? "" then Ok m
  else
    let? f := fabricAt fm (at_ fo (acceptorEP n l)) in
    let via := at_ (fb_IPs f) (l_Dialer l) in
    if via =? "" then Ok m
    else Ok (<[l_Acceptor l := (default [] (m !! l_Acceptor l) ++ [MkSimRoute dst via ""])%list]> m).

(** ** WARP stand-in *)

Section keys.
Context (publicKey : list Z → list Z).

(** A key as text. *)
Definition keyString (k : list Z) : string := base64Std (unchars (map (λ b, ascii_of_nat (Z.to_nat b)) k)).

(** [seed[0] &= 248; seed[31] &= 127; seed[31] |= 64] *)
Definition clamp (seed : list Z) : list Z :=
  let seed := <[0%nat := Z.land (nth 0 seed 0) 248]> seed in
  let seed := <[31%nat := Z.land (nth 31 seed 0) 127]> seed in
  <[31%nat := Z.lor (nth 31 seed 0) 64]> seed.
Definition warpKeys (identity : string) : list Z * list Z :=
  let seed := clamp (sha256 (map (λ c, Z.of_N (N_of_ascii c)) (chars ("netsim-warp/" +:+ identity)))) in
  (seed, publicKey seed).
End keys.

Definition nl : string := String (ascii_of_nat 10) EmptyString.
Definition warpINI (priv hubPub : list Z) (endpoint tunIP : string) : string :=
  "[Interface]" +:+ nl +:+ "PrivateKey = " +:+ keyString priv +:+ nl +:+ "Address = " +:+ tunIP +:+ "/32" +:+ nl +:+ nl +:+
  "[Peer]" +:+ nl +:+ "PublicKey = " +:+ keyString hubPub +:+ nl +:+ "AllowedIPs = 0.0.0.0/0" +:+ nl +:+ "Endpoint = " +:+ endpoint +:+ nl.

(** ** One node's container *)

Definition setConn (c : Config.Connection) (iface ip lan : string) : Config.Connection :=
  Config.MkConnection (Config.c_Name c) (Config.c_Type c) iface (Config.c_SourceIP c) (Config.c_Direction c) (Config.c_Transport c)
    (Config.c_Port c) ip (Config.c_Warpped c) (Config.c_Multiple c) (Config.c_IDSetter c) (Config.c_PSK c) (Config.c_Cipher c)
    (Config.c_HTTP c) (Config.c_Address c) (Config.c_CaptureDefault c) lan.

Definition setEgress (e : Config.Egress) (iface gateway conf cache : string) : Config.Egress :=
  Config.MkEgress (Config.e_Mode e) iface gateway (Config.e_TunName e) conf cache (Config.e_WARPInsecure e).

(** The rewritten configuration. *)
Definition simConfig (cn : cfg) (o : PlanOptions) (psk : string) (cs : list Config.Connection) (egs : gmap string Config.Egress) (lans : list string) : cfg :=
  Config.MkNode psk (Config.n_MTU cn) (Config.n_Subnet cn) cs egs (Config.n_Conditions cn) (Config.n_Routes cn) (Config.n_Datapath cn)
    (Config.n_Forward cn) lans (Some (po_HealthcheckInterval o)) (po_HealthcheckTimeout o) (po_HealthcheckUpGrace o)
    statsPath (po_StatsInterval o) 50.

Section nodes.
Context (marshal : cfg → option string) (mustJSON : Spec → string) (publicKey : list Z → list Z).
Context (n : Network) (o : PlanOptions) (links : gmap string Link) (fo : gmap endpoint string) (fm : gmap string Fabric) (d : devs).

Definition connStep (name : string) (st : gset string * list Config.Connection) (c : Config.Connection) : vres (gset string * list Config.Connection) :=
  let keep attach c := Ok (attach, st.2 ++ [c])%list in
  if Config.c_Type c =? "connect" then
    let l := default zeroL (links !! Config.c_Name c) in
    let fab := at_ fo (MkEndpoint name (epKey (resolveIface (node n name) (l_DialerSource l)) (l_Name l) "d")) in
    let? f := fabricAt fm fab in
    keep ({[fab]} ∪ st.1) (setConn c (if negb (l_DialerSource l =? "") then devAt d name fab else Config.c_Interface c)
      (at_ (fb_IPs f) (l_Acceptor l)) (Config.c_LANIface c))
  else if Config.c_Type c =? "listen" then
    let l := default zeroL (links !! Config.c_Name c) in
    let fab := at_ fo (MkEndpoint name (epKey (resolveIface (node n name) (l_AcceptorSource l)) (l_Name l) "a")) in
    keep ({[fab]} ∪ st.1) (setConn c (if negb (l_AcceptorSource l =? "") then devAt d name fab else Config.c_Interface c)
      (Config.c_IP c) (Config.c_LANIface c))
  else if (Config.c_Type c =? "tun") && negb (Config.c_LANIface c =? "") then
    let fab := at_ fo (devEP name (Config.c_LANIface c)) in
    keep ({[fab]} ∪ st.1) (setConn c (Config.c_Interface c) (Config.c_IP c) (devAt d name fab))
  else keep st.1 c.

Record egressState := MkEgressState {
  es_attach : gset string;
  es_egresses : gmap string Config.Egress;
  es_routes : list Route;
  es_files : gmap string string;
  es_oracle : gmap string string;
  es_octet : Z;
  es_peers : list WGPeer;
  es_warp : bool;
}.

Definition egressStep (kernel : bool) (hubPub : list Z) (name : string) (s : egressState) (egName : string) : vres egressState :=
  match es_egresses s !! egName with
  | None => Ok s
  | Some eg =>
      let fab := at_ fo (devEP name (Config.e_ExtIface eg)) in
      let dev := devAt d name fab in
      let? f := fabricAt fm fab in
      let hub := at_ (fb_IPs f) hubName in
      let attach := {[fab]} ∪ es_attach s in
      let oracle := <[egName := at_ (fb_IPs f) name]> (es_oracle s) in
      let put e := <[egName := e]> (es_egresses s) in
      if Config.e_Mode eg =? "warp" then
        let tunIP := "100.64.0." +:+ Itoa (es_octet s) in
        let '(priv, pub) := warpKeys publicKey (name +:+ "/" +:+ egName) in
        let conf := configDir +:+ "/warp-" +:+ egName +:+ ".conf" in
        Ok (MkEgressState attach (put (setEgress eg dev (Config.e_Gateway eg) conf "")) (es_routes s)
          (<[conf := warpINI priv hubPub (hub +:+ ":" +:+ Itoa warpPort) tunIP]> (es_files s)) (<[egName := tunIP]> oracle)
          (es_octet s + 1) (es_peers s ++ [MkWGPeer (keyString pub) [tunIP +:+ "/32"]])%list true)
      else if kernel || (Config.e_Mode eg =? "direct") then
        Ok (MkEgressState attach (put (setEgress eg dev hub (Config.e_WARPConfig eg) (Config.e_WARPCache eg))) (es_routes s) (es_files s) oracle
          (es_octet s) (es_peers s) (es_warp s))
      else
        Ok (MkEgressState attach (put (setEgress eg dev (Config.e_Gateway eg) (Config.e_WARPConfig eg) (Config.e_WARPCache eg)))
          (es_routes s ++ [MkSimRoute echoNet hub dev])%list (es_files s) oracle (es_octet s) (es_peers s) (es_warp s))
  end.

(** Prefix files for the conditions on destinations: the files, and where they are. *)
Definition condFile (st : gmap string string * gmap string string) (c : Config.Condition) : gmap string string * gmap string string :=
  match Config.d_DstIn c with
  | None => st
  | Some s => (<[Config.s_File s := "# generated by netsim" +:+ nl +:+ iranDst +:+ "/32" +:+ nl]> st.1, <[Config.d_Name c := Config.s_File s]> st.2)
  end.

(** The loop over the nodes: the plan so far, the hub's peers and the next tunnel address. *)
Record simState := MkSimState {
  ss_containers : list Container;
  ss_egressIP : gmap string (gmap string string);
  ss_conditionFile : gmap string (gmap string string);
  ss_selfCapture : gmap string bool;
  ss_debugTun : gmap string bool;
  ss_nodeContainer : gmap string string;
  ss_warp : bool;
  ss_octet : Z;
  ss_peers : list WGPeer;
}.

(** [m[k1][k2] = v] for the entries of a map, the inner map made when needed. *)
Definition setRow (m : gmap string (gmap string string)) (k : string) (row : gmap string string) : gmap string (gmap string string) :=
  if bool_decide (row = ∅) then m else <[k := row]> m.

Definition nodePSK (name : string) : string := match po_PSKOverride o !! name with Some p => p | None => po_PSK o end.

Definition attachAll (fabs : gset string) (name : string) : vres (list Attachment) :=
  rangeM (λ acc fab, let? f := fabricAt fm fab in Ok (acc ++ [MkAttach fab (at_ (fb_IPs f) name)])%list) [] (sortedSet fabs).

Definition selfCaptures (nd : Node) : bool := match captureTun nd with Some (_, tc) => k_LAN tc =? "" | None => false end.

Definition nodeStep (nodes : routes) (hubPub : list Z) (legs : gmap string (list Route)) (s : simState) (name : string) : vres simState :=
  let nd := node n name in
  let? cn := cfgAt nodes name in
  let debug := isDebugTun nd in
  let kernel := Config.n_Datapath cn =? "kernel" in
  let psk := nodePSK name in
  let? cst := rangeM (connStep name) (∅, []) (Config.n_Connections cn) in
  let? es := rangeM (egressStep kernel hubPub name)
    (MkEgressState cst.1 (Config.n_Egresses cn) [] ∅ ∅ (ss_octet s) (ss_peers s) (ss_warp s)) (sortedKeys (Config.n_Egresses cn)) in
  let lanFab := (λ dev, at_ fo (devEP name dev)) <$> kernelLAN cn in
  let attach := from_option (λ fab, {[fab]} ∪ es_attach es) (es_attach es) lanFab in
  let lans := from_option (λ fab, [devAt d name fab]) (Config.n_LANIfaces cn) lanFab in
  let cn' := simConfig cn o psk cst.2 (es_egresses es) lans in
  match marshal cn' with
  | None => Err "marshal config"
  | Some yaml =>
      let files := es_files es ∪ {[configDir +:+ "/" +:+ name +:+ ".yaml" := yaml]} in
      let '(files, conds) := fold_left condFile (Config.n_Conditions cn) (files, ∅) in
      let spec := MkSpec (default [] (dv_renames d !! name)) (es_routes es ++ default [] (legs !! name))%list [] [] in
      let files := <[specPath := mustJSON spec]> files in
      let args := (["dualnet"; "-config"; configDir +:+ "/" +:+ name +:+ ".yaml"] ++ if debug then ["-debug-tun"] else [])%list in
      let? att := attachAll attach name in
      let ctr := MkContainer name RoleNode "" name (["sim"; "init"; "-spec"; specPath; "--"] ++ args)%list att ["NET_ADMIN"; "NET_RAW"]
        (if nodeNeedsTun nd cn' debug then ["/dev/net/tun"] else []) [("net.ipv4.ip_forward", "1")] [("DUALNET_PSK", psk)] files false in
      Ok (MkSimState (ss_containers s ++ [ctr])%list (setRow (ss_egressIP s) name (es_oracle es)) (setRow (ss_conditionFile s) name conds)
        (if selfCaptures nd then <[name := true]> (ss_selfCapture s) else ss_selfCapture s) (<[name := debug]> (ss_debugTun s))
        (<[name := name]> (ss_nodeContainer s)) (es_warp es) (es_octet es) (es_peers es))
  end.

(** ** The hub and the LAN clients *)

Definition hubContainer (fs : list Fabric) (hubPriv : list Z) (peers : list WGPeer) : Container :=
  let dev := match peers with [] => [] | _ => [MkWGDevice warpHubDev (keyString hubPriv) warpPort [warpHubIP +:+ "/24"] peers] end in
  let spec := MkSpec [] [] [worldDst +:+ "/32"; iranDst +:+ "/32"] dev in
  MkContainer hubName RoleHub "" "" ["sim"; "init"; "-spec"; specPath; "--"; "sim"; "echo"]
    (omap (λ f, MkAttach (fb_Name f) <$> fb_IPs f !! hubName) fs) ["NET_ADMIN"] [] [] [] {[specPath := mustJSON spec]} false.

Definition clientStep (nodes : routes) (st : list Container * gmap string string) (c : comp) : vres (list Container * gmap string string) :=
  let name := cp_lanFor c in
  if name =? "" then Ok st
  else
    let? f := fabricAt fm (at_ fo (cp_root c)) in
    let routerIP := at_ (fb_IPs f) name in
    let cl := clientName name in
    let? cn := cfgAt nodes name in
    let spec := MkSpec [] [MkSimRoute "default" routerIP ""] (legSourceIPs cn) [] in
    Ok (st.1 ++ [MkContainer cl RoleClient "" name ["sim"; "init"; "-spec"; specPath; "--"; "sim"; "idle"]
      [MkAttach (fb_Name f) (at_ (fb_IPs f) cl)] ["NET_ADMIN"] [] [] [] {[specPath := mustJSON spec]} false], <[name := cl]> st.2)%list.
End nodes.

Definition setImage (img : string) (c : Container) : Container :=
  MkContainer (ct_Name c) (ct_Role c) img (ct_Node c) (ct_Cmd c) (ct_Attach c) (ct_CapAdd c) (ct_Devices c) (ct_Sysctls c) (ct_Env c) (ct_Files c) (ct_Privileged c).

(** ** Plan *)

Definition userspaceWarp (cn : cfg) : bool :=
  existsb (λ kv, (Config.e_Mode kv.2 =? "warp") && negb (Config.n_Datapath cn =? "kernel")) (map_to_list (Config.n_Egresses cn)).

Section plan.
Context (marshal : cfg → option string) (mustJSON : Spec → string) (publicKey : list Z → list Z).
(** The order in which the keys of the union-find are visited. *)
Context (visit : unionFind → list endpoint).

(** The fabrics of a schema: the components of its NICs, in the order of their signatures. *)
Definition compsOf (s : nics) : vres (list comp) :=
  match components (visit (ni_uf s)) (ni_uf s) with
  | None => Err "find does not end"
  | Some comps => Ok (sortBy cp_sig (map (compOf s) (map_to_list comps)))
  end.

Definition Plan (n : Network) (opts : PlanOptions) : vres SimPlan :=
  let o := applyDefaults opts in
  let? nodes := Compile n in
  check? negb (existsb (λ kv, userspaceWarp kv.2) (map_to_list nodes)) else "warp mode on a userspace node";
  let links := linkMap n in
  let? s := allNics n nodes in
  let? cs := compsOf s in
  let fs := fabricsOf (po_NetBase o) cs in
  let fo := fabricOf cs in
  let fm := fabricByName fs in
  let? d := assignAll n links fo fm nodes in
  let? legs := rangeM (legRoute n fo fm) ∅ (w_Links n) in
  let '(hubPriv, hubPub) := warpKeys publicKey "hub" in
  let? st := rangeM (nodeStep marshal mustJSON publicKey n o links fo fm d nodes hubPub legs) (MkSimState [] ∅ ∅ ∅ ∅ ∅ false 2 []) (sortedKeys nodes) in
  let hub := hubContainer mustJSON fs hubPriv (ss_peers st) in
  let? cl := rangeM (clientStep mustJSON fo fm nodes) ((ss_containers st ++ [hub])%list, ∅) cs in
  Ok (MkSimPlan (po_Image o) fs (map (setImage (po_Image o)) (sortBy ct_Name cl.1)) echoNet worldDst iranDst
    (ss_egressIP st) (ss_nodeContainer st) cl.2 (ss_selfCapture st) (ss_conditionFile st) (ss_debugTun st) (ss_warp st)).
End plan.

(** ** A concrete plan *)

Definition demoOptions : PlanOptions := MkPlanOptions "" "" ∅ 0 0 0 0 "".
Definition demoPlan (n : Network) : vres SimPlan :=
  Plan (λ _, Some "yaml") (λ _, "json") (λ k, k) (λ u, elements (dom u)) n demoOptions.
