(* ===== verification/SimFacts.v ===== *)
(** * What the simulation's plan guarantees

    Over SimPlan.v's [Plan]: the addresses it attaches are distinct unless a node has the
    name of the hub or of a client, the two ends of
    a link share a fabric and the dialer's configuration names the acceptor's address
    on it, and the plan does not depend on the order Go visits its maps in. *)

From S2P Require Import Prelude GoStrings Config Factory Dsl Schema Compile KernelPolicy Release ReleaseFacts UnionFind SimPlan Checked Paths.
Local Open Scope Z_scope.
Local Open Scope string_scope.
Local Open Scope go_scope.

(** ** Lemmas: sorting *)

Lemma insertBy_perm {A} (key : A → string) x l : insertBy key x l ≡ₚ x :: l.
Proof. induction l as [|y l IH]; cbn; [done|]. destruct (strLe _ _); [done|]. rewrite IH. constructor. Qed.

Lemma sortBy_perm {A} (key : A → string) l : sortBy key l ≡ₚ l.
Proof. induction l as [|x l IH]; cbn; [done|]. by rewrite insertBy_perm, IH. Qed.

Lemma sortBy_in {A} (key : A → string) l x : x ∈ sortBy key l ↔ x ∈ l.
Proof. by rewrite sortBy_perm. Qed.

Lemma sortedSet_in (m : gset string) x : x ∈ sortedSet m ↔ x ∈ m.
Proof. unfold sortedSet. by rewrite Config.sortStrings_perm, elem_of_elements. Qed.

Lemma sortedSet_nodup (m : gset string) : NoDup (sortedSet m).
Proof. unfold sortedSet. rewrite Config.sortStrings_perm. apply NoDup_elements. Qed.

(** ** Lemmas: addresses *)

Lemma itoa_dotless n : (0 ≤ n)%Z → "."%char ∉ chars (Itoa n).
Proof.
  intros Hn. unfold Itoa. destruct (Z.ltb_spec n 0); [lia|]. rewrite chars_unchars. pose proof (itoaFrom_digits 19 n Hn) as Hd. intros Hin.
  rewrite Forall_forall in Hd. by destruct (Hd _ Hin).
Qed.

(** Where a plan's numbers stay small. *)
Definition small (n : Z) : Prop := (0 ≤ n < 2 ^ 32)%Z.

Lemma host_inj base i o i' o' : small i → small o → small i' → small o' → host base i o = host base i' o' → i = i' ∧ o = o'.
Proof.
  unfold small. intros Hi Ho Hi' Ho' H. unfold host in H. apply (f_equal chars) in H. rewrite !chars_app in H. apply app_inv_head in H.
  change (chars ".") with ["."%char] in H. cbn [app] in H. injection H as H.
  apply cut_inj in H as [H1 H2]; [|apply itoa_dotless; lia..]. apply chars_inj in H1, H2. apply Itoa_inj in H1; [|lia..]. apply Itoa_inj in H2; lia.
Qed.

Lemma fabricName_inj i i' : small i → small i' → "net" +:+ Itoa i = "net" +:+ Itoa i' → i = i'.
Proof. unfold small. intros Hi Hi' H. apply (f_equal chars) in H. rewrite !chars_app in H. apply app_inv_head, chars_inj, Itoa_inj in H; lia. Qed.

(** The addresses of a fabric: its nodes in order, the client next, the hub at .254. *)
Definition addressed (base : string) (i : Z) (c : comp) (name ip : string) : Prop :=
  (∃ j, cp_nodes c !! j = Some name ∧ ip = host base i (2 + Z.of_nat j)) ∨
  (name = hubName ∧ cp_egress c = true ∧ ip = host base i hubOctet) ∨
  (name = clientName (cp_lanFor c) ∧ cp_lanFor c ≠ "" ∧ ip = host base i (2 + Z.of_nat (length (cp_nodes c)))).

Lemma node_ips base i ns (ips : gmap string string) octet name ip :
  (fold_left (addressNode base i) ns (ips, octet)).1 !! name = Some ip →
  (∃ j, ns !! j = Some name ∧ ip = host base i (octet + Z.of_nat j)) ∨ (name ∉ ns ∧ ips !! name = Some ip).
Proof.
  revert ips octet. induction ns as [|nm ns IH]; intros ips octet H; cbn [fold_left addressNode fst snd] in H; [right; split; [apply not_elem_of_nil|done]|].
  destruct (IH _ _ H) as [(j & Hj & ->)|[Hn Hl]]; cbn [addressNode fst snd] in *.
  - left. exists (S j). split; [done|]. f_equal. cbn [fst snd]. lia.
  - destruct (decide (nm = name)) as [->|Hne].
    + rewrite lookup_insert_eq in Hl. injection Hl as <-. left. exists 0%nat. split; [done|]. f_equal. cbn [fst snd]. lia.
    + rewrite lookup_insert_ne in Hl by done. right. split; [rewrite not_elem_of_cons; by split|done].
Qed.

Lemma node_octet base i ns (ips : gmap string string) octet :
  (fold_left (addressNode base i) ns (ips, octet)).2 = octet + Z.of_nat (length ns).
Proof. revert ips octet. induction ns as [|nm ns IH]; intros ips octet; cbn [fold_left length addressNode fst snd]; [lia|]. unfold addressNode. cbn [fst snd]. rewrite IH. lia. Qed.

Lemma fabric_ips base i c name ip : fb_IPs (fabricOfComp base i c) !! name = Some ip → addressed base i c name ip.
Proof.
  unfold fabricOfComp, addressed. pose proof (node_octet base i (cp_nodes c) ∅ 2) as Ho. pose proof (node_ips base i (cp_nodes c) ∅ 2 name ip) as Hi.
  destruct (fold_left _ _ _) as [ips octet]. cbn in Ho, Hi |- *. subst octet.
  assert (ips !! name = Some ip → ∃ j, cp_nodes c !! j = Some name ∧ ip = host base i (2 + Z.of_nat j)) as Hn.
  { intros H. destruct (Hi H) as [?|[_ H0]]; [done|by rewrite lookup_empty in H0]. }
  assert ((if cp_egress c then <[hubName := host base i hubOctet]> ips else ips) !! name = Some ip →
    (∃ j, cp_nodes c !! j = Some name ∧ ip = host base i (2 + Z.of_nat j)) ∨ (name = hubName ∧ cp_egress c = true ∧ ip = host base i hubOctet)) as Hh.
  { destruct (cp_egress c); [|by left; apply Hn]. intros [[<- <-]|[_ H]]%lookup_insert_Some; [by right|left; by apply Hn]. }
  destruct (String.eqb_spec (cp_lanFor c) "") as [->|Hne]; cbn [negb].
  - intros H. destruct (Hh H); auto.
  - intros [[<- <-]|[_ H]]%lookup_insert_Some; [by right; right|]. destruct (Hh H); auto.
Qed.

(** No two names share an address of a fabric. *)
Lemma addressed_inj base i c name name' ip : small i → (length (cp_nodes c) ≤ 251)%nat → addressed base i c name ip → addressed base i c name' ip → name = name'.
Proof.
  intros Hi Hlen. unfold addressed, hubOctet.
  assert (∀ j nm, cp_nodes c !! j = Some nm → (j < 251)%nat) as Hj by (intros j nm Hl; apply lookup_lt_Some in Hl; lia).
  assert (∀ o o', small o → small o' → host base i o = host base i o' → o = o') as Hinj by (intros o o' Ho Ho' H; by apply host_inj in H as [_ ?]).
  intros [(j & Hl & ->)|[(-> & _ & ->)|(-> & _ & ->)]] [(j' & Hl' & He)|[(-> & _ & He)|(-> & _ & He)]]; try done;
    apply Hinj in He; unfold small in *; try lia;
    try (pose proof (Hj _ _ Hl)); try (pose proof (Hj _ _ Hl')); try (pose proof (lookup_lt_Some _ _ _ Hl)); try (pose proof (lookup_lt_Some _ _ _ Hl')); try lia.
  assert (j = j') as -> by lia. congruence.
Qed.

Lemma addressed_host base i c name ip : (length (cp_nodes c) ≤ 251)%nat → addressed base i c name ip → ∃ o, ip = host base i o ∧ (2 ≤ o ≤ 254)%Z.
Proof.
  intros Hlen [(j & Hj & ->)|[(_ & _ & ->)|(_ & _ & ->)]]; eexists; (split; [done|]); unfold hubOctet; [apply lookup_lt_Some in Hj|..]; lia.
Qed.

Lemma subnet_inj base i j : small i → small j → base +:+ "." +:+ Itoa (i + 1) +:+ ".0/24" = base +:+ "." +:+ Itoa (j + 1) +:+ ".0/24" → i = j.
Proof.
  unfold small. intros Hi Hj H. apply (f_equal chars) in H. rewrite !chars_app in H. apply app_inv_head in H.
  change (chars ".") with ["."%char] in H. cbn [app] in H. injection H as H. apply app_inv_tail, chars_inj, Itoa_inj in H; lia.
Qed.

(** Every node of a fabric has an address on it. *)
Lemma node_has base i ns (ips : gmap string string) octet name :
  is_Some (ips !! name) ∨ name ∈ ns → is_Some ((fold_left (addressNode base i) ns (ips, octet)).1 !! name).
Proof.
  revert ips octet. induction ns as [|nm ns IH]; intros ips octet H; cbn [fold_left]; [destruct H as [?|?%elem_of_nil]; done|].
  apply IH. cbn [addressNode fst]. rewrite lookup_insert_is_Some'. destruct H as [?|[->|?]%elem_of_cons]; auto.
Qed.

Lemma fabric_has base i c name : name ∈ cp_nodes c → is_Some (fb_IPs (fabricOfComp base i c) !! name).
Proof.
  intros Hin. unfold fabricOfComp. pose proof (node_has base i (cp_nodes c) ∅ 2 name (or_intror Hin)) as H.
  destruct (fold_left _ _ _) as [ips octet]. cbn in H |- *.
  assert (is_Some ((if cp_egress c then <[hubName := host base i hubOctet]> ips else ips) !! name)) as H'.
  { destruct (cp_egress c); [|done]. apply lookup_insert_is_Some'. by right. }
  destruct (negb _); [|done]. apply lookup_insert_is_Some'. by right.
Qed.

Lemma fabric_size base i c : NoDup (cp_nodes c) → (length (cp_nodes c) ≤ size (fb_IPs (fabricOfComp base i c)))%nat.
Proof.
  intros Hnd. rewrite <- size_dom, <- (size_list_to_set (C:=gset string)) by done. apply subseteq_size.
  intros name Hin%elem_of_list_to_set. apply elem_of_dom. by apply fabric_has.
Qed.

(** ** Lemmas: fabrics by name *)

Lemma fabricByName_in fs name f : fabricByName fs !! name = Some f → f ∈ fs ∧ fb_Name f = name.
Proof.
  unfold fabricByName. enough (∀ m : gmap string Fabric, fold_left (λ m f, <[fb_Name f := f]> m) fs m !! name = Some f → (f ∈ fs ∧ fb_Name f = name) ∨ m !! name = Some f) as H.
  { intros Hf. destruct (H ∅ Hf) as [?|H0]; [done|by rewrite lookup_empty in H0]. }
  induction fs as [|g fs IH]; intros m Hm; cbn [fold_left] in Hm; [by right|]. destruct (IH _ Hm) as [[? ?]|[[<- <-]|[_ ?]]%lookup_insert_Some].
  - left. split; [by right|done].
  - left. split; [left|done].
  - by right.
Qed.

Lemma fabricAt_ok fm name f : fabricAt fm name = Ok f → fm !! name = Some f.
Proof. unfold fabricAt. destruct (fm !! name); [|done]. by intros [= ->]. Qed.

Lemma cfgAt_ok nodes name cn : cfgAt nodes name = Ok cn → nodes !! name = Some cn.
Proof. unfold cfgAt. destruct (nodes !! name); [|done]. by intros [= ->]. Qed.

Lemma fabricsOf_in base cs f : f ∈ fabricsOf base cs → ∃ i c, cs !! i = Some c ∧ f = fabricOfComp base (Z.of_nat i) c.
Proof. unfold fabricsOf. intros (i & c & -> & Hc)%elem_of_lookup_imap. by exists i, c. Qed.

Lemma fabric_name base i c : fb_Name (fabricOfComp base i c) = "net" +:+ Itoa i.
Proof. unfold fabricOfComp. by destruct (fold_left _ _ _). Qed.

Lemma fabric_at base cs name f : fabricAt (fabricByName (fabricsOf base cs)) name = Ok f →
  ∃ i c, cs !! i = Some c ∧ f = fabricOfComp base (Z.of_nat i) c ∧ name = fb_Name f.
Proof.
  intros (Hf & <-)%fabricAt_ok%fabricByName_in. apply fabricsOf_in in Hf as (i & c & Hc & ->). by exists i, c.
Qed.

Lemma at_some {K} `{Countable K} (m : gmap K string) k : at_ m k = "" ∨ m !! k = Some (at_ m k).
Proof. unfold at_. destruct (m !! k); [by right|by left]. Qed.

(** ** Lemmas: a node's container *)

Definition configPath (name : string) : string := configDir +:+ "/" +:+ name +:+ ".yaml".

Lemma configPath_warp name eg : configPath name ≠ configDir +:+ "/warp-" +:+ eg +:+ ".conf".
Proof.
  intros H. apply (f_equal (λ s, last (chars s))) in H. unfold configPath in H. rewrite !chars_app, !last_app in H. done.
Qed.

Lemma configPath_spec name : configPath name ≠ specPath.
Proof. unfold configPath. intros H. apply (f_equal chars) in H. rewrite chars_app in H. done. Qed.

(** What the sim does to a connection: the address it dials, the devices it names. *)
Definition rewritten (c c' : Config.Connection) : Prop := ∃ iface ip lan, c' = setConn c iface ip lan.

Section node.
Context (marshal : cfg → option string) (mustJSON : Spec → string) (publicKey : list Z → list Z).
Context (n : Network) (o : PlanOptions) (links : gmap string Link) (fo : gmap endpoint string) (fm : gmap string Fabric) (d : devs).

Definition dialFabric (name : string) (c : Config.Connection) : string :=
  let l := default zeroL (links !! Config.c_Name c) in at_ fo (MkEndpoint name (epKey (resolveIface (node n name) (l_DialerSource l)) (l_Name l) "d")).
Definition listenFabric (name : string) (c : Config.Connection) : string :=
  let l := default zeroL (links !! Config.c_Name c) in at_ fo (MkEndpoint name (epKey (resolveIface (node n name) (l_AcceptorSource l)) (l_Name l) "a")).

(** A connection done: attached to its fabric; a dialer's address is the acceptor's. *)
Definition conn_done (name : string) (c : Config.Connection) (st : gset string * list Config.Connection) : Prop :=
  (Config.c_Type c = "connect" → dialFabric name c ∈ st.1 ∧ ∃ f c', fabricAt fm (dialFabric name c) = Ok f ∧ c' ∈ st.2 ∧ rewritten c c' ∧
    Config.c_IP c' = at_ (fb_IPs f) (l_Acceptor (default zeroL (links !! Config.c_Name c)))) ∧
  (Config.c_Type c = "listen" → listenFabric name c ∈ st.1 ∧ ∃ c', c' ∈ st.2 ∧ rewritten c c').

Lemma connStep_grows name st c st' : connStep n links fo fm d name st c = Ok st' → st.1 ⊆ st'.1 ∧ (∀ c, c ∈ st.2 → c ∈ st'.2).
Proof.
  unfold connStep. assert (∀ (A B : gset string) (l : list Config.Connection) c, (A ⊆ B) → A ⊆ B ∧ ∀ x, x ∈ l → x ∈ (l ++ [c])%list) as Hg.
  { intros A B l c0 HA. split; [done|]. intros x Hx. apply elem_of_app. by left. }
  repeat case_match; intros Heq; try (apply res_bind_ok in Heq as (f & _ & Heq)); injection Heq as <-; cbn; apply Hg; first [apply union_subseteq_r|reflexivity].
Qed.

Lemma connStep_done name st c st' : connStep n links fo fm d name st c = Ok st' → conn_done name c st'.
Proof.
  unfold connStep, conn_done, dialFabric, listenFabric. destruct (String.eqb_spec (Config.c_Type c) "connect") as [->|Hc].
  - intros (f & Hf & [= <-])%res_bind_ok. split; [|done]. intros _. cbn. split; [apply elem_of_union; left; by apply elem_of_singleton|].
    eexists f, _. split; [exact Hf|]. split; [apply elem_of_app; right; left|]. split; [by eexists _, _, _|done].
  - destruct (String.eqb_spec (Config.c_Type c) "listen") as [->|Hl]; [|by split].
    intros [= <-]. split; [done|]. intros _. cbn. split; [apply elem_of_union; left; by apply elem_of_singleton|].
    eexists. split; [apply elem_of_app; right; left|]. by eexists _, _, _.
Qed.

Lemma conns_done name conns st : rangeM (connStep n links fo fm d name) (∅, []) conns = Ok st → ∀ c, c ∈ conns → conn_done name c st.
Proof.
  apply (Config.rangeM_reaches _ (conn_done name)).
  - intros s c s' _ H. by eapply connStep_done.
  - intros s c s' c0 _ [H1 H2]%connStep_grows [Hd Hl]. split.
    + intros [? (f & c' & ? & ? & ?)]%Hd. split; [by apply H1|]. exists f, c'. auto.
    + intros [? (c' & ? & ?)]%Hl. split; [by apply H1|]. exists c'. auto.
Qed.

Lemma egresses_keep kernel hubPub name s egs s' : rangeM (egressStep publicKey fo fm d kernel hubPub name) s egs = Ok s' →
  (∀ k, is_Some (es_files s !! k) → ∃ eg, k = configDir +:+ "/warp-" +:+ eg +:+ ".conf") →
  es_attach s ⊆ es_attach s' ∧ ∀ k, is_Some (es_files s' !! k) → ∃ eg, k = configDir +:+ "/warp-" +:+ eg +:+ ".conf".
Proof.
  intros H Hk. refine (Config.rangeM_inv _ (λ s', es_attach s ⊆ es_attach s' ∧ ∀ k, is_Some (es_files s' !! k) → ∃ eg, k = configDir +:+ "/warp-" +:+ eg +:+ ".conf") _ _ _ _ _ H); [|done].
  intros s1 eg s2 _ [Ha Hk1]. unfold egressStep. destruct (es_egresses s1 !! eg) as [e|]; [|by intros [= <-]].
  intros (f & _ & H2)%res_bind_ok. destruct (Config.e_Mode e =? "warp").
  - destruct (warpKeys _ _). injection H2 as <-. cbn [es_attach es_files]. split; [set_solver|]. intros k [<-|Hs]%lookup_insert_is_Some'; [by exists eg|by apply Hk1].
  - destruct (_ || _); injection H2 as <-; cbn [es_attach es_files]; (split; [set_solver|exact Hk1]).
Qed.

Lemma condFiles_keep cs st k : (∀ c s, c ∈ cs → Config.d_DstIn c = Some s → Config.s_File s ≠ k) → (fold_left condFile cs st).1 !! k = st.1 !! k.
Proof.
  revert st. induction cs as [|c cs IH]; intros st H; [done|]. cbn [fold_left]. rewrite IH by (intros; eapply H; [by right|done]).
  unfold condFile. destruct (Config.d_DstIn c) as [s|] eqn:Hs; [|done]. cbn [fst]. rewrite lookup_insert_ne; [done|]. eapply H; [left|done].
Qed.

(** What a node is attached to are fabrics of NICs of its own. *)
Definition own_fabrics (name : string) (fabs : gset string) : Prop := ∀ fab, fab ∈ fabs → ∃ key, fab = at_ fo (MkEndpoint name key).

Lemma own_fabrics_add name key fabs : own_fabrics name fabs → own_fabrics name ({[at_ fo (MkEndpoint name key)]} ∪ fabs).
Proof. intros H fab [->%elem_of_singleton|?]%elem_of_union; [by eexists|by apply H]. Qed.

Lemma conns_own name conns st : rangeM (connStep n links fo fm d name) (∅, []) conns = Ok st → own_fabrics name st.1.
Proof.
  intros H. refine (Config.rangeM_inv _ (λ st, own_fabrics name st.1) _ _ _ _ _ H); [|by intros ? ?%elem_of_empty].
  intros s0 c s1 _ H0. unfold connStep. repeat case_match; intros Heq; try (apply res_bind_ok in Heq as (f & _ & Heq)); injection Heq as <-; cbn [fst];
    try (by apply own_fabrics_add); exact H0.
Qed.

Lemma egresses_own kernel hubPub name s egs s' : rangeM (egressStep publicKey fo fm d kernel hubPub name) s egs = Ok s' →
  own_fabrics name (es_attach s) → own_fabrics name (es_attach s').
Proof.
  intros H H0. refine (Config.rangeM_inv _ (λ s', own_fabrics name (es_attach s')) _ _ _ _ H0 H).
  intros s1 eg s2 _ H1. unfold egressStep. destruct (es_egresses s1 !! eg) as [e|]; [|by intros [= <-]].
  intros (f & _ & H2)%res_bind_ok. repeat case_match; injection H2 as <-; cbn [es_attach]; by apply own_fabrics_add.
Qed.

(** The container a node gets. *)
Record container_of (name : string) (cn : cfg) (c : Container) : Prop := {
  co_name : ct_Name c = name;
  co_config : ∃ cn' yaml cst fabs, marshal cn' = Some yaml ∧ rangeM (connStep n links fo fm d name) (∅, []) (Config.n_Connections cn) = Ok cst ∧
    Config.n_Connections cn' = cst.2 ∧ cst.1 ⊆ fabs ∧ own_fabrics name fabs ∧ attachAll fm fabs name = Ok (ct_Attach c) ∧
    ((∀ c s, c ∈ Config.n_Conditions cn → Config.d_DstIn c = Some s → Config.s_File s ≠ configPath name) → ct_Files c !! configPath name = Some yaml);
}.

Lemma nodeStep_container nodes pub legs s name cn s' : nodes !! name = Some cn →
  nodeStep marshal mustJSON publicKey n o links fo fm d nodes pub legs s name = Ok s' →
  ∃ c, ss_containers s' = (ss_containers s ++ [c])%list ∧ container_of name cn c.
Proof.
  intros Hcn. unfold nodeStep. intros (cn0 & Hcn0%cfgAt_ok & H)%res_bind_ok. assert (cn0 = cn) as -> by congruence.
  apply res_bind_ok in H as (cst & Hcst & H). apply res_bind_ok in H as (es & Hes & H).
  destruct (marshal _) as [yaml|] eqn:Hy; [|done].
  set (files := es_files es ∪ _) in H. pose proof (condFiles_keep (Config.n_Conditions cn) (files, ∅) (configPath name)) as Hk.
  destruct (fold_left condFile _ _) as [files' conds]. cbn [fst] in Hk. apply res_bind_ok in H as (att & Hatt & H).
  injection H as <-. cbn [ss_containers]. eexists. split; [done|]. split; [done|].
  pose proof (egresses_own _ _ _ _ _ _ Hes (conns_own _ _ _ Hcst)) as Hown.
  apply egresses_keep in Hes as [Ha Hf]; [|cbn [es_files]; intros k [? Hs]; by rewrite lookup_empty in Hs]. cbn [es_attach] in Ha.
  eexists _, yaml, cst, _. split; [exact Hy|]. split; [exact Hcst|]. split; [done|]. split; [|split; [|split; [exact Hatt|]]].
  - destruct (at_ fo ∘ devEP name <$> kernelLAN cn) as [fab|]; cbn [from_option]; destruct (kernelLAN cn); cbn; set_solver.
  - destruct (kernelLAN cn) as [dev|]; cbn [fmap option_fmap option_map from_option]; [apply own_fabrics_add|]; exact Hown.
  - intros Hno. cbn [ct_Files]. rewrite lookup_insert_ne by (apply not_eq_sym, configPath_spec). rewrite (Hk Hno).
    unfold files. rewrite lookup_union_r; [apply lookup_singleton_eq|]. destruct (es_files es !! configPath name) eqn:He; [|done].
    destruct (Hf (configPath name)) as [eg Heg]; [by eexists|]. by apply configPath_warp in Heg.
Qed.
End node.

(** ** Lemmas: the containers of a plan *)

Lemma attachAll_ok base cs fabs name att : attachAll (fabricByName (fabricsOf base cs)) fabs name = Ok att →
  ∀ a, a ∈ att ↔ ∃ fab, fab ∈ fabs ∧ ∃ f, fabricByName (fabricsOf base cs) !! fab = Some f ∧ a = MkAttach fab (at_ (fb_IPs f) name).
Proof.
  unfold attachAll. intros H a. enough (a ∈ att ↔ ∃ fab, fab ∈ sortedSet fabs ∧ ∃ f, fabricByName (fabricsOf base cs) !! fab = Some f ∧ a = MkAttach fab (at_ (fb_IPs f) name)) as ->.
  { by setoid_rewrite sortedSet_in. }
  refine (Config.rangeM_prefix _ (λ fabs att, a ∈ att ↔ ∃ fab, fab ∈ fabs ∧ ∃ f, fabricByName (fabricsOf base cs) !! fab = Some f ∧ a = MkAttach fab (at_ (fb_IPs f) name)) _ _ _ _ _ H).
  - intros seen s x s' Hs (f & Hf%fabricAt_ok & [= <-])%res_bind_ok. rewrite elem_of_app, list_elem_of_singleton, Hs. setoid_rewrite elem_of_app.
    setoid_rewrite list_elem_of_singleton. split.
    + intros [(fab & ? & ?)| ->]; [exists fab; auto|]. exists x. split; [by right|by exists f].
    + intros (fab & [Hin| ->] & g & Hg & ->); [left; exists fab; split; [done|by exists g]|]. right. congruence.
  - split; [by intros ?%elem_of_nil|by intros (? & ?%elem_of_nil & _)].
Qed.

Lemma attachAll_fabs base cs fabs name att : attachAll (fabricByName (fabricsOf base cs)) fabs name = Ok att → map at_Fabric att = sortedSet fabs.
Proof.
  apply (Config.rangeM_prefix _ (λ seen att, map at_Fabric att = seen)); [|done].
  intros seen s x s' Hs (f & _ & [= <-])%res_bind_ok. by rewrite map_app, Hs.
Qed.

Section stages.
Context (marshal : cfg → option string) (mustJSON : Spec → string) (publicKey : list Z → list Z) (visit : unionFind → list endpoint).

(** The stages of a plan that succeeds. *)
Record planned (n : Network) (opts : PlanOptions) (p : SimPlan) (nodes : routes) (s : nics) (cs : list comp) (d : devs)
    (legs : gmap string (list Route)) (st : simState) (cl : list Container * gmap string string) : Prop := {
  pn_compile : Compile n = Ok nodes;
  pn_nics : allNics n nodes = Ok s;
  pn_comps : compsOf visit s = Ok cs;
  pn_devs : assignAll n (linkMap n) (fabricOf cs) (fabricByName (fabricsOf (po_NetBase (applyDefaults opts)) cs)) nodes = Ok d;
  pn_nodes : rangeM (nodeStep marshal mustJSON publicKey n (applyDefaults opts) (linkMap n) (fabricOf cs)
    (fabricByName (fabricsOf (po_NetBase (applyDefaults opts)) cs)) d nodes (warpKeys publicKey "hub").2 legs)
    (MkSimState [] ∅ ∅ ∅ ∅ ∅ false 2 []) (sortedKeys nodes) = Ok st;
  pn_clients : rangeM (clientStep mustJSON (fabricOf cs) (fabricByName (fabricsOf (po_NetBase (applyDefaults opts)) cs)) nodes)
    ((ss_containers st ++ [hubContainer mustJSON (fabricsOf (po_NetBase (applyDefaults opts)) cs) (warpKeys publicKey "hub").1 (ss_peers st)])%list, ∅) cs = Ok cl;
  pn_fabrics : sm_Fabrics p = fabricsOf (po_NetBase (applyDefaults opts)) cs;
  pn_containers : sm_Containers p = map (setImage (po_Image (applyDefaults opts))) (sortBy ct_Name cl.1);
}.

Lemma Plan_stages n opts p : Plan marshal mustJSON publicKey visit n opts = Ok p → ∃ nodes s cs d legs st cl, planned n opts p nodes s cs d legs st cl.
Proof.
  unfold Plan. intros (nodes & H1 & H)%res_bind_ok. apply Config.check_ok in H as [_ H]. apply res_bind_ok in H as (s & H2 & H).
  apply res_bind_ok in H as (cs & H3 & H). apply res_bind_ok in H as (d & H4 & H). apply res_bind_ok in H as (legs & H5 & H).
  destruct (warpKeys publicKey "hub") as [priv pub] eqn:Hk. apply res_bind_ok in H as (st & H6 & H). apply res_bind_ok in H as (cl & H7 & H).
  injection H as <-. exists nodes, s, cs, d, legs, st, cl. split; rewrite ?Hk; done.
Qed.

Lemma nodeStep_ok n o links fo fm d nodes pub legs s name s' :
  nodeStep marshal mustJSON publicKey n o links fo fm d nodes pub legs s name = Ok s' →
  ∃ c fabs, ss_containers s' = (ss_containers s ++ [c])%list ∧ ct_Name c = name ∧ attachAll fm fabs name = Ok (ct_Attach c) ∧ own_fabrics fo name fabs.
Proof.
  intros H. pose proof H as (cn & Hcn%cfgAt_ok & _)%res_bind_ok. destruct (nodeStep_container _ _ _ _ _ _ _ _ _ _ _ _ _ _ cn _ Hcn H) as (c & -> & [Hn Hc]).
  destruct Hc as (cn' & yaml & cst & fabs & _ & _ & _ & _ & Hown & Hatt & _). by exists c, fabs.
Qed.

Lemma compsOf_nodup s cs c : compsOf visit s = Ok cs → c ∈ cs → NoDup (cp_nodes c).
Proof.
  unfold compsOf. destruct (components _ _); [|done]. intros [= <-] (kv & -> & _)%sortBy_in%list_elem_of_fmap. apply sortedSet_nodup.
Qed.

End stages.

(** ** Lemmas: the two ends of a link share a fabric *)

Definition linkOps (n : Network) : list op := map (λ l, Union (dialerEP n l) (acceptorEP n l)) (w_Links n).

Lemma linkUnions_ops n : linkUnions n = doOps newUF (linkOps n).
Proof.
  unfold linkUnions, linkOps. generalize newUF as u. induction (w_Links n) as [|l ls IH]; intros u; [done|]. cbn [foldl map doOps doOp mbind option_bind].
  destruct (union u _ _) as [u'|]; [exact (IH u')|]. clear. by induction ls.
Qed.

Lemma doOps_app u os os' : doOps u (os ++ os') = u ← doOps u os; doOps u os'.
Proof. revert u. induction os as [|o os IH]; intros u; cbn [app doOps]; [done|]. destruct (doOp u o) as [v|]; [exact (IH v)|done]. Qed.

(** What a node adds to the union-find are NICs of its own. *)
Definition extends (s s' : nics) : Prop := ∃ es, doOps (ni_uf s) (map Add es) = Some (ni_uf s').

Lemma extends_refl s : extends s s.
Proof. by exists []. Qed.

Lemma nics_extends_trans s s' s'' : extends s s' → extends s' s'' → extends s s''.
Proof. intros (es & He) (es' & He'). exists (es ++ es')%list. rewrite map_app, doOps_app, He. exact He'. Qed.

Lemma extends_nicEgress name s eg : extends s (nicEgress name s eg).
Proof. by eexists [_]. Qed.
Lemma extends_nicCapture name dev s : extends s (nicCapture name dev s).
Proof. by eexists [_]. Qed.

Lemma extends_nodeNics n nodes s name s' : nodeNics n nodes s name = Ok s' → extends s s'.
Proof.
  unfold nodeNics. intros (cn & _ & [= <-])%res_bind_ok.
  assert (∀ (egs : list (string * Config.Egress)) s, extends s (fold_left (λ s kv, nicEgress name s kv.2) egs s)) as Hf.
  { induction egs as [|kv egs IH]; intros s0; [apply extends_refl|]. eapply nics_extends_trans; [apply extends_nicEgress|apply IH]. }
  eapply nics_extends_trans; [apply Hf|]. eapply nics_extends_trans.
  - instantiate (1 := from_option (λ dev, nicCapture name dev _) _ (tunLAN (node n name))).
    destruct (tunLAN _); [apply extends_nicCapture|apply extends_refl].
  - destruct (kernelLAN cn); [apply extends_nicCapture|apply extends_refl].
Qed.

Lemma allNics_ops n nodes s : allNics n nodes = Ok s → ∃ es, represents (linkOps n ++ map Add es) (ni_uf s).
Proof.
  unfold allNics. rewrite linkUnions_ops. destruct (doOps newUF (linkOps n)) as [u|] eqn:Hu; [|done]. intros H.
  assert (extends (MkNics u ∅ ∅) s) as (es & He).
  { refine (Config.rangeM_inv _ (extends (MkNics u ∅ ∅)) _ _ _ _ (extends_refl _) H). intros s0 name s1 _ H0 H1.
    eapply nics_extends_trans; [exact H0|by eapply extends_nodeNics]. }
  exists es. destruct (doOps_represents (linkOps n ++ map Add es)) as (u' & Hu' & Hr). rewrite doOps_app, Hu in Hu'. cbn in He, Hu'. congruence.
Qed.

Section fabrics.
Context (visit : unionFind → list endpoint) (Hvisit : ∀ u e, e ∈ visit u ↔ e ∈ dom u).

Lemma compsOf_out s cs : compsOf visit s = Ok cs → ∃ out, components (visit (ni_uf s)) (ni_uf s) = Some out ∧ cs ≡ₚ map (compOf s) (map_to_list out).
Proof. unfold compsOf. destruct (components _ _) as [out|]; [|done]. intros [= <-]. exists out. split; [done|apply sortBy_perm]. Qed.

(** The fabrics partition the NICs. *)
Record partitioned (os : list op) (cs : list comp) : Prop := {
  pt_some : ∀ e, mentions os e → ∃ i c, cs !! i = Some c ∧ e ∈ cp_endpoints c;
  pt_one : ∀ i j c c' e, cs !! i = Some c → cs !! j = Some c' → e ∈ cp_endpoints c → e ∈ cp_endpoints c' → i = j;
  pt_class : ∀ c e x, c ∈ cs → e ∈ cp_endpoints c → x ∈ cp_endpoints c ↔ connected os e x;
  pt_nodes : ∀ c e, c ∈ cs → e ∈ cp_endpoints c → ep_node e ∈ cp_nodes c;
  pt_root : ∀ c, c ∈ cs → cp_root c ∈ cp_endpoints c;
}.

Lemma compsOf_partition s os cs : represents os (ni_uf s) → compsOf visit s = Ok cs → partitioned os cs.
Proof.
  intros Hr H. destruct (compsOf_out s cs H) as (out & Hc & Hp).
  destruct (components_classes os _ _ Hr (Hvisit (ni_uf s))) as (out' & Hc' & [Hm Hcl Hu Hro]). assert (out' = out) as -> by congruence.
  assert (∀ c, c ∈ cs ↔ ∃ r l, out !! r = Some l ∧ c = compOf s (r, l)) as Hin.
  { intros c. rewrite Hp, list_elem_of_fmap. split.
    - intros ([r l] & -> & Hrl%elem_of_map_to_list). by exists r, l.
    - intros (r & l & Hrl & ->). exists (r, l). split; [done|by apply elem_of_map_to_list]. }
  assert (NoDup (map cp_root cs)) as Hnd.
  { rewrite Hp, map_map. change (λ x, cp_root (compOf s x)) with (λ x : endpoint * list endpoint, x.1). apply NoDup_fst_map_to_list. }
  split.
  - intros e (r & l & Hrl & He)%Hm. assert (compOf s (r, l) ∈ cs) as [i Hi]%list_elem_of_lookup by (apply Hin; by exists r, l). by exists i, (compOf s (r, l)).
  - intros i j c c' e Hi Hj He He'. pose proof (list_elem_of_lookup_2 _ _ _ Hi) as (r & l & Hrl & ->)%Hin. pose proof (list_elem_of_lookup_2 _ _ _ Hj) as (r' & l' & Hrl' & ->)%Hin.
    rewrite (Hu r r' l l' e Hrl Hrl' He He') in *. eapply NoDup_lookup; [exact Hnd| |]; rewrite list_lookup_fmap; [by rewrite Hi|by rewrite Hj].
  - intros c e x (r & l & Hrl & ->)%Hin He. by apply (Hcl r l Hrl).
  - intros c e (r & l & Hrl & ->)%Hin He. cbn in He |- *. apply sortedSet_in, elem_of_list_to_set, list_elem_of_fmap. by exists e.
  - intros c (r & l & Hrl & ->)%Hin. by apply (Hro r l).
Qed.

Lemma fold_names e v (ics : list (nat * comp)) (m : gmap endpoint string) :
  (∀ ic, ic ∈ ics → e ∈ cp_endpoints ic.2 → "net" +:+ Itoa (Z.of_nat ic.1) = v) → m !! e = Some v ∨ (∃ ic, ic ∈ ics ∧ e ∈ cp_endpoints ic.2) →
  fold_left (λ m ic, fold_left (λ m e, <[e := "net" +:+ Itoa (Z.of_nat ic.1)]> m) (cp_endpoints ic.2) m) ics m !! e = Some v.
Proof.
  assert (∀ w es (m : gmap endpoint string), (e ∈ es → w = v) → m !! e = Some v ∨ e ∈ es → fold_left (λ m e, <[e := w]> m) es m !! e = Some v) as Hin.
  { intros w. induction es as [|e' es IH]; intros m' Hw Hm; cbn [fold_left]; [destruct Hm as [?|?%elem_of_nil]; done|].
    apply IH; [intros ?; apply Hw; by right|]. destruct (decide (e' = e)) as [->|Hne].
    - left. rewrite lookup_insert_eq. by rewrite Hw by left.
    - rewrite lookup_insert_ne by done. destruct Hm as [?|[->|?]%elem_of_cons]; [by left|done|by right]. }
  revert m. induction ics as [|ic ics IH]; intros m Hv Hm; cbn [fold_left]; [destruct Hm as [?|(? & ?%elem_of_nil & _)]; done|].
  apply IH; [intros ic' ?; apply Hv; by right|]. destruct Hm as [Hm|(ic' & [->|Hic]%elem_of_cons & He)].
  - left. apply Hin; [apply Hv; left|by left].
  - left. apply Hin; [apply Hv; left|by right].
  - right. by exists ic'.
Qed.

Lemma fabricOf_at os cs i c e : partitioned os cs → cs !! i = Some c → e ∈ cp_endpoints c → fabricOf cs !! e = Some ("net" +:+ Itoa (Z.of_nat i)).
Proof.
  intros Hp Hi He. unfold fabricOf. apply fold_names.
  - intros ic (k & c2 & -> & Hk)%elem_of_lookup_imap He'. cbn in He' |- *. by rewrite (pt_one _ _ Hp k i c2 c e).
  - right. exists (i, c). split; [|done]. apply elem_of_lookup_imap. by exists i, c.
Qed.

(** The fabric of two NICs joined by a link. *)
Lemma link_fabric n nodes s cs l : allNics n nodes = Ok s → compsOf visit s = Ok cs → l ∈ w_Links n →
  ∃ i c, cs !! i = Some c ∧ fabricOf cs !! dialerEP n l = Some ("net" +:+ Itoa (Z.of_nat i)) ∧ fabricOf cs !! acceptorEP n l = Some ("net" +:+ Itoa (Z.of_nat i)) ∧
    l_Dialer l ∈ cp_nodes c ∧ l_Acceptor l ∈ cp_nodes c.
Proof.
  intros Hs Hc Hl. destruct (allNics_ops n nodes s Hs) as (es & Hr). pose proof (compsOf_partition _ _ _ Hr Hc) as Hp.
  assert (Union (dialerEP n l) (acceptorEP n l) ∈ (linkOps n ++ map Add es)%list) as Ho by (apply elem_of_app; left; apply list_elem_of_fmap; by exists l).
  assert (mentions (linkOps n ++ map Add es) (dialerEP n l)) as Hm by (eexists; split; [exact Ho|by left]).
  destruct (pt_some _ _ Hp _ Hm) as (i & c & Hi & He). pose proof (list_elem_of_lookup_2 _ _ _ Hi) as Hin.
  assert (acceptorEP n l ∈ cp_endpoints c) as He'.
  { apply (pt_class _ _ Hp c (dialerEP n l)); [done..|]. split; [done|]. apply rtc_once. by left. }
  exists i, c. split; [done|]. split; [by eapply fabricOf_at|]. split; [by eapply fabricOf_at|].
  split; [exact (pt_nodes _ _ Hp _ _ Hin He)|exact (pt_nodes _ _ Hp _ _ Hin He')].
Qed.
End fabrics.

(** ** Lemmas: from a link to its containers *)

Lemma clientStep_keeps mustJSON fo fm nodes st c st' ct : clientStep mustJSON fo fm nodes st c = Ok st' → ct ∈ st.1 → ct ∈ st'.1.
Proof.
  unfold clientStep. destruct (cp_lanFor c =? ""); [by intros [= <-]|].
  intros (f & _ & H)%res_bind_ok Hct. apply res_bind_ok in H as (cn & _ & H). injection H as <-. cbn. apply elem_of_app. by left.
Qed.

Lemma plan_container marshal mustJSON publicKey visit n opts p nodes s cs d legs st cl name cn :
  planned marshal mustJSON publicKey visit n opts p nodes s cs d legs st cl → nodes !! name = Some cn →
  ∃ c, c ∈ sm_Containers p ∧ container_of marshal n (linkMap n) (fabricOf cs) (fabricByName (fabricsOf (po_NetBase (applyDefaults opts)) cs)) d name cn c.
Proof.
  intros H Hcn. set (fm := fabricByName _). set (P := container_of marshal n (linkMap n) (fabricOf cs) fm d).
  assert (∃ c, c ∈ ss_containers st ∧ P name cn c) as (c & Hc & HP).
  { assert (∀ nm, nm ∈ sortedKeys nodes → ∀ cn, nodes !! nm = Some cn → ∃ c, c ∈ ss_containers st ∧ P nm cn c) as Hall.
    { refine (Config.rangeM_reaches _ (λ nm s, ∀ cn, nodes !! nm = Some cn → ∃ c, c ∈ ss_containers s ∧ P nm cn c) _ _ _ _ _ (pn_nodes _ _ _ _ _ _ _ _ _ _ _ _ _ _ H)).
      - intros s0 nm s1 _ H1 cn1 Hcn1. destruct (nodeStep_container _ _ _ _ _ _ _ _ _ _ _ _ _ _ _ _ Hcn1 H1) as (c & -> & HP).
        exists c. split; [apply elem_of_app; right; left|exact HP].
      - intros s0 nm s1 nm0 _ (c & fabs & -> & _)%nodeStep_ok Hq cn1 Hcn1. destruct (Hq cn1 Hcn1) as (c0 & ? & ?). exists c0. split; [apply elem_of_app; by left|done]. }
    apply (Hall name); [apply sortedKeys_in; by exists cn|done]. }
  exists (setImage (po_Image (applyDefaults opts)) c). split.
  - rewrite (pn_containers _ _ _ _ _ _ _ _ _ _ _ _ _ _ H). apply list_elem_of_fmap. exists c. split; [done|]. apply sortBy_in.
    refine (Config.rangeM_inv _ (λ st : list Container * gmap string string, c ∈ st.1) _ _ _ _ _ (pn_clients _ _ _ _ _ _ _ _ _ _ _ _ _ _ H)).
    + intros s0 x s1 _ Hin H1. by eapply clientStep_keeps.
    + cbn [fst]. apply elem_of_app. by left.
  - destruct HP as [H1 H2]. split; [exact H1|exact H2].
Qed.

(** A container and a connection its configuration file describes. *)
Definition configured (marshal : cfg → option string) (p : SimPlan) (name : string) (c : Config.Connection) (k : Container) : Prop :=
  k ∈ sm_Containers p ∧ ct_Name k = name ∧ ∃ cn yaml, marshal cn = Some yaml ∧ ct_Files k !! configPath name = Some yaml ∧ c ∈ Config.n_Connections cn.

(** The dialer of a link reaches its acceptor: both are on one fabric, and the
    dialer's file names the acceptor's address there, and a port it listens on. *)
Definition reaches (marshal : cfg → option string) (p : SimPlan) (l : Link) : Prop :=
  ∃ kd ka cd ca f ipd ipa, f ∈ sm_Fabrics p ∧
    configured marshal p (l_Dialer l) cd kd ∧ configured marshal p (l_Acceptor l) ca ka ∧
    MkAttach (fb_Name f) ipd ∈ ct_Attach kd ∧ MkAttach (fb_Name f) ipa ∈ ct_Attach ka ∧ ipd ≠ "" ∧ ipa ≠ "" ∧
    Config.c_Type cd = "connect" ∧ Config.c_Type ca = "listen" ∧ Config.c_Name cd = l_Name l ∧ Config.c_Name ca = l_Name l ∧
    Config.c_IP cd = ipa ∧ Config.c_Port cd = Config.c_Port ca ∧ Config.c_Transport cd = Config.c_Transport ca ∧ Config.c_Cipher cd = Config.c_Cipher ca.

(** No condition's prefix file is the configuration file. *)
Definition files_apart (nodes : routes) : Prop :=
  ∀ name cn, nodes !! name = Some cn → ∀ c s, c ∈ Config.n_Conditions cn → Config.d_DstIn c = Some s → Config.s_File s ≠ configPath name.

Lemma fabric_address base i c name : name ∈ cp_nodes c → ∃ ip, fb_IPs (fabricOfComp base i c) !! name = Some ip ∧ ip ≠ "".
Proof.
  intros [ip Hip]%(fabric_has base i). exists ip. split; [done|]. intros ->.
  assert (∀ o, "" ≠ host base i o) as Hne.
  { intros o H. unfold host in H. apply (f_equal chars) in H. rewrite !chars_app in H. by destruct (chars base). }
  apply fabric_ips in Hip as [(j & _ & H)|[(_ & _ & H)|(_ & _ & H)]]; by apply Hne in H.
Qed.

Lemma fabricAt_index base cs i c f : (length cs ≤ 255)%nat → cs !! i = Some c →
  fabricAt (fabricByName (fabricsOf base cs)) ("net" +:+ Itoa (Z.of_nat i)) = Ok f → f = fabricOfComp base (Z.of_nat i) c.
Proof.
  intros Hlen Hi (j & c' & Hj & -> & Hn)%fabric_at. rewrite fabric_name in Hn.
  apply fabricName_inj in Hn; [|unfold small; apply lookup_lt_Some in Hi, Hj; lia..]. assert (i = j) as <- by lia. congruence.
Qed.

Lemma attachAll_has base cs fabs name att i c : attachAll (fabricByName (fabricsOf base cs)) fabs name = Ok att → (length cs ≤ 255)%nat → cs !! i = Some c →
  name ∈ cp_nodes c → "net" +:+ Itoa (Z.of_nat i) ∈ fabs →
  ∃ ip, fb_IPs (fabricOfComp base (Z.of_nat i) c) !! name = Some ip ∧ ip ≠ "" ∧ MkAttach ("net" +:+ Itoa (Z.of_nat i)) ip ∈ att.
Proof.
  intros H Hlen Hi Hn Hfab. destruct (fabric_address base (Z.of_nat i) c name Hn) as (ip & Hip & Hne). exists ip. split; [done|]. split; [done|].
  assert (∃ f, fabricByName (fabricsOf base cs) !! ("net" +:+ Itoa (Z.of_nat i)) = Some f) as [f Hf].
  { destruct (fabricByName (fabricsOf base cs) !! _) as [f|] eqn:Hf; [by exists f|]. exfalso. unfold attachAll in H.
    assert (∀ fab, fab ∈ sortedSet fabs → is_Some (fabricByName (fabricsOf base cs) !! fab)) as Hall.
    { refine (Config.rangeM_reaches _ (λ fab _, is_Some (fabricByName (fabricsOf base cs) !! fab)) _ _ _ _ _ H); [|done].
      intros s fab s' _ (f & Hf'%fabricAt_ok & _)%res_bind_ok. by exists f. }
    destruct (Hall ("net" +:+ Itoa (Z.of_nat i))) as [f Hf']; [by apply sortedSet_in|]. congruence. }
  apply (attachAll_ok _ _ _ _ _ H). exists ("net" +:+ Itoa (Z.of_nat i)). split; [done|]. exists f. split; [done|].
  assert (f = fabricOfComp base (Z.of_nat i) c) as ->; [|unfold at_; by rewrite Hip].
  apply (fabricAt_index base cs i c f Hlen Hi). unfold fabricAt. by rewrite Hf.
Qed.

(** One end of a link in the plan. *)
Lemma plan_end marshal mustJSON publicKey visit n opts p nodes s cs d legs st cl name psk c :
  planned marshal mustJSON publicKey visit n opts p nodes s cs d legs st cl → files_apart nodes → attached nodes name psk c →
  ∃ k cst fabs, conn_done n (linkMap n) (fabricOf cs) (fabricByName (fabricsOf (po_NetBase (applyDefaults opts)) cs)) name c cst ∧
    (∀ c', c' ∈ cst.2 → configured marshal p name c' k) ∧
    cst.1 ⊆ fabs ∧ attachAll (fabricByName (fabricsOf (po_NetBase (applyDefaults opts)) cs)) fabs name = Ok (ct_Attach k).
Proof.
  intros H Hap (cn & Hcn & _ & Hc). destruct (plan_container _ _ _ _ _ _ _ _ _ _ _ _ _ _ name cn H Hcn) as (k & Hk & [Hn Hco]).
  destruct Hco as (cn' & yaml & cst & fabs & Hy & Hcst & Hconns & Hsub & _ & Hatt & Hf). exists k, cst, fabs.
  split; [by eapply conns_done|]. split; [|by split]. intros c' Hc'. split; [done|]. split; [done|]. exists cn', yaml.
  split; [done|]. split; [apply Hf; by eapply Hap|]. by rewrite Hconns.
Qed.

Lemma nodeStep_nodeContainer marshal mustJSON publicKey n o links fo fm d nodes pub legs s name s' :
  nodeStep marshal mustJSON publicKey n o links fo fm d nodes pub legs s name = Ok s' → ss_nodeContainer s' = <[name := name]> (ss_nodeContainer s).
Proof.
  unfold nodeStep. intros (cn & _ & H)%res_bind_ok. apply res_bind_ok in H as (cst & _ & H). apply res_bind_ok in H as (es & _ & H).
  destruct (marshal _); [|done]. destruct (fold_left condFile _ _). apply res_bind_ok in H as (att & _ & H). by injection H as <-.
Qed.

(** ** Lemmas: who is attached where *)

(** A container's attachment: one of the fabrics, with the container's address there. *)
Definition attached_at (base : string) (cs : list comp) (name : string) (a : Attachment) : Prop :=
  ∃ i c, cs !! i = Some c ∧ at_Fabric a = "net" +:+ Itoa (Z.of_nat i) ∧ fb_IPs (fabricOfComp base (Z.of_nat i) c) !! name = Some (at_IP a).

(** The container and the fabric of every attachment, and the addresses of them all. *)
Definition pairs (ks : list Container) : list (string * string) := concat (map (λ k, map (λ a, (ct_Name k, at_Fabric a)) (ct_Attach k)) ks).
Definition attachments (ks : list Container) : list (string * Attachment) := concat (map (λ k, map (pair (ct_Name k)) (ct_Attach k)) ks).
Definition addresses (p : SimPlan) : list string := map at_IP (concat (map ct_Attach (sm_Containers p))).

(** No node is named like the hub, nor like the client of a node's LAN. *)
Definition plain_names (n : Network) : Prop :=
  w_Nodes n !! hubName = None ∧ ∀ x, is_Some (w_Nodes n !! x) → w_Nodes n !! clientName x = None.

Lemma pairs_snoc ks k : pairs (ks ++ [k]) = (pairs ks ++ map (λ a, (ct_Name k, at_Fabric a)) (ct_Attach k))%list.
Proof. unfold pairs. rewrite map_app, concat_app. cbn. by rewrite app_nil_r. Qed.

Lemma pairs_in ks x : x ∈ pairs ks ↔ ∃ k, k ∈ ks ∧ ∃ a, a ∈ ct_Attach k ∧ x = (ct_Name k, at_Fabric a).
Proof.
  unfold pairs. rewrite list_elem_of_In, in_concat. setoid_rewrite <- list_elem_of_In. split.
  - intros (l & (k & -> & Hk)%list_elem_of_fmap & Hx). apply list_elem_of_fmap in Hx as (a & -> & Ha). exists k. split; [done|by exists a].
  - intros (k & Hk & a & Ha & ->). eexists. split; [apply list_elem_of_fmap; by exists k|]. apply list_elem_of_fmap. by exists a.
Qed.

Lemma NoDup_keys {A B C} (f : A → B) (g : A → C) l : (∀ x y, x ∈ l → y ∈ l → g x = g y → f x = f y) → NoDup (map f l) → NoDup (map g l).
Proof.
  intros Hfg. induction l as [|x l IH]; cbn [map]; [constructor|]. intros [Hx Hl]%NoDup_cons. apply NoDup_cons. split; [|apply IH; [|done]; intros; apply Hfg; [by right..|done]].
  intros (y & Hy & Hin)%list_elem_of_fmap. apply Hx, list_elem_of_fmap. exists y. split; [|done]. apply Hfg; [left|by right|done].
Qed.

Section attachments.
Context (base : string) (os : list op) (cs : list comp) (Hp : partitioned os cs) (Hlen : (length cs ≤ 255)%nat).
Let fm := fabricByName (fabricsOf base cs).

Lemma fabricOf_inv e f : fabricOf cs !! e = Some f → ∃ i c, cs !! i = Some c ∧ e ∈ cp_endpoints c ∧ f = "net" +:+ Itoa (Z.of_nat i).
Proof.
  unfold fabricOf. set (P := λ m : gmap endpoint string, m !! e = Some f → ∃ i c, cs !! i = Some c ∧ e ∈ cp_endpoints c ∧ f = "net" +:+ Itoa (Z.of_nat i)).
  assert (∀ ics m, (∀ ic, ic ∈ ics → cs !! ic.1 = Some ic.2) → P m →
    P (fold_left (λ m ic, fold_left (λ m e, <[e := "net" +:+ Itoa (Z.of_nat ic.1)]> m) (cp_endpoints ic.2) m) ics m)) as H.
  { induction ics as [|ic ics IH]; intros m Hics Hm; cbn [fold_left]; [done|]. apply IH; [intros; apply Hics; by right|].
    assert (∀ es m, (∀ x, x ∈ es → x ∈ cp_endpoints ic.2) → P m → P (fold_left (λ m e, <[e := "net" +:+ Itoa (Z.of_nat ic.1)]> m) es m)) as Hes; [|by apply Hes].
    clear m Hm. induction es as [|x es IHe]; intros m Hes Hm; cbn [fold_left]; [done|]. apply IHe; [intros; apply Hes; by right|].
    intros [[-> <-]|[_ Hl]]%lookup_insert_Some; [|by apply Hm]. exists ic.1, ic.2. split_and!; [apply Hics; left|apply Hes; left|done]. }
  apply H; [|unfold P; by rewrite lookup_empty]. intros ic (i & c & -> & Hi)%elem_of_lookup_imap. done.
Qed.

(** The fabric of a NIC has the NIC's node. *)
Lemma own_fabric e f : fabricAt fm (at_ (fabricOf cs) e) = Ok f →
  ∃ i c, cs !! i = Some c ∧ e ∈ cp_endpoints c ∧ f = fabricOfComp base (Z.of_nat i) c ∧ at_ (fabricOf cs) e = "net" +:+ Itoa (Z.of_nat i).
Proof.
  intros H. pose proof H as (j & cj & Hj & Hf & Hn)%fabric_at. rewrite Hf, fabric_name in Hn. unfold at_ in Hn |- *.
  destruct (fabricOf cs !! e) as [fab|] eqn:He; [|done]. apply fabricOf_inv in He as (i & c & Hi & He & ->). exists i, c. cbn [default from_option] in Hn |- *.
  split; [done|]. split; [done|]. split; [|done]. apply (fabricAt_index base cs i c f Hlen Hi). unfold at_ in H. by rewrite (fabricOf_at os cs i c e Hp Hi He) in H.
Qed.

Lemma attachAll_at fabs name att a : own_fabrics (fabricOf cs) name fabs → attachAll fm fabs name = Ok att → a ∈ att → attached_at base cs name a.
Proof.
  intros Hown H Ha. apply (attachAll_ok _ _ _ _ _ H) in Ha as (fab & Hfab & f & Hf & ->). destruct (Hown fab Hfab) as (key & ->).
  destruct (own_fabric (MkEndpoint name key) f) as (i & c & Hi & He & -> & Hn); [unfold fabricAt, fm; by rewrite Hf|]. exists i, c. split; [done|]. split; [done|].
  apply (pt_nodes _ _ Hp _ _ (list_elem_of_lookup_2 _ _ _ Hi)) in He. cbn in He. destruct (fabric_has base (Z.of_nat i) c name He) as [ip Hip]. cbn [at_IP]. unfold at_. by rewrite Hip.
Qed.

Definition placed (ks : list Container) : Prop := ∀ k a, k ∈ ks → a ∈ ct_Attach k → attached_at base cs (ct_Name k) a.

(** The node containers. *)
Lemma nodes_placed marshal mustJSON publicKey n o links d nodes pub legs s0 names s : ss_containers s0 = [] → NoDup names →
  rangeM (nodeStep marshal mustJSON publicKey n o links (fabricOf cs) fm d nodes pub legs) s0 names = Ok s →
  (∀ k, k ∈ ss_containers s → ct_Name k ∈ names) ∧ placed (ss_containers s) ∧ NoDup (pairs (ss_containers s)).
Proof.
  intros H0 Hnd H. assert ((∀ k, k ∈ ss_containers s → ct_Name k ∈ names) ∧ placed (ss_containers s) ∧ (NoDup names → NoDup (pairs (ss_containers s)))) as (? & ? & ?); [|auto].
  refine (Config.rangeM_prefix _ (λ seen s, (∀ k, k ∈ ss_containers s → ct_Name k ∈ seen) ∧ placed (ss_containers s) ∧ (NoDup seen → NoDup (pairs (ss_containers s)))) _ _ _ _ _ H).
  - intros seen s1 name s2 (Hin & Hpl & Hpa) (k & fabs & -> & Hk & Hatt & Hown)%nodeStep_ok. split; [|split].
    + intros k' [Hk'| ->%list_elem_of_singleton]%elem_of_app; apply elem_of_app; [left; by apply Hin|right; rewrite Hk; left].
    + intros k' a [Hk'| ->%list_elem_of_singleton]%elem_of_app Ha; [by eapply Hpl|]. rewrite Hk. by eapply attachAll_at.
    + intros (Hseen & Hfresh & _)%NoDup_app. rewrite pairs_snoc. apply NoDup_app. split; [by apply Hpa|]. split.
      * intros x (k' & Hk' & a & _ & ->)%pairs_in (a' & [= Heq _] & _)%list_elem_of_fmap. eapply Hfresh; [by apply Hin|]. rewrite Heq, Hk. left.
      * apply (NoDup_keys at_Fabric); [by intros x y _ _ [= ?]|]. rewrite (attachAll_fabs _ _ _ _ _ Hatt). apply sortedSet_nodup.
  - rewrite H0. split; [by intros k ?%elem_of_nil|]. split; [by intros k a ?%elem_of_nil|intros _; constructor].
Qed.

Lemma net_inj i j : (i < length cs)%nat → (j < length cs)%nat → "net" +:+ Itoa (Z.of_nat i) = "net" +:+ Itoa (Z.of_nat j) → i = j.
Proof. intros Hi Hj H. apply fabricName_inj in H; [lia|unfold small; lia..]. Qed.

Lemma fabric_names : NoDup (map fb_Name (fabricsOf base cs)).
Proof.
  apply NoDup_alt. intros i j x Hi Hj. unfold fabricsOf in Hi, Hj. rewrite list_lookup_fmap, list_lookup_imap in Hi, Hj.
  destruct (cs !! i) as [ci|] eqn:Hci; [|done]. destruct (cs !! j) as [cj|] eqn:Hcj; [|done]. cbn [option_map fmap option_fmap] in Hi, Hj.
  injection Hi as Hi. injection Hj as Hj. rewrite fabric_name in Hi, Hj. apply net_inj; [by eapply lookup_lt_Some..|congruence].
Qed.

Lemma omap_fabrics (g : Fabric → option Attachment) fs : (∀ f a, g f = Some a → at_Fabric a = fb_Name f) → NoDup (map fb_Name fs) → NoDup (map at_Fabric (omap g fs)).
Proof.
  intros Hg. induction fs as [|f fs IH]; cbn [omap list_omap map]; [constructor|]. intros [Hf Hfs]%NoDup_cons.
  destruct (g f) as [a|] eqn:Ha; [|by apply IH]. apply NoDup_cons. split; [|by apply IH].
  intros (a' & Heq & (f' & Hf' & Ha')%list_elem_of_omap)%list_elem_of_fmap. apply Hf. rewrite <- (Hg _ _ Ha), Heq, (Hg _ _ Ha'). apply list_elem_of_fmap. by exists f'.
Qed.

(** The hub. *)
Lemma hub_placed mustJSON priv peers : let k := hubContainer mustJSON (fabricsOf base cs) priv peers in
  placed [k] ∧ NoDup (pairs [k]).
Proof.
  split.
  - intros k a ->%list_elem_of_singleton. cbn [ct_Attach hubContainer ct_Name].
    intros (f & Hf & Hl)%list_elem_of_omap. destruct (fb_IPs f !! hubName) as [ip|] eqn:Hip; [|done]. cbn in Hl. injection Hl as <-.
    apply fabricsOf_in in Hf as (i & c & Hc & ->). exists i, c. split; [done|]. by rewrite fabric_name.
  - unfold pairs. cbn [map concat]. rewrite app_nil_r. apply (NoDup_keys at_Fabric); [by intros x y _ _ [= ?]|]. cbn [ct_Attach hubContainer].
    apply omap_fabrics; [|exact fabric_names]. intros f a. destruct (fb_IPs f !! hubName); [|done]. by intros [= <-].
Qed.

(** A LAN's client is on its fabric. *)
Definition is_client (nodes : routes) (seen : list comp) (k : Container) : Prop :=
  ∃ j c ip, seen !! j = Some c ∧ ct_Name k = clientName (cp_lanFor c) ∧ is_Some (nodes !! cp_lanFor c) ∧
    ct_Attach k = [MkAttach ("net" +:+ Itoa (Z.of_nat j)) ip] ∧ fb_IPs (fabricOfComp base (Z.of_nat j) c) !! ct_Name k = Some ip.

Lemma client_has i c : cp_lanFor c ≠ "" → is_Some (fb_IPs (fabricOfComp base i c) !! clientName (cp_lanFor c)).
Proof.
  intros Hl. unfold fabricOfComp. destruct (fold_left _ _ _). destruct (String.eqb_spec (cp_lanFor c) ""); [done|]. cbn. rewrite lookup_insert_eq. by eexists.
Qed.

Lemma clientStep_ok mustJSON nodes st c i st' : cs !! i = Some c → clientStep mustJSON (fabricOf cs) fm nodes st c = Ok st' →
  st'.1 = st.1 ∨ ∃ k ip, st'.1 = (st.1 ++ [k])%list ∧ ct_Name k = clientName (cp_lanFor c) ∧ is_Some (nodes !! cp_lanFor c) ∧
    ct_Attach k = [MkAttach ("net" +:+ Itoa (Z.of_nat i)) ip] ∧ fb_IPs (fabricOfComp base (Z.of_nat i) c) !! ct_Name k = Some ip.
Proof.
  intros Hi. unfold clientStep. destruct (String.eqb_spec (cp_lanFor c) "") as [|Hl]; [intros [= <-]; by left|].
  intros (f & Hf & H)%res_bind_ok. apply res_bind_ok in H as (cn & Hcn%cfgAt_ok & H). injection H as <-. right.
  pose proof (pt_root _ _ Hp _ (list_elem_of_lookup_2 _ _ _ Hi)) as Hroot.
  apply own_fabric in Hf as (j & c' & Hj & He & -> & _). assert (j = i) as -> by (by eapply (pt_one _ _ Hp)). assert (c' = c) as -> by congruence.
  destruct (client_has (Z.of_nat i) c Hl) as [ip Hip]. eexists _, ip. cbn [fst]. split; [done|]. cbn [ct_Name ct_Attach].
  split; [done|]. split; [by eexists|]. split; [|done]. rewrite fabric_name. unfold at_. by rewrite Hip.
Qed.

(** All the containers. *)
Lemma clients_placed mustJSON nodes ks0 st : placed ks0 → NoDup (pairs ks0) →
  (∀ k x, k ∈ ks0 → is_Some (nodes !! x) → ct_Name k ≠ clientName x) →
  rangeM (clientStep mustJSON (fabricOf cs) fm nodes) (ks0, ∅) cs = Ok st → placed st.1 ∧ NoDup (pairs st.1).
Proof.
  intros H0 Hnd Hcl H.
  assert (cs `prefix_of` cs → (∀ k, k ∈ st.1 → k ∈ ks0 ∨ is_client nodes cs k) ∧ NoDup (pairs st.1)) as Hpre.
  2:{ destruct (Hpre ltac:(done)) as [Hin Hpa]. split; [|done]. intros k a Hk Ha. destruct (Hin k Hk) as [?|(j & c & ip & Hj & Hn & _ & Hat & Hip)]; [by eapply H0|].
      rewrite Hat in Ha. apply list_elem_of_singleton in Ha as ->. by exists j, c. }
  { refine (Config.rangeM_prefix _ (λ seen (st : list Container * gmap string string), seen `prefix_of` cs →
      (∀ k, k ∈ st.1 → k ∈ ks0 ∨ is_client nodes seen k) ∧ NoDup (pairs st.1)) _ _ _ _ _ H); [|cbn [fst]; intros _; split; [by left|done]].
    intros seen s1 c s2 IH H1 Hpre. destruct IH as [Hin Hpa]; [by eapply prefix_app_l|].
    assert (cs !! length seen = Some c) as Hi by (eapply prefix_lookup_Some; [|exact Hpre]; apply list_lookup_middle; done).
    assert (∀ k, k ∈ s1.1 → k ∈ ks0 ∨ is_client nodes (seen ++ [c]) k) as Hin'.
    { intros k Hk. destruct (Hin k Hk) as [?|(j & c0 & ip & Hj & ?)]; [by left|right]. exists j, c0, ip. split; [by apply lookup_app_l_Some|done]. }
    destruct (clientStep_ok _ _ _ _ _ _ Hi H1) as [->|(k & ip & -> & Hn & Hnode & Hat & Hip)]; [by split|]. split.
    - intros k' [?| ->%list_elem_of_singleton]%elem_of_app; [by apply Hin'|right]. exists (length seen), c, ip. split; [by apply list_lookup_middle|done].
    - rewrite pairs_snoc, Hat. cbn [map at_Fabric]. apply NoDup_app. split; [done|]. split; [|apply NoDup_singleton].
      intros x (k' & Hk' & a & Ha & ->)%pairs_in [= Heq Hfab]%list_elem_of_singleton. destruct (Hin k' Hk') as [Hk0|(j & c' & ip' & Hj & _ & _ & Hat' & _)].
      + apply (Hcl k' (cp_lanFor c) Hk0 Hnode). congruence.
      + rewrite Hat' in Ha. apply list_elem_of_singleton in Ha as ->. cbn in Hfab. apply lookup_lt_Some in Hj. pose proof (lookup_lt_Some _ _ _ Hi).
        apply net_inj in Hfab; lia. }
Qed.
End attachments.

Lemma concat_perm {A} (l l' : list (list A)) : l ≡ₚ l' → concat l ≡ₚ concat l'.
Proof.
  induction 1 as [|x l l' _ IH|x y l|l l' l'' _ IH _ IH']; cbn [concat]; [done|by rewrite IH| |by rewrite IH].
  rewrite !app_assoc. f_equiv. apply Permutation_app_comm.
Qed.

Lemma sortedKeys_nodup {V} (m : gmap string V) : NoDup (sortedKeys m).
Proof. unfold sortedKeys. rewrite Config.sortStrings_perm. apply NoDup_fst_map_to_list. Qed.

Lemma pairs_keep img ks : pairs (map (setImage img) (sortBy ct_Name ks)) ≡ₚ pairs ks.
Proof.
  unfold pairs. rewrite map_map. apply concat_perm. cbn [ct_Name ct_Attach setImage]. by rewrite sortBy_perm.
Qed.

Lemma plan_attached marshal mustJSON publicKey visit n opts p : (∀ u e, e ∈ visit u ↔ e ∈ dom u) → plain_names n →
  Plan marshal mustJSON publicKey visit n opts = Ok p → (length (sm_Fabrics p) ≤ 255)%nat →
  ∃ cs, sm_Fabrics p = fabricsOf (po_NetBase (applyDefaults opts)) cs ∧ (∀ c, c ∈ cs → NoDup (cp_nodes c)) ∧
    placed (po_NetBase (applyDefaults opts)) cs (sm_Containers p) ∧ NoDup (pairs (sm_Containers p)).
Proof.
  intros Hvisit [Hhub Hclient] (nodes & s & cs & d & legs & st & cl & H)%Plan_stages Hlen. exists cs. pose proof (pn_fabrics _ _ _ _ _ _ _ _ _ _ _ _ _ _ H) as Hfs.
  rewrite Hfs in Hlen. unfold fabricsOf in Hlen. rewrite length_imap in Hlen. split; [done|]. pose proof (pn_comps _ _ _ _ _ _ _ _ _ _ _ _ _ _ H) as Hcs.
  split; [intros c Hc; by eapply compsOf_nodup|]. destruct (allNics_ops n nodes s (pn_nics _ _ _ _ _ _ _ _ _ _ _ _ _ _ H)) as (es & Hr).
  pose proof (compsOf_partition visit Hvisit _ _ _ Hr Hcs) as Hp. set (base := po_NetBase (applyDefaults opts)) in *.
  pose proof (compiled_dom _ _ (pn_compile _ _ _ _ _ _ _ _ _ _ _ _ _ _ H)) as Hdom.
  assert (∀ x, is_Some (nodes !! x) ↔ is_Some (w_Nodes n !! x)) as Hsome by (intros x; by rewrite <- !elem_of_dom, Hdom).
  pose proof (pn_nodes _ _ _ _ _ _ _ _ _ _ _ _ _ _ H) as Hst. apply (nodes_placed base _ cs Hp Hlen) in Hst as (Hnames & Hpl & Hnd); [|done|apply sortedKeys_nodup].
  destruct (hub_placed base cs Hlen mustJSON (warpKeys publicKey "hub").1 (ss_peers st)) as [Hhpl Hhnd].
  pose proof (pn_clients _ _ _ _ _ _ _ _ _ _ _ _ _ _ H) as Hcl. apply (clients_placed base _ cs Hp Hlen) in Hcl as [Hall Hpairs].
  2:{ intros k a [Hk|Hk]%elem_of_app; [by apply Hpl|by apply Hhpl]. }
  2:{ rewrite pairs_snoc. apply NoDup_app. split; [done|]. split; [|unfold pairs in Hhnd; cbn [map concat] in Hhnd; by rewrite app_nil_r in Hhnd].
    intros x (k & Hk & a & _ & ->)%pairs_in (a' & [= Heq _] & _)%list_elem_of_fmap. apply Hnames in Hk. rewrite Heq in Hk.
    apply sortedKeys_in, Hsome in Hk. change (is_Some (w_Nodes n !! hubName)) in Hk. rewrite Hhub in Hk. by destruct Hk. }
  2:{ intros k x [Hk| ->%list_elem_of_singleton]%elem_of_app Hx Heq; [|by cbn in Heq].
    apply Hnames, sortedKeys_in, Hsome in Hk. rewrite Heq, (Hclient x) in Hk by (by apply Hsome). by destruct Hk. }
  rewrite (pn_containers _ _ _ _ _ _ _ _ _ _ _ _ _ _ H). split; [|by rewrite pairs_keep].
  intros k a (k0 & -> & Hk0%sortBy_in)%list_elem_of_fmap. exact (Hall k0 a Hk0).
Qed.

Lemma fabric_subnet base i c : fb_Subnet (fabricOfComp base i c) = base +:+ "." +:+ Itoa (i + 1) +:+ ".0/24".
Proof. unfold fabricOfComp. by destruct (fold_left _ _ _). Qed.

Lemma fabric_subnets base cs : (length cs ≤ 255)%nat → NoDup (map fb_Subnet (fabricsOf base cs)).
Proof.
  intros Hlen. apply NoDup_alt. intros i j sub Hx Hy. unfold fabricsOf in Hx, Hy. rewrite list_lookup_fmap, list_lookup_imap in Hx, Hy.
  destruct (cs !! i) as [ci|] eqn:Hci; [|done]. destruct (cs !! j) as [cj|] eqn:Hcj; [|done]. cbn [option_map fmap option_fmap] in Hx, Hy.
  injection Hx as Hx. injection Hy as Hy. rewrite fabric_subnet in Hx, Hy. rewrite <- Hy in Hx. apply lookup_lt_Some in Hci, Hcj.
  apply (subnet_inj base) in Hx; unfold small; lia.
Qed.

(** Attachments to distinct fabrics, or of distinct containers, have distinct addresses. *)
Lemma attachments_in ks x : x ∈ attachments ks ↔ ∃ k a, k ∈ ks ∧ a ∈ ct_Attach k ∧ x = (ct_Name k, a).
Proof.
  unfold attachments. rewrite list_elem_of_In, in_concat. setoid_rewrite <- list_elem_of_In. split.
  - intros (l & (k & -> & Hk)%list_elem_of_fmap & (a & -> & Ha)%list_elem_of_fmap). by exists k, a.
  - intros (k & a & Hk & Ha & ->). eexists. split; [apply list_elem_of_fmap; by exists k|]. apply list_elem_of_fmap. by exists a.
Qed.

Lemma placed_distinct base cs p : (length cs ≤ 255)%nat → (∀ k ck, cs !! k = Some ck → (length (cp_nodes ck) ≤ 251)%nat) →
  placed base cs (sm_Containers p) → NoDup (pairs (sm_Containers p)) → NoDup (addresses p).
Proof.
  intros Hlen Hl Hpl Hnd.
  assert (addresses p = map (λ x, at_IP x.2) (attachments (sm_Containers p))) as ->.
  { unfold addresses, attachments. rewrite !concat_map, !map_map. f_equal. apply map_ext. intros k. by rewrite map_map. }
  apply (NoDup_keys (λ x : string * Attachment, (x.1, at_Fabric x.2))).
  2:{ revert Hnd. unfold pairs, attachments. rewrite concat_map, map_map.
      erewrite (map_ext _ (λ k, map _ (map (pair (ct_Name k)) (ct_Attach k)))); [done|]. intros k. by rewrite map_map. }
  intros x y (k & a & Hk & Ha & ->)%attachments_in (k' & a' & Hk' & Ha' & ->)%attachments_in. cbn [fst snd]. intros He.
  destruct (Hpl k a Hk Ha) as (i & ci & Hi & -> & Hip%fabric_ips). destruct (Hpl k' a' Hk' Ha') as (j & cj & Hj & -> & Hip'%fabric_ips).
  rewrite <- He in Hip'. destruct (addressed_host _ _ _ _ _ (Hl _ _ Hi) Hip) as (o & Ho & Hr). destruct (addressed_host _ _ _ _ _ (Hl _ _ Hj) Hip') as (o' & Ho' & Hr').
  rewrite Ho in Ho'. pose proof (lookup_lt_Some _ _ _ Hi). pose proof (lookup_lt_Some _ _ _ Hj).
  apply host_inj in Ho' as [Hij _]; [|unfold small; lia..]. assert (i = j) as -> by lia. assert (ci = cj) as -> by congruence.
  f_equal. eapply (addressed_inj base (Z.of_nat j) cj); [unfold small; lia|by eapply Hl|done|done].
Qed.

(** ** Theorems *)

(** Claim C35.  Addresses do not clash.  In a plan of at most 255 fabrics with at most
    251 addresses each, whatever order Go visits the union-find's map in, and where no
    node is named like the hub ("internet") or like the client of a node's LAN
    ("client-<node>"), the fabrics' subnets are distinct; no two attachments of all the
    containers have the same address; and every attachment is to a fabric of the plan,
    at an address of that fabric's subnet.  The names matter: the hub's and a client's
    entry in a fabric's addresses replace the entry of a node of that name
    ([internet_clash]). *)
Theorem addresses_distinct marshal mustJSON publicKey visit n opts p :
  (∀ u e, e ∈ visit u ↔ e ∈ dom u) → plain_names n → Plan marshal mustJSON publicKey visit n opts = Ok p →
  (length (sm_Fabrics p) ≤ 255)%nat → (∀ f, f ∈ sm_Fabrics p → (size (fb_IPs f) ≤ 251)%nat) →
  NoDup (map fb_Subnet (sm_Fabrics p)) ∧ NoDup (addresses p) ∧
  ∀ c a, c ∈ sm_Containers p → a ∈ ct_Attach c → ∃ i f o, sm_Fabrics p !! i = Some f ∧ at_Fabric a = fb_Name f ∧
    let base := po_NetBase (applyDefaults opts) in
    fb_Subnet f = base +:+ "." +:+ Itoa (Z.of_nat i + 1) +:+ ".0/24" ∧ at_IP a = host base (Z.of_nat i) o ∧ (2 ≤ o ≤ 254)%Z.
Proof.
  intros Hvisit Hnames Hplan Hlen Hsize. destruct (plan_attached _ _ _ _ _ _ _ Hvisit Hnames Hplan Hlen) as (cs & Hfs & Hnd & Hpl & Hpairs).
  set (base := po_NetBase (applyDefaults opts)) in *. rewrite Hfs in Hlen, Hsize |- *.
  assert (length cs ≤ 255)%nat as Hlen' by (unfold fabricsOf in Hlen; by rewrite length_imap in Hlen).
  assert (∀ k ck, cs !! k = Some ck → (length (cp_nodes ck) ≤ 251)%nat) as Hl.
  { intros k ck Hk. etransitivity; [apply (fabric_size base (Z.of_nat k)); by eapply Hnd, list_elem_of_lookup_2|].
    apply Hsize. unfold fabricsOf. apply elem_of_lookup_imap. by exists k, ck. }
  split; [by apply fabric_subnets|]. split; [by apply (placed_distinct base cs)|].
  intros c a Hc Ha. destruct (Hpl c a Hc Ha) as (i & ci & Hi & Hf & Hip%fabric_ips). destruct (addressed_host _ _ _ _ _ (Hl _ _ Hi) Hip) as (o & Ho & Hr).
  exists i, (fabricOfComp base (Z.of_nat i) ci), o. split; [unfold fabricsOf; by rewrite list_lookup_imap, Hi|]. rewrite fabric_name, fabric_subnet. by split_and!.
Qed.

(** Claim C34.  The simulation's dialers find their acceptors.  In a plan of at most
    255 fabrics, whatever order Go visits the union-find's map in, the two nodes of
    every link have a container each, attached to a fabric they share; the dialer's
    configuration file dials the acceptor's address on that fabric, at the port,
    with the transport and the cipher that the acceptor's file listens with. *)
Theorem dials_reach marshal mustJSON publicKey visit n0 n opts p nodes l :
  (∀ u e, e ∈ visit u ↔ e ∈ dom u) →
  Schema.validate n0 = Ok n → Compile n = Ok nodes → files_apart nodes → Plan marshal mustJSON publicKey visit n opts = Ok p →
  (length (sm_Fabrics p) ≤ 255)%nat → l ∈ w_Links n → reaches marshal p l.
Proof.
  intros Hvisit Hval Hcomp Hap (nodes' & s & cs & d & legs & st & cl & H)%Plan_stages Hlen Hl.
  assert (nodes' = nodes) as -> by (pose proof (pn_compile _ _ _ _ _ _ _ _ _ _ _ _ _ _ H); congruence).
  pose proof (pn_fabrics _ _ _ _ _ _ _ _ _ _ _ _ _ _ H) as Hfs. rewrite Hfs in Hlen. unfold fabricsOf in Hlen. rewrite length_imap in Hlen.
  destruct (Checked.validate_inferred _ _ Hval) as [_ Hck]. pose proof (Checked.linkMap_link _ _ Hck l Hl) as Hlm.
  destruct (link_fabric visit Hvisit n nodes s cs l (pn_nics _ _ _ _ _ _ _ _ _ _ _ _ _ _ H) (pn_comps _ _ _ _ _ _ _ _ _ _ _ _ _ _ H) Hl)
    as (i & c & Hi & Hfd & Hfa & Hnd & Hna).
  destruct (link_ends n nodes l Hcomp Hl) as (cd & ca & Hcd & Hca & [[Hd1 Ha1] [Hd2 Ha2] _ [_ Hport] Htr Hci _ _ _ _]).
  destruct (plan_end _ _ _ _ _ _ _ _ _ _ _ _ _ _ _ _ _ H Hap Hcd) as (kd & std & fd & [Hdone _] & Hcfgd & Hsubd & Hattd).
  destruct (plan_end _ _ _ _ _ _ _ _ _ _ _ _ _ _ _ _ _ H Hap Hca) as (ka & sta & fa & [_ Hdona] & Hcfga & Hsuba & Hatta).
  destruct (Hdone Hd2) as (Hfabd & f & cd' & Hf & Hcd' & (i1 & ip1 & lan1 & ->) & Hip).
  destruct (Hdona Ha2) as (Hfaba & ca' & Hca' & (i2 & ip2 & lan2 & ->)).
  assert (dialFabric n (linkMap n) (fabricOf cs) (l_Dialer l) cd = "net" +:+ Itoa (Z.of_nat i)) as Hed.
  { unfold dialFabric. rewrite Hd1, Hlm. unfold at_. unfold dialerEP in Hfd. change (default zeroL (Some l)) with l. by rewrite Hfd. }
  assert (listenFabric n (linkMap n) (fabricOf cs) (l_Acceptor l) ca = "net" +:+ Itoa (Z.of_nat i)) as Hea.
  { unfold listenFabric. rewrite Ha1, Hlm. unfold at_. unfold acceptorEP in Hfa. change (default zeroL (Some l)) with l. by rewrite Hfa. }
  rewrite Hed in Hfabd, Hf. rewrite Hea in Hfaba. apply (fabricAt_index _ _ _ _ _ Hlen Hi) in Hf as ->.
  destruct (attachAll_has _ _ _ _ _ i c Hattd Hlen Hi Hnd (Hsubd _ Hfabd)) as (ipd & _ & Hned & Hind).
  destruct (attachAll_has _ _ _ _ _ i c Hatta Hlen Hi Hna (Hsuba _ Hfaba)) as (ipa & Hipa & Hnea & Hina).
  exists kd, ka, (setConn cd i1 ip1 lan1), (setConn ca i2 ip2 lan2), (fabricOfComp (po_NetBase (applyDefaults opts)) (Z.of_nat i) c), ipd, ipa.
  rewrite Hd1, Hlm in Hip. change (default zeroL (Some l)) with l in Hip. unfold at_ in Hip. rewrite Hipa in Hip.
  split; [rewrite Hfs; unfold fabricsOf; apply elem_of_lookup_imap; by exists i, c|]. split; [by apply Hcfgd|]. split; [by apply Hcfga|].
  rewrite fabric_name. by split_and!.
Qed.

(** ** The plan of Paths.v's network *)

Definition demo : SimPlan := match demoPlan demoInferred with Ok p => p | Err _ => MkSimPlan "" [] [] "" "" "" ∅ ∅ ∅ ∅ ∅ ∅ false end.

Definition demoCompiled : routes := match Compile demoInferred with Ok out => out | Err _ => ∅ end.

Lemma demoCompiled_ok : Compile demoInferred = Ok demoCompiled.
Proof.
  assert (is_ok (Compile demoInferred) = true) as H by (vm_compute; reflexivity). unfold demoCompiled. by destruct (Compile demoInferred).
Defined.

Lemma demo_ok : demoPlan demoInferred = Ok demo.
Proof. vm_compute. reflexivity. Qed.

Definition plain_namesb (n : Network) : bool :=
  negb (bool_decide (is_Some (w_Nodes n !! hubName))) &&
  forallb (λ kv, negb (bool_decide (is_Some (w_Nodes n !! clientName kv.1)))) (map_to_list (w_Nodes n)).

Lemma plain_namesb_sound n : plain_namesb n = true → plain_names n.
Proof.
  unfold plain_namesb. rewrite andb_true_iff, forallb_forall. intros [H1 H2]. split.
  - apply negb_true_iff, bool_decide_eq_false, eq_None_not_Some in H1. exact H1.
  - intros x [nd Hx]. specialize (H2 (x, nd)). cbn [fst] in H2. apply eq_None_not_Some. apply negb_true_iff, bool_decide_eq_false in H2; [exact H2|].
    by apply list_elem_of_In, elem_of_map_to_list.
Qed.

(** The same network with the gateway G1 called like the hub: the schema is valid, and
    the hub's address on a fabric is the node's too. *)
Definition internetNet : Network :=
  MkNetwork "secret" 1400 "10.9.0.0/24" None 0 0 "" 0 0
    (w_Protocols demoNet) (w_Conditions demoNet)
    (<["internet" := node demoNet "G1"]> (delete "G1" demoNodes))
    [demoLink "ab" "A" "B" 1001; demoLink "bg1" "B" "internet" 1002; demoLink "bg2" "B" "G2" 1003;
     demoDown "g1a" "A" "internet" "t" 1004; demoDown "g2a" "A" "G2" "" 1005]
    (w_Paths demoNet) ∅.
Definition clashes (n : Network) : bool :=
  match Schema.validate n with
  | Ok n' => match demoPlan n' with Ok p => negb (bool_decide (NoDup (addresses p))) | Err _ => false end
  | Err _ => false
  end.

Example internet_clash : clashes internetNet = true.
Proof. vm_compute. reflexivity. Qed.

Lemma addresses_distinct_witness :
  NoDup (map fb_Subnet (sm_Fabrics demo)) ∧ (1 < length (sm_Fabrics demo))%nat ∧ (5 < length (addresses demo))%nat ∧ NoDup (addresses demo).
Proof.
  destruct (addresses_distinct (λ _, Some "yaml") (λ _, "json") (λ k, k) (λ u, elements (dom u)) demoInferred demoOptions demo) as (H1 & H2 & _).
  - intros u e. apply elem_of_elements.
  - apply plain_namesb_sound. vm_compute. reflexivity.
  - exact demo_ok.
  - apply (bool_decide_unpack _). vm_compute. exact I.
  - apply Forall_forall. apply (bool_decide_unpack _). vm_compute. exact I.
  - split; [exact H1|]. split; [apply (bool_decide_unpack _); vm_compute; exact I|]. split; [apply (bool_decide_unpack _); vm_compute; exact I|exact H2].
Defined.

Definition files_apartb (nodes : routes) : bool :=
  forallb (λ kv, forallb (λ c, match Config.d_DstIn c with Some s => negb (Config.s_File s =? configPath kv.1) | None => true end)
    (Config.n_Conditions kv.2)) (map_to_list nodes).

Lemma files_apartb_sound nodes : files_apartb nodes = true → files_apart nodes.
Proof.
  unfold files_apartb. rewrite forallb_forall. intros H name cn Hcn c s Hc Hs.
  specialize (H (name, cn)). cbn [fst snd] in H. rewrite forallb_forall in H. specialize (H ltac:(by apply list_elem_of_In, elem_of_map_to_list) c ltac:(by apply list_elem_of_In)).
  rewrite Hs in H. by apply negb_true_iff, String.eqb_neq in H.
Qed.

Lemma dials_reach_witness : reaches (λ _, Some "yaml") demo (default zeroL (head (w_Links demoInferred))).
Proof.
  pose proof demo_ok as Hplan. unfold demoPlan in Hplan.
  refine (dials_reach _ _ _ _ demoNet _ _ _ demoCompiled _ _ _ demoCompiled_ok _ Hplan _ _).
  - intros u e. apply elem_of_elements.
  - vm_compute. reflexivity.
  - apply files_apartb_sound. vm_compute. reflexivity.
  - apply (bool_decide_unpack _). vm_compute. exact I.
  - apply (bool_decide_unpack _). vm_compute. exact I.
Defined.
