(* ===== verification/WarpFacts.v ===== *)
(** * The simulator's WARP profiles, read by the nodes

    netsim/warp.go writes the profile that warp.go's LoadConfig reads on the node:
    the account read is the one written, and the kernel device made from it has
    the hub as its only peer. *)

From S2P Require Import Prelude GoBytes GoStrings NetIp Http Factory NetText PrefixFile Release NetCfg Warp.
From S2P Require SimPlan.
Local Open Scope Z_scope.
Local Open Scope string_scope.
Local Open Scope go_scope.

Definition word (s : string) : Prop := spaceless (chars s) ∧ s ≠ "" ∧ zlen (chars s) < 60000.

(** ** Lemmas: text *)

Lemma chars_nonempty s : s ≠ "" → chars s ≠ [].
Proof. intros H E. apply H. by rewrite <- (unchars_chars s), E. Qed.

Lemma trimLeft_head c l : isSpace c = false → trimLeft (c :: l) = c :: l.
Proof. intros H. cbn. by rewrite H. Qed.

Lemma trim_ends c l d : isSpace c = false → isSpace d = false → trimSpace (c :: l ++ [d])%list = (c :: l ++ [d])%list.
Proof.
  intros Hc Hd. unfold trimSpace. rewrite trimLeft_head by done. change (c :: l ++ [d])%list with ((c :: l) ++ [d])%list.
  rewrite rev_app_distr. cbn [rev app]. rewrite trimLeft_head by done. cbn [rev]. by rewrite rev_app_distr, rev_involutive.
Qed.

Lemma spaceless_snoc (w : list ascii) : spaceless w → w ≠ [] → ∃ l d, w = (l ++ [d])%list ∧ isSpace d = false.
Proof.
  intros Hw Hn. destruct w as [|d l _] using rev_ind; [done|]. exists l, d. split; [done|]. apply Forall_app in Hw as [_ Hw]. by inversion Hw.
Qed.

Lemma cut_first c (l r : list ascii) : c ∉ l → cut c (unchars (l ++ c :: r)%list) = (unchars l, unchars r, true).
Proof. intros Hn. apply cut_true. by rewrite !chars_unchars. Qed.

Lemma trimmed_word s : spaceless (chars s) → s ≠ "" → trimmed s = s.
Proof.
  intros Hs Hn. unfold trimmed. rewrite <- (app_nil_l (chars s)), <- (app_nil_r (chars s)) at 1. rewrite trimSpace_pad; [apply unchars_chars|constructor|constructor|done|by apply chars_nonempty].
Qed.

Definition sp : ascii := " "%char.
Definition eqSign : ascii := "="%char.

(** A line [key = w]. *)
Lemma profileLine_field a (key w : list ascii) : spaceless key → key ≠ [] → spaceless w → w ≠ [] → eqSign ∉ key →
  head key ≠ Some "#"%char → head key ≠ Some "["%char →
  profileLine a (key ++ [sp; eqSign; sp] ++ w)%list = profileField a (toLower (unchars key)) (unchars w).
Proof.
  intros Hk Hkn Hw Hwn He H1 H2. unfold profileLine. destruct key as [|c key]; [done|]. cbn in H1, H2.
  destruct (spaceless_snoc w Hw Hwn) as (l & d & -> & Hd). apply Forall_cons in Hk as [Hc Hk].
  assert (((c :: key) ++ [sp; eqSign; sp] ++ l ++ [d])%list = (c :: (key ++ [sp; eqSign; sp] ++ l) ++ [d])%list) as El by (cbn; by rewrite <- app_assoc).
  rewrite El, trim_ends by done. rewrite !bool_decide_false by congruence. cbn [orb].
  assert ((c :: (key ++ [sp; eqSign; sp] ++ l) ++ [d])%list = (((c :: key) ++ [sp]) ++ eqSign :: ([sp] ++ (l ++ [d])))%list) as -> by (cbn; by rewrite <- !app_assoc).
  rewrite cut_first; [|intros [H|H]%elem_of_app; [by apply He|by apply list_elem_of_singleton in H]].
  unfold trimmed. rewrite !chars_unchars. f_equal.
  - f_equal. f_equal. change ((c :: key) ++ [sp])%list with ([] ++ (c :: key) ++ [sp])%list. apply trimSpace_pad; [constructor|by repeat constructor|by constructor|done].
  - f_equal. replace ([sp] ++ l ++ [d])%list with ([sp] ++ (l ++ [d]) ++ [])%list by by rewrite app_nil_r. apply trimSpace_pad; [by repeat constructor|constructor|done|done].
Qed.

(** ** Lemmas: lines *)

Lemma splitLines (ls : list (list ascii)) : Forall (λ l, lf ∉ l) ls → splitOn lf (concat (map (λ l, l ++ [lf])%list ls)) = (ls ++ [[]])%list.
Proof.
  induction 1 as [|l ls Hl _ IH]; [done|]. cbn [map concat]. rewrite <- app_assoc. cbn [app]. by rewrite splitOn_cons, IH.
Qed.

Lemma scanLines_all (ls : list (list ascii)) : Forall (λ l, zlen l < MaxScanTokenSize ∧ dropCR l = l) ls → scanLines (ls ++ [[]])%list = (ls, true).
Proof.
  induction 1 as [|l ls [Hz Hd] _ IH]; [done|]. cbn [app scanLines]. replace (MaxScanTokenSize <=? zlen l)%Z with false by by (symmetry; apply Z.leb_gt).
  destruct (ls ++ [[]])%list as [|l' r] eqn:E; [by destruct ls|]. rewrite IH, Hd. by destruct l.
Qed.

(** A line that can be read back: short, one line, not ended by a carriage return. *)
Definition tame (l : list ascii) : Prop := lf ∉ l ∧ zlen l < MaxScanTokenSize ∧ dropCR l = l.

Lemma dropCR_snoc l d : isSpace d = false → dropCR (l ++ [d])%list = (l ++ [d])%list.
Proof. intros Hd. unfold dropCR. rewrite rev_app_distr. cbn. by rewrite bool_decide_false by (intros ->; discriminate Hd). Qed.

Lemma not_space c (w : list ascii) : isSpace c = true → spaceless w → c ∉ w.
Proof. intros Hc Hw Hin. pose proof (proj1 (Forall_forall _ _) Hw c Hin) as H. congruence. Qed.

Lemma tame_field (key w : list ascii) : spaceless key → spaceless w → w ≠ [] → zlen key < 100 → zlen w < 65000 → tame (key ++ [sp; eqSign; sp] ++ w)%list.
Proof.
  intros Hk Hw Hn Hz1 Hz2. split; [|split].
  - intros [H|[H|H]%elem_of_app]%elem_of_app; [by eapply not_space in H|by rewrite !elem_of_cons, elem_of_nil in H; decompose [or] H|by eapply not_space in H].
  - unfold zlen in *. rewrite !length_app. cbn. unfold MaxScanTokenSize. lia.
  - destruct (spaceless_snoc w Hw Hn) as (l & d & -> & Hd). rewrite !app_assoc. by apply dropCR_snoc.
Qed.

Lemma tame_lines ls data : chars data = concat (map (λ l, l ++ [lf])%list ls)%list → Forall tame ls → (scanLines (splitOn lf (chars data))).1 = ls.
Proof.
  intros -> Ht. rewrite splitLines, scanLines_all; [done| |]; (eapply Forall_impl; [exact Ht|]; by intros l (H1 & H2)).
Qed.

(** ** Lemmas: the profile the simulator writes *)

Lemma word_spaceless s : word s → spaceless (chars s) ∧ chars s ≠ [] ∧ zlen (chars s) < 60000.
Proof. intros (H1 & H2 & H3). split; [done|]. split; [by apply chars_nonempty|done]. Qed.

Lemma base64_spaceless l : spaceless (base64 l).
Proof.
  assert (∀ d, (d < 64)%N → isSpace (b64Char d) = false) as Hd.
  { intros d H. assert (Forall (λ n, isSpace (b64Char (N.of_nat n)) = false) (seq 0 64)) as Ha by (repeat (constructor; [vm_compute; reflexivity|]); constructor).
    rewrite Forall_forall in Ha. specialize (Ha (N.to_nat d)). rewrite N2Nat.id in Ha. apply Ha, elem_of_seq. lia. }
  induction l as [|a|a b|a b c l IH] using list_ind3; [constructor| | |].
  all: cbn [base64]; pose proof (Ascii.N_ascii_bounded a); try pose proof (Ascii.N_ascii_bounded b); try pose proof (Ascii.N_ascii_bounded c).
  all: repeat (apply Forall_cons; split; [first [done|apply Hd; zify; Z.to_euclidean_division_equations; lia]|]); first [exact IH|constructor].
Qed.

Lemma base64_length l : length (base64 l) = (4 * ((length l + 2) / 3))%nat.
Proof.
  induction l as [|a|a b|a b c l IH] using list_ind3; [done..|]. cbn [base64 length]. rewrite IH.
  replace (S (S (S (length l))) + 2)%nat with (1 * 3 + (length l + 2))%nat by lia. rewrite Nat.div_add_l by lia. lia.
Qed.

Lemma keyString_word k : length k = 32%nat → word (SimPlan.keyString k).
Proof.
  intros Hk. unfold SimPlan.keyString, base64Std. set (l := map _ k). assert (length (base64 (chars (unchars l))) = 44%nat) as Hl.
  { rewrite base64_length, chars_unchars. unfold l. rewrite length_map, Hk. done. }
  unfold word, zlen. rewrite chars_unchars, Hl. split; [apply base64_spaceless|]. split; [|lia]. intros E.
  apply (f_equal chars) in E. rewrite chars_unchars in E. by rewrite E in Hl.
Qed.

Definition field (key w : string) : list ascii := (chars key ++ [sp; eqSign; sp] ++ chars w)%list.
Definition iniLines (priv hubPub : list Z) (ep tunIP : string) : list (list ascii) := [
  chars "[Interface]"; field "PrivateKey" (SimPlan.keyString priv); field "Address" (tunIP +:+ "/32"); [];
  chars "[Peer]"; field "PublicKey" (SimPlan.keyString hubPub); field "AllowedIPs" "0.0.0.0/0"; field "Endpoint" ep].

Lemma warpINI_lines priv hubPub ep tunIP :
  chars (SimPlan.warpINI priv hubPub ep tunIP) = concat (map (λ l, l ++ [lf])%list (iniLines priv hubPub ep tunIP))%list.
Proof.
  unfold SimPlan.warpINI, iniLines, field. rewrite !chars_app. cbn [map concat]. rewrite <- !app_assoc. cbn. rewrite <- ?app_assoc. cbn.
  by rewrite ?app_nil_r.
Qed.

Lemma slash32 tunIP : word tunIP → spaceless (chars (tunIP +:+ "/32")) ∧ chars (tunIP +:+ "/32") ≠ [] ∧ zlen (chars (tunIP +:+ "/32")) < 65000.
Proof.
  intros (H1 & H2 & H3). rewrite chars_app. split; [apply Forall_app; split; [done|by repeat constructor]|]. split; [by destruct (chars tunIP)|].
  unfold zlen in *. rewrite length_app. cbn. lia.
Qed.

Lemma iniLines_tame priv hubPub ep tunIP : length priv = 32%nat → length hubPub = 32%nat → word ep → word tunIP →
  Forall tame (iniLines priv hubPub ep tunIP).
Proof.
  intros Hp Hh He Ht. destruct (word_spaceless _ (keyString_word _ Hp)) as (K1 & K2 & K3). destruct (word_spaceless _ (keyString_word _ Hh)) as (H1 & H2 & H3).
  destruct (word_spaceless _ He) as (E1 & E2 & E3). destruct (slash32 _ Ht) as (T1 & T2 & T3).
  assert (∀ key w, spaceless (chars key) → zlen (chars key) < 100 → spaceless (chars w) → chars w ≠ [] → zlen (chars w) < 65000 → tame (field key w)) as Hf
    by (intros key w; intros; by apply tame_field).
  assert (∀ l, spaceless l → zlen l < MaxScanTokenSize → dropCR l = l → tame l) as Hw by (intros l ???; split; [by apply not_space|done]).
  unfold iniLines. rewrite !Forall_cons. split_and!.
  - apply Hw; [repeat constructor|by vm_compute..].
  - apply Hf; [repeat constructor|by vm_compute|done|done|lia].
  - apply Hf; [repeat constructor|by vm_compute|done|done|exact T3].
  - apply Hw; [constructor|by vm_compute..].
  - apply Hw; [repeat constructor|by vm_compute..].
  - apply Hf; [repeat constructor|by vm_compute|done|done|lia].
  - apply Hf; [repeat constructor|by vm_compute|repeat constructor|done|by vm_compute].
  - apply Hf; [repeat constructor|by vm_compute|done|done|lia].
  - constructor.
Qed.

(** One field of the profile. *)
Definition plainKey (key : string) : Prop :=
  Forall (λ c, isSpace c = false) (chars key) ∧ chars key ≠ [] ∧ eqSign ∉ chars key ∧ head (chars key) ≠ Some "#"%char ∧ head (chars key) ≠ Some "["%char.
#[export] Instance plainKey_dec key : Decision (plainKey key).
Proof. unfold plainKey. apply _. Defined.

Lemma profileLine_word a key w : bool_decide (plainKey key) = true → spaceless (chars w) → chars w ≠ [] →
  profileLine a (field key w) = profileField a (toLower key) w.
Proof. intros (H1 & H2 & H3 & H4 & H5)%bool_decide_eq_true ??. unfold field. rewrite profileLine_field by done. by rewrite !unchars_chars. Qed.

Lemma addAddress_slash a tunIP : word tunIP → "/"%char ∉ chars tunIP → ":"%char ∉ chars tunIP →
  addAddress a (tunIP +:+ "/32") = MkProfile (pf_Private a) (pf_Peer a) (pf_Endpoint a) tunIP (pf_V6 a) (pf_ClientID a).
Proof.
  intros Ht Hs Hc. destruct (slash32 _ Ht) as (T1 & T2 & _). unfold addAddress. rewrite trimmed_word; [|done|intros E; by rewrite E in T2].
  assert (cut "/"%char (tunIP +:+ "/32") = (tunIP, "32", true)) as -> by (apply cut_true; by rewrite chars_app).
  cbn [fst]. unfold hasChar. rewrite bool_decide_false by done. destruct Ht as (_ & Hn & _). apply String.eqb_neq in Hn. by rewrite Hn.
Qed.

(** ** Theorem *)

(** Claim C33.  The profile the simulator writes for a kernel WARP egress is read by the node
    as the account it describes: the node's key, the hub's, the hub's address and
    the tunnel address, and nothing else.  The device made from it has the node's
    key and the hub as its only peer, at that address, for all of IPv4. *)
Theorem profile_loads ResolveUDPAddr ParseKey priv hubPub ep tunIP b port :
  length priv = 32%nat → Forall octet priv → length hubPub = 32%nat → Forall octet hubPub →
  (∀ k, length k = 32%nat → Forall octet k → ParseKey (SimPlan.keyString k) = Some k) →
  word ep → ParseAddrPort ep = Some (V4 b, port) →
  word tunIP → "/"%char ∉ chars tunIP → ":"%char ∉ chars tunIP → ","%char ∉ chars tunIP →
  ∃ a, LoadConfig (Some (SimPlan.warpINI priv hubPub ep tunIP)) = Ok a ∧
    ac_PrivateKey a = SimPlan.keyString priv ∧ ac_PeerPublicKey a = SimPlan.keyString hubPub ∧ ac_V4 a = tunIP ∧ ac_V6 a = "" ∧
    Reserved a = [0; 0; 0] ∧
    DeviceConfig ResolveUDPAddr ParseKey a = Some (MkWgConfig priv hubPub (MkUDPAddr (Some (V4 b)) port) 25 ["0.0.0.0/0"] true).
Proof.
  intros Hp Hp8 Hh Hh8 Hpk He Hep Ht Hs Hc Hk. pose proof (iniLines_tame _ _ _ _ Hp Hh He Ht) as Htame.
  pose proof (tame_lines _ _ (warpINI_lines priv hubPub ep tunIP) Htame) as Hl.
  assert (profileOf (SimPlan.warpINI priv hubPub ep tunIP) =
    MkProfile (SimPlan.keyString priv) (SimPlan.keyString hubPub) ep tunIP "" "") as Hprof.
  { unfold profileOf. rewrite Hl. unfold iniLines. cbn [fold_left].
    destruct (word_spaceless _ (keyString_word _ Hp)) as (K1 & K2 & _). destruct (word_spaceless _ (keyString_word _ Hh)) as (H1 & H2 & _).
    pose proof (word_spaceless _ He) as (E1 & E2 & _). pose proof (slash32 _ Ht) as (T1 & T2 & _).
    change (profileLine (MkProfile "" "" "" "" "" "") (chars "[Interface]")) with (MkProfile "" "" "" "" "" "").
    repeat rewrite profileLine_word by first [done|by vm_compute|by repeat constructor].
    change (profileLine ?p []) with p. change (profileLine ?p (chars "[Peer]")) with p.
    assert (∀ a w, profileField a (toLower "PrivateKey") w = MkProfile w (pf_Peer a) (pf_Endpoint a) (pf_V4 a) (pf_V6 a) (pf_ClientID a)) as -> by reflexivity.
    assert (∀ a w, profileField a (toLower "PublicKey") w = MkProfile (pf_Private a) w (pf_Endpoint a) (pf_V4 a) (pf_V6 a) (pf_ClientID a)) as -> by reflexivity.
    assert (∀ a w, profileField a (toLower "Endpoint") w = MkProfile (pf_Private a) (pf_Peer a) w (pf_V4 a) (pf_V6 a) (pf_ClientID a)) as -> by reflexivity.
    assert (∀ a w, profileField a (toLower "AllowedIPs") w = a) as -> by reflexivity.
    assert (∀ a w, profileField a (toLower "Address") w = fold_left addAddress (splitCommas w) a) as -> by reflexivity.
    assert (splitCommas (tunIP +:+ "/32") = [tunIP +:+ "/32"]) as ->.
    { unfold splitCommas. rewrite splitOn_last; [cbn [map]; by rewrite unchars_chars|]. rewrite chars_app. intros [H|H]%elem_of_app; [done|].
      revert H. apply (bool_decide_eq_true_1 (","%char ∉ chars "/32")). by vm_compute. }
    cbn [fold_left]. by rewrite addAddress_slash. }
  destruct (keyString_word _ Hp) as (_ & P%String.eqb_neq & _). destruct (keyString_word _ Hh) as (_ & Q%String.eqb_neq & _).
  pose proof (proj1 (proj2 He)) as E%String.eqb_neq.
  eexists. unfold LoadConfig. rewrite Hprof. cbn [pf_Private pf_Peer pf_V4 pf_Endpoint pf_V6 pf_ClientID]. rewrite P, Q, E.
  destruct Ht as (_ & Hn%String.eqb_neq & _). rewrite Hn. cbn [orb]. split; [done|].
  do 5 (split; [done|]). unfold DeviceConfig, endpoint, resolveEndpoint. cbn [ac_PrivateKey ac_PeerPublicKey ac_EndpointHost ac_EndpointV4].
  rewrite (Hpk priv Hp Hp8), (Hpk hubPub Hh Hh8), E. cbn [negb mbind option_bind]. rewrite Hep. reflexivity.
Qed.

(** ** Witness *)

Lemma profile_loads_witness :
  ∃ a, LoadConfig (Some (SimPlan.warpINI (replicate 32 7) (replicate 32 9) "172.30.1.2:51820" "100.64.0.2")) = Ok a ∧ ac_V4 a = "100.64.0.2" ∧
    DeviceConfig (λ _, None) b64Decode a =
      Some (MkWgConfig (replicate 32 7) (replicate 32 9) (MkUDPAddr (Some (V4 [172; 30; 1; 2])) 51820) 25 ["0.0.0.0/0"] true).
Proof.
  assert (∀ s, bool_decide (Forall (λ c, isSpace c = false) (chars s) ∧ s ≠ "" ∧ zlen (chars s) < 60000) = true → word s) as Hw by (intros s; apply bool_decide_eq_true).
  assert (∀ c s, bool_decide (c ∉ chars s) = true → c ∉ chars s) as Hn by (intros c s; apply bool_decide_eq_true).
  assert (∀ z, octet z → Forall octet (replicate 32 z)) as Hr by (intros z Hz; by apply Forall_replicate).
  destruct (profile_loads (λ _, None) b64Decode (replicate 32 7) (replicate 32 9) "172.30.1.2:51820" "100.64.0.2" [172; 30; 1; 2] 51820)
    as (a & H1 & _ & _ & H2 & _ & _ & H3).
  1, 3: reflexivity. 1, 2: by apply Hr. 1: intros k _; apply b64_roundtrip. 2: by vm_compute. 1, 2: by apply Hw; vm_compute. 1, 2, 3: by apply Hn; vm_compute.
  by exists a.
Defined.
