(* ===== verification/Scenario.v ===== *)
(** * internal/netsim/scenario.go: the test matrix derived from a schema

    A scenario is a list of steps for the engine (Engine.v).  Durations are
    nanoseconds.  The descriptions, text for the log, are left out. *)

From S2P Require Import Prelude GoStrings Config Dsl Schema Compile SimPlan.
Local Open Scope Z_scope.
Local Open Scope string_scope.
Local Open Scope go_scope.

(** ** Steps *)

Inductive StepOp := OpProbe | OpPause | OpUnpause | OpSignal | OpAppendFile | OpSleep.

Record ProbeStep := MkProbe {
  pb_Node : string;
  pb_Inject : bool;
  pb_Src : string;
  pb_SrcIP : string;
  pb_Dst : string;
  pb_ExpectSrc : string;
  pb_ExpectFail : bool;
  pb_CheckNoDrops : bool;
  pb_Hold : Z;
}.

Record Step := MkStep {
  st_Op : StepOp;
  st_Target : string;
  st_Signal : string;
  st_File : string;
  st_Content : string;
  st_Wait : Z;
  st_Probe : option ProbeStep;
}.

Record Scenario := MkScenario { sn_Name : string; sn_Steps : list Step }.

Definition probeStep (p : ProbeStep) : Step := MkStep OpProbe "" "" "" "" 0 (Some p).
Definition pauseStep (target : string) : Step := MkStep OpPause target "" "" "" 0 None.
Definition unpauseStep (target : string) : Step := MkStep OpUnpause target "" "" "" 0 None.
Definition sleepStep (wait : Z) : Step := MkStep OpSleep "" "" "" "" wait None.
Definition appendStep (target file content : string) : Step := MkStep OpAppendFile target "" file content 0 None.
Definition signalStep (target sig : string) : Step := MkStep OpSignal target sig "" "" 0 None.

Definition second : Z := 1000000000.
Definition downSettle : Z := 5 * second.
Definition upSettle : Z := 4 * second.
Definition holdWindow : Z := 3 * second.

(** ** Kinds of condition *)

Definition condKind (n : Network) : gmap string string :=
  (λ c, match cs_DstIn c with
        | Some _ => "dst_in"
        | None => match cs_SrcIn c with Some _ => "src_in" | None => "healthcheck" end
        end) <$> w_Conditions n.

Definition hasHealthcheck (when : list string) (kind : gmap string string) : bool := existsb (λ c, at_ kind c =? "healthcheck") when.
Definition usesDstInWhen (when : list string) (kind : gmap string string) : bool := existsb (λ c, at_ kind c =? "dst_in") when.

(** ** Branches *)

Definition noBranch : Branch := MkBranch [] "" [] [] "".
(** [p.Routes[i]]; the indices below are within its bounds. *)
Definition routeAt (p : Path) (i : Z) : Branch := nth (Z.to_nat i) (pt_Routes p) noBranch.

Fixpoint firstIndex (f : Branch → bool) (brs : list Branch) : option nat :=
  match brs with [] => None | br :: brs' => if f br then Some O else S <$> firstIndex f brs' end.

Definition firstHealthyBranch (p : Path) (kind : gmap string string) (dst : string) : Z :=
  match firstIndex (λ br, Bool.eqb (usesDstInWhen (b_When br) kind) (dst =? iranDst)) (pt_Routes p) with
  | Some i => Z.of_nat i
  | None => Z.of_nat (length (pt_Routes p)) - 1
  end.

(** [sp.egressIP[node][egress]], empty when missing. *)
Definition egressIPOf (sp : SimPlan) (node egress : string) : string := at_ (default ∅ (sm_egressIP sp !! node)) egress.
Definition conditionFileOf (sp : SimPlan) (node cond : string) : string := at_ (default ∅ (sm_conditionFile sp !! node)) cond.

Definition branchEgressIP (sp : SimPlan) (origin : string) (br : Branch) : string :=
  egressIPOf sp (if negb (b_Gateway br =? "") then b_Gateway br else origin) (b_Egress br).

Definition branchLabel (br : Branch) : string :=
  if negb (b_Gateway br =? "") then "gw-" +:+ b_Gateway br +:+ "-" +:+ b_Egress br else "egress-" +:+ b_Egress br.

Definition defaultBranch (p : Path) : option Branch := List.find (λ br, match b_When br with [] => true | _ => false end) (pt_Routes p).

Definition firstListIP (s : option Config.IPSet) : string :=
  match s with
  | None => ""
  | Some s => match Config.s_List s with [] => "" | tok :: _ => cutSlash tok end
  end.

(** ** Probes *)

Definition probeFor (n : Network) (sp : SimPlan) (origin dst expect : string) (expectFail checkDrops : bool) : ProbeStep :=
  let debug := default false (sm_debugTun sp !! origin) in
  let src := if debug then match anyTun (node n origin) with Some (_, c) => k_IP c | None => "" end else "" in
  MkProbe origin debug src "" dst expect expectFail checkDrops 0.

Definition withHold (p : ProbeStep) (hold : Z) : ProbeStep :=
  MkProbe (pb_Node p) (pb_Inject p) (pb_Src p) (pb_SrcIP p) (pb_Dst p) (pb_ExpectSrc p) (pb_ExpectFail p) (pb_CheckNoDrops p) hold.

(** ** Scenarios of a userspace path *)

Definition routingScenario (n : Network) (sp : SimPlan) (p : Path) (br : Branch) (origin dst expect : string) : Scenario :=
  MkScenario ("route/" +:+ Label p +:+ "/" +:+ branchLabel br) [probeStep (probeFor n sp origin dst expect false true)].

Definition failoverScenario (n : Network) (sp : SimPlan) (p : Path) (br : Branch) (origin dst expect : string) (pauseGWs : list string)
    (restoreExpect : string) : Scenario :=
  MkScenario ("failover/" +:+ Label p +:+ "/" +:+ branchLabel br)
    (map pauseStep pauseGWs ++
     [sleepStep downSettle; probeStep (withHold (probeFor n sp origin dst expect false false) holdWindow)] ++
     map unpauseStep pauseGWs ++
     [sleepStep upSettle; probeStep (probeFor n sp origin dst restoreExpect false false)])%list.

Definition reloadSteps (sp : SimPlan) (before after : ProbeStep) (ctr file : string) : list Step :=
  [probeStep before; appendStep ctr file (sm_WorldDst sp +:+ "/32"); signalStep ctr "SIGHUP"; sleepStep (2 * second); probeStep after].

Definition sighupScenario (n : Network) (sp : SimPlan) (p : Path) (geo : Branch) (kind : gmap string string) : option Scenario :=
  let origin := OriginNode p in
  let prefixFile := fold_left (λ f c, if at_ kind c =? "dst_in" then conditionFileOf sp origin c else f) (b_When geo) "" in
  let before := branchEgressIP sp origin (routeAt p (firstHealthyBranch p kind (sm_WorldDst sp))) in
  if (prefixFile =? "") || (before =? "") then None
  else
    let after := branchEgressIP sp origin geo in
    let probe expect := probeFor n sp origin (sm_WorldDst sp) expect false false in
    Some (MkScenario ("sighup/" +:+ Label p) (reloadSteps sp (probe before) (probe after) (at_ (sm_nodeContainer sp) origin) prefixFile)).

(** The gateways that must be down for the branch after these. *)
Definition pauseGWs (kind : gmap string string) (earlier : list Branch) : list string :=
  omap (λ prev, if negb (b_Gateway prev =? "") && hasHealthcheck (b_When prev) kind then Some (b_Gateway prev) else None) earlier.

Definition branchScenario (n : Network) (sp : SimPlan) (kind : gmap string string) (p : Path) (i : nat) (br : Branch) : Scenario :=
  let origin := OriginNode p in
  let gws := pauseGWs kind (take i (pt_Routes p)) in
  let dst := if usesDstInWhen (b_When br) kind then sm_IranDst sp else sm_WorldDst sp in
  let expect := branchEgressIP sp origin br in
  match gws with
  | [] => routingScenario n sp p br origin dst expect
  | _ => failoverScenario n sp p br origin dst expect gws (branchEgressIP sp origin (routeAt p (firstHealthyBranch p kind dst)))
  end.

(** ** Scenarios of a kernel path *)

Definition kernelProbe (origin dst srcIP expect : string) (checkDrops : bool) : ProbeStep := MkProbe origin false "" srcIP dst expect false checkDrops 0.

Definition kernelSighupScenario (n : Network) (sp : SimPlan) (p : Path) (geo : Branch) : option Scenario :=
  let origin := OriginNode p in
  let prefixFile := conditionFileOf sp origin (default "" (head (b_When geo))) in
  match defaultBranch p with
  | None => None
  | Some defBr =>
      if prefixFile =? "" then None
      else
        let before := egressIPOf sp origin (b_Egress defBr) in
        let after := egressIPOf sp origin (b_Egress geo) in
        if (before =? "") || (after =? "") || (before =? after) then None
        else
          let probe expect := kernelProbe origin (sm_WorldDst sp) "" expect false in
          Some (MkScenario ("sighup/" +:+ Label p) (reloadSteps sp (probe before) (probe after) (at_ (sm_nodeContainer sp) origin) prefixFile))
  end.

(** One branch: what has been derived, and the first dst_in branch so far. *)
Definition kernelBranchScenario (n : Network) (sp : SimPlan) (kind : gmap string string) (p : Path) (st : list Scenario * option Branch) (br : Branch)
    : list Scenario * option Branch :=
  let origin := OriginNode p in
  let expect := egressIPOf sp origin (b_Egress br) in
  let add label dst src geo := ((st.1 ++ [MkScenario ("route/" +:+ Label p +:+ "/" +:+ label) [probeStep (kernelProbe origin dst src expect true)]])%list, geo) in
  match b_When br with
  | [] => add "default" (sm_WorldDst sp) "" st.2
  | w :: _ =>
      if at_ kind w =? "src_in" then
        let leg := firstListIP (w_Conditions n !! w ≫= cs_SrcIn) in
        if leg =? "" then st else add ("src-" +:+ w) (sm_WorldDst sp) leg st.2
      else if at_ kind w =? "dst_in" then
        add ("dst-" +:+ w) (sm_IranDst sp) "" (match st.2 with None => Some br | geo => geo end)
      else st
  end.

Definition kernelScenarios (n : Network) (sp : SimPlan) (p : Path) (kind : gmap string string) : list Scenario :=
  let '(out, geo) := fold_left (kernelBranchScenario n sp kind p) (pt_Routes p) ([], None) in
  (out ++ match geo ≫= kernelSighupScenario n sp p with Some sc => [sc] | None => [] end)%list.

(** ** Scenarios *)

Definition kernelOrigin (n : Network) (p : Path) : bool := nd_Datapath (node n (OriginNode p)) =? "kernel".

Definition pathScenarios (n : Network) (sp : SimPlan) (p : Path) : list Scenario :=
  if kernelOrigin n p then kernelScenarios n sp p (condKind n)
  else imap (branchScenario n sp (condKind n) p) (pt_Routes p).

(** The reload of a path's first branch with a condition on the destination. *)
Definition reloadScenario (n : Network) (sp : SimPlan) (p : Path) : list Scenario :=
  if kernelOrigin n p then []
  else match List.find (λ br, usesDstInWhen (b_When br) (condKind n)) (pt_Routes p) with
       | None => []
       | Some br => match sighupScenario n sp p br (condKind n) with Some sc => [sc] | None => [] end
       end.

Definition Scenarios (n : Network) (sp : SimPlan) : list Scenario :=
  (concat (map (pathScenarios n sp) (w_Paths n)) ++ concat (map (reloadScenario n sp) (w_Paths n)))%list.
