(* ===== verification/Oracle.v ===== *)
(** * What the test matrix expects, and what the origin does

    An abstract mesh: the containers that are paused, and the prefix files the
    other destination was appended to, on disk and as the node has read them.  On it
    a path's origin takes the first branch whose conditions hold; Steering.v says
    what that means for the packets.  The theorems: the sources the scenarios of
    Scenario.v expect are those branches' addresses, for schemas whose branches come
    in the order the matrix reads them in ([orderly], [orderly_kernel]), and every
    scenario leaves the mesh unpaused. *)

From S2P Require Import Prelude GoStrings Config Dsl Schema Compile Checked ReleaseFacts UnionFind SimPlan SimFacts Scenario Paths.
Local Open Scope Z_scope.
Local Open Scope string_scope.
Local Open Scope go_scope.

(** ** The mesh under test *)

Record mesh := MkMesh {
  ms_down : gset string;
  ms_disk : gset (string * string);
  ms_loaded : gset (string * string);
}.
Definition fresh : mesh := MkMesh ∅ ∅ ∅.

Section oracle.
Context (n : Network) (sp : SimPlan).
(** [ip rule from tok]: does the prefix or address [tok] cover the source? *)
Context (covers : string → string → bool).

(** What a step does to the mesh. *)
Definition act (m : mesh) (st : Step) : mesh :=
  match st_Op st with
  | OpPause => MkMesh ({[st_Target st]} ∪ ms_down m) (ms_disk m) (ms_loaded m)
  | OpUnpause => MkMesh (ms_down m ∖ {[st_Target st]}) (ms_disk m) (ms_loaded m)
  | OpAppendFile => if st_Content st =? (sm_WorldDst sp +:+ "/32") then MkMesh (ms_down m) ({[(st_Target st, st_File st)]} ∪ ms_disk m) (ms_loaded m) else m
  | OpSignal => if st_Signal st =? "SIGHUP" then
      MkMesh (ms_down m) (ms_disk m) (base.filter (λ tf, tf.1 = st_Target st) (ms_disk m) ∪ ms_loaded m) else m
  | OpSleep | OpProbe => m
  end.
Definition run (m : mesh) (sts : list Step) : mesh := fold_left act sts m.

(** The generated prefix files hold the one destination, the other when appended; a
    healthcheck holds while its gateway runs.  An unbound probe comes from the
    client's own address, which is in no set of sources. *)
Definition holds (m : mesh) (origin src dst c : string) : bool :=
  match w_Conditions n !! c with
  | None => false
  | Some spec =>
      match cs_DstIn spec, cs_SrcIn spec, cs_Healthcheck spec with
      | Some _, _, _ =>
          let f := conditionFileOf sp origin c in
          negb (f =? "") && ((dst =? sm_IranDst sp) || ((dst =? sm_WorldDst sp) && bool_decide ((at_ (sm_nodeContainer sp) origin, f) ∈ ms_loaded m)))
      | None, Some s, _ => negb (src =? "") && existsb (λ tok, covers tok src) (Config.s_List s)
      | None, None, Some h => bool_decide (h_Gateway h ∉ ms_down m)
      | None, None, None => false
      end
  end.

(** The origin of a path has read no appended prefix. *)
Definition container (p : Path) : string := at_ (sm_nodeContainer sp) (OriginNode p).
Definition unread (m : mesh) (p : Path) : Prop := ∀ f, (container p, f) ∉ ms_loaded m.

Definition chosen (m : mesh) (p : Path) (src dst : string) : option Branch :=
  List.find (λ br, forallb (holds m (OriginNode p) src dst) (b_When br)) (pt_Routes p).

(** The source the hub sees for a probe. *)
Definition oracle (m : mesh) (pb : ProbeStep) : option string :=
  p ← List.find (λ p, OriginNode p =? pb_Node pb) (w_Paths n);
  br ← chosen m p (pb_SrcIP pb) (pb_Dst pb);
  Some (branchEgressIP sp (OriginNode p) br).

(** Every probe of a scenario expects what the mesh, as the steps before left it, does. *)
Fixpoint agrees (m : mesh) (sts : list Step) : bool :=
  match sts with
  | [] => true
  | st :: sts' =>
      match st_Op st, st_Probe st with
      | OpProbe, Some pb => negb (pb_ExpectFail pb) && bool_decide (oracle m pb = Some (pb_ExpectSrc pb))
      | OpProbe, None => false
      | _, _ => true
      end && agrees (act m st) sts'
  end.

Notation kind := (condKind n).
Definition guarded (br : Branch) : bool := hasHealthcheck (b_When br) kind.
Definition geo (br : Branch) : bool := usesDstInWhen (b_When br) kind.

(** A branch is guarded by prefix files the plan generates, and by healthchecks of
    its own gateway. *)
Definition guard_ok (p : Path) (br : Branch) : Prop :=
  ∀ c, c ∈ b_When br → ∃ spec, w_Conditions n !! c = Some spec ∧
    ((is_Some (cs_DstIn spec) ∧ conditionFileOf sp (OriginNode p) c ≠ "") ∨
     (cs_DstIn spec = None ∧ cs_SrcIn spec = None ∧ ∃ h, cs_Healthcheck spec = Some h ∧ h_Gateway h = b_Gateway br ∧ b_Gateway br ≠ "")).

(** A path whose branches the matrix can tell apart: those on the destination come
    first and each has one file; before a branch come guarded ones, of other
    gateways, or ones on the other destination; some branch takes the rest. *)
Record orderly (p : Path) : Prop := {
  or_guards : ∀ br, br ∈ pt_Routes p → guard_ok p br;
  or_order : ∀ i j bi bj, pt_Routes p !! i = Some bi → pt_Routes p !! j = Some bj → (j < i)%nat →
    (guarded bj = true ∨ (geo bj = true ∧ geo bi = false)) ∧ (geo bi = true → geo bj = true) ∧
    (guarded bi = true → guarded bj = true → b_Gateway bi ≠ b_Gateway bj);
  or_file : ∀ br c c', br ∈ pt_Routes p → c ∈ b_When br → c' ∈ b_When br → at_ kind c = "dst_in" → at_ kind c' = "dst_in" →
    conditionFileOf sp (OriginNode p) c = conditionFileOf sp (OriginNode p) c';
  or_rest : ∃ br, br ∈ pt_Routes p ∧ geo br = false;
}.

(** ** Lemmas: replaying *)

Lemma agrees_app m a b : agrees m (a ++ b) = agrees m a && agrees (run m a) b.
Proof. revert m. induction a as [|st a IH]; intros m; [done|]. cbn [app agrees run fold_left]. rewrite IH. by rewrite andb_assoc. Qed.

Lemma run_app m a b : run m (a ++ b) = run (run m a) b.
Proof. apply fold_left_app. Qed.

Lemma run_pauses m gws : run m (map pauseStep gws) = MkMesh (list_to_set gws ∪ ms_down m) (ms_disk m) (ms_loaded m).
Proof.
  revert m. induction gws as [|g gws IH]; intros m; [destruct m; cbn; by rewrite union_empty_l_L|]. cbn [map].
  change (run m (pauseStep g :: ?l)) with (run (act m (pauseStep g)) l). rewrite IH. cbn. by rewrite assoc_L, (comm_L (∪) (list_to_set gws)) by apply _.
Qed.

Lemma run_unpauses m gws : run m (map unpauseStep gws) = MkMesh (ms_down m ∖ list_to_set gws) (ms_disk m) (ms_loaded m).
Proof.
  revert m. induction gws as [|g gws IH]; intros m; [destruct m; cbn; by rewrite difference_empty_L|]. cbn [map].
  change (run m (unpauseStep g :: ?l)) with (run (act m (unpauseStep g)) l). rewrite IH. cbn. by rewrite difference_difference_l_L.
Qed.

Lemma agrees_silent m (f : string → Step) gws : (∀ g, st_Op (f g) ≠ OpProbe) → agrees m (map f gws) = true.
Proof.
  intros Hf. revert m. induction gws as [|g gws IH]; intros m; [done|]. cbn [map agrees]. rewrite IH, andb_true_r.
  specialize (Hf g). by destruct (st_Op (f g)).
Qed.

Lemma agrees_probe m pb sts : oracle m pb = Some (pb_ExpectSrc pb) → pb_ExpectFail pb = false → agrees m sts = true → agrees m (probeStep pb :: sts) = true.
Proof. intros Ho He Hs. cbn. rewrite He, bool_decide_eq_true_2 by done. exact Hs. Qed.

Lemma agrees_sleep m w sts : agrees m (sleepStep w :: sts) = agrees m sts.
Proof. done. Qed.
Lemma agrees_reload m ctr file sts :
  agrees m (appendStep ctr file (sm_WorldDst sp +:+ "/32") :: signalStep ctr "SIGHUP" :: sts) =
  agrees (MkMesh (ms_down m) ({[(ctr, file)]} ∪ ms_disk m) (base.filter (λ tf, tf.1 = ctr) ({[(ctr, file)]} ∪ ms_disk m) ∪ ms_loaded m)) sts.
Proof.
  change (agrees (act (act m (appendStep ctr file (sm_WorldDst sp +:+ "/32"))) (signalStep ctr "SIGHUP")) sts = agrees (MkMesh (ms_down m) ({[(ctr, file)]} ∪ ms_disk m) (base.filter (λ tf, tf.1 = ctr) ({[(ctr, file)]} ∪ ms_disk m) ∪ ms_loaded m)) sts).
  f_equal. unfold act. cbn [st_Op appendStep signalStep st_Content st_Target st_File st_Signal]. rewrite !String.eqb_refl. done.
Qed.

Lemma reload_run m p b a file : ms_down m = ∅ →
  ms_down (run m (reloadSteps sp b a (container p) file)) = ∅ ∧
  ∀ q, container q ≠ container p → unread m q → unread (run m (reloadSteps sp b a (container p) file)) q.
Proof.
  assert (run m (reloadSteps sp b a (container p) file) =
    MkMesh (ms_down m) ({[(container p, file)]} ∪ ms_disk m) (base.filter (λ tf, tf.1 = container p) ({[(container p, file)]} ∪ ms_disk m) ∪ ms_loaded m)) as ->.
  { unfold reloadSteps, run. cbn [fold_left]. unfold act. cbn [st_Op probeStep sleepStep appendStep signalStep st_Content st_Target st_File st_Signal].
    rewrite !String.eqb_refl. done. }
  intros Hd. split; [exact Hd|]. intros q Hne Hun f. cbn [ms_loaded]. rewrite elem_of_union, elem_of_filter. intros [[H _]|H]; [by apply Hne|by apply Hun in H].
Qed.

(** ** Lemmas: which branch *)

Lemma find_first {A} (f : A → bool) l i x : l !! i = Some x → f x = true → (∀ j y, (j < i)%nat → l !! j = Some y → f y = false) → List.find f l = Some x.
Proof.
  revert i. induction l as [|y l IH]; intros i Hi Hx Hj; [done|]. cbn. destruct i as [|i]; cbn in Hi; [injection Hi as ->; by rewrite Hx|].
  rewrite (Hj 0%nat y); [|lia|done]. apply (IH i); [done..|]. intros j z Hlt Hz. apply (Hj (S j)); [lia|done].
Qed.

Lemma find_inv {A} (f : A → bool) l x : List.find f l = Some x → ∃ i, l !! i = Some x ∧ f x = true ∧ ∀ j y, (j < i)%nat → l !! j = Some y → f y = false.
Proof.
  induction l as [|y l IH]; [done|]. cbn. destruct (f y) eqn:Hy.
  - intros [= <-]. exists 0%nat. split_and!; [done..|lia].
  - intros (i & Hi & Hx & Hj)%IH. exists (S i). split_and!; [done..|]. intros [|j] z Hlt Hz; [by injection Hz as <-|]. eapply Hj; [|exact Hz]. lia.
Qed.

Lemma kind_at c spec : w_Conditions n !! c = Some spec →
  at_ kind c = match cs_DstIn spec with Some _ => "dst_in" | None => match cs_SrcIn spec with Some _ => "src_in" | None => "healthcheck" end end.
Proof. intros Hs. unfold at_, condKind. by rewrite lookup_fmap, Hs. Qed.

Lemma kind_dst c : at_ kind c = "dst_in" ↔ ∃ spec, w_Conditions n !! c = Some spec ∧ is_Some (cs_DstIn spec).
Proof.
  unfold at_, condKind. rewrite lookup_fmap. destruct (w_Conditions n !! c) as [spec|]; cbn; [|split; [done|by intros (? & ? & _)]]. split.
  - intros H. exists spec. split; [done|]. destruct (cs_DstIn spec); [done|]. by destruct (cs_SrcIn spec).
  - intros (? & [= <-] & [s ->]). done.
Qed.

Lemma kind_health c : at_ kind c = "healthcheck" ↔ ∃ spec, w_Conditions n !! c = Some spec ∧ cs_DstIn spec = None ∧ cs_SrcIn spec = None.
Proof.
  unfold at_, condKind. rewrite lookup_fmap. destruct (w_Conditions n !! c) as [spec|]; cbn; [|split; [done|by intros (? & ? & _)]]. split.
  - intros H. exists spec. split; [done|]. destruct (cs_DstIn spec); [done|]. by destruct (cs_SrcIn spec).
  - intros (? & [= <-] & -> & ->). done.
Qed.

Lemma geo_true br : geo br = true ↔ ∃ c, c ∈ b_When br ∧ at_ kind c = "dst_in".
Proof. unfold geo, usesDstInWhen. rewrite existsb_exists. setoid_rewrite <- list_elem_of_In. setoid_rewrite String.eqb_eq. done. Qed.

Lemma guarded_true br : guarded br = true ↔ ∃ c, c ∈ b_When br ∧ at_ kind c = "healthcheck".
Proof. unfold guarded, hasHealthcheck. rewrite existsb_exists. setoid_rewrite <- list_elem_of_In. setoid_rewrite String.eqb_eq. done. Qed.

(** When a branch's conditions hold. *)
Lemma branch_holds m p br dst : guard_ok p br →
  forallb (holds m (OriginNode p) "" dst) (b_When br) = true ↔
    (guarded br = true → b_Gateway br ∉ ms_down m) ∧
    (∀ c, c ∈ b_When br → at_ kind c = "dst_in" → dst = sm_IranDst sp ∨ (dst = sm_WorldDst sp ∧ (at_ (sm_nodeContainer sp) (OriginNode p), conditionFileOf sp (OriginNode p) c) ∈ ms_loaded m)).
Proof.
  intros Hg. rewrite forallb_forall. setoid_rewrite <- list_elem_of_In. split.
  - intros H. split.
    + intros (c & Hc & (spec & Hs & Hd & Hsrc)%kind_health)%guarded_true. specialize (H c Hc). unfold holds in H. rewrite Hs, Hd, Hsrc in H.
      destruct (Hg c Hc) as (spec' & Hs' & [[[? Hd'] _]|(_ & _ & h & Hh & <- & _)]); assert (spec' = spec) as -> by congruence; [congruence|].
      rewrite Hh in H. by apply bool_decide_eq_true in H.
    + intros c Hc (spec & Hs & [s Hd])%kind_dst. specialize (H c Hc). unfold holds in H. rewrite Hs, Hd in H. cbn zeta in H.
      apply andb_true_iff in H as [_ [H%String.eqb_eq|[H%String.eqb_eq Hl%bool_decide_eq_true]%andb_true_iff]%orb_true_iff]; auto.
  - intros [H1 H2] c Hc. unfold holds. destruct (Hg c Hc) as (spec & Hs & [[[s Hd] Hf]|(Hd & Hsrc & h & Hh & He & _)]); rewrite Hs, Hd.
    + apply String.eqb_neq in Hf. cbn zeta. rewrite Hf. cbn [negb andb]. apply orb_true_iff. destruct (H2 c Hc) as [->|[-> Hl]].
      * apply kind_dst. exists spec. split; [done|by exists s].
      * left. apply String.eqb_refl.
      * right. rewrite String.eqb_refl. cbn. by apply bool_decide_eq_true.
    + rewrite Hsrc, Hh, He. apply bool_decide_eq_true. apply H1, guarded_true. exists c. split; [done|]. apply kind_health. by exists spec.
Qed.

Section path.
Context (p : Path) (Hp : p ∈ w_Paths n) (Hnd : NoDup (map pt_Node (w_Paths n))) (Hor : orderly p) (Hdst : sm_WorldDst sp ≠ sm_IranDst sp).

Lemma oracle_path m pb br : pb_Node pb = OriginNode p → chosen m p (pb_SrcIP pb) (pb_Dst pb) = Some br → oracle m pb = Some (branchEgressIP sp (OriginNode p) br).
Proof.
  intros Hn Hc. unfold oracle. apply list_elem_of_lookup in Hp as [i Hi].
  rewrite (find_first _ _ i p Hi).
  - cbn [mbind option_bind]. by rewrite Hc.
  - rewrite Hn. apply String.eqb_refl.
  - intros j q Hlt Hq. apply String.eqb_neq. intros He. rewrite Hn in He. assert (j = i); [|lia].
    eapply NoDup_lookup; [exact Hnd| |]; rewrite list_lookup_fmap; [rewrite Hq|rewrite Hi]; cbn; [done|]. unfold OriginNode in He. by rewrite He.
Qed.

Lemma pauseGWs_in brs g : g ∈ pauseGWs kind brs ↔ ∃ br, br ∈ brs ∧ guarded br = true ∧ b_Gateway br = g ∧ g ≠ "".
Proof.
  unfold pauseGWs. rewrite list_elem_of_omap. unfold guarded. split.
  - intros (br & Hin & H). exists br. destruct (String.eqb_spec (b_Gateway br) "") as [|Hne]; [done|]. cbn in H.
    destruct (hasHealthcheck _ _); [|done]. injection H as <-. done.
  - intros (br & Hin & Hg & He & Hne). exists br. split; [done|]. rewrite He, Hg. apply String.eqb_neq in Hne. by rewrite Hne.
Qed.

Lemma guarded_gateway br : br ∈ pt_Routes p → guarded br = true → b_Gateway br ≠ "".
Proof.
  intros Hbr (c & Hc & (spec & Hs & Hd & _)%kind_health)%guarded_true.
  destruct (or_guards p Hor br Hbr c Hc) as (spec' & Hs' & [[[? Hd'] _]|(_ & _ & h & _ & _ & ?)]); [congruence|done].
Qed.

(** With the guarded gateways before it paused, a branch is reached. *)
Lemma chosen_paused m i br : pt_Routes p !! i = Some br → ms_down m = list_to_set (pauseGWs kind (take i (pt_Routes p))) → unread m p →
  chosen m p "" (if geo br then sm_IranDst sp else sm_WorldDst sp) = Some br.
Proof.
  intros Hi Hdown Hload. pose proof (list_elem_of_lookup_2 _ _ _ Hi) as Hbr. apply (find_first _ _ i); [done| |].
  - apply branch_holds; [by apply (or_guards p Hor)|]. rewrite Hdown. split.
    + intros Hg (b & (j & Hj)%list_elem_of_lookup & Hgb & He & _)%elem_of_list_to_set%pauseGWs_in.
      apply lookup_take_Some in Hj as [Hj Hlt]. destruct (or_order p Hor i j br b Hi Hj Hlt) as (_ & _ & H). by apply (H Hg Hgb).
    + intros c Hc Hk. left. assert (geo br = true) as -> by (apply geo_true; by exists c). done.
  - intros j b Hlt Hj. apply not_true_iff_false. pose proof (list_elem_of_lookup_2 _ _ _ Hj) as Hb. rewrite branch_holds by (by apply (or_guards p Hor)).
    destruct (or_order p Hor i j br b Hi Hj Hlt) as ([Hg|[Hg Hng]] & _).
    + intros [H _]. apply (H Hg). rewrite Hdown. apply elem_of_list_to_set, pauseGWs_in. exists b. split; [|by pose proof (guarded_gateway b Hb Hg)].
      apply list_elem_of_lookup. exists j. by apply lookup_take_Some.
    + intros [_ H]. rewrite Hng in H. apply geo_true in Hg as (c & Hc & Hk). destruct (H c Hc Hk) as [?|[_ Hin]]; [done|]. by apply Hload in Hin.
Qed.

Lemma firstIndex_some f brs br : br ∈ brs → f br = true → ∃ i b, firstIndex f brs = Some i ∧ brs !! i = Some b ∧ f b = true ∧
  ∀ j y, (j < i)%nat → brs !! j = Some y → f y = false.
Proof.
  induction brs as [|b brs IH]; intros Hin Hf; [by apply elem_of_nil in Hin|]. cbn. destruct (f b) eqn:Hb; [exists 0%nat, b; split_and!; [done..|lia]|].
  apply elem_of_cons in Hin as [->|Hin]; [congruence|]. destruct (IH Hin Hf) as (i & b' & -> & Hi & Hb' & Hj). exists (S i), b'. split_and!; [done..|].
  intros [|j] y Hlt Hy; [by injection Hy as <-|]. eapply Hj; [|exact Hy]. lia.
Qed.

(** In the fresh mesh the branch taken is [firstHealthyBranch]. *)
Lemma chosen_healthy m br (g : bool) : sm_IranDst sp = iranDst → br ∈ pt_Routes p → geo br = g → ms_down m = ∅ → unread m p →
  chosen m p "" (if g then sm_IranDst sp else sm_WorldDst sp) = Some (routeAt p (firstHealthyBranch p kind (if g then sm_IranDst sp else sm_WorldDst sp))).
Proof.
  intros Hir Hbr Hg Hdown Hload. set (dst := if g then _ else _).
  assert ((dst =? iranDst) = g) as Hd.
  { unfold dst. destruct g; [apply String.eqb_eq; congruence|apply String.eqb_neq; congruence]. }
  unfold firstHealthyBranch. rewrite Hd. destruct (firstIndex_some (λ br, Bool.eqb (geo br) g) (pt_Routes p) br Hbr) as (i & b & Hf & Hi & Hb%eqb_prop & Hj);
    [rewrite Hg; apply eqb_reflx|].
  change (λ br, Bool.eqb (usesDstInWhen (b_When br) kind) g) with (λ br, Bool.eqb (geo br) g). rewrite Hf. unfold routeAt. rewrite Nat2Z.id.
  rewrite (nth_lookup_Some _ _ _ _ Hi). apply (find_first _ _ i); [done| |].
  - apply branch_holds; [apply (or_guards p Hor); by eapply list_elem_of_lookup_2|]. rewrite Hdown. split; [set_solver|].
    intros c Hc Hk. left. unfold dst. assert (geo b = true) as Hgb by (apply geo_true; by exists c). by rewrite <- Hb, Hgb.
  - intros j y Hlt Hy. apply not_true_iff_false. rewrite branch_holds by (apply (or_guards p Hor); by eapply list_elem_of_lookup_2).
    specialize (Hj j y Hlt Hy). apply eqb_false_iff in Hj. destruct (or_order p Hor i j b y Hi Hy Hlt) as (_ & Hfirst & _).
    destruct (geo y) eqn:Hgy, g; try done; [|specialize (Hfirst Hb); congruence].
    intros [_ H]. apply geo_true in Hgy as (c & Hc & Hk). destruct (H c Hc Hk) as [H'|[_ H']]; [by unfold dst in H'|]. by apply Hload in H'.
Qed.

Lemma probeFor_agrees m dst br drops hold sts : chosen m p "" dst = Some br → agrees m sts = true →
  agrees m (probeStep (withHold (probeFor n sp (OriginNode p) dst (branchEgressIP sp (OriginNode p) br) false drops) hold) :: sts) = true.
Proof. intros Hc Hs. apply agrees_probe; [|done..]. by apply oracle_path. Qed.

(** A scenario that the mesh passes and is left as it was; one that may make its own
    origin read a prefix. *)
Definition steady (sc : Scenario) : Prop :=
  ∀ m, ms_down m = ∅ → unread m p → agrees m (sn_Steps sc) = true ∧ run m (sn_Steps sc) = m.
Definition reloading (sc : Scenario) : Prop :=
  ∀ m, ms_down m = ∅ → unread m p → agrees m (sn_Steps sc) = true ∧
    ms_down (run m (sn_Steps sc)) = ∅ ∧ ∀ q, container q ≠ container p → unread m q → unread (run m (sn_Steps sc)) q.

Lemma branchScenario_steady i br : sm_IranDst sp = iranDst → pt_Routes p !! i = Some br → steady (branchScenario n sp kind p i br).
Proof.
  intros Hir Hi m Hdown Hun. pose proof (list_elem_of_lookup_2 _ _ _ Hi) as Hbr. unfold branchScenario.
  change (usesDstInWhen (b_When br) kind) with (geo br). set (dst := if geo br then sm_IranDst sp else sm_WorldDst sp). cbn zeta. pose proof chosen_paused as Hpaused.
  destruct (pauseGWs kind (take i (pt_Routes p))) as [|g gs] eqn:Hgws.
  - cbn [sn_Steps routingScenario]. split; [|done]. apply (probeFor_agrees _ _ _ _ 0); [|done]. eapply Hpaused; [exact Hi|by rewrite Hgws|done].
  - rewrite <- Hgws. clear g gs Hgws. set (gws := pauseGWs kind (take i (pt_Routes p))) in *. cbn [sn_Steps failoverScenario].
    assert (MkMesh (list_to_set gws ∖ list_to_set gws) (ms_disk m) (ms_loaded m) = m) as Hback by (rewrite difference_diag_L, <- Hdown; by destruct m).
    rewrite agrees_app, agrees_silent by done. rewrite run_app, run_pauses, Hdown, union_empty_r_L. cbn [andb app]. rewrite agrees_sleep. split.
    + apply probeFor_agrees; [eapply Hpaused; [exact Hi|done..]|].
      rewrite agrees_app, agrees_silent by done. cbn [andb]. rewrite run_unpauses. cbn [ms_down ms_disk ms_loaded]. rewrite Hback, agrees_sleep.
      apply (probeFor_agrees _ _ _ _ 0); [|done]. by apply (chosen_healthy _ br (geo br)).
    + change (run ?m' (sleepStep ?w :: probeStep ?pb :: ?l)) with (run m' l). rewrite run_app, run_unpauses. cbn [ms_down ms_disk ms_loaded]. rewrite Hback. done.
Qed.

Lemma lastFile (cs : list string) (f0 : string) :
  let f := fold_left (λ f c, if at_ kind c =? "dst_in" then conditionFileOf sp (OriginNode p) c else f) cs f0 in
  (f = f0 ∧ ∀ c, c ∈ cs → at_ kind c ≠ "dst_in") ∨ ∃ c, c ∈ cs ∧ at_ kind c = "dst_in" ∧ f = conditionFileOf sp (OriginNode p) c.
Proof.
  revert f0. induction cs as [|c cs IH]; intros f0; cbn [fold_left]; [left; split; [done|by intros c ?%elem_of_nil]|].
  destruct (IH (if at_ kind c =? "dst_in" then conditionFileOf sp (OriginNode p) c else f0)) as [[Hf Hn]|(c' & Hc' & Hk & Hf)].
  - destruct (String.eqb_spec (at_ kind c) "dst_in") as [Hk|Hk].
    + right. exists c. split; [left|done].
    + left. split; [exact Hf|]. intros c' [->|Hc']%elem_of_cons; [done|by apply Hn].
  - right. exists c'. split; [by right|done].
Qed.

Lemma sighup_reloading br sc : sm_IranDst sp = iranDst → List.find (λ br, usesDstInWhen (b_When br) kind) (pt_Routes p) = Some br →
  sighupScenario n sp p br kind = Some sc → reloading sc.
Proof.
  intros Hir Hfind. change (λ br, usesDstInWhen (b_When br) kind) with geo in Hfind. apply find_inv in Hfind as (k & Hbrk & Hg & Hfirst).
  pose proof (list_elem_of_lookup_2 _ _ _ Hbrk) as Hbr.
  unfold sighupScenario. pose proof (lastFile (b_When br) "") as Hfile. cbn zeta in Hfile.
  set (file := fold_left _ _ _) in *. destruct Hfile as [[_ Hno]|(c & Hc & Hk & Hfile)].
  { apply geo_true in Hg as (c & Hc & Hk). by apply Hno in Hk. }
  destruct (_ || _); [done|]. intros [= <-] m Hdown Hun. cbn [sn_Steps]. split; [|by apply reload_run]. unfold reloadSteps.
  destruct (or_rest p Hor) as (rest & Hrest & Hng). pose proof (chosen_healthy m rest false Hir Hrest Hng Hdown Hun) as Hbefore. cbn in Hbefore.
  apply (probeFor_agrees _ _ _ _ 0); [exact Hbefore|]. rewrite agrees_reload, agrees_sleep. apply (probeFor_agrees _ _ _ _ 0); [|done].
  apply (find_first _ _ k); [done| |].
  - apply branch_holds; [by apply (or_guards p Hor)|]. cbn [ms_down ms_loaded]. rewrite Hdown. split; [intros _; apply not_elem_of_empty|]. intros c' Hc' Hk'. right. split; [done|].
    rewrite (or_file p Hor br c' c Hbr Hc' Hc Hk' Hk), <- Hfile. apply elem_of_union_l, elem_of_filter. split; [done|]. set_solver.
  - intros j b Hlt Hj. destruct (or_order p Hor k j br b Hbrk Hj Hlt) as (_ & Hfg & _). specialize (Hfirst j b Hlt Hj). by rewrite Hfg in Hfirst.
Qed.
End path.

(** ** Kernel paths *)

Definition sourced (br : Branch) : bool := match b_When br with w :: _ => at_ kind w =? "src_in" | [] => false end.
Definition destined (br : Branch) : bool := match b_When br with w :: _ => at_ kind w =? "dst_in" | [] => false end.
(** The sources of a branch, and the one it is probed from. *)
Definition sourceSet (br : Branch) : list string := from_option Config.s_List [] (w_Conditions n !! default "" (head (b_When br)) ≫= cs_SrcIn).
Definition leg (br : Branch) : string := firstListIP (w_Conditions n !! default "" (head (b_When br)) ≫= cs_SrcIn).

(** A kernel path the matrix can tell apart: one condition a branch, sources first and
    apart, at most one on the destination, with a file of the plan, the rest last. *)
Record orderly_kernel (p : Path) : Prop := {
  ok_local : ∀ br, br ∈ pt_Routes p → b_Gateway br = "";
  ok_when : ∀ br, br ∈ pt_Routes p → b_When br = [] ∨ ∃ w spec, b_When br = [w] ∧ w_Conditions n !! w = Some spec ∧
    ((is_Some (cs_DstIn spec) ∧ conditionFileOf sp (OriginNode p) w ≠ "") ∨ (cs_DstIn spec = None ∧ is_Some (cs_SrcIn spec)));
  ok_order : ∀ i j bi bj, pt_Routes p !! i = Some bi → pt_Routes p !! j = Some bj → (j < i)%nat →
    b_When bj ≠ [] ∧ (sourced bi = true → sourced bj = true) ∧ (destined bi = true → destined bj = false) ∧
    (sourced bi = true → ∀ tok, tok ∈ sourceSet bj → covers tok (leg bi) = false);
}.

Lemma find_snoc {A} (f : A → bool) l x :
  List.find f (l ++ [x])%list = match List.find f l with Some y => Some y | None => if f x then Some x else None end.
Proof. induction l as [|y l IH]; [done|]. cbn. by destruct (f y). Qed.

(** What a kernel branch is probed with. *)
Definition kernel_case (br : Branch) (dst src : string) : Prop :=
  (b_When br = [] ∧ dst = sm_WorldDst sp ∧ src = "") ∨ (sourced br = true ∧ dst = sm_WorldDst sp ∧ src = leg br ∧ src ≠ "") ∨
  (destined br = true ∧ dst = sm_IranDst sp ∧ src = "").

Lemma kernel_shape p brs :
  let st := fold_left (kernelBranchScenario n sp kind p) brs ([], None) in
  (∀ sc, sc ∈ st.1 → ∃ br dst src, br ∈ brs ∧ kernel_case br dst src ∧
    sn_Steps sc = [probeStep (kernelProbe (OriginNode p) dst src (egressIPOf sp (OriginNode p) (b_Egress br)) true)]) ∧
  st.2 = List.find destined brs.
Proof.
  induction brs as [|br brs [IH1 IH2]] using rev_ind; [split; [by intros sc ?%elem_of_nil|done]|]. cbn zeta in *. rewrite fold_left_app, find_snoc. cbn [fold_left].
  destruct (fold_left _ brs _) as [out g]. cbn [fst snd] in IH1, IH2. subst g.
  assert (∀ sc, sc ∈ out → ∃ b dst src, b ∈ (brs ++ [br])%list ∧ kernel_case b dst src ∧
    sn_Steps sc = [probeStep (kernelProbe (OriginNode p) dst src (egressIPOf sp (OriginNode p) (b_Egress b)) true)]) as Hold.
  { intros sc (b & dst & src & Hb & ? & ?)%IH1. exists b, dst, src. split; [apply elem_of_app; by left|done]. }
  assert (∀ label dst src, kernel_case br dst src → ∀ sc, sc ∈ (out ++ [MkScenario label [probeStep (kernelProbe (OriginNode p) dst src (egressIPOf sp (OriginNode p) (b_Egress br)) true)]])%list →
    ∃ b dst src, b ∈ (brs ++ [br])%list ∧ kernel_case b dst src ∧ sn_Steps sc = [probeStep (kernelProbe (OriginNode p) dst src (egressIPOf sp (OriginNode p) (b_Egress b)) true)]) as Hnew.
  { intros label dst src Hk sc [Hsc| ->%list_elem_of_singleton]%elem_of_app; [by apply Hold|]. exists br, dst, src. split; [apply elem_of_app; right; left|done]. }
  unfold kernelBranchScenario, destined, sourced in *. cbn [fst snd]. destruct (b_When br) as [|w ws] eqn:Hw; cbn zeta.
  - split; [apply Hnew; by left|]. by destruct (List.find _ brs).
  - destruct (String.eqb_spec (at_ kind w) "src_in") as [Hs|Hs].
    + rewrite Hs. change ("src_in" =? "dst_in") with false. destruct (String.eqb_spec (firstListIP (w_Conditions n !! w ≫= cs_SrcIn)) "") as [He|He].
      * split; [exact Hold|]. cbn. by destruct (List.find _ brs).
      * split; [|cbn; by destruct (List.find _ brs)]. apply Hnew. right. left. unfold sourced, leg. rewrite Hw. cbn. by rewrite Hs.
    + destruct (String.eqb_spec (at_ kind w) "dst_in") as [Hd|Hd].
      * split; [|cbn; by destruct (List.find _ brs)]. apply Hnew. right. right. unfold destined. rewrite Hw, Hd. done.
      * split; [exact Hold|]. cbn. by destruct (List.find _ brs).
Qed.

Section kernel.
Context (p : Path) (Hp : p ∈ w_Paths n) (Hnd : NoDup (map pt_Node (w_Paths n))) (Hor : orderly_kernel p) (Hdst : sm_WorldDst sp ≠ sm_IranDst sp).
Context (Hown : ∀ tok, covers tok (cutSlash tok) = true).

Lemma kernel_holds m src dst br : br ∈ pt_Routes p →
  forallb (holds m (OriginNode p) src dst) (b_When br) = true ↔
    (sourced br = true → src ≠ "" ∧ ∃ tok, tok ∈ sourceSet br ∧ covers tok src = true) ∧
    (destined br = true → dst = sm_IranDst sp ∨ (dst = sm_WorldDst sp ∧ (at_ (sm_nodeContainer sp) (OriginNode p), conditionFileOf sp (OriginNode p) (default "" (head (b_When br)))) ∈ ms_loaded m)).
Proof.
  intros Hbr. unfold sourced, destined, sourceSet. destruct (ok_when p Hor br Hbr) as [->|(w & spec & -> & Hs & Hc)]; [cbn; split; [split; done|done]|].
  cbn [forallb head default]. change (from_option id "" (Some w)) with w. change (default "" (Some w)) with w. rewrite andb_true_r. rewrite (kind_at _ _ Hs). unfold holds. rewrite Hs. cbn [mbind option_bind].
  destruct Hc as [[[s Hd] Hf]|[Hd [s Hsrc]]]; rewrite Hd.
  - cbn. apply String.eqb_neq in Hf. rewrite Hf. cbn. rewrite orb_true_iff, andb_true_iff, !String.eqb_eq, bool_decide_eq_true.
    split; [intros H; split; [done|by intros _]|]. intros [_ H]. by apply H.
  - rewrite Hsrc. cbn. rewrite andb_true_iff, negb_true_iff, String.eqb_neq, existsb_exists. setoid_rewrite <- list_elem_of_In. rewrite Hs. cbn [mbind option_bind]. rewrite Hsrc. cbn [from_option]. split; [intros H; split; [by intros _|done]|].
    intros [H _]. by apply H.
Qed.

Lemma leg_covered br : br ∈ pt_Routes p → leg br ≠ "" → ∃ tok, tok ∈ sourceSet br ∧ covers tok (leg br) = true.
Proof.
  intros _. unfold leg, sourceSet. destruct (w_Conditions n !! _ ≫= cs_SrcIn) as [s|]; [|done]. cbn. destruct (Config.s_List s) as [|tok l]; [done|].
  intros _. exists tok. split; [left|apply Hown].
Qed.

(** An earlier branch stands aside: it is on the destination, or on sources that the
    probe's is not of. *)
Lemma kernel_aside m src dst i j bi bj : pt_Routes p !! i = Some bi → pt_Routes p !! j = Some bj → (j < i)%nat →
  (destined bj = true → dst = sm_WorldDst sp ∧ unread m p) →
  src = "" ∨ (sourced bi = true ∧ src = leg bi) → forallb (holds m (OriginNode p) src dst) (b_When bj) = false.
Proof.
  intros Hi Hj Hlt Hd Hs. apply not_true_iff_false. pose proof (list_elem_of_lookup_2 _ _ _ Hj) as Hbj. rewrite (kernel_holds _ _ _ _ Hbj). intros [H1 H2].
  destruct (ok_order p Hor i j bi bj Hi Hj Hlt) as (Hne & _ & _ & Hap).
  assert (sourced bj = true ∨ destined bj = true) as [Hk|Hk].
  { unfold sourced, destined. destruct (ok_when p Hor bj Hbj) as [?|(w & spec & -> & Hspec & Hc)]; [done|]. rewrite (kind_at _ _ Hspec).
    destruct Hc as [[[? ->] _]|[-> [? ->]]]; auto. }
  - destruct (H1 Hk) as (Hne' & tok & Hin & Hcov). destruct Hs as [?|[Hsi ->]]; [done|]. rewrite (Hap Hsi tok Hin) in Hcov. done.
  - destruct (Hd Hk) as [-> Hl]. destruct (H2 Hk) as [?|[_ H]]; [done|]. by apply Hl in H.
Qed.

Lemma kernel_chosen m br dst src : unread m p → br ∈ pt_Routes p → kernel_case br dst src → chosen m p src dst = Some br.
Proof.
  intros Hun (i & Hi)%list_elem_of_lookup Hc. pose proof (list_elem_of_lookup_2 _ _ _ Hi) as Hbr. apply (find_first _ _ i); [done| |].
  - apply (kernel_holds _ _ _ _ Hbr). destruct Hc as [(Hw & -> & ->)|[(Hs & -> & -> & Hne)|(Hd & -> & ->)]].
    + unfold sourced, destined. by rewrite Hw.
    + split; [intros _; split; [done|by apply leg_covered]|]. unfold sourced, destined in *. destruct (b_When br); [done|]. apply String.eqb_eq in Hs. by rewrite Hs.
    + split; [|intros _; by left]. unfold sourced, destined in *. destruct (b_When br); [done|]. apply String.eqb_eq in Hd. by rewrite Hd.
  - intros j b Hlt Hj. apply (kernel_aside _ _ _ i j br b); [done..| |].
    + intros Hdb. destruct Hc as [(_ & -> & _)|[(_ & -> & _)|(Hd & _)]]; [done..|]. destruct (ok_order p Hor i j br b Hi Hj Hlt) as (_ & _ & H & _). rewrite (H Hd) in Hdb. done.
    + destruct Hc as [(_ & _ & ->)|[(Hs & _ & -> & _)|(_ & _ & ->)]]; auto.
Qed.

Lemma kernelProbe_agrees m br dst src drops sts : br ∈ pt_Routes p → chosen m p src dst = Some br → agrees m sts = true →
  agrees m (probeStep (kernelProbe (OriginNode p) dst src (egressIPOf sp (OriginNode p) (b_Egress br)) drops) :: sts) = true.
Proof.
  intros Hbr Hc Hs. apply agrees_probe; [|done..]. cbn. rewrite (oracle_path p Hp Hnd m _ br); [|done..]. unfold branchEgressIP. by rewrite (ok_local p Hor br Hbr).
Qed.

Lemma kernelSighup_reloading br sc : List.find destined (pt_Routes p) = Some br → kernelSighupScenario n sp p br = Some sc → reloading p sc.
Proof.
  intros (k & Hk & Hd & Hfirst)%find_inv H m Hdown Hun. pose proof (list_elem_of_lookup_2 _ _ _ Hk) as Hbr. unfold kernelSighupScenario in H.
  destruct (defaultBranch p) as [def|] eqn:Hdef; [|done]. destruct (_ =? ""); [done|]. destruct (_ || _); [done|]. injection H as <-. cbn [sn_Steps].
  split; [|by apply reload_run]. unfold reloadSteps.
  unfold defaultBranch in Hdef. apply find_inv in Hdef as (i & Hi & Hw & _). pose proof (list_elem_of_lookup_2 _ _ _ Hi) as Hdef.
  apply kernelProbe_agrees; [done| |].
  { apply kernel_chosen; [done..|]. left. by destruct (b_When def). }
  rewrite agrees_reload, agrees_sleep. apply kernelProbe_agrees; [done| |done]. apply (find_first _ _ k); [done| |].
  - apply (kernel_holds _ _ _ _ Hbr). split.
    + unfold sourced, destined in *. destruct (b_When br); [done|]. apply String.eqb_eq in Hd. by rewrite Hd.
    + intros _. right. split; [done|]. cbn [ms_loaded]. apply elem_of_union_l, elem_of_filter. split; [done|]. set_solver.
  - intros j b Hlt Hj. apply (kernel_aside _ _ _ k j br b); [done..| |by left]. rewrite (Hfirst j b Hlt Hj). done.
Qed.

Lemma kernelScenarios_shape : ∃ out last, kernelScenarios n sp p kind = (out ++ last)%list ∧ Forall (steady p) out ∧ (last = [] ∨ ∃ sc, last = [sc] ∧ reloading p sc).
Proof.
  unfold kernelScenarios. pose proof (kernel_shape p (pt_Routes p)) as [H1 H2]. cbn zeta in H1, H2. destruct (fold_left _ _ _) as [out g]. cbn [fst snd] in H1, H2. subst g.
  eexists out, _. split; [done|]. split.
  - apply Forall_forall. intros sc Hsc m _ Hun. destruct (H1 sc Hsc) as (br & dst & src & Hbr & Hc & ->). split; [|done].
    apply kernelProbe_agrees; [done|by apply kernel_chosen|done].
  - destruct (List.find destined (pt_Routes p)) as [br|] eqn:Hf; [|by left]. cbn.
    destruct (kernelSighupScenario n sp p br) as [sc|] eqn:Hs; [|by left]. right. exists sc. split; [done|]. by eapply kernelSighup_reloading.
Qed.
End kernel.

(** ** A whole run *)

(** The steps of the scenarios selected. *)
Definition stepsOf (f : Scenario → bool) (scs : list Scenario) : list Step := concat (map sn_Steps (List.filter f scs)).

Lemma stepsOf_app f a b : stepsOf f (a ++ b) = (stepsOf f a ++ stepsOf f b)%list.
Proof. unfold stepsOf. by rewrite List.filter_app, map_app, concat_app. Qed.

(** The scenarios of a path come steady first, then at most one that reloads. *)
Definition block_ok (b : Path * list Scenario) : Prop :=
  ∃ out last, b.2 = (out ++ last)%list ∧ Forall (steady b.1) out ∧ (last = [] ∨ ∃ sc, last = [sc] ∧ reloading b.1 sc).

Lemma steady_run p scs f m : Forall (steady p) scs → ms_down m = ∅ → unread m p → agrees m (stepsOf f scs) = true ∧ run m (stepsOf f scs) = m.
Proof.
  intros Hs Hd Hu. induction Hs as [|sc scs Hsc _ [IH1 IH2]]; [done|]. unfold stepsOf in *. cbn [List.filter]. destruct (f sc); [|done]. cbn [map concat].
  destruct (Hsc m Hd Hu) as [H1 H2]. by rewrite agrees_app, run_app, H1, H2, IH1, IH2.
Qed.

Lemma block_run b f m : block_ok b → ms_down m = ∅ → unread m b.1 →
  agrees m (stepsOf f b.2) = true ∧ ms_down (run m (stepsOf f b.2)) = ∅ ∧
  ∀ q, container q ≠ container b.1 → unread m q → unread (run m (stepsOf f b.2)) q.
Proof.
  intros (out & last & -> & Hout & Hlast) Hd Hu. destruct (steady_run _ _ f m Hout Hd Hu) as [H1 H2]. rewrite stepsOf_app, agrees_app, run_app, H1, H2. cbn [andb].
  destruct Hlast as [->|(sc & -> & Hsc)]; [done|]. unfold stepsOf. cbn [List.filter]. destruct (f sc); cbn [map concat]; [|done]. rewrite app_nil_r. by apply Hsc.
Qed.

(** Blocks in a sequence: one that may reload is followed by none of its origin. *)
Fixpoint in_sequence (bs : list (Path * list Scenario)) : Prop :=
  match bs with
  | [] => True
  | b :: bs' => block_ok b ∧ (Forall (steady b.1) b.2 ∨ ∀ b', b' ∈ bs' → b'.2 = [] ∨ container b'.1 ≠ container b.1) ∧ in_sequence bs'
  end.

Lemma blocks_run f bs m : in_sequence bs → ms_down m = ∅ → (∀ b, b ∈ bs → b.2 = [] ∨ unread m b.1) →
  agrees m (stepsOf f (concat (map snd bs))) = true.
Proof.
  revert m. induction bs as [|b bs IH]; intros m; [done|]. cbn [in_sequence map concat]. intros (Hb & Hrest & Hbs) Hd Hu. rewrite stepsOf_app, agrees_app.
  destruct (Hu b (list_elem_of_here _ _)) as [He|Hub].
  - rewrite He. cbn [andb stepsOf List.filter map concat run fold_left agrees]. apply IH; [done..|]. intros b' Hb'. apply Hu. by right.
  - destruct (block_run b f m Hb Hd Hub) as (H1 & H2 & H3). rewrite H1. cbn [andb]. destruct Hrest as [Hst|Hne].
    + destruct (steady_run _ _ f m Hst Hd Hub) as [_ ->]. apply IH; [done..|]. intros b' Hb'. apply Hu. by right.
    + apply IH; [done..|]. intros b' Hb'. destruct (Hu b') as [?|Hu']; [by right|by left|]. destruct (Hne b' Hb') as [?|Hc]; [by left|right]. by apply H3.
Qed.

Section matrix.
Context (Hnd : NoDup (map container (w_Paths n))) (Hnames : NoDup (map pt_Node (w_Paths n))) (Hiran : sm_IranDst sp = iranDst) (Hdst : sm_WorldDst sp ≠ sm_IranDst sp).
Context (Hown : ∀ tok, covers tok (cutSlash tok) = true).
Context (Hor : ∀ p, p ∈ w_Paths n → if kernelOrigin n p then orderly_kernel p else orderly p).

Lemma path_block p : p ∈ w_Paths n → block_ok (p, pathScenarios n sp p) ∧ (kernelOrigin n p = false → Forall (steady p) (pathScenarios n sp p)).
Proof.
  intros Hp. specialize (Hor p Hp). unfold pathScenarios. destruct (kernelOrigin n p); [split; [by apply kernelScenarios_shape|done]|].
  assert (Forall (steady p) (imap (branchScenario n sp kind p) (pt_Routes p))) as Hst.
  { apply Forall_forall. intros sc (i & br & -> & Hbr)%elem_of_lookup_imap. by apply branchScenario_steady. }
  split; [|done]. eexists _, []. rewrite app_nil_r. split; [done|]. split; [done|by left].
Qed.

Lemma reload_block p : p ∈ w_Paths n → block_ok (p, reloadScenario n sp p) ∧ (kernelOrigin n p = true → reloadScenario n sp p = []).
Proof.
  intros Hp. specialize (Hor p Hp). unfold reloadScenario. destruct (kernelOrigin n p); [split; [exists [], []; split_and!; [done..|by left]|done]|]. split; [|done].
  destruct (List.find _ _) as [br|] eqn:Hf; [|exists [], []; split_and!; [done..|by left]].
  destruct (sighupScenario n sp p br kind) as [sc|] eqn:Hs; [|exists [], []; split_and!; [done..|by left]].
  exists [], [sc]. split_and!; [done..|right]. exists sc. split; [done|]. by eapply sighup_reloading.
Qed.

Lemma container_inj p q : p ∈ w_Paths n → q ∈ w_Paths n → container p = container q → p = q.
Proof.
  intros [i Hi]%list_elem_of_lookup [j Hj]%list_elem_of_lookup He. assert (i = j) as ->; [|congruence].
  eapply NoDup_lookup; [exact Hnd| |]; rewrite list_lookup_fmap; [by rewrite Hi|rewrite Hj]. cbn. by rewrite He.
Qed.

Lemma reloads_in_sequence ps : NoDup ps → ps ⊆ w_Paths n → in_sequence (map (λ p, (p, reloadScenario n sp p)) ps).
Proof.
  induction ps as [|p ps IH]; intros Hps Hsub; [done|]. apply NoDup_cons in Hps as [Hp Hps]. assert (p ∈ w_Paths n) as Hin by (apply Hsub; left).
  cbn [map in_sequence]. split; [by apply reload_block|]. split; [|apply IH; [done|]; intros q Hq; apply Hsub; by right].
  right. intros b (q & -> & Hq)%list_elem_of_fmap. right. cbn. intros He. apply container_inj in He; [by subst|apply Hsub; by right|done].
Qed.

Lemma paths_in_sequence ps : NoDup ps → ps ⊆ w_Paths n →
  in_sequence (map (λ p, (p, pathScenarios n sp p)) ps ++ map (λ p, (p, reloadScenario n sp p)) (w_Paths n)).
Proof.
  induction ps as [|p ps IH]; intros Hps Hsub; [apply reloads_in_sequence; [by apply NoDup_fmap_1 in Hnd|done]|].
  apply NoDup_cons in Hps as [Hp Hps]. assert (p ∈ w_Paths n) as Hin by (apply Hsub; left). destruct (path_block p Hin) as [Hb Hst].
  cbn [map app in_sequence]. split; [done|]. split; [|apply IH; [done|]; intros q Hq; apply Hsub; by right].
  destruct (kernelOrigin n p) eqn:Hk; [right|left; by apply Hst]. intros b [(q & -> & Hq)%list_elem_of_fmap|(q & -> & Hq)%list_elem_of_fmap]%elem_of_app; cbn.
  - right. intros He. apply container_inj in He; [by subst|apply Hsub; by right|done].
  - destruct (decide (container q = container p)) as [He|]; [|by right]. apply container_inj in He as ->; [|done..]. left. by apply reload_block.
Qed.

Lemma matrix_agrees f : agrees fresh (stepsOf f (Scenarios n sp)) = true.
Proof.
  assert (Scenarios n sp = concat (map snd (map (λ p, (p, pathScenarios n sp p)) (w_Paths n) ++ map (λ p, (p, reloadScenario n sp p)) (w_Paths n)))) as ->.
  { unfold Scenarios. by rewrite map_app, concat_app, !map_map. }
  apply blocks_run; [|done|].
  - apply paths_in_sequence; [by apply NoDup_fmap_1 in Hnd|done].
  - intros b _. right. intros file. cbn. apply not_elem_of_empty.
Qed.
End matrix.
End oracle.

(** ** Theorems *)

Lemma Plan_dests marshal mustJSON publicKey visit n opts sp : Plan marshal mustJSON publicKey visit n opts = Ok sp → sm_WorldDst sp = worldDst ∧ sm_IranDst sp = iranDst.
Proof.
  unfold Plan. intros (nodes & _ & H)%res_bind_ok. apply Config.check_ok in H as [_ H]. apply res_bind_ok in H as (s & _ & H).
  apply res_bind_ok in H as (cs & _ & H). apply res_bind_ok in H as (d & _ & H). apply res_bind_ok in H as (legs & _ & H).
  destruct (warpKeys publicKey "hub"). apply res_bind_ok in H as (st & _ & H). apply res_bind_ok in H as (cl & _ & H). by injection H as <-.
Qed.

Lemma plan_containers marshal mustJSON publicKey visit n opts sp : Plan marshal mustJSON publicKey visit n opts = Ok sp →
  ∀ name, is_Some (w_Nodes n !! name) → at_ (sm_nodeContainer sp) name = name.
Proof.
  intros Hplan name Hname. unfold Plan in Hplan. apply res_bind_ok in Hplan as (nodes & Hc & H). apply Config.check_ok in H as [_ H]. apply res_bind_ok in H as (s & _ & H).
  apply res_bind_ok in H as (cs & _ & H). apply res_bind_ok in H as (d & _ & H). apply res_bind_ok in H as (legs & _ & H).
  destruct (warpKeys publicKey "hub"). apply res_bind_ok in H as (st & Hst & H). apply res_bind_ok in H as (cl & _ & H). injection H as <-. cbn [sm_nodeContainer].
  assert (ss_nodeContainer st !! name = Some name) as Hl; [|unfold at_; by rewrite Hl].
  refine (Config.rangeM_reaches _ (λ nm s, ss_nodeContainer s !! nm = Some nm) _ _ _ _ _ Hst name _).
  - intros s0 nm s1 _ ->%nodeStep_nodeContainer. apply lookup_insert_eq.
  - intros s0 nm s1 nm' _ ->%nodeStep_nodeContainer Hq. destruct (decide (nm = nm')) as [->|Hne]; [apply lookup_insert_eq|]. by rewrite lookup_insert_ne.
  - apply sortedKeys_in. apply elem_of_dom. rewrite (compiled_dom n nodes Hc). by apply elem_of_dom.
Qed.

Lemma plan_agrees marshal mustJSON publicKey visit covers n0 n opts sp :
  Schema.validate n0 = Ok n → Plan marshal mustJSON publicKey visit n opts = Ok sp → (∀ tok, covers tok (cutSlash tok) = true) →
  (∀ p, p ∈ w_Paths n → if kernelOrigin n p then orderly_kernel n sp covers p else orderly n sp p) →
  ∀ select, agrees n sp covers fresh (stepsOf select (Scenarios n sp)) = true.
Proof.
  intros Hval Hplan Hown Hor select. destruct (Plan_dests _ _ _ _ _ _ _ Hplan) as [Hw Hi]. destruct (Checked.validate_inferred _ _ Hval) as [_ Hck].
  pose proof (Checked.ck_paths _ _ Hck) as Hnd. apply matrix_agrees; [|done..|by rewrite Hw, Hi|done|done].
  assert (map (container sp) (w_Paths n) = map pt_Node (w_Paths n)) as ->; [|done]. apply map_ext_in. intros p Hp%list_elem_of_In.
  eapply plan_containers; [exact Hplan|]. by apply (Checked.ck_origins _ _ Hck).
Qed.

(** Claim C16.  The test matrix tests what the schema says, for the schemas it can
    tell apart: on every userspace path the branches on the destination come first
    and read one generated file each, a branch before another is guarded or on the
    destination, every other guard is a healthcheck of the branch's own gateway, no
    two guarded branches share a gateway and some branch is not on the destination
    ([orderly]); on every kernel path each branch has at most one condition, sources
    first and apart, at most one on the destination, with a generated file, the rest
    last ([orderly_kernel]).  Validation asks for none of this, and for a valid
    schema outside it the matrix can expect the wrong branch
    ([disorderly_mismatch]).  For a plan of such a schema, run any selection of its
    scenarios one after the other on a fresh mesh: every probe expects the address of
    the egress of the branch that its origin takes at that moment, with the gateways
    paused then down and with the prefixes appended and reloaded until then in force. *)
Theorem scenarios_sound marshal mustJSON publicKey visit covers n0 n opts sp :
  Schema.validate n0 = Ok n → Plan marshal mustJSON publicKey visit n opts = Ok sp → (∀ tok, covers tok (cutSlash tok) = true) →
  (∀ p, p ∈ w_Paths n → if kernelOrigin n p then orderly_kernel n sp covers p else orderly n sp p) →
  ∀ select, agrees n sp covers fresh (stepsOf select (Scenarios n sp)) = true.
Proof. apply plan_agrees. Qed.

(** The steps of a given list, one by one. *)
Ltac each_step H := repeat (apply elem_of_cons in H as [->|H]; [done|]); by apply elem_of_nil in H.

(** Steps that pause nothing. *)
Definition quiet (sts : list Step) : Prop := ∀ st, st ∈ sts → st_Op st ≠ OpPause.

Lemma steps_up sp m sts : quiet sts → ms_down m = ∅ → ms_down (run sp m sts) = ∅.
Proof.
  revert m. induction sts as [|st sts IH]; intros m Hn Hm; [done|]. cbn. apply IH; [intros st' Hst'; apply Hn; by right|].
  specialize (Hn st (list_elem_of_here _ _)). unfold act. destruct (st_Op st); cbn; try done; [rewrite Hm; set_solver|by destruct (_ =? _)..].
Qed.

Lemma reload_quiet sp b a ctr f : quiet (reloadSteps sp b a ctr f).
Proof. intros st Hst. unfold reloadSteps in Hst. each_step Hst. Qed.

Lemma sighup_quiet n sp p br kind sc : sighupScenario n sp p br kind = Some sc → quiet (sn_Steps sc).
Proof. unfold sighupScenario. cbn zeta. destruct (_ || _); [done|]. intros [= <-]. apply reload_quiet. Qed.

Lemma kernel_quiet n sp p sc : sc ∈ kernelScenarios n sp p (condKind n) → quiet (sn_Steps sc).
Proof.
  unfold kernelScenarios. pose proof (kernel_shape n sp p (pt_Routes p)) as [H1 _]. cbn zeta in H1. destruct (fold_left _ _ _) as [out g]. cbn [fst] in H1.
  intros [Hsc|Hsc]%elem_of_app.
  - destruct (H1 sc Hsc) as (br & dst & src & _ & _ & ->). intros st Hst. each_step Hst.
  - destruct g as [br|]; [|by apply elem_of_nil in Hsc]. cbn in Hsc. unfold kernelSighupScenario in Hsc. destruct (defaultBranch p); [|by apply elem_of_nil in Hsc].
    destruct (_ =? ""); [by apply elem_of_nil in Hsc|]. cbn zeta in Hsc. destruct (_ || _); [by apply elem_of_nil in Hsc|].
    apply list_elem_of_singleton in Hsc as ->. apply reload_quiet.
Qed.

Lemma branchScenario_up n sp p i br : ms_down (run sp fresh (sn_Steps (branchScenario n sp (condKind n) p i br))) = ∅.
Proof.
  unfold branchScenario. destruct (pauseGWs _ _) as [|g gs]; [done|]. cbn [sn_Steps failoverScenario]. rewrite run_app, run_pauses.
  rewrite run_app. cbn [run fold_left act st_Op sleepStep probeStep]. fold (run sp). rewrite run_app, run_unpauses. cbn. set_solver.
Qed.

Lemma branchScenario_pauses n sp p i br st : st ∈ sn_Steps (branchScenario n sp (condKind n) p i br) → st_Op st = OpPause →
  ∃ b, b ∈ pt_Routes p ∧ b_Gateway b = st_Target st ∧ hasHealthcheck (b_When b) (condKind n) = true.
Proof.
  unfold branchScenario. intros Hst Hop. destruct (pauseGWs _ _) as [|g gs] eqn:Hg; [by apply list_elem_of_singleton in Hst as ->|].
  rewrite <- Hg in Hst. cbn [sn_Steps failoverScenario] in Hst. rewrite !elem_of_app in Hst. destruct Hst as [Hst|[Hst|[Hst|Hst]]].
  - apply list_elem_of_fmap in Hst as (gw & -> & (b & Hb & Hgb & <- & _)%pauseGWs_in). exists b. split; [|done].
    apply list_elem_of_lookup in Hb as [j Hj]. apply lookup_take_Some in Hj as [Hj _]. by eapply list_elem_of_lookup_2.
  - revert Hop. each_step Hst.
  - by apply list_elem_of_fmap in Hst as (gw & -> & _).
  - revert Hop. each_step Hst.
Qed.

(** The test matrix is reversible: run to its end, a scenario leaves no
    container paused, and the containers it pauses are gateways that branches of the
    schema's paths check the health of. *)
Theorem scenarios_reversible n sp sc :
  sc ∈ Scenarios n sp →
  ms_down (run sp fresh (sn_Steps sc)) = ∅ ∧
  ∀ st, st ∈ sn_Steps sc → st_Op st = OpPause →
    ∃ p br, p ∈ w_Paths n ∧ br ∈ pt_Routes p ∧ b_Gateway br = st_Target st ∧ hasHealthcheck (b_When br) (condKind n) = true.
Proof.
  assert (∀ (sc : Scenario) (P : Step → Prop), quiet (sn_Steps sc) → ms_down (run sp fresh (sn_Steps sc)) = ∅ ∧ ∀ st, st ∈ sn_Steps sc → st_Op st = OpPause → P st) as Hquiet.
  { intros sc' P Hq. split; [by apply steps_up|]. intros st Hst Hop. by apply Hq in Hst. }
  unfold Scenarios. rewrite list_elem_of_In, in_app_iff, !in_concat. setoid_rewrite in_map_iff. setoid_rewrite <- list_elem_of_In.
  intros [(? & (p & <- & Hp) & Hsc)|(? & (p & <- & Hp) & Hsc)].
  - unfold pathScenarios in Hsc. destruct (kernelOrigin n p); [by apply Hquiet; eapply kernel_quiet|].
    apply elem_of_lookup_imap in Hsc as (i & br & -> & Hbr). split; [apply branchScenario_up|]. intros st Hst Hop.
    apply (branchScenario_pauses n sp p i br st Hst) in Hop as (b & Hb & H1 & H2). exists p, b. split; [done|]. by split_and!.
  - apply Hquiet. unfold reloadScenario in Hsc. destruct (kernelOrigin n p); [by apply elem_of_nil in Hsc|]. destruct (List.find _ _) as [br|]; [|by apply elem_of_nil in Hsc].
    destruct (sighupScenario n sp p br (condKind n)) as [sc'|] eqn:Hs; [|by apply elem_of_nil in Hsc]. apply list_elem_of_singleton in Hsc as ->. eapply sighup_quiet. exact Hs.
Qed.

(** ** A network with a fallback *)

Definition testNet : Network :=
  MkNetwork "secret" 1400 "10.9.0.0/24" None 0 0 "" 0 0
    {["p" := MkProtocol "udp" "" false "" "" "" "" "" ∅]}
    (<["ir" := MkCond (Some (Config.MkIPSet "ir.txt" [] 0)) None None]>
     {["alive" := MkCond None None (Some (MkHealth "main" "G1" "" 0 0 0))]})
    (<["A" := MkNode "" "" {["t" := demoConn; "wan" := demoIface]} {["direct" := demoEgress]} "" None]>
     (<["G1" := MkNode "192.0.2.3" "" {["wan" := demoIface]} {["net" := demoEgress]} "" None]>
     {["G2" := MkNode "192.0.2.4" "" {["wan" := demoIface]} {["net" := demoEgress]} "" None]}))
    [demoLink "ag1" "A" "G1" 1002; demoLink "ag2" "A" "G2" 1003; demoDown "g1a" "A" "G1" "t" 1004; demoDown "g2a" "A" "G2" "" 1005]
    [MkPath "main" "A" [MkBranch ["ir"] "direct" [] [] ""; MkBranch ["alive"] "net" ["ag1"] ["g1a"] ""; MkBranch [] "net" ["ag2"] ["g2a"] ""]]
    ∅.
Definition testInferred : Network := match Schema.validate testNet with Ok n => n | Err _ => testNet end.
Definition testSim : SimPlan := match demoPlan testInferred with Ok p => p | Err _ => MkSimPlan "" [] [] "" "" "" ∅ ∅ ∅ ∅ ∅ ∅ false end.
Definition testBranch (i : nat) : Branch := nth i (concat (map pt_Routes (w_Paths testInferred))) noBranch.

Lemma testSim_ok : demoPlan testInferred = Ok testSim.
Proof. vm_compute. reflexivity. Qed.

Lemma testPath_eq : w_Paths testInferred = [MkPath "main" "A" [testBranch 0; testBranch 1; testBranch 2]].
Proof. vm_compute. reflexivity. Qed.

Lemma order3 {A} (P : A → A → Prop) a b c :
  P b a → P c a → P c b → ∀ i j x y, [a; b; c] !! i = Some x → [a; b; c] !! j = Some y → (j < i)%nat → P x y.
Proof. intros ? ? ? [|[|[|i]]] [|[|j]] x y Hx Hy Hlt; cbn in Hx, Hy; try lia; by simplify_eq. Qed.

Lemma testPath_orderly p : p ∈ w_Paths testInferred → kernelOrigin testInferred p = false ∧ orderly testInferred testSim p.
Proof.
  rewrite testPath_eq. intros ->%list_elem_of_singleton. split; [vm_compute; reflexivity|]. split; cbn [pt_Routes OriginNode pt_Node].
  - intros br Hbr c. repeat (apply elem_of_cons in Hbr as [->|Hbr]); [..|by apply elem_of_nil in Hbr]; [change (b_When (testBranch 0)) with ["ir"]|change (b_When (testBranch 1)) with ["alive"]|by intros ?%elem_of_nil];
      intros ->%list_elem_of_singleton; eexists; (split; [vm_compute; reflexivity|]); cbn.
    + left. split; [by eexists|]. vm_compute. discriminate.
    + right. split; [done|]. split; [done|]. eexists. split; [done|]. split; vm_compute; done.
  - apply (order3 (λ bi bj, (_ ∨ _) ∧ (_ → _) ∧ (_ → _ → b_Gateway bi ≠ b_Gateway bj)));
      (split; [first [left; vm_compute; reflexivity|right; split; vm_compute; reflexivity]|]); split; vm_compute; done.
  - intros br c c' Hbr Hc Hc'. assert (∃ w, b_When br ⊆ [w]) as [w Hw].
    { repeat (apply elem_of_cons in Hbr as [->|Hbr]); [..|by apply elem_of_nil in Hbr]; [exists "ir"|exists "alive"|exists ""]; vm_compute; done || set_solver. }
    apply Hw, list_elem_of_singleton in Hc as ->. by apply Hw, list_elem_of_singleton in Hc' as ->.
  - exists (testBranch 2). split; [do 2 right; left|vm_compute; reflexivity].
Qed.

Definition ownAddress (tok src : string) : bool := cutSlash tok =? src.

Lemma scenarios_sound_witness :
  length (Scenarios testInferred testSim) = 4%nat ∧ agrees testInferred testSim ownAddress fresh (stepsOf (λ _, true) (Scenarios testInferred testSim)) = true.
Proof.
  split; [vm_compute; reflexivity|]. pose proof testSim_ok as Hplan. unfold demoPlan in Hplan.
  refine (scenarios_sound _ _ _ _ ownAddress testNet testInferred _ _ _ Hplan _ _ (λ _, true)).
  - vm_compute. reflexivity.
  - intros tok. apply String.eqb_refl.
  - intros p Hp. destruct (testPath_orderly p Hp) as [-> H]. exact H.
Defined.

(** The same branches with the guarded one first: the schema is valid, but a probe
    of the listed destination finds the guarded branch and the matrix expects the
    one on the destination. *)
Definition disorderlyNet : Network := setPaths testNet
  [MkPath "main" "A" [MkBranch ["alive"] "net" ["ag1"] ["g1a"] ""; MkBranch ["ir"] "direct" [] [] ""; MkBranch [] "net" ["ag2"] ["g2a"] ""]].
Definition disorderlyInferred : Network := match Schema.validate disorderlyNet with Ok n => n | Err _ => disorderlyNet end.
Definition disorderlySim : SimPlan := match demoPlan disorderlyInferred with Ok p => p | Err _ => testSim end.
Example disorderly_mismatch :
  is_ok (Schema.validate disorderlyNet) = true ∧ is_ok (demoPlan disorderlyInferred) = true ∧
  agrees disorderlyInferred disorderlySim ownAddress fresh (stepsOf (λ _, true) (Scenarios disorderlyInferred disorderlySim)) = false.
Proof. repeat split; vm_compute; reflexivity. Qed.

Definition failoverSteps : list Step := sn_Steps (nth 2 (Scenarios testInferred testSim) (MkScenario "" [])).

Lemma scenarios_reversible_witness :
  ms_down (run testSim fresh (take 1 failoverSteps)) = {["G1"]} ∧ ms_down (run testSim fresh failoverSteps) = ∅.
Proof.
  split; [vm_compute; reflexivity|]. refine (proj1 (scenarios_reversible testInferred testSim (nth 2 (Scenarios testInferred testSim) (MkScenario "" [])) _)).
  apply list_elem_of_In, nth_In. vm_compute. lia.
Defined.
