(* ===== verification/Engine.v ===== *)
(** * internal/netsim/engine.go: running a plan against a driver

    The driver is an interface: a class of operations on a world, each of which may
    fail.  The world also holds the clock, the context ([sleepFor] fails when it is
    cancelled) and the log.  Quoting for messages (fmt's %q) and the decoding of a line
    of statistics (encoding/json) are arguments.  Maps of counters are visited in the
    order of the plan's containers. *)

From S2P Require Import Prelude GoStrings Config Factory Dsl Schema Compile UnionFind SimPlan Scenario.
Local Open Scope Z_scope.
Local Open Scope string_scope.
Local Open Scope go_scope.

(** ** The driver *)

Record ExecResult := MkExec { er_ExitCode : Z; er_Stdout : string; er_Stderr : string }.

(** A call: its result and the world after it. *)
Definition call (W A : Type) : Type := W → vres A * W.

Class Driver (W : Type) := {
  Acquire : call W ();
  BuildImage : string → string → string → call W ();
  CreateNetwork : string → string → call W ();
  CreateContainer : Container → call W ();
  Start : string → call W ();
  Exec : string → list string → call W ExecResult;
  Pause : string → call W ();
  Unpause : string → call W ();
  Signal : string → string → call W ();
  Logs : string → call W string;
  Cleanup : call W ();
  sleepFor : Z → call W ();
  now : W → Z;
  logLine : string → W → W;
}.

Definition ret {W A} (a : A) : call W A := λ w, (Ok a, w).
Definition fails {W A} (e : string) : call W A := λ w, (Err e, w).
Definition andThen {W A B} (m : call W A) (k : A → call W B) : call W B :=
  λ w, match m w with (Ok a, w') => k a w' | (Err e, w') => (Err e, w') end.
Notation "'do!' x ':=' m 'in' k" := (andThen m (λ x, k)) (at level 10, x pattern, m at level 100, k at level 200) : go_scope.
(** [if err != nil { return fmt.Errorf(prefix+"%w", err) }] *)
Definition wrapped {W A} (prefix : string) (m : call W A) : call W A :=
  λ w, match m w with (Ok a, w') => (Ok a, w') | (Err e, w') => (Err (prefix +:+ e), w') end.

Fixpoint each {W A} (f : A → call W ()) (l : list A) : call W () :=
  match l with [] => ret tt | x :: l' => do! _ := f x in each f l' end.

(** ** Text *)

Definition joinChars (sep : list ascii) (ls : list (list ascii)) : list ascii :=
  match ls with [] => [] | l :: ls' => (l ++ concat (map (λ l, sep ++ l) ls'))%list end.
(** [strings.ReplaceAll] of a one-byte string. *)
Definition replaceChar (c : ascii) (by_ : string) (s : string) : string := unchars (joinChars (chars by_) (splitOn c (chars s))).

Definition newline : ascii := ascii_of_nat 10.
Definition trim (s : string) : string := unchars (trimSpace (chars s)).
Definition lines (s : string) : list string := map unchars (splitOn newline (chars s)).

Definition oneLine (s : string) : string := replaceChar newline " | " (trim s).
Definition quoteChar : ascii := ascii_of_nat 39.
Definition quoteMark : string := String quoteChar EmptyString.
Definition shellQuote (s : string) : string :=
  quoteMark +:+ replaceChar quoteChar (quoteMark +:+ String (ascii_of_nat 92) quoteMark +:+ quoteMark) s +:+ quoteMark.

Fixpoint stripPrefix (p l : list ascii) : option (list ascii) :=
  match p, l with
  | [], _ => Some l
  | a :: p', b :: l' => if bool_decide (a = b) then stripPrefix p' l' else None
  | _ :: _, [] => None
  end.
Fixpoint containsFrom (p l : list ascii) : bool :=
  match stripPrefix p l with
  | Some _ => true
  | None => match l with [] => false | _ :: l' => containsFrom p l' end
  end.
(** [strings.Contains]. *)
Definition contains (s sub : string) : bool := containsFrom (chars sub) (chars s).

Fixpoint parseSrcLines (out : string) (ls : list string) : string :=
  match ls with
  | [] => trim out
  | l :: ls' => match stripPrefix (chars "src=") (chars (trim l)) with Some r => unchars r | None => parseSrcLines out ls' end
  end.
Definition parseSrc (out : string) : string := parseSrcLines out (lines out).

Fixpoint digitsOf (l : list ascii) : list ascii :=
  match l with c :: l' => match digitOf c with Some _ => c :: digitsOf l' | None => [] end | [] => [] end.
(** The first group of the first match of [debugTunPort]. *)
Fixpoint findPort (l : list ascii) : option string :=
  match l with
  | [] => None
  | _ :: l' =>
      match stripPrefix (chars "listening on 127.0.0.1:") l with
      | Some r => match digitsOf r with [] => findPort l' | ds => Some (unchars ds) end
      | None => findPort l'
      end
  end.

(** [Duration.String]. *)
Fixpoint padDigits (prec : nat) (v : Z) : list ascii :=
  match prec with O => [] | S k => (padDigits k (v / 10) ++ [ascii_of_nat (Z.to_nat (48 + v mod 10))])%list end.
Fixpoint dropZeros (l : list ascii) : list ascii :=
  match l with c :: l' => if bool_decide (c = "0"%char) then dropZeros l' else l | [] => [] end.
Definition fmtFrac (v : Z) (prec : nat) : string :=
  match rev (dropZeros (rev (padDigits prec (v mod 10 ^ Z.of_nat prec)))) with [] => "" | ds => "." +:+ unchars ds end.
Definition micro : string := String (ascii_of_nat 194) (String (ascii_of_nat 181) EmptyString).
Definition durationString (d : Z) : string :=
  let u := Z.abs d in
  let text :=
    if (u <? second)%Z then
      if (u =? 0)%Z then "0s"
      else if (u <? 1000)%Z then Itoa u +:+ "ns"
      else if (u <? 1000000)%Z then Itoa (u / 1000) +:+ fmtFrac u 3 +:+ micro +:+ "s"
      else Itoa (u / 1000000) +:+ fmtFrac u 6 +:+ "ms"
    else
      let s := u / second in
      let m := s / 60 in
      let h := m / 60 in
      (if (0 <? m)%Z then (if (0 <? h)%Z then Itoa h +:+ "h" else "") +:+ Itoa (m mod 60) +:+ "m" else "") +:+ Itoa (s mod 60) +:+ fmtFrac u 9 +:+ "s" in
  if (d <? 0)%Z then "-" +:+ text else text.

Example durations :
  durationString (3 * second) = "3s" ∧ durationString 1500000 = "1.5ms" ∧ durationString (3661 * second + 20000000) = "1h1m1.02s" ∧
  shellQuote "it's" = "'it'\''s'" ∧ parseSrc (String newline " src=10.0.0.1 ") = "10.0.0.1" ∧
  findPort (chars "x listening on 127.0.0.1:, listening on 127.0.0.1:4567 ok") = Some "4567".
Proof. vm_compute. done. Qed.

(** ** Options and reports *)

Record RunOptions := MkRunOptions {
  ro_Plan : PlanOptions;
  ro_Build : bool;
  ro_Dockerfile : string;
  ro_ContextDir : string;
  ro_Keep : bool;
  ro_Only : string;
  ro_Settle : Z;
}.

Record Result := MkResult { rs_Scenario : string; rs_Pass : bool; rs_Detail : string }.
Record drops := MkDrops { dr_NoRoute : Z; dr_Decode : Z }.

Definition Failed (rep : list Result) : Z := Z.of_nat (length (base.filter (λ r, rs_Pass r = false) rep)).

Section engine.
Context {W : Type} `{!Driver W}.
Context (quote : string → string) (unmarshal : string → option drops).
Context (sp : SimPlan).

Definition sleep (d : Z) : call W () := if (d <=? 0)%Z then ret tt else sleepFor d.

(** ** Probes *)

(** The loop that waits for the port: [deadline] is 15 seconds after its start. *)
Fixpoint portLoop (fuel : nat) (container : string) (deadline : Z) : call W string :=
  match fuel with
  | O => fails "loop does not end"
  | S fuel' => λ w,
      match Logs container w with
      | (Ok logs, w1) =>
          match findPort (chars logs) with
          | Some port => (Ok port, w1)
          | None =>
              if (deadline <? now w1)%Z then (Err "no debug-tun port in logs", w1)
              else (do! _ := sleep 300000000 in portLoop fuel' container deadline) w1
          end
      | (Err _, w1) =>
          if (deadline <? now w1)%Z then (Err "no debug-tun port in logs", w1)
          else (do! _ := sleep 300000000 in portLoop fuel' container deadline) w1
      end
  end.
Definition portFuel : nat := 52.
Definition debugTunPortOf (container : string) : call W string := λ w, portLoop portFuel container (now w + 15 * second) w.

Fixpoint lastSnapshot (ls : list string) (last : option drops) : option drops :=
  match ls with
  | [] => last
  | l :: ls' =>
      let l := trim l in
      if l =? "" then lastSnapshot ls' last
      else lastSnapshot ls' (match unmarshal l with Some s => Some s | None => last end)
  end.

(** What a reading says; a missing or unflushed one is zero. *)
Definition snapshotOf (r : vres ExecResult) : drops :=
  match r with
  | Ok r => if (er_ExitCode r =? 0)%Z then default (MkDrops 0 0) (lastSnapshot (lines (er_Stdout r)) None) else MkDrops 0 0
  | Err _ => MkDrops 0 0
  end.

Definition isNode (c : Container) : bool := match ct_Role c with RoleNode => true | _ => false end.

(** Each node's counters, in the order of the plan. *)
Fixpoint readDropsOf (cs : list Container) (w : W) : list (string * drops) * W :=
  match cs with
  | [] => ([], w)
  | c :: cs' =>
      if isNode c then
        let '(r, w1) := Exec (ct_Name c) ["cat"; statsPath] w in
        let '(rest, w2) := readDropsOf cs' w1 in ((ct_Name c, snapshotOf r) :: rest, w2)
      else readDropsOf cs' w
  end.
Definition readDrops (w : W) : list (string * drops) * W := readDropsOf (sm_Containers sp) w.

Definition dropsOf (m : list (string * drops)) (name : string) : drops :=
  default (MkDrops 0 0) (snd <$> List.find (λ kv, kv.1 =? name) m).

Definition utoa (n : Z) : string := unchars (itoaFrom 20 n).

(** The first node whose counters moved; differences are of uint64s. *)
Fixpoint leakOf (baseline after : list (string * drops)) : string :=
  match after with
  | [] => ""
  | (name, a) :: after' =>
      let b := dropsOf baseline name in
      let dn := (dr_NoRoute a - dr_NoRoute b) mod 2 ^ 64 in
      let dd := (dr_Decode a - dr_Decode b) mod 2 ^ 64 in
      if negb (dn =? 0)%Z then name +:+ " leaked " +:+ utoa dn +:+ " packet(s) to no route during the flow"
      else if negb (dd =? 0)%Z then name +:+ " failed to decode " +:+ utoa dd +:+ " packet(s) during the flow"
      else leakOf baseline after'
  end.

(** The client or the node itself that fetches over HTTP, and its command. *)
Definition httpTarget (p : ProbeStep) : vres (string * list string) :=
  let container := at_ (sm_lanClient sp) (pb_Node p) in
  let container := if (container =? "") && default false (sm_selfCapture sp !! pb_Node p) then at_ (sm_nodeContainer sp) (pb_Node p) else container in
  if container =? "" then Err ("node " +:+ pb_Node p +:+ " has no LAN client or self-capture origin to probe from")
  else Ok (container, ["sim"; "probe"; "http"; "-url"; "http://" +:+ pb_Dst p +:+ "/"] ++
    (if negb (pb_SrcIP p =? "") then ["-src-ip"; pb_SrcIP p] else []))%list.

(** Where a probe runs, and its command; the failure otherwise. *)
Definition probeTarget (p : ProbeStep) : call W (string * list string) :=
  if pb_Inject p then
    let container := at_ (sm_nodeContainer sp) (pb_Node p) in
    do! port := wrapped ("find debug-tun port on " +:+ container +:+ ": ") (debugTunPortOf container) in
    ret (container, ["sim"; "probe"; "inject"; "-tun"; "127.0.0.1:" +:+ port; "-src"; pb_Src p; "-dst"; pb_Dst p])
  else λ w, (httpTarget p, w).

Definition probeArgs (p : ProbeStep) (cmd : list string) : list string :=
  (cmd ++ (if negb (pb_ExpectSrc p =? "") then ["-expect-src"; pb_ExpectSrc p] else [])
       ++ (if (0 <? pb_Hold p)%Z then ["-hold"; durationString (pb_Hold p)] else []))%list.

(** What the outcome of the command, and then of the counters, says; "" is success. *)
Definition judge (p : ProbeStep) (r : ExecResult) : option string :=
  if pb_ExpectFail p then
    Some (if (er_ExitCode r =? 0)%Z then "expected the flow to FAIL but it returned " +:+ quote (trim (er_Stdout r)) else "")
  else if negb (er_ExitCode r =? 0)%Z then Some ("probe failed (exit " +:+ Itoa (er_ExitCode r) +:+ "): " +:+ oneLine (er_Stderr r))
  else if negb (pb_ExpectSrc p =? "") && negb (parseSrc (er_Stdout r) =? pb_ExpectSrc p) then
    Some ("egress source = " +:+ quote (parseSrc (er_Stdout r)) +:+ ", want " +:+ quote (pb_ExpectSrc p) +:+ " (wrong path)")
  else None.

Definition runProbe (p : ProbeStep) (w : W) : string * W :=
  match probeTarget p w with
  | (Err e, w1) => (e, w1)
  | (Ok (container, cmd), w1) =>
      let '(baseline, w2) := if pb_CheckNoDrops p then readDrops w1 else ([], w1) in
      match Exec container (probeArgs p cmd) w2 with
      | (Err e, w3) => ("probe exec on " +:+ container +:+ ": " +:+ e, w3)
      | (Ok r, w3) =>
          match judge p r with
          | Some verdict => (verdict, w3)
          | None =>
              if pb_CheckNoDrops p then
                match sleep second w3 with
                | (Err e, w4) => (e, w4)
                | (Ok _, w4) => let '(after, w5) := readDrops w4 in (leakOf baseline after, w5)
                end
              else ("", w3)
          end
      end
  end.

(** ** Scenarios *)

(** One step: [None] to go on, else the detail of the failure. *)
Definition runStep (st : Step) (w : W) : option string * W :=
  match st_Op st with
  | OpPause => match Pause (st_Target st) w with (Ok _, w') => (None, w') | (Err e, w') => (Some ("pause " +:+ st_Target st +:+ ": " +:+ e), w') end
  | OpUnpause => match Unpause (st_Target st) w with (Ok _, w') => (None, w') | (Err e, w') => (Some ("unpause " +:+ st_Target st +:+ ": " +:+ e), w') end
  | OpSignal =>
      match Signal (st_Target st) (st_Signal st) w with
      | (Ok _, w') => (None, w')
      | (Err e, w') => (Some ("signal " +:+ st_Target st +:+ " " +:+ st_Signal st +:+ ": " +:+ e), w')
      end
  | OpAppendFile =>
      let cmd := ["sh"; "-c"; "echo " +:+ shellQuote (st_Content st) +:+ " >> " +:+ shellQuote (st_File st)] in
      let failed e stderr := Some ("append to " +:+ st_File st +:+ " on " +:+ st_Target st +:+ ": " +:+ e +:+ " (" +:+ stderr +:+ ")") in
      match Exec (st_Target st) cmd w with
      | (Ok r, w') => (if (er_ExitCode r =? 0)%Z then None else failed "<nil>" (er_Stderr r), w')
      | (Err e, w') => (failed e "", w')
      end
  | OpSleep => match sleep (st_Wait st) w with (Ok _, w') => (None, w') | (Err e, w') => (Some ("sleep: " +:+ e), w') end
  | OpProbe =>
      match st_Probe st with
      | Some p => let '(d, w') := runProbe p w in (if d =? "" then None else Some d, w')
      | None => (Some "nil", w)
      end
  end.

Fixpoint runSteps (sts : list Step) (w : W) : option string * W :=
  match sts with
  | [] => (None, w)
  | st :: sts' => match runStep st w with (None, w') => runSteps sts' w' | (Some d, w') => (Some d, w') end
  end.

Definition runScenario (sc : Scenario) (w : W) : Result * W :=
  match runSteps (sn_Steps sc) w with
  | (None, w') => (MkResult (sn_Name sc) true "ok", w')
  | (Some d, w') => (MkResult (sn_Name sc) false d, w')
  end.

Definition selected (only : string) (sc : Scenario) : bool := (only =? "") || contains (sn_Name sc) only.

Fixpoint runScenarios (only : string) (scs : list Scenario) (w : W) : list Result * W :=
  match scs with
  | [] => ([], w)
  | sc :: scs' =>
      if selected only sc then
        let '(r, w') := runScenario sc (logLine ("scenario: " +:+ sn_Name sc) w) in
        let w' := logLine (if rs_Pass r then "  PASS " +:+ sn_Name sc else "  FAIL " +:+ sn_Name sc +:+ ": " +:+ rs_Detail r) w' in
        let '(rs, w'') := runScenarios only scs' w' in (r :: rs, w'')
      else runScenarios only scs' w
  end.

(** ** Runs *)

Definition ErrNoKernelWireGuard : string := "netsim: docker host kernel lacks the WireGuard module".

Definition checkKernelWireGuard (image : string) : call W () :=
  let probe := "wg-probe" in
  do! _ := wrapped "create wireguard probe: " (CreateContainer (MkContainer probe RoleClient image "" ["sim"; "idle"] [] ["NET_ADMIN"] [] [] [] ∅ false)) in
  do! _ := wrapped "start wireguard probe: " (Start probe) in
  do! r := wrapped "wireguard probe exec: " (Exec probe ["ip"; "link"; "add"; "wg-probe0"; "type"; "wireguard"]) in
  if negb (er_ExitCode r =? 0)%Z then fails (ErrNoKernelWireGuard +:+ ": " +:+ oneLine (er_Stderr r)) else ret tt.

Definition logged (s : string) : call W () := λ w, (Ok tt, logLine s w).

(** Standing the mesh up. *)
Definition standUp (settle : Z) : call W () :=
  do! _ := (if sm_NeedsWireGuard sp then
      do! _ := logged "probing host kernel for WireGuard support" in checkKernelWireGuard (sm_Image sp) else ret tt) in
  do! _ := logged ("creating " +:+ Itoa (Z.of_nat (length (sm_Fabrics sp))) +:+ " fabrics") in
  do! _ := each (λ f, wrapped ("create network " +:+ fb_Name f +:+ ": ") (CreateNetwork (fb_Name f) (fb_Subnet f))) (sm_Fabrics sp) in
  do! _ := logged ("creating " +:+ Itoa (Z.of_nat (length (sm_Containers sp))) +:+ " containers") in
  do! _ := each (λ c, wrapped ("create container " +:+ ct_Name c +:+ ": ") (CreateContainer c)) (sm_Containers sp) in
  do! _ := each (λ c, wrapped ("start container " +:+ ct_Name c +:+ ": ") (Start (ct_Name c))) (sm_Containers sp) in
  sleep settle.

(** Before the mesh: exclusive access and the image. *)
Definition prepare (opts : RunOptions) : call W () :=
  do! _ := Acquire in
  if ro_Build opts then
    let df := if ro_Dockerfile opts =? "" then "test/sim/Dockerfile" else ro_Dockerfile opts in
    let cd := if ro_ContextDir opts =? "" then "." else ro_ContextDir opts in
    do! _ := logged ("building image " +:+ sm_Image sp) in
    wrapped "build image: " (BuildImage (sm_Image sp) df cd)
  else ret tt.

Definition RunPlan (scenarios : list Scenario) (opts : RunOptions) : call W (list Result) :=
  do! _ := prepare opts in
  λ w,
    let '(r, w1) := (do! _ := standUp (ro_Settle opts) in λ w, let '(rs, w') := runScenarios (ro_Only opts) scenarios w in (Ok rs, w')) w in
    (* the deferred cleanup *)
    (r, if ro_Keep opts then w1 else (Cleanup w1).2).
End engine.

(** ** From a schema *)

Definition settled (opts : RunOptions) (plan : PlanOptions) : RunOptions :=
  MkRunOptions plan (ro_Build opts) (ro_Dockerfile opts) (ro_ContextDir opts) (ro_Keep opts) (ro_Only opts)
    (if (ro_Settle opts =? 0)%Z then 2 * second else ro_Settle opts).

Section run.
Context {W : Type} `{!Driver W}.
Context (quote : string → string) (unmarshal : string → option drops).
Context (marshal : cfg → option string) (mustJSON : Spec → string) (publicKey : list Z → list Z) (visit : unionFind → list endpoint).

Definition Run (n : Network) (opts : RunOptions) : call W (list Result) := λ w,
  match Plan marshal mustJSON publicKey visit n (ro_Plan opts) with
  | Err e => (Err e, w)
  | Ok sp => RunPlan quote unmarshal sp (Scenarios n sp) (settled opts (ro_Plan opts)) w
  end.

Definition pskMismatchWrongValue : string := "netsim-WRONG-psk-do-not-match".

(** A path whose one branch is by a gateway. *)
Definition noFallbackGatewayPath (n : Network) : option (string * Path) :=
  head (omap (λ p, match pt_Routes p with
    | [br] => if negb (b_Gateway br =? "") then Some (b_Gateway br, p) else None
    | _ => None end) (w_Paths n)).

Definition overridePSK (o : PlanOptions) (name psk : string) : PlanOptions :=
  MkPlanOptions (po_Image o) (po_PSK o) (<[name := psk]> (po_PSKOverride o)) (po_HealthcheckInterval o) (po_HealthcheckTimeout o)
    (po_HealthcheckUpGrace o) (po_StatsInterval o) (po_NetBase o).

Definition RunPSKMismatch (n : Network) (opts : RunOptions) : call W (list Result) := λ w,
  match noFallbackGatewayPath n with
  | None => (Ok [], w)
  | Some (broken, p) =>
      let plan := overridePSK (ro_Plan opts) broken pskMismatchWrongValue in
      match Plan marshal mustJSON publicKey visit n plan with
      | Err e => (Err e, w)
      | Ok sp =>
          let ps := probeFor n sp (OriginNode p) (sm_WorldDst sp) "" true false in
          RunPlan quote unmarshal sp [MkScenario ("psk-mismatch/" +:+ pt_Name p) [probeStep ps]] (settled opts plan) w
      end
  end.
End run.
