(* ===== verification/EngineFacts.v ===== *)
(** * What a run of the test matrix shows

    Against a driver whose mesh does what Oracle.v's abstract mesh does, every
    scenario of a run passes when the schema is [orderly]; against any driver, a passing probe saw what it
    expected, waiting for a port ends, and a run cleans up after itself. *)

From S2P Require Import Prelude GoStrings Config Factory Dsl Schema Compile UnionFind SimPlan Scenario Oracle Engine.
Local Open Scope Z_scope.
Local Open Scope string_scope.
Local Open Scope go_scope.

Section facts.
Context {W : Type} `{!Driver W}.
Context (quote : string → string) (unmarshal : string → option drops) (n : Network) (sp : SimPlan) (covers : string → string → bool).

Lemma portLoop_found k c deadline w logs w' port : Logs c w = (Ok logs, w') → findPort (chars logs) = Some port → portLoop (S k) c deadline w = (Ok port, w').
Proof. intros Hl Hp. cbn [portLoop]. by rewrite Hl, Hp. Qed.

(** A call that does to the mesh what a step does, and moves no counter. *)
Definition moves {A} (view : W → mesh) (counters : W → string → drops) (m : call W A) (st : option Step) (ok : A → Prop) : Prop :=
  ∀ w, ∃ a w', m w = (Ok a, w') ∧ ok a ∧ view w' = from_option (act sp (view w)) (view w) st ∧ counters w' = counters w.

(** A driver whose mesh behaves: it pauses, reads prefixes and forwards as Oracle.v's
    does, prints the source it sees, and drops nothing.  The laws are for the steps of
    a run. *)
Class Faithful (view : W → mesh) (counters : W → string → drops) (sts : list Step) : Prop := {
  ft_pause st : st ∈ sts → st_Op st = OpPause → moves view counters (Pause (st_Target st)) (Some st) (λ _, True);
  ft_unpause st : st ∈ sts → st_Op st = OpUnpause → moves view counters (Unpause (st_Target st)) (Some st) (λ _, True);
  ft_signal st : st ∈ sts → st_Op st = OpSignal → moves view counters (Signal (st_Target st) (st_Signal st)) (Some st) (λ _, True);
  ft_append st : st ∈ sts → st_Op st = OpAppendFile →
    moves view counters (Exec (st_Target st) ["sh"; "-c"; "echo " +:+ shellQuote (st_Content st) +:+ " >> " +:+ shellQuote (st_File st)]) (Some st)
      (λ r, er_ExitCode r = 0);
  ft_sleep d : moves view counters (sleepFor d) None (λ _, True);
  ft_log s w : view (logLine s w) = view w ∧ counters (logLine s w) = counters w;
  ft_logs c : moves view counters (Logs c) None (λ logs, is_Some (findPort (chars logs)));
  ft_probe st pb w0 w1 container cmd w : st ∈ sts → st_Probe st = Some pb → probeTarget sp pb w0 = (Ok (container, cmd), w1) →
    oracle n sp covers (view w) pb = Some (pb_ExpectSrc pb) →
    ∃ r w', Exec container (probeArgs pb cmd) w = (Ok r, w') ∧ er_ExitCode r = 0 ∧ parseSrc (er_Stdout r) = pb_ExpectSrc pb ∧
      view w' = view w ∧ counters w' = counters w;
  ft_stats c w : ∃ r w', Exec c ["cat"; statsPath] w = (r, w') ∧ snapshotOf unmarshal r = counters w c ∧ view w' = view w ∧ counters w' = counters w;
}.

(** The engine knows where to run the probe from. *)
Definition targetable (p : ProbeStep) : bool :=
  pb_Inject p || negb (at_ (sm_lanClient sp) (pb_Node p) =? "") ||
  (default false (sm_selfCapture sp !! pb_Node p) && negb (at_ (sm_nodeContainer sp) (pb_Node p) =? "")).

Section faithful.
Context (view : W → mesh) (counters : W → string → drops) (sts : list Step) `{!Faithful view counters sts}.

Notation same w w' := (view w' = view w ∧ counters w' = counters w).

Lemma sleep_same d w : ∃ w', sleep d w = (Ok tt, w') ∧ same w w'.
Proof.
  unfold sleep. destruct (d <=? 0)%Z; [by exists w|]. destruct (ft_sleep d w) as ([] & w' & H & _ & Hv & Hc). by exists w'.
Qed.

Lemma target_found p w : targetable p = true → ∃ container cmd w', probeTarget sp p w = (Ok (container, cmd), w') ∧ same w w'.
Proof.
  unfold targetable, probeTarget. destruct (pb_Inject p); cbn [orb].
  - intros _. set (c := at_ _ _). destruct (ft_logs c w) as (logs & w' & Hl & [port Hp] & Hv & Hc). exists c. eexists _, w'. split; [|done].
    unfold andThen, wrapped, debugTunPortOf. change portFuel with (S 51). generalize 51%nat as k. intros k. by rewrite (portLoop_found k c _ w logs w' port Hl Hp).
  - unfold httpTarget. intros H. destruct (String.eqb_spec (at_ (sm_lanClient sp) (pb_Node p)) "") as [He|He]; cbn [negb orb andb] in H |- *.
    + apply andb_true_iff in H as [-> Hn]. apply negb_true_iff in Hn. rewrite Hn. by eexists _, _, w.
    + apply String.eqb_neq in He. rewrite He. by eexists _, _, w.
Qed.

Lemma readDrops_same cs w : ∃ l w', readDropsOf unmarshal cs w = (l, w') ∧ same w w' ∧ l = map (λ c, (ct_Name c, counters w (ct_Name c))) (base.filter (λ c, isNode c = true) cs).
Proof.
  revert w. induction cs as [|c cs IH]; intros w; [by exists [], w|]. cbn [readDropsOf]. rewrite filter_cons. destruct (isNode c) eqn:Hn.
  - rewrite decide_True by done. destruct (ft_stats (ct_Name c) w) as (r & w1 & -> & Hr & Hv & Hc). destruct (IH w1) as (l & w2 & -> & [Hv' Hc'] & ->).
    eexists _, w2. split; [done|]. split; [split; congruence|]. cbn [map]. by rewrite Hr, Hc.
  - rewrite decide_False by done. apply IH.
Qed.

Lemma leak_none base l : (∀ name d, (name, d) ∈ l → dropsOf base name = d) → leakOf base l = "".
Proof.
  induction l as [|[name d] l IH]; intros H; [done|]. cbn [leakOf]. rewrite (H name d) by left. rewrite !Z.sub_diag. cbn. apply IH. intros nm e Hin. apply H. by right.
Qed.

Lemma dropsOf_same (cs : list Container) (f : string → drops) name d :
  (name, d) ∈ map (λ c, (ct_Name c, f (ct_Name c))) cs → dropsOf (map (λ c, (ct_Name c, f (ct_Name c))) cs) name = d.
Proof.
  intros (c & [= -> ->] & Hin)%list_elem_of_fmap. unfold dropsOf. induction cs as [|x cs IH]; [by apply elem_of_nil in Hin|]. cbn [map List.find fst].
  destruct (String.eqb_spec (ct_Name x) (ct_Name c)) as [->|Hne]; [done|]. apply IH. apply elem_of_cons in Hin as [->|?]; [done|done].
Qed.

Lemma probe_passes st pb w : st ∈ sts → st_Probe st = Some pb → targetable pb = true → pb_ExpectFail pb = false →
  oracle n sp covers (view w) pb = Some (pb_ExpectSrc pb) → ∃ w', runProbe quote unmarshal sp pb w = ("", w') ∧ same w w'.
Proof.
  intros Hst Hpb Ht He Ho. unfold runProbe. destruct (target_found pb w Ht) as (c & cmd & w1 & Htg & Hv1 & Hc1). rewrite Htg.
  assert (∃ base w2, (if pb_CheckNoDrops pb then readDrops unmarshal sp w1 else ([], w1)) = (base, w2) ∧ same w w2 ∧
    (pb_CheckNoDrops pb = true → base = map (λ c, (ct_Name c, counters w (ct_Name c))) (base.filter (λ c, isNode c = true) (sm_Containers sp)))) as (base & w2 & -> & [Hv2 Hc2] & Hbase).
  { destruct (pb_CheckNoDrops pb); [|by exists [], w1]. destruct (readDrops_same (sm_Containers sp) w1) as (l & w2 & H & [Hv Hc] & ->).
    exists (map (λ c, (ct_Name c, counters w1 (ct_Name c))) (base.filter (λ c, isNode c = true) (sm_Containers sp))), w2. split; [exact H|]. split; [split; congruence|]. by rewrite Hc1. }
  destruct (ft_probe st pb w w1 c cmd w2 Hst Hpb Htg) as (r & w3 & -> & Hex & Hsrc & Hv3 & Hc3); [by rewrite Hv2|].
  unfold judge. rewrite He, Hex, Hsrc, String.eqb_refl. cbn [negb]. change (0 =? 0)%Z with true. cbn [negb]. rewrite andb_false_r.
  destruct (pb_CheckNoDrops pb); [|exists w3; split; [done|split; congruence]].
  destruct (sleep_same second w3) as (w4 & -> & Hv4 & Hc4). destruct (readDrops_same (sm_Containers sp) w4) as (l & w5 & H & [Hv5 Hc5] & Hl).
  unfold readDrops. rewrite H. exists w5. split; [|split; congruence]. f_equal. apply leak_none. intros name d Hin. rewrite Hbase by done.
  rewrite Hl in Hin. assert (counters w4 = counters w) as Hcw by congruence. rewrite Hcw in Hin. by apply dropsOf_same.
Qed.

Lemma step_passes st w rest : st ∈ sts → (∀ pb, st_Probe st = Some pb → targetable pb = true) → agrees n sp covers (view w) (st :: rest) = true →
  ∃ w', runStep quote unmarshal sp st w = (None, w') ∧ view w' = act sp (view w) st ∧ agrees n sp covers (view w') rest = true.
Proof.
  intros Hst Htg Ha. unfold runStep. cbn [agrees] in Ha. apply andb_true_iff in Ha as [Hp Ha]. destruct (st_Op st) eqn:Hop.
  - destruct (st_Probe st) as [pb|] eqn:Hpb; [|done]. apply andb_true_iff in Hp as [He%negb_true_iff Ho%bool_decide_eq_true].
    destruct (probe_passes st pb w Hst Hpb (Htg pb eq_refl) He Ho) as (w' & -> & Hv & _). exists w'. split; [done|].
    assert (act sp (view w) st = view w) as Hact by (unfold act; by rewrite Hop). rewrite Hact in *. by rewrite Hv.
  - destruct (ft_pause st Hst Hop w) as ([] & w' & -> & _ & Hv & _). exists w'. split; [done|]. by rewrite Hv.
  - destruct (ft_unpause st Hst Hop w) as ([] & w' & -> & _ & Hv & _). exists w'. split; [done|]. by rewrite Hv.
  - destruct (ft_signal st Hst Hop w) as ([] & w' & -> & _ & Hv & _). exists w'. split; [done|]. by rewrite Hv.
  - destruct (ft_append st Hst Hop w) as (r & w' & -> & Hr & Hv & _). exists w'. cbn zeta. rewrite Hr. split; [done|]. by rewrite Hv.
  - destruct (sleep_same (st_Wait st) w) as (w' & -> & Hv & _). exists w'. split; [done|].
    assert (act sp (view w) st = view w) as Hact by (unfold act; by rewrite Hop). rewrite Hact in *. by rewrite Hv.
Qed.

Lemma steps_pass l w rest : l ⊆ sts → (∀ st pb, st ∈ l → st_Probe st = Some pb → targetable pb = true) → agrees n sp covers (view w) (l ++ rest) = true →
  ∃ w', runSteps quote unmarshal sp l w = (None, w') ∧ agrees n sp covers (view w') rest = true.
Proof.
  revert w. induction l as [|st l IH]; intros w Hsub Htg Ha; [by exists w|]. cbn [app runSteps] in *.
  destruct (step_passes st w (l ++ rest)%list) as (w1 & -> & _ & Ha1); [apply Hsub; left|intros pb; apply Htg; left|done|].
  apply IH; [intros x Hx; apply Hsub; by right|intros x pb Hx; apply Htg; by right|done].
Qed.

Lemma scenarios_pass only scs w : stepsOf (selected only) scs ⊆ sts → (∀ st pb, st ∈ stepsOf (selected only) scs → st_Probe st = Some pb → targetable pb = true) →
  agrees n sp covers (view w) (stepsOf (selected only) scs) = true →
  ∃ rs w', runScenarios quote unmarshal sp only scs w = (rs, w') ∧ Forall (λ r, rs_Pass r = true) rs ∧ map rs_Scenario rs = map sn_Name (List.filter (selected only) scs).
Proof.
  revert w. induction scs as [|sc scs IH]; intros w Hsub Htg Ha; [by exists [], w|]. cbn [runScenarios]. unfold stepsOf in *. cbn [List.filter] in *.
  destruct (selected only sc); [|by apply IH]. cbn [map concat] in *. set (w0 := logLine _ w).
  destruct (ft_log ("scenario: " +:+ sn_Name sc) w) as [Hv0 _]. fold w0 in Hv0. rewrite <- Hv0 in Ha.
  destruct (steps_pass (sn_Steps sc) w0 _ (λ x Hx, Hsub x (proj2 (elem_of_app _ _ _) (or_introl Hx))) (λ st pb Hx, Htg st pb (proj2 (elem_of_app _ _ _) (or_introl Hx))) Ha) as (w1 & H1 & Ha1).
  unfold runScenario. rewrite H1. cbn [rs_Pass]. set (w2 := logLine _ w1). destruct (ft_log ("  PASS " +:+ sn_Name sc) w1) as [Hv2 _]. fold w2 in Hv2. rewrite <- Hv2 in Ha1.
  destruct (IH w2) as (rs & w3 & -> & Hrs & Hnames); [intros x Hx; apply Hsub, elem_of_app; by right|intros x pb Hx; apply Htg, elem_of_app; by right|done|].
  eexists _, w3. split; [done|]. split; [by constructor|]. cbn [map rs_Scenario List.filter]. by rewrite Hnames.
Qed.
End faithful.

(** ** Lemmas: waiting for a port *)

Section clock.
Context (Hsleep : ∀ d w w', sleepFor d w = (Ok tt, w') → (now w + d ≤ now w')%Z) (Hlogs : ∀ c w, (now w ≤ now (Logs c w).2)%Z).

Lemma portLoop_enough c deadline extra fuel w : (deadline - now w < (Z.of_nat fuel - 1) * 300000000)%Z → (1 ≤ fuel)%nat → portLoop (fuel + extra) c deadline w = portLoop fuel c deadline w.
Proof.
  revert w. induction fuel as [|f IH]; intros w Hlt Hf; [lia|]. cbn [plus portLoop]. pose proof (Hlogs c w) as Hl.
  assert (∀ w1, (now w ≤ now w1)%Z → (if (deadline <? now w1)%Z then (Err "no debug-tun port in logs", w1) else (do! _ := sleep 300000000 in portLoop (f + extra) c deadline) w1) =
    (if (deadline <? now w1)%Z then (Err "no debug-tun port in logs", w1) else (do! _ := sleep 300000000 in portLoop f c deadline) w1)) as Hstep.
  { intros w1 Hw1. destruct (Z.ltb_spec deadline (now w1)); [done|]. unfold andThen, sleep. change (300000000 <=? 0)%Z with false. cbn [negb].
    destruct (sleepFor 300000000 w1) as [[[]|e] w2] eqn:Hs; [|done]. apply Hsleep in Hs. apply IH; lia. }
  destruct (Logs c w) as [[logs|e] w1]; cbn [snd] in Hl; [destruct (findPort (chars logs)); [done|]|]; by apply Hstep.
Qed.
End clock.
End facts.

(** ** Lemmas: what a passing probe saw *)

(** The command exited well having printed the expected source, and no node's counters
    moved meanwhile. *)
Definition saw {W} `{!Driver W} (quote : string → string) (unmarshal : string → option drops) (sp : SimPlan) (pb : ProbeStep) (w : W) : Prop :=
  ∃ container cmd w1 base w2 r w3, probeTarget sp pb w = (Ok (container, cmd), w1) ∧ Exec container (probeArgs pb cmd) w2 = (Ok r, w3) ∧
    er_ExitCode r = 0 ∧ (pb_ExpectSrc pb ≠ "" → parseSrc (er_Stdout r) = pb_ExpectSrc pb) ∧
    (pb_CheckNoDrops pb = true → readDrops unmarshal sp w1 = (base, w2) ∧ ∃ w4 after w5, sleep second w3 = (Ok tt, w4) ∧ readDrops unmarshal sp w4 = (after, w5) ∧
      ∀ name d, (name, d) ∈ after → (dr_NoRoute d - dr_NoRoute (dropsOf base name)) mod 2 ^ 64 = 0 ∧ (dr_Decode d - dr_Decode (dropsOf base name)) mod 2 ^ 64 = 0)%Z.

Lemma leak_clean base after : leakOf base after = "" → (∀ name d, (name, d) ∈ after →
  (dr_NoRoute d - dr_NoRoute (dropsOf base name)) mod 2 ^ 64 = 0 ∧ (dr_Decode d - dr_Decode (dropsOf base name)) mod 2 ^ 64 = 0)%Z.
Proof.
  induction after as [|[nm a] after IH]; intros H name d Hin; [by apply elem_of_nil in Hin|]. cbn [leakOf] in H. cbn zeta in H.
  destruct (Z.eqb_spec ((dr_NoRoute a - dr_NoRoute (dropsOf base nm)) mod 2 ^ 64) 0) as [H1|_].
  2:{ apply (f_equal chars) in H. cbn [negb] in H. rewrite !chars_app in H. by destruct (chars nm). }
  destruct (Z.eqb_spec ((dr_Decode a - dr_Decode (dropsOf base nm)) mod 2 ^ 64) 0) as [H2|_].
  2:{ apply (f_equal chars) in H. cbn [negb] in H. rewrite !chars_app in H. by destruct (chars nm). }
  apply elem_of_cons in Hin as [[= -> ->]|Hin]; [done|by apply IH].
Qed.

(** Refusing a probe always says why. *)
Lemma target_text {W} `{!Driver W} sp pb (w w' : W) : probeTarget sp pb w ≠ (Err "", w').
Proof.
  unfold probeTarget. destruct (pb_Inject pb).
  - unfold andThen, wrapped. destruct (debugTunPortOf _ w) as [[port|e] w1]; cbn; [done|]. by intros [= H _].
  - unfold httpTarget. cbn zeta. destruct (_ =? ""); [|done]. by intros [=].
Qed.

Lemma probe_saw {W} `{!Driver W} quote unmarshal sp pb w w' : pb_ExpectFail pb = false → runProbe quote unmarshal sp pb w = ("", w') → 
  (∃ w1, probeTarget sp pb w = (Err "", w1)) ∨ (∃ w3 w4, sleep second w3 = (Err "", w4)) ∨ saw quote unmarshal sp pb w.
Proof.
  intros He H. unfold runProbe in H. unfold saw. destruct (probeTarget sp pb w) as [[[container cmd]|e] w1] eqn:Ht.
  2:{ left. injection H as -> ->. by exists w'. }
  right. destruct (if pb_CheckNoDrops pb then readDrops unmarshal sp w1 else ([], w1)) as [base w2] eqn:Hb.
  destruct (Exec container (probeArgs pb cmd) w2) as [[r|e] w3] eqn:Hx; [|by (apply (f_equal fst) in H; discriminate H)].
  unfold judge in H. rewrite He in H. destruct (Z.eqb_spec (er_ExitCode r) 0) as [Hex|Hex]; cbn [negb] in H; [|by (apply (f_equal fst) in H; discriminate H)].
  destruct (String.eqb_spec (pb_ExpectSrc pb) "") as [Hs|Hs], (String.eqb_spec (parseSrc (er_Stdout r)) (pb_ExpectSrc pb)) as [Hp|Hp]; cbn [negb andb] in H;
    try (by (apply (f_equal fst) in H; discriminate H)).
  all: destruct (pb_CheckNoDrops pb) eqn:Hcd; [|right; exists container, cmd, w1, base, w2, r, w3; by split_and!].
  all: destruct (sleep second w3) as [[[]|e] w4] eqn:Hsl; [right|left; injection H as -> _; by exists w3, w4].
  all: destruct (readDrops unmarshal sp w4) as [after w5] eqn:Ha; injection H as H _; exists container, cmd, w1, base, w2, r, w3;
    split; [done|]; split; [done|]; split; [done|]; split; [done|]; intros _; split; [done|]; exists w4, after, w5; split; [done|]; split; [done|]; by apply leak_clean.
Qed.

(** ** Theorems *)

(** Waiting for a node's port ends.  With a clock that sleeping moves by at
    least the time slept, 52 rounds are as good as any greater number: the loop has
    returned by then, with the port, at its deadline of 15 seconds, or because the
    context was cancelled. *)
Theorem port_wait_ends {W} `{!Driver W} container w extra :
  (∀ d w w', sleepFor d w = (Ok tt, w') → (now w + d ≤ now w')%Z) → (∀ c w, (now w ≤ now (Logs c w).2)%Z) →
  portLoop (portFuel + extra) container (now w + 15 * second)%Z w = debugTunPortOf container w.
Proof. intros Hs Hl. unfold debugTunPortOf. apply portLoop_enough; [done..| |]; unfold portFuel, second; lia. Qed.

(** Claim C24.  A run leaves nothing behind.  Against a driver that keeps the contract
    of its interface ([Cleanup] leaves nothing, [Acquire], builds and the log add
    nothing), a run without [Keep] ends clean whatever fails on its way: the mesh half
    created, a cancelled wait, a failed scenario or probe.  So does the run with a
    broken key. *)
Theorem run_cleans_up {W} `{!Driver W} quote unmarshal marshal mustJSON publicKey visit (clean : W → Prop) n opts w :
  (∀ w, clean (Cleanup w).2) → (∀ w, clean w → clean (Acquire w).2) → (∀ tag df cd w, clean w → clean (BuildImage tag df cd w).2) →
  (∀ s w, clean w → clean (logLine s w)) →
  ro_Keep opts = false → clean w →
  clean (Run quote unmarshal marshal mustJSON publicKey visit n opts w).2 ∧ clean (RunPSKMismatch quote unmarshal marshal mustJSON publicKey visit n opts w).2.
Proof.
  intros Hclean Hacq Hbuild Hlog Hkeep Hw.
  assert (∀ sp scs plan, clean (RunPlan quote unmarshal sp scs (settled opts plan) w).2) as Hrun.
  { intros sp scs plan. unfold RunPlan, andThen at 1. assert (clean (prepare sp (settled opts plan) w).2) as Hp.
    { unfold prepare, andThen. specialize (Hacq w Hw). destruct (Acquire w) as [[[]|e] w1]; cbn [snd] in *; [|done]. cbn [ro_Build settled].
      destruct (ro_Build opts); [|done]. unfold logged, wrapped. set (m := BuildImage _ _ _ _). assert (clean m.2) as Hm by (apply Hbuild, Hlog, Hacq).
      by destruct m as [[]]. }
    destruct (prepare sp (settled opts plan) w) as [[[]|e] w1]; cbn [snd] in *; [|done]. destruct (andThen _ _ w1) as [r w2]. cbn [snd ro_Keep settled]. rewrite Hkeep. apply Hclean. }
  split.
  - unfold Run. destruct (Plan _ _ _ _ _ _); [apply Hrun|done].
  - unfold RunPSKMismatch. destruct (noFallbackGatewayPath n) as [[broken p]|]; [|done]. destruct (Plan _ _ _ _ _ _); [apply Hrun|done].
Qed.

(** A pass means what it says.  Against any driver whose errors have a text,
    a scenario reported as passed has run each of its probes: the command exited with
    0 after printing the expected source, and where drops are checked no node's
    counters moved between the readings before and after. *)
Theorem pass_is_seen {W} `{!Driver W} quote unmarshal sp sc w r w' st pb :
  (∀ d w w', sleepFor d w ≠ (Err "", w')) →
  runScenario quote unmarshal sp sc w = (r, w') → rs_Pass r = true →
  st ∈ sn_Steps sc → st_Op st = OpProbe → st_Probe st = Some pb → pb_ExpectFail pb = false →
  ∃ w0, saw quote unmarshal sp pb w0.
Proof.
  intros Hsleep H Hpass Hst Hop Hpb He. assert (∃ w2, runSteps quote unmarshal sp (sn_Steps sc) w = (None, w2)) as [w2 Hrun].
  { unfold runScenario in H. destruct (runSteps _ _ _ _ w) as [[d|] w2]; [injection H as <- _; done|by exists w2]. }
  clear H. revert w Hrun. induction (sn_Steps sc) as [|x l IH]; intros w Hrun; [by apply elem_of_nil in Hst|]. cbn [runSteps] in Hrun.
  destruct (runStep _ _ _ x w) as [[d|] w1] eqn:Hx; [done|]. apply elem_of_cons in Hst as [<-|Hin]; [|by eapply IH].
  unfold runStep in Hx. rewrite Hop, Hpb in Hx. destruct (runProbe quote unmarshal sp pb w) as [d w1'] eqn:Hp.
  destruct (String.eqb_spec d "") as [->|]; [|done]. exists w.
  destruct (probe_saw quote unmarshal sp pb w w1' He Hp) as [[w3 Ht]|[(w3 & w4 & Hsl)|Hs]]; [|exfalso|exact Hs].
  - by apply target_text in Ht.
  - unfold sleep in Hsl. change (second <=? 0)%Z with false in Hsl. by apply Hsleep in Hsl.
Qed.

(** Claim C23.  A mesh that routes as its schema says passes, for the schemas the
    matrix can tell apart.  For a valid schema whose paths are in the order the matrix
    reads them in (Oracle.v's [orderly] and [orderly_kernel]: destination branches
    first with one generated file each, other guards healthchecks of the branch's own
    gateway, no two guarded branches over one gateway; outside it a mesh that does
    what the schema says can fail, Oracle.v's [disorderly_mismatch]), planned, stood
    up and fresh, with a dial target for every probe, and a driver whose mesh does what
    the abstract mesh does, a run reports every selected scenario, in order, and none
    as failed. *)
Theorem faithful_run_passes {W} `{!Driver W} quote unmarshal marshal mustJSON publicKey visit covers view counters n0 n opts sp w w1 :
  Schema.validate n0 = Ok n → Plan marshal mustJSON publicKey visit n (ro_Plan opts) = Ok sp → (∀ tok, covers tok (cutSlash tok) = true) →
  (∀ p, p ∈ w_Paths n → if kernelOrigin n p then orderly_kernel n sp covers p else orderly n sp p) →
  Faithful unmarshal n sp covers view counters (stepsOf (selected (ro_Only opts)) (Scenarios n sp)) →
  (∀ st pb, st ∈ stepsOf (selected (ro_Only opts)) (Scenarios n sp) → st_Probe st = Some pb → targetable sp pb = true) →
  (do! _ := prepare sp (settled opts (ro_Plan opts)) in standUp sp (ro_Settle (settled opts (ro_Plan opts)))) w = (Ok tt, w1) → view w1 = fresh →
  ∃ rs w', Run quote unmarshal marshal mustJSON publicKey visit n opts w = (Ok rs, w') ∧ Failed rs = 0 ∧
    map rs_Scenario rs = map sn_Name (List.filter (selected (ro_Only opts)) (Scenarios n sp)).
Proof.
  intros Hval Hplan Hown Hor Hfaith Htg Hup Hview.
  pose proof (plan_agrees _ _ _ _ covers n0 n _ sp Hval Hplan Hown Hor (selected (ro_Only opts))) as Ha. rewrite <- Hview in Ha.
  destruct (scenarios_pass quote unmarshal n sp covers view counters _ (ro_Only opts) (Scenarios n sp) w1 (reflexivity _) Htg Ha) as (rs & w2 & Hrun & Hpass & Hnames).
  unfold andThen in Hup. unfold Run, RunPlan. rewrite Hplan. unfold andThen. destruct (prepare _ _ w) as [[[]|e] w0]; [|done].
  destruct (standUp _ _ w0) as [[[]|e] w1']; [|done]. injection Hup as ->. cbn [ro_Only settled]. rewrite Hrun. exists rs. eexists. split; [done|]. split; [|done].
  unfold Failed. assert (base.filter (λ r, rs_Pass r = false) rs = []) as ->; [|done]. clear -Hpass. induction Hpass as [|r rs Hr _ IH]; [done|].
  rewrite filter_cons_False by congruence. done.
Qed.

(** ** A driver for Oracle.v's network *)

Record world := MkWorld { wo_mesh : mesh; wo_made : list string; wo_clock : Z }.

Definition testSteps : list Step := Eval vm_compute in stepsOf (selected "") (Scenarios testInferred testSim).
Lemma testSteps_eq : stepsOf (selected "") (Scenarios testInferred testSim) = testSteps.
Proof. vm_compute. reflexivity. Qed.

Definition moved (st : Step) (w : world) : world := MkWorld (act testSim (wo_mesh w) st) (wo_made w) (wo_clock w).
Definition made (name : string) (w : world) : vres () * world := (Ok tt, MkWorld (wo_mesh w) (name :: wo_made w) (wo_clock w)).

(** The step of the run that a command carries out. *)
Definition isAppend (c : string) (cmd : list string) (st : Step) : bool :=
  match st_Op st with
  | OpAppendFile => (st_Target st =? c) && bool_decide (cmd = ["sh"; "-c"; "echo " +:+ shellQuote (st_Content st) +:+ " >> " +:+ shellQuote (st_File st)])
  | _ => false
  end.
Definition isProbe (c : string) (cmd : list string) (st : Step) : bool :=
  match st_Probe st with
  | Some pb => match httpTarget testSim pb with Ok (c', cmd') => (c' =? c) && bool_decide (cmd = probeArgs pb cmd') | Err _ => false end
  | None => false
  end.
Definition exec (c : string) (cmd : list string) (w : world) : vres ExecResult * world :=
  match List.find (isAppend c cmd) testSteps with
  | Some st => (Ok (MkExec 0 "" ""), moved st w)
  | None =>
      match List.find (isProbe c cmd) testSteps ≫= st_Probe with
      | Some pb => (Ok (MkExec 0 ("src=" +:+ default "" (oracle testInferred testSim ownAddress (wo_mesh w) pb)) ""), w)
      | None => (Ok (MkExec 1 "" ""), w)
      end
  end.

#[export] Instance testDriver : Driver world := {|
  Acquire w := (Ok tt, MkWorld fresh [] (wo_clock w));
  BuildImage _ _ _ w := (Ok tt, w);
  CreateNetwork name _ w := made name w;
  CreateContainer c w := made (ct_Name c) w;
  Start _ w := (Ok tt, w);
  Exec := exec;
  Pause t w := (Ok tt, moved (pauseStep t) w);
  Unpause t w := (Ok tt, moved (unpauseStep t) w);
  Signal t s w := (Ok tt, moved (signalStep t s) w);
  Logs _ w := (Ok "listening on 127.0.0.1:9", w);
  Cleanup w := (Ok tt, MkWorld fresh [] (wo_clock w));
  sleepFor d w := (Ok tt, MkWorld (wo_mesh w) (wo_made w) (wo_clock w + d)%Z);
  now := wo_clock;
  logLine _ w := w;
|}.

Lemma Exec_exec c cmd w : Exec c cmd w = exec c cmd w.
Proof. done. Qed.

Lemma oracle_fields m pb pb' : pb_Node pb = pb_Node pb' → pb_SrcIP pb = pb_SrcIP pb' → pb_Dst pb = pb_Dst pb' →
  oracle testInferred testSim ownAddress m pb = oracle testInferred testSim ownAddress m pb'.
Proof. unfold oracle. by intros -> -> ->. Qed.

(** The probes of the run, each as its command finds it. *)
Definition found (pb : ProbeStep) : bool :=
  match httpTarget testSim pb with
  | Ok (c, cmd) =>
      match List.find (isAppend c (probeArgs pb cmd)) testSteps, List.find (isProbe c (probeArgs pb cmd)) testSteps ≫= st_Probe with
      | None, Some pb' => (pb_Node pb' =? pb_Node pb) && (pb_SrcIP pb' =? pb_SrcIP pb) && (pb_Dst pb' =? pb_Dst pb) &&
          negb (pb_Inject pb) && (parseSrc ("src=" +:+ pb_ExpectSrc pb) =? pb_ExpectSrc pb)
      | _, _ => false
      end
  | Err _ => false
  end.

Lemma all_found : forallb (λ st, match st_Probe st with Some pb => found pb | None => true end) testSteps = true.
Proof. vm_compute. reflexivity. Qed.

(** Appends, each as its command finds it. *)
Definition appendFound (st : Step) : bool :=
  match List.find (isAppend (st_Target st) ["sh"; "-c"; "echo " +:+ shellQuote (st_Content st) +:+ " >> " +:+ shellQuote (st_File st)]) testSteps with
  | Some st' => match st_Op st' with OpAppendFile => true | _ => false end && (st_Target st' =? st_Target st) && (st_File st' =? st_File st) && (st_Content st' =? st_Content st)
  | None => false
  end.

Lemma appends_found : forallb (λ st, match st_Op st with OpAppendFile => appendFound st | _ => true end) testSteps = true.
Proof. vm_compute. reflexivity. Qed.

Lemma act_fields m st st' : st_Op st = st_Op st' → st_Target st = st_Target st' → st_Signal st = st_Signal st' ∨ st_Op st ≠ OpSignal →
  (st_File st = st_File st' ∧ st_Content st = st_Content st') ∨ st_Op st ≠ OpAppendFile → act testSim m st = act testSim m st'.
Proof. unfold act. intros <- <- Hs Hf. destruct (st_Op st); try done; [by destruct Hs as [<-|?]|by destruct Hf as [[<- <-]|?]]. Qed.

#[export] Instance testFaithful : Faithful (λ _, None) testInferred testSim ownAddress wo_mesh (λ _ _, MkDrops 0 0) testSteps.
Proof.
  split.
  - intros st _ Hop w. eexists tt, _. split; [done|]. split; [done|]. split; [|done]. cbn [wo_mesh moved from_option]. apply act_fields; rewrite ?Hop; try done; by right.
  - intros st _ Hop w. eexists tt, _. split; [done|]. split; [done|]. split; [|done]. cbn [wo_mesh moved from_option]. apply act_fields; rewrite ?Hop; try done; by right.
  - intros st _ Hop w. eexists tt, _. split; [done|]. split; [done|]. split; [|done]. cbn [wo_mesh moved from_option]. apply act_fields; rewrite ?Hop; try done; [by left|by right].
  - intros st Hst Hop w. pose proof appends_found as Ha. rewrite forallb_forall in Ha. specialize (Ha st (proj1 (list_elem_of_In _ _) Hst)). rewrite Hop in Ha.
    unfold appendFound in Ha. rewrite Exec_exec. unfold exec. destruct (List.find (isAppend _ _) testSteps) as [st'|]; [|done].
    destruct (st_Op st') eqn:Hop'; try done. cbn [andb] in Ha. apply andb_true_iff in Ha as [[H1%String.eqb_eq H2%String.eqb_eq]%andb_true_iff H3%String.eqb_eq].
    eexists _, _. split; [done|]. split; [done|]. split; [|done]. cbn [wo_mesh moved from_option]. apply act_fields; rewrite ?Hop, ?Hop'; try done; [by right|by left].
  - intros d w. by eexists tt, _.
  - done.
  - intros c w. eexists _, w. split; [done|]. split; [vm_compute; by eexists|done].
  - intros st pb w0 w1 c cmd w Hst Hpb Htg Ho. pose proof all_found as Ha. rewrite forallb_forall in Ha. specialize (Ha st (proj1 (list_elem_of_In _ _) Hst)). rewrite Hpb in Ha.
    unfold found in Ha. unfold probeTarget in Htg. destruct (pb_Inject pb) eqn:Hinj.
    { destruct (httpTarget testSim pb) as [[c' cmd']|]; [|discriminate Ha]. destruct (List.find (isAppend c' (probeArgs pb cmd')) testSteps); [discriminate Ha|].
      destruct (List.find (isProbe c' (probeArgs pb cmd')) testSteps ≫= st_Probe); [|discriminate Ha]. cbn [negb] in Ha. by rewrite andb_false_r in Ha. }
    pose proof (f_equal fst Htg) as Htg'. cbn [fst] in Htg'. rewrite Htg' in Ha. clear Htg Htg'. rewrite Exec_exec. unfold exec.
    destruct (List.find (isAppend c (probeArgs pb cmd)) testSteps); [discriminate Ha|].
    destruct (List.find (isProbe c (probeArgs pb cmd)) testSteps ≫= st_Probe) as [pb'|]; [|discriminate Ha].
    apply andb_true_iff in Ha as [[[[H1%String.eqb_eq H2%String.eqb_eq]%andb_true_iff H3%String.eqb_eq]%andb_true_iff _]%andb_true_iff H4%String.eqb_eq].
    eexists _, w. split; [done|]. split; [done|]. split; [|split; reflexivity]. cbn [er_Stdout]. rewrite (oracle_fields _ _ _ H1 H2 H3), Ho. exact H4.
  - intros c w. rewrite Exec_exec. unfold exec.
    assert (∀ sts, List.find (isAppend c ["cat"; statsPath]) sts = None) as ->.
    { induction sts as [|st sts IH]; [done|]. cbn [List.find]. unfold isAppend at 1. destruct (st_Op st); try done. by rewrite andb_false_r. }
    assert (∀ sts, List.find (isProbe c ["cat"; statsPath]) sts = None) as ->.
    { induction sts as [|st sts IH]; [done|]. cbn [List.find]. unfold isProbe at 1. destruct (st_Probe st) as [pb|]; [|done]. unfold httpTarget. cbn zeta.
      destruct (_ =? ""); [done|]. cbn [probeArgs app]. rewrite bool_decide_eq_false_2 by discriminate. by rewrite andb_false_r. }
    cbn [mbind option_bind]. by eexists _, w.
Qed.

Definition testOptions : RunOptions := MkRunOptions demoOptions true "" "" false "" 0.
Definition testRun : call world (list Result) :=
  Run (λ s, s) (λ _, None) (λ _, Some "yaml") (λ _, "json") (λ k, k) (λ u, elements (dom u)) testInferred testOptions.

Lemma faithful_run_passes_witness :
  ∃ rs w', testRun (MkWorld fresh [] 0) = (Ok rs, w') ∧ Failed rs = 0 ∧
    map rs_Scenario rs = ["route/main/egress-direct"; "route/main/gw-G1-net"; "failover/main/gw-G2-net"; "sighup/main"].
Proof.
  pose proof testSim_ok as Hplan. unfold demoPlan in Hplan.
  refine (faithful_run_passes (λ s, s) (λ _, None) _ _ _ _ ownAddress wo_mesh (λ _ _, MkDrops 0 0) testNet testInferred testOptions testSim _ _ _ Hplan _ _ _ _ _ _).
  - vm_compute. reflexivity.
  - intros tok. apply String.eqb_refl.
  - intros p Hp. destruct (testPath_orderly p Hp) as [-> H]. exact H.
  - change (ro_Only testOptions) with "". rewrite testSteps_eq. exact testFaithful.
  - change (ro_Only testOptions) with "". rewrite testSteps_eq. assert (forallb (λ st, match st_Probe st with Some pb => targetable testSim pb | None => true end) testSteps = true) as Ht by (vm_compute; reflexivity).
    rewrite forallb_forall in Ht. intros st pb Hst Hpb. specialize (Ht st (proj1 (list_elem_of_In _ _) Hst)). by rewrite Hpb in Ht.
  - vm_compute. reflexivity.
  - vm_compute. reflexivity.
Defined.

Lemma port_wait_ends_witness :
  portLoop (portFuel + 3) "A" (wo_clock (MkWorld fresh [] 7) + 15 * second)%Z (MkWorld fresh [] 7) = (Ok "9", MkWorld fresh [] 7).
Proof.
  refine (eq_trans (port_wait_ends "A" (MkWorld fresh [] 7) 3 _ _) _).
  - intros d w w' [= <-]. cbn. lia.
  - intros c w. cbn. lia.
  - vm_compute. reflexivity.
Defined.

(** The same driver with a context that is cancelled before the first probe. *)
Definition cancelledDriver : Driver world := {|
  Acquire w := (Ok tt, MkWorld fresh [] (wo_clock w));
  BuildImage _ _ _ w := (Ok tt, w);
  CreateNetwork name _ w := made name w;
  CreateContainer c w := made (ct_Name c) w;
  Start _ w := (Ok tt, w);
  Exec := exec;
  Pause t w := (Ok tt, moved (pauseStep t) w);
  Unpause t w := (Ok tt, moved (unpauseStep t) w);
  Signal t s w := (Ok tt, moved (signalStep t s) w);
  Logs _ w := (Ok "", w);
  Cleanup w := (Ok tt, MkWorld fresh [] (wo_clock w));
  sleepFor _ w := (Err "context canceled", w);
  now := wo_clock;
  logLine _ w := w;
|}.

Lemma run_cleans_up_witness :
  let run := @Run world cancelledDriver (λ s, s) (λ _, None) (λ _, Some "yaml") (λ _, "json") (λ k, k) (λ u, elements (dom u)) testInferred testOptions (MkWorld fresh [] 0) in
  run.1 = Err "context canceled" ∧ wo_made run.2 = [].
Proof.
  split; [vm_compute; reflexivity|].
  refine (proj1 (@run_cleans_up world cancelledDriver _ _ _ _ _ _ (λ w, wo_made w = []) testInferred testOptions (MkWorld fresh [] 0) _ _ _ _ _ _)); try done.
Defined.

Definition firstScenario : Scenario := Eval vm_compute in nth 0 (Scenarios testInferred testSim) (MkScenario "" []).
Definition firstProbe : ProbeStep := Eval vm_compute in default (MkProbe "" false "" "" "" "" false false 0) (head (sn_Steps firstScenario) ≫= st_Probe).

Lemma pass_is_seen_witness : pb_ExpectSrc firstProbe = "172.30.5.2" ∧ ∃ w0 : world, saw (λ s, s) (λ _, None) testSim firstProbe w0.
Proof.
  split; [vm_compute; reflexivity|].
  refine (pass_is_seen (λ s, s) (λ _, None) testSim firstScenario (MkWorld fresh [] 0) _ _ (probeStep firstProbe) firstProbe _ (surjective_pairing _) _ _ _ _ _).
  - intros d w w'. discriminate.
  - vm_compute. reflexivity.
  - apply list_elem_of_here.
  - reflexivity.
  - reflexivity.
  - reflexivity.
Defined.
